(* ===== verification/_CoqProject ===== *)
-Q . S2P
Prelude.v
Params.v
CString.v
Locks.v
Bio.v
Cache.v
Log.v
Recovery.v
BlockLayer.v
LogLayer.v
CrashSafety.v
Raid.v
Fs.v
Dir.v
FsBlocks.v
Image.v
BlockAlloc.v
FsInode.v
FsFile.v
FileIO.v
FileTheorems.v
DirProofs.v
UserMem.v
DirTheorems.v
Path.v
Riscv.v
Kalloc.v
Vm.v
VmProofs.v
VmUser.v
VmGrow.v
VmTheorems.v
Access.v
Spinlock.v
Pipe.v
File.v
Proc.v
ProcMem.v
ProcInv.v
ProcProofs.v
ProcSteps.v
ProcTheorems.v
SleepTheorems.v
Sysfile.v
FileTable.v
Ring.v
Console.v
ConsoleTheorems.v
Virtio.v
VirtioTheorems.v
Devices.v
DeviceTheorems.v
Grep.v
Sh.v
ShTheorems.v
ShPrint.v
ShLine.v
Umalloc.v
UmallocTheorems.v
Exec.v
ExecTheorems.v
Mkfs.v
MkfsData.v
MkfsTheorems.v
Trap.v
TrapTheorems.v
Printf.v
PrintfTheorems.v
ShRun.v
UserProgs.v
UserProgsTheorems.v
