(* ===== verification/Prelude.v ===== *)
(** * Verification of an xv6 kernel and its user programs

    The program is a teaching kernel for RISC-V with its user programs and
    the tool that makes its disk image.  This library models it from the C
    sources and proves what makes its parts correct.

    ** The parts and how they interact

    A user program traps into the kernel ([trap.c], [syscall.c]).  A system
    call of [sysproc.c] works on the process table ([proc.c]), one of
    [sysfile.c] on open files ([file.c]), which are pipes ([pipe.c]),
    devices ([console.c], [uart.c]) or inodes ([fs.c]).  The file system
    reaches the disk only through the log ([log.c]) and the buffer cache
    ([bio.c]), the cache only through the disk driver ([virtio_disk.c]).
    Memory comes from [kalloc.c] and is mapped by [vm.c]; [exec.c] builds a
    new image out of a file.  [mkfs.c] makes the image the kernel starts
    from.  On the user side stand the library ([ulib.c], [printf.c],
    [umalloc.c]), the shell ([sh.c]) and utilities.

    ** Modelling conventions

    C code is translated function by function, with the source's names.
    Kernel code is a state transformer [M S A] (this file): it returns,
    panics (an access the hardware refuses is a panic too), waits (goes to
    sleep or spins), or runs out of fuel.  Integers are [Z] with the
    conversions [u8] ... [s32] written where C converts; arrays and strings
    are lists of bytes, pointers into them indices.  Code that sleeps is
    split at [sleep] or [swtch]: each section is a definition of its own and
    the interleavings are step relations.  Where other harts may act between
    the single accesses of a function ([acquire], [release], [sleep]) it is a
    sequence of accesses ([code]), run at once by [exec] or access by access.
    Between components stand classes ([BlockLayer], [UserMem], [RawLayer])
    with the promises as a second class of laws; clients are proved against
    the interface and the implementations discharge it.  The file calls that
    the dispatcher of [Trap.v] calls are a class without laws: what they
    return is a hypothesis of the theorem on system calls.

    ** Files

    - [Prelude.v]: machine integers, little-endian words, slices, the
      monad and its program logic ([wp]: total correctness), shared lemmas
      and tactics.  [Params.v]: the constants of [param.h], [fs.h],
      [stat.h], [fcntl.h].  [CString.v]: [kernel/string.c].

    Disk
    - [Locks.v] ([sleeplock.c]), [Bio.v] ([bio.c]: the LRU list with its
      pointers, the forced-failure hooks), [Cache.v] (the cache as a view of
      blocks), [Log.v], [Recovery.v] ([log.c] over a disk that may stop
      before any write), [BlockLayer.v] (the interface), [LogLayer.v] (log
      and cache implement it), [CrashSafety.v] (theorems), [Raid.v] (the
      disk failure hooks of [sysproc.c]).
    - [Virtio.v], [VirtioTheorems.v]: [virtio_disk.c], with a device that
      finishes requests in any order and with any status.

    File system
    - [Fs.v], [Dir.v]: [fs.c]; [FsBlocks.v], [BlockAlloc.v] (bitmap),
      [FsInode.v], [FsFile.v], [FileIO.v], [FileTheorems.v] (inodes, block
      map, contents), [DirProofs.v], [DirTheorems.v] (directories),
      [Path.v] (path lookup), [Image.v] (small concrete images).
    - [File.v] ([file.c], [pipealloc]), [Sysfile.v] ([sysfile.c] and the
      argument fetching of [syscall.c]), [FileTable.v] (descriptors and
      reference counts), [Pipe.v] ([pipe.c]).
    - [Mkfs.v], [MkfsData.v], [MkfsTheorems.v]: [mkfs/mkfs.c].

    Memory
    - [Riscv.v] (page arithmetic), [Kalloc.v] ([kalloc.c]), [Vm.v]
      ([vm.c]), [VmProofs.v] (page tables as maps), [UserMem.v] (the
      contract of user memory), [VmUser.v] (the copies meet it),
      [VmGrow.v], [VmTheorems.v].
    - [Exec.v], [ExecTheorems.v]: [exec.c].

    Processes
    - [Access.v] (sequences of accesses), [Spinlock.v] ([spinlock.c]),
      [Proc.v] ([proc.c]), [ProcMem.v] (the page table of a new process),
      [ProcInv.v], [ProcProofs.v], [ProcSteps.v] (the machine: any number of
      harts, one step per section), [ProcTheorems.v], [SleepTheorems.v]
      ([sleep], access by access).
    - [Ring.v], [Console.v], [ConsoleTheorems.v]: [console.c], [uart.c].
    - [Devices.v], [DeviceTheorems.v]: the interrupt handlers of the serial
      port and the disk on the process machine.
    - [Trap.v], [TrapTheorems.v]: [trap.c], [plic.c], the dispatcher of
      [syscall.c] and the calls of [sysproc.c].

    User side
    - [Grep.v] ([grep.c]), [Sh.v], [ShTheorems.v], [ShPrint.v], [ShLine.v]
      (the shell's parser), [ShRun.v] (how it runs commands), [Umalloc.v],
      [UmallocTheorems.v] ([umalloc.c]), [Printf.v], [PrintfTheorems.v]
      ([kernel/printf.c], [user/printf.c], [ulib.c]), [UserProgs.v],
      [UserProgsTheorems.v] ([wc.c], [cat.c], [echo.c], [chmod.c], [ls.c],
      [count.c]).

    ** What the theorems show

    - Crash safety: a transaction is installed completely or not at all,
      whichever of its disk writes is the last one before the crash, and
      recovery may itself be interrupted ([CrashSafety]).
    - In all interleavings of callers, device and interrupts, every disk
      request that returns has moved its block, and the driver panics only
      when the device has reported an error.
    - Files: [writei] stores, [readi] returns, nothing else changes; the
      block allocator and the inode operations; directories as maps of
      names; [namei] against a reference walk of the tree on the disk.
    - [mkfs] makes an image on which that file system is well formed.
    - Memory: the page allocator hands no page out twice; [mappages] and
      [uvmalloc] as updates of the map of pages, what [copyout] stores
      [copyin] returns; the stack and the segments [exec] builds.
    - Processes: the table's invariant under every interleaving of sections
      on any number of harts, no lost wakeup, orderly exit; spin locks
      exclude; traps keep the user registers, with the device handlers as
      they are in [uart.c] and [virtio_disk.c]; a trap of a process that is
      killed, or that faults, ends in [exit] (one that is killed while the
      timer has taken its hart dies in its next trap).
    - Pipes refine a queue and the console a line discipline; reference
      counts of open files are exact.
    - User side: the shell's parser undoes a printer and the shell starts
      exactly the processes the commands it reads mean; [grep] prints the matching
      lines; the allocator's blocks never overlap; [count] draws the tree
      of a directory, [wc] and [ls] print what they should, and numbers that
      are not negative are printed so that [atoi] reads them back.
    - Errors: a log filled by operations that [begin_op] admitted, a forced disk failure, a full transmit buffer and
      a pipe descriptor in [sys_read] are shown to end as the code makes
      them end.

    ** Bounds and fuel

    A loop that is not structural takes fuel computed from its input: blocks
    of the bitmap ([balloc]), inodes ([ialloc]), blocks or pages of the
    range ([readi], [writei], [mappages], [loadseg]), entries of a directory
    ([dirlookup], [dirlink]), characters of a path ([namex]) or of a line
    (the shell, four steps a character), buffers ([bget]), headers in the
    heap ([malloc], twice round the ring).  The theorems are stated with
    [wp], or as an equation with [Ret] or [Some], so they prove that the
    fuel is enough.  [count] follows 24 levels: its array ends at the 20th,
    and two levels later it is read out of bounds.

    ** Not modelled

    Boot code, control-register and device initialisation ([start.c],
    [main.c], [plicinit], [uartinit], [trapinit]), the assembly files and
    [swtch]: they have no state of the program's own, and what they do to
    the hart is what the split at [swtch] assumes.  [ramdisk.c] is not in
    the build.  The kernel's messages and [procdump] only print.  The
    remaining user programs ([init], [kill], [ln], [mkdir], [rm], [symln],
    [zombie], [gen], [grind], [stressfs], the [mp4] tests) are straight
    sequences of system calls or test scripts.  Code that is not in the
    repository is a parameter: the virtio device, the answers of the serial
    port's status register, the contents of the files given to [mkfs], and,
    for user programs, what the kernel answers; for the shell this includes
    the characters that its own reads return, since the programs it starts
    share its input. *)
From Stdlib Require Export ZArith Lia.
From Stdlib Require String Ascii.
From stdpp Require Export numbers strings sets gmap list.
#[export] Set Default Goal Selector "!".
Open Scope Z_scope.

Declare Scope xv6_scope.
Delimit Scope xv6_scope with xv6.
Open Scope xv6_scope.

(** ** Machine integers

    The C types the kernel uses, as [Z] with the conversion (wrap-around)
    written out: [uchar], [ushort], [uint], [uint64], [short] and [int]. *)
Definition u8 (x : Z) : Z := x mod 2 ^ 8.
Definition u16 (x : Z) : Z := x mod 2 ^ 16.
Definition u32 (x : Z) : Z := x mod 2 ^ 32.
Definition u64 (x : Z) : Z := x mod 2 ^ 64.
Definition s16 (x : Z) : Z := (x + 2 ^ 15) mod 2 ^ 16 - 2 ^ 15.
Definition s32 (x : Z) : Z := (x + 2 ^ 31) mod 2 ^ 32 - 2 ^ 31.

Create HintDb xv6.
Create HintDb xv6len.

Ltac zmod := unfold u8, u16, u32, u64, s16, s32 in *;
  repeat match goal with
  | |- context [?a mod ?b] =>
      lazymatch goal with
      | _ : 0 <= a mod b < b |- _ => fail
      | _ => pose proof (Z.mod_pos_bound a b ltac:(lia))
      end
  end.

Lemma u32_small x : 0 <= x < 2 ^ 32 → u32 x = x.
Proof. intros H. apply Z.mod_small, H. Qed.

Lemma u32_range x : 0 <= u32 x < 2 ^ 32.
Proof. apply Z.mod_pos_bound. lia. Qed.

Lemma u8_range x : 0 <= u8 x < 2 ^ 8.
Proof. apply Z.mod_pos_bound. lia. Qed.

Lemma s16_small x : - 2 ^ 15 <= x < 2 ^ 15 → s16 x = x.
Proof. intros H. unfold s16. rewrite Z.mod_small; lia. Qed.

Lemma s32_small x : - 2 ^ 31 <= x < 2 ^ 31 → s32 x = x.
Proof. intros H. unfold s32. rewrite Z.mod_small; lia. Qed.

Lemma s16_range x : - 2 ^ 15 <= s16 x < 2 ^ 15.
Proof. unfold s16. pose proof (Z.mod_pos_bound (x + 2 ^ 15) (2 ^ 16) ltac:(lia)). lia. Qed.

Lemma s16_u16 x : s16 (u16 x) = s16 x.
Proof.
  unfold s16, u16. f_equal. by rewrite Zplus_mod_idemp_l.
Qed.

Lemma s32_u32 x : s32 (u32 x) = s32 x.
Proof. unfold s32, u32. f_equal. by rewrite Zplus_mod_idemp_l. Qed.

(** ** Bytes and little-endian words *)
Definition is_byte (x : Z) : Prop := 0 <= x < 256.

Fixpoint le_enc (n : nat) (z : Z) : list Z :=
  match n with
  | O => []
  | S n => z mod 256 :: le_enc n (z / 256)
  end.

Fixpoint le_dec (l : list Z) : Z :=
  match l with
  | [] => 0
  | x :: l => x + 256 * le_dec l
  end.

Lemma le_enc_length n z : length (le_enc n z) = n.
Proof. revert z. induction n as [|n IH]; intros z; simpl; [done | by rewrite IH]. Qed.

Lemma le_dec_enc n z : le_dec (le_enc n z) = z mod 256 ^ Z.of_nat n.
Proof.
  revert z. induction n as [|n IH]; intros z.
  - simpl. by rewrite Z.mod_1_r.
  - cbn [le_enc le_dec]. rewrite IH, Nat2Z.inj_succ, Z.pow_succ_r by lia.
    rewrite Z.rem_mul_r by (try apply Z.pow_pos_nonneg; lia). lia.
Qed.

Lemma le_enc_bytes n z : Forall is_byte (le_enc n z).
Proof.
  revert z. induction n as [|n IH]; intros z; constructor; [| apply IH].
  unfold is_byte. apply Z.mod_pos_bound. lia.
Qed.

Lemma le_enc_dec l : Forall is_byte l → le_enc (length l) (le_dec l) = l.
Proof.
  induction 1 as [|x l Hx _ IH]; [done |]. unfold is_byte in Hx.
  cbn [length le_enc le_dec].
  rewrite (Z.mul_comm 256), Z_mod_plus_full, Z.mod_small by lia.
  rewrite Z.div_add, Z.div_small, Z.add_0_l by lia. by rewrite IH.
Qed.

Lemma le_dec_zeros n : le_dec (replicate n 0) = 0.
Proof. induction n as [|n IH]; [done |]. cbn [replicate le_dec]. by rewrite IH. Qed.

Lemma le_dec_range l : Forall is_byte l → 0 <= le_dec l < 256 ^ Z.of_nat (length l).
Proof.
  induction 1 as [|x l Hx _ IH]; [simpl; lia |]. unfold is_byte in Hx.
  cbn [length le_dec]. rewrite Nat2Z.inj_succ, Z.pow_succ_r by lia. lia.
Qed.

(** ** Arrays: reading a slice, overwriting a slice

    [splice off new l] is what [memmove(l + off, new, length new)] leaves in
    an array [l] that has room for it; [slice] is the matching read. *)
Section Slices.
Context {A : Type}.
Implicit Types l new : list A.

Definition slice (off n : nat) l : list A := take n (drop off l).
Definition splice (off : nat) new l : list A :=
  take off l ++ new ++ drop (off + length new) l.

Lemma slice_length off n l :
  (off + n ≤ length l)%nat → length (slice off n l) = n.
Proof. intros H. unfold slice. rewrite length_take, length_drop. lia. Qed.

Lemma splice_length off new l :
  (off + length new ≤ length l)%nat → length (splice off new l) = length l.
Proof.
  intros H. unfold splice. rewrite !length_app, length_take, length_drop. lia.
Qed.

Lemma lookup_slice off n l (i : nat) :
  (i < n)%nat → slice off n l !! i = l !! (off + i)%nat.
Proof.
  intros H. unfold slice. rewrite lookup_take_lt by lia. apply lookup_drop.
Qed.

Lemma lookup_splice_in off new l (i : nat) :
  (off + length new ≤ length l)%nat → (off ≤ i < off + length new)%nat →
  splice off new l !! i = new !! (i - off)%nat.
Proof.
  intros Hl Hi. unfold splice.
  rewrite lookup_app_r by (rewrite length_take; lia).
  rewrite length_take, Nat.min_l by lia.
  by rewrite lookup_app_l by lia.
Qed.

Lemma lookup_splice_out off new l (i : nat) :
  (off + length new ≤ length l)%nat → (i < off ∨ off + length new ≤ i)%nat →
  splice off new l !! i = l !! i.
Proof.
  intros Hl [Hi | Hi]; unfold splice.
  - rewrite lookup_app_l by (rewrite length_take; lia).
    by rewrite lookup_take_lt by lia.
  - rewrite lookup_app_r by (rewrite length_take; lia).
    rewrite lookup_app_r by (rewrite length_take; lia).
    rewrite lookup_drop, length_take. f_equal. lia.
Qed.

Lemma slice_ext off n l off' l' :
  (off + n ≤ length l)%nat → (off' + n ≤ length l')%nat →
  (∀ i : nat, (i < n)%nat → l !! (off + i)%nat = l' !! (off' + i)%nat) →
  slice off n l = slice off' n l'.
Proof.
  intros Hl Hl' H. apply list_eq. intros i.
  destruct (decide (i < n)%nat).
  - rewrite !lookup_slice by lia. by apply H.
  - rewrite !lookup_ge_None_2; [done | |]; rewrite slice_length; lia.
Qed.

Lemma slice_splice_same off new l :
  (off + length new ≤ length l)%nat → slice off (length new) (splice off new l) = new.
Proof.
  intros H. apply list_eq. intros i. destruct (decide (i < length new)%nat).
  - rewrite lookup_slice by lia. rewrite lookup_splice_in by lia. f_equal. lia.
  - rewrite !lookup_ge_None_2; [done | lia |].
    rewrite slice_length; [lia |]. rewrite splice_length; lia.
Qed.

Lemma slice_splice_disjoint off n off' new l :
  (off + n ≤ length l)%nat → (off' + length new ≤ length l)%nat →
  (off + n ≤ off' ∨ off' + length new ≤ off)%nat →
  slice off n (splice off' new l) = slice off n l.
Proof.
  intros H1 H2 H3. apply slice_ext; [| lia |].
  - rewrite splice_length; lia.
  - intros i Hi. rewrite lookup_splice_out by lia. done.
Qed.

Lemma slice_full l n : n = length l → slice 0 n l = l.
Proof. intros ->. unfold slice. rewrite drop_0. by apply take_ge. Qed.

Lemma splice_full new l : length new = length l → splice 0 new l = new.
Proof.
  intros H. unfold splice. rewrite take_0, drop_ge by lia. simpl. apply app_nil_r.
Qed.
End Slices.

Lemma splice_Forall {A} (P : A → Prop) off new l :
  Forall P l → Forall P new → Forall P (splice off new l).
Proof.
  intros Hl Hn. unfold splice. apply Forall_app. split; [by apply Forall_take |].
  apply Forall_app. split; [done | by apply Forall_drop].
Qed.

(** ** The kernel monad

    One run of kernel code by the current process: it returns with a new
    state, stops in [panic] (or in an access the hardware refuses), goes to
    sleep on a channel, or exhausts the fuel of an unbounded loop. *)
Inductive res (S A : Type) : Type :=
| Ret (a : A) (s : S)
| Panic (msg : string)
| Wait (chan : string) (s : S)
| OutOfFuel.
Arguments Ret {S A} a s.
Arguments Panic {S A} msg.
Arguments Wait {S A} chan s.
Arguments OutOfFuel {S A}.

Definition M (S A : Type) : Type := S → res S A.

Section Monad.
Context {S : Type}.
Definition ret {A} (a : A) : M S A := λ s, Ret a s.
Definition bind {A B} (m : M S A) (k : A → M S B) : M S B := λ s,
  match m s with
  | Ret a s' => k a s'
  | Panic msg => Panic msg
  | Wait c s' => Wait c s'
  | OutOfFuel => OutOfFuel
  end.
Definition panic {A} (msg : string) : M S A := λ _, Panic msg.
Definition sleep_on {A} (chan : string) : M S A := λ s, Wait chan s.
Definition gets {A} (f : S → A) : M S A := λ s, Ret (f s) s.
Definition modify (f : S → S) : M S unit := λ s, Ret tt (f s).
End Monad.

Notation "'let!' x := m 'in' k" := (bind m (λ x, k))
  (at level 10, x pattern, m at level 100, k at level 200,
   format "'[v' 'let!'  x  :=  m  'in' '/' k ']'") : xv6_scope.
Notation "m ;; k" := (bind m (λ _, k))
  (at level 100, k at level 200, right associativity,
   format "'[v' m  ;; '/' k ']'") : xv6_scope.

(** Run a computation on one component of a larger state. *)
Definition zoom {S T A} (get : S → T) (put : T → S → S) (m : M T A) : M S A := λ s,
  match m (get s) with
  | Ret a t => Ret a (put t s)
  | Panic msg => Panic msg
  | Wait c t => Wait c (put t s)
  | OutOfFuel => OutOfFuel
  end.

(** Total-correctness post-conditions: the run returns, and its result and
    final state satisfy [Q]. *)
Definition wp {S A} (m : M S A) (Q : A → S → Prop) (s : S) : Prop :=
  match m s with Ret a s' => Q a s' | _ => False end.

Section Wp.
Context {S : Type}.
Implicit Types s : S.

Lemma wp_ret {A} (a : A) (Q : A → S → Prop) s : Q a s → wp (ret a) Q s.
Proof. done. Qed.

Lemma wp_bind {A B} (m : M S A) (k : A → M S B) Q s :
  wp m (λ a s', wp (k a) Q s') s → wp (bind m k) Q s.
Proof. unfold wp, bind. destruct (m s); done. Qed.

Lemma wp_gets {A} (f : S → A) (Q : A → S → Prop) s : Q (f s) s → wp (gets f) Q s.
Proof. done. Qed.

Lemma wp_modify (f : S → S) (Q : unit → S → Prop) s : Q tt (f s) → wp (modify f) Q s.
Proof. done. Qed.

Lemma wp_mono {A} (m : M S A) (P Q : A → S → Prop) s :
  wp m P s → (∀ a s', P a s' → Q a s') → wp m Q s.
Proof. unfold wp. destruct (m s); naive_solver. Qed.

Lemma wp_conj {A} (m : M S A) (P Q : A → S → Prop) s :
  wp m P s → wp m Q s → wp m (λ a s', P a s' ∧ Q a s') s.
Proof. unfold wp. destruct (m s); naive_solver. Qed.

Lemma wp_inv {A} (m : M S A) (Q : A → S → Prop) s :
  wp m Q s → ∃ a s', m s = Ret a s' ∧ Q a s'.
Proof. unfold wp. destruct (m s); naive_solver. Qed.

Lemma wp_intro {A} (m : M S A) (Q : A → S → Prop) s a s' :
  m s = Ret a s' → Q a s' → wp m Q s.
Proof. unfold wp. by intros ->. Qed.
End Wp.

(** The state a run ends in (the initial one if it does not return). *)
Definition final {S A} (m : M S A) (s : S) : S :=
  match m s with Ret _ s' => s' | _ => s end.

Lemma wp_final {S A} (m : M S A) (Q : A → S → Prop) s :
  wp m Q s → ∃ a, m s = Ret a (final m s) ∧ Q a (final m s).
Proof. unfold wp, final. destruct (m s); naive_solver. Qed.

Lemma wp_zoom {S T A} (get : S → T) put (m : M T A) Q (s : S) :
  wp m (λ a t, Q a (put t s)) (get s) → wp (zoom get put m) Q s.
Proof. unfold wp, zoom. destruct (m (get s)); done. Qed.

(** The same, for runs that may stop instead: if it returns, then [Q]. *)
Definition wlp {S A} (m : M S A) (Q : A → S → Prop) (s : S) : Prop :=
  match m s with Ret a s' => Q a s' | _ => True end.

Section Wlp.
Context {S : Type}.
Implicit Types s : S.

Lemma wlp_bind {A B} (m : M S A) (k : A → M S B) Q s :
  wlp m (λ a s', wlp (k a) Q s') s → wlp (bind m k) Q s.
Proof. unfold wlp, bind. by destruct (m s). Qed.

Lemma wlp_mono {A} (m : M S A) (P Q : A → S → Prop) s :
  wlp m P s → (∀ a s', P a s' → Q a s') → wlp m Q s.
Proof. unfold wlp. destruct (m s); naive_solver. Qed.

Lemma wp_wlp {A} (m : M S A) (Q : A → S → Prop) s : wp m Q s → wlp m Q s.
Proof. unfold wp, wlp. by destruct (m s). Qed.

Lemma wlp_run {A} (m : M S A) (Q : A → S → Prop) s a s' : wlp m Q s → m s = Ret a s' → Q a s'.
Proof. unfold wlp. intros H E. by rewrite E in H. Qed.

Lemma wlp_ret {A} (a : A) (Q : A → S → Prop) s : Q a s → wlp (ret a) Q s.
Proof. done. Qed.

Lemma wlp_gets {A} (f : S → A) (Q : A → S → Prop) s : Q (f s) s → wlp (gets f) Q s.
Proof. done. Qed.

Lemma wlp_modify (f : S → S) (Q : unit → S → Prop) s : Q tt (f s) → wlp (modify f) Q s.
Proof. done. Qed.
End Wlp.

Lemma wlp_zoom {S T A} (get : S → T) put (m : M T A) Q (s : S) :
  (∀ a t, Q a (put t s)) → wlp (zoom get put m) Q s.
Proof. unfold wlp, zoom. intros H. destruct (m (get s)); done. Qed.

(** One symbolic-execution step: push a post-condition through the head of a
    computation.  [wpb] also handles the [let!] in front of it. *)
Ltac wp_step :=
  lazymatch goal with
  | |- wp (bind _ _) _ _ => apply wp_bind
  | |- wp (ret _) _ _ => apply wp_ret
  | |- wp (gets _) _ _ => apply wp_gets
  | |- wp (modify _) _ _ => apply wp_modify
  | |- wp (zoom _ _ _) _ _ => apply wp_zoom
  end; cbv beta.
Ltac wp_steps := repeat wp_step.

(** Apply the specification [H] of a call and continue with its
    post-condition. *)
Tactic Notation "wp_call" uconstr(H) :=
  first [ eapply wp_mono; [eapply H | cbv beta]
        | eapply wp_bind, wp_mono; [eapply H | cbv beta] ].

(** ** Small list facts used by several components *)
Lemma list_find_lookup {A} (P : A → Prop) `{∀ x, Decision (P x)} l i x :
  list_find P l = Some (i, x) → l !! i = Some x ∧ P x.
Proof. intros H1. apply list_find_Some in H1 as (? & ? & _). done. Qed.

Lemma alter_to_insert {A} (f : A → A) (i : nat) (l : list A) x :
  l !! i = Some x → alter f i l = <[i := f x]> l.
Proof.
  intros Hx. apply list_eq. intros j. apply lookup_lt_Some in Hx as Hlt.
  rewrite list_lookup_alter, list_lookup_insert.
  destruct (decide (i = j)) as [->|Hne]; [rewrite decide_True, Hx by done; done |].
  rewrite decide_False by tauto. done.
Qed.

Lemma length_le_of_NoDup_subset (l : list nat) (k : nat) :
  NoDup l → (∀ x, x ∈ l → (x < k)%nat) → (length l ≤ k)%nat.
Proof.
  intros Hn Hs.
  rewrite <- (length_seq k 0). apply submseteq_length, NoDup_submseteq; [done |].
  intros x Hx. apply elem_of_seq. specialize (Hs x Hx). lia.
Qed.

(** The characters of a literal. *)
Definition text_codes (s : string) : list Z := (λ a, Z.of_N (Ascii.N_of_ascii a)) <$> String.list_ascii_of_string s.

(** The C string at the beginning of an array. *)
Fixpoint cstr (s : list Z) : list Z :=
  match s with [] => [] | x :: s => if decide (x = 0) then [] else x :: cstr s end.
Definition plain_text (l : list Z) : Prop := Forall (λ c, c ≠ 0) l.

Lemma cstr_app l r : plain_text l → cstr (l ++ 0 :: r) = l.
Proof.
  induction 1 as [|x l Hx _ IH]; [done |]. cbn. by rewrite decide_False, IH.
Qed.

(** Storing the same value at several places. *)
Lemma lookup_foldl_insert {A} (x : A) (ks : list nat) (l : list A) i :
  foldl (λ l i, <[i := x]> l) l ks !! i = (if decide (i ∈ ks) then (λ _, x) <$> l !! i else l !! i).
Proof.
  revert l. induction ks as [|j ks IH]; intros l; [by rewrite decide_False by set_solver |]. cbn [foldl].
  rewrite IH. destruct (decide (i = j)) as [->|Hne].
  - rewrite (decide_True (P := j ∈ j :: ks)) by set_solver. destruct (l !! j) as [y|] eqn:E.
    + rewrite list_lookup_insert_eq by (by eapply lookup_lt_Some). by case_decide.
    + rewrite list_insert_ge by (by apply lookup_ge_None_1). rewrite E. by case_decide.
  - rewrite list_lookup_insert_ne by done.
    destruct (decide (i ∈ ks)); [rewrite decide_True by set_solver | rewrite decide_False by set_solver]; done.
Qed.

Lemma length_foldl_insert {A} (x : A) (ks : list nat) (l : list A) :
  length (foldl (λ l i, <[i := x]> l) l ks) = length l.
Proof. revert l. induction ks as [|j ks IH]; intros l; [done |]. cbn [foldl]. by rewrite IH, length_insert. Qed.

(** ** Typed accesses to byte arrays *)
Definition ldn (k off : nat) (l : list Z) : Z := le_dec (slice off k l).
Definition stn (k off : nat) (v : Z) (l : list Z) : list Z := splice off (le_enc k v) l.

Lemma stn_length k off v l : (off + k ≤ length l)%nat → length (stn k off v l) = length l.
Proof. intros H. apply splice_length. by rewrite le_enc_length. Qed.

Lemma ldn_stn_same k off v l :
  (off + k ≤ length l)%nat → ldn k off (stn k off v l) = v mod 256 ^ Z.of_nat k.
Proof.
  intros H. unfold ldn, stn. rewrite <- (le_enc_length k v) at 1.
  rewrite slice_splice_same by (by rewrite le_enc_length). apply le_dec_enc.
Qed.

Lemma ldn_stn_disjoint k off k' off' v l :
  (off + k ≤ length l)%nat → (off' + k' ≤ length l)%nat →
  (off + k ≤ off' ∨ off' + k' ≤ off)%nat →
  ldn k off (stn k' off' v l) = ldn k off l.
Proof.
  intros H1 H2 H3. unfold ldn, stn.
  rewrite slice_splice_disjoint; rewrite ?le_enc_length; done.
Qed.

Definition ld32 := ldn 4.
Definition st32 := stn 4.
Definition ld16 := ldn 2.
Definition st16 := stn 2.

(** ** Loops: [for (i = lo; i < lo + k; i++) body(i)] *)
Fixpoint mfor {S} (k : nat) (lo : Z) (body : Z → M S unit) : M S unit :=
  match k with
  | O => ret tt
  | Datatypes.S k => body lo;; mfor k (lo + 1) body
  end.

Lemma wp_mfor {S} (I : nat → S → Prop) (k : nat) (lo : Z) (body : Z → M S unit) (s : S) :
  I 0%nat s →
  (∀ (j : nat) s', (j < k)%nat → I j s' → wp (body (lo + Z.of_nat j)) (λ _ s'', I (j + 1)%nat s'') s') →
  wp (mfor k lo body) (λ _ s', I k s') s.
Proof.
  revert I lo s. induction k as [|k IH]; intros I lo s H0 Hstep; simpl; wp_steps; [done |].
  pose proof (Hstep 0%nat s ltac:(lia) H0) as H1. rewrite Z.add_0_r in H1.
  eapply wp_mono; [exact H1 |]. intros [] s' H'. simpl in H'.
  replace (Datatypes.S k) with (k + 1)%nat by lia.
  apply (IH (λ j, I (j + 1)%nat) (lo + 1) s'); [done |].
  intros j s'' Hj Hs''. replace (lo + 1 + Z.of_nat j) with (lo + Z.of_nat (j + 1)) by lia.
  apply Hstep; [lia | done].
Qed.
