(* ===== verification/Params.v ===== *)
(** * Kernel parameters and on-disk constants

    The macros of [kernel/param.h], [kernel/fs.h], [kernel/stat.h] and
    [kernel/fcntl.h] that the file system is written in terms of. *)
From S2P Require Import Prelude.

(** [param.h] *)
Definition NOFILE : Z := 16.
Definition NFILE : Z := 100.
Definition NINODE : Z := 50.
Definition NDEV : Z := 10.
Definition ROOTDEV : Z := 1.
Definition MAXOPBLOCKS : Z := 10.
Definition LOGSIZE : Z := MAXOPBLOCKS * 3.
Definition NBUF : Z := MAXOPBLOCKS * 3.
Definition FSSIZE : Z := 4096.
Definition MAXPATH : Z := 128.
Definition LOGICAL_DISK_SIZE : Z := FSSIZE / 2.

(** [fs.h] *)
Definition ROOTINO : Z := 1.
Definition BSIZE : Z := 1024.
Definition FSMAGIC : Z := 0x10203040.
Definition NDIRECT : Z := 12.
Definition NINDIRECT : Z := BSIZE / 4.
Definition MAXFILE : Z := NDIRECT + NINDIRECT.
Definition DINODE_SIZE : Z := 64.
Definition IPB : Z := BSIZE / DINODE_SIZE.
Definition BPB : Z := BSIZE * 8.
Definition DIRSIZ : Z := 14.
Definition DIRENT_SIZE : Z := 16.

(** [stat.h] *)
Definition T_DIR : Z := 1.
Definition T_FILE : Z := 2.
Definition T_DEVICE : Z := 3.
Definition T_SYMLINK : Z := 4.
Definition M_READ : Z := 1.
Definition M_WRITE : Z := 2.
Definition M_ALL : Z := 3.

(** [fcntl.h] *)
Definition O_RDONLY : Z := 0x000.
Definition O_WRONLY : Z := 0x001.
Definition O_RDWR : Z := 0x002.
Definition O_CREATE : Z := 0x200.
Definition O_TRUNC : Z := 0x400.

(** Array sizes as the [nat]s that index Rocq lists. *)
Definition nbuf : nat := Z.to_nat NBUF.
Definition bsize : nat := Z.to_nat BSIZE.
Definition logsize : nat := Z.to_nat LOGSIZE.

Lemma nbuf_eq : nbuf = 30%nat. Proof. done. Qed.
Lemma bsize_eq : bsize = 1024%nat. Proof. done. Qed.
Lemma logsize_eq : logsize = 30%nat. Proof. done. Qed.

(** A disk block: [BSIZE] bytes. *)
Definition block : Type := list Z.
Definition zero_block : block := replicate bsize 0.

Lemma zero_block_length : length zero_block = bsize.
Proof. apply length_replicate. Qed.

(** Expose the numeric value of every parameter to [lia]. *)
Ltac params :=
  rewrite ?nbuf_eq, ?bsize_eq, ?logsize_eq in *;
  unfold NOFILE, NFILE, NINODE, NDEV, ROOTDEV, LOGSIZE, NBUF, MAXOPBLOCKS, FSSIZE, MAXPATH,
    ROOTINO, MAXFILE, NINDIRECT, NDIRECT, IPB, BPB, DINODE_SIZE, BSIZE,
    DIRSIZ, DIRENT_SIZE in *.
Definition MAXARG : nat := 32.
