(* ===== verification/CString.v ===== *)
(** * The kernel's string and memory routines ([kernel/string.c])

    A region of memory is a list of bytes; a pointer into it is an index.
    Reading outside an array has no defined result in C: the functions that
    can do so return [None] there. *)
From S2P Require Import Prelude.

Module CString.

(** [cdst[i] = c] for every [i < n] (the [int] [c] converted to [char]). *)
Fixpoint memset_loop (n : nat) (i : nat) (c : Z) (mem : list Z) : list Z :=
  match n with
  | O => mem
  | S n => memset_loop n (S i) c (<[i := u8 c]> mem)
  end.
Definition memset (dst : nat) (c : Z) (n : nat) (mem : list Z) : list Z := memset_loop n dst c mem.

Fixpoint memcmp (s1 s2 : list Z) (n : nat) : option Z :=
  match n with
  | O => Some 0
  | S n =>
      match s1, s2 with
      | x :: s1, y :: s2 => if decide (x ≠ y) then Some (x - y) else memcmp s1 s2 n
      | _, _ => None
      end
  end.

(** [while (n-- > 0) *--d = *--s;] with [d], [s] the end pointers. *)
Fixpoint copy_backward (n d s : nat) (mem : list Z) : list Z :=
  match n with
  | O => mem
  | S n => copy_backward n (d - 1) (s - 1) (<[(d - 1)%nat := mem !!! (s - 1)%nat]> mem)
  end.
(** [while (n-- > 0) *d++ = *s++;] *)
Fixpoint copy_forward (n d s : nat) (mem : list Z) : list Z :=
  match n with
  | O => mem
  | S n => copy_forward n (S d) (S s) (<[d := mem !!! s]> mem)
  end.
Definition memmove (dst src n : nat) (mem : list Z) : list Z :=
  if decide (src < dst ∧ dst < src + n)%nat
  then copy_backward n (dst + n) (src + n) mem
  else copy_forward n dst src mem.
Definition memcpy (dst src n : nat) (mem : list Z) : list Z := memmove dst src n mem.

Fixpoint strncmp (p q : list Z) (n : nat) : option Z :=
  match n with
  | O => Some 0
  | S n =>
      match p, q with
      | x :: p, y :: q => if decide (x ≠ 0 ∧ x = y) then strncmp p q n else Some (x - y)
      | _, _ => None
      end
  end.

(** The bytes [strncpy] stores: those of [t] up to and including the first
    NUL, at most [n], then zeros. *)
Fixpoint strncpy (t : list Z) (n : nat) : option (list Z) :=
  match n with
  | O => Some []
  | S n =>
      match t with
      | [] => None
      | x :: t => if decide (x = 0) then Some (replicate (S n) 0)
                  else cons x <$> strncpy t n
      end
  end.

(** [safestrcpy(s, t, n)]: the bytes stored, a NUL last. *)
Fixpoint safestrcpy_loop (t : list Z) (n : nat) : option (list Z) :=
  match n with
  | O => Some []
  | S O => Some [0]
  | S n =>
      match t with
      | [] => None
      | x :: t => if decide (x = 0) then Some [0; 0]
                  else cons x <$> safestrcpy_loop t n
      end
  end.
Definition safestrcpy (t : list Z) (n : Z) : option (list Z) :=
  if decide (n <= 0) then Some [] else safestrcpy_loop t (Z.to_nat n).

Fixpoint strlen (s : list Z) : option nat :=
  match s with
  | [] => None
  | x :: s => if decide (x = 0) then Some O else S <$> strlen s
  end.
End CString.

Import CString.

(** ** Copying *)
Lemma insert_splice (i : nat) (x : Z) l : (i < length l)%nat → <[i := x]> l = splice i [x] l.
Proof.
  intros Hi. unfold splice. rewrite insert_take_drop by done. simpl.
  by replace (i + 1)%nat with (S i) by lia.
Qed.

Lemma splice_nil {A} (d : nat) (l : list A) : splice d [] l = l.
Proof. unfold splice. simpl. rewrite Nat.add_0_r. apply take_drop. Qed.

Lemma splice_cons (d : nat) (x : Z) new l :
  (d + S (length new) ≤ length l)%nat →
  splice (S d) new (<[d := x]> l) = splice d (x :: new) l.
Proof.
  intros H. apply list_eq. intros k.
  destruct (decide (k < d ∨ d + S (length new) ≤ k)%nat) as [Hk|Hk].
  - rewrite !lookup_splice_out; rewrite ?length_insert; simpl; try lia.
    rewrite list_lookup_insert_ne by lia. done.
  - rewrite (lookup_splice_in d) by (simpl; lia). destruct (decide (k = d)) as [->|Hne].
    + rewrite lookup_splice_out by (rewrite ?length_insert; lia).
      rewrite list_lookup_insert_eq by lia. by rewrite Nat.sub_diag.
    + rewrite lookup_splice_in by (rewrite ?length_insert; lia).
      replace (k - d)%nat with (S (k - S d)) by lia. done.
Qed.

Lemma splice_snoc (d : nat) (x : Z) new l :
  (d + S (length new) ≤ length l)%nat →
  splice d new (<[(d + length new)%nat := x]> l) = splice d (new ++ [x]) l.
Proof.
  intros H. apply list_eq. intros k.
  destruct (decide (k < d ∨ d + S (length new) ≤ k)%nat) as [Hk|Hk].
  - rewrite !lookup_splice_out; rewrite ?length_insert, ?length_app; simpl; try lia.
    rewrite list_lookup_insert_ne by lia. done.
  - rewrite (lookup_splice_in d (new ++ [x])) by (rewrite ?length_app; simpl; lia).
    destruct (decide (k = d + length new)%nat) as [->|Hne].
    + rewrite lookup_splice_out by (rewrite ?length_insert; lia).
      rewrite list_lookup_insert_eq by lia.
      rewrite lookup_app_r by lia. by replace (d + length new - d - length new)%nat with O by lia.
    + rewrite lookup_splice_in by (rewrite ?length_insert; lia).
      rewrite lookup_app_l by lia. done.
Qed.

Lemma slice_S (s n : nat) (l : list Z) :
  (s + S n ≤ length l)%nat → slice s (S n) l = l !!! s :: slice (S s) n l.
Proof.
  intros H. unfold slice. destruct (lookup_lt_is_Some_2 l s) as [x Hx]; [lia |].
  rewrite (drop_S _ _ _ Hx). simpl. by rewrite (list_lookup_total_correct _ _ _ Hx).
Qed.

Lemma slice_S_end (s n : nat) (l : list Z) :
  (s + S n ≤ length l)%nat → slice s (S n) l = slice s n l ++ [l !!! (s + n)%nat].
Proof.
  intros H. unfold slice. destruct (lookup_lt_is_Some_2 l (s + n)) as [x Hx]; [lia |].
  rewrite (take_S_r _ _ x).
  - by rewrite (list_lookup_total_correct _ _ _ Hx).
  - by rewrite lookup_drop.
Qed.

Lemma slice_insert_out (s n i : nat) (x : Z) l :
  (s + n ≤ length l)%nat → (i < s ∨ s + n ≤ i)%nat → slice s n (<[i := x]> l) = slice s n l.
Proof.
  intros H Hi. apply slice_ext; rewrite ?length_insert; try done.
  intros k Hk. apply list_lookup_insert_ne. lia.
Qed.

Lemma copy_forward_ok n d s mem :
  (d + n ≤ length mem)%nat → (s + n ≤ length mem)%nat → (d ≤ s ∨ s + n ≤ d)%nat →
  copy_forward n d s mem = splice d (slice s n mem) mem.
Proof.
  revert d s mem. induction n as [|n IH]; intros d s mem H1 H2 H3; simpl.
  - unfold slice. by rewrite take_0, splice_nil.
  - rewrite IH by (rewrite ?length_insert; lia).
    destruct (decide (d = s)) as [->|Hne].
    + rewrite list_insert_id by (apply list_lookup_lookup_total_lt; lia).
      rewrite slice_S by lia. rewrite <- splice_cons by (rewrite slice_length; lia).
      by rewrite list_insert_id by (apply list_lookup_lookup_total_lt; lia).
    + rewrite slice_insert_out by lia. rewrite slice_S by lia.
      apply splice_cons. rewrite slice_length; lia.
Qed.

Lemma copy_backward_ok n d s mem :
  (d + n ≤ length mem)%nat → (s < d)%nat →
  copy_backward n (d + n) (s + n) mem = splice d (slice s n mem) mem.
Proof.
  revert mem. induction n as [|n IH]; intros mem H1 H2; cbn [copy_backward].
  - unfold slice. by rewrite take_0, splice_nil.
  - replace (d + S n - 1)%nat with (d + n)%nat by lia.
    replace (s + S n - 1)%nat with (s + n)%nat by lia.
    rewrite IH by (rewrite ?length_insert; lia).
    rewrite slice_insert_out by lia. rewrite slice_S_end by lia.
    rewrite <- (slice_length s n mem) at 2 by lia. apply splice_snoc. rewrite slice_length; lia.
Qed.

Lemma memmove_splice dst src n mem :
  (dst + n ≤ length mem)%nat → (src + n ≤ length mem)%nat →
  memmove dst src n mem = splice dst (slice src n mem) mem.
Proof.
  intros H1 H2. unfold memmove. case_decide as Hd.
  - apply copy_backward_ok; lia.
  - apply copy_forward_ok; lia.
Qed.

Lemma memset_splice dst c n mem :
  (dst + n ≤ length mem)%nat → memset dst c n mem = splice dst (replicate n (u8 c)) mem.
Proof.
  unfold memset. revert dst mem. induction n as [|n IH]; intros dst mem H; simpl.
  - by rewrite splice_nil.
  - rewrite IH by (rewrite length_insert; lia). apply splice_cons.
    rewrite length_replicate. lia.
Qed.

(** ** Strings: the contents of a NUL-terminated array *)
Lemma cstr_nonzero l : Forall (λ x, x ≠ 0) (cstr l).
Proof. induction l as [|x l IH]; simpl; [constructor |]. case_decide; [constructor | by constructor]. Qed.

Lemma cstr_all l : Forall (λ x, x ≠ 0) l → cstr l = l.
Proof. induction 1 as [|x l Hx _ IH]; [done |]. simpl. rewrite decide_False by done. by rewrite IH. Qed.

(** [strncmp] compares the two strings as far as [n] bytes; it reads no
    byte past a terminator or a difference. *)
Lemma strncmp_total p q n : (n ≤ length p)%nat → (n ≤ length q)%nat → is_Some (strncmp p q n).
Proof.
  revert p q. induction n as [|n IH]; intros [|x p] [|y q] Hp Hq; simpl in *; try lia; try done.
  case_decide; [apply IH; lia | done].
Qed.

Lemma strncmp_eq p q n r :
  strncmp p q n = Some r → r = 0 ↔ take n (cstr p) = take n (cstr q).
Proof.
  revert p q. induction n as [|n IH]; intros [|x p] [|y q]; simpl; intros H; simplify_eq; try done.
  case_decide as Hd.
  - destruct Hd as [Hx ->]. rewrite !decide_False by done. simpl. rewrite (IH _ _ H). split; congruence.
  - injection H as <-. destruct (decide (x = 0)) as [Hx|Hx], (decide (y = 0)) as [Hy|Hy]; simpl.
    + split; [done | lia].
    + split; [lia | done].
    + split; [lia | done].
    + split; [intros E; exfalso; apply Hd; split; [done | lia] |]. intros [= -> _]. lia.
Qed.

Lemma strncpy_length t n l : strncpy t n = Some l → length l = n.
Proof.
  revert t l. induction n as [|n IH]; intros [|x t] l; simpl; intros H; simplify_eq; try done.
  case_decide; simplify_eq.
  - simpl. by rewrite length_replicate.
  - destruct (strncpy t n) as [l'|] eqn:E; simplify_eq/=. by rewrite (IH _ _ E).
Qed.

Lemma strncpy_cstr t n l : strncpy t n = Some l → cstr l = take n (cstr t).
Proof.
  revert t l. induction n as [|n IH]; intros [|x t] l; simpl; intros H; simplify_eq; try done.
  case_decide; simplify_eq; [done |].
  destruct (strncpy t n) as [l'|] eqn:E; simplify_eq/=. rewrite decide_False by done.
  by rewrite (IH _ _ E).
Qed.

Lemma strncpy_total t n : (n ≤ length t)%nat → is_Some (strncpy t n).
Proof.
  revert t. induction n as [|n IH]; intros [|x t] H; simpl in *; try lia; try done.
  case_decide; [done |]. destruct (IH t) as [l ->]; [lia | done].
Qed.

Lemma strncpy_str (s : list Z) n r : Forall (λ x, x ≠ 0) s → is_Some (strncpy (s ++ 0 :: r) n).
Proof.
  intros Hs. revert n. induction Hs as [|x s Hx _ IH]; intros [|n]; simpl; try done.
  rewrite decide_False by done. destruct (IH n) as [l ->]. done.
Qed.

Lemma strlen_cstr s n : strlen s = Some n → n = length (cstr s).
Proof.
  revert n. induction s as [|x s IH]; intros n; simpl; [done |]. case_decide; [by intros [= <-] |].
  destruct (strlen s) as [k|]; simpl; intros E; simplify_eq. by rewrite (IH k).
Qed.
