(* ===== verification/Locks.v ===== *)
(** * Locks ([kernel/sleeplock.c], [kernel/sleeplock.h]) *)
From S2P Require Import Prelude.

(** ** Sleep locks

    The fields of [struct sleeplock] that matter to its users.  The
    embedded spin lock makes each of these operations one atomic step. *)
Record sleeplock := SleepLock { sl_locked : bool; sl_pid : Z }.

#[export] Instance sleeplock_eq_dec : EqDecision sleeplock.
Proof. solve_decision. Defined.

Definition initsleeplock : sleeplock := SleepLock false 0.

(** [None]: the caller goes to sleep on the lock. *)
Definition acquiresleep (pid : Z) (lk : sleeplock) : option sleeplock :=
  if sl_locked lk then None else Some (SleepLock true pid).

Definition releasesleep (lk : sleeplock) : sleeplock := SleepLock false 0.

Definition holdingsleep (pid : Z) (lk : sleeplock) : bool :=
  sl_locked lk && (sl_pid lk =? pid).
