(* ===== verification/Bio.v ===== *)
(** * The buffer cache ([kernel/bio.c], [kernel/buf.h])

    The cache is an array of [NBUF] buffers threaded on a doubly linked list
    through a list head; the model keeps the [prev]/[next] pointers, as
    indices of the array, with the head at index [HEAD]. *)
From S2P Require Import Prelude Params Locks.

(** ** Data *)
Record buf := Buf {
  b_valid : bool;      (* has data been read from disk? *)
  b_disk : bool;       (* does disk "own" buf? *)
  b_dev : Z;
  b_blockno : Z;
  b_lock : sleeplock;
  b_refcnt : Z;
  b_prev : nat;
  b_next : nat;
  b_data : block;
}.

#[export] Instance buf_inhabited : Inhabited buf :=
  populate (Buf false false 0 0 initsleeplock 0 0 0 zero_block).

(** The cache, the disk behind it with the history of block writes it
    received, the two failure-injection variables of [proc.c], and the pid
    of the running process. *)
Record bio := Bio {
  bufs : list buf;
  disk : gmap Z block;
  writes : list (Z * block);
  force_read_error_pbn : Z;
  force_disk_fail_id : Z;
  curpid : Z;
}.

Definition HEAD : nat := nbuf.

(** Field assignments through a [struct buf *]. *)
Definition set_valid (v : bool) (b : buf) : buf :=
  Buf v (b_disk b) (b_dev b) (b_blockno b) (b_lock b) (b_refcnt b) (b_prev b) (b_next b) (b_data b).
Definition set_lock (lk : sleeplock) (b : buf) : buf :=
  Buf (b_valid b) (b_disk b) (b_dev b) (b_blockno b) lk (b_refcnt b) (b_prev b) (b_next b) (b_data b).
Definition set_refcnt (r : Z) (b : buf) : buf :=
  Buf (b_valid b) (b_disk b) (b_dev b) (b_blockno b) (b_lock b) r (b_prev b) (b_next b) (b_data b).
Definition set_prev (p : nat) (b : buf) : buf :=
  Buf (b_valid b) (b_disk b) (b_dev b) (b_blockno b) (b_lock b) (b_refcnt b) p (b_next b) (b_data b).
Definition set_next (n : nat) (b : buf) : buf :=
  Buf (b_valid b) (b_disk b) (b_dev b) (b_blockno b) (b_lock b) (b_refcnt b) (b_prev b) n (b_data b).
Definition set_data (d : block) (b : buf) : buf :=
  Buf (b_valid b) (b_disk b) (b_dev b) (b_blockno b) (b_lock b) (b_refcnt b) (b_prev b) (b_next b) d.
Definition recycle (dev blockno : Z) (b : buf) : buf :=
  Buf false (b_disk b) dev blockno (b_lock b) 1 (b_prev b) (b_next b) (b_data b).

Definition buf_at (i : nat) (s : bio) : buf := bufs s !!! i.
Definition upd_buf (i : nat) (f : buf → buf) (s : bio) : bio :=
  Bio (alter f i (bufs s)) (disk s) (writes s)
      (force_read_error_pbn s) (force_disk_fail_id s) (curpid s).

(** ** Operations *)

(** [binit]: thread every buffer on the list, in front of the head. *)
Definition link_front (i : nat) (L : list buf) : list buf :=
  let first := b_next (L !!! HEAD) in
  let L := alter (set_next first) i L in
  let L := alter (set_prev HEAD) i L in
  let L := alter (set_prev i) first L in
  alter (set_next i) HEAD L.

Definition binit (L : list buf) : list buf :=
  let L := alter (set_prev HEAD) HEAD L in
  let L := alter (set_next HEAD) HEAD L in
  foldl (λ L i, alter (set_lock initsleeplock) i (link_front i L)) L (seq 0 nbuf).

(** The two scans of [bget]: forward from [head.next], backward from
    [head.prev].  [None]: the fuel ran out before the head was reached. *)
Fixpoint scan (fuel : nat) (dir : buf → nat) (L : list buf) (p : buf → bool) (i : nat)
    : option (option nat) :=
  match fuel with
  | O => None
  | S fuel =>
      if decide (i = HEAD) then Some None
      else if p (L !!! i) then Some (Some i)
      else scan fuel dir L p (dir (L !!! i))
  end.

Definition buf_acquiresleep (i : nat) : M bio unit := λ s,
  match acquiresleep (curpid s) (b_lock (buf_at i s)) with
  | Some lk => Ret tt (upd_buf i (set_lock lk) s)
  | None => Wait "buffer" s
  end.

Definition same_block (dev blockno : Z) (b : buf) : bool :=
  (b_dev b =? dev) && (b_blockno b =? blockno).

Definition bget (dev blockno : Z) : M bio nat := λ s,
  match scan (S nbuf) b_next (bufs s) (same_block dev blockno) (b_next (buf_at HEAD s)) with
  | None => OutOfFuel
  | Some (Some i) =>
      (modify (upd_buf i (λ b, set_refcnt (u32 (b_refcnt b + 1)) b));;
       buf_acquiresleep i;; ret i) s
  | Some None =>
      match scan (S nbuf) b_prev (bufs s) (λ b, b_refcnt b =? 0) (b_prev (buf_at HEAD s)) with
      | None => OutOfFuel
      | Some (Some i) =>
          (modify (upd_buf i (recycle dev blockno));; buf_acquiresleep i;; ret i) s
      | Some None => Panic "bget: no buffers"
      end
  end.

(** One whole-block transfer between a buffer and the disk, as the callers
    of the disk driver see it: the device refuses blocks it does not have. *)
Definition disk_transfer (i : nat) (write : bool) : M bio unit := λ s,
  let b := buf_at i s in
  match disk s !! b_blockno b with
  | None => Panic "virtio_disk_intr status"
  | Some d =>
      if write
      then Ret tt (Bio (bufs s) (<[b_blockno b := b_data b]> (disk s))
                       (writes s ++ [(b_blockno b, b_data b)])
                       (force_read_error_pbn s) (force_disk_fail_id s) (curpid s))
      else Ret tt (upd_buf i (set_data d) s)
  end.

Definition bread (dev blockno : Z) : M bio nat :=
  let! fail_disk := gets force_disk_fail_id in
  let! i := bget dev blockno in
  let! b := gets (buf_at i) in
  let! pbn := gets force_read_error_pbn in
  let forced := ((b_blockno b =? u32 pbn) && negb (pbn =? -1)) || negb (fail_disk =? -1) in
  if negb (b_valid b) || forced then
    disk_transfer i false;;
    modify (upd_buf i (set_valid true));;
    ret i
  else ret i.

Definition bwrite (i : nat) : M bio unit := λ s,
  if holdingsleep (curpid s) (b_lock (buf_at i s)) then disk_transfer i true s
  else Panic "bwrite".

(** The pointer surgery of [brelse]: unlink the buffer, relink it at the
    head of the list. *)
Definition move_to_front (i : nat) (L : list buf) : list buf :=
  let L := alter (set_prev (b_prev (L !!! i))) (b_next (L !!! i)) L in
  let L := alter (set_next (b_next (L !!! i))) (b_prev (L !!! i)) L in
  link_front i L.

Definition set_bufs (L : list buf) (s : bio) : bio :=
  Bio L (disk s) (writes s) (force_read_error_pbn s) (force_disk_fail_id s) (curpid s).

Definition brelse (i : nat) : M bio unit := λ s,
  if holdingsleep (curpid s) (b_lock (buf_at i s)) then
    let s := upd_buf i (set_lock (releasesleep (b_lock (buf_at i s)))) s in
    let s := upd_buf i (λ b, set_refcnt (u32 (b_refcnt b - 1)) b) s in
    if b_refcnt (buf_at i s) =? 0
    then Ret tt (set_bufs (move_to_front i (bufs s)) s)
    else Ret tt s
  else Panic "brelse".

Definition bpin (i : nat) : M bio unit :=
  modify (upd_buf i (λ b, set_refcnt (u32 (b_refcnt b + 1)) b)).

Definition bunpin (i : nat) : M bio unit :=
  modify (upd_buf i (λ b, set_refcnt (u32 (b_refcnt b - 1)) b)).

(** ** The doubly linked list

    [chain L x l z]: following [next] from [x] visits exactly [l] and then
    reaches [z], and the [prev] pointers lead back the same way. *)
Fixpoint chain (L : list buf) (x : nat) (l : list nat) (z : nat) : Prop :=
  match l with
  | [] => b_next (L !!! x) = z ∧ b_prev (L !!! z) = x
  | y :: l => b_next (L !!! x) = y ∧ b_prev (L !!! y) = x ∧ chain L y l z
  end.

(** [lru L l]: the list headed at [HEAD] holds every buffer once, in the
    order [l], most recently released first. *)
Definition lru (L : list buf) (l : list nat) : Prop :=
  length L = S nbuf ∧ l ≡ₚ seq 0 nbuf ∧ chain L HEAD l HEAD.

Lemma chain_app L x l1 y l2 z :
  chain L x (l1 ++ y :: l2) z ↔ chain L x l1 y ∧ chain L y l2 z.
Proof.
  revert x. induction l1 as [|a l1 IH]; intros x; simpl; [tauto |].
  rewrite IH. tauto.
Qed.

Lemma chain_ext L L' x l z :
  (∀ i, i ∈ x :: l → b_next (L' !!! i) = b_next (L !!! i)) →
  (∀ i, i ∈ l ++ [z] → b_prev (L' !!! i) = b_prev (L !!! i)) →
  chain L x l z → chain L' x l z.
Proof.
  revert x. induction l as [|y l IH]; intros x Hn Hp; simpl.
  - intros [H1 H2]. rewrite Hn, Hp by set_solver. done.
  - intros (H1 & H2 & H3). rewrite Hn, Hp by set_solver.
    split; [done |]. split; [done |]. apply IH; [| | done]; set_solver.
Qed.

Lemma scan_next_chain L p x l fuel :
  HEAD ∉ l → (length l < fuel)%nat → chain L x l HEAD →
  scan fuel b_next L p (b_next (L !!! x)) = Some (snd <$> list_find (λ i, p (L !!! i)) l).
Proof.
  revert x fuel. induction l as [|y l IH]; intros x fuel Hh Hf.
  - intros [-> _]. destruct fuel as [|fuel]; simpl in *; [lia |].
    by destruct (decide (HEAD = HEAD)).
  - intros (-> & _ & Hc). destruct fuel as [|fuel]; simpl in *; [lia |].
    apply not_elem_of_cons in Hh as [Hh1 Hh2].
    destruct (decide (y = HEAD)); [congruence |].
    case_decide as Hp; destruct (p (L !!! y)) eqn:E; simpl in *; try done.
    rewrite IH by (done || lia). f_equal.
    by destruct (list_find _ l) as [[]|].
Qed.

Lemma scan_prev_chain L p x l z fuel :
  x = HEAD → HEAD ∉ l → (length l < fuel)%nat → chain L x l z →
  scan fuel b_prev L p (b_prev (L !!! z)) = Some (snd <$> list_find (λ i, p (L !!! i)) (reverse l)).
Proof.
  intros ->. revert z fuel. induction l as [|y l IH] using rev_ind; intros z fuel Hh Hf.
  - intros [_ ->]. destruct fuel as [|fuel]; simpl in *; [lia |].
    by destruct (decide (HEAD = HEAD)).
  - intros Hc. apply chain_app in Hc as [Hc [_ ->]].
    rewrite length_app in Hf. destruct fuel as [|fuel]; simpl in *; [lia |].
    rewrite reverse_app. simpl.
    apply not_elem_of_app in Hh as [Hh1 Hh2]. rewrite list_elem_of_singleton in Hh2.
    destruct (decide (y = HEAD)); [congruence |].
    case_decide as Hp; destruct (p (L !!! y)) eqn:E; simpl in *; try done.
    rewrite IH by (done || lia). f_equal.
    by destruct (list_find _ _) as [[]|].
Qed.

Lemma lru_elem L l i : lru L l → i ∈ l ↔ (i < nbuf)%nat.
Proof. intros (_ & Hp & _). rewrite Hp, elem_of_seq. lia. Qed.

Lemma lru_NoDup L l : lru L l → NoDup l.
Proof. intros (_ & Hp & _). rewrite Hp. apply NoDup_seq. Qed.

Lemma lru_length L l : lru L l → length l = nbuf.
Proof. intros (_ & Hp & _). by rewrite Hp, length_seq. Qed.

Lemma lru_head L l : lru L l → HEAD ∉ l.
Proof. intros H. rewrite lru_elem by done. unfold HEAD. lia. Qed.

(** [bget]'s forward scan: the first buffer of the list that matches. *)
Lemma scan_next_lru L l p :
  lru L l →
  scan (S nbuf) b_next L p (b_next (L !!! HEAD)) = Some (snd <$> list_find (λ i, p (L !!! i)) l).
Proof.
  intros H. apply scan_next_chain; [by eapply lru_head | | apply H].
  rewrite (lru_length _ _ H). lia.
Qed.

(** [bget]'s backward scan: the least recently released match. *)
Lemma scan_prev_lru L l p :
  lru L l →
  scan (S nbuf) b_prev L p (b_prev (L !!! HEAD))
  = Some (snd <$> list_find (λ i, p (L !!! i)) (reverse l)).
Proof.
  intros H. apply scan_prev_chain with HEAD; [done | by eapply lru_head | | apply H].
  rewrite (lru_length _ _ H). lia.
Qed.

Lemma alter_total_eq (f : buf → buf) i (L : list buf) :
  (i < length L)%nat → alter f i L !!! i = f (L !!! i).
Proof. apply list_lookup_total_alter_eq. Qed.

Lemma alter_total_ne (f : buf → buf) i j (L : list buf) :
  i ≠ j → alter f i L !!! j = L !!! j.
Proof. apply list_lookup_total_alter_ne. Qed.

(** An update that keeps the pointers keeps the list. *)
Lemma lru_alter L l f i :
  (∀ b, b_next (f b) = b_next b ∧ b_prev (f b) = b_prev b) →
  lru L l → lru (alter f i L) l.
Proof.
  intros Hf (Hlen & Hp & Hc). split; [by rewrite length_alter |]. split; [done |].
  eapply chain_ext; [| | exact Hc]; intros j _; rewrite list_lookup_total_alter;
    case_decide as E; try done; destruct E as [-> _]; apply Hf.
Qed.

(** Pointer updates, as functions of the index read back. *)
Lemma next_set_next (L : list buf) (i n j : nat) :
  (i < length L)%nat →
  b_next (alter (set_next n) i L !!! j) = if decide (i = j) then n else b_next (L !!! j).
Proof.
  intros H. rewrite list_lookup_total_alter. repeat case_decide; naive_solver.
Qed.

Lemma prev_set_prev (L : list buf) (i n j : nat) :
  (i < length L)%nat →
  b_prev (alter (set_prev n) i L !!! j) = if decide (i = j) then n else b_prev (L !!! j).
Proof.
  intros H. rewrite list_lookup_total_alter. repeat case_decide; naive_solver.
Qed.

Lemma next_set_prev (L : list buf) (i n j : nat) : b_next (alter (set_prev n) i L !!! j) = b_next (L !!! j).
Proof.
  rewrite list_lookup_total_alter. case_decide as H; [| done]. by destruct H as [-> _].
Qed.

Lemma prev_set_next (L : list buf) (i n j : nat) : b_prev (alter (set_next n) i L !!! j) = b_prev (L !!! j).
Proof.
  rewrite list_lookup_total_alter. case_decide as H; [| done]. by destruct H as [-> _].
Qed.

Ltac ptr := repeat (rewrite ?next_set_prev, ?prev_set_next;
  first [ rewrite next_set_next by (rewrite ?length_alter; lia)
        | rewrite prev_set_prev by (rewrite ?length_alter; lia) ]);
  rewrite ?next_set_prev, ?prev_set_next.
Ltac ptr_solve := ptr; repeat case_decide; subst; try done; try congruence.

(** Relinking [a] and [c] around the end of a chain. *)
Lemma chain_relink L L' x l i c :
  chain L x l i → NoDup (x :: l) → c ∉ l →
  (∀ j, b_next (L' !!! j) = if decide (b_prev (L !!! i) = j) then c else b_next (L !!! j)) →
  (∀ j, j ≠ c → b_prev (L' !!! j) = b_prev (L !!! j)) →
  b_prev (L' !!! c) = b_prev (L !!! i) →
  chain L' x l c.
Proof.
  intros Hc Hnd Hcl Hn Hp Hpc. destruct l as [|y l _] using rev_ind.
  - destruct Hc as [_ Hx]. rewrite Hx in *. simpl. rewrite Hn, Hpc.
    by destruct (decide (x = x)).
  - apply chain_app in Hc as [Hc [Hyi Hiy]]. rewrite Hiy in *. apply chain_app.
    apply NoDup_cons in Hnd as [Hx Hnd]. apply NoDup_app in Hnd as (Hnd & Hd & _).
    split; [| split; [rewrite Hn; by destruct (decide (y = y)) | done]].
    eapply chain_ext; [| | exact Hc]; intros j Hj.
    + rewrite Hn. destruct (decide (y = j)) as [->|]; [| done].
      apply elem_of_cons in Hj as [->|Hj]; [set_solver |].
      specialize (Hd j Hj). set_solver.
    + apply Hp. intros ->. done.
Qed.

(** The unlink half of [brelse]. *)
Lemma chain_unlink L x l1 i l2 L' :
  NoDup (x :: l1 ++ i :: l2) →
  chain L x (l1 ++ i :: l2) x →
  (∀ j, b_next (L' !!! j)
      = if decide (b_prev (L !!! i) = j) then b_next (L !!! i) else b_next (L !!! j)) →
  (∀ j, b_prev (L' !!! j)
      = if decide (b_next (L !!! i) = j) then b_prev (L !!! i) else b_prev (L !!! j)) →
  chain L' x (l1 ++ l2) x.
Proof.
  intros Hnd Hc Hn Hp. apply chain_app in Hc as [Hc1 Hc2].
  assert (NoDup (x :: l1) ∧ NoDup (x :: l2) ∧ (∀ j, j ∈ l1 → j ∉ i :: l2) ∧ x ∉ l1) as
    (Hnd1 & Hnd2 & Hdis & Hx).
  { apply NoDup_cons in Hnd as [Hx Hnd]. apply NoDup_app in Hnd as (? & ? & Hnd).
    apply NoDup_cons in Hnd as [? ?]. rewrite !NoDup_cons. set_solver. }
  assert (Hai : b_prev (L !!! i) ∈ x :: l1).
  { clear -Hc1. destruct l1 as [|y l1 _] using rev_ind; [destruct Hc1 as [_ ->]; set_solver |].
    apply chain_app in Hc1 as [_ [_ ->]]. set_solver. }
  destruct l2 as [|c l2].
  - destruct Hc2 as [Hnx _]. rewrite Hnx in *. rewrite app_nil_r.
    eapply chain_relink; [exact Hc1 | done | done | done | |].
    + intros j Hj. rewrite Hp. by destruct (decide (x = j)).
    + rewrite Hp. by destruct (decide (x = x)).
  - destruct Hc2 as (Hnx & _ & Hc2). rewrite Hnx in *. apply chain_app. split.
    + eapply chain_relink; [exact Hc1 | done | | done | |].
      * intros Hcl. by apply (Hdis c Hcl); set_solver.
      * intros j Hj. rewrite Hp. by destruct (decide (c = j)).
      * rewrite Hp. by destruct (decide (c = c)).
    + apply NoDup_cons in Hnd2 as [Hxc Hnd2]. apply NoDup_cons in Hnd2 as [Hcl Hnd2].
      eapply chain_ext; [| | exact Hc2]; intros j Hj.
      * rewrite Hn. destruct (decide (b_prev (L !!! i) = j)) as [E|]; [| done].
        rewrite E in Hai. apply elem_of_cons in Hai as [->|Hai]; [set_solver |].
        exfalso. apply (Hdis j Hai). set_solver.
      * rewrite Hp. destruct (decide (c = j)) as [->|]; [set_solver | done].
Qed.

(** The relink half: [link_front] conses a buffer onto the list. *)
Lemma chain_link_front L l i :
  length L = S nbuf → (∀ j, j ∈ l → (j < nbuf)%nat) → NoDup l → (i < nbuf)%nat → i ∉ l →
  chain L HEAD l HEAD → chain (link_front i L) HEAD (i :: l) HEAD.
Proof.
  intros Hlen Hl Hnd Hi Hil Hc. unfold link_front.
  assert (HH : i ≠ HEAD) by (unfold HEAD; lia).
  assert (HHl : HEAD ∉ l) by (intros E%Hl; unfold HEAD in E; lia).
  assert (HHlen : (HEAD < S nbuf)%nat) by (unfold HEAD; lia).
  assert (Hfl : (b_next (L !!! HEAD) < S nbuf)%nat).
  { destruct l as [|y l]; destruct Hc as [-> ?]; [done |].
    specialize (Hl y). set_solver by lia. }
  destruct l as [|y l].
  - destruct Hc as [Hnx _]. rewrite Hnx in *. simpl. ptr_solve; naive_solver.
  - destruct Hc as (Hnx & Hpy & Hc). rewrite Hnx in *. simpl.
    assert (y ≠ HEAD ∧ y ≠ i) as [HyH Hyi] by set_solver.
    split; [ptr_solve |]. split; [ptr_solve |]. split; [ptr_solve |]. split; [ptr_solve |].
    apply NoDup_cons in Hnd as [Hy Hnd]. apply not_elem_of_cons in Hil as [Hiy Hil].
    apply not_elem_of_cons in HHl as [HHy HHl].
    eapply chain_ext; [| | exact Hc]; intros j Hj;
      [apply elem_of_cons in Hj | apply elem_of_app in Hj; rewrite list_elem_of_singleton in Hj];
      ptr_solve; naive_solver.
Qed.

Lemma link_front_length i L : length (link_front i L) = length L.
Proof. unfold link_front. by rewrite !length_alter. Qed.

(** [brelse]'s pointer surgery moves the buffer to the front of the list
    and keeps the order of the others. *)
Lemma move_to_front_lru L l1 i l2 :
  lru L (l1 ++ i :: l2) → lru (move_to_front i L) (i :: l1 ++ l2).
Proof.
  intros H. pose proof (lru_NoDup _ _ H) as Hnd. pose proof (lru_head _ _ H) as Hh.
  pose proof (λ j, proj1 (lru_elem _ _ j H)) as Hl.
  destruct H as (Hlen & Hp & Hc).
  assert (Hi : (i < nbuf)%nat) by (apply Hl; set_solver).
  split; [unfold move_to_front; by rewrite link_front_length, !length_alter |].
  split; [by rewrite <- Hp, Permutation_middle |].
  unfold move_to_front. apply chain_link_front.
  - by rewrite !length_alter.
  - intros j Hj. apply Hl. set_solver.
  - apply NoDup_app in Hnd as (? & ? & [? ?]%NoDup_cons). apply NoDup_app. set_solver.
  - done.
  - apply NoDup_app in Hnd as (? & ? & [? ?]%NoDup_cons). set_solver.
  - assert (Hn : (b_next (L !!! i) < S nbuf)%nat ∧ b_next (L !!! i) ≠ i).
    { apply chain_app in Hc as [_ Hc]. destruct l2 as [|c l2]; destruct Hc as [-> _].
      - unfold HEAD in *. lia.
      - apply NoDup_app in Hnd as (_ & _ & Hnd). apply NoDup_cons in Hnd as [Hnd _].
        specialize (Hl c). set_solver by lia. }
    assert (Hpv : (b_prev (L !!! i) < S nbuf)%nat).
    { apply chain_app in Hc as [Hc _]. destruct l1 as [|a l1 _] using rev_ind.
      - destruct Hc as [_ ->]. unfold HEAD. lia.
      - apply chain_app in Hc as [_ [_ ->]]. specialize (Hl a). set_solver by lia. }
    rewrite (alter_total_ne _ (b_next (L !!! i)) i) by apply Hn.
    eapply (chain_unlink L); [by apply NoDup_cons | exact Hc | |]; intros j; ptr_solve.
Qed.

(** [binit] builds the list from any array, last buffer first. *)
Lemma binit_lru L : length L = S nbuf → lru (binit L) (reverse (seq 0 nbuf)).
Proof.
  intros Hlen. unfold binit.
  set (L0 := alter (set_next HEAD) HEAD (alter (set_prev HEAD) HEAD L)).
  set (F := λ L i, alter (set_lock initsleeplock) i (link_front i L)).
  assert (∀ k : nat, (k ≤ nbuf)%nat →
    length (foldl F L0 (seq 0 k)) = S nbuf ∧
    chain (foldl F L0 (seq 0 k)) HEAD (reverse (seq 0 k)) HEAD) as H.
  { induction k as [|k IH]; intros Hk.
    - simpl. unfold L0. rewrite !length_alter. split; [done |].
      assert (HEAD < length L)%nat by (rewrite Hlen; unfold HEAD; lia). ptr_solve.
    - destruct IH as [IH1 IH2]; [lia |].
      rewrite seq_S, foldl_app, reverse_app.
      set (Lk := foldl F L0 (seq 0 k)) in *. cbn [foldl Nat.add]. unfold F.
      split; [by rewrite length_alter, link_front_length |].
      assert (chain (link_front k Lk) HEAD (k :: reverse (seq 0 k)) HEAD) as Hc.
      { apply chain_link_front; [done | | | lia | | done].
        - intros j. rewrite elem_of_reverse, elem_of_seq. lia.
        - rewrite reverse_Permutation. apply NoDup_seq.
        - rewrite elem_of_reverse, elem_of_seq. lia. }
      change (reverse [k] ++ reverse (seq 0 k)) with (k :: reverse (seq 0 k)).
      eapply chain_ext; [| | exact Hc]; intros j _;
        rewrite list_lookup_total_alter; case_decide as E; try done; by destruct E as [-> _]. }
  destruct (H nbuf) as [H1 H2]; [lia |].
  split; [done |]. split; [by rewrite reverse_Permutation | done].
Qed.

(** ** What the cache represents

    [brep s m]: [m] lists the blocks of the root device that are in use,
    each with its reference count, its lock and the contents its users see.
    A block outside [m] may be cached, but then nobody uses its buffer and
    the cached bytes are the ones on the disk. *)
Record cent := Cent { c_ref : Z; c_lock : sleeplock; c_data : block }.

Definition idle_buf (d : gmap Z block) (b : buf) : Prop :=
  b_refcnt b = 0 ∧ sl_locked (b_lock b) = false ∧
  (b_valid b = true → d !! b_blockno b = Some (b_data b)).

Definition buf_ok (d : gmap Z block) (m : gmap Z cent) (b : buf) : Prop :=
  length (b_data b) = bsize ∧
  if decide (b_dev b = ROOTDEV) then
    match m !! b_blockno b with
    | Some c => b_valid b = true ∧ b_refcnt b = c_ref c ∧ b_lock b = c_lock c ∧ b_data b = c_data c
    | None => idle_buf d b
    end
  else b_refcnt b = 0 ∧ sl_locked (b_lock b) = false.

Definition caches (s : bio) (i : nat) (b : Z) : Prop :=
  (i < nbuf)%nat ∧ b_dev (buf_at i s) = ROOTDEV ∧ b_blockno (buf_at i s) = b.

Record brep (s : bio) (m : gmap Z cent) : Prop := {
  br_lru : ∃ l, lru (bufs s) l;
  br_uniq : ∀ i j b, caches s i b → caches s j b → i = j;
  br_ok : ∀ i, (i < nbuf)%nat → buf_ok (disk s) m (buf_at i s);
  br_dom : ∀ b c, m !! b = Some c → ∃ i, caches s i b;
  br_disk : map_Forall (λ _ d, length d = bsize) (disk s);
  br_flags : force_read_error_pbn s = -1 ∧ force_disk_fail_id s = -1;
}.

(** [held s i b]: buffer [i] caches block [b] and the running process has
    locked it, so that [i] stands for the [struct buf *] it may use. *)
Definition held (s : bio) (i : nat) (b : Z) : Prop :=
  caches s i b ∧ b_lock (buf_at i s) = SleepLock true (curpid s).

Lemma buf_at_upd_eq i f s :
  (i < length (bufs s))%nat → buf_at i (upd_buf i f s) = f (buf_at i s).
Proof. apply alter_total_eq. Qed.

Lemma buf_at_upd_ne i j f s : i ≠ j → buf_at j (upd_buf i f s) = buf_at j s.
Proof. apply alter_total_ne. Qed.

Lemma brep_len s m : brep s m → length (bufs s) = S nbuf.
Proof. intros [[l [H _]] _]. done. Qed.

Lemma buf_ok_delete_ne d m b c x :
  buf_ok d m b → (b_dev b = ROOTDEV → b_blockno b ≠ x) → buf_ok d (<[x:=c]> m) b.
Proof.
  intros [H1 H2] Hne. split; [done |]. case_decide; [| done].
  rewrite lookup_insert_ne by (specialize (Hne ltac:(done)); congruence). done.
Qed.

Lemma buf_ok_delete d m b x :
  buf_ok d m b → (b_dev b = ROOTDEV → b_blockno b ≠ x) → buf_ok d (delete x m) b.
Proof.
  intros [H1 H2] Hne. split; [done |]. case_decide; [| done].
  rewrite lookup_delete_ne by (specialize (Hne ltac:(done)); congruence). done.
Qed.

(** Every operation changes one buffer [i], which caches block [b] in the
    end, and the entry of [b] alone. *)
Lemma brep_update s m i f b m' :
  brep s m → (i < nbuf)%nat →
  (∀ x, b_next (f x) = b_next x ∧ b_prev (f x) = b_prev x) →
  b_dev (f (buf_at i s)) = ROOTDEV → b_blockno (f (buf_at i s)) = b →
  (∀ j, j ≠ i → ¬ caches s j b) →
  buf_ok (disk s) m' (f (buf_at i s)) →
  (∀ x, x ≠ b → m' !! x = m !! x) →
  (∀ x c, m !! x = Some c → x ≠ b → ¬ caches s i x) →
  brep (upd_buf i f s) m'.
Proof.
  intros H Hi Hptr Hdev Hbn Hother Hok Hm' Hkeep.
  pose proof (brep_len _ _ H) as Hlen. destruct H as [[l Hl] Hu Hok0 Hdom Hdisk Hfl].
  assert (Hilen : (i < length (bufs s))%nat) by lia.
  assert (Hc : ∀ j x, caches (upd_buf i f s) j x → (j = i ∧ x = b) ∨ (j ≠ i ∧ caches s j x)).
  { intros j x (Hj & Hd & Hx). destruct (decide (j = i)) as [->|Hne].
    - rewrite buf_at_upd_eq in Hd, Hx by done. left. split; congruence.
    - rewrite buf_at_upd_ne in Hd, Hx by done. right. done. }
  split; try done.
  - exists l. by apply lru_alter.
  - intros j k x Hj Hk. destruct (Hc _ _ Hj) as [[-> ->]|[Hj1 Hj2]];
      destruct (Hc _ _ Hk) as [[-> Hx]|[Hk1 Hk2]]; try done; subst.
    + exfalso. by eapply Hother.
    + exfalso. by eapply Hother.
    + by eapply Hu.
  - intros j Hj. destruct (decide (j = i)) as [->|Hne].
    + by rewrite buf_at_upd_eq.
    + rewrite buf_at_upd_ne by done. specialize (Hok0 j Hj).
      destruct Hok0 as [Hd1 Hd2]. split; [done |]. case_decide as Hd; [| done].
      rewrite Hm'; [done |]. intros E. eapply (Hother j); [done |]. by split_and!.
  - intros x c Hx. destruct (decide (x = b)) as [->|Hne].
    + exists i. split_and!; [done | by rewrite buf_at_upd_eq ..].
    + rewrite Hm' in Hx by done. destruct (Hdom _ _ Hx) as [j Hj]. exists j.
      assert (j ≠ i) by (intros ->; by eapply Hkeep).
      destruct Hj as (? & ? & ?). split_and!; [done | by rewrite buf_at_upd_ne ..].
Qed.

(** Nothing but the buffers changed. *)
Definition quiet (s s' : bio) : Prop :=
  disk s' = disk s ∧ writes s' = writes s ∧ curpid s' = curpid s ∧
  ∀ j x, held s j x → held s' j x.

Lemma upd_buf_upd i f g s : upd_buf i f (upd_buf i g s) = upd_buf i (f ∘ g) s.
Proof.
  unfold upd_buf. simpl. f_equal. generalize (bufs s) as L. clear s. intros L. revert i.
  induction L as [|x L IH]; intros [|i]; [done.. |]. simpl. f_equal. apply IH.
Qed.

Lemma quiet_upd i f s :
  (i < length (bufs s))%nat → sl_locked (b_lock (buf_at i s)) = false → quiet s (upd_buf i f s).
Proof.
  intros Hi Hl. split_and!; try done. intros j x [Hc Hlk]. destruct (decide (i = j)) as [->|].
  - rewrite Hlk in Hl. done.
  - unfold held, caches in *. rewrite buf_at_upd_ne by done. done.
Qed.

(** Buffer [i] holds block [b] and is locked by the running process
    after an update that says so. *)
Lemma held_upd i f s b :
  (i < length (bufs s))%nat → (i < nbuf)%nat →
  b_dev (f (buf_at i s)) = ROOTDEV → b_blockno (f (buf_at i s)) = b →
  b_lock (f (buf_at i s)) = SleepLock true (curpid s) →
  held (upd_buf i f s) i b.
Proof. intros. unfold held, caches. rewrite buf_at_upd_eq by done. done. Qed.

Lemma same_block_true dev b x :
  same_block dev b x = true ↔ b_dev x = dev ∧ b_blockno x = b.
Proof. unfold same_block. rewrite andb_true_iff, !Z.eqb_eq. done. Qed.

Lemma find_cached s m l b i :
  brep s m → lru (bufs s) l → caches s i b →
  snd <$> list_find (λ j, same_block ROOTDEV b (bufs s !!! j)) l = Some i.
Proof.
  intros H Hl (Hi & Hd & Hb).
  destruct (list_find _ l) as [[k j]|] eqn:E.
  - apply list_find_Some in E as (Hk & Hp & _). simpl. f_equal.
    apply Is_true_true, same_block_true in Hp as [Hp1 Hp2].
    eapply (br_uniq _ _ H j i b); [| done]. split_and!; [| done..].
    apply (lru_elem _ _ _ Hl). by eapply list_elem_of_lookup_2.
  - exfalso. apply list_find_None in E. rewrite Forall_forall in E.
    apply (E i); [by apply (lru_elem _ _ _ Hl) |].
    by apply Is_true_true, same_block_true.
Qed.

Lemma find_uncached s l b :
  lru (bufs s) l → (∀ i, ¬ caches s i b) →
  list_find (λ j, same_block ROOTDEV b (bufs s !!! j)) l = None.
Proof.
  intros Hl Hn. apply list_find_None, Forall_forall. intros i Hi Hp.
  apply Is_true_true, same_block_true in Hp as [? ?].
  apply (Hn i). split_and!; [| done..]. by apply (lru_elem _ _ _ Hl).
Qed.

(** Fewer blocks in use than buffers: some buffer is free. *)
Lemma free_buffer s m l :
  brep s m → lru (bufs s) l → map_Forall (λ _ c, c_ref c ≠ 0) m → (size m < nbuf)%nat →
  ∃ i, snd <$> list_find (λ j, b_refcnt (bufs s !!! j) =? 0) (reverse l) = Some i ∧
       (i < nbuf)%nat ∧ b_refcnt (buf_at i s) = 0.
Proof.
  intros H Hl Href Hsz. destruct (list_find _ _) as [[k i]|] eqn:E.
  - apply list_find_Some in E as (Hk & Hp & _). exists i. split; [done |].
    split; [| by apply Is_true_true, Z.eqb_eq in Hp].
    apply (lru_elem _ _ _ Hl). apply list_elem_of_lookup_2 in Hk. by rewrite elem_of_reverse in Hk.
  - exfalso. apply list_find_None in E. rewrite Forall_forall in E.
    assert (Hb : ∀ i, (i < nbuf)%nat →
      b_dev (buf_at i s) = ROOTDEV ∧ is_Some (m !! b_blockno (buf_at i s))).
    { intros i Hi. assert (Hr : b_refcnt (buf_at i s) ≠ 0).
      { intros Hr. apply (E i); [apply elem_of_reverse; by apply (lru_elem _ _ _ Hl) |].
        by apply Is_true_true, Z.eqb_eq. }
      destruct (br_ok _ _ H i Hi) as [_ Hok]. case_decide as Hd; [| naive_solver].
      split; [done |]. destruct (m !! _) eqn:Em; [done |]. by destruct Hok. }
    assert (NoDup ((λ i, b_blockno (buf_at i s)) <$> seq 0 nbuf)) as Hnd.
    { apply NoDup_fmap_2_strong; [| apply NoDup_seq]. intros i j Hi Hj Hij.
      apply elem_of_seq in Hi, Hj. simpl in Hij.
      apply (br_uniq _ _ H i j (b_blockno (buf_at j s)));
        (split_and!; [lia | apply Hb; lia | done]). }
    assert (list_to_set ((λ i, b_blockno (buf_at i s)) <$> seq 0 nbuf) ⊆ dom m) as Hsub.
    { intros x. rewrite elem_of_list_to_set, list_elem_of_fmap.
      intros (i & -> & Hi%elem_of_seq). apply elem_of_dom. apply Hb. lia. }
    apply subseteq_size in Hsub. rewrite size_list_to_set, length_fmap, length_seq, size_dom in Hsub
      by done. lia.
Qed.

Lemma bread_unforced s :
  force_read_error_pbn s = -1 ∧ force_disk_fail_id s = -1 → ∀ b,
  ((b =? u32 (force_read_error_pbn s)) && negb (force_read_error_pbn s =? -1))
    || negb (force_disk_fail_id s =? -1) = false.
Proof. intros [-> ->] b. simpl. by rewrite andb_false_r. Qed.

(** Locking a cached, unlocked buffer and reading it in if necessary. *)
Definition grab (pid : Z) (d : block) (b : buf) : buf :=
  let b := set_lock (SleepLock true pid) (set_refcnt (u32 (b_refcnt b + 1)) b) in
  if b_valid b then b else set_valid true (set_data d b).

Lemma bread_cached s m b i d :
  brep s m → caches s i b → sl_locked (b_lock (buf_at i s)) = false → disk s !! b = Some d →
  bread ROOTDEV b s = Ret i (upd_buf i (grab (curpid s) d) s).
Proof.
  intros H Hc Hl Hd. pose proof (brep_len _ _ H) as Hlen.
  destruct (br_lru _ _ H) as [l Hlru]. pose proof (br_flags _ _ H) as Hfl.
  assert (Hi : (i < length (bufs s))%nat) by (destruct Hc; lia).
  unfold bread, bind, gets, bget. unfold buf_at at 1.
  rewrite (scan_next_lru _ _ _ Hlru), (find_cached _ _ _ _ _ H Hlru Hc).
  unfold bind, modify, buf_acquiresleep, acquiresleep.
  rewrite buf_at_upd_eq by done. simpl. rewrite Hl. simpl.
  rewrite upd_buf_upd. unfold ret.
  rewrite (bread_unforced s Hfl). rewrite orb_false_r.
  rewrite buf_at_upd_eq by done. simpl.
  destruct (b_valid (buf_at i s)) eqn:Ev; simpl.
  - f_equal. unfold upd_buf. f_equal. apply list_alter_ext; [| done].
    intros x Hx. unfold grab. simpl.
    unfold buf_at in Ev. rewrite (list_lookup_total_correct _ _ _ Hx) in Ev. by rewrite Ev.
  - unfold disk_transfer. rewrite buf_at_upd_eq by done. simpl.
    destruct Hc as (_ & _ & ->). rewrite Hd. rewrite !upd_buf_upd.
    f_equal. unfold upd_buf. f_equal. apply list_alter_ext; [| done].
    intros x Hx. unfold grab. simpl.
    unfold buf_at in Ev. rewrite (list_lookup_total_correct _ _ _ Hx) in Ev. by rewrite Ev.
Qed.

(** Recycling a free buffer for a block that is not cached. *)
Definition refill (pid b : Z) (d : block) (x : buf) : buf :=
  set_valid true (set_data d (set_lock (SleepLock true pid) (recycle ROOTDEV b x))).

Lemma bread_uncached s m b d :
  brep s m → (∀ i, ¬ caches s i b) → disk s !! b = Some d →
  map_Forall (λ _ c, c_ref c ≠ 0) m → (size m < nbuf)%nat →
  ∃ i, (i < nbuf)%nat ∧ b_refcnt (buf_at i s) = 0 ∧ sl_locked (b_lock (buf_at i s)) = false ∧
       bread ROOTDEV b s = Ret i (upd_buf i (refill (curpid s) b d) s).
Proof.
  intros H Hc Hd Href Hsz. pose proof (brep_len _ _ H) as Hlen.
  destruct (br_lru _ _ H) as [l Hlru]. pose proof (br_flags _ _ H) as Hfl.
  destruct (free_buffer _ _ _ H Hlru Href Hsz) as (i & Hfind & Hi & Hr).
  assert (Hul : sl_locked (b_lock (buf_at i s)) = false).
  { destruct (br_ok _ _ H i Hi) as [_ Hok]. case_decide; [| naive_solver].
    destruct (m !! _) as [c|] eqn:Em; [| by destruct Hok as (_ & ? & _)].
    destruct Hok as (_ & Hcr & _). exfalso. apply (Href _ _ Em). congruence. }
  exists i. split_and!; [done.. |].
  unfold bread, bind, gets, bget. unfold buf_at at 1.
  rewrite (scan_next_lru _ _ _ Hlru), (find_uncached _ _ _ Hlru Hc). simpl fmap.
  unfold buf_at at 1. rewrite (scan_prev_lru _ _ _ Hlru), Hfind.
  unfold bind, modify, buf_acquiresleep, acquiresleep.
  rewrite buf_at_upd_eq by lia. simpl. rewrite Hul. simpl.
  rewrite upd_buf_upd. unfold ret. rewrite (bread_unforced s Hfl). rewrite orb_false_r.
  rewrite buf_at_upd_eq by lia. simpl.
  unfold disk_transfer. rewrite buf_at_upd_eq by lia. simpl. rewrite Hd.
  by rewrite !upd_buf_upd.
Qed.

(** ** The operations against the abstract contents *)

Definition mine (s : bio) : sleeplock := SleepLock true (curpid s).

Lemma held_entry s m i b :
  brep s m → held s i b →
  ∃ c, m !! b = Some c ∧ c_lock c = mine s ∧ b_data (buf_at i s) = c_data c ∧
       b_refcnt (buf_at i s) = c_ref c ∧ b_valid (buf_at i s) = true ∧ length (c_data c) = bsize.
Proof.
  intros H [(Hi & Hd & Hb) Hl]. destruct (br_ok _ _ H i Hi) as [Hlen Hok].
  rewrite decide_True, Hb in Hok by done.
  destruct (m !! b) as [c|]; [| by destruct Hok as (_ & Hul & _); rewrite Hl in Hul].
  destruct Hok as (Hv & Hr & Hlk & Hdt). exists c. rewrite <- Hlk, <- Hdt. done.
Qed.

Lemma held_inj s m i j b : brep s m → held s i b → held s j b → i = j.
Proof. intros H [Hi _] [Hj _]. by eapply br_uniq. Qed.

(** Updating a buffer that already caches [b]. *)
Lemma brep_update_at s m i f b c :
  brep s m → caches s i b →
  (∀ x, b_next (f x) = b_next x ∧ b_prev (f x) = b_prev x ∧
        b_dev (f x) = b_dev x ∧ b_blockno (f x) = b_blockno x) →
  buf_ok (disk s) (<[b:=c]> m) (f (buf_at i s)) →
  brep (upd_buf i f s) (<[b:=c]> m).
Proof.
  intros H (Hi & Hd & Hb) Hf Hok. destruct (Hf (buf_at i s)) as (_ & _ & Hfd & Hfb).
  eapply brep_update with (b := b);
    [exact H | done | | congruence | congruence | | done | |].
  - intros x. by destruct (Hf x) as (? & ? & _).
  - intros j Hj Hc. apply Hj. eapply (br_uniq _ _ H); [exact Hc | done].
  - intros x Hx. by rewrite lookup_insert_ne.
  - intros x c' _ Hx (_ & _ & E). congruence.
Qed.

Lemma bread_busy s m b c d :
  brep s m → m !! b = Some c → sl_locked (c_lock c) = false → disk s !! b = Some d →
  wp (bread ROOTDEV b) (λ i s',
    brep s' (<[b:=Cent (u32 (c_ref c + 1)) (mine s) (c_data c)]> m) ∧ held s' i b ∧ quiet s s') s.
Proof.
  intros H Hm Hl Hd. destruct (br_dom _ _ H _ _ Hm) as [i Hc].
  pose proof (brep_len _ _ H) as Hlen. destruct Hc as (Hi & Hdv & Hb).
  destruct (br_ok _ _ H i Hi) as [Hlen0 Hok]. rewrite decide_True, Hb, Hm in Hok by done.
  destruct Hok as (Hv & Hr & Hlk & Hdt).
  eapply wp_intro. { apply (bread_cached _ _ _ i d H); [done | congruence | done]. }
  split_and!.
  - apply brep_update_at; [done | done | |].
    + intros x. unfold grab. simpl. by destruct (b_valid x).
    + unfold grab. simpl. rewrite Hv. split; [done |]. simpl.
      rewrite decide_True, Hb, lookup_insert_eq, Hr by done. done.
  - apply held_upd; [lia | done | ..]; unfold grab; simpl; rewrite Hv; done.
  - apply quiet_upd; [lia | congruence].
Qed.

Lemma caches_dec s b : (∃ i, caches s i b) ∨ (∀ i, ¬ caches s i b).
Proof.
  destruct (decide (Exists (λ i, b_dev (buf_at i s) = ROOTDEV ∧ b_blockno (buf_at i s) = b)
                           (seq 0 nbuf))) as [He | Hn].
  - left. apply Exists_exists in He as (i & Hi%elem_of_seq & ?). exists i. split; [lia | done].
  - right. intros i (Hi & ?). apply Hn, Exists_exists. exists i. rewrite elem_of_seq. split; [lia | done].
Qed.

Lemma bread_idle s m b d :
  brep s m → m !! b = None → disk s !! b = Some d →
  map_Forall (λ _ c, c_ref c ≠ 0) m → (size m < nbuf)%nat →
  wp (bread ROOTDEV b) (λ i s',
    brep s' (<[b:=Cent 1 (mine s) d]> m) ∧ held s' i b ∧ quiet s s') s.
Proof.
  intros H Hm Hd Href Hsz. pose proof (brep_len _ _ H) as Hlen.
  pose proof (br_disk _ _ H _ _ Hd) as Hdl. simpl in Hdl.
  destruct (caches_dec s b) as [(i & Hi & Hdv & Hb) | Hnc].
  - destruct (br_ok _ _ H i Hi) as [Hlen0 Hok]. rewrite decide_True, Hb, Hm in Hok by done.
    destruct Hok as (Hr & Hul & Hval). rewrite Hb, Hd in Hval.
    assert (Hg : b_data (grab (curpid s) d (buf_at i s)) = d ∧
                 b_valid (grab (curpid s) d (buf_at i s)) = true).
    { unfold grab. simpl. destruct (b_valid _) eqn:E; [| done].
      specialize (Hval ltac:(done)). split; [| done]. simpl. congruence. }
    eapply wp_intro. { apply (bread_cached _ _ _ i d H); done. }
    split_and!.
    + apply brep_update_at; [done | done | |].
      * intros x. unfold grab. simpl. by destruct (b_valid x).
      * destruct Hg as [Hg1 Hg2]. split; [congruence |].
        rewrite Hg1, Hg2. unfold grab. simpl. destruct (b_valid _); simpl;
          rewrite decide_True, Hb, lookup_insert_eq, Hr by done; done.
    + apply held_upd; [lia | done | ..]; unfold grab; simpl; destruct (b_valid _); done.
    + apply quiet_upd; [lia | done].
  - destruct (bread_uncached _ _ _ _ H Hnc Hd Href Hsz) as (i & Hi & Hr & Hul & Heq).
    eapply wp_intro; [exact Heq |]. split_and!.
    + eapply brep_update with (b := b); [exact H | done | done | done | done | | | |].
      * intros j _. apply Hnc.
      * split; [done |]. simpl. rewrite lookup_insert_eq. done.
      * intros x Hx. by rewrite lookup_insert_ne.
      * intros x c Hx Hne (_ & Hdv & Hb). destruct (br_ok _ _ H i Hi) as [_ Hok].
        rewrite decide_True, Hb, Hx in Hok by done. destruct Hok as (_ & Hcr & _).
        apply (Href _ _ Hx). congruence.
    + apply held_upd; [lia | done..].
    + apply quiet_upd; [lia | done].
Qed.

(** Storing into the data of a locked buffer. *)
Lemma bset_spec s m i b c d :
  brep s m → held s i b → m !! b = Some c → length d = bsize →
  let s' := upd_buf i (set_data d) s in
  brep s' (<[b:=Cent (c_ref c) (c_lock c) d]> m) ∧
  disk s' = disk s ∧ writes s' = writes s ∧ curpid s' = curpid s ∧
  (∀ j x, held s j x → held s' j x) ∧ b_data (buf_at i s') = d.
Proof.
  intros H Hh Hm Hd s'. pose proof (brep_len _ _ H) as Hlen.
  destruct (held_entry _ _ _ _ H Hh) as (c' & Hm' & Hlk & _ & Hr & Hv & _).
  rewrite Hm in Hm'. injection Hm' as <-. destruct Hh as [(Hi & Hdv & Hb) Hl].
  split_and!; try done.
  - apply brep_update_at; [done | done | done |]. split; [done |]. simpl.
    rewrite decide_True, Hb, lookup_insert_eq by done. simpl. rewrite Hl, Hlk. done.
  - intros j x [Hc Hlj]. destruct (decide (i = j)) as [->|].
    + unfold held, caches, s'. rewrite buf_at_upd_eq by lia. done.
    + unfold held, caches, s' in *. rewrite buf_at_upd_ne by done. done.
  - unfold s'. rewrite buf_at_upd_eq by lia. done.
Qed.

(** [bpin] and [bunpin]: only the reference count changes. *)
Lemma brefcnt_spec s m i b c f :
  brep s m → held s i b → m !! b = Some c →
  let s' := upd_buf i (λ x, set_refcnt (f (b_refcnt x)) x) s in
  brep s' (<[b:=Cent (f (c_ref c)) (c_lock c) (c_data c)]> m) ∧
  disk s' = disk s ∧ writes s' = writes s ∧ curpid s' = curpid s ∧
  (∀ j x, held s j x → held s' j x) ∧ b_data (buf_at i s') = b_data (buf_at i s).
Proof.
  intros H Hh Hm s'. pose proof (brep_len _ _ H) as Hlen.
  destruct (held_entry _ _ _ _ H Hh) as (c' & Hm' & Hlk & Hdt & Hr & Hv & Hdl).
  rewrite Hm in Hm'. injection Hm' as <-. destruct Hh as [(Hi & Hdv & Hb) Hl].
  split_and!; try done.
  - apply brep_update_at; [done | done | done |]. split; [by rewrite <- Hdt in Hdl |]. simpl.
    rewrite decide_True, Hb, lookup_insert_eq by done. simpl. rewrite Hr, Hdt, Hl, Hlk. done.
  - intros j x [Hc Hlj]. destruct (decide (i = j)) as [->|].
    + unfold held, caches, s'. rewrite buf_at_upd_eq by lia. done.
    + unfold held, caches, s' in *. rewrite buf_at_upd_ne by done. done.
  - unfold s'. rewrite buf_at_upd_eq by lia. done.
Qed.

Lemma bwrite_spec s m i b c d :
  brep s m → held s i b → m !! b = Some c → disk s !! b = Some d →
  wp (bwrite i) (λ _ s',
    brep s' m ∧ disk s' = <[b:=c_data c]> (disk s) ∧
    writes s' = writes s ++ [(b, c_data c)] ∧ curpid s' = curpid s ∧
    (∀ j x, held s j x → held s' j x)) s.
Proof.
  intros H Hh Hm Hd. destruct (held_entry _ _ _ _ H Hh) as (c' & Hm' & Hlk & Hdt & _ & _ & Hdl).
  rewrite Hm in Hm'. injection Hm' as <-.
  pose proof Hh as [(Hi & Hdv & Hb) Hl].
  unfold wp, bwrite, holdingsleep. rewrite Hl. simpl. rewrite Z.eqb_refl.
  unfold disk_transfer. rewrite Hb, Hd, Hdt. split_and!; try done.
  destruct H as [Hlru Hu Hok Hdom Hdk Hfl]. split; try done.
  - intros j Hj. specialize (Hok j Hj). unfold buf_at in *. simpl in *.
    destruct Hok as [H1 H2]. split; [done |]. case_decide as Hd'; [| done].
    destruct (m !! b_blockno _) eqn:Em; [done |]. destruct H2 as (? & ? & Hval).
    split_and!; [done.. |]. intros Hv. rewrite lookup_insert_ne; [auto |].
    intros E. rewrite <- E, Hm in Em. done.
  - simpl. apply map_Forall_insert_2; [done | done].
Qed.

(** Pointer surgery does not touch what the cache represents. *)
Definition strip (b : buf) : buf := set_prev 0 (set_next 0 b).

Lemma strip_move_to_front i L j : strip (move_to_front i L !!! j) = strip (L !!! j).
Proof.
  assert (∀ p k (L : list buf), strip (alter (set_prev p) k L !!! j) = strip (L !!! j)) as H1.
  { intros p k L0. rewrite list_lookup_total_alter. case_decide as E; [by destruct E as [-> _] | done]. }
  assert (∀ p k (L : list buf), strip (alter (set_next p) k L !!! j) = strip (L !!! j)) as H2.
  { intros p k L0. rewrite list_lookup_total_alter. case_decide as E; [by destruct E as [-> _] | done]. }
  unfold move_to_front, link_front. by rewrite !H2, !H1, !H2, !H1.
Qed.

Lemma strip_fields x y :
  strip x = strip y →
  b_valid x = b_valid y ∧ b_dev x = b_dev y ∧ b_blockno x = b_blockno y ∧
  b_lock x = b_lock y ∧ b_refcnt x = b_refcnt y ∧ b_data x = b_data y.
Proof. destruct x, y. unfold strip. simpl. intros [=]. done. Qed.

Lemma move_to_front_brep s m i :
  brep s m → (i < nbuf)%nat →
  let s' := set_bufs (move_to_front i (bufs s)) s in
  brep s' m ∧ ∀ j x, held s j x → held s' j x.
Proof.
  intros H Hi s'.
  assert (Hf : ∀ j, strip (buf_at j s') = strip (buf_at j s)) by (intros j; apply strip_move_to_front).
  assert (Hcc : ∀ j x, caches s' j x ↔ caches s j x).
  { intros j x. unfold caches. destruct (strip_fields _ _ (Hf j)) as (_ & -> & -> & _). done. }
  split.
  - destruct H as [[l Hl] Hu Hok Hdom Hdk Hfl]. split; try done.
    + assert (i ∈ l) as Hil by (by apply (lru_elem _ _ _ Hl)).
      apply list_elem_of_split in Hil as (l1 & l2 & ->). eexists. by apply move_to_front_lru.
    + intros j k x. rewrite !Hcc. apply Hu.
    + intros j Hj. specialize (Hok j Hj). unfold buf_ok, idle_buf in *.
      destruct (strip_fields _ _ (Hf j)) as (-> & -> & -> & -> & -> & ->). done.
    + intros b c Hb. destruct (Hdom b c Hb) as [k Hk]. exists k. by apply Hcc.
  - intros j x [Hc Hl]. split; [by apply Hcc |].
    destruct (strip_fields _ _ (Hf j)) as (_ & _ & _ & -> & _). done.
Qed.

Definition drop_buf (x : buf) : buf :=
  set_refcnt (u32 (b_refcnt x - 1)) (set_lock initsleeplock x).

Lemma brelse_eq s m i b c :
  brep s m → held s i b → m !! b = Some c →
  brelse i s = Ret tt (let s' := upd_buf i drop_buf s in
    if u32 (c_ref c - 1) =? 0 then set_bufs (move_to_front i (bufs s')) s' else s').
Proof.
  intros H Hh Hm. pose proof (brep_len _ _ H) as Hlen.
  destruct (held_entry _ _ _ _ H Hh) as (c' & Hm' & _ & _ & Hr & _).
  rewrite Hm in Hm'. injection Hm' as <-. destruct Hh as [(Hi & _) Hl].
  unfold brelse, holdingsleep. rewrite Hl. cbn [sl_locked sl_pid andb].
  rewrite Z.eqb_refl. cbv zeta. rewrite upd_buf_upd, buf_at_upd_eq by lia.
  cbn [compose b_refcnt set_refcnt set_lock]. rewrite Hr.
  by destruct (u32 (c_ref c - 1) =? 0).
Qed.

Lemma held_drop s m i b j x :
  brep s m → held s i b → j ≠ i → held s j x → held (upd_buf i drop_buf s) j x.
Proof.
  intros _ _ Hne [Hc Hl]. unfold held, caches in *. by rewrite buf_at_upd_ne.
Qed.

(** [brelse] of a buffer that stays referenced. *)
Lemma brelse_keep s m i b c :
  brep s m → held s i b → m !! b = Some c → u32 (c_ref c - 1) ≠ 0 →
  wp (brelse i) (λ _ s',
    brep s' (<[b:=Cent (u32 (c_ref c - 1)) initsleeplock (c_data c)]> m) ∧
    disk s' = disk s ∧ writes s' = writes s ∧ curpid s' = curpid s ∧
    (∀ j x, j ≠ i → held s j x → held s' j x)) s.
Proof.
  intros H Hh Hm Hr.
  destruct (held_entry _ _ _ _ H Hh) as (c' & Hm' & _ & Hdt & Hrc & Hv & Hdl).
  rewrite Hm in Hm'. injection Hm' as <-. pose proof Hh as [(Hi & Hdv & Hb) Hl].
  eapply wp_intro; [by eapply brelse_eq |]. simpl.
  rewrite (proj2 (Z.eqb_neq _ _) Hr). split_and!; try done.
  - apply brep_update_at; [done | done | done |]. split; [by rewrite <- Hdt in Hdl |].
    simpl. rewrite decide_True, Hb, lookup_insert_eq by done. simpl. by rewrite Hrc, Hdt.
  - intros j x Hne Hj. by eapply held_drop.
Qed.

(** [brelse] by the last user: the block leaves the abstract map, which is
    sound because its contents are on the disk. *)
Lemma brelse_last s m i b c :
  brep s m → held s i b → m !! b = Some c → u32 (c_ref c - 1) = 0 →
  disk s !! b = Some (c_data c) →
  wp (brelse i) (λ _ s',
    brep s' (delete b m) ∧
    disk s' = disk s ∧ writes s' = writes s ∧ curpid s' = curpid s ∧
    (∀ j x, j ≠ i → held s j x → held s' j x)) s.
Proof.
  intros H Hh Hm Hr Hd.
  destruct (held_entry _ _ _ _ H Hh) as (c' & Hm' & _ & Hdt & Hrc & Hv & Hdl).
  rewrite Hm in Hm'. injection Hm' as <-. pose proof Hh as [(Hi & Hdv & Hb) Hl].
  eapply wp_intro; [by eapply brelse_eq |]. simpl. rewrite Hr, Z.eqb_refl.
  assert (brep (upd_buf i drop_buf s) (delete b m)) as H'.
  { eapply brep_update with (b := b); [exact H | done | done | done | done | | | |].
    - intros j Hne Hc. apply Hne. eapply (br_uniq _ _ H); [exact Hc | done].
    - split; [simpl; congruence |]. simpl.
      rewrite decide_True, Hb, lookup_delete_eq by done.
      split_and!; simpl; [by rewrite Hrc | done |]. rewrite Hb, Hdt. done.
    - intros x Hx. by rewrite lookup_delete_ne.
    - intros x c' _ Hne (_ & _ & E). congruence. }
  destruct (move_to_front_brep _ _ _ H' Hi) as [H2 H3].
  split_and!; try done. intros j x Hne Hj. apply H3. by eapply held_drop.
Qed.

(** The cache right after [binit], in front of a disk. *)
Definition zero_buf : buf := Buf false false 0 0 initsleeplock 0 0 0 zero_block.
Definition boot (d : gmap Z block) (pid : Z) : bio :=
  Bio (binit (replicate (S nbuf) zero_buf)) d [] (-1) (-1) pid.

Lemma binit_fields L j :
  length L = S nbuf →
  let x := binit L !!! j in let y := L !!! j in
  b_valid x = b_valid y ∧ b_dev x = b_dev y ∧ b_refcnt x = b_refcnt y ∧ b_data x = b_data y ∧
  (sl_locked (b_lock y) = false → sl_locked (b_lock x) = false).
Proof.
  intros Hlen. unfold binit. cbv zeta.
  set (same := λ x y : buf, b_valid x = b_valid y ∧ b_dev x = b_dev y ∧
                 b_refcnt x = b_refcnt y ∧ b_data x = b_data y ∧
                 (sl_locked (b_lock y) = false → sl_locked (b_lock x) = false)).
  change (same (foldl (λ L i, alter (set_lock initsleeplock) i (link_front i L))
     (alter (set_next HEAD) HEAD (alter (set_prev HEAD) HEAD L)) (seq 0 nbuf) !!! j) (L !!! j)).
  assert (Ha : ∀ f k (L : list buf) y, (∀ x, same (f x) x) → same (L !!! j) y → same (alter f k L !!! j) y).
  { intros f k L0 y Hf Hs. rewrite list_lookup_total_alter. case_decide as E; [| done].
    destruct E as [-> _]. specialize (Hf (L0 !!! j)). unfold same in *. naive_solver congruence. }
  generalize (seq 0 nbuf) as ks. intros ks.
  assert (∀ L0, same (L0 !!! j) (L !!! j) →
    same (foldl (λ L i, alter (set_lock initsleeplock) i (link_front i L)) L0 ks !!! j) (L !!! j)) as Hf.
  { induction ks as [|k ks IH]; intros L0 HL0; [done |]. simpl. apply IH.
    unfold link_front. repeat apply Ha; done. }
  apply Hf. repeat apply Ha; done.
Qed.

Lemma boot_brep d pid :
  map_Forall (λ _ x, length x = bsize) d → brep (boot d pid) ∅.
Proof.
  intros Hd. assert (Hlen : length (replicate (S nbuf) zero_buf) = S nbuf) by apply length_replicate.
  assert (Hf : ∀ j, (j < nbuf)%nat → b_dev (buf_at j (boot d pid)) = 0 ∧
     b_refcnt (buf_at j (boot d pid)) = 0 ∧ length (b_data (buf_at j (boot d pid))) = bsize ∧
     sl_locked (b_lock (buf_at j (boot d pid))) = false).
  { intros j Hj. unfold buf_at, boot. cbn [bufs].
    destruct (binit_fields _ j Hlen) as (_ & -> & -> & -> & Hlk).
    rewrite lookup_total_replicate_2 in * by lia.
    split_and!; [done | done | apply zero_block_length | by apply Hlk]. }
  constructor.
  - eexists. by apply binit_lru.
  - intros i j b (Hi & Hdv & _) _. destruct (Hf i Hi) as [E _].
    unfold ROOTDEV in Hdv. lia.
  - intros i Hi. destruct (Hf i Hi) as (Hd0 & Hr0 & Hl0 & Hk0). split; [exact Hl0 |].
    rewrite decide_False by (unfold ROOTDEV; lia). split; [exact Hr0 | exact Hk0].
  - intros b c E. rewrite lookup_empty in E. discriminate E.
  - exact Hd.
  - split; reflexivity.
Qed.
