(* ===== verification/Cache.v ===== *)
(** * The buffer cache as one process sees it

    [crep s v] abstracts the cache of [Bio.v] to four sets of facts: the
    bytes each block has now ([v_now]), the bytes on the disk ([v_disk]),
    the blocks the running process has locked ([v_held]) and the blocks
    pinned by the log ([v_pin]).  [v_leak] holds the blocks whose reference
    count was decremented once too often.  The log and the file system are
    verified against this view; the lemmas below are the promises [bread],
    [bwrite], [brelse], [bpin] and [bunpin] make in terms of it. *)
From S2P Require Import Prelude Params Locks Bio.

Record cview := CView {
  v_now : gmap Z block;
  v_disk : gmap Z block;
  v_held : gset Z;
  v_pin : gset Z;
  v_leak : gset Z;
}.

Definition v_used (v : cview) : gset Z := v_held v ∪ v_pin v ∪ v_leak v.

Definition one (b : Z) (X : gset Z) : Z := if decide (b ∈ X) then 1 else 0.

Definition v_ref (v : cview) (b : Z) : Z := u32 (one b (v_held v) + one b (v_pin v) - one b (v_leak v)).

Definition v_entry (lk : sleeplock) (v : cview) (b : Z) (d : block) : option cent :=
  if decide (b ∈ v_used v) then
    Some (Cent (v_ref v b) (if decide (b ∈ v_held v) then lk else initsleeplock) d)
  else None.

Definition cmap (lk : sleeplock) (v : cview) : gmap Z cent :=
  map_imap (v_entry lk v) (v_now v).

Record crep (s : bio) (v : cview) : Prop := {
  cr_rep : brep s (cmap (mine s) v);
  cr_disk : disk s = v_disk v;
  cr_dom : dom (v_now v) = dom (v_disk v);
  cr_clean : ∀ b, b ∉ v_used v → v_now v !! b = v_disk v !! b;
  cr_used : v_used v ⊆ dom (v_disk v);
  cr_leak : v_pin v ## v_leak v;
}.

(** Effects of the operations on the view. *)
Definition v_hold (b : Z) (v : cview) : cview :=
  CView (v_now v) (v_disk v) ({[b]} ∪ v_held v) (v_pin v) (v_leak v).
Definition v_drop (b : Z) (v : cview) : cview :=
  CView (v_now v) (v_disk v) (v_held v ∖ {[b]}) (v_pin v) (v_leak v).
Definition v_set (b : Z) (d : block) (v : cview) : cview :=
  CView (<[b:=d]> (v_now v)) (v_disk v) (v_held v) (v_pin v) (v_leak v).
Definition v_sync (b : Z) (d : block) (v : cview) : cview :=
  CView (v_now v) (<[b:=d]> (v_disk v)) (v_held v) (v_pin v) (v_leak v).
Definition v_dopin (b : Z) (v : cview) : cview :=
  CView (v_now v) (v_disk v) (v_held v) ({[b]} ∪ v_pin v) (v_leak v).
Definition v_unpin (b : Z) (v : cview) : cview :=
  if decide (b ∈ v_pin v)
  then CView (v_now v) (v_disk v) (v_held v) (v_pin v ∖ {[b]}) (v_leak v)
  else CView (v_now v) (v_disk v) (v_held v) (v_pin v) ({[b]} ∪ v_leak v).

Lemma cmap_lookup lk v b :
  cmap lk v !! b = v_now v !! b ≫= v_entry lk v b.
Proof. apply map_lookup_imap. Qed.

Lemma cmap_None lk v b : b ∉ v_used v → cmap lk v !! b = None.
Proof.
  intros H. rewrite cmap_lookup. destruct (v_now v !! b); [| done]. simpl.
  unfold v_entry. by rewrite decide_False.
Qed.

Lemma cmap_Some lk v b d :
  b ∈ v_used v → v_now v !! b = Some d →
  cmap lk v !! b = Some (Cent (v_ref v b) (if decide (b ∈ v_held v) then lk else initsleeplock) d).
Proof.
  intros H Hd. rewrite cmap_lookup, Hd. simpl. unfold v_entry. by rewrite decide_True.
Qed.

Lemma crep_now s v b : crep s v → b ∈ v_used v → is_Some (v_now v !! b).
Proof.
  intros H Hb. apply elem_of_dom. rewrite (cr_dom _ _ H). by apply (cr_used _ _ H).
Qed.

(** The block of a locked buffer, and the bytes in it. *)
Lemma crep_held s v i b :
  crep s v → held s i b →
  b ∈ v_held v ∧ v_now v !! b = Some (b_data (buf_at i s)) ∧ length (b_data (buf_at i s)) = bsize.
Proof.
  intros H Hh. destruct (held_entry _ _ _ _ (cr_rep _ _ H) Hh) as (c & Hc & Hlk & Hd & _ & _ & Hl).
  rewrite cmap_lookup in Hc. destruct (v_now v !! b) as [d|] eqn:E; [| done]. simpl in Hc.
  unfold v_entry in Hc. case_decide; [| done]. injection Hc as <-. simpl in *.
  case_decide; [| done]. rewrite Hd. done.
Qed.

Lemma cmap_size lk v : (size (cmap lk v) ≤ size (v_used v))%nat.
Proof.
  rewrite <- (size_dom (D := gset Z)). apply subseteq_size. intros b.
  rewrite elem_of_dom. destruct (decide (b ∈ v_used v)); [done |].
  rewrite cmap_None by done. by intros [].
Qed.

Lemma cmap_insert lk v v' b c :
  cmap lk v' !! b = Some c →
  (∀ x, x ≠ b → v_now v' !! x = v_now v !! x) →
  (∀ x d, x ≠ b → v_entry lk v' x d = v_entry lk v x d) →
  cmap lk v' = <[b:=c]> (cmap lk v).
Proof.
  intros Hb Hn He. apply map_eq. intros x. destruct (decide (x = b)) as [->|Hne].
  - by rewrite lookup_insert_eq.
  - rewrite lookup_insert_ne, !cmap_lookup, Hn by done.
    destruct (v_now v !! x); [| done]. simpl. by apply He.
Qed.

Lemma v_entry_eq lk v v' x d :
  (x ∈ v_held v' ↔ x ∈ v_held v) → (x ∈ v_pin v' ↔ x ∈ v_pin v) → (x ∈ v_leak v' ↔ x ∈ v_leak v) →
  v_entry lk v' x d = v_entry lk v x d.
Proof.
  intros Hh Hp Hl. unfold v_entry, v_ref, one, v_used.
  destruct (decide (x ∈ v_held v)), (decide (x ∈ v_held v')); try tauto;
  destruct (decide (x ∈ v_pin v)), (decide (x ∈ v_pin v')); try tauto;
  destruct (decide (x ∈ v_leak v)), (decide (x ∈ v_leak v')); try tauto;
  repeat case_decide; set_solver.
Qed.

Ltac entry_ne := intros; apply v_entry_eq; unfold v_unpin; try case_decide; simpl; set_solver.

(** ** The promises *)
Section Promises.
Context (s : bio) (v : cview) (H : crep s v).

Lemma cache_bread b :
  b ∈ dom (v_disk v) → b ∉ v_held v → b ∉ v_leak v → v_held v ## v_leak v →
  (b ∈ v_pin v ∨ size (v_used v) < nbuf)%nat →
  wp (bread ROOTDEV b) (λ i s', crep s' (v_hold b v) ∧ held s' i b ∧ quiet s s') s.
Proof.
  intros Hb Hnh Hnl Hhl Hroom.
  assert (is_Some (v_now v !! b)) as [d Hd] by (apply elem_of_dom; by rewrite (cr_dom _ _ H)).
  assert (is_Some (disk s !! b)) as [d' Hd'] by (apply elem_of_dom; by rewrite (cr_disk _ _ H)).
  set (lk := mine s).
  assert (Hnew : cmap lk (v_hold b v) !! b = Some (Cent (u32 (one b (v_pin v) + 1)) lk d)).
  { rewrite (cmap_Some _ _ _ d); [| unfold v_used, v_hold; set_solver | done].
    rewrite decide_True by (simpl; set_solver). f_equal. f_equal.
    unfold v_ref, one. simpl. rewrite decide_True by set_solver.
    rewrite (decide_False (P := b ∈ v_leak v)) by done. f_equal. lia. }
  assert (Hins : cmap lk (v_hold b v) = <[b:=Cent (u32 (one b (v_pin v) + 1)) lk d]> (cmap lk v)).
  { apply cmap_insert; [done | done |]. entry_ne. }
  assert (Hstep : wp (bread ROOTDEV b)
    (λ i s', brep s' (cmap lk (v_hold b v)) ∧ held s' i b ∧ quiet s s') s).
  { rewrite Hins. destruct (decide (b ∈ v_pin v)) as [Hp|Hp].
    - assert (Hold : cmap lk v !! b = Some (Cent 1 initsleeplock d)).
      { rewrite (cmap_Some _ _ _ d); [| unfold v_used; set_solver | done].
        rewrite decide_False by done. f_equal. f_equal. unfold v_ref, one.
        rewrite !(decide_False (P := b ∈ v_held v)), (decide_True (P := b ∈ v_pin v)),
          (decide_False (P := b ∈ v_leak v)) by done. done. }
      unfold one. rewrite decide_True by done.
      eapply wp_mono; [eapply (bread_busy _ _ _ _ _ (cr_rep _ _ H) Hold); done |]. done.
    - assert (Hun : b ∉ v_used v) by (unfold v_used; set_solver).
      assert (d' = d) as -> by (pose proof (cr_clean _ _ H _ Hun); rewrite (cr_disk _ _ H) in Hd'; congruence).
      unfold one. rewrite decide_False by done.
      eapply wp_mono; [eapply (bread_idle _ _ b d (cr_rep _ _ H)) |].
      + by apply cmap_None.
      + done.
      + intros x c. rewrite cmap_lookup. destruct (v_now v !! x); [| done]. simpl.
        unfold v_entry. case_decide as Hx; [| done]. intros [= <-]. simpl.
        unfold v_ref, one. unfold v_used in Hx. pose proof (cr_leak _ _ H).
        repeat case_decide; vm_compute; try done; set_solver.
      + pose proof (cmap_size (mine s) v). destruct Hroom; [done | lia].
      + done. }
  eapply wp_mono; [exact Hstep |]. intros i s' (H1 & H2 & H3). split; [| done].
  destruct H3 as (E1 & _ & E2 & _). split; simpl.
  - unfold mine. rewrite E2. exact H1.
  - rewrite E1. apply (cr_disk _ _ H).
  - apply (cr_dom _ _ H).
  - intros x Hx. apply (cr_clean _ _ H). unfold v_used in *. simpl in Hx. set_solver.
  - pose proof (cr_used _ _ H). unfold v_used in *. simpl. set_solver.
  - apply (cr_leak _ _ H).
Qed.

Context (i : nat) (b : Z) (Hh : held s i b).

Lemma cache_here : b ∈ v_held v.
Proof. apply (crep_held _ _ _ _ H Hh). Qed.

Lemma cache_entry :
  cmap (mine s) v !! b = Some (Cent (v_ref v b) (mine s) (b_data (buf_at i s))).
Proof.
  destruct (crep_held _ _ _ _ H Hh) as (Hin & Hn & _).
  assert (Hu : b ∈ v_used v) by (unfold v_used; set_solver).
  rewrite (cmap_Some _ _ _ _ Hu Hn). by rewrite decide_True.
Qed.

Lemma cache_set d :
  length d = bsize →
  let s' := upd_buf i (set_data d) s in
  crep s' (v_set b d v) ∧ (∀ j x, held s j x → held s' j x) ∧ b_data (buf_at i s') = d ∧
  writes s' = writes s ∧ curpid s' = curpid s.
Proof.
  intros Hl. pose proof cache_here as Hb.
  destruct (bset_spec _ _ _ _ _ d (cr_rep _ _ H) Hh cache_entry Hl)
    as (H1 & E1 & E2 & E3 & H2 & H3). split; [| done].
  pose proof H as [_ Hdk Hdom Hcl Hus Hlk]. split; simpl.
  - assert (Hin : b ∈ v_used v) by (unfold v_used; set_solver).
    replace (cmap _ _) with (<[b:=Cent (v_ref v b) (mine s) d]> (cmap (mine s) v)); [exact H1 |].
    symmetry. apply cmap_insert.
    + rewrite (cmap_Some _ _ _ d); [| done | simpl; by rewrite lookup_insert_eq].
      simpl. by rewrite decide_True.
    + intros x Hx. simpl. by rewrite lookup_insert_ne.
    + done.
  - done.
  - rewrite dom_insert_L, Hdom. set_solver.
  - intros x Hx. rewrite lookup_insert_ne; [by apply Hcl |].
    intros ->. apply Hx. unfold v_used in *. simpl. set_solver.
  - done.
  - done.
Qed.

Lemma cache_bwrite :
  let d := b_data (buf_at i s) in
  wp (bwrite i) (λ _ s', crep s' (v_sync b d v) ∧ (∀ j x, held s j x → held s' j x) ∧
    writes s' = writes s ++ [(b, d)] ∧ curpid s' = curpid s) s.
Proof.
  intros d. pose proof cache_here as Hb.
  assert (is_Some (disk s !! b)) as [d0 Hd0].
  { apply elem_of_dom. rewrite (cr_disk _ _ H). apply (cr_used _ _ H). unfold v_used. set_solver. }
  eapply wp_mono; [eapply (bwrite_spec _ _ _ _ _ _ (cr_rep _ _ H) Hh cache_entry Hd0) |].
  intros _ s' (H1 & E1 & E2 & E3 & H2). split_and!; [| done..].
  pose proof H as [_ Hdk Hdom Hcl Hus Hlk]. split; simpl.
  - unfold mine. rewrite E3. exact H1.
  - rewrite E1, Hdk. done.
  - rewrite dom_insert_L, Hdom. unfold v_used in Hus. set_solver.
  - intros x Hx. rewrite lookup_insert_ne; [by apply Hcl |].
    intros ->. apply Hx. unfold v_used. simpl. set_solver.
  - rewrite dom_insert_L. unfold v_used in *. simpl. set_solver.
  - done.
Qed.

(** Releasing a block nobody else needs is sound only when its bytes are
    on the disk; a pinned block keeps its buffer. *)
Lemma cache_brelse :
  (b ∈ v_pin v ∨ b ∈ v_leak v ∨ v_now v !! b = v_disk v !! b) →
  wp (brelse i) (λ _ s', crep s' (v_drop b v) ∧
    (∀ j x, j ≠ i → held s j x → held s' j x) ∧
    writes s' = writes s ∧ curpid s' = curpid s) s.
Proof.
  intros Hok. pose proof cache_here as Hb. destruct (crep_held _ _ _ _ H Hh) as (_ & Hn & _).
  set (d := b_data (buf_at i s)) in *.
  assert (Href : u32 (v_ref v b - 1) = v_ref (v_drop b v) b).
  { unfold v_ref, one. simpl. rewrite (decide_True (P := b ∈ v_held v)) by done.
    rewrite (decide_False (P := b ∈ v_held v ∖ {[b]})) by set_solver.
    repeat case_decide; done. }
  pose proof (cr_leak _ _ H) as Hlk.
  assert (Hfin : ∀ s', brep s' (cmap (mine s) (v_drop b v)) → disk s' = disk s →
     curpid s' = curpid s → crep s' (v_drop b v)).
  { intros s' H1 E1 E2. pose proof H as [_ Hdk Hdom Hcl Hus _]. split; simpl.
    - unfold mine. by rewrite E2.
    - by rewrite E1.
    - done.
    - intros x Hx. destruct (decide (x = b)) as [->|Hne].
      + unfold v_used in Hx. simpl in Hx. destruct Hok as [?|[?|?]]; [set_solver.. | done].
      + apply Hcl. unfold v_used in *. simpl in *. set_solver.
    - unfold v_used in *. simpl. set_solver.
    - done. }
  destruct (decide (b ∈ v_pin v ∪ v_leak v)) as [Hu | Hu].
  - eapply wp_mono; [eapply (brelse_keep _ _ _ _ _ (cr_rep _ _ H) Hh cache_entry) |].
    + simpl. rewrite Href. unfold v_ref, one. simpl.
      repeat case_decide; vm_compute; try done; set_solver.
    + simpl. intros _ s' (H1 & E1 & E2 & E3 & H2). split_and!; [| done..].
      apply Hfin; [| done | done].
      replace (cmap _ _) with (<[b:=Cent (u32 (v_ref v b - 1)) initsleeplock d]> (cmap (mine s) v));
        [exact H1 |].
      symmetry. apply cmap_insert; [| done |].
      * rewrite (cmap_Some _ _ _ d); [| unfold v_used; simpl; set_solver | done].
        rewrite Href. simpl. rewrite decide_False by set_solver. done.
      * entry_ne.
  - eapply wp_mono; [eapply (brelse_last _ _ _ _ _ (cr_rep _ _ H) Hh cache_entry) |].
    + simpl. rewrite Href. unfold v_ref, one. simpl.
      repeat case_decide; vm_compute; try done; set_solver.
    + simpl. rewrite (cr_disk _ _ H).
      destruct Hok as [?|[?|Hok]]; [set_solver.. |]. by rewrite <- Hok.
    + simpl. intros _ s' (H1 & E1 & E2 & E3 & H2). split_and!; [| done..].
      apply Hfin; [| done | done].
      replace (cmap _ _) with (delete b (cmap (mine s) v)); [exact H1 |].
      apply map_eq. intros x. destruct (decide (x = b)) as [->|Hne].
      * rewrite lookup_delete_eq, cmap_None; [done |]. unfold v_used. simpl. set_solver.
      * rewrite lookup_delete_ne, !cmap_lookup by done. simpl.
        destruct (v_now v !! x); [| done]. simpl. symmetry. entry_ne.
Qed.

Lemma cache_refcnt f v' :
  v_now v' = v_now v → v_disk v' = v_disk v → v_held v' = v_held v →
  v_pin v' ## v_leak v' → v_used v' ⊆ v_used v ∪ {[b]} → v_used v ⊆ v_used v' ∪ {[b]} →
  (∀ x, x ≠ b → (x ∈ v_pin v' ↔ x ∈ v_pin v) ∧ (x ∈ v_leak v' ↔ x ∈ v_leak v)) →
  f (v_ref v b) = v_ref v' b →
  let s' := upd_buf i (λ x, set_refcnt (f (b_refcnt x)) x) s in
  crep s' v' ∧ (∀ j x, held s j x → held s' j x) ∧
  b_data (buf_at i s') = b_data (buf_at i s) ∧ writes s' = writes s ∧ curpid s' = curpid s.
Proof.
  intros En Ed Eh Hpl Hu1 Hu2 Hx Hf. pose proof cache_here as Hb.
  destruct (brefcnt_spec _ _ _ _ _ f (cr_rep _ _ H) Hh cache_entry)
    as (H1 & E1 & E2 & E3 & H2 & H3). split; [| done].
  destruct (crep_held _ _ _ _ H Hh) as (_ & Hn & _).
  pose proof H as [_ Hdk Hdom Hcl Hus _]. split; simpl.
  - simpl in H1. rewrite Hf in H1. erewrite <- cmap_insert in H1; [exact H1 | | |].
    + rewrite (cmap_Some _ _ _ (b_data (buf_at i s)));
        [| unfold v_used; rewrite Eh; set_solver | by rewrite En].
      rewrite decide_True by (by rewrite Eh). done.
    + intros x _. by rewrite En.
    + intros x d Hne. destruct (Hx x Hne). apply v_entry_eq; [by rewrite Eh | done..].
  - by rewrite Ed.
  - by rewrite En, Ed.
  - intros x Hxu. rewrite En, Ed. apply Hcl. intros Hxv. apply Hu2 in Hxv.
    unfold v_used in Hxu. rewrite Eh in Hxu. set_solver.
  - rewrite Ed. intros x Hxu. apply Hu1 in Hxu. unfold v_used in Hus. set_solver.
  - done.
Qed.

Lemma cache_bpin :
  b ∉ v_pin v → b ∉ v_leak v →
  wp (bpin i) (λ _ s', crep s' (v_dopin b v) ∧ (∀ j x, held s j x → held s' j x) ∧
    b_data (buf_at i s') = b_data (buf_at i s) ∧ writes s' = writes s ∧ curpid s' = curpid s) s.
Proof.
  intros Hp Hl. pose proof cache_here as Hb. unfold bpin. wp_steps.
  apply (cache_refcnt (λ r, u32 (r + 1))); try done; simpl.
  - pose proof (cr_leak _ _ H). set_solver.
  - unfold v_used. simpl. set_solver.
  - unfold v_used. simpl. set_solver.
  - set_solver.
  - unfold v_ref, one. simpl. repeat case_decide; first [done | exfalso; set_solver].
Qed.

(** [bunpin] of a block that is not pinned is possible: it leaks. *)
Lemma cache_bunpin :
  b ∉ v_leak v →
  wp (bunpin i) (λ _ s', crep s' (v_unpin b v) ∧ (∀ j x, held s j x → held s' j x) ∧
    b_data (buf_at i s') = b_data (buf_at i s) ∧ writes s' = writes s ∧ curpid s' = curpid s) s.
Proof.
  intros Hl. pose proof cache_here as Hb. unfold bunpin. wp_steps. pose proof (cr_leak _ _ H).
  apply (cache_refcnt (λ r, u32 (r - 1))); unfold v_used, v_unpin; case_decide; simpl;
    try done; try set_solver.
  - intros x. destruct (decide (x = b)) as [->|]; set_solver.
  - unfold v_ref, one. simpl. repeat case_decide; first [done | exfalso; set_solver].
  - unfold v_ref, one. simpl. repeat case_decide; first [done | exfalso; set_solver].
Qed.
End Promises.

(** After [binit]: nothing in use, every block as on the disk. *)
Lemma boot_crep d pid :
  map_Forall (λ _ x, length x = bsize) d → crep (boot d pid) (CView d d ∅ ∅ ∅).
Proof.
  intros Hd. constructor; unfold v_used; cbn [v_now v_disk v_held v_pin v_leak].
  - assert (∀ lk, cmap lk (CView d d ∅ ∅ ∅) = ∅) as ->; [| by apply boot_brep].
    intros lk. apply map_eq. intros x. rewrite lookup_empty. apply cmap_None.
    unfold v_used. set_solver.
  - reflexivity.
  - reflexivity.
  - intros b _. reflexivity.
  - set_solver.
  - set_solver.
Qed.

(** Every block the view knows has [BSIZE] bytes. *)
Lemma crep_lengths s v : crep s v → map_Forall (λ _ (d : block), length d = bsize) (v_now v).
Proof.
  intros H b d Hd. destruct (decide (b ∈ v_used v)) as [Hu|Hu].
  - pose proof (cmap_Some (mine s) v b d Hu Hd) as Hc.
    destruct (br_dom _ _ (cr_rep _ _ H) _ _ Hc) as [i (Hi & Hdev & Hbn)].
    destruct (br_ok _ _ (cr_rep _ _ H) i Hi) as [Hlen Hok].
    rewrite decide_True, Hbn, Hc in Hok by done. destruct Hok as (_ & _ & _ & Hok).
    simpl in Hok. by rewrite <- Hok.
  - rewrite (cr_clean _ _ H _ Hu), <- (cr_disk _ _ H) in Hd.
    by apply (br_disk _ _ (cr_rep _ _ H) b).
Qed.
