(* ===== verification/Log.v ===== *)
(** * The write-ahead log ([kernel/log.c]) *)
From S2P Require Import Prelude Params Locks Bio Cache.

(** ** State *)

(** [struct log], with the in-memory [struct logheader] [lh] inlined. *)
Record log := Log {
  lg_start : Z;
  lg_size : Z;
  lg_outstanding : Z;
  lg_committing : bool;
  lg_dev : Z;
  lh_n : Z;
  lh_block : list Z;
}.

Record lst := Lst { l_bio : bio; l_log : log }.

Definition on_bio {A} (m : M bio A) : M lst A := zoom l_bio (λ b s, Lst b (l_log s)) m.

Definition put_log (f : log → log) : M lst unit := modify (λ s, Lst (l_bio s) (f (l_log s))).

Definition set_n (n : Z) (l : log) : log :=
  Log (lg_start l) (lg_size l) (lg_outstanding l) (lg_committing l) (lg_dev l) n (lh_block l).
Definition set_block (k : nat) (b : Z) (l : log) : log :=
  Log (lg_start l) (lg_size l) (lg_outstanding l) (lg_committing l) (lg_dev l) (lh_n l)
      (<[k:=b]> (lh_block l)).
Definition set_outstanding (o : Z) (l : log) : log :=
  Log (lg_start l) (lg_size l) o (lg_committing l) (lg_dev l) (lh_n l) (lh_block l).
Definition set_committing (c : bool) (l : log) : log :=
  Log (lg_start l) (lg_size l) (lg_outstanding l) c (lg_dev l) (lh_n l) (lh_block l).

(** [log.lh.block[k] = b]; an index outside the array is undefined
    behaviour in C and stops the model. *)
Definition store_block (k : Z) (b : Z) : M lst unit :=
  if decide (0 <= k < LOGSIZE) then put_log (set_block (Z.to_nat k) b)
  else panic "log.lh.block: index out of bounds".

Definition block_at (k : Z) (l : log) : Z := lh_block l !!! Z.to_nat k.

(** The buffer's data as the caller of [bread] sees it. *)
Definition data_of (i : nat) (s : lst) : block := b_data (buf_at i (l_bio s)).
Definition put_data (i : nat) (d : block) : M lst unit := on_bio (modify (upd_buf i (set_data d))).

(** ** The on-disk header: [int n; int block[LOGSIZE]] *)
Definition hdr_n (d : block) : Z := s32 (ld32 0 d).
Definition hdr_block (d : block) (k : nat) : Z := s32 (ld32 (4 + 4 * k) d).

(** What [write_head] leaves in the header block: [n] and the first [n]
    block numbers, the rest of the block as it was. *)
Definition hdr_store (n : Z) (bs : list Z) (d : block) : block :=
  foldl (λ d k, st32 (4 + 4 * k) (bs !!! k) d) (st32 0 n d) (seq 0 (Z.to_nat n)).

(** ** Operations *)
Definition install_trans_step (tail : Z) : M lst unit :=
  let! lg := gets l_log in
  let! lbuf := on_bio (bread (lg_dev lg) (u32 (lg_start lg + tail + 1))) in
  let! dbuf := on_bio (bread (lg_dev lg) (u32 (block_at tail lg))) in
  let! src := gets (data_of lbuf) in
  put_data dbuf src;;
  on_bio (bwrite dbuf);;
  on_bio (bunpin dbuf);;
  on_bio (brelse lbuf);;
  on_bio (brelse dbuf).

Definition install_trans : M lst unit :=
  let! lg := gets l_log in
  mfor (Z.to_nat (lh_n lg)) 0 install_trans_step.

Definition read_head : M lst unit :=
  let! lg := gets l_log in
  let! b := on_bio (bread (lg_dev lg) (u32 (lg_start lg))) in
  let! d := gets (data_of b) in
  put_log (set_n (hdr_n d));;
  mfor (Z.to_nat (hdr_n d)) 0 (λ i, store_block i (hdr_block d (Z.to_nat i)));;
  on_bio (brelse b).

Definition write_head : M lst unit :=
  let! lg := gets l_log in
  let! b := on_bio (bread (lg_dev lg) (u32 (lg_start lg))) in
  let! d := gets (data_of b) in
  put_data b (hdr_store (lh_n lg) (lh_block lg) d);;
  on_bio (bwrite b);;
  on_bio (brelse b).

Definition recover_from_log : M lst unit :=
  read_head;;
  install_trans;;
  put_log (set_n 0);;
  write_head.

(** [initlog]; the size test it starts with compares the constants
    [sizeof(struct logheader)] and [BSIZE]. *)
Definition initlog (dev logstart nlog : Z) : M lst unit :=
  if decide (4 + 4 * LOGSIZE >= BSIZE) then panic "initlog: too big logheader"
  else
    put_log (λ l, Log (s32 logstart) (s32 nlog) (lg_outstanding l) (lg_committing l) dev
                      (lh_n l) (lh_block l));;
    recover_from_log.

Definition begin_op : M lst unit :=
  let! lg := gets l_log in
  if lg_committing lg then sleep_on "log"
  else if decide (lh_n lg + (lg_outstanding lg + 1) * MAXOPBLOCKS > LOGSIZE) then sleep_on "log"
  else put_log (set_outstanding (lg_outstanding lg + 1)).

Definition write_log_step (tail : Z) : M lst unit :=
  let! lg := gets l_log in
  let! to := on_bio (bread (lg_dev lg) (u32 (lg_start lg + tail + 1))) in
  let! from := on_bio (bread (lg_dev lg) (u32 (block_at tail lg))) in
  let! src := gets (data_of from) in
  put_data to src;;
  on_bio (bwrite to);;
  on_bio (brelse from);;
  on_bio (brelse to).

Definition write_log : M lst unit :=
  let! lg := gets l_log in
  mfor (Z.to_nat (lh_n lg)) 0 write_log_step.

Definition commit : M lst unit :=
  let! lg := gets l_log in
  if decide (lh_n lg > 0) then
    write_log;;
    write_head;;
    install_trans;;
    put_log (set_n 0);;
    write_head
  else ret tt.

Definition end_op : M lst unit :=
  let! lg := gets l_log in
  put_log (set_outstanding (lg_outstanding lg - 1));;
  if lg_committing lg then panic "log.committing"
  else if decide (lg_outstanding lg - 1 = 0) then
    put_log (set_committing true);;
    commit;;
    put_log (set_committing false)
  else ret tt.

(** The index [log_write] stores to: the first entry that already names the
    block (absorption), or the end of the list. *)
Definition log_slot (lg : log) (blockno : Z) : Z :=
  match list_find (λ x, u32 x = blockno) (take (Z.to_nat (lh_n lg)) (lh_block lg)) with
  | Some (k, _) => Z.of_nat k
  | None => lh_n lg
  end.

Definition log_write (b : nat) : M lst unit :=
  let! lg := gets l_log in
  if decide (lh_n lg >= LOGSIZE ∨ lh_n lg >= lg_size lg - 1) then panic "too big a transaction"
  else if decide (lg_outstanding lg < 1) then panic "log_write outside of trans"
  else
    let! blockno := gets (λ s, b_blockno (buf_at b (l_bio s))) in
    let i := log_slot lg blockno in
    store_block i (s32 blockno);;
    if decide (i = lh_n lg) then on_bio (bpin b);; put_log (set_n (lh_n lg + 1))
    else ret tt.

(** ** Lifting the cache's promises to the log's state *)
Definition lheld (s : lst) (i : nat) (b : Z) : Prop := held (l_bio s) i b.

(** The part of the state the cache operations leave alone. *)
Definition lframe (W : list (Z * block)) (s s' : lst) : Prop :=
  l_log s' = l_log s ∧ writes (l_bio s') = writes (l_bio s) ++ W ∧
  curpid (l_bio s') = curpid (l_bio s).

Lemma lframe_refl s : lframe [] s s.
Proof. split_and!; [done | by rewrite app_nil_r | done]. Qed.

Lemma lframe_trans W1 W2 s1 s2 s3 :
  lframe W1 s1 s2 → lframe W2 s2 s3 → lframe (W1 ++ W2) s1 s3.
Proof.
  intros (E1 & E2 & E3) (F1 & F2 & F3). split_and!; [congruence | | congruence].
  by rewrite F2, E2, app_assoc.
Qed.

Lemma wp_on_bio {A} (m : M bio A) (Q : A → lst → Prop) s :
  wp m (λ a b, Q a (Lst b (l_log s))) (l_bio s) → wp (on_bio m) Q s.
Proof. unfold wp, on_bio, zoom. by destruct (m (l_bio s)). Qed.

Section Lifted.
Context (s : lst) (v : cview) (H : crep (l_bio s) v).

Lemma log_bread b :
  b ∈ dom (v_disk v) → b ∉ v_held v → b ∉ v_leak v → v_held v ## v_leak v →
  (b ∈ v_pin v ∨ size (v_used v) < nbuf)%nat →
  wp (on_bio (bread ROOTDEV b)) (λ i s', crep (l_bio s') (v_hold b v) ∧ lheld s' i b ∧
    lframe [] s s' ∧ ∀ j x, lheld s j x → lheld s' j x) s.
Proof.
  intros ? ? ? ? ?. apply wp_on_bio. eapply wp_mono; [by eapply cache_bread |].
  clear -H. intros i s' (H1 & H2 & E1 & E2 & E3 & H3). unfold lframe. simpl. rewrite app_nil_r. done.
Qed.

Context (i : nat) (b : Z) (Hh : lheld s i b).

Lemma log_data : v_now v !! b = Some (data_of i s) ∧ length (data_of i s) = bsize.
Proof. by destruct (crep_held _ _ _ _ H Hh) as (_ & ? & ?). Qed.

Lemma log_put_data d :
  length d = bsize →
  wp (put_data i d) (λ _ s', crep (l_bio s') (v_set b d v) ∧ data_of i s' = d ∧
    lframe [] s s' ∧ ∀ j x, lheld s j x → lheld s' j x) s.
Proof.
  intros Hd. apply wp_on_bio. wp_steps.
  destruct (cache_set _ _ H _ _ Hh d Hd) as (H1 & H2 & H3 & E1 & E2).
  unfold lframe. simpl. rewrite app_nil_r. done.
Qed.

Lemma log_bwrite :
  wp (on_bio (bwrite i)) (λ _ s', crep (l_bio s') (v_sync b (data_of i s) v) ∧
    lframe [(b, data_of i s)] s s' ∧ ∀ j x, lheld s j x → lheld s' j x) s.
Proof.
  apply wp_on_bio. eapply wp_mono; [by eapply cache_bwrite |].
  intros _ s' (H1 & H2 & E1 & E2). unfold lframe. simpl. done.
Qed.

Lemma log_bunpin :
  b ∉ v_leak v →
  wp (on_bio (bunpin i)) (λ _ s', crep (l_bio s') (v_unpin b v) ∧
    lframe [] s s' ∧ ∀ j x, lheld s j x → lheld s' j x) s.
Proof.
  intros Hl. apply wp_on_bio. eapply wp_mono; [by eapply cache_bunpin |].
  intros _ s' (H1 & H2 & _ & E1 & E2). unfold lframe. simpl. rewrite app_nil_r. done.
Qed.

Lemma log_brelse :
  (b ∈ v_pin v ∨ b ∈ v_leak v ∨ v_now v !! b = v_disk v !! b) →
  wp (on_bio (brelse i)) (λ _ s', crep (l_bio s') (v_drop b v) ∧
    lframe [] s s' ∧ ∀ j x, j ≠ i → lheld s j x → lheld s' j x) s.
Proof.
  intros Hok. apply wp_on_bio. eapply wp_mono; [by eapply cache_brelse |].
  intros _ s' (H1 & H2 & E1 & E2). unfold lframe. simpl. rewrite app_nil_r. done.
Qed.
End Lifted.

Lemma lheld_ne s i j b c : lheld s i b → lheld s j c → b ≠ c → i ≠ j.
Proof. intros [(_ & _ & H1) _] [(_ & _ & H2) _] Hne ->. congruence. Qed.

(** A block written through to the disk. *)
Definition v_put (b : Z) (d : block) (v : cview) : cview :=
  CView (<[b:=d]> (v_now v)) (<[b:=d]> (v_disk v)) (v_held v) (v_pin v) (v_leak v).

Lemma cview_eq n n' d d' h h' p p' l l' :
  n = n' → d = d' → h = h' → p = p' → l = l' → CView n d h p l = CView n' d' h' p' l'.
Proof. by intros -> -> -> -> ->. Qed.

Lemma lframe_log W s s' : lframe W s s' → l_log s' = l_log s.
Proof. by intros [? _]. Qed.

(** Close a frame condition by chaining the ones in the context. *)
Ltac frames :=
  repeat match goal with
  | H1 : lframe ?A ?x ?y, H2 : lframe ?B ?y ?z |- _ =>
      let F := fresh "F" in
      pose proof (lframe_trans _ _ _ _ _ H1 H2) as F; clear H1 H2
  end; simpl in *; try eassumption.

(** [write_log], one block: the home block's new bytes go to the log area. *)
Lemma write_log_step_spec s v (k : nat) L b d :
  crep (l_bio s) v → v_held v = ∅ → v_leak v = ∅ → (size (v_used v) < nbuf)%nat →
  lg_dev (l_log s) = ROOTDEV →
  u32 (lg_start (l_log s) + Z.of_nat k + 1) = L → u32 (block_at (Z.of_nat k) (l_log s)) = b →
  L ∈ dom (v_disk v) → L ∉ v_pin v → b ∈ v_pin v → v_now v !! b = Some d →
  wp (write_log_step (Z.of_nat k)) (λ _ s', crep (l_bio s') (v_put L d v) ∧ lframe [(L, d)] s s') s.
Proof.
  intros H Hheld Hleak Hsz Hdev HL Hb HLd HLp Hbp Hd.
  assert (HLb : L ≠ b) by congruence.
  unfold write_log_step. wp_steps. rewrite Hdev, HL, Hb.
  eapply wp_mono; [apply (log_bread _ _ H L); [done | set_solver.. | by right] |].
  intros i s1 (H1 & Hi & F1 & _). wp_steps.
  eapply wp_mono; [apply (log_bread _ _ H1 b); simpl; [| set_solver.. | by left] |].
  { pose proof (cr_used _ _ H) as Hu. unfold v_used in Hu. set_solver. }
  intros j s2 (H2 & Hj & F2 & K2). pose proof (K2 _ _ Hi) as Hi2. wp_steps.
  destruct (log_data _ _ H2 _ _ Hj) as [Hdj Hlj]. simpl in Hdj. rewrite Hd in Hdj.
  injection Hdj as Hdj. rewrite <- Hdj in *.
  eapply wp_mono; [apply (log_put_data _ _ H2 i L Hi2 d Hlj) |].
  intros _ s3 (H3 & Hdi & F3 & K3). wp_steps.
  eapply wp_mono; [apply (log_bwrite _ _ H3 i L (K3 _ _ Hi2)) |].
  intros _ s4 (H4 & F4 & K4). rewrite Hdi in *. wp_steps.
  pose proof (K4 _ _ (K3 _ _ Hi2)) as Hi4. pose proof (K4 _ _ (K3 _ _ Hj)) as Hj4.
  eapply wp_mono; [apply (log_brelse _ _ H4 j b Hj4); by left |].
  intros _ s5 (H5 & F5 & K5).
  eapply wp_mono; [apply (log_brelse _ _ H5 i L) |].
  { apply K5; [by eapply lheld_ne | done]. }
  { simpl. right. right. by rewrite !lookup_insert_eq. }
  intros _ s6 (H6 & F6 & _). split; [| by frames].
  replace (v_put L d v) with (v_drop L (v_drop b (v_sync L d (v_set L d (v_hold b (v_hold L v))))));
    [done |].
  apply cview_eq; simpl; try done. rewrite Hheld. set_solver.
Qed.

(** [install_trans], one block: the log copy goes to the home location. *)
Lemma install_trans_step_spec s v (k : nat) L b d :
  crep (l_bio s) v → v_held v = ∅ → (size (v_used v) < nbuf)%nat →
  (b ∈ v_pin v ∨ S (size (v_used v)) < nbuf)%nat →
  lg_dev (l_log s) = ROOTDEV →
  u32 (lg_start (l_log s) + Z.of_nat k + 1) = L → u32 (block_at (Z.of_nat k) (l_log s)) = b →
  L ∈ dom (v_disk v) → b ∈ dom (v_disk v) → L ∉ v_pin v → L ∉ v_leak v → b ∉ v_leak v → L ≠ b →
  v_now v !! L = Some d →
  wp (install_trans_step (Z.of_nat k)) (λ _ s',
    crep (l_bio s') (v_unpin b (v_put b d v)) ∧ lframe [(b, d)] s s') s.
Proof.
  intros H Hheld Hsz Hsz2 Hdev HL Hb HLd Hbd HLp HLl Hbl HLb Hd.
  unfold install_trans_step. wp_steps. rewrite Hdev, HL, Hb.
  eapply wp_mono; [apply (log_bread _ _ H L); [done | set_solver.. | by right] |].
  intros i s1 (H1 & Hi & F1 & _). wp_steps.
  eapply wp_mono; [apply (log_bread _ _ H1 b); simpl; [done | set_solver.. |] |].
  { destruct Hsz2 as [|Hsz2]; [by left | right]. unfold v_used in *. simpl.
    rewrite Hheld in *. pose proof (size_union_alt ({[L]} : gset Z) (v_pin v ∪ v_leak v)) as E.
    replace ({[L]} ∪ ∅ ∪ v_pin v ∪ v_leak v) with ({[L]} ∪ (v_pin v ∪ v_leak v)) by set_solver.
    rewrite size_union by set_solver. rewrite size_singleton.
    replace (∅ ∪ v_pin v ∪ v_leak v) with (v_pin v ∪ v_leak v) in Hsz2 by set_solver. lia. }
  intros j s2 (H2 & Hj & F2 & K2). pose proof (K2 _ _ Hi) as Hi2. wp_steps.
  destruct (log_data _ _ H2 _ _ Hi2) as [Hdi Hli]. simpl in Hdi. rewrite Hd in Hdi.
  injection Hdi as Hdi. rewrite <- Hdi in *.
  eapply wp_mono; [apply (log_put_data _ _ H2 j b Hj d Hli) |].
  intros _ s3 (H3 & Hdj & F3 & K3). wp_steps.
  eapply wp_mono; [apply (log_bwrite _ _ H3 j b (K3 _ _ Hj)) |].
  intros _ s4 (H4 & F4 & K4). rewrite Hdj in *. wp_steps.
  pose proof (K4 _ _ (K3 _ _ Hi2)) as Hi4. pose proof (K4 _ _ (K3 _ _ Hj)) as Hj4.
  eapply wp_mono; [apply (log_bunpin _ _ H4 j b Hj4); done |].
  intros _ s5 (H5 & F5 & K5). wp_steps.
  eapply wp_mono; [apply (log_brelse _ _ H5 i L (K5 _ _ Hi4)) |].
  { right. right. unfold v_unpin. case_decide; simpl; rewrite !lookup_insert_ne by done;
      apply (cr_clean _ _ H); unfold v_used; set_solver. }
  intros _ s6 (H6 & F6 & K6).
  eapply wp_mono; [apply (log_brelse _ _ H6 j b) |].
  { apply K6; [| by apply K5]. intros ->. by eapply (lheld_ne _ _ _ _ _ Hi4 Hj4). }
  { right. right. unfold v_unpin. case_decide; simpl; by rewrite !lookup_insert_eq. }
  intros _ s7 (H7 & F7 & _). split; [| by frames].
  replace (v_unpin b (v_put b d v)) with
    (v_drop b (v_drop L (v_unpin b (v_sync b d (v_set b d (v_hold b (v_hold L v)))))));
    [done |].
  unfold v_unpin. simpl. case_decide; apply cview_eq; simpl; try done; rewrite Hheld; set_solver.
Qed.

(** ** The header block *)
Lemma hdr_fold_spec (bs : list Z) d (j : nat) :
  length d = bsize → (j ≤ logsize)%nat →
  let d' := foldl (λ d k, st32 (4 + 4 * k) (bs !!! k) d) d (seq 0 j) in
  length d' = bsize ∧ ld32 0 d' = ld32 0 d ∧
  ∀ k : nat, (k < j)%nat → ld32 (4 + 4 * k) d' = u32 (bs !!! k).
Proof.
  intros Hd. induction j as [|j IH]; intros Hj; cbv zeta; [by split_and!; [| | lia] |].
  rewrite seq_S, foldl_app. cbn [foldl]. change (0 + j)%nat with j.
  destruct IH as (H1 & H2 & H3); [lia |]. revert H1 H2 H3.
  generalize (foldl (λ d k, st32 (4 + 4 * k) (bs !!! k) d) d (seq 0 j)). intros e H1 H2 H3.
  params. unfold st32, ld32 in *. split_and!.
  - rewrite stn_length by lia. done.
  - rewrite ldn_stn_disjoint by lia. done.
  - intros k Hk. destruct (decide (k = j)) as [->|].
    + rewrite ldn_stn_same by lia. done.
    + rewrite ldn_stn_disjoint by lia. apply H3. lia.
Qed.

Lemma hdr_store_spec n bs d :
  length d = bsize → 0 <= n <= LOGSIZE →
  length (hdr_store n bs d) = bsize ∧ hdr_n (hdr_store n bs d) = n ∧
  ∀ k : nat, Z.of_nat k < n → hdr_block (hdr_store n bs d) k = s32 (bs !!! k).
Proof.
  intros Hd Hn.
  assert (H0 : length (st32 0 n d) = bsize) by (unfold st32; rewrite stn_length; params; lia).
  destruct (hdr_fold_spec bs (st32 0 n d) (Z.to_nat n) H0) as (H1 & H2 & H3); [params; lia |].
  split_and!; [done | |].
  - unfold hdr_n, hdr_store. rewrite H2. unfold ld32, st32.
    rewrite ldn_stn_same by (params; lia). change (256 ^ Z.of_nat 4) with (2 ^ 32).
    change (s32 (u32 n) = n). rewrite s32_u32, s32_small by (params; lia). done.
  - intros k Hk. unfold hdr_block, hdr_store. rewrite H3 by lia. apply s32_u32.
Qed.

(** A batch of block writes. *)
Definition app_writes (W : list (Z * block)) (D : gmap Z block) : gmap Z block :=
  foldl (λ D w, <[w.1:=w.2]> D) D W.

Lemma app_writes_app W1 W2 D : app_writes (W1 ++ W2) D = app_writes W2 (app_writes W1 D).
Proof. apply foldl_app. Qed.

Lemma app_writes_notin W D x : x ∉ W.*1 → app_writes W D !! x = D !! x.
Proof.
  revert D. induction W as [|w W IH]; intros D Hx; [done |]. simpl in *.
  apply not_elem_of_cons in Hx as [H1 H2]. rewrite IH by done. by rewrite lookup_insert_ne.
Qed.

Lemma app_writes_in W D x d : NoDup W.*1 → (x, d) ∈ W → app_writes W D !! x = Some d.
Proof.
  revert D. induction W as [|w W IH]; intros D Hn Hx; [by apply not_elem_of_nil in Hx |].
  simpl in *. apply NoDup_cons in Hn as [Hw Hn]. apply elem_of_cons in Hx as [<-|Hx].
  - rewrite app_writes_notin by done. by rewrite lookup_insert_eq.
  - by apply IH.
Qed.

Lemma app_writes_dom W D : dom D ⊆ dom (app_writes W D).
Proof.
  revert D. induction W as [|w W IH]; intros D; [done |]. simpl.
  etrans; [| apply IH]. rewrite dom_insert_L. set_solver.
Qed.

Definition v_puts (W : list (Z * block)) (v : cview) : cview :=
  CView (app_writes W (v_now v)) (app_writes W (v_disk v)) (v_held v) (v_pin v) (v_leak v).

Lemma write_head_spec s v start d :
  crep (l_bio s) v → v_held v = ∅ → start ∉ v_pin v → start ∉ v_leak v →
  (size (v_used v) < nbuf)%nat →
  lg_dev (l_log s) = ROOTDEV → u32 (lg_start (l_log s)) = start →
  0 <= lh_n (l_log s) <= LOGSIZE →
  start ∈ dom (v_disk v) → v_now v !! start = Some d →
  let h := hdr_store (lh_n (l_log s)) (lh_block (l_log s)) d in
  wp write_head (λ _ s', crep (l_bio s') (v_put start h v) ∧ lframe [(start, h)] s s') s.
Proof.
  intros H Hheld Hp Hl Hsz Hdev Hst Hn Hdom Hd h.
  unfold write_head. wp_steps. rewrite Hdev, Hst.
  eapply wp_mono; [apply (log_bread _ _ H start); [done | set_solver.. | by right] |].
  intros i s1 (H1 & Hi & F1 & _). wp_steps.
  destruct (log_data _ _ H1 _ _ Hi) as [Hdi Hli]. simpl in Hdi. rewrite Hd in Hdi.
  injection Hdi as Hdi. rewrite <- Hdi in *.
  destruct (hdr_store_spec (lh_n (l_log s)) (lh_block (l_log s)) d Hli Hn) as (Hlen & _).
  eapply wp_mono; [apply (log_put_data _ _ H1 i start Hi h Hlen) |].
  intros _ s2 (H2 & Hd2 & F2 & K2). wp_steps.
  eapply wp_mono; [apply (log_bwrite _ _ H2 i start (K2 _ _ Hi)) |].
  intros _ s3 (H3 & F3 & K3). rewrite Hd2 in *.
  eapply wp_mono; [apply (log_brelse _ _ H3 i start (K3 _ _ (K2 _ _ Hi))) |].
  { simpl. right. right. by rewrite !lookup_insert_eq. }
  intros _ s4 (H4 & F4 & _). split; [| by frames].
  replace (v_put start h v) with (v_drop start (v_sync start h (v_set start h (v_hold start v))));
    [done |].
  apply cview_eq; simpl; try done. rewrite Hheld. set_solver.
Qed.

(** ** A logged transaction

    Where the log lives and what it currently records: [bs], the home
    blocks in header order. *)
Record lwf (start size : Z) (lg : log) (bs : list Z) : Prop := {
  lw_dev : lg_dev lg = ROOTDEV;
  lw_start : lg_start lg = start;
  lw_size : lg_size lg = size;
  lw_geom : 0 < start ∧ start + size <= 2 ^ 31;
  lw_n : lh_n lg = Z.of_nat (length bs);
  lw_blocks : take (length bs) (lh_block lg) = bs;
  lw_cap : length (lh_block lg) = logsize;
  lw_room : (length bs < logsize)%nat ∧ Z.of_nat (length bs) <= size - 1;
  lw_nodup : NoDup bs;
  lw_home : Forall (λ b, 0 <= b < 2 ^ 31 ∧ ¬ (start <= b < start + size)) bs;
}.

Lemma lwf_block start size lg bs (k : nat) b :
  lwf start size lg bs → bs !! k = Some b → u32 (block_at (Z.of_nat k) lg) = b.
Proof.
  intros H Hk. assert (lh_block lg !! k = Some b) as Hb.
  { rewrite <- (lw_blocks _ _ _ _ H) in Hk.
    destruct (decide (k < length bs)%nat); [by rewrite lookup_take_lt in Hk |].
    rewrite lookup_take_ge in Hk by lia. done. }
  unfold block_at. rewrite Nat2Z.id, (list_lookup_total_correct _ _ _ Hb).
  pose proof (lw_home _ _ _ _ H) as Hh. rewrite Forall_lookup in Hh. specialize (Hh _ _ Hk).
  apply u32_small. lia.
Qed.

Lemma lwf_log_block start size lg bs (k : nat) :
  lwf start size lg bs → (k < length bs)%nat →
  u32 (lg_start lg + Z.of_nat k + 1) = start + 1 + Z.of_nat k ∧
  start < start + 1 + Z.of_nat k < start + size.
Proof.
  intros H Hk. rewrite (lw_start _ _ _ _ H).
  pose proof (lw_geom _ _ _ _ H). pose proof (lw_room _ _ _ _ H).
  split; [| lia]. rewrite u32_small; lia.
Qed.

(** The writes [write_log] and [install_trans] make for the new contents [ds]. *)
Definition log_writes (start : Z) (ds : list block) : list (Z * block) :=
  imap (λ k d, (start + 1 + Z.of_nat k, d)) ds.
Definition home_writes (bs : list Z) (ds : list block) : list (Z * block) := zip bs ds.

Lemma log_writes_keys start ds :
  (log_writes start ds).*1 = (λ k : nat, start + 1 + Z.of_nat k) <$> seq 0 (length ds).
Proof.
  unfold log_writes. apply list_eq. intros k. rewrite !list_lookup_fmap, list_lookup_imap.
  destruct (decide (k < length ds)%nat) as [Hk|Hk].
  - rewrite lookup_seq_lt by done. destruct (lookup_lt_is_Some_2 _ _ Hk) as [d ->]. done.
  - rewrite (lookup_ge_None_2 ds) by lia. rewrite lookup_seq_ge by lia. done.
Qed.

Lemma log_writes_nodup start ds : NoDup (log_writes start ds).*1.
Proof.
  rewrite log_writes_keys. apply NoDup_fmap_2_strong; [| apply NoDup_seq]. intros x y _ _. lia.
Qed.

Lemma log_writes_key start ds x :
  x ∈ (log_writes start ds).*1 → start + 1 <= x < start + 1 + Z.of_nat (length ds).
Proof.
  rewrite log_writes_keys. intros (k & -> & Hk%elem_of_seq)%list_elem_of_fmap. lia.
Qed.

Lemma take_snoc {A} (l : list A) (j : nat) x : l !! j = Some x → take (j + 1) l = take j l ++ [x].
Proof. intros H. replace (j + 1)%nat with (S j) by lia. by apply take_S_r. Qed.

Lemma v_puts_snoc W w v : v_puts (W ++ [w]) v = v_put w.1 w.2 (v_puts W v).
Proof. unfold v_puts, v_put. by rewrite !app_writes_app. Qed.

(** [write_log] copies the new contents of the logged blocks into the log. *)
Lemma write_log_spec start size s v bs ds :
  lwf start size (l_log s) bs → crep (l_bio s) v →
  v_held v = ∅ → v_leak v = ∅ → v_pin v = list_to_set bs →
  Forall2 (λ b d, v_now v !! b = Some d) bs ds →
  (∀ x, start <= x < start + size → x ∈ dom (v_disk v)) →
  wp write_log (λ _ s', crep (l_bio s') (v_puts (log_writes start ds) v) ∧
    lframe (log_writes start ds) s s') s.
Proof.
  intros Hlw H Hheld Hleak Hpin Hds Hlogdom. set (W := log_writes start ds).
  pose proof (Forall2_length _ _ _ Hds) as Hlen.
  assert (HW : length W = length bs) by (unfold W, log_writes; by rewrite length_imap).
  assert (Hsz : (base.size (v_used v) < nbuf)%nat).
  { unfold v_used. rewrite Hheld, Hleak, Hpin, union_empty_l_L, union_empty_r_L.
    rewrite size_list_to_set by apply (lw_nodup _ _ _ _ Hlw).
    pose proof (lw_room _ _ _ _ Hlw). params. lia. }
  unfold write_log. wp_steps. rewrite (lw_n _ _ _ _ Hlw), Nat2Z.id.
  eapply wp_mono; [apply (wp_mfor (λ j s', crep (l_bio s') (v_puts (take j W) v) ∧
      lframe (take j W) s s')) |].
  - rewrite take_0. split; [| apply lframe_refl]. by destruct v.
  - intros j s1 Hj [H1 F1]. rewrite Z.add_0_l.
    assert (Hl1 : l_log s1 = l_log s) by apply F1.
    destruct (lookup_lt_is_Some_2 bs j Hj) as [b Hb].
    destruct (Forall2_lookup_l _ _ _ _ _ Hds Hb) as (d & Hd & Hnow).
    destruct (lwf_log_block _ _ _ _ j Hlw Hj) as [HL HLr].
    assert (HWj : W !! j = Some (start + 1 + Z.of_nat j, d)).
    { unfold W, log_writes. by rewrite list_lookup_imap, Hd. }
    pose proof (lw_home _ _ _ _ Hlw) as Hhome. rewrite Forall_lookup in Hhome.
    assert (Hnotlog : ∀ x, x ∈ bs → ¬ (start <= x < start + size)).
    { intros x (k & Hk)%list_elem_of_lookup. by apply (Hhome _ _ Hk). }
    eapply wp_mono; [apply (write_log_step_spec s1 (v_puts (take j W) v) j
                              (start + 1 + Z.of_nat j) b d) |].
    + done.
    + done.
    + done.
    + done.
    + by rewrite Hl1, (lw_dev _ _ _ _ Hlw).
    + by rewrite Hl1.
    + rewrite Hl1. by eapply lwf_block.
    + apply app_writes_dom. apply Hlogdom. lia.
    + simpl. rewrite Hpin, elem_of_list_to_set. intros E. apply (Hnotlog _ E). lia.
    + simpl. rewrite Hpin, elem_of_list_to_set. by eapply list_elem_of_lookup_2.
    + simpl. rewrite app_writes_notin; [done |].
      intros E. assert (b ∈ W.*1) as E'.
      { apply list_elem_of_fmap in E as (w & -> & Hw). apply list_elem_of_fmap. exists w.
        split; [done |]. apply list_elem_of_lookup in Hw as [k Hk].
        apply lookup_take_Some in Hk as [Hk _]. by eapply list_elem_of_lookup_2. }
      apply log_writes_key in E'. apply (Hnotlog b); [by eapply list_elem_of_lookup_2 |].
      pose proof (lw_room _ _ _ _ Hlw). lia.
    + intros _ s2 [H2 F2]. rewrite (take_snoc _ _ _ HWj), v_puts_snoc.
      split; [exact H2 | by eapply lframe_trans].
  - intros _ s' [H1 F1]. by rewrite <- HW, firstn_all in H1, F1.
Qed.

(** The view after [install_trans]: in a commit the pins go away; in
    recovery there are none, and every installed block leaks a reference. *)
Definition v_installed (rec : bool) (bs : list Z) (j : nat) (W : list (Z * block)) (v : cview) : cview :=
  CView (app_writes (take j W) (v_now v)) (app_writes (take j W) (v_disk v)) ∅
    (if rec then ∅ else list_to_set (drop j bs))
    (if rec then list_to_set (take j bs) else ∅).

Lemma v_installed_step rec bs j W v b d :
  NoDup bs → bs !! j = Some b → W !! j = Some (b, d) →
  v_unpin b (v_put b d (v_installed rec bs j W v)) = v_installed rec bs (j + 1) W v.
Proof.
  intros Hnd Hb HW. unfold v_installed. rewrite !(take_snoc _ _ _ HW), !app_writes_app.
  rewrite (take_snoc _ _ _ Hb). replace (j + 1)%nat with (S j) by lia.
  rewrite (drop_S _ _ _ Hb). unfold v_unpin, v_put. simpl. destruct rec; simpl.
  - rewrite decide_False by set_solver. apply cview_eq; try done.
    rewrite list_to_set_app_L. set_solver.
  - rewrite decide_True by set_solver. apply cview_eq; try done.
    assert (b ∉ drop (S j) bs); [| set_solver].
    rewrite <- (take_drop_middle _ _ _ Hb) in Hnd. apply NoDup_app in Hnd as (_ & _ & Hnd).
    by apply NoDup_cons in Hnd as [? _].
Qed.

Lemma v_installed_size rec bs j W v :
  NoDup bs → (j ≤ length bs)%nat →
  (base.size (v_used (v_installed rec bs j W v)) = if rec then j else length bs - j)%nat.
Proof.
  intros Hnd Hj. unfold v_used, v_installed. simpl. destruct rec.
  - rewrite !union_empty_l_L, size_list_to_set, length_take; [lia |].
    rewrite <- (take_drop j) in Hnd. by apply NoDup_app in Hnd as (? & _).
  - rewrite union_empty_l_L, union_empty_r_L, size_list_to_set, length_drop; [lia |].
    rewrite <- (take_drop j) in Hnd. by apply NoDup_app in Hnd as (_ & _ & ?).
Qed.

Lemma install_trans_spec start size rec s v bs ds :
  lwf start size (l_log s) bs → crep (l_bio s) v →
  v_held v = ∅ → v_leak v = ∅ → v_pin v = (if rec : bool then ∅ else list_to_set bs) →
  length ds = length bs →
  (∀ (k : nat) d, ds !! k = Some d → v_now v !! (start + 1 + Z.of_nat k) = Some d) →
  (∀ x, start <= x < start + size → x ∈ dom (v_disk v)) →
  (∀ b, b ∈ bs → b ∈ dom (v_disk v)) →
  wp install_trans (λ _ s',
    crep (l_bio s') (v_installed rec bs (length bs) (home_writes bs ds) v) ∧
    lframe (home_writes bs ds) s s') s.
Proof.
  intros Hlw H Hheld Hleak Hpin Hlen Hds Hlogdom Hbsdom. set (W := home_writes bs ds).
  assert (HW : length W = length bs) by (unfold W, home_writes; rewrite length_zip; lia).
  pose proof (lw_nodup _ _ _ _ Hlw) as Hnd. pose proof (lw_room _ _ _ _ Hlw) as Hroom.
  pose proof (lw_home _ _ _ _ Hlw) as Hhome. rewrite Forall_lookup in Hhome.
  unfold install_trans. wp_steps. rewrite (lw_n _ _ _ _ Hlw), Nat2Z.id.
  eapply wp_mono; [apply (wp_mfor (λ j s', crep (l_bio s') (v_installed rec bs j W v) ∧
      lframe (take j W) s s')) |].
  - rewrite take_0. split; [| apply lframe_refl].
    replace (v_installed rec bs 0 W v) with v; [done |].
    destruct v. unfold v_installed. simpl in *. subst. by destruct rec.
  - intros j s1 Hj [H1 F1]. rewrite Z.add_0_l.
    assert (Hl1 : l_log s1 = l_log s) by apply F1.
    destruct (lookup_lt_is_Some_2 bs j Hj) as [b Hb].
    destruct (lookup_lt_is_Some_2 ds j) as [d Hd]; [lia |].
    destruct (lwf_log_block _ _ _ _ j Hlw Hj) as [HL HLr].
    assert (HWj : W !! j = Some (b, d)).
    { unfold W, home_writes. by apply lookup_zip_with_Some; eauto. }
    pose proof (v_installed_size rec bs j W v Hnd ltac:(lia)) as Hsz.
    assert (Hnotlog : ∀ x, x ∈ bs → x ≠ start + 1 + Z.of_nat j).
    { intros x (k & Hk)%list_elem_of_lookup ->. apply (Hhome _ _ Hk). lia. }
    assert (Hbin : b ∈ bs) by (by eapply list_elem_of_lookup_2).
    assert (HbL : start + 1 + Z.of_nat j ≠ b) by (intros E; by eapply (Hnotlog b)).
    assert (Hbtake : b ∉ take j bs).
    { rewrite <- (take_drop_middle _ _ _ Hb) in Hnd. apply NoDup_app in Hnd as (_ & Hnd & _).
      intros E. apply (Hnd _ E). set_solver. }
    eapply wp_mono; [apply (install_trans_step_spec s1 (v_installed rec bs j W v) j
                              (start + 1 + Z.of_nat j) b d) |].
    + done.
    + done.
    + rewrite Hsz. params. destruct rec; lia.
    + rewrite Hsz. simpl. destruct rec.
      * right. params. lia.
      * left. rewrite (drop_S _ _ _ Hb). set_solver.
    + by rewrite Hl1, (lw_dev _ _ _ _ Hlw).
    + by rewrite Hl1.
    + rewrite Hl1. by eapply lwf_block.
    + apply app_writes_dom. apply Hlogdom. lia.
    + apply app_writes_dom. by apply Hbsdom.
    + simpl. destruct rec; [set_solver |]. rewrite elem_of_list_to_set. intros E.
      apply (Hnotlog (start + 1 + Z.of_nat j)); [| done]. apply list_elem_of_lookup in E as [k Hk].
      rewrite lookup_drop in Hk. by eapply list_elem_of_lookup_2.
    + simpl. destruct rec; [| set_solver]. rewrite elem_of_list_to_set. intros E.
      apply (Hnotlog (start + 1 + Z.of_nat j)); [| done]. apply list_elem_of_lookup in E as [k Hk].
      apply lookup_take_Some in Hk as [Hk _]. by eapply list_elem_of_lookup_2.
    + simpl. destruct rec; [by rewrite elem_of_list_to_set | set_solver].
    + done.
    + simpl. rewrite app_writes_notin; [by apply Hds |].
      intros (w & Hw1 & Hw2)%list_elem_of_fmap. apply list_elem_of_lookup in Hw2 as [k Hk].
      apply lookup_take_Some in Hk as [Hk _]. unfold W, home_writes in Hk.
      apply lookup_zip_with_Some in Hk as (x & y & -> & Hx & _). simpl in Hw1.
      apply (Hnotlog x); [by eapply list_elem_of_lookup_2 | done].
    + intros _ s2 [H2 F2]. rewrite (v_installed_step _ _ _ _ _ _ _ Hnd Hb HWj) in H2.
      rewrite (take_snoc _ _ _ HWj). split; [exact H2 | by eapply lframe_trans].
  - intros _ s' [H1 F1]. split; [done |]. by rewrite <- HW, firstn_all in F1.
Qed.

(** Everything [commit] writes, in order, when the header block is [h]. *)
Definition commit_writes (start : Z) (lg : log) (h : block) (bs : list Z) (ds : list block)
    : list (Z * block) :=
  let h1 := hdr_store (lh_n lg) (lh_block lg) h in
  log_writes start ds ++ [(start, h1)] ++ home_writes bs ds ++
  [(start, hdr_store 0 (lh_block lg) h1)].

Definition v_done (W : list (Z * block)) (leak : gset Z) (v : cview) : cview :=
  CView (app_writes W (v_now v)) (app_writes W (v_disk v)) ∅ ∅ leak.

Lemma home_writes_key bs ds x : x ∈ (home_writes bs ds).*1 → x ∈ bs.
Proof.
  unfold home_writes. intros (w & -> & Hw)%list_elem_of_fmap.
  apply list_elem_of_lookup in Hw as [k Hk]. apply lookup_zip_with_Some in Hk as (a & b & -> & Ha & _).
  by eapply list_elem_of_lookup_2.
Qed.

Lemma home_writes_nodup bs ds : NoDup bs → NoDup (home_writes bs ds).*1.
Proof.
  revert ds. induction bs as [|b bs IH]; intros ds Hn; [constructor |].
  destruct ds as [|d ds]; [constructor |]. cbn. apply NoDup_cons in Hn as [H1 H2].
  apply NoDup_cons. split; [| by apply IH].
  intros E. apply H1. by eapply home_writes_key.
Qed.

Lemma commit_spec start size s v bs ds h :
  lwf start size (l_log s) bs → crep (l_bio s) v → bs ≠ [] →
  v_held v = ∅ → v_leak v = ∅ → v_pin v = list_to_set bs →
  Forall2 (λ b d, v_now v !! b = Some d) bs ds →
  (∀ x, start <= x < start + size → x ∈ dom (v_disk v)) →
  v_now v !! start = Some h →
  let W := commit_writes start (l_log s) h bs ds in
  wp commit (λ _ s', crep (l_bio s') (v_done W ∅ v) ∧ l_log s' = set_n 0 (l_log s) ∧
    writes (l_bio s') = writes (l_bio s) ++ W ∧ curpid (l_bio s') = curpid (l_bio s)) s.
Proof.
  intros Hlw H Hne Hheld Hleak Hpin Hds Hlogdom Hst W.
  pose proof (Forall2_length _ _ _ Hds) as Hlen. pose proof (lw_room _ _ _ _ Hlw) as Hroom.
  pose proof (lw_geom _ _ _ _ Hlw) as Hgeom. pose proof (lw_nodup _ _ _ _ Hlw) as Hnd.
  assert (Hn0 : (0 < length bs)%nat) by (destruct bs; [done | simpl; lia]).
  assert (Hhome : ∀ x, x ∈ bs → ¬ (start <= x < start + size)).
  { pose proof (lw_home _ _ _ _ Hlw) as Hh. rewrite Forall_forall in Hh. intros x Hx. by apply Hh. }
  assert (Hstu : u32 (lg_start (l_log s)) = start).
  { rewrite (lw_start _ _ _ _ Hlw). apply u32_small. lia. }
  assert (Hlw1 : start ∉ (log_writes start ds).*1) by (intros E%log_writes_key; lia).
  assert (Hhw : start ∉ (home_writes bs ds).*1).
  { intros E%home_writes_key. apply (Hhome _ E). lia. }
  unfold commit. wp_steps. rewrite (lw_n _ _ _ _ Hlw), decide_True by lia. wp_steps.
  eapply wp_mono; [by eapply write_log_spec |]. intros _ s1 [H1 F1]. wp_steps.
  pose proof (lframe_log _ _ _ F1) as E1.
  eapply wp_mono; [apply (write_head_spec s1 _ start h H1) |]; rewrite ?E1; try done.
  { simpl. rewrite Hpin, elem_of_list_to_set. intros E. apply (Hhome _ E). lia. }
  { simpl. rewrite Hleak. set_solver. }
  { unfold v_used. simpl. rewrite Hheld, Hleak, Hpin, union_empty_l_L, union_empty_r_L.
    rewrite size_list_to_set by done. params. lia. }
  { by rewrite (lw_dev _ _ _ _ Hlw). }
  { rewrite (lw_n _ _ _ _ Hlw). params. lia. }
  { apply app_writes_dom, Hlogdom. lia. }
  { simpl. by rewrite app_writes_notin. }
  set (h1 := hdr_store (lh_n (l_log s)) (lh_block (l_log s)) h).
  intros _ s2 [H2 F2]. pose proof (lframe_log _ _ _ F2) as E2. rewrite E1 in E2. wp_steps.
  eapply wp_mono; [apply (install_trans_spec start size false s2
    (v_put start h1 (v_puts (log_writes start ds) v)) bs ds) |]; try done.
  { by rewrite E2. }
  { intros k d Hk. simpl. rewrite lookup_insert_ne by lia. apply app_writes_in.
    - apply log_writes_nodup.
    - apply list_elem_of_lookup. exists k. unfold log_writes. by rewrite list_lookup_imap, Hk. }
  { intros x Hx. simpl. rewrite dom_insert_L. apply elem_of_union_r, app_writes_dom. by apply Hlogdom. }
  { intros b Hb. simpl. rewrite dom_insert_L. apply elem_of_union_r, app_writes_dom.
    apply (cr_used _ _ H). unfold v_used. rewrite Hpin. set_solver. }
  intros _ s3 [H3 F3]. pose proof (lframe_log _ _ _ F3) as E3. rewrite E2 in E3. unfold put_log. wp_steps.
  eapply wp_mono; [apply (write_head_spec
    (Lst (l_bio s3) (set_n 0 (l_log s3))) _ start h1 H3) |]; simpl; rewrite ?E3; try done.
  { rewrite drop_all. set_solver. }
  { rewrite (v_installed_size false) by done. params. lia. }
  { by rewrite (lw_dev _ _ _ _ Hlw). }
  { apply app_writes_dom. rewrite dom_insert_L. set_solver. }
  { rewrite app_writes_notin by (intros E; apply Hhw;
      rewrite firstn_all2 in E by (unfold home_writes; rewrite length_zip; lia); done).
    by rewrite lookup_insert_eq. }
  intros _ s4 [H4 F4]. pose proof (lframe_log _ _ _ F4) as E4. simpl in E4.
  assert (HWl : take (length bs) (home_writes bs ds) = home_writes bs ds).
  { apply firstn_all2. unfold home_writes. rewrite length_zip. lia. }
  split_and!; [| done | |].
  - replace (v_done W ∅ v) with
      (v_put start (hdr_store 0 (lh_block (l_log s)) h1)
        (v_installed false bs (length bs) (home_writes bs ds) (v_put start h1 (v_puts (log_writes start ds) v))));
      [exact H4 |].
    unfold v_done, W, commit_writes, v_installed, v_put, v_puts. cbn [v_now v_disk v_held v_pin v_leak]. fold h1.
    rewrite HWl, drop_all, !app_writes_app. done.
  - destruct F1 as (_ & F1 & _).
    destruct F2 as (_ & F2 & _), F3 as (_ & F3 & _), F4 as (_ & F4 & _). simpl in *.
    rewrite F4, F3, F2, F1. unfold W, commit_writes. fold h1. by rewrite <- !app_assoc.
  - destruct F1 as (_ & _ & F1), F2 as (_ & _ & F2), F3 as (_ & _ & F3), F4 as (_ & _ & F4).
    simpl in *. congruence.
Qed.
