(* ===== verification/Recovery.v ===== *)
(** * Crash safety of the log ([recover_from_log], [initlog], [commit] of
      [kernel/log.c])

    A crash leaves the disk after some prefix of the writes issued so far;
    the next boot runs [initlog].  This file gives the recovery code its
    specification and shows that a commit is atomic with respect to crashes
    at every point of its write sequence, and that recovery may itself be
    interrupted and repeated. *)
From S2P Require Import Prelude Params Locks Bio Cache Log.

(** ** What a log header on the disk says *)
Definition hdr_blocks (h : block) : list Z := hdr_block h <$> seq 0 (Z.to_nat (hdr_n h)).

Lemma hdr_blocks_lookup h (k : nat) :
  Z.of_nat k < hdr_n h → hdr_blocks h !! k = Some (hdr_block h k).
Proof. intros Hk. unfold hdr_blocks. by rewrite list_lookup_fmap, lookup_seq_lt by lia. Qed.

Lemma hdr_blocks_length h : length (hdr_blocks h) = Z.to_nat (hdr_n h).
Proof. unfold hdr_blocks. by rewrite length_fmap, length_seq. Qed.

(** A disk with a log area [[start, start+size)] whose header [h] names
    distinct home blocks outside the log. *)
Record log_disk (start size : Z) (h : block) (D : gmap Z block) : Prop := {
  ld_hdr : D !! start = Some h;
  ld_len : map_Forall (λ _ (x : block), length x = bsize) D;
  ld_geom : 0 < start ∧ start + size <= 2 ^ 31;
  ld_n : 0 <= hdr_n h < LOGSIZE ∧ hdr_n h <= size - 1;
  ld_nodup : NoDup (hdr_blocks h);
  ld_home : Forall (λ b, 0 <= b < 2 ^ 31 ∧ ¬ (start <= b < start + size)) (hdr_blocks h);
  ld_log : ∀ x, start <= x < start + size → x ∈ dom D;
  ld_dom : ∀ b, b ∈ hdr_blocks h → b ∈ dom D;
}.

(** The logged contents, block by block. *)
Definition log_data_of (start : Z) (h : block) (D : gmap Z block) : list block :=
  (λ k : nat, default zero_block (D !! (start + 1 + Z.of_nat k))) <$> seq 0 (Z.to_nat (hdr_n h)).

Lemma log_data_length start h D : length (log_data_of start h D) = length (hdr_blocks h).
Proof. unfold log_data_of. by rewrite length_fmap, length_seq, hdr_blocks_length. Qed.

Lemma log_data_lookup start size h D (k : nat) d :
  log_disk start size h D → log_data_of start h D !! k = Some d →
  D !! (start + 1 + Z.of_nat k) = Some d.
Proof.
  intros H Hk. unfold log_data_of in Hk.
  apply list_lookup_fmap_Some in Hk as (j & -> & Hj). apply lookup_seq in Hj as [-> Hj]. simpl.
  pose proof (ld_n _ _ _ _ H).
  assert (is_Some (D !! (start + 1 + Z.of_nat k))) as [x ->]; [| done].
  apply elem_of_dom, (ld_log _ _ _ _ H). lia.
Qed.

(** The disk contents the file system sees after recovery. *)
Definition installs (start : Z) (h : block) (D : gmap Z block) : list (Z * block) :=
  home_writes (hdr_blocks h) (log_data_of start h D).
Definition recovered (start : Z) (D : gmap Z block) : gmap Z block :=
  match D !! start with
  | Some h => app_writes (installs start h D) D
  | None => D
  end.

(** ** [read_head] *)
Lemma v_used_empty D D' : v_used (CView D D' ∅ ∅ ∅) = ∅.
Proof. unfold v_used. set_solver. Qed.

Record log_fresh (start size : Z) (lg : log) : Prop := {
  lf_dev : lg_dev lg = ROOTDEV;
  lf_start : lg_start lg = start;
  lf_size : lg_size lg = size;
  lf_cap : length (lh_block lg) = logsize;
}.

Lemma fill_blocks_spec (f : nat → Z) (n : nat) s :
  (n ≤ logsize)%nat → length (lh_block (l_log s)) = logsize →
  wp (mfor n 0 (λ i, store_block i (f (Z.to_nat i)))) (λ _ s',
    l_bio s' = l_bio s ∧
    l_log s' = Log (lg_start (l_log s)) (lg_size (l_log s)) (lg_outstanding (l_log s))
      (lg_committing (l_log s)) (lg_dev (l_log s)) (lh_n (l_log s))
      ((f <$> seq 0 n) ++ drop n (lh_block (l_log s)))) s.
Proof.
  intros Hn Hc. apply (wp_mfor (λ j s', l_bio s' = l_bio s ∧
    l_log s' = Log (lg_start (l_log s)) (lg_size (l_log s)) (lg_outstanding (l_log s))
      (lg_committing (l_log s)) (lg_dev (l_log s)) (lh_n (l_log s))
      ((f <$> seq 0 j) ++ drop j (lh_block (l_log s))))).
  { split; [done |]. simpl. by destruct (l_log s). }
  intros j s' Hj [E1 E2]. rewrite Z.add_0_l, Nat2Z.id. unfold store_block.
  rewrite decide_True by (params; lia). unfold put_log. wp_steps. simpl. split; [done |].
  rewrite E2, Nat2Z.id. unfold set_block. simpl. f_equal.
  replace (j + 1)%nat with (S j) by lia. rewrite seq_S, fmap_app, <- app_assoc. simpl.
  assert (is_Some (lh_block (l_log s) !! j)) as [x Hx] by (apply lookup_lt_is_Some_2; lia).
  rewrite (drop_S _ _ _ Hx). rewrite insert_app_r_alt by (rewrite length_fmap, length_seq; lia).
  by rewrite length_fmap, length_seq, Nat.sub_diag.
Qed.

Lemma read_head_spec start size h D s :
  log_disk start size h D → log_fresh start size (l_log s) →
  crep (l_bio s) (CView D D ∅ ∅ ∅) →
  wp read_head (λ _ s', crep (l_bio s') (CView D D ∅ ∅ ∅) ∧
    lwf start size (l_log s') (hdr_blocks h) ∧ lg_outstanding (l_log s') = lg_outstanding (l_log s) ∧
    lg_committing (l_log s') = lg_committing (l_log s) ∧
    writes (l_bio s') = writes (l_bio s) ∧ curpid (l_bio s') = curpid (l_bio s)) s.
Proof.
  intros HD HL H. pose proof (ld_n _ _ _ _ HD) as Hn. pose proof (ld_geom _ _ _ _ HD) as Hg.
  unfold read_head. wp_steps. rewrite (lf_dev _ _ _ HL), (lf_start _ _ _ HL), u32_small by lia.
  eapply wp_mono; [apply (log_bread _ _ H start); cbn [v_held v_leak v_disk]; [apply (ld_log _ _ _ _ HD); lia | set_solver.. |] |].
  { right. rewrite v_used_empty, size_empty. params. lia. }
  intros i s1 (H1 & Hi & F1 & _). wp_steps.
  destruct (log_data _ _ H1 _ _ Hi) as [Hdi Hli]. simpl in Hdi.
  rewrite (ld_hdr _ _ _ _ HD) in Hdi. injection Hdi as Hdi. rewrite <- Hdi in *.
  unfold put_log. wp_steps. destruct F1 as (E1 & E2 & E3). rewrite app_nil_r in E2.
  eapply wp_mono; [apply (fill_blocks_spec (hdr_block h)); simpl |].
  { params. lia. }
  { by rewrite E1, (lf_cap _ _ _ HL). }
  intros _ s2 [F2 F3]. simpl in F2, F3. rewrite E1 in F3.
  eapply wp_mono; [apply (log_brelse s2 (v_hold start (CView D D ∅ ∅ ∅)) ltac:(by rewrite F2) i start) |].
  { unfold lheld. by rewrite F2. }
  { simpl. by right; right. }
  intros _ s3 (H3 & (G1 & G2 & G3) & _). rewrite app_nil_r in G2.
  split_and!.
  - replace (CView D D ∅ ∅ ∅) with (v_drop start (v_hold start (CView D D ∅ ∅ ∅))); [done |].
    apply cview_eq; simpl; try done. set_solver.
  - rewrite G1, F3. destruct HL. split; simpl; try done.
    + rewrite hdr_blocks_length. lia.
    + rewrite hdr_blocks_length, take_app_length' by (rewrite length_fmap, length_seq; lia). done.
    + rewrite length_app, length_fmap, length_seq, length_drop. params. lia.
    + rewrite hdr_blocks_length. params. lia.
    + apply (ld_nodup _ _ _ _ HD).
    + apply (ld_home _ _ _ _ HD).
  - by rewrite G1, F3.
  - by rewrite G1, F3.
  - by rewrite G2, F2, E2.
  - by rewrite G3, F2, E3.
Qed.

(** ** [recover_from_log]: what it writes, in order *)
Definition recover_writes (start : Z) (h : block) (bl : list Z) (D : gmap Z block) : list (Z * block) :=
  installs start h D ++ [(start, hdr_store 0 bl h)].

Lemma hdr_store_0 bl bl' h : hdr_store 0 bl h = hdr_store 0 bl' h.
Proof. done. Qed.

Definition log_idle (start size : Z) (lg : log) (o : Z) (c : bool) : Prop :=
  lwf start size lg [] ∧ lg_outstanding lg = o ∧ lg_committing lg = c.

Lemma lwf_clear start size lg bs : lwf start size lg bs → lwf start size (set_n 0 lg) [].
Proof.
  intros H. pose proof (lw_room _ _ _ _ H). destruct H. split; simpl; try done; [params; lia | constructor].
Qed.

Lemma recover_from_log_spec start size h D s :
  log_disk start size h D → log_fresh start size (l_log s) →
  crep (l_bio s) (CView D D ∅ ∅ ∅) →
  let W := recover_writes start h [] D in
  wp recover_from_log (λ _ s',
    crep (l_bio s') (v_done W (list_to_set (hdr_blocks h)) (CView D D ∅ ∅ ∅)) ∧
    log_idle start size (l_log s') (lg_outstanding (l_log s)) (lg_committing (l_log s)) ∧
    writes (l_bio s') = writes (l_bio s) ++ W ∧ curpid (l_bio s') = curpid (l_bio s)) s.
Proof.
  intros HD HL H W. pose proof (ld_n _ _ _ _ HD) as Hn. pose proof (ld_geom _ _ _ _ HD) as Hg.
  pose proof (log_data_length start h D) as Hlen. pose proof (hdr_blocks_length h) as Hbl.
  pose proof (ld_nodup _ _ _ _ HD) as Hnd.
  assert (Hst : start ∉ hdr_blocks h).
  { intros E. pose proof (ld_home _ _ _ _ HD) as Hh. rewrite Forall_forall in Hh.
    apply (Hh _ E). lia. }
  unfold recover_from_log. wp_steps.
  eapply wp_mono; [by eapply read_head_spec |]. intros _ s1 (H1 & Hw & Eo & Ec & Ew & Ep). wp_steps.
  eapply wp_mono; [apply (install_trans_spec start size true s1 _ (hdr_blocks h)
    (log_data_of start h D) Hw H1) |]; try done.
  { intros k d Hk. by eapply log_data_lookup. }
  { apply (ld_log _ _ _ _ HD). }
  { apply (ld_dom _ _ _ _ HD). }
  fold (installs start h D). intros _ s2 [H2 F2]. unfold put_log. wp_steps.
  pose proof (lframe_log _ _ _ F2) as E2.
  assert (HWl : take (length (hdr_blocks h)) (installs start h D) = installs start h D).
  { apply firstn_all2. unfold installs, home_writes. rewrite length_zip. lia. }
  eapply wp_mono; [apply (write_head_spec (Lst (l_bio s2) (set_n 0 (l_log s2))) _ start h H2) |];
    simpl; rewrite ?E2, ?HWl; try done.
  { rewrite firstn_all2 by done. by rewrite elem_of_list_to_set. }
  { rewrite (v_installed_size true) by done. params. lia. }
  { by rewrite (lw_dev _ _ _ _ Hw). }
  { rewrite (lw_start _ _ _ _ Hw). apply u32_small. lia. }
  { apply app_writes_dom, (ld_log _ _ _ _ HD). lia. }
  { rewrite app_writes_notin; [by apply HD |]. intros E%home_writes_key. done. }
  intros _ s3 [H3 F3]. pose proof (lframe_log _ _ _ F3) as E3. simpl in E3. split_and!.
  - replace (v_done _ _ _) with (v_put start (hdr_store 0 (lh_block (l_log s1)) h)
      (v_installed true (hdr_blocks h) (length (hdr_blocks h)) (installs start h D) (CView D D ∅ ∅ ∅)));
      [exact H3 |].
    unfold v_done, W, recover_writes, v_installed, v_put.
    cbn [v_now v_disk v_held v_pin v_leak]. rewrite HWl, !app_writes_app, firstn_all. done.
  - rewrite E3. split_and!; [by eapply lwf_clear | done | done].
  - destruct F2 as (_ & F2 & _), F3 as (_ & F3 & _). simpl in F3. rewrite F3, F2, Ew.
    unfold W, recover_writes. by rewrite app_assoc.
  - destruct F2 as (_ & _ & F2), F3 as (_ & _ & F3). simpl in F3. congruence.
Qed.

(** ** Disks that agree outside the log area *)
Definition same_off (start size : Z) (D1 D2 : gmap Z block) : Prop :=
  ∀ x, ¬ (start <= x < start + size) → D1 !! x = D2 !! x.

#[export] Instance same_off_equiv start size : Equivalence (same_off start size).
Proof.
  split.
  - by intros D x _.
  - intros D1 D2 H x Hx. by rewrite H.
  - intros D1 D2 D3 H1 H2 x Hx. by rewrite H1, H2.
Qed.

#[export] Instance app_writes_same_off start size W :
  Proper (same_off start size ==> same_off start size) (app_writes W).
Proof.
  induction W as [|w W IH]; intros D1 D2 H; [done |]. simpl. apply IH. intros x Hx.
  destruct (decide (x = w.1)) as [->|Hne]; [by rewrite !lookup_insert_eq |].
  rewrite !lookup_insert_ne by done. by apply H.
Qed.

Definition in_log (start size : Z) (W : list (Z * block)) : Prop :=
  Forall (λ w, start <= w.1 < start + size) W.

Lemma app_writes_in_log start size W D :
  in_log start size W → same_off start size (app_writes W D) D.
Proof.
  intros HW x Hx. apply app_writes_notin. intros (w & -> & Hw)%list_elem_of_fmap.
  unfold in_log in HW. rewrite Forall_forall in HW. by apply HW in Hw.
Qed.

Lemma app_writes_lengths W D :
  map_Forall (λ _ (x : block), length x = bsize) D → Forall (λ w, length w.2 = bsize) W →
  map_Forall (λ _ (x : block), length x = bsize) (app_writes W D).
Proof.
  revert D. induction W as [|w W IH]; intros D HD HW; [done |].
  apply Forall_cons in HW as [H1 H2]. simpl. apply IH; [| done]. by apply map_Forall_insert_2.
Qed.

(** Writing a prefix first does not change the result of writing the lot. *)
Lemma app_writes_overwrite W D1 D2 x :
  x ∈ W.*1 → app_writes W D1 !! x = app_writes W D2 !! x.
Proof.
  induction W as [|w W IH] using rev_ind; intros Hx; [by apply not_elem_of_nil in Hx |].
  rewrite !app_writes_app. simpl. destruct (decide (x = w.1)) as [->|Hne].
  { by rewrite !lookup_insert_eq. }
  rewrite !lookup_insert_ne by done. apply IH. rewrite fmap_app in Hx. simpl in Hx. set_solver.
Qed.

Lemma app_writes_prefix W (k : nat) D : app_writes W (app_writes (take k W) D) = app_writes W D.
Proof.
  apply map_eq. intros x. destruct (decide (x ∈ W.*1)) as [Hx|Hx].
  - by apply app_writes_overwrite.
  - rewrite !app_writes_notin; [done | done | | done].
    intros E. apply Hx. apply list_elem_of_fmap in E as (w & -> & Hw).
    apply list_elem_of_fmap. exists w. split; [done |].
    rewrite <- (take_drop k W). set_solver.
Qed.

Lemma log_disk_ext start size h D D' :
  log_disk start size h D → D' !! start = Some h →
  map_Forall (λ _ (x : block), length x = bsize) D' → dom D ⊆ dom D' → log_disk start size h D'.
Proof. intros [] H1 H2 H3. split; auto. Qed.

Lemma recovered_eq start size h D :
  log_disk start size h D → recovered start D = app_writes (installs start h D) D.
Proof. intros H. unfold recovered. by rewrite (ld_hdr _ _ _ _ H). Qed.

Lemma recovered_empty start size h D :
  log_disk start size h D → hdr_n h = 0 → recovered start D = D.
Proof.
  intros H Hn. rewrite (recovered_eq _ _ _ _ H).
  unfold installs, hdr_blocks. by rewrite Hn.
Qed.

Lemma log_data_ext start size h D D' :
  log_disk start size h D →
  (∀ x, start < x < start + size → D' !! x = D !! x) →
  log_data_of start h D' = log_data_of start h D.
Proof.
  intros H HE. unfold log_data_of. apply list_fmap_ext. intros i j Hj.
  apply lookup_seq in Hj as [-> Hj]. pose proof (ld_n _ _ _ _ H). rewrite HE by lia. done.
Qed.

Lemma log_data_lengths start size h D :
  log_disk start size h D → Forall (λ d : block, length d = bsize) (log_data_of start h D).
Proof.
  intros H. apply Forall_lookup. intros k d Hk.
  eapply log_data_lookup in Hk; [| done]. by apply (ld_len _ _ _ _ H) in Hk.
Qed.

Lemma home_writes_lengths bs ds :
  Forall (λ d : block, length d = bsize) ds → Forall (λ w, length w.2 = bsize) (home_writes bs ds).
Proof.
  intros H. apply Forall_lookup. intros k w Hk.
  apply lookup_zip_with_Some in Hk as (x & y & -> & _ & Hy). rewrite Forall_lookup in H. eauto.
Qed.

Lemma installs_off start size h D x :
  log_disk start size h D → x ∈ (installs start h D).*1 → ¬ (start <= x < start + size).
Proof.
  intros H Hx%home_writes_key. pose proof (ld_home _ _ _ _ H) as Hh.
  rewrite Forall_forall in Hh. by apply Hh.
Qed.

Lemma take_key {A B} (W : list (A * B)) (k : nat) x : x ∈ (take k W).*1 → x ∈ W.*1.
Proof.
  intros (w & -> & Hw)%list_elem_of_fmap. apply list_elem_of_fmap. exists w. split; [done |].
  rewrite <- (take_drop k W). set_solver.
Qed.

Lemma hdr_store_0_spec bl h : length h = bsize →
  length (hdr_store 0 bl h) = bsize ∧ hdr_n (hdr_store 0 bl h) = 0 ∧ hdr_blocks (hdr_store 0 bl h) = [].
Proof.
  intros Hl. destruct (hdr_store_spec 0 bl h Hl) as (H1 & H2 & _); [params; lia |].
  split_and!; [done | done |]. unfold hdr_blocks. by rewrite H2.
Qed.

(** A disk whose log is cleared is a good log disk again. *)
Lemma log_disk_cleared start size h D bl :
  log_disk start size h D → log_disk start size (hdr_store 0 bl h) (<[start := hdr_store 0 bl h]> D).
Proof.
  intros H. destruct (hdr_store_0_spec bl h) as (Hl & Hn & Hb); [by apply (ld_len _ _ _ _ H start), H |].
  pose proof (ld_n _ _ _ _ H). destruct H. split.
  - by rewrite lookup_insert_eq.
  - by apply map_Forall_insert_2.
  - done.
  - rewrite Hn. params. lia.
  - rewrite Hb. constructor.
  - rewrite Hb. constructor.
  - intros x Hx. rewrite dom_insert_L. apply elem_of_union_r. auto.
  - rewrite Hb. intros b Hb'. by apply not_elem_of_nil in Hb'.
Qed.

(** ** Recovery can be interrupted *)
Section RecoveryCrash.
Context (start size : Z) (h : block) (D : gmap Z block) (HD : log_disk start size h D).

Lemma recover_installing (k : nat) :
  let D' := app_writes (take k (installs start h D)) D in
  log_disk start size h D' ∧ recovered start D' = recovered start D.
Proof.
  intros D'.
  assert (HD' : log_disk start size h D').
  { apply (log_disk_ext _ _ _ D); [done | | | apply app_writes_dom].
    - unfold D'. rewrite app_writes_notin; [apply HD |]. intros E%take_key.
      apply (installs_off _ _ _ _ _ HD E). pose proof (ld_n _ _ _ _ HD). lia.
    - apply app_writes_lengths; [apply HD |]. apply Forall_take, home_writes_lengths.
      by eapply log_data_lengths. }
  split; [done |]. rewrite (recovered_eq _ _ _ _ HD'), (recovered_eq _ _ _ _ HD).
  assert (installs start h D' = installs start h D) as ->.
  { unfold installs. f_equal. apply (log_data_ext _ size); [done |]. intros x Hx.
    unfold D'. apply app_writes_notin. intros E%take_key. apply (installs_off _ _ _ _ _ HD E). lia. }
  apply app_writes_prefix.
Qed.

(** Every disk a crash of [recover_from_log] can leave. *)
Lemma recover_crash (k : nat) :
  let D' := app_writes (take k (recover_writes start h [] D)) D in
  (∃ h', log_disk start size h' D') ∧ same_off start size (recovered start D') (recovered start D).
Proof.
  unfold recover_writes. cbv zeta.
  destruct (decide (k ≤ length (installs start h D))%nat) as [Hk|Hk].
  - rewrite take_app_le by done. destruct (recover_installing k) as [H1 H2].
    split; [by exists h | by rewrite H2].
  - rewrite firstn_all2 by (rewrite length_app; simpl; lia). rewrite app_writes_app. simpl.
    destruct (recover_installing (length (installs start h D))) as [H1 H2].
    rewrite firstn_all in H1, H2.
    pose proof (log_disk_cleared _ _ _ _ [] H1) as H3.
    destruct (hdr_store_0_spec [] h) as (_ & Hn & _); [by apply (ld_len _ _ _ _ HD start), HD |].
    split; [by eexists |]. rewrite (recovered_empty _ _ _ _ H3 Hn), (recovered_eq _ _ _ _ HD).
    intros x Hx. rewrite lookup_insert_ne; [done |]. pose proof (ld_n _ _ _ _ HD). lia.
Qed.
End RecoveryCrash.

(** ** Booting: [initlog] on a freshly initialised kernel *)
Definition log0 : log := Log 0 0 0 false 0 0 (replicate logsize 0).
Definition boot_lst (D : gmap Z block) (pid : Z) : lst := Lst (boot D pid) log0.

Lemma initlog_spec start size h D pid :
  log_disk start size h D →
  let W := recover_writes start h [] D in
  wp (initlog ROOTDEV start size) (λ _ s',
    crep (l_bio s') (v_done W (list_to_set (hdr_blocks h)) (CView D D ∅ ∅ ∅)) ∧
    log_idle start size (l_log s') 0 false ∧ writes (l_bio s') = W) (boot_lst D pid).
Proof.
  intros HD W. pose proof (ld_geom _ _ _ _ HD) as Hg. pose proof (ld_n _ _ _ _ HD) as Hn.
  unfold initlog. rewrite decide_False by (params; lia). unfold put_log. wp_steps.
  eapply wp_mono; [apply (recover_from_log_spec start size h D); [done | | ] |].
  - split; cbn [l_log boot_lst log0 lg_dev lg_start lg_size lh_block].
    + reflexivity.
    + rewrite s32_small; lia.
    + rewrite s32_small; lia.
    + apply length_replicate.
  - cbn [l_bio boot_lst]. apply boot_crep, HD.
  - intros _ s' (H1 & H2 & H3 & _). split_and!; [exact H1 | exact H2 | exact H3].
Qed.

(** What the file system reads after the boot. *)
Lemma initlog_recovered start size h D pid :
  log_disk start size h D →
  wp (initlog ROOTDEV start size) (λ _ s',
    same_off start size (disk (l_bio s')) (recovered start D) ∧
    ∃ h', log_disk start size h' (disk (l_bio s')) ∧ hdr_n h' = 0) (boot_lst D pid).
Proof.
  intros HD. eapply wp_mono; [by apply initlog_spec |]. intros _ s' (H1 & _ & _).
  rewrite (cr_disk _ _ H1). cbn [v_disk v_done].
  destruct (recover_crash _ _ _ _ HD (length (recover_writes start h [] D))) as [_ Hr].
  rewrite firstn_all in Hr.
  unfold recover_writes in *. rewrite app_writes_app in *. simpl in *.
  destruct (recover_installing _ _ _ _ HD (length (installs start h D))) as [H2 _].
  rewrite firstn_all in H2. pose proof (log_disk_cleared _ _ _ _ [] H2) as H3.
  destruct (hdr_store_0_spec [] h) as (_ & Hn & _); [by apply (ld_len _ _ _ _ HD start), HD |].
  rewrite (recovered_empty _ _ _ _ H3 Hn) in Hr.
  split; [done |]. by exists (hdr_store 0 [] h).
Qed.

(** ** A commit is atomic

    [v] is the state [commit] starts from: [bs] are pinned, their new
    contents are [ds], and the log on the disk is empty. *)
Section CommitCrash.
Context (start size : Z) (h : block) (lg : log) (bs : list Z) (ds : list block) (D : gmap Z block).
Context (HD : log_disk start size h D) (Hempty : hdr_n h = 0) (Hlw : lwf start size lg bs).
Context (Hlen : length ds = length bs) (Hds : Forall (λ d : block, length d = bsize) ds).
Context (Hdom : ∀ b, b ∈ bs → b ∈ dom D).

Let h1 := hdr_store (lh_n lg) (lh_block lg) h.

Lemma hdr_len : length h = bsize.
Proof. by apply (ld_len _ _ _ _ HD start), HD. Qed.

Lemma h1_spec : length h1 = bsize ∧ hdr_n h1 = Z.of_nat (length bs) ∧ hdr_blocks h1 = bs.
Proof.
  pose proof (lw_n _ _ _ _ Hlw) as Hn. pose proof (lw_room _ _ _ _ Hlw) as Hr.
  destruct (hdr_store_spec (lh_n lg) (lh_block lg) h hdr_len) as (H1 & H2 & H3); [params; lia |].
  fold h1 in H1, H2, H3. split_and!; [done | congruence |].
  apply list_eq. intros k. destruct (decide (k < length bs)%nat) as [Hk|Hk].
  - rewrite hdr_blocks_lookup by lia. rewrite H3 by lia.
    destruct (lookup_lt_is_Some_2 _ _ Hk) as [b Hb]. rewrite Hb. f_equal.
    pose proof Hb as Hb'. rewrite <- (lw_blocks _ _ _ _ Hlw), lookup_take_lt in Hb' by done.
    rewrite (list_lookup_total_correct _ _ _ Hb').
    pose proof (lw_home _ _ _ _ Hlw) as Hh. rewrite Forall_lookup in Hh. specialize (Hh _ _ Hb).
    apply s32_small. lia.
  - rewrite !lookup_ge_None_2; [done | lia |]. rewrite hdr_blocks_length. lia.
Qed.

Lemma log_writes_in_log : in_log start size (log_writes start ds).
Proof.
  apply Forall_forall. intros w Hw. pose proof (lw_room _ _ _ _ Hlw).
  assert (w.1 ∈ (log_writes start ds).*1) as E%log_writes_key; [| lia].
  apply list_elem_of_fmap. eauto.
Qed.

Lemma log_writes_lengths : Forall (λ w, length w.2 = bsize) (log_writes start ds).
Proof.
  apply Forall_lookup. intros k w Hk. unfold log_writes in Hk. rewrite list_lookup_imap in Hk.
  destruct (ds !! k) eqn:E; [| done]. injection Hk as <-. simpl.
  rewrite Forall_lookup in Hds. eauto.
Qed.

(** Phase 1: some log blocks are written, the header still says "empty". *)
Lemma commit_logging (k : nat) :
  let D' := app_writes (take k (log_writes start ds)) D in
  log_disk start size h D' ∧ same_off start size (recovered start D') D.
Proof.
  intros D'. pose proof (ld_n _ _ _ _ HD).
  assert (HD' : log_disk start size h D').
  { apply (log_disk_ext _ _ _ D); [done | | | apply app_writes_dom].
    - unfold D'. rewrite app_writes_notin; [apply HD |]. intros E%take_key%log_writes_key. lia.
    - apply app_writes_lengths; [apply HD |]. apply Forall_take, log_writes_lengths. }
  split; [done |]. rewrite (recovered_empty _ _ _ _ HD' Hempty).
  apply app_writes_in_log, Forall_take, log_writes_in_log.
Qed.

(** Phase 2 starts when the header reaches the disk: the commit point. *)
Lemma commit_point :
  let D1 := <[start := h1]> (app_writes (log_writes start ds) D) in
  log_disk start size h1 D1 ∧ installs start h1 D1 = home_writes bs ds.
Proof.
  intros D1. destruct h1_spec as (Hl1 & Hn1 & Hb1).
  destruct (commit_logging (length (log_writes start ds))) as [H0 _]. rewrite firstn_all in H0.
  pose proof (lw_room _ _ _ _ Hlw) as Hr. pose proof (lw_nodup _ _ _ _ Hlw) as Hnd.
  pose proof (lw_home _ _ _ _ Hlw) as Hh. split.
  - destruct H0 as [_ A2 A3 _ _ _ A7 _]. split; rewrite ?Hb1, ?Hn1; try done.
    + unfold D1. by rewrite lookup_insert_eq.
    + by apply map_Forall_insert_2.
    + params. lia.
    + intros x Hx. unfold D1. rewrite dom_insert_L. apply elem_of_union_r. auto.
    + intros b Hb. unfold D1. rewrite dom_insert_L. apply elem_of_union_r, app_writes_dom. auto.
  - unfold installs. rewrite Hb1. f_equal. apply list_eq. intros k.
    destruct (decide (k < length ds)%nat) as [Hk|Hk].
    + destruct (lookup_lt_is_Some_2 _ _ Hk) as [d Hd]. unfold log_data_of.
      rewrite list_lookup_fmap, lookup_seq_lt, Hd by lia. simpl. f_equal.
      unfold D1. rewrite lookup_insert_ne by lia.
      rewrite (app_writes_in _ _ _ d); [done | apply log_writes_nodup |].
      apply list_elem_of_lookup. exists k. unfold log_writes. by rewrite list_lookup_imap, Hd.
    + rewrite !lookup_ge_None_2; [done | lia |]. rewrite log_data_length, Hb1. lia.
Qed.

Lemma commit_recovered :
  same_off start size
    (recovered start (<[start := h1]> (app_writes (log_writes start ds) D)))
    (app_writes (home_writes bs ds) D).
Proof.
  destruct commit_point as [H1 H2]. rewrite (recovered_eq _ _ _ _ H1), H2.
  pose proof (ld_n _ _ _ _ HD). apply app_writes_same_off.
  etrans; [| apply (app_writes_in_log _ _ (log_writes start ds)), log_writes_in_log].
  intros x Hx. rewrite lookup_insert_ne; [done |]. lia.
Qed.

(** The crash disks of a commit: old contents before the commit point, new
    contents from it on. *)
Lemma commit_crash (k : nat) :
  let D' := app_writes (take k (commit_writes start lg h bs ds)) D in
  (∃ h', log_disk start size h' D') ∧
  same_off start size (recovered start D')
    (if decide (k ≤ length bs)%nat then D else app_writes (home_writes bs ds) D).
Proof.
  assert (HlL : length (log_writes start ds) = length bs).
  { unfold log_writes. rewrite length_imap. lia. }
  unfold commit_writes. fold h1. case_decide as Hk; cbv zeta.
  { rewrite take_app_le by lia. destruct (commit_logging k) as [H1 H2]. split; [by exists h | done]. }
  destruct commit_point as [H1 H2]. set (D1 := <[start := h1]> (app_writes (log_writes start ds) D)) in *.
  rewrite take_app_ge by lia. rewrite app_writes_app, HlL.
  destruct (k - length bs)%nat as [|j] eqn:Ej; [lia |]. simpl. fold D1.
  assert (Hrec : recover_writes start h1 [] D1 = home_writes bs ds ++ [(start, hdr_store 0 (lh_block lg) h1)]).
  { unfold recover_writes. rewrite H2. done. }
  rewrite <- Hrec.
  destruct (recover_crash _ _ _ _ H1 j) as [H3 H4]. split; [done |]. etrans; [exact H4 |].
  apply commit_recovered.
Qed.

Lemma commit_final :
  let D' := app_writes (commit_writes start lg h bs ds) D in
  ∃ h', log_disk start size h' D' ∧ hdr_n h' = 0.
Proof.
  destruct commit_point as [H1 H2]. set (D1 := <[start := h1]> (app_writes (log_writes start ds) D)) in *.
  destruct (recover_installing _ _ _ _ H1 (length (installs start h1 D1))) as [H3 _].
  rewrite firstn_all, H2 in H3. exists (hdr_store 0 (lh_block lg) h1). split.
  - unfold commit_writes. fold h1. rewrite !app_writes_app. by apply log_disk_cleared.
  - apply hdr_store_0_spec, h1_spec.
Qed.

(** Off the log, a commit writes the new contents and nothing else. *)
Lemma commit_writes_off E :
  same_off start size (app_writes (commit_writes start lg h bs ds) E) (app_writes (home_writes bs ds) E).
Proof.
  pose proof (ld_n _ _ _ _ HD) as Hn. unfold commit_writes. fold h1. rewrite !app_writes_app.
  etrans; [apply app_writes_in_log; repeat constructor; simpl; lia |].
  apply app_writes_same_off.
  etrans; [apply app_writes_in_log; repeat constructor; simpl; lia |].
  apply app_writes_in_log, log_writes_in_log.
Qed.
End CommitCrash.
