(* ===== verification/BlockLayer.v ===== *)
(** * The interface between the file system and the log

    [kernel/fs.c] reaches the disk only through [bread], [brelse],
    [log_write] and the transaction brackets [begin_op]/[end_op].
    [BlockLayer] is that interface, [BlockLayerOk] what it promises in terms
    of a block view: the bytes every block has now, the bytes a crash would
    fall back to, the buffers the running process holds and the blocks of
    the open transaction.  [LogLayer.v] discharges the promises for the
    buffer cache and the log; [MemLayer] below is a second, directly
    executable instance. *)
From S2P Require Import Prelude Params.

Class BlockLayer (S : Type) := {
  bl_bread : Z → Z → M S nat;
  bl_data : nat → S → block;
  bl_set_data : nat → block → M S unit;
  bl_log_write : nat → M S unit;
  bl_brelse : nat → M S unit;
  bl_begin_op : M S unit;
  bl_end_op : M S unit;
  bl_initlog : Z → Z → Z → M S unit;
  bl_pid : S → Z;
}.

Record bview := BView {
  bv_now : gmap Z block;
  bv_disk : gmap Z block;
  bv_held : gset Z;
  bv_log : gset Z;
  bv_open : Z;
}.

Definition bv_hold (b : Z) (v : bview) : bview :=
  BView (bv_now v) (bv_disk v) ({[b]} ∪ bv_held v) (bv_log v) (bv_open v).
Definition bv_drop (b : Z) (v : bview) : bview :=
  BView (bv_now v) (bv_disk v) (bv_held v ∖ {[b]}) (bv_log v) (bv_open v).
Definition bv_set (b : Z) (d : block) (v : bview) : bview :=
  BView (<[b:=d]> (bv_now v)) (bv_disk v) (bv_held v) (bv_log v) (bv_open v).
Definition bv_logged (b : Z) (v : bview) : bview :=
  BView (bv_now v) (bv_disk v) (bv_held v) ({[b]} ∪ bv_log v) (bv_open v).
Definition bv_reopen (o : Z) (v : bview) : bview :=
  BView (bv_now v) (bv_disk v) (bv_held v) (bv_log v) o.
Definition bv_commit (v : bview) : bview :=
  BView (bv_now v) (bv_now v) ∅ ∅ 0.

Class BlockLayerOk (S : Type) `{BlockLayer S} := {
  bl_rep : S → bview → Prop;
  bl_handle : S → nat → Z → Prop;
  (** how many distinct blocks one transaction can log *)
  bl_cap : nat;
  bl_cap_le : (bl_cap < nbuf)%nat;

  bl_lengths s v : bl_rep s v → map_Forall (λ _ (d : block), length d = bsize) (bv_now v);
  bl_held_data s v i b : bl_rep s v → bl_handle s i b →
    b ∈ bv_held v ∧ bv_now v !! b = Some (bl_data i s);
  bl_clean s v b : bl_rep s v → b ∉ bv_held v → b ∉ bv_log v → bv_now v !! b = bv_disk v !! b;
  bl_log_dom s v : bl_rep s v → bv_log v ⊆ dom (bv_now v) ∧ (size (bv_log v) ≤ bl_cap)%nat;

  bl_bread_ok s v b : bl_rep s v →
    b ∈ dom (bv_now v) → b ∉ bv_held v → (b ∈ bv_log v ∨ size (bv_held v ∪ bv_log v) < nbuf)%nat →
    wp (bl_bread ROOTDEV b) (λ i s', bl_rep s' (bv_hold b v) ∧ bl_handle s' i b ∧
      bl_pid s' = bl_pid s ∧ ∀ j x, bl_handle s j x → bl_handle s' j x) s;
  bl_set_ok s v i b d : bl_rep s v → bl_handle s i b → length d = bsize →
    wp (bl_set_data i d) (λ _ s', bl_rep s' (bv_set b d v) ∧
      bl_pid s' = bl_pid s ∧ ∀ j x, bl_handle s j x → bl_handle s' j x) s;
  bl_log_write_ok s v i b : bl_rep s v → bl_handle s i b →
    (size (bv_log v) < bl_cap)%nat → 1 <= bv_open v →
    wp (bl_log_write i) (λ _ s', bl_rep s' (bv_logged b v) ∧
      bl_pid s' = bl_pid s ∧ ∀ j x, bl_handle s j x → bl_handle s' j x) s;
  bl_brelse_ok s v i b : bl_rep s v → bl_handle s i b →
    (b ∈ bv_log v ∨ bv_now v !! b = bv_disk v !! b) →
    wp (bl_brelse i) (λ _ s', bl_rep s' (bv_drop b v) ∧
      bl_pid s' = bl_pid s ∧ ∀ j x, x ≠ b → bl_handle s j x → bl_handle s' j x) s;
  bl_begin_ok s v : bl_rep s v →
    Z.of_nat (size (bv_log v)) + (bv_open v + 1) * MAXOPBLOCKS <= LOGSIZE →
    wp bl_begin_op (λ _ s', bl_rep s' (bv_reopen (bv_open v + 1) v) ∧ bl_pid s' = bl_pid s) s;
  bl_end_ok s v : bl_rep s v → bv_held v = ∅ → bv_open v = 1 →
    wp bl_end_op (λ _ s', bl_rep s' (bv_commit v) ∧ bl_pid s' = bl_pid s) s;
}.

(** ** Derived: the read-only and the read-modify-log patterns of [fs.c] *)
Section Patterns.
Context {S : Type} `{BlockLayerOk S}.

Lemma bview_eq n n' d d' h h' l l' o o' :
  n = n' → d = d' → h = h' → l = l' → o = o' → BView n d h l o = BView n' d' h' l' o'.
Proof. by intros -> -> -> -> ->. Qed.

Lemma bv_drop_hold b v : b ∉ bv_held v → bv_drop b (bv_hold b v) = v.
Proof. intros Hb. destruct v. apply bview_eq; simpl in *; try done. set_solver. Qed.

(** The state after [b] was given the contents [d] through the log. *)
Definition bv_upd (b : Z) (d : block) (v : bview) : bview :=
  BView (<[b:=d]> (bv_now v)) (bv_disk v) (bv_held v) ({[b]} ∪ bv_log v) (bv_open v).

Lemma bl_data_len s v i b : bl_rep s v → bl_handle s i b → length (bl_data i s) = bsize.
Proof.
  intros Hr Hh. destruct (bl_held_data _ _ _ _ Hr Hh) as [_ Hd].
  by apply (bl_lengths _ _ Hr) in Hd.
Qed.

Lemma bl_data_now s v i b d : bl_rep s v → bl_handle s i b → bv_now v !! b = Some d → bl_data i s = d.
Proof. intros Hr Hh Hd. destruct (bl_held_data _ _ _ _ Hr Hh) as [_ Hd']. congruence. Qed.

(** [bp->data = d; log_write(bp); brelse(bp)] on a buffer obtained by the
    [bread] that turned [v] into [bv_hold b v]. *)
Definition log_and_release (i : nat) (d : block) : M S unit :=
  bl_set_data i d;; bl_log_write i;; bl_brelse i.

Lemma log_and_release_ok s v i b d :
  bl_rep s (bv_hold b v) → bl_handle s i b → b ∉ bv_held v → length d = bsize →
  (size (bv_log v) < bl_cap)%nat → 1 <= bv_open v →
  wp (log_and_release i d) (λ _ s', bl_rep s' (bv_upd b d v) ∧ bl_pid s' = bl_pid s ∧
    ∀ j x, x ≠ b → bl_handle s j x → bl_handle s' j x) s.
Proof.
  intros Hr Hh Hb Hd Hcap Ho. unfold log_and_release. wp_steps.
  eapply wp_mono; [by apply (bl_set_ok _ _ _ _ d Hr Hh) |]. intros _ s1 (R1 & P1 & K1). wp_steps.
  eapply wp_mono; [by apply (bl_log_write_ok _ _ _ _ R1 (K1 _ _ Hh)) |].
  intros _ s2 (R2 & P2 & K2).
  eapply wp_mono; [apply (bl_brelse_ok _ _ _ _ R2 (K2 _ _ (K1 _ _ Hh))) |].
  { simpl. left. set_solver. }
  intros _ s3 (R3 & P3 & K3). split_and!; [| congruence | auto].
  replace (bv_upd b d v) with (bv_drop b (bv_logged b (bv_set b d (bv_hold b v)))); [done |].
  destruct v. apply bview_eq; simpl in *; try done. set_solver.
Qed.

(** Releasing a buffer that was only read. *)
Lemma bl_brelse_clean s v i b :
  bl_rep s (bv_hold b v) → bl_handle s i b → b ∉ bv_held v →
  (b ∉ bv_log v → bv_now v !! b = bv_disk v !! b) →
  wp (bl_brelse i) (λ _ s', bl_rep s' v ∧ bl_pid s' = bl_pid s ∧
    ∀ j x, x ≠ b → bl_handle s j x → bl_handle s' j x) s.
Proof.
  intros Hr Hh Hb Hc. eapply wp_mono; [apply (bl_brelse_ok _ _ _ _ Hr Hh) |].
  { simpl. destruct (decide (b ∈ bv_log v)); [by left | right; auto]. }
  intros _ s' (R & P & K). rewrite bv_drop_hold in R by done. done.
Qed.
End Patterns.

(** ** The specification as an executable layer

    The simplest layer with the promised behaviour: the block view itself,
    operated on directly.  The handle of block [b] is [b]. *)
Record memst := MemSt { ms_view : bview; ms_pid : Z }.

Definition mem_upd (f : bview → bview) (s : memst) : memst := MemSt (f (ms_view s)) (ms_pid s).

#[export] Instance mem_layer : BlockLayer memst := {
  bl_bread _ b := λ s,
    if decide (b ∈ bv_held (ms_view s)) then Wait "buffer" s
    else if decide (0 <= b ∧ is_Some (bv_now (ms_view s) !! b))
    then Ret (Z.to_nat b) (mem_upd (bv_hold b) s)
    else Panic "no such block";
  bl_data i s := default zero_block (bv_now (ms_view s) !! Z.of_nat i);
  bl_set_data i d := modify (mem_upd (bv_set (Z.of_nat i) d));
  bl_log_write i := λ s,
    if decide (1 <= bv_open (ms_view s)) then Ret tt (mem_upd (bv_logged (Z.of_nat i)) s)
    else Panic "log_write outside of trans";
  bl_brelse i := modify (mem_upd (bv_drop (Z.of_nat i)));
  bl_begin_op := modify (mem_upd (λ v, bv_reopen (bv_open v + 1) v));
  bl_end_op := modify (mem_upd (λ v, if decide (bv_open v = 1) then bv_commit v
                                      else bv_reopen (bv_open v - 1) v));
  bl_initlog _ _ _ := ret tt;
  bl_pid := ms_pid;
}.

Record mem_rep (s : memst) (v : bview) : Prop := {
  mr_view : ms_view s = v;
  mr_range : ∀ b, b ∈ dom (bv_now v) → 0 <= b;
  mr_len : map_Forall (λ _ (d : block), length d = bsize) (bv_now v);
  mr_clean : ∀ b, b ∉ bv_held v → b ∉ bv_log v → bv_now v !! b = bv_disk v !! b;
  mr_held : bv_held v ⊆ dom (bv_now v);
  mr_log : bv_log v ⊆ dom (bv_now v) ∧ (size (bv_log v) ≤ 29)%nat;
}.
Definition mem_handle (s : memst) (i : nat) (b : Z) : Prop :=
  b = Z.of_nat i ∧ b ∈ bv_held (ms_view s).

Lemma mem_handle_data s v i b :
  mem_rep s v → mem_handle s i b → b ∈ bv_held v ∧ bv_now v !! b = Some (bl_data i s).
Proof.
  intros R [-> Hh]. rewrite (mr_view _ _ R) in Hh. split; [done |].
  apply (mr_held _ _ R), elem_of_dom in Hh as [d Hd]. cbn. by rewrite (mr_view _ _ R), Hd.
Qed.

#[export, refine] Instance mem_layer_ok : BlockLayerOk memst := {
  bl_rep := mem_rep;
  bl_handle := mem_handle;
  bl_cap := 29;
}.
Proof.
  - params. lia.
  - intros s v R. apply (mr_len _ _ R).
  - apply mem_handle_data.
  - intros s v b R. apply (mr_clean _ _ R).
  - intros s v R. apply (mr_log _ _ R).
  - intros s v b R Hb Hh _. unfold wp. cbn. rewrite (mr_view _ _ R), decide_False by done.
    rewrite decide_True by (split; [by apply (mr_range _ _ R) | by apply elem_of_dom]).
    pose proof (mr_range _ _ R _ Hb). destruct R. unfold mem_upd, mem_handle. simpl.
    split_and!; try done; [| lia | set_solver |].
    + split; simpl; try done; [by rewrite mr_view0 | intros x Hx; apply mr_clean0; set_solver | set_solver].
    + intros j x [-> Hx]. split; [done |]. set_solver.
  - intros s v i b d R Hh Hd. destruct (mem_handle_data _ _ _ _ R Hh) as [Hb _].
    destruct Hh as [-> Hh]. unfold wp. cbn.
    pose proof (mr_held _ _ R _ Hb) as Hdom. destruct R. split_and!; try done.
    assert (dom (<[Z.of_nat i := d]> (bv_now v)) = dom (bv_now v)) as E by (rewrite dom_insert_L; set_solver).
    split; simpl; rewrite ?E; [by rewrite mr_view0 | intros x Hx; apply mr_range0; set_solver
      | by apply map_Forall_insert_2 | | set_solver | split; [set_solver | lia]].
    intros x Hx Hl. rewrite lookup_insert_ne by congruence. auto.
  - intros s v i b R Hh Hcap Ho. destruct (mem_handle_data _ _ _ _ R Hh) as [Hb _].
    pose proof (mr_held _ _ R _ Hb) as Hdom. destruct Hh as [-> Hh]. unfold wp. cbn.
    rewrite (mr_view _ _ R), decide_True by done. destruct R. split_and!; try done.
    split; simpl; try done; [by rewrite mr_view0 | intros x Hx Hl; apply mr_clean0; set_solver |].
    split; [set_solver |]. rewrite size_union_alt, size_singleton.
    pose proof (subseteq_size (bv_log v ∖ {[Z.of_nat i]}) (bv_log v) ltac:(set_solver)). lia.
  - intros s v i b R Hh Hok. destruct Hh as [-> Hh]. unfold wp. cbn. destruct R. split_and!; try done.
    + split; simpl; try done; [by rewrite mr_view0 | | set_solver].
      intros x Hx Hl. destruct (decide (x = Z.of_nat i)) as [->|]; [| apply mr_clean0; set_solver].
      by destruct Hok.
    + intros j x Hne [-> Hx]. split; [done |]. simpl. set_solver.
  - intros s v R _. unfold wp. cbn. destruct R. split; [| done].
    split; simpl; try done. by rewrite mr_view0.
  - intros s v R Hh Ho. unfold wp. cbn. destruct R. split; [| done].
    split; simpl; try done.
    + by rewrite mr_view0, decide_True.
    + split; [set_solver | change (size (∅ : gset Z) ≤ 29)%nat; rewrite size_empty; lia].
Defined.
