(* ===== verification/LogLayer.v ===== *)
(** * The log and the buffer cache implement the block layer

    Discharges [BlockLayerOk] of [BlockLayer.v] for [kernel/bio.c] and
    [kernel/log.c]: [bread], [log_write], [brelse], [begin_op] and [end_op]
    refine the block view. *)
From S2P Require Import Prelude Params Locks Bio Cache Log Recovery BlockLayer.

#[export] Instance lst_layer : BlockLayer lst := {
  bl_bread dev b := on_bio (bread dev b);
  bl_data := data_of;
  bl_set_data := put_data;
  bl_log_write := log_write;
  bl_brelse i := on_bio (brelse i);
  bl_begin_op := begin_op;
  bl_end_op := end_op;
  bl_initlog := initlog;
  bl_pid s := curpid (l_bio s);
}.

Section Layer.
Context (start size : Z).

(** The blocks the file system may touch: everything but the log area. *)
Definition off_log (b : Z) : Prop := ¬ (start <= b < start + size).
#[local] Instance off_log_dec b : Decision (off_log b).
Proof. unfold off_log. apply _. Defined.
Definition fs_part (D : gmap Z block) : gmap Z block := filter (λ x, off_log x.1) D.

Lemma fs_part_off D b : off_log b → fs_part D !! b = D !! b.
Proof.
  intros Hb. unfold fs_part. rewrite map_lookup_filter. destruct (D !! b); [| done]. simpl.
  rewrite option_guard_True; done.
Qed.

Lemma fs_part_Some D b d : fs_part D !! b = Some d ↔ D !! b = Some d ∧ off_log b.
Proof. unfold fs_part. rewrite map_lookup_filter_Some. done. Qed.

Lemma fs_part_insert D b d : off_log b → fs_part (<[b:=d]> D) = <[b:=d]> (fs_part D).
Proof. intros Hb. unfold fs_part. by rewrite map_filter_insert_True. Qed.

Lemma fs_part_same D1 D2 : same_off start size D1 D2 → fs_part D1 = fs_part D2.
Proof.
  intros H. apply map_eq. intros b. destruct (decide (off_log b)) as [Hb|Hb].
  - rewrite !fs_part_off by done. by apply H.
  - unfold fs_part. rewrite !map_lookup_filter.
    destruct (D1 !! b), (D2 !! b); simpl; rewrite ?option_guard_False by done; done.
Qed.

(** The full state behind a block view. *)
Record lrep (s : lst) (v : bview) (now dsk : gmap Z block) (bs : list Z) : Prop := {
  lr_log : lwf start size (l_log s) bs;
  lr_cache : crep (l_bio s) (CView now dsk (bv_held v) (list_to_set bs) ∅);
  lr_now : bv_now v = fs_part now;
  lr_dsk : bv_disk v = fs_part dsk;
  lr_bs : bv_log v = list_to_set bs;
  lr_open : lg_outstanding (l_log s) = bv_open v ∧ 0 <= bv_open v;
  lr_busy : lg_committing (l_log s) = false;
  lr_range : ∀ b, b ∈ dom now → 0 <= b < 2 ^ 31;
  lr_held : ∀ b, b ∈ bv_held v → off_log b;
  lr_hdr : ∃ h, log_disk start size h dsk ∧ hdr_n h = 0;
}.

Lemma lrep_dom s v now dsk bs b : lrep s v now dsk bs → b ∈ dom (bv_now v) → b ∈ dom dsk ∧ off_log b.
Proof.
  intros H Hb. rewrite (lr_now _ _ _ _ _ H) in Hb. apply elem_of_dom in Hb as [d Hd].
  apply fs_part_Some in Hd as [Hd Hoff]. split; [| done].
  pose proof (cr_dom _ _ (lr_cache _ _ _ _ _ H)) as E. simpl in E. rewrite <- E.
  apply elem_of_dom. eauto.
Qed.

(** The view of the cache behind a held buffer. *)
Lemma lrep_handle s v now dsk bs i b :
  lrep s v now dsk bs → lheld s i b →
  b ∈ bv_held v ∧ now !! b = Some (data_of i s) ∧ off_log b ∧ 0 <= b < 2 ^ 31.
Proof.
  intros H Hh. destruct (crep_held _ _ _ _ (lr_cache _ _ _ _ _ H) Hh) as (H1 & H2 & _).
  simpl in *. split_and!; [done | done | by apply (lr_held _ _ _ _ _ H) |..];
    apply (lr_range _ _ _ _ _ H), elem_of_dom; eauto.
Qed.

(** Rebuilding [lrep] after a cache operation that leaves the log alone. *)
Lemma lrep_frame s s' v v' now now' dsk bs W :
  lrep s v now dsk bs → lframe W s s' →
  crep (l_bio s') (CView now' dsk (bv_held v') (list_to_set bs) ∅) →
  bv_now v' = fs_part now' → dom now' = dom now →
  bv_disk v' = bv_disk v → bv_log v' = bv_log v → bv_open v' = bv_open v →
  (∀ b, b ∈ bv_held v' → off_log b) →
  lrep s' v' now' dsk bs.
Proof.
  intros H (E1 & _) Hc En Edom Ed El Eo Hh. destruct H.
  split; rewrite ?E1, ?Ed, ?El, ?Eo, ?Edom; done.
Qed.

Lemma layer_bread s v now dsk bs b :
  lrep s v now dsk bs → b ∈ dom (bv_now v) → b ∉ bv_held v →
  (b ∈ bv_log v ∨ base.size (bv_held v ∪ bv_log v) < nbuf)%nat →
  wp (on_bio (bread ROOTDEV b)) (λ i s', lrep s' (bv_hold b v) now dsk bs ∧ lheld s' i b ∧
    curpid (l_bio s') = curpid (l_bio s) ∧ ∀ j x, lheld s j x → lheld s' j x) s.
Proof.
  intros H Hb Hnh Hroom. destruct (lrep_dom _ _ _ _ _ _ H Hb) as [Hbd Hoff].
  eapply wp_mono; [apply (log_bread _ _ (lr_cache _ _ _ _ _ H) b); cbn [v_held v_leak v_disk v_pin];
    [done | done | set_solver | set_solver |] |].
  - rewrite (lr_bs _ _ _ _ _ H) in Hroom. unfold v_used. simpl. by rewrite union_empty_r_L.
  - intros i s' (H1 & H2 & F & K). split_and!; [| done | apply F | done].
    apply (lrep_frame s s' v _ now _ _ _ _ H F); try done.
    + apply (lr_now _ _ _ _ _ H).
    + simpl. intros x [->%elem_of_singleton | Hx]%elem_of_union; [done |].
      by apply (lr_held _ _ _ _ _ H).
Qed.

Lemma layer_set s v now dsk bs i b d :
  lrep s v now dsk bs → lheld s i b → length d = bsize →
  wp (put_data i d) (λ _ s', lrep s' (bv_set b d v) (<[b:=d]> now) dsk bs ∧
    curpid (l_bio s') = curpid (l_bio s) ∧ ∀ j x, lheld s j x → lheld s' j x) s.
Proof.
  intros H Hh Hd. destruct (lrep_handle _ _ _ _ _ _ _ H Hh) as (Hb & Hn & Hoff & _).
  eapply wp_mono; [apply (log_put_data _ _ (lr_cache _ _ _ _ _ H) i b Hh d Hd) |].
  intros _ s' (H1 & _ & F & K). split_and!; [| apply F | done].
  apply (lrep_frame s s' v _ now _ _ _ _ H F); try done.
  - simpl. rewrite (lr_now _ _ _ _ _ H). by rewrite fs_part_insert.
  - rewrite dom_insert_L. assert (b ∈ dom now) by (apply elem_of_dom; eauto). set_solver.
  - apply (lr_held _ _ _ _ _ H).
Qed.

Lemma layer_brelse s v now dsk bs i b :
  lrep s v now dsk bs → lheld s i b →
  (b ∈ bv_log v ∨ bv_now v !! b = bv_disk v !! b) →
  wp (on_bio (brelse i)) (λ _ s', lrep s' (bv_drop b v) now dsk bs ∧
    curpid (l_bio s') = curpid (l_bio s) ∧ ∀ j x, x ≠ b → lheld s j x → lheld s' j x) s.
Proof.
  intros H Hh Hok. destruct (lrep_handle _ _ _ _ _ _ _ H Hh) as (Hb & Hn & Hoff & _).
  eapply wp_mono; [apply (log_brelse _ _ (lr_cache _ _ _ _ _ H) i b Hh) |].
  { cbn [v_pin v_leak v_now v_disk].
    rewrite (lr_bs _ _ _ _ _ H), (lr_now _ _ _ _ _ H), (lr_dsk _ _ _ _ _ H) in Hok.
    destruct Hok as [|Hok]; [by left | right; right]. by rewrite !fs_part_off in Hok. }
  intros _ s' (H1 & F & K). split_and!; [| apply F |].
  - apply (lrep_frame s s' v _ now _ _ _ _ H F); try done; [apply (lr_now _ _ _ _ _ H) |].
    simpl. intros x Hx. apply (lr_held _ _ _ _ _ H). set_solver.
  - intros j x Hne Hj. apply K; [| done]. by apply (lheld_ne _ _ _ _ _ Hj Hh).
Qed.

(** ** [log_write] *)
Lemma log_slot_in lg bs (k : nat) b :
  lwf start size lg bs → bs !! k = Some b → 0 <= b < 2 ^ 31 →
  log_slot lg b = Z.of_nat k.
Proof.
  intros H Hk Hb. unfold log_slot.
  rewrite (lw_n _ _ _ _ H), Nat2Z.id, (lw_blocks _ _ _ _ H).
  assert (list_find (λ x, u32 x = b) bs = Some (k, b)) as ->; [| done].
  apply list_find_Some. split_and!; [done | apply u32_small; lia |].
  intros j y Hj Hlt E. pose proof (lw_home _ _ _ _ H) as Hh. rewrite Forall_lookup in Hh.
  specialize (Hh _ _ Hj). rewrite u32_small in E by lia. subst y.
  pose proof (NoDup_lookup _ _ _ _ (lw_nodup _ _ _ _ H) Hj Hk). lia.
Qed.

Lemma log_slot_out lg bs b :
  lwf start size lg bs → b ∉ bs → log_slot lg b = Z.of_nat (length bs).
Proof.
  intros H Hk. unfold log_slot.
  rewrite (lw_n _ _ _ _ H), Nat2Z.id, (lw_blocks _ _ _ _ H).
  assert (list_find (λ x, u32 x = b) bs = None) as ->; [| done].
  apply list_find_None. apply Forall_forall. intros x Hx E.
  pose proof (lw_home _ _ _ _ H) as Hh. rewrite Forall_forall in Hh.
  specialize (Hh _ Hx). rewrite u32_small in E by lia. by subst.
Qed.

Lemma lwf_push lg bs b :
  lwf start size lg bs → (S (length bs) < logsize)%nat → Z.of_nat (length bs) < size - 1 →
  b ∉ bs → 0 <= b < 2 ^ 31 → off_log b →
  lwf start size (set_n (lh_n lg + 1) (set_block (length bs) b lg)) (bs ++ [b]).
Proof.
  intros H Hr Hr2 Hb Hrange Hoff. destruct H. split; simpl; try done.
  - rewrite length_app. simpl. lia.
  - rewrite length_app. simpl. rewrite (take_snoc _ _ b).
    + rewrite take_insert_ge by lia. by rewrite lw_blocks.
    + rewrite list_lookup_insert_eq by lia. done.
  - by rewrite length_insert.
  - rewrite length_app. simpl. lia.
  - apply NoDup_app. split_and!; [done | set_solver | apply NoDup_singleton].
  - apply Forall_app. split; [done |]. constructor; [done | constructor].
Qed.

Lemma layer_log_write s v now dsk bs i b :
  1 <= size <= LOGSIZE →
  lrep s v now dsk bs → lheld s i b → (base.size (bv_log v) < Z.to_nat (size - 1))%nat → 1 <= bv_open v →
  wp (log_write i) (λ _ s', (∃ bs', lrep s' (bv_logged b v) now dsk bs') ∧
    curpid (l_bio s') = curpid (l_bio s) ∧ ∀ j x, lheld s j x → lheld s' j x) s.
Proof.
  intros Hsize H Hh Hcap Ho. destruct (lrep_handle _ _ _ _ _ _ _ H Hh) as (Hb & Hn & Hoff & Hrange).
  pose proof (lr_log _ _ _ _ _ H) as Hlw. pose proof (lw_room _ _ _ _ Hlw) as Hroom.
  rewrite (lr_bs _ _ _ _ _ H), size_list_to_set in Hcap by apply Hlw.
  unfold log_write. wp_steps. rewrite (lw_n _ _ _ _ Hlw), (lw_size _ _ _ _ Hlw).
  rewrite decide_False by (params; lia). destruct (lr_open _ _ _ _ _ H) as [-> _].
  rewrite decide_False by lia. wp_steps.
  assert (b_blockno (buf_at i (l_bio s)) = b) as -> by apply Hh.
  rewrite s32_small by lia. unfold store_block, put_log.
  destruct (decide (b ∈ bs)) as [Hin|Hin].
  - apply list_elem_of_lookup in Hin as [k Hk]. pose proof (lookup_lt_Some _ _ _ Hk) as Hlt.
    rewrite (log_slot_in _ _ _ _ Hlw Hk Hrange), Nat2Z.id, decide_True by (params; lia). wp_steps.
    rewrite decide_False by lia. wp_steps. cbn [l_bio]. split_and!; [| done | done]. exists bs.
    assert (set_block k b (l_log s) = l_log s) as ->.
    { unfold set_block. rewrite list_insert_id; [by destruct (l_log s) |].
      rewrite <- (lw_blocks _ _ _ _ Hlw) in Hk. rewrite lookup_take_lt in Hk by done. done. }
    destruct s as [sb sl]. destruct H. split; try done. simpl. rewrite lr_bs0.
    assert (b ∈ bs) by (by eapply list_elem_of_lookup_2). set_solver.
  - rewrite (log_slot_out _ _ _ Hlw Hin), Nat2Z.id, decide_True by (params; lia). wp_steps.
    rewrite decide_True by done. wp_steps. apply wp_on_bio. cbn [l_bio l_log].
    eapply wp_mono; [apply (cache_bpin _ _ (lr_cache _ _ _ _ _ H) i b Hh); simpl; set_solver |].
    intros _ s' (H1 & K & _ & E1 & E2). wp_steps. cbn [l_bio l_log]. split_and!; [| done | done].
    exists (bs ++ [b]). destruct H. split; cbn [l_bio l_log]; try done.
    + rewrite <- (lw_n _ _ _ _ Hlw). apply lwf_push; try done; [params |]; lia.
    + replace (CView _ _ _ _ _) with (v_dopin b (CView now dsk (bv_held v) (list_to_set bs) ∅)); [done |].
      apply cview_eq; simpl; try done. rewrite list_to_set_app_L. set_solver.
    + simpl. rewrite lr_bs0, list_to_set_app_L. set_solver.
Qed.

(** ** The transaction brackets *)
Lemma layer_begin_op s v now dsk bs :
  lrep s v now dsk bs →
  Z.of_nat (base.size (bv_log v)) + (bv_open v + 1) * MAXOPBLOCKS <= LOGSIZE →
  wp begin_op (λ _ s', lrep s' (bv_reopen (bv_open v + 1) v) now dsk bs ∧
    l_bio s' = l_bio s) s.
Proof.
  intros H Hroom. pose proof (lr_log _ _ _ _ _ H) as Hlw. destruct (lr_open _ _ _ _ _ H) as [Eo Ho].
  rewrite (lr_bs _ _ _ _ _ H), size_list_to_set in Hroom by apply Hlw.
  unfold begin_op. wp_steps. rewrite (lr_busy _ _ _ _ _ H), (lw_n _ _ _ _ Hlw), Eo.
  rewrite decide_False by lia. unfold put_log. wp_steps. split; [| done].
  destruct H. split; simpl; try done; [| lia]. by destruct Hlw.
Qed.

Lemma app_writes_noop bs ds (E : gmap Z block) :
  NoDup bs → Forall2 (λ b d, E !! b = Some d) bs ds → app_writes (home_writes bs ds) E = E.
Proof.
  intros Hnd Hds. apply map_eq. intros x. destruct (decide (x ∈ (home_writes bs ds).*1)) as [Hx|Hx].
  - apply list_elem_of_fmap in Hx as ([y d] & -> & Hw). simpl.
    rewrite (app_writes_in _ _ y d); [| by apply home_writes_nodup | done].
    apply list_elem_of_lookup in Hw as [k Hk].
    apply lookup_zip_with_Some in Hk as (a & b & [= -> ->] & Ha & Hb).
    symmetry. by eapply (Forall2_lookup_lr _ _ _ _ _ _ Hds).
  - by apply app_writes_notin.
Qed.

Lemma crep_contents s now dsk (bs : list Z) :
  crep s (CView now dsk ∅ (list_to_set bs) ∅) → ∃ ds, Forall2 (λ b d, now !! b = Some d) bs ds ∧
    Forall (λ d : block, length d = bsize) ds ∧ ∀ b, b ∈ bs → b ∈ dom dsk.
Proof.
  intros Hc.
  assert (Hu : ∀ b, b ∈ bs → b ∈ dom dsk).
  { intros b Hb. apply (cr_used _ _ Hc). unfold v_used. simpl. set_solver. }
  pose proof (cr_dom _ _ Hc) as Hdom. simpl in Hdom.
  exists ((λ b, default zero_block (now !! b)) <$> bs). split_and!; [| | done].
  - apply Forall2_fmap_r, Forall_Forall2_diag, Forall_forall. intros b Hb.
    assert (is_Some (now !! b)) as [d Hd]; [| by simpl; rewrite Hd]. apply elem_of_dom. rewrite Hdom. auto.
  - apply Forall_fmap, Forall_forall. intros b Hb. simpl.
    assert (is_Some (now !! b)) as [d Hd] by (apply elem_of_dom; rewrite Hdom; auto).
    rewrite Hd. by apply (crep_lengths _ _ Hc) in Hd.
Qed.

(** What a crash after [k] of the writes [W] leaves behind: a disk that
    recovery turns into the old contents [dsk] up to the commit point [n],
    and into the new contents [now] after it. *)
Definition atomic_writes (W : list (Z * block)) (n : nat) (dsk now : gmap Z block) : Prop :=
  ∀ k : nat, let D := app_writes (take k W) dsk in
  (∃ h, log_disk start size h D) ∧
  same_off start size (recovered start D) (if decide (k ≤ n)%nat then dsk else now).

Lemma app_writes_home_now s now dsk (bs : list Z) ds :
  crep s (CView now dsk ∅ (list_to_set bs) ∅) → NoDup bs →
  Forall2 (λ b d, now !! b = Some d) bs ds → app_writes (home_writes bs ds) dsk = now.
Proof.
  intros Hc Hnd Hds. rewrite <- (app_writes_noop bs ds now) by done.
  apply map_eq. intros x. destruct (decide (x ∈ bs)) as [Hx|Hx].
  - apply app_writes_overwrite. apply list_elem_of_lookup in Hx as [k Hk].
    destruct (Forall2_lookup_l _ _ _ _ _ Hds Hk) as (d & Hd & _).
    apply list_elem_of_fmap. exists (x, d). split; [done |]. apply list_elem_of_lookup. exists k.
    apply lookup_zip_with_Some. eauto.
  - rewrite !app_writes_notin by (intros E%home_writes_key; done).
    symmetry. apply (cr_clean _ _ Hc). unfold v_used. simpl. set_solver.
Qed.

(** Committing: the transaction's contents become the crash contents. *)
Lemma layer_commit s now dsk bs :
  lwf start size (l_log s) bs → crep (l_bio s) (CView now dsk ∅ (list_to_set bs) ∅) →
  (∃ h, log_disk start size h dsk ∧ hdr_n h = 0) →
  wp commit (λ _ s', ∃ now' dsk',
    crep (l_bio s') (CView now' dsk' ∅ ∅ ∅) ∧ lwf start size (l_log s') [] ∧
    lg_outstanding (l_log s') = lg_outstanding (l_log s) ∧
    lg_committing (l_log s') = lg_committing (l_log s) ∧
    fs_part now' = fs_part now ∧ now' = dsk' ∧ dom now' = dom now ∧
    (∃ h, log_disk start size h dsk' ∧ hdr_n h = 0) ∧ curpid (l_bio s') = curpid (l_bio s) ∧
    ∃ W, writes (l_bio s') = writes (l_bio s) ++ W ∧ atomic_writes W (length bs) dsk now) s.
Proof.
  intros Hlw Hc (h & HD & Hh).
  destruct (crep_contents _ _ _ _ Hc) as (ds & Hds & Hlens & Hbd).
  pose proof (cr_dom _ _ Hc) as Hdom. simpl in Hdom.
  destruct (decide (bs = [])) as [-> | Hne].
  - unfold commit. wp_steps. rewrite decide_False by (rewrite (lw_n _ _ _ _ Hlw); simpl; lia).
    wp_steps. exists now, dsk. split_and!; try done.
    + apply map_eq. intros x. apply (cr_clean _ _ Hc). unfold v_used. set_solver.
    + by exists h.
    + exists []. split; [by rewrite app_nil_r |]. intros k. rewrite take_nil.
      split; [by exists h |]. simpl. rewrite (recovered_empty _ _ _ _ HD Hh).
      assert (now = dsk) as ->; [| by case_decide].
      apply map_eq. intros x. apply (cr_clean _ _ Hc). unfold v_used. set_solver.
  - pose proof (ld_n _ _ _ _ HD) as Hn.
    assert (Hst : now !! start = Some h).
    { rewrite <- (ld_hdr _ _ _ _ HD). apply (cr_clean _ _ Hc). unfold v_used. simpl.
      pose proof (lw_home _ _ _ _ Hlw) as Hhome. rewrite Forall_forall in Hhome.
      rewrite union_empty_l_L, union_empty_r_L, elem_of_list_to_set. intros E. apply (Hhome _ E). lia. }
    eapply wp_mono; [apply (commit_spec start size s _ bs ds h Hlw Hc); try done; apply HD |].
    cbv zeta. set (W := commit_writes _ _ _ _ _). intros _ s' (H1 & E1 & Ew & E2).
    assert (Hlen : length ds = length bs) by (symmetry; by eapply Forall2_length).
    assert (Hsame : app_writes W now = app_writes W dsk).
    { apply map_eq. intros x. apply (cr_clean _ _ H1). unfold v_used. simpl. set_solver. }
    exists (app_writes W now), (app_writes W dsk). split_and!.
    + exact H1.
    + rewrite E1. by eapply lwf_clear.
    + by rewrite E1.
    + by rewrite E1.
    + apply fs_part_same. unfold W. etrans; [by eapply commit_writes_off |].
      rewrite app_writes_noop; [done | apply Hlw | done].
    + done.
    + apply set_eq. intros x. split; [| apply app_writes_dom].
      destruct (decide (x ∈ W.*1)) as [Hx|Hx];
        [| rewrite !elem_of_dom; rewrite app_writes_notin by done; done].
      intros _. rewrite Hdom. unfold W, commit_writes in Hx.
      rewrite !fmap_app, !elem_of_app in Hx. simpl in Hx.
      destruct Hx as [Hx | [Hx | [Hx | Hx]]].
      * apply log_writes_key in Hx. apply (ld_log _ _ _ _ HD). pose proof (lw_room _ _ _ _ Hlw). lia.
      * apply list_elem_of_singleton in Hx as ->. apply (ld_log _ _ _ _ HD). lia.
      * apply Hbd. by eapply home_writes_key.
      * apply list_elem_of_singleton in Hx as ->. apply (ld_log _ _ _ _ HD). lia.
    + by eapply commit_final.
    + done.
    + exists W. split; [done |]. intros k.
      rewrite <- (app_writes_home_now _ _ _ _ ds Hc ltac:(apply Hlw) Hds). by apply commit_crash.
Qed.

Lemma layer_end_op s v now dsk bs :
  lrep s v now dsk bs → bv_held v = ∅ → bv_open v = 1 →
  wp end_op (λ _ s', (∃ now', lrep s' (bv_commit v) now' now' []) ∧
    curpid (l_bio s') = curpid (l_bio s) ∧
    ∃ W, writes (l_bio s') = writes (l_bio s) ++ W ∧ atomic_writes W (length bs) dsk now) s.
Proof.
  intros H Hheld Ho. destruct (lr_open _ _ _ _ _ H) as [Eo _]. pose proof (lr_busy _ _ _ _ _ H) as Eb.
  unfold end_op, put_log. wp_steps. rewrite Eb, Eo, Ho.
  rewrite decide_True by done. wp_steps. cbn [l_bio l_log].
  pose proof (lr_cache _ _ _ _ _ H) as Hc. rewrite Hheld in Hc.
  eapply wp_mono; [apply (layer_commit _ now dsk bs) |]; cbn [l_bio l_log].
  - destruct (lr_log _ _ _ _ _ H). by split.
  - done.
  - apply (lr_hdr _ _ _ _ _ H).
  - intros _ s' (now' & dsk' & H1 & Hlw' & E1 & E2 & E3 & <- & E5 & Hh & Ep & HW). wp_steps.
    split; [| done]. exists now'. cbn [l_bio l_log].
    split; cbn [l_bio l_log bv_commit bv_held bv_now bv_disk bv_log bv_open]; try done.
    + by destruct Hlw'.
    + by rewrite (lr_now _ _ _ _ _ H).
    + by rewrite (lr_now _ _ _ _ _ H).
    + rewrite E5. apply (lr_range _ _ _ _ _ H).
Qed.
End Layer.

(** ** The instance *)
Section Instance_.
Context (start size : Z) (Hsize : 1 <= size <= LOGSIZE).

Definition layer_rep (s : lst) (v : bview) : Prop := ∃ now dsk bs, lrep start size s v now dsk bs.

#[export, refine] Instance lst_layer_ok : BlockLayerOk lst := {
  bl_rep := layer_rep;
  bl_handle := lheld;
  bl_cap := Z.to_nat (size - 1);
}.
Proof.
  - params. lia.
  - intros s v (now & dsk & bs & H) b d Hd. rewrite (lr_now _ _ _ _ _ _ _ H) in Hd.
    apply fs_part_Some in Hd as [Hd _]. by apply (crep_lengths _ _ (lr_cache _ _ _ _ _ _ _ H)) in Hd.
  - intros s v i b (now & dsk & bs & H) Hh.
    destruct (lrep_handle _ _ _ _ _ _ _ _ _ H Hh) as (H1 & H2 & H3 & _). split; [done |].
    by rewrite (lr_now _ _ _ _ _ _ _ H), fs_part_off.
  - intros s v b (now & dsk & bs & H) Hh Hl.
    rewrite (lr_now _ _ _ _ _ _ _ H), (lr_dsk _ _ _ _ _ _ _ H). unfold fs_part.
    rewrite !map_lookup_filter. pose proof (cr_clean _ _ (lr_cache _ _ _ _ _ _ _ H) b) as E.
    simpl in E. rewrite E; [done |]. rewrite (lr_bs _ _ _ _ _ _ _ H) in Hl. unfold v_used. set_solver.
  - intros s v (now & dsk & bs & H). pose proof (lr_log _ _ _ _ _ _ _ H) as Hlw.
    rewrite (lr_bs _ _ _ _ _ _ _ H), (lr_now _ _ _ _ _ _ _ H). split.
    + intros b Hb. apply elem_of_list_to_set in Hb.
      pose proof (lw_home _ _ _ _ Hlw) as Hh. rewrite Forall_forall in Hh.
      apply elem_of_dom. rewrite fs_part_off by (by apply Hh). apply elem_of_dom.
      pose proof (cr_dom _ _ (lr_cache _ _ _ _ _ _ _ H)) as Hd. simpl in Hd. rewrite Hd.
      apply (cr_used _ _ (lr_cache _ _ _ _ _ _ _ H)). unfold v_used. simpl. set_solver.
    + rewrite size_list_to_set by apply Hlw. pose proof (lw_room _ _ _ _ Hlw). lia.
  - intros s v b (now & dsk & bs & H) H1 H2 H3.
    eapply wp_mono; [by eapply layer_bread |]. intros i s' (H4 & H5 & H6 & H7).
    split_and!; try done. by exists now, dsk, bs.
  - intros s v i b d (now & dsk & bs & H) H1 H2.
    eapply wp_mono; [by eapply layer_set |]. intros _ s' (H4 & H6 & H7).
    split_and!; try done. by exists (<[b:=d]> now), dsk, bs.
  - intros s v i b (now & dsk & bs & H) H1 H2 H3.
    eapply wp_mono; [by eapply layer_log_write |]. intros _ s' ([bs' H4] & H6 & H7).
    split_and!; try done. by exists now, dsk, bs'.
  - intros s v i b (now & dsk & bs & H) H1 H2.
    eapply wp_mono; [by eapply layer_brelse |]. intros _ s' (H4 & H6 & H7).
    split_and!; try done. by exists now, dsk, bs.
  - intros s v (now & dsk & bs & H) H1.
    eapply wp_mono; [by eapply layer_begin_op |]. intros _ s' [H4 H6].
    split; [by exists now, dsk, bs |]. simpl. by rewrite H6.
  - intros s v (now & dsk & bs & H) H1 H2.
    eapply wp_mono; [by eapply layer_end_op |]. intros _ s' [[now' H4] [H6 _]].
    split; [by exists now', now', [] | done].
Defined.
End Instance_.
