(* ===== verification/CrashSafety.v ===== *)
(** * Crash safety: the theorems

    What the log promises its users and what its recovery code does, for
    the whole stack [log.c] over [bio.c]: a transaction is atomic however
    many of its disk writes a crash lets through, recovery may be repeated,
    the header survives the disk, and where the code falls short of its own
    intent. *)
From S2P Require Import Prelude Params Locks Bio Cache Log Recovery BlockLayer LogLayer.

(** ** A concrete disk and a concrete transaction *)
Definition disk0 : gmap Z block :=
  list_to_map ((λ k : nat, (Z.of_nat k, zero_block)) <$> seq 0 64).

Lemma disk0_lookup b : disk0 !! b = if decide (0 <= b < 64) then Some zero_block else None.
Proof.
  unfold disk0. case_decide as Hb.
  - apply elem_of_list_to_map_1.
    + rewrite <- list_fmap_compose. apply NoDup_fmap_2_strong; [| apply NoDup_seq].
      intros x y _ _. simpl. lia.
    + apply list_elem_of_fmap. exists (Z.to_nat b). rewrite elem_of_seq, Z2Nat.id by lia.
      split; [done | lia].
  - apply not_elem_of_list_to_map_1. intros ([k d] & -> & Hk)%list_elem_of_fmap.
    apply list_elem_of_fmap in Hk as (j & [= -> ->] & Hj%elem_of_seq). simpl in Hb. lia.
Qed.

Lemma disk0_dom b : b ∈ dom disk0 ↔ 0 <= b < 64.
Proof. rewrite elem_of_dom, disk0_lookup. case_decide; split; intros E; done || by destruct E. Qed.

Lemma hdr_n_zero : hdr_n zero_block = 0.
Proof. vm_compute. reflexivity. Qed.

Lemma disk0_log : log_disk 2 30 zero_block disk0.
Proof.
  assert (hdr_blocks zero_block = []) as Hb by (unfold hdr_blocks; by rewrite hdr_n_zero).
  split; rewrite ?Hb, ?hdr_n_zero.
  - rewrite disk0_lookup. by rewrite decide_True by lia.
  - intros b d. rewrite disk0_lookup. case_decide; [| done]. intros [= <-]. apply zero_block_length.
  - lia.
  - params. lia.
  - constructor.
  - constructor.
  - intros x Hx. apply disk0_dom. lia.
  - intros b Hx. by apply not_elem_of_nil in Hx.
Qed.

(** A booted system with an idle log. *)
Definition idle_lst (start size : Z) (D : gmap Z block) (pid : Z) : lst :=
  Lst (boot D pid) (Log start size 0 false ROOTDEV 0 (replicate logsize 0)).
Definition idle_view (start size : Z) (D : gmap Z block) : bview :=
  BView (fs_part start size D) (fs_part start size D) ∅ ∅ 0.

Lemma idle_rep start size h D pid :
  log_disk start size h D → hdr_n h = 0 → (∀ b, b ∈ dom D → 0 <= b < 2 ^ 31) →
  layer_rep start size (idle_lst start size D pid) (idle_view start size D).
Proof.
  intros HD Hh Hr. exists D, D, []. pose proof (ld_n _ _ _ _ HD). pose proof (ld_geom _ _ _ _ HD).
  constructor; unfold idle_lst; cbn [l_log l_bio bv_held bv_now bv_disk bv_log bv_open idle_view
    lg_outstanding lg_committing list_to_set].
  - split; cbn [lg_dev lg_start lg_size lh_n lh_block length]; try done.
    + params. lia.
    + constructor.
  - apply boot_crep, HD.
  - reflexivity.
  - reflexivity.
  - reflexivity.
  - split; [reflexivity | lia].
  - reflexivity.
  - exact Hr.
  - set_solver.
  - by exists h.
Qed.

(** One transaction that updates block [b], not yet ended. *)
Definition update_block (b : Z) (d : block) : M lst unit :=
  begin_op;;
  let! i := on_bio (bread ROOTDEV b) in
  log_and_release i d.

Lemma update_block_rep start size s v b d :
  1 < size <= LOGSIZE → layer_rep start size s v → bv_held v = ∅ → bv_log v = ∅ → bv_open v = 0 →
  b ∈ dom (bv_now v) → length d = bsize →
  wp (update_block b d) (λ _ s', layer_rep start size s' (bv_upd b d (bv_reopen 1 v))) s.
Proof.
  intros Hs Hr Hheld Hlog Ho Hb Hd.
  pose (HB := lst_layer_ok start size ltac:(lia)). unfold update_block. wp_steps.
  eapply wp_mono; [eapply (bl_begin_ok (BlockLayerOk := HB) _ _ Hr) |].
  { rewrite Ho, Hlog, size_empty. params. lia. }
  rewrite Ho. intros _ s1 [R1 _]. wp_steps.
  eapply wp_mono; [apply (bl_bread_ok (BlockLayerOk := HB) _ _ b R1) |].
  { done. }
  { simpl. rewrite Hheld. set_solver. }
  { right. simpl. rewrite Hheld, Hlog, union_empty_l_L, size_empty. params. lia. }
  intros i s2 (R2 & Hh & _ & _).
  eapply wp_mono; [apply (log_and_release_ok (H0 := HB) s2 (bv_reopen 1 v) i b d R2 Hh) |].
  { simpl. rewrite Hheld. set_solver. }
  { done. }
  { simpl. rewrite Hlog, size_empty. lia. }
  { simpl. lia. }
  by intros _ s3 [R3 _].
Qed.

Definition ones_block : block := replicate bsize 1.
Definition busy0 : lst := final (update_block 40 ones_block) (idle_lst 2 30 disk0 7).
Definition busy_view0 : bview := bv_upd 40 ones_block (bv_reopen 1 (idle_view 2 30 disk0)).

Lemma busy0_rep : layer_rep 2 30 busy0 busy_view0.
Proof.
  assert (Hi : layer_rep 2 30 (idle_lst 2 30 disk0 7) (idle_view 2 30 disk0)).
  { apply (idle_rep _ _ _ _ _ disk0_log hdr_n_zero). intros b. rewrite disk0_dom. lia. }
  assert (Hw : wp (update_block 40 ones_block) (λ _ s', layer_rep 2 30 s' busy_view0) (idle_lst 2 30 disk0 7)).
  { apply (update_block_rep 2 30 _ _ 40 ones_block); [params; lia | exact Hi | reflexivity.. | |].
    - cbn [idle_view bv_now]. apply elem_of_dom. rewrite fs_part_off by (unfold off_log; lia).
      apply elem_of_dom, disk0_dom. lia.
    - apply length_replicate. }
  destruct (wp_final _ _ _ Hw) as (a & _ & H). exact H.
Qed.

(** ** Atomicity *)

(** What a reboot on disk [D] gives the file system. *)
Definition boots_to (start size : Z) (D : gmap Z block) (contents : gmap Z block) : Prop :=
  ∀ pid, wp (initlog ROOTDEV start size)
    (λ _ s, fs_part start size (disk (l_bio s)) = contents) (boot_lst D pid).

Lemma boots_to_recovered start size h D D' :
  log_disk start size h D → same_off start size (recovered start D) D' →
  boots_to start size D (fs_part start size D').
Proof.
  intros HD Hs pid. eapply wp_mono; [by eapply initlog_recovered |]. intros _ s [H _].
  apply fs_part_same. by etrans.
Qed.

(** C1: [end_op] of the last system call of a transaction returns, and the
    transaction is atomic: if the machine stops after any number [k] of the
    disk writes [end_op] makes, the next boot's [initlog] returns and leaves
    either all of the old contents of the file system (no more than the
    logged blocks had been copied) or all of the new ones, never a mixture. *)
Theorem end_op_crash_atomic start size s v :
  layer_rep start size s v → bv_held v = ∅ → bv_open v = 1 →
  wp end_op (λ _ s', ∃ W, writes (l_bio s') = writes (l_bio s) ++ W ∧
    ∀ k : nat, boots_to start size (app_writes (take k W) (disk (l_bio s)))
      (if decide (k ≤ base.size (bv_log v))%nat then bv_disk v else bv_now v)) s.
Proof.
  intros (now & dsk & bs & H) Hheld Ho.
  eapply wp_mono; [by eapply layer_end_op |]. intros _ s' (_ & _ & W & HW & Hat).
  exists W. split; [done |]. intros k. destruct (Hat k) as [[h HD] Hs].
  rewrite (cr_disk _ _ (lr_cache _ _ _ _ _ _ _ H)). cbn [v_disk].
  rewrite (lr_bs _ _ _ _ _ _ _ H), size_list_to_set by apply (lr_log _ _ _ _ _ _ _ H).
  rewrite (lr_now _ _ _ _ _ _ _ H), (lr_dsk _ _ _ _ _ _ _ H).
  destruct (decide (k ≤ length bs)%nat); by eapply boots_to_recovered.
Qed.

Lemma end_op_crash_atomic_witness :
  bv_log busy_view0 ≠ ∅ ∧
  wp end_op (λ _ s', ∃ W, writes (l_bio s') = writes (l_bio busy0) ++ W ∧
    ∀ k : nat, boots_to 2 30 (app_writes (take k W) (disk (l_bio busy0)))
      (if decide (k ≤ base.size (bv_log busy_view0))%nat then bv_disk busy_view0 else bv_now busy_view0)) busy0.
Proof.
  split; [cbn [busy_view0 bv_upd bv_log]; set_solver |].
  apply (end_op_crash_atomic 2 30 busy0 busy_view0 busy0_rep); reflexivity.
Defined.

(** C12: Recovery may itself be interrupted: [initlog] on any disk with a
    well-formed log returns, and a crash after any number of the writes it
    makes leaves a disk from which a second boot recovers the same file
    system contents as an uninterrupted one. *)
Theorem recovery_restartable start size h D pid :
  log_disk start size h D →
  wp (initlog ROOTDEV start size) (λ _ s',
    ∀ k : nat, boots_to start size (app_writes (take k (writes (l_bio s'))) D)
      (fs_part start size (disk (l_bio s')))) (boot_lst D pid).
Proof.
  intros HD. eapply wp_mono; [apply wp_conj; [by eapply initlog_spec | by eapply initlog_recovered] |].
  intros _ s' [(_ & _ & EW) [Hs _]] k. rewrite EW.
  destruct (recover_crash _ _ _ _ HD k) as [[h' HD'] Hr].
  eapply boots_to_recovered; [done |]. etrans; [exact Hr |]. by symmetry.
Qed.

(** A disk whose log holds one committed, not yet installed, block. *)
Definition hdr1 : block := hdr_store 1 [40] zero_block.
Definition disk1 : gmap Z block := <[3 := ones_block]> (<[2 := hdr1]> disk0).

Lemma hdr1_spec : length hdr1 = bsize ∧ hdr_n hdr1 = 1 ∧ hdr_blocks hdr1 = [40].
Proof. vm_compute. done. Qed.

Lemma disk1_log : log_disk 2 30 hdr1 disk1.
Proof.
  destruct hdr1_spec as (Hl & Hn & Hb). pose proof disk0_log as [A1 A2 A3 A4 A5 A6 A7 A8].
  split; rewrite ?Hb, ?Hn.
  - unfold disk1. rewrite lookup_insert_ne by lia. by rewrite lookup_insert_eq.
  - unfold disk1. apply map_Forall_insert_2; [apply length_replicate |].
    by apply map_Forall_insert_2.
  - lia.
  - params. lia.
  - apply NoDup_singleton.
  - repeat constructor; lia.
  - intros x Hx. unfold disk1. rewrite !dom_insert_L, !elem_of_union. right. right. by apply A7.
  - intros b ->%list_elem_of_singleton. unfold disk1. rewrite !dom_insert_L, !elem_of_union.
    right. right. apply disk0_dom. lia.
Qed.

Lemma recovery_restartable_witness :
  hdr_n hdr1 = 1 ∧
  wp (initlog ROOTDEV 2 30) (λ _ s',
    ∀ k : nat, boots_to 2 30 (app_writes (take k (writes (l_bio s'))) disk1)
      (fs_part 2 30 (disk (l_bio s')))) (boot_lst disk1 7).
Proof. split; [vm_compute; reflexivity | apply (recovery_restartable 2 30 hdr1 disk1 7 disk1_log)]. Defined.

(** Recovery installs exactly what the log recorded: after [initlog]
    every home block named in the header holds the logged copy, every other
    block outside the log is as it was, and the header on the disk is
    cleared so that the log is empty. *)
Theorem initlog_installs start size h D pid :
  log_disk start size h D →
  wp (initlog ROOTDEV start size) (λ _ s',
    (∀ (k : nat) b, hdr_blocks h !! k = Some b → disk (l_bio s') !! b = D !! (start + 1 + Z.of_nat k)) ∧
    (∀ x, x ∉ hdr_blocks h → ¬ (start <= x < start + size) → disk (l_bio s') !! x = D !! x) ∧
    (∃ h', disk (l_bio s') !! start = Some h' ∧ hdr_n h' = 0) ∧
    lh_n (l_log s') = 0) (boot_lst D pid).
Proof.
  intros HD. eapply wp_mono; [apply wp_conj; [by eapply initlog_spec | by eapply initlog_recovered] |].
  intros _ s' [(_ & (Hlw & _) & _) [Hs (h' & HD' & Hn')]].
  rewrite (recovered_eq _ _ _ _ HD) in Hs. split_and!.
  - intros k b Hb. pose proof (ld_home _ _ _ _ HD) as Hh. rewrite Forall_lookup in Hh.
    rewrite Hs by (by eapply Hh).
    assert (is_Some (log_data_of start h D !! k)) as [d Hd].
    { apply lookup_lt_is_Some_2. rewrite log_data_length. by eapply lookup_lt_Some. }
    rewrite (log_data_lookup _ _ _ _ _ _ HD Hd).
    apply app_writes_in; [apply home_writes_nodup, HD |].
    apply list_elem_of_lookup. exists k. apply lookup_zip_with_Some. eauto.
  - intros x Hx Hoff. rewrite Hs by done. apply app_writes_notin. by intros E%home_writes_key.
  - exists h'. split; [apply HD' | done].
  - by rewrite (lw_n _ _ _ _ Hlw).
Qed.

Lemma initlog_installs_witness :
  wp (initlog ROOTDEV 2 30) (λ _ s',
    (∀ (k : nat) b, hdr_blocks hdr1 !! k = Some b → disk (l_bio s') !! b = disk1 !! (2 + 1 + Z.of_nat k)) ∧
    (∀ x, x ∉ hdr_blocks hdr1 → ¬ (2 <= x < 2 + 30) → disk (l_bio s') !! x = disk1 !! x) ∧
    (∃ h', disk (l_bio s') !! 2 = Some h' ∧ hdr_n h' = 0) ∧
    lh_n (l_log s') = 0) (boot_lst disk1 7).
Proof. apply (initlog_installs 2 30 hdr1 disk1 7 disk1_log). Defined.

(** ** Where recovery and reservation fall short *)

(** [install_trans] releases a pin that recovery never took: after
    [initlog] every home block it installed sits in a buffer whose
    reference count has wrapped to [2^32 - 1], so that buffer is never
    recycled (and the next reader takes its count to 0 while using it). *)
Theorem recovery_leaks_buffers start size h D pid b :
  log_disk start size h D → b ∈ hdr_blocks h →
  wp (initlog ROOTDEV start size) (λ _ s',
    ∃ i, caches (l_bio s') i b ∧ b_refcnt (buf_at i (l_bio s')) = 2 ^ 32 - 1) (boot_lst D pid).
Proof.
  intros HD Hb. eapply wp_mono; [by eapply initlog_spec |]. intros _ s' (Hc & _ & _).
  set (v := v_done _ _ _) in Hc.
  assert (Hu : b ∈ v_used v) by (unfold v, v_used; simpl; set_solver).
  destruct (crep_now _ _ _ Hc Hu) as [d Hd].
  pose proof (cmap_Some (mine (l_bio s')) v b d Hu Hd) as Hm.
  destruct (br_dom _ _ (cr_rep _ _ Hc) _ _ Hm) as [i (Hi & Hdev & Hbn)].
  exists i. split; [by split_and! |].
  destruct (br_ok _ _ (cr_rep _ _ Hc) i Hi) as [_ Hok]. rewrite decide_True, Hbn, Hm in Hok by done.
  destruct Hok as (_ & Href & _). rewrite Href. cbn [c_ref]. unfold v_ref, one, v. simpl.
  rewrite (decide_True (P := b ∈ list_to_set (hdr_blocks h))) by set_solver.
  rewrite !decide_False by set_solver. done.
Qed.

Lemma recovery_leaks_buffers_witness :
  wp (initlog ROOTDEV 2 30) (λ _ s',
    ∃ i, caches (l_bio s') i 40 ∧ b_refcnt (buf_at i (l_bio s')) = 2 ^ 32 - 1) (boot_lst disk1 7).
Proof.
  apply (recovery_leaks_buffers 2 30 hdr1 disk1 7 40 disk1_log).
  vm_compute. left.
Defined.

Lemma log_write_full start size s v i :
  layer_rep start size s v → Z.of_nat (base.size (bv_log v)) = size - 1 →
  log_write i s = Panic "too big a transaction".
Proof.
  intros (now & dsk & bs & H) Hfull. pose proof (lr_log _ _ _ _ _ _ _ H) as Hlw.
  rewrite (lr_bs _ _ _ _ _ _ _ H), size_list_to_set in Hfull by apply Hlw.
  unfold log_write, bind, gets. rewrite (lw_n _ _ _ _ Hlw), (lw_size _ _ _ _ Hlw).
  rewrite decide_True by lia. done.
Qed.

(** A system call that updates the blocks [bs]. *)
Definition log_blocks (d : block) (bs : list Z) : M lst unit :=
  foldr (λ b m, (let! i := on_bio (bread ROOTDEV b) in log_and_release i d);; m) (ret tt) bs.

Lemma log_blocks_rep start d bs s v :
  layer_rep start LOGSIZE s v → bv_held v = ∅ → 1 <= bv_open v → length d = bsize →
  NoDup bs → (∀ b, b ∈ bs → b ∈ dom (bv_now v) ∧ b ∉ bv_log v) →
  (base.size (bv_log v) + length bs < logsize)%nat →
  wp (log_blocks d bs) (λ _ s', ∃ v', layer_rep start LOGSIZE s' v' ∧ bv_held v' = ∅ ∧ bv_open v' = bv_open v ∧
    base.size (bv_log v') = (base.size (bv_log v) + length bs)%nat ∧ dom (bv_now v) ⊆ dom (bv_now v') ∧
    ∀ b, b ∈ bv_log v' → b ∈ bv_log v ∨ b ∈ bs) s.
Proof.
  pose (HB := lst_layer_ok start LOGSIZE ltac:(params; lia)).
  intros Hr Hheld Ho Hd Hnd Hin Hsz. revert s v Hr Hheld Ho Hin Hsz.
  induction Hnd as [|b bs Hb Hnd IH]; intros s v Hr Hheld Ho Hin Hsz; unfold log_blocks; cbn [foldr].
  { wp_step. exists v. split_and!; try done; simpl; first [lia | by left]. }
  fold (log_blocks d bs). destruct (Hin b) as [Hbd Hbl]; [by left |]. cbn [length] in Hsz.
  wp_steps. eapply wp_mono; [apply (bl_bread_ok (BlockLayerOk := HB) _ _ b Hr) |].
  { done. }
  { rewrite Hheld. set_solver. }
  { right. rewrite Hheld, union_empty_l_L. params. lia. }
  intros i s1 (R1 & Hh & _ & _).
  eapply wp_mono; [apply (log_and_release_ok (H0 := HB) s1 v i b d R1 Hh) |].
  { rewrite Hheld. set_solver. }
  { done. }
  { unfold bl_cap, HB, lst_layer_ok. params. lia. }
  { done. }
  intros _ s2 [R2 _]. assert (Hsz2 : base.size (bv_log (bv_upd b d v)) = S (base.size (bv_log v))).
  { simpl. rewrite size_union, size_singleton by set_solver. lia. }
  eapply wp_mono; [apply (IH s2 (bv_upd b d v) R2) |].
  { done. }
  { done. }
  { intros x Hx. destruct (Hin x) as [H1 H2]; [by right |]. simpl. split; [set_solver |]. set_solver. }
  { lia. }
  intros _ s3 (v' & R3 & E1 & E2 & E3 & E4 & E5). exists v'. split_and!; try done.
  - rewrite E3, Hsz2. simpl. lia.
  - simpl in E4. set_solver.
  - intros x Hx. destruct (E5 x Hx) as [Hx'|Hx']; [simpl in Hx'; set_solver | set_solver].
Qed.

(** C37: [begin_op] lets three system calls of [MAXOPBLOCKS] blocks each
    into a log area of [LOGSIZE] blocks, but one of these blocks is the
    header: when the three calls, none of which exceeds its reservation,
    update [3 * MAXOPBLOCKS] distinct blocks, all goes well up to the last
    one, whose [log_write] panics. *)
Theorem log_write_full_panics start s v d b1 b2 b3 b :
  layer_rep start LOGSIZE s v → bv_held v = ∅ → bv_log v = ∅ → bv_open v = 0 → length d = bsize →
  Z.of_nat (length b1) = MAXOPBLOCKS → Z.of_nat (length b2) = MAXOPBLOCKS → Z.of_nat (length (b3 ++ [b])) = MAXOPBLOCKS →
  NoDup (b1 ++ b2 ++ b3 ++ [b]) → Forall (λ x, x ∈ dom (bv_now v)) (b1 ++ b2 ++ b3 ++ [b]) →
  wp (begin_op;; begin_op;; begin_op;;
      log_blocks d b1;; log_blocks d b2;; log_blocks d b3;;
      on_bio (bread ROOTDEV b))
    (λ i s', lg_outstanding (l_log s') = 3 ∧ log_write i s' = Panic "too big a transaction") s.
Proof.
  intros Hr Hheld Hlog Ho Hd L1 L2 L3 Hnd Hdom. pose (HB := lst_layer_ok start LOGSIZE ltac:(params; lia)).
  rewrite length_app in L3. cbn [length] in L3. unfold MAXOPBLOCKS in *. rewrite Forall_forall in Hdom.
  apply NoDup_app in Hnd as (N1 & D1 & (N2 & D2 & (N3 & D3 & _)%NoDup_app)%NoDup_app).
  wp_steps. eapply wp_mono; [eapply (bl_begin_ok (BlockLayerOk := HB) _ _ Hr) |].
  { rewrite Ho, Hlog, size_empty. params. lia. }
  intros _ s1 [R1 _]. wp_steps. eapply wp_mono; [eapply (bl_begin_ok (BlockLayerOk := HB) _ _ R1) |].
  { cbn. rewrite Ho, Hlog, size_empty. params. lia. }
  intros _ s2 [R2 _]. wp_steps. eapply wp_mono; [eapply (bl_begin_ok (BlockLayerOk := HB) _ _ R2) |].
  { cbn. rewrite Ho, Hlog, size_empty. params. lia. }
  cbn [bv_open bv_reopen]. rewrite Ho. intros _ s3 [R3 _]. wp_steps.
  eapply wp_mono; [apply (log_blocks_rep start d b1 s3 _ R3); try done; simpl; rewrite ?Hlog, ?size_empty |].
  { intros x Hx. split; [apply Hdom; set_solver | set_solver]. }
  { params. lia. }
  intros _ s4 (v4 & R4 & A1 & A2 & A3 & A4 & A5). simpl in A2, A3, A4, A5. wp_steps.
  eapply wp_mono; [apply (log_blocks_rep start d b2 s4 v4 R4); try done; try lia |].
  { intros x Hx. split; [apply A4, Hdom; set_solver |]. intros [?|?]%A5; set_solver. }
  { rewrite A3, Hlog, size_empty. params. lia. }
  intros _ s5 (v5 & R5 & B1 & B2 & B3 & B4 & B5). wp_steps.
  eapply wp_mono; [apply (log_blocks_rep start d b3 s5 v5 R5); try done; try lia |].
  { intros x Hx. split; [apply B4, A4, Hdom; set_solver |]. intros [[?|?]%A5|?]%B5; set_solver. }
  { rewrite B3, A3, Hlog, size_empty. params. lia. }
  intros _ s6 (v6 & R6 & C1 & C2 & C3 & C4 & C5). cbv beta.
  assert (Hfull : base.size (bv_log v6) = 29%nat) by (rewrite C3, B3, A3, Hlog, size_empty; lia).
  eapply wp_mono; [apply (bl_bread_ok (BlockLayerOk := HB) _ _ b R6) |].
  { apply C4, B4, A4, Hdom. set_solver. }
  { rewrite C1. set_solver. }
  { right. rewrite C1, union_empty_l_L, Hfull. params. lia. }
  intros i s7 (R7 & _). split.
  - destruct R7 as (now & dsk & bs & H7). destruct (lr_open _ _ _ _ _ _ _ H7) as [-> _]. simpl. lia.
  - eapply log_write_full; [exact R7 |]. simpl. rewrite Hfull. done.
Qed.

(** The thirty blocks after the log area of a small disk. *)
Lemma log_write_full_panics_witness :
  wp (begin_op;; begin_op;; begin_op;;
      log_blocks ones_block (seqZ 32 10);; log_blocks ones_block (seqZ 42 10);; log_blocks ones_block (seqZ 52 9);;
      on_bio (bread ROOTDEV 61))
    (λ i s', lg_outstanding (l_log s') = 3 ∧ log_write i s' = Panic "too big a transaction") (idle_lst 2 30 disk0 7).
Proof.
  apply (log_write_full_panics 2 _ (idle_view 2 30 disk0) ones_block (seqZ 32 10) (seqZ 42 10) (seqZ 52 9) 61).
  - apply (idle_rep _ _ _ _ _ disk0_log hdr_n_zero). intros b. rewrite disk0_dom. lia.
  - reflexivity.
  - reflexivity.
  - reflexivity.
  - apply length_replicate.
  - reflexivity.
  - reflexivity.
  - reflexivity.
  - change (NoDup (seqZ 32 30)). apply NoDup_seqZ.
  - apply Forall_forall. change (seqZ 32 10 ++ seqZ 42 10 ++ seqZ 52 9 ++ [61]) with (seqZ 32 30).
    intros x Hx%elem_of_seqZ. cbn [idle_view bv_now]. apply elem_of_dom. rewrite fs_part_off by (unfold off_log; lia).
    apply elem_of_dom, disk0_dom. lia.
Defined.

(** The transaction bracket: a system call enters ([begin_op] returns
    with one more outstanding operation) exactly when no commit is running
    and the log has room for [MAXOPBLOCKS] more blocks per open call;
    otherwise it goes to sleep on the log without changing anything. *)
Theorem begin_op_admission s :
  let lg := l_log s in
  begin_op s =
    if lg_committing lg || bool_decide (lh_n lg + (lg_outstanding lg + 1) * MAXOPBLOCKS > LOGSIZE)
    then Wait "log" s
    else Ret tt (Lst (l_bio s) (set_outstanding (lg_outstanding lg + 1) lg)).
Proof.
  cbv zeta. unfold begin_op, bind, gets, sleep_on, put_log, modify.
  destruct (lg_committing (l_log s)); [done |]. simpl.
  destruct (decide _) as [H|H]; [by rewrite bool_decide_true | by rewrite bool_decide_false].
Qed.

(** [write_head] then [read_head] is the identity on the header: the
    count and the block numbers that go to the disk are the ones a later
    boot reads back, whatever else the header block contained. *)
Theorem header_roundtrip (bs : list Z) (rest : list Z) (d : block) :
  length d = bsize → (length bs ≤ logsize)%nat → Forall (λ b, 0 <= b < 2 ^ 31) bs →
  let d' := hdr_store (Z.of_nat (length bs)) (bs ++ rest) d in
  length d' = bsize ∧ hdr_n d' = Z.of_nat (length bs) ∧ hdr_blocks d' = bs.
Proof.
  intros Hd Hn Hb d'.
  destruct (hdr_store_spec (Z.of_nat (length bs)) (bs ++ rest) d Hd) as (H1 & H2 & H3); [params; lia |].
  fold d' in H1, H2, H3. split_and!; [done | done |].
  apply list_eq. intros k. destruct (decide (k < length bs)%nat) as [Hk|Hk].
  - rewrite hdr_blocks_lookup by lia. rewrite H3 by lia.
    destruct (lookup_lt_is_Some_2 _ _ Hk) as [b Hbk]. rewrite Hbk. f_equal.
    rewrite list_lookup_total_alt, lookup_app_l, Hbk by done. simpl.
    rewrite Forall_lookup in Hb. specialize (Hb _ _ Hbk). apply s32_small. lia.
  - rewrite !lookup_ge_None_2; [done | lia |]. rewrite hdr_blocks_length. lia.
Qed.

Lemma header_roundtrip_witness :
  let d' := hdr_store 2 [45; 46; 0; 0] zero_block in
  length d' = bsize ∧ hdr_n d' = 2 ∧ hdr_blocks d' = [45; 46].
Proof.
  apply (header_roundtrip [45; 46] [0; 0] zero_block).
  - apply zero_block_length.
  - params. simpl. lia.
  - repeat constructor; lia.
Defined.
