(* ===== verification/Raid.v ===== *)
(** * The disk failure hooks ([kernel/sysproc.c]) and what they do to a
      transaction

    [sys_force_fail] and [sys_force_disk_fail] set the variables that make
    [bread] miss the cache.  The arguments are already fetched. *)
From S2P Require Import Prelude Params Locks Bio Cache Log Recovery BlockLayer LogLayer CrashSafety.

Definition set_force (pbn disk_id : Z) (s : bio) : bio :=
  Bio (bufs s) (disk s) (writes s) pbn disk_id (curpid s).

Definition sys_force_fail (pbn : Z) : M bio Z :=
  if decide (pbn >= LOGICAL_DISK_SIZE ∨ pbn < -1) then ret (-1)
  else modify (λ s, set_force pbn (force_disk_fail_id s) s);; ret 0.
Definition sys_get_force_fail : M bio Z := gets (λ s, u64 (force_read_error_pbn s)).
Definition sys_force_disk_fail (disk_id : Z) : M bio Z :=
  if decide (disk_id < -1 ∨ disk_id > 1) then ret (-1)
  else modify (λ s, set_force (force_read_error_pbn s) disk_id s);; ret 0.

(** [bget] of a cached block does not look at the hooks. *)
Lemma bget_cached s m b i p f :
  brep s m → caches s i b → sl_locked (b_lock (buf_at i s)) = false →
  bget ROOTDEV b (set_force p f s) =
  Ret i (upd_buf i (λ x, set_lock (SleepLock true (curpid s)) (set_refcnt (u32 (b_refcnt x + 1)) x)) (set_force p f s)).
Proof.
  intros H Hc Hl. pose proof (brep_len _ _ H) as Hlen. destruct (br_lru _ _ H) as [l Hlru].
  assert (Hi : (i < length (bufs s))%nat) by (destruct Hc; lia).
  unfold bget. unfold buf_at at 1. change (bufs (set_force p f s)) with (bufs s).
  rewrite (scan_next_lru _ _ _ Hlru), (find_cached _ _ _ _ _ H Hlru Hc).
  unfold bind, modify, buf_acquiresleep, acquiresleep.
  rewrite buf_at_upd_eq by done. change (buf_at i (set_force p f s)) with (buf_at i s).
  cbn [b_lock set_refcnt]. rewrite Hl. unfold ret, modify. f_equal. by rewrite upd_buf_upd.
Qed.

Lemma bread_forced s m b i d k :
  brep s m → caches s i b → sl_locked (b_lock (buf_at i s)) = false → disk s !! b = Some d → k ≠ -1 →
  ∃ s', bread ROOTDEV b (set_force (force_read_error_pbn s) k s) = Ret i s' ∧ b_data (buf_at i s') = d.
Proof.
  intros H Hc Hl Hd Hk. pose proof (brep_len _ _ H) as Hlen.
  assert (Hi : (i < length (bufs s))%nat) by (destruct Hc; lia).
  unfold bread, bind, gets. rewrite (bget_cached s m b i) by done. cbn [force_disk_fail_id set_force].
  rewrite (proj2 (Z.eqb_neq k (-1)) Hk). rewrite !orb_true_r.
  unfold disk_transfer. rewrite buf_at_upd_eq by done. change (buf_at i (set_force _ k s)) with (buf_at i s).
  cbn [b_blockno set_lock set_refcnt disk upd_buf set_force]. destruct Hc as (_ & _ & ->). rewrite Hd.
  unfold modify, ret. eexists. split; [reflexivity |]. rewrite upd_buf_upd, upd_buf_upd. by rewrite buf_at_upd_eq.
Qed.

(** C38: the failure hook loses updates: in an open transaction a block that
    was logged and released is read back from the cache with its new
    contents, as the log requires; once [sys_force_disk_fail] has been called
    the same [bread] overwrites the cached block with the old contents of the
    disk, and the transaction commits those. *)
Theorem forced_read_drops_update start size s v b k dnew dold :
  layer_rep start size s v → b ∈ bv_log v → b ∉ bv_held v →
  bv_now v !! b = Some dnew → bv_disk v !! b = Some dold → k = 0 ∨ k = 1 →
  (∃ i s1, bread ROOTDEV b (l_bio s) = Ret i s1 ∧ b_data (buf_at i s1) = dnew) ∧
  ∃ i s1 s2, sys_force_disk_fail k (l_bio s) = Ret 0 s1 ∧ bread ROOTDEV b s1 = Ret i s2 ∧
    b_data (buf_at i s2) = dold.
Proof.
  intros (now & dsk & bs & H) Hlog Hheld Hnow Hdisk Hk. set (B := l_bio s).
  pose proof (lr_cache _ _ _ _ _ _ _ H) as Hc. rewrite (lr_now _ _ _ _ _ _ _ H) in Hnow.
  rewrite (lr_dsk _ _ _ _ _ _ _ H) in Hdisk. rewrite (lr_bs _ _ _ _ _ _ _ H) in Hlog.
  apply fs_part_Some in Hnow as [Hnow _]. apply fs_part_Some in Hdisk as [Hdisk _].
  pose proof (cr_rep _ _ Hc) as Hr. fold B in Hr.
  assert (disk B !! b = Some dold) as Hd by (unfold B; rewrite (cr_disk _ _ Hc); exact Hdisk).
  match type of Hr with brep _ ?m =>
    assert (∃ c, m !! b = Some c ∧ c_data c = dnew ∧ sl_locked (c_lock c) = false) as (c & Hm & Hcd & Hcl) end.
  { eexists. split; [apply cmap_Some; [unfold v_used; cbn; set_solver | exact Hnow] |].
    cbn [c_data c_lock v_held]. by rewrite decide_False. }
  destruct (br_dom _ _ Hr b c Hm) as [i Hi]. pose proof (br_ok _ _ Hr i (proj1 Hi)) as [_ Hok].
  pose proof Hi as (Hlt & Hdev & Hbn). rewrite decide_True, Hbn, Hm in Hok by done.
  destruct Hok as (Hval & _ & Hlk & Hdat). assert (sl_locked (b_lock (buf_at i B)) = false) as Hul by congruence.
  pose proof (brep_len _ _ Hr) as Hlen. split.
  - exists i. eexists. split; [by apply (bread_cached B _ b i dold Hr) |].
    rewrite buf_at_upd_eq by lia. unfold grab. cbn. rewrite Hval. cbn. congruence.
  - destruct (bread_forced B _ b i dold k Hr) as (s2 & E & Hs2); [done | done | done | lia |].
    exists i, (set_force (force_read_error_pbn B) k B), s2. split; [| done].
    unfold sys_force_disk_fail. rewrite decide_False by lia. done.
Qed.

Lemma forced_read_drops_update_witness :
  ∃ i s1 s2, sys_force_disk_fail 0 (l_bio busy0) = Ret 0 s1 ∧ bread ROOTDEV 40 s1 = Ret i s2 ∧
    b_data (buf_at i s2) = zero_block.
Proof.
  apply (forced_read_drops_update 2 30 busy0 busy_view0 40 0 ones_block zero_block busy0_rep).
  - cbn [busy_view0 bv_upd bv_log]. set_solver.
  - cbn [busy_view0 bv_upd bv_held bv_reopen idle_view]. set_solver.
  - cbn [busy_view0 bv_upd bv_now]. apply lookup_insert_eq.
  - cbn [busy_view0 bv_upd bv_disk bv_reopen idle_view]. rewrite fs_part_off by (unfold off_log; lia).
    rewrite disk0_lookup. by rewrite decide_True by lia.
  - left. reflexivity.
Defined.
