(* ===== verification/Fs.v ===== *)
(** * The file system proper ([kernel/fs.c]): data and operations

    Everything of [fs.c] from the superblock to path names, written over the
    [BlockLayer] interface (the disk, through the log) and the [UserMem]
    interface (a process's memory, through its page table).  A
    [struct inode *] is an index into the inode cache; a null pointer is
    [None].  [printf] diagnostics are left out. *)
From S2P Require Import Prelude Params CString Locks BlockLayer.

(** What [copyout]/[copyin]/[copyinstr] of [kernel/vm.c] do to a process's
    memory: the return code, and the memory afterwards, or the bytes that
    were copied (also when the copy failed half way). *)
Class UserMem (U : Type) := {
  um_copyout : Z → list Z → U → Z * U;
  um_copyin : Z → nat → U → Z * list Z;
  um_copyinstr : Z → nat → U → option (list Z);
}.

(** ** On-disk and in-memory structures *)
Record superblock := Superblock {
  sb_magic : Z; sb_size : Z; sb_nblocks : Z; sb_ninodes : Z;
  sb_nlog : Z; sb_logstart : Z; sb_inodestart : Z; sb_bmapstart : Z;
}.

Record dinode := Dinode {
  d_size : Z; d_addrs : list Z; d_type : Z; d_nlink : Z; d_mode : Z; d_perm : Z;
}.

Record inode := Inode {
  i_dev : Z; i_inum : Z; i_ref : Z; i_lock : sleeplock; i_valid : bool;
  i_type : Z; i_major : Z; i_minor : Z; i_nlink : Z; i_size : Z; i_addrs : list Z;
  i_mode : Z; i_perm : Z;
}.

Definition ninode : nat := Z.to_nat NINODE.
Definition naddrs : nat := Z.to_nat (NDIRECT + 1).
Definition inode0 : inode :=
  Inode 0 0 0 initsleeplock false 0 0 0 0 0 (replicate naddrs 0) 0 0.
#[export] Instance inode_inhabited : Inhabited inode := populate inode0.

(** Field assignments through a [struct inode *]. *)
Definition set_ref (r : Z) (i : inode) : inode :=
  Inode (i_dev i) (i_inum i) r (i_lock i) (i_valid i) (i_type i) (i_major i) (i_minor i)
        (i_nlink i) (i_size i) (i_addrs i) (i_mode i) (i_perm i).
Definition set_ilock (l : sleeplock) (i : inode) : inode :=
  Inode (i_dev i) (i_inum i) (i_ref i) l (i_valid i) (i_type i) (i_major i) (i_minor i)
        (i_nlink i) (i_size i) (i_addrs i) (i_mode i) (i_perm i).
Definition set_ivalid (v : bool) (i : inode) : inode :=
  Inode (i_dev i) (i_inum i) (i_ref i) (i_lock i) v (i_type i) (i_major i) (i_minor i)
        (i_nlink i) (i_size i) (i_addrs i) (i_mode i) (i_perm i).
Definition set_type (t : Z) (i : inode) : inode :=
  Inode (i_dev i) (i_inum i) (i_ref i) (i_lock i) (i_valid i) t (i_major i) (i_minor i)
        (i_nlink i) (i_size i) (i_addrs i) (i_mode i) (i_perm i).
Definition set_device (ma mi : Z) (i : inode) : inode :=
  Inode (i_dev i) (i_inum i) (i_ref i) (i_lock i) (i_valid i) (i_type i) ma mi
        (i_nlink i) (i_size i) (i_addrs i) (i_mode i) (i_perm i).
Definition set_nlink (n : Z) (i : inode) : inode :=
  Inode (i_dev i) (i_inum i) (i_ref i) (i_lock i) (i_valid i) (i_type i) (i_major i) (i_minor i)
        n (i_size i) (i_addrs i) (i_mode i) (i_perm i).
Definition set_size (n : Z) (i : inode) : inode :=
  Inode (i_dev i) (i_inum i) (i_ref i) (i_lock i) (i_valid i) (i_type i) (i_major i) (i_minor i)
        (i_nlink i) n (i_addrs i) (i_mode i) (i_perm i).
Definition set_addr (k : nat) (a : Z) (i : inode) : inode :=
  Inode (i_dev i) (i_inum i) (i_ref i) (i_lock i) (i_valid i) (i_type i) (i_major i) (i_minor i)
        (i_nlink i) (i_size i) (<[k := a]> (i_addrs i)) (i_mode i) (i_perm i).
Definition set_perm (p : Z) (i : inode) : inode :=
  Inode (i_dev i) (i_inum i) (i_ref i) (i_lock i) (i_valid i) (i_type i) (i_major i) (i_minor i)
        (i_nlink i) (i_size i) (i_addrs i) (i_mode i) p.
(** The fields [ilock] fills in from the disk. *)
Definition set_dinode (d : dinode) (i : inode) : inode :=
  Inode (i_dev i) (i_inum i) (i_ref i) (i_lock i) true (d_type d) (i_major i) (i_minor i)
        (d_nlink d) (d_size d) (d_addrs d) (d_mode d) (d_perm d).
(** [iget] recycling a cache entry. *)
Definition recycle_inode (dev inum : Z) (i : inode) : inode :=
  Inode dev inum 1 (i_lock i) false (i_type i) (i_major i) (i_minor i)
        (i_nlink i) (i_size i) (i_addrs i) (i_mode i) (i_perm i).
(** The part of an in-memory inode that lives on the disk. *)
Definition inode_disk (i : inode) : dinode :=
  Dinode (i_size i) (i_addrs i) (i_type i) (i_nlink i) (i_mode i) (i_perm i).

(** ** Layout ([fs.h]) *)
Definition IBLOCK (i : Z) (sb : superblock) : Z := u32 (i / IPB + sb_inodestart sb).
Definition BBLOCK (b : Z) (sb : superblock) : Z := u32 (b / BPB + sb_bmapstart sb).

Definition sb_load (d : block) : superblock :=
  Superblock (ld32 0 d) (ld32 4 d) (ld32 8 d) (ld32 12 d)
             (ld32 16 d) (ld32 20 d) (ld32 24 d) (ld32 28 d).

(** Arrays of [uint]s. *)
Definition enc32s (l : list Z) : list Z := concat (le_enc 4 <$> l).
Definition ld32s (off n : nat) (d : block) : list Z := (λ k, ld32 (off + 4 * k) d) <$> seq 0 n.

Definition dinode_load (off : nat) (d : block) : dinode :=
  Dinode (ld32 off d) (ld32s (off + 4) naddrs d) (s16 (ld16 (off + 56) d))
         (s16 (ld16 (off + 58) d)) (s16 (ld16 (off + 60) d)) (s16 (ld16 (off + 62) d)).
(** The stores of [iupdate], in its order. *)
Definition dinode_store (off : nat) (x : dinode) (d : block) : block :=
  let d := st16 (off + 56) (d_type x) d in
  let d := st16 (off + 58) (d_nlink x) d in
  let d := st32 off (d_size x) d in
  let d := st16 (off + 60) (d_mode x) d in
  let d := st16 (off + 62) (d_perm x) d in
  splice (off + 4) (enc32s (d_addrs x)) d.
(** [(struct dinode * )bp->data + inum % IPB] *)
Definition dinode_off (inum : Z) : nat := Z.to_nat (inum mod IPB * DINODE_SIZE).

(** One bit of a bitmap block. *)
Definition bit_mask (bi : Z) : Z := Z.shiftl 1 (bi mod 8).
Definition byte_of (bi : Z) (d : block) : Z := d !!! Z.to_nat (bi / 8).
Definition bit_free (bi : Z) (d : block) : bool := Z.land (byte_of bi d) (bit_mask bi) =? 0.
Definition bit_mark (bi : Z) (d : block) : block :=
  <[Z.to_nat (bi / 8) := u8 (Z.lor (byte_of bi d) (bit_mask bi))]> d.
Definition bit_clear (bi : Z) (d : block) : block :=
  <[Z.to_nat (bi / 8) := u8 (Z.land (byte_of bi d) (Z.lnot (bit_mask bi)))]> d.

(** ** The file-system state *)
Record fst (S U : Type) := Fst {
  fs_bl : S;
  fs_sb : superblock;
  fs_icache : list inode;
  fs_cwd : nat;
  fs_mem : U;
}.
Arguments Fst {S U}.
Arguments fs_bl {S U}.
Arguments fs_sb {S U}.
Arguments fs_icache {S U}.
Arguments fs_cwd {S U}.
Arguments fs_mem {S U}.

(** [either_copyin]'s source and [either_copyout]'s target. *)
Inductive place := Kernel (data : list Z) | User (va : Z).

(** A pointer whose target is outside its array. *)
Definition oob {S A} : M S A := panic "out-of-bounds access".
Definition some_or_oob {S A} (o : option A) : M S A :=
  match o with Some x => ret x | None => oob end.

Section Ops.
Context {S U : Type} `{BlockLayer S} `{UserMem U}.

Definition bl {A} (m : M S A) : M (fst S U) A :=
  zoom fs_bl (λ b s, Fst b (fs_sb s) (fs_icache s) (fs_cwd s) (fs_mem s)) m.
Definition pid_of (s : fst S U) : Z := bl_pid (fs_bl s).
Definition ino (i : nat) (s : fst S U) : inode := fs_icache s !!! i.
Definition upd_ino (i : nat) (f : inode → inode) : M (fst S U) unit :=
  modify (λ s, Fst (fs_bl s) (fs_sb s) (alter f i (fs_icache s)) (fs_cwd s) (fs_mem s)).
Definition buf_data (bp : nat) : M (fst S U) block := gets (λ s, bl_data bp (fs_bl s)).
(** Read a block, keep nothing. *)
Definition bread (dev b : Z) : M (fst S U) nat := bl (bl_bread dev b).
Definition brelse (bp : nat) : M (fst S U) unit := bl (bl_brelse bp).
Definition log_write (bp : nat) : M (fst S U) unit := bl (bl_log_write bp).
Definition set_data (bp : nat) (d : block) : M (fst S U) unit := bl (bl_set_data bp d).

(** ** Superblock *)
Definition readsb (dev : Z) : M (fst S U) superblock :=
  let! bp := bread dev 1 in
  let! d := buf_data bp in
  brelse bp;;
  ret (sb_load d).

Definition fsinit (dev : Z) : M (fst S U) unit :=
  let! sb := readsb dev in
  modify (λ s, Fst (fs_bl s) sb (fs_icache s) (fs_cwd s) (fs_mem s));;
  if decide (sb_magic sb ≠ FSMAGIC) then panic "invalid file system"
  else bl (bl_initlog dev (sb_logstart sb) (sb_nlog sb)).

(** ** Blocks *)
Definition bzero (dev bno : Z) : M (fst S U) unit :=
  let! bp := bread dev bno in
  set_data bp (replicate bsize 0);;
  log_write bp;;
  brelse bp.

(** The first [bi < k] whose bit is clear. *)
Fixpoint find_free (k : nat) (bi : Z) (d : block) : option Z :=
  match k with
  | O => None
  | Datatypes.S k => if bit_free bi d then Some bi else find_free k (bi + 1) d
  end.

Fixpoint balloc_loop (fuel : nat) (dev b : Z) : M (fst S U) Z :=
  match fuel with
  | O => λ _, OutOfFuel
  | Datatypes.S fuel =>
      let! sb := gets fs_sb in
      if decide (b < sb_size sb) then
        let! bp := bread dev (BBLOCK b sb) in
        let! d := buf_data bp in
        match find_free (Z.to_nat (Z.min BPB (sb_size sb - b))) 0 d with
        | Some bi =>
            set_data bp (bit_mark bi d);;
            log_write bp;;
            brelse bp;;
            bzero dev (b + bi);;
            ret (b + bi)
        | None => brelse bp;; balloc_loop fuel dev (b + BPB)
        end
      else panic "balloc: out of blocks"
  end.
Definition balloc (dev : Z) : M (fst S U) Z :=
  let! sb := gets fs_sb in
  balloc_loop (Z.to_nat (sb_size sb / BPB) + 2) dev 0.

Definition bfree (dev b : Z) : M (fst S U) unit :=
  let! sb := gets fs_sb in
  let! bp := bread dev (BBLOCK b sb) in
  let! d := buf_data bp in
  let bi := b mod BPB in
  if bit_free bi d then panic "freeing free block"
  else
    set_data bp (bit_clear bi d);;
    log_write bp;;
    brelse bp.

(** ** Inodes *)

(** [iget]'s scan: a referenced entry for the inode, or the first free one. *)
Definition iget (dev inum : Z) : M (fst S U) nat :=
  let! ic := gets fs_icache in
  match list_find (λ i, i_ref i > 0 ∧ i_dev i = dev ∧ i_inum i = inum) ic with
  | Some (k, i) => upd_ino k (set_ref (i_ref i + 1));; ret k
  | None =>
      match list_find (λ i, i_ref i = 0) ic with
      | Some (k, _) => upd_ino k (recycle_inode dev inum);; ret k
      | None => panic "iget: no inodes"
      end
  end.

Definition iinit : M (fst S U) unit :=
  modify (λ s, Fst (fs_bl s) (fs_sb s) (set_ilock initsleeplock <$> fs_icache s) (fs_cwd s) (fs_mem s)).

Fixpoint ialloc_loop (fuel : nat) (dev type inum : Z) : M (fst S U) nat :=
  match fuel with
  | O => λ _, OutOfFuel
  | Datatypes.S fuel =>
      let! sb := gets fs_sb in
      if decide (inum < sb_ninodes sb) then
        let! bp := bread dev (IBLOCK inum sb) in
        let! d := buf_data bp in
        let off := dinode_off inum in
        if decide (d_type (dinode_load off d) = 0) then
          let d := splice off (replicate (Z.to_nat DINODE_SIZE) 0) d in
          let d := st16 (off + 56) type d in
          let d := st16 (off + 60) M_ALL d in
          let d := st16 (off + 62) (Z.lor M_READ M_WRITE) d in
          set_data bp d;;
          log_write bp;;
          brelse bp;;
          iget dev inum
        else brelse bp;; ialloc_loop fuel dev type (inum + 1)
      else panic "ialloc: no inodes"
  end.
Definition ialloc (dev type : Z) : M (fst S U) nat :=
  let! sb := gets fs_sb in
  ialloc_loop (Z.to_nat (sb_ninodes sb) + 1) dev type 1.

Definition iupdate (i : nat) : M (fst S U) unit :=
  let! ip := gets (ino i) in
  let! sb := gets fs_sb in
  let! bp := bread (i_dev ip) (IBLOCK (i_inum ip) sb) in
  let! d := buf_data bp in
  set_data bp (dinode_store (dinode_off (i_inum ip)) (inode_disk ip) d);;
  log_write bp;;
  brelse bp.

Definition idup (i : nat) : M (fst S U) nat :=
  upd_ino i (λ x, set_ref (i_ref x + 1) x);; ret i.

Definition ilock (i : nat) : M (fst S U) unit :=
  let! ip := gets (ino i) in
  let! pid := gets pid_of in
  if decide (i_ref ip < 1) then panic "ilock"
  else match acquiresleep pid (i_lock ip) with
  | None => sleep_on "inode"
  | Some lk =>
      upd_ino i (set_ilock lk);;
      if i_valid ip then ret tt
      else
        let! sb := gets fs_sb in
        let! bp := bread (i_dev ip) (IBLOCK (i_inum ip) sb) in
        let! d := buf_data bp in
        let dip := dinode_load (dinode_off (i_inum ip)) d in
        brelse bp;;
        upd_ino i (set_dinode dip);;
        if decide (d_type dip = 0) then panic "ilock: no type" else ret tt
  end.

Definition iunlock (i : nat) : M (fst S U) unit :=
  let! ip := gets (ino i) in
  let! pid := gets pid_of in
  if negb (holdingsleep pid (i_lock ip)) || bool_decide (i_ref ip < 1) then panic "iunlock"
  else upd_ino i (λ x, set_ilock (releasesleep (i_lock x)) x).

(** *** Content *)

(** The indirect block of the file, allocated if there is none. *)
Definition bmap_indirect (i : nat) (ip : inode) : M (fst S U) Z :=
  let addr := i_addrs ip !!! Z.to_nat NDIRECT in
  if decide (addr = 0) then
    let! addr := balloc (i_dev ip) in
    if decide (addr = 0) then panic "bmap: balloc failed for indirect block"
    else upd_ino i (set_addr (Z.to_nat NDIRECT) addr);; ret addr
  else ret addr.
(** Entry [bn] of the indirect block in buffer [bp], allocated if absent. *)
Definition bmap_entry (dev : Z) (bp : nat) (bn : Z) : M (fst S U) Z :=
  let! a := buf_data bp in
  let target_addr := ld32 (4 * Z.to_nat bn) a in
  if decide (target_addr = 0) then
    let! target_addr := balloc dev in
    if decide (target_addr = 0) then panic "bmap: balloc failed for data block via indirect"
    else
      let! a := buf_data bp in
      set_data bp (st32 (4 * Z.to_nat bn) target_addr a);;
      log_write bp;;
      ret target_addr
  else ret target_addr.

Definition bmap (i : nat) (bn : Z) : M (fst S U) Z :=
  let! ip := gets (ino i) in
  if decide (bn < NDIRECT) then
    let addr := i_addrs ip !!! Z.to_nat bn in
    if decide (addr = 0) then
      let! addr := balloc (i_dev ip) in
      if decide (addr = 0) then panic "bmap: balloc failed"
      else upd_ino i (set_addr (Z.to_nat bn) addr);; ret addr
    else ret addr
  else
    let bn := bn - NDIRECT in
    if decide (bn < NINDIRECT) then
      let! addr := bmap_indirect i ip in
      let! bp := bread (i_dev ip) addr in
      let! target_addr := bmap_entry (i_dev ip) bp bn in
      brelse bp;;
      ret target_addr
    else panic "bmap: out of range".

Definition itrunc_direct (i : nat) (k : Z) : M (fst S U) unit :=
  let! ip := gets (ino i) in
  let addr := i_addrs ip !!! Z.to_nat k in
  if decide (addr = 0) then ret tt
  else bfree (i_dev ip) addr;; upd_ino i (set_addr (Z.to_nat k) 0).

Definition itrunc (i : nat) : M (fst S U) unit :=
  mfor (Z.to_nat NDIRECT) 0 (itrunc_direct i);;
  (let! ip := gets (ino i) in
   let addr := i_addrs ip !!! Z.to_nat NDIRECT in
   if decide (addr = 0) then ret tt
   else
     let! bp := bread (i_dev ip) addr in
     mfor (Z.to_nat NINDIRECT) 0 (λ j,
       let! a := buf_data bp in
       let x := ld32 (4 * Z.to_nat j) a in
       if decide (x = 0) then ret tt else bfree (i_dev ip) x);;
     brelse bp;;
     bfree (i_dev ip) addr;;
     upd_ino i (set_addr (Z.to_nat NDIRECT) 0));;
  upd_ino i (set_size 0);;
  iupdate i.

Definition iput (i : nat) : M (fst S U) unit :=
  let! ip := gets (ino i) in
  let! pid := gets pid_of in
  (if decide (i_ref ip = 1 ∧ i_valid ip = true ∧ i_nlink ip = 0) then
     match acquiresleep pid (i_lock ip) with
     | None => sleep_on "inode"
     | Some lk =>
         upd_ino i (set_ilock lk);;
         itrunc i;;
         upd_ino i (set_type 0);;
         iupdate i;;
         upd_ino i (set_ivalid false);;
         upd_ino i (λ x, set_ilock (releasesleep (i_lock x)) x)
     end
   else ret tt);;
  upd_ino i (λ x, set_ref (i_ref x - 1) x).

Definition iunlockput (i : nat) : M (fst S U) unit := iunlock i;; iput i.

Record stat := Stat {
  st_dev : Z; st_ino : Z; st_type : Z; st_nlink : Z; st_size : Z; st_mode : Z; st_perm : Z;
}.
Definition stati (i : nat) : M (fst S U) stat :=
  let! ip := gets (ino i) in
  ret (Stat (s32 (i_dev ip)) (i_inum ip) (i_type ip) (i_nlink ip) (i_size ip) (i_mode ip) (i_perm ip)).

(** [either_copyout] of a chunk: the return code, and the bytes that reached
    a kernel destination. *)
Definition either_copyout (dst : place) (data : list Z) : M (fst S U) (Z * list Z) :=
  match dst with
  | Kernel _ => ret (0, data)
  | User va => λ s,
      let '(r, u) := um_copyout va data (fs_mem s) in
      Ret (r, []) (Fst (fs_bl s) (fs_sb s) (fs_icache s) (fs_cwd s) u)
  end.
(** [either_copyin]: the return code, and the bytes that were stored. *)
Definition either_copyin (src : place) (n : nat) : M (fst S U) (Z * list Z) :=
  match src with
  | Kernel data => if decide (n ≤ length data)%nat then ret (0, take n data) else oob
  | User va => gets (λ s, um_copyin va n (fs_mem s))
  end.
(** [dst += m], [src += m] *)
Definition advance (m : Z) (p : place) : place :=
  match p with
  | Kernel data => Kernel (drop (Z.to_nat m) data)
  | User va => User (u64 (va + m))
  end.

Definition chunk (n tot off : Z) : Z := Z.min (n - tot) (BSIZE - off mod BSIZE).

Fixpoint readi_loop (fuel : nat) (i : nat) (dst : place) (n tot off : Z) : M (fst S U) (Z * list Z) :=
  match fuel with
  | O => λ _, OutOfFuel
  | Datatypes.S fuel =>
      if decide (tot < n) then
        let! addr := bmap i (off / BSIZE) in
        let! ip := gets (ino i) in
        let! bp := bread (i_dev ip) addr in
        let m := chunk n tot off in
        let! d := buf_data bp in
        let! (r, out) := either_copyout dst (slice (Z.to_nat (off mod BSIZE)) (Z.to_nat m) d) in
        brelse bp;;
        if decide (r = -1) then ret (tot, [])
        else
          let! (tot, rest) := readi_loop fuel i (advance m dst) n (tot + m) (off + m) in
          ret (tot, out ++ rest)
      else ret (tot, [])
  end.

(** The return value, and for a kernel destination the bytes stored there. *)
Definition readi (i : nat) (dst : place) (off n : Z) : M (fst S U) (Z * list Z) :=
  let! ip := gets (ino i) in
  if decide (off > i_size ip ∨ u32 (off + n) < off) then ret (0, [])
  else
    let n := if decide (u32 (off + n) > i_size ip) then i_size ip - off else n in
    let! (tot, out) := readi_loop (Z.to_nat (n / BSIZE) + 3) i dst n 0 off in
    ret (s32 tot, out).

(** The loop of [writei]; its result is the final [off]. *)
Fixpoint writei_loop (fuel : nat) (i : nat) (src : place) (n tot off : Z) : M (fst S U) Z :=
  match fuel with
  | O => λ _, OutOfFuel
  | Datatypes.S fuel =>
      if decide (tot < n) then
        let! disk_lbn := bmap i (off / BSIZE) in
        let! ip := gets (ino i) in
        let! bp := bread (i_dev ip) disk_lbn in
        let m := chunk n tot off in
        let! (r, bytes) := either_copyin src (Z.to_nat m) in
        let! d := buf_data bp in
        set_data bp (splice (Z.to_nat (off mod BSIZE)) bytes d);;
        if decide (r = -1) then brelse bp;; ret off
        else
          log_write bp;;
          brelse bp;;
          writei_loop fuel i (advance m src) n (tot + m) (off + m)
      else ret off
  end.

Definition writei (i : nat) (src : place) (off n : Z) : M (fst S U) Z :=
  let! ip := gets (ino i) in
  if decide (off > i_size ip ∨ u32 (off + n) < off) then ret (-1)
  else if decide (u32 (off + n) > MAXFILE * BSIZE) then ret (-1)
  else
    let! off := writei_loop (Z.to_nat (n / BSIZE) + 3) i src n 0 off in
    (if decide (n > 0) then
       let! ip := gets (ino i) in
       (if decide (off > i_size ip) then upd_ino i (set_size off) else ret tt);;
       iupdate i
     else ret tt);;
    ret (s32 n).
End Ops.
