(* ===== verification/Dir.v ===== *)
(** * Directories and path names ([kernel/fs.c], second half)

    A path is the list of its characters up to, not including, the
    terminating NUL; a [char name[DIRSIZ]] buffer is a list of [DIRSIZ]
    bytes. *)
From S2P Require Import Prelude Params CString Locks BlockLayer Fs.
Import CString.

Definition dirsiz : nat := Z.to_nat DIRSIZ.
Definition dirent_size : nat := Z.to_nat DIRENT_SIZE.

Record dirent := Dirent { de_inum : Z; de_name : list Z }.
Definition dirent_load (d : list Z) : dirent := Dirent (ld16 0 d) (slice 2 dirsiz d).
Definition dirent_bytes (e : dirent) : list Z := le_enc 2 (de_inum e) ++ de_name e.

Definition SLASH : Z := 47.
Definition DOT : list Z := [46; 0].
Definition DOTDOT : list Z := [46; 46; 0].

(** ** Path elements *)
Fixpoint skip_slashes (path : list Z) : list Z :=
  match path with
  | [] => []
  | c :: path' => if decide (c = SLASH) then skip_slashes path' else path
  end.
(** The inner loop of [skipelem]: the next element and the rest. *)
Fixpoint span_elem (path : list Z) : list Z * list Z :=
  match path with
  | [] => ([], [])
  | c :: path' =>
      if decide (c = SLASH) then ([], path)
      else let '(e, r) := span_elem path' in (c :: e, r)
  end.
(** [skipelem]: the rest of the path and the new contents of [name]; only
    [len] bytes and a NUL are stored when the element is short. *)
Definition skipelem (path name : list Z) : option (list Z * list Z) :=
  let path := skip_slashes path in
  match path with
  | [] => None
  | _ =>
      let '(s, path) := span_elem path in
      let name :=
        if decide (dirsiz ≤ length s)%nat then splice 0 (take dirsiz s) name
        else <[length s := 0]> (splice 0 s name) in
      Some (skip_slashes path, name)
  end.

Section Ops.
Context {S U : Type} `{BlockLayer S} `{UserMem U}.
Implicit Types (i : nat).

Definition namecmp (s t : list Z) : M (fst S U) Z := some_or_oob (strncmp s t dirsiz).

(** Read the directory entry at [off]; [None] if fewer bytes came back. *)
Definition read_dirent (i : nat) (off : Z) : M (fst S U) (option dirent) :=
  let! (r, bytes) := readi i (Kernel []) off DIRENT_SIZE in
  ret (if decide (r = DIRENT_SIZE) then Some (dirent_load bytes) else None).

Fixpoint dirlookup_loop (fuel : nat) (i : nat) (name : list Z) (off : Z)
    : M (fst S U) (option (nat * Z)) :=
  match fuel with
  | O => λ _, OutOfFuel
  | Datatypes.S fuel =>
      let! dp := gets (ino i) in
      if decide (off < i_size dp) then
        let! de := read_dirent i off in
        match de with
        | None => panic "dirlookup read"
        | Some de =>
            if decide (de_inum de = 0) then dirlookup_loop fuel i name (off + DIRENT_SIZE)
            else
              let! c := namecmp name (de_name de) in
              if decide (c = 0) then
                let! ip := iget (i_dev dp) (de_inum de) in
                ret (Some (ip, off))
              else dirlookup_loop fuel i name (off + DIRENT_SIZE)
        end
      else ret None
  end.
(** The inode found and [*poff]. *)
Definition dirlookup (i : nat) (name : list Z) : M (fst S U) (option (nat * Z)) :=
  let! dp := gets (ino i) in
  if decide (i_type dp ≠ T_DIR) then panic "dirlookup not DIR"
  else dirlookup_loop (Z.to_nat (i_size dp / DIRENT_SIZE) + 2) i name 0.

(** The first free entry, or the end of the directory. *)
Fixpoint dirlink_slot (fuel : nat) (i : nat) (off : Z) : M (fst S U) Z :=
  match fuel with
  | O => λ _, OutOfFuel
  | Datatypes.S fuel =>
      let! dp := gets (ino i) in
      if decide (off < i_size dp) then
        let! de := read_dirent i off in
        match de with
        | None => panic "dirlink read"
        | Some de => if decide (de_inum de = 0) then ret off
                     else dirlink_slot fuel i (off + DIRENT_SIZE)
        end
      else ret off
  end.
Definition dirlink (i : nat) (name : list Z) (inum : Z) : M (fst S U) Z :=
  let! ip := dirlookup i name in
  match ip with
  | Some (ip, _) => iput ip;; ret (-1)
  | None =>
      let! dp := gets (ino i) in
      let! off := dirlink_slot (Z.to_nat (i_size dp / DIRENT_SIZE) + 2) i 0 in
      let! nm := some_or_oob (strncpy name dirsiz) in
      let! r := writei i (Kernel (dirent_bytes (Dirent (u16 inum) nm))) off DIRENT_SIZE in
      if decide (r ≠ DIRENT_SIZE) then panic "dirlink" else ret 0
  end.

(** ** Path lookup *)
Fixpoint namex_loop (fuel : nat) (ip : nat) (path : list Z) (nameiparent : bool) (name : list Z)
    : M (fst S U) (option nat * list Z) :=
  match fuel with
  | O => λ _, OutOfFuel
  | Datatypes.S fuel =>
      match skipelem path name with
      | None =>
          if nameiparent then iput ip;; ret (None, name) else ret (Some ip, name)
      | Some (path, name) =>
          ilock ip;;
          let! x := gets (ino ip) in
          if decide (i_type x ≠ T_DIR) then iunlockput ip;; ret (None, name)
          else if nameiparent && bool_decide (path = []) then iunlock ip;; ret (Some ip, name)
          else
            let! next := dirlookup ip name in
            match next with
            | None => iunlockput ip;; ret (None, name)
            | Some (next, _) =>
                iunlockput ip;;
                namex_loop fuel next path nameiparent name
            end
      end
  end.
Definition namex (path : list Z) (nameiparent : bool) (name : list Z)
    : M (fst S U) (option nat * list Z) :=
  let! ip :=
    (if decide (head path = Some SLASH) then iget ROOTDEV ROOTINO
     else let! cwd := gets fs_cwd in idup cwd) in
  namex_loop (length path + 1) ip path nameiparent name.

(** The initial contents of [namei]'s local buffer do not matter. *)
Definition name0 : list Z := replicate dirsiz 0.
Definition namei (path : list Z) : M (fst S U) (option nat) :=
  let! (ip, _) := namex path false name0 in ret ip.
Definition nameiparent (path name : list Z) : M (fst S U) (option nat * list Z) :=
  namex path true name.

(** ** [chperm] *)

(** The child's path, built in a [MAXPATH] buffer with [safestrcpy]. *)
Definition child_path (path : list Z) (name : list Z) : option (list Z) :=
  let maxpath := Z.to_nat MAXPATH in
  p ← safestrcpy (path ++ [0]) MAXPATH;
  let buf := splice 0 p (replicate maxpath 0) in
  len ← strlen buf;
  last ← (if decide (len = 0%nat) then None else buf !! (len - 1)%nat);
  let '(buf, len) := if decide (last ≠ SLASH) then (<[len := SLASH]> buf, (len + 1)%nat) else (buf, len) in
  q ← safestrcpy name (MAXPATH - Z.of_nat len);
  if decide (len + length q ≤ maxpath)%nat then Some (cstr (splice len q buf)) else None.

Fixpoint chperm (fuel : nat) (path : list Z) (mode : Z) (is_add recursive : bool) : M (fst S U) Z :=
  match fuel with
  | O => λ _, OutOfFuel
  | Datatypes.S fuel =>
      bl bl_begin_op;;
      let! ip := namei path in
      match ip with
      | None => bl bl_end_op;; ret (-1)
      | Some ip =>
          ilock ip;;
          upd_ino ip (λ x, set_perm (s16 (if is_add then Z.lor (i_perm x) mode
                                           else Z.land (i_perm x) (Z.lnot mode))) x);;
          iupdate ip;;
          let! x := gets (ino ip) in
          (if recursive && bool_decide (i_type x = T_DIR) then
             (fix children (k : nat) (off : Z) : M (fst S U) unit :=
                match k with
                | O => λ _, OutOfFuel
                | Datatypes.S k =>
                    let! x := gets (ino ip) in
                    if decide (off < i_size x) then
                      let! de := read_dirent ip off in
                      (match de with
                       | None => ret tt
                       | Some de =>
                           if decide (de_inum de = 0) then ret tt
                           else
                             let! c1 := namecmp (de_name de) DOT in
                             if decide (c1 = 0) then ret tt
                             else
                               let! c2 := namecmp (de_name de) DOTDOT in
                               if decide (c2 = 0) then ret tt
                               else
                                 let! child := some_or_oob (child_path path (de_name de)) in
                                 iunlock ip;;
                                 let! _ := chperm fuel child mode is_add recursive in
                                 ilock ip
                       end);;
                      children k (off + DIRENT_SIZE)
                    else ret tt
                end) fuel 0
           else ret tt);;
          iunlockput ip;;
          bl bl_end_op;;
          ret 0
      end
  end.
End Ops.
