(* ===== verification/FsBlocks.v ===== *)
(** * Block allocation ([bzero], [balloc], [bfree] of [kernel/fs.c])

    First the block layer's promises lifted to file-system states, with the
    bookkeeping every later proof shares; then the bitmap allocator. *)
From S2P Require Import Prelude Params CString Locks BlockLayer Fs.

(** [m] stops in [panic(msg)]. *)
Definition fails {S A} (m : M S A) (msg : string) (s : S) : Prop := m s = Panic msg.

Lemma fails_bind {S A B} (m : M S A) (k : A → M S B) msg s :
  wp m (λ a s', fails (k a) msg s') s → fails (bind m k) msg s.
Proof. unfold wp, fails, bind. by destruct (m s). Qed.

Section Lift.
Context {S U : Type} `{BlockLayerOk S} `{UserMem U}.
Implicit Types (s : fst S U) (v : bview).

Definition frep (s : fst S U) (v : bview) : Prop := bl_rep (fs_bl s) v.
Definition fhandle (s : fst S U) (bp : nat) (b : Z) : Prop := bl_handle (fs_bl s) bp b.

(** The state besides the block layer. *)
Definition sframe (s s' : fst S U) : Prop :=
  fs_sb s' = fs_sb s ∧ fs_icache s' = fs_icache s ∧ fs_cwd s' = fs_cwd s ∧ fs_mem s' = fs_mem s ∧
  pid_of s' = pid_of s.

#[export] Instance sframe_preorder : PreOrder sframe.
Proof.
  split; [done |]. intros s1 s2 s3 (A1 & A2 & A3 & A4 & A5) (B1 & B2 & B3 & B4 & B5).
  split_and!; congruence.
Qed.

(** Buffer slots: what the process holds, what the transaction logged, and
    [k] more fit in the log. *)
Definition room (k : nat) (v : bview) : Prop :=
  (size (bv_held v) + size (bv_log v) + k ≤ bl_cap)%nat.

Lemma size_add (b : Z) (X : gset Z) : (size ({[b]} ∪ X) ≤ Datatypes.S (size X))%nat.
Proof.
  rewrite size_union_alt, size_singleton.
  pose proof (subseteq_size (X ∖ {[b]}) X ltac:(set_solver)). lia.
Qed.

Lemma room_hold k b v : room (Datatypes.S k) v → room k (bv_hold b v).
Proof. unfold room. simpl. pose proof (size_add b (bv_held v)). lia. Qed.
Lemma room_upd k b d v : room (Datatypes.S k) v → room k (bv_upd b d v).
Proof. unfold room. simpl. pose proof (size_add b (bv_log v)). lia. Qed.
Lemma room_le k j v : room k v → (j ≤ k)%nat → room j v.
Proof. unfold room. lia. Qed.

Lemma wp_bl {A} (m : M S A) (Q : A → fst S U → Prop) s :
  wp m (λ a b, Q a (Fst b (fs_sb s) (fs_icache s) (fs_cwd s) (fs_mem s))) (fs_bl s) → wp (bl m) Q s.
Proof. unfold wp, bl, zoom. by destruct (m (fs_bl s)). Qed.

(** [bp = bread(ROOTDEV, b)] followed by a read of [bp->data]. *)
Lemma fs_bread s v b d :
  frep s v → bv_now v !! b = Some d → b ∉ bv_held v → room 1 v →
  wp (bread ROOTDEV b) (λ bp s', frep s' (bv_hold b v) ∧ fhandle s' bp b ∧
    bl_data bp (fs_bl s') = d ∧ sframe s s' ∧ ∀ j x, fhandle s j x → fhandle s' j x) s.
Proof.
  intros R Hd Hh Hroom. apply wp_bl. eapply wp_mono; [apply (bl_bread_ok _ _ b R) |].
  - apply elem_of_dom. eauto.
  - done.
  - right. unfold room in Hroom. pose proof bl_cap_le. rewrite size_union_alt.
    pose proof (subseteq_size (bv_log v ∖ bv_held v) (bv_log v) ltac:(set_solver)). lia.
  - intros bp s' (R' & Hb & Hp & K). split_and!; try done.
    by apply (bl_data_now _ _ _ _ _ R' Hb).
Qed.

Lemma fs_brelse s v bp b :
  frep s (bv_hold b v) → fhandle s bp b → b ∉ bv_held v →
  (b ∉ bv_log v → bv_now v !! b = bv_disk v !! b) →
  wp (brelse bp) (λ _ s', frep s' v ∧ sframe s s' ∧
    ∀ j x, x ≠ b → fhandle s j x → fhandle s' j x) s.
Proof.
  intros R Hb Hh Hc. apply wp_bl. eapply wp_mono; [by apply (bl_brelse_clean _ _ _ _ R Hb) |].
  intros _ s' (R' & Hp & K). split_and!; try done.
Qed.

(** [bp->data = d; log_write(bp); brelse(bp);] then [k]. *)
Lemma fs_log_data {A} s v bp b d (k : M (fst S U) A) Q :
  frep s (bv_hold b v) → fhandle s bp b → b ∉ bv_held v → length d = bsize →
  room 1 v → 1 <= bv_open v →
  (∀ s', frep s' (bv_upd b d v) → sframe s s' → (∀ j x, x ≠ b → fhandle s j x → fhandle s' j x) →
    wp k Q s') →
  wp (set_data bp d;; log_write bp;; brelse bp;; k) Q s.
Proof.
  intros R Hb Hh Hd Hroom Ho Hk.
  assert (Hw : wp (set_data bp d;; log_write bp;; brelse bp) (λ _ s', frep s' (bv_upd b d v) ∧
    sframe s s' ∧ ∀ j x, x ≠ b → fhandle s j x → fhandle s' j x) s).
  { wp_steps. apply wp_bl. eapply wp_mono; [by apply (bl_set_ok _ _ _ _ d R Hb) |].
    intros _ s1 (R1 & P1 & K1). wp_steps. apply wp_bl. cbn [fs_bl].
    eapply wp_mono; [apply (bl_log_write_ok _ _ _ _ R1 (K1 _ _ Hb)) |].
    { unfold room in Hroom. simpl. lia. }
    { done. }
    intros _ s2 (R2 & P2 & K2). apply wp_bl. cbn [fs_bl fs_sb fs_icache fs_cwd fs_mem].
    eapply wp_mono; [apply (bl_brelse_ok _ _ _ _ R2 (K2 _ _ (K1 _ _ Hb))) |].
    { simpl. left. set_solver. }
    intros _ s3 (R3 & P3 & K3). split_and!.
    - unfold frep. cbn [fs_bl].
      replace (bv_upd b d v) with (bv_drop b (bv_logged b (bv_set b d (bv_hold b v)))); [done |].
      destruct v. apply bview_eq; simpl in *; try done. set_solver.
    - unfold sframe, pid_of. cbn [fs_bl fs_sb fs_icache fs_cwd fs_mem]. split_and!; congruence.
    - unfold fhandle. cbn [fs_bl]. auto. }
  unfold wp in Hw |- *. unfold bind in Hw |- *.
  destruct (set_data bp d s) as [[] s1| | |]; try done.
  destruct (log_write bp s1) as [[] s2| | |]; try done.
  destruct (brelse bp s2) as [[] s3| | |]; try done.
  destruct Hw as (R' & F & K). by apply (Hk s3).
Qed.

Lemma fs_log_data_end s v bp b d (Q : unit → fst S U → Prop) :
  frep s (bv_hold b v) → fhandle s bp b → b ∉ bv_held v → length d = bsize →
  room 1 v → 1 <= bv_open v →
  (∀ s', frep s' (bv_upd b d v) → sframe s s' → (∀ j x, x ≠ b → fhandle s j x → fhandle s' j x) →
    Q tt s') →
  wp (set_data bp d;; log_write bp;; brelse bp) Q s.
Proof.
  intros R Hb Hh Hd Hroom Ho Hk.
  pose proof (fs_log_data s v bp b d (ret tt) Q R Hb Hh Hd Hroom Ho Hk) as Hw.
  unfold wp in Hw |- *. unfold bind in Hw |- *.
  destruct (set_data bp d s) as [[] s1| | |]; try done.
  destruct (log_write bp s1) as [[] s2| | |]; try done.
  destruct (brelse bp s2) as [[] s3| | |]; done.
Qed.

(** [bp->data = d; log_write(bp);] with the buffer kept. *)
Lemma fs_set_log {A} s v bp b d (k : M (fst S U) A) Q :
  frep s (bv_hold b v) → fhandle s bp b → b ∉ bv_held v → length d = bsize →
  room 1 v → 1 <= bv_open v →
  (∀ s', frep s' (bv_hold b (bv_upd b d v)) → sframe s s' → (∀ j x, fhandle s j x → fhandle s' j x) →
    wp k Q s') →
  wp (set_data bp d;; log_write bp;; k) Q s.
Proof.
  intros R Hb Hh Hd Hroom Ho Hk. apply wp_bind, wp_bl.
  eapply wp_mono; [by apply (bl_set_ok _ _ _ _ d R Hb) |].
  intros _ s1 (R1 & P1 & K1). apply wp_bind, wp_bl. cbn [fs_bl].
  eapply wp_mono; [apply (bl_log_write_ok _ _ _ _ R1 (K1 _ _ Hb)) |].
  { unfold room in Hroom. simpl. lia. }
  { done. }
  intros _ s2 (R2 & P2 & K2). apply Hk.
  - exact R2.
  - unfold sframe, pid_of. cbn [fs_bl fs_sb fs_icache fs_cwd fs_mem]. split_and!; congruence.
  - unfold fhandle. cbn [fs_bl]. auto.
Qed.

(** A block that nobody holds and nobody logged is as on the disk. *)
Lemma frep_clean s v b :
  frep s v → b ∉ bv_held v → b ∉ bv_log v → bv_now v !! b = bv_disk v !! b.
Proof. intros R. by apply bl_clean with (1 := R). Qed.

Lemma frep_len s v b (d : block) : frep s v → bv_now v !! b = Some d → length d = bsize.
Proof. intros R Hd. by apply (bl_lengths _ _ R) in Hd. Qed.

(** ** [bzero] *)
Lemma bzero_spec s v b :
  frep s v → b ∈ dom (bv_now v) → b ∉ bv_held v → room 1 v → 1 <= bv_open v →
  wp (bzero ROOTDEV b) (λ _ s', frep s' (bv_upd b zero_block v) ∧ sframe s s' ∧
    ∀ j x, x ≠ b → fhandle s j x → fhandle s' j x) s.
Proof.
  intros R [d Hd]%elem_of_dom Hh Hroom Ho. unfold bzero. apply wp_bind.
  eapply wp_mono; [by apply (fs_bread _ _ _ _ R Hd) |].
  intros bp s1 (R1 & Hb & _ & F1 & K1). cbv beta.
  apply (fs_log_data_end s1 v bp b (replicate bsize 0)); try done.
  intros s2 R2 F2 K2. split_and!; [done | by etrans |]. intros j x Hx Hj. auto.
Qed.

(** A change of the inode cache alone. *)
Definition cache_to (ic : list inode) (s : fst S U) : fst S U :=
  Fst (fs_bl s) (fs_sb s) ic (fs_cwd s) (fs_mem s).

Lemma frep_cache_to ic s v : frep s v → frep (cache_to ic s) v.
Proof. done. Qed.

Lemma upd_ino_eq i f s : upd_ino i f s = Ret tt (cache_to (alter f i (fs_icache s)) s).
Proof. done. Qed.

Lemma wp_upd_ino (i : nat) f (Q : unit → fst S U → Prop) s :
  Q tt (cache_to (alter f i (fs_icache s)) s) → wp (upd_ino i f) Q s.
Proof. done. Qed.

Lemma ino_cache_to_eq (i : nat) x f s :
  fs_icache s !! i = Some x → ino i (cache_to (alter f i (fs_icache s)) s) = f x.
Proof.
  intros Hx. unfold ino. cbn [cache_to fs_icache].
  apply list_lookup_total_correct. by rewrite list_lookup_alter, decide_True, Hx.
Qed.

Lemma ino_lookup (i : nat) s x : fs_icache s !! i = Some x → ino i s = x.
Proof. apply list_lookup_total_correct. Qed.

(** ** The bitmap *)

(** Bit [b] of the free map as the block view records it. *)
Definition in_use (sb : superblock) (v : bview) (b : Z) : bool :=
  match bv_now v !! BBLOCK b sb with
  | Some d => negb (bit_free (b mod BPB) d)
  | None => true
  end.

(** The geometry [mkfs] guarantees: a size that fits an [int], every block
    of the file system and of its bitmap present. *)
Record sbwf (sb : superblock) (v : bview) : Prop := {
  sw_size : 0 < sb_size sb < 2 ^ 31;
  sw_blocks : ∀ b, 0 <= b < sb_size sb → b ∈ dom (bv_now v);
  sw_bmap : 0 <= sb_bmapstart sb ∧ sb_size sb / BPB + sb_bmapstart sb < 2 ^ 32;
  sw_bmap_dom : ∀ b, 0 <= b < sb_size sb → BBLOCK b sb ∈ dom (bv_now v);
}.

Lemma find_free_Some k bi d r :
  find_free k bi d = Some r → bi <= r < bi + Z.of_nat k ∧ bit_free r d = true ∧
    ∀ x, bi <= x < r → bit_free x d = false.
Proof.
  revert bi. induction k as [|k IH]; intros bi Hf; simpl in Hf; [done |].
  destruct (bit_free bi d) eqn:E.
  - injection Hf as <-. split_and!; [lia | lia | done |]. lia.
  - apply IH in Hf as (H1' & H2' & H3'). split_and!; [lia | lia | done |].
    intros x Hx. destruct (decide (x = bi)) as [->|]; [done |]. apply H3'. lia.
Qed.

Lemma find_free_None k bi d :
  find_free k bi d = None → ∀ x, bi <= x < bi + Z.of_nat k → bit_free x d = false.
Proof.
  revert bi. induction k as [|k IH]; intros bi Hf x Hx; simpl in Hf; [lia |].
  destruct (bit_free bi d) eqn:E; [done |].
  destruct (decide (x = bi)) as [->|]; [done |]. apply (IH (bi + 1)); [done | lia].
Qed.

Lemma BBLOCK_same sb b bi :
  0 <= b → b mod BPB = 0 → 0 <= bi < BPB → BBLOCK (b + bi) sb = BBLOCK b sb ∧ (b + bi) mod BPB = bi.
Proof.
  intros Hb Hm Hbi. unfold BBLOCK. assert (0 < BPB) by (params; lia).
  rewrite Z.add_mod, Hm, Z.add_0_l, Z.mod_mod by lia. split; [| apply Z.mod_small; lia].
  f_equal. f_equal. apply Z.div_exact in Hm; [| lia]. rewrite Hm at 1.
  rewrite Z.mul_comm, Z.div_add_l, (Z.div_small bi) by lia. lia.
Qed.

(** What [balloc] found and did. *)
Definition balloc_view (sb : superblock) (b : Z) (d : block) (v : bview) : bview :=
  bv_upd b zero_block (bv_upd (BBLOCK b sb) (bit_mark (b mod BPB) d) v).

Lemma bit_mark_length bi d : length (bit_mark bi d) = length d.
Proof. apply length_insert. Qed.
Lemma bit_clear_length bi d : length (bit_clear bi d) = length d.
Proof. apply length_insert. Qed.

Lemma bv_upd_dom b d v : dom (bv_now (bv_upd b d v)) = {[b]} ∪ dom (bv_now v).
Proof. simpl. apply dom_insert_L. Qed.

Section Balloc.
Context (s0 : fst S U) (v : bview).
Let sb := fs_sb s0.
Context (R0 : frep s0 v) (Hsb : sbwf sb v) (Hroom : room 2 v) (Ho : 1 <= bv_open v).
Context (Hfree : ∀ b, 0 <= b < sb_size sb → b ∈ bv_held v ∨ BBLOCK b sb ∈ bv_held v → in_use sb v b = true).
Context (Hbmh : ∀ b, 0 <= b < sb_size sb → BBLOCK b sb ∉ bv_held v).

Lemma balloc_loop_spec fuel b s :
  frep s v → sframe s0 s → (∀ j x, fhandle s0 j x → fhandle s j x) →
  0 <= b → b mod BPB = 0 → (sb_size sb - b < Z.of_nat fuel * BPB) →
  (∀ x, 0 <= x < b → x < sb_size sb → in_use sb v x = true) →
  (∃ x, 0 <= x < sb_size sb ∧ in_use sb v x = false) →
  wp (balloc_loop fuel ROOTDEV b) (λ r s',
    0 <= r < sb_size sb ∧ in_use sb v r = false ∧ (∀ x, 0 <= x < r → in_use sb v x = true) ∧
    (∃ d, bv_now v !! BBLOCK r sb = Some d ∧ frep s' (balloc_view sb r d v)) ∧
    sframe s0 s' ∧ ∀ j x, fhandle s0 j x → x ∈ bv_held v → fhandle s' j x) s.
Proof.
  revert b s. induction fuel as [|fuel IH]; intros b s R F K Hb Hm Hfuel Hpre Hex.
  { exfalso. destruct Hex as (x & Hx & Hx'). pose proof (Hpre x). params.
    rewrite Hpre in Hx'; [done | lia | lia]. }
  cbn [balloc_loop]. wp_steps. assert (Esb : fs_sb s = sb) by apply F. rewrite Esb.
  destruct (decide (b < sb_size sb)) as [Hlt|Hge].
  2:{ exfalso. destruct Hex as (x & Hx & Hx'). rewrite Hpre in Hx'; [done | lia | lia]. }
  pose proof (sw_bmap_dom _ _ Hsb b ltac:(lia)) as [d Hd]%elem_of_dom.
  pose proof (Hbmh b ltac:(lia)) as Hnh. apply wp_bind.
  eapply wp_mono; [apply (fs_bread _ _ _ _ R Hd Hnh); by eapply room_le; [done | lia] |].
  intros bp s1 (R1 & Hbp & Hdat & F1 & K1). unfold buf_data. wp_steps. rewrite Hdat.
  destruct (find_free _ _ _) as [bi|] eqn:Eff.
  - apply find_free_Some in Eff as (Hbi & Hbf & Hbmin).
    assert (HbiB : 0 <= bi < BPB ∧ b + bi < sb_size sb) by lia. destruct HbiB as [HbiB Hbis].
    destruct (BBLOCK_same sb b bi Hb Hm HbiB) as [EB Emod].
    assert (Hfr : in_use sb v (b + bi) = false).
    { unfold in_use. rewrite EB, Hd, Emod, Hbf. done. }
    assert (Hnheld : b + bi ∉ bv_held v).
    { intros Hin. rewrite Hfree in Hfr; [done | lia | by left]. }
    eapply (fs_log_data s1 v bp (BBLOCK b sb) (bit_mark bi d) _ _ R1 Hbp Hnh).
    + rewrite bit_mark_length. by eapply frep_len.
    + by eapply room_le; [done | lia].
    + done.
    + intros s2 R2 F2 K2. apply wp_bind. eapply wp_mono; [apply (bzero_spec s2 _ (b + bi) R2) |].
      * rewrite bv_upd_dom. apply elem_of_union_r. apply (sw_blocks _ _ Hsb). lia.
      * done.
      * by apply room_upd.
      * done.
      * intros _ s3 (R3 & F3 & K3). wp_steps. split_and!; [lia | lia | done | | | |].
        -- intros x Hx. destruct (decide (x < b)); [apply Hpre; lia |].
           destruct (BBLOCK_same sb b (x - b) Hb Hm ltac:(lia)) as [EB' Em'].
           replace (b + (x - b)) with x in EB', Em' by lia.
           unfold in_use. rewrite EB', Hd, Em', Hbmin by lia. done.
        -- exists d. rewrite EB. split; [done |]. unfold balloc_view. by rewrite EB, Emod.
        -- etrans; [exact F |]. etrans; [exact F1 |]. by etrans.
        -- intros j x Hj Hx. apply K3; [congruence |]. apply K2; [congruence |]. auto.
  - pose proof (find_free_None _ _ _ Eff) as Hall.
    apply wp_bind. eapply wp_mono; [apply (fs_brelse _ _ _ _ R1 Hbp Hnh) |].
    { intros Hl. by apply (frep_clean _ _ _ R). }
    intros _ s2 (R2 & F2 & K2). apply IH; try done.
    + etrans; [exact F |]. by etrans.
    + intros j x Hj. destruct (decide (x = BBLOCK b sb)) as [->|].
      * exfalso. apply Hnh. by apply (bl_held_data _ _ _ _ R0 Hj).
      * auto.
    + params. lia.
    + rewrite Z.add_mod, Hm by (params; lia). params. done.
    + lia.
    + intros x Hx Hxs. destruct (decide (x < b)); [apply Hpre; lia |].
      destruct (BBLOCK_same sb b (x - b) Hb Hm ltac:(lia)) as [EB' Em'].
      replace (b + (x - b)) with x in EB', Em' by lia.
      unfold in_use. rewrite EB', Hd, Em', Hall; [done | lia].
Qed.

Lemma balloc_spec :
  (∃ x, 0 <= x < sb_size sb ∧ in_use sb v x = false) →
  wp (balloc ROOTDEV) (λ r s',
    0 <= r < sb_size sb ∧ in_use sb v r = false ∧ (∀ x, 0 <= x < r → in_use sb v x = true) ∧
    (∃ d, bv_now v !! BBLOCK r sb = Some d ∧ frep s' (balloc_view sb r d v)) ∧
    sframe s0 s' ∧ ∀ j x, fhandle s0 j x → x ∈ bv_held v → fhandle s' j x) s0.
Proof.
  intros Hex. unfold balloc. wp_steps. apply balloc_loop_spec; try done.
  - fold sb. pose proof (sw_size _ _ Hsb). pose proof (Z.div_pos (sb_size sb) BPB ltac:(lia) ltac:(params; lia)).
    rewrite Nat2Z.inj_add, Z2Nat.id by done.
    pose proof (Z.mul_succ_div_gt (sb_size sb) BPB ltac:(params; lia)). params. lia.
  - lia.
Qed.
End Balloc.
End Lift.

Lemma fs_buf_data {S U A} `{BlockLayer S} (bp : nat) (d : block) (k : block → M (fst S U) A) Q s :
  bl_data bp (fs_bl s) = d → wp (k d) Q s → wp (let! x := buf_data bp in k x) Q s.
Proof. intros Hd Hk. unfold buf_data. do 2 wp_step. by rewrite Hd. Qed.
(** Steps of file-system code, assignments to cached inodes included. *)
Ltac fs_steps := repeat first [ wp_step | apply wp_upd_ino; cbv beta ].
(** Read [bp->data], known to be the [d] of [H]. *)
Ltac buf_read H := cbv beta; eapply fs_buf_data; [exact H |]; cbv beta.

(** ** Single bits *)
Lemma testbit_u8 x k : 0 <= k < 8 → Z.testbit (u8 x) k = Z.testbit x k.
Proof. intros Hk. unfold u8. by rewrite Z.mod_pow2_bits_low by lia. Qed.

Lemma bit_mask_testbit bi k : 0 <= k → Z.testbit (bit_mask bi) k = bool_decide (k = bi mod 8).
Proof.
  intros Hk. unfold bit_mask. pose proof (Z.mod_pos_bound bi 8 ltac:(lia)) as Hp.
  rewrite Z.shiftl_spec by lia. case_bool_decide as E.
  - subst. by rewrite Z.sub_diag.
  - destruct (decide (k < bi mod 8)); [by rewrite Z.testbit_neg_r by lia |].
    rewrite Z.bits_above_log2; [done | lia |]. simpl. lia.
Qed.

Lemma bit_free_testbit bi d : bit_free bi d = negb (Z.testbit (byte_of bi d) (bi mod 8)).
Proof.
  unfold bit_free. pose proof (Z.mod_pos_bound bi 8 ltac:(lia)) as Hp.
  destruct (Z.testbit (byte_of bi d) (bi mod 8)) eqn:E; simpl.
  - apply Z.eqb_neq. intros H0.
    assert (Z.testbit (Z.land (byte_of bi d) (bit_mask bi)) (bi mod 8) = true) as H1.
    { rewrite Z.land_spec, E, bit_mask_testbit by lia. by rewrite bool_decide_true. }
    rewrite H0, Z.bits_0 in H1. done.
  - apply Z.eqb_eq. apply Z.bits_inj'. intros k Hk.
    rewrite Z.land_spec, bit_mask_testbit, Z.bits_0 by lia. case_bool_decide; [subst; by rewrite E |].
    by rewrite andb_false_r.
Qed.

Section Bits.
Context (bi bj : Z) (d : block) (Hd : length d = bsize) (Hi : 0 <= bi < BPB) (Hj : 0 <= bj < BPB).

Lemma bit_byte_index : (Z.to_nat (bi / 8) < length d)%nat.
Proof. rewrite Hd. params. pose proof (Z.div_lt_upper_bound bi 8 1024). lia. Qed.

Lemma bit_upd_free (f : Z) :
  bit_free bj (<[Z.to_nat (bi / 8) := u8 f]> d) =
    if decide (bi / 8 = bj / 8) then negb (Z.testbit f (bj mod 8)) else bit_free bj d.
Proof.
  pose proof (Z.mod_pos_bound bj 8 ltac:(lia)) as Hp. pose proof bit_byte_index as Hlt.
  pose proof (Z.div_pos bi 8). pose proof (Z.div_pos bj 8).
  rewrite !bit_free_testbit. unfold byte_of. case_decide as E.
  - rewrite E in Hlt |- *. rewrite (list_lookup_total_insert_eq (A := Z) d) by done. by rewrite testbit_u8.
  - rewrite (list_lookup_total_insert_ne (A := Z) d); [done |]. lia.
Qed.

Lemma bit_same : bi / 8 = bj / 8 → bj mod 8 = bi mod 8 → bi = bj.
Proof. intros E1 E2. rewrite (Z.div_mod bi 8), (Z.div_mod bj 8) by lia. lia. Qed.

Lemma bit_free_mark : bit_free bj (bit_mark bi d) = if decide (bj = bi) then false else bit_free bj d.
Proof.
  unfold bit_mark. rewrite bit_upd_free. pose proof (Z.mod_pos_bound bj 8 ltac:(lia)) as Hp.
  case_decide as E.
  - rewrite Z.lor_spec, bit_mask_testbit by lia. case_decide as E2.
    + subst. by rewrite bool_decide_true, orb_true_r.
    + rewrite bool_decide_false, orb_false_r, bit_free_testbit; [unfold byte_of; by rewrite E |].
      intros E3. by apply E2, eq_sym, bit_same.
  - rewrite decide_False; [done |]. congruence.
Qed.

Lemma bit_free_clear : bit_free bj (bit_clear bi d) = if decide (bj = bi) then true else bit_free bj d.
Proof.
  unfold bit_clear. rewrite bit_upd_free. pose proof (Z.mod_pos_bound bj 8 ltac:(lia)) as Hp.
  case_decide as E.
  - rewrite Z.land_spec, Z.lnot_spec, bit_mask_testbit by lia. case_decide as E2.
    + subst. rewrite bool_decide_true by done. by rewrite andb_false_r.
    + rewrite bool_decide_false, andb_true_r, bit_free_testbit; [unfold byte_of; by rewrite E |].
      intros E3. by apply E2, eq_sym, bit_same.
  - rewrite decide_False; [done |]. congruence.
Qed.
End Bits.

Lemma BBLOCK_inj sb b x :
  0 <= b → 0 <= x → 0 <= sb_bmapstart sb → b / BPB + sb_bmapstart sb < 2 ^ 32 →
  x / BPB + sb_bmapstart sb < 2 ^ 32 →
  BBLOCK b sb = BBLOCK x sb → b mod BPB = x mod BPB → b = x.
Proof.
  intros Hb Hx Hs H1 H2 E1 E2. unfold BBLOCK in E1. assert (0 < BPB) by (params; lia).
  pose proof (Z.div_pos b BPB ltac:(lia) ltac:(lia)). pose proof (Z.div_pos x BPB ltac:(lia) ltac:(lia)).
  rewrite !u32_small in E1 by lia.
  rewrite (Z.div_mod b BPB), (Z.div_mod x BPB) by lia. rewrite E2. lia.
Qed.

Section Bitmap.
Context {S U : Type} `{BlockLayerOk S} `{UserMem U}.
Implicit Types (s : fst S U) (v : bview).

(** The free map after one bit of it was changed. *)
Lemma in_use_upd sb v b x (d d' : block) (r : bool) :
  sbwf sb v → 0 <= b < sb_size sb → 0 <= x < sb_size sb →
  bv_now v !! BBLOCK b sb = Some d → length d = bsize →
  (∀ j, 0 <= j < BPB → bit_free j d' = if decide (j = b mod BPB) then r else bit_free j d) →
  in_use sb (bv_upd (BBLOCK b sb) d' v) x = if decide (x = b) then negb r else in_use sb v x.
Proof.
  intros Hsb Hb Hx Hd Hl Hd'. unfold in_use. simpl.
  assert (0 < BPB) as HB by (params; lia). pose proof (sw_bmap _ _ Hsb) as [Hs1 Hs2].
  assert (∀ y, 0 <= y < sb_size sb → y / BPB + sb_bmapstart sb < 2 ^ 32) as Hdv.
  { intros y Hy. pose proof (Z.div_le_mono y (sb_size sb) BPB ltac:(lia) ltac:(lia)). lia. }
  destruct (decide (BBLOCK x sb = BBLOCK b sb)) as [E|E].
  - rewrite E, lookup_insert_eq, Hd, Hd' by (apply Z.mod_pos_bound; lia).
    destruct (decide (x = b)) as [->|Hne]; [by rewrite decide_True |].
    rewrite decide_False; [done |]. intros E2. apply Hne.
    apply (BBLOCK_inj sb); try done; try lia; apply Hdv; lia.
  - rewrite lookup_insert_ne by done. rewrite decide_False by congruence. done.
Qed.

(** ** [bfree] *)
Lemma bfree_spec s v b d :
  frep s v → sbwf (fs_sb s) v → 0 <= b < sb_size (fs_sb s) →
  bv_now v !! BBLOCK b (fs_sb s) = Some d → BBLOCK b (fs_sb s) ∉ bv_held v →
  in_use (fs_sb s) v b = true → room 1 v → 1 <= bv_open v →
  wp (bfree ROOTDEV b) (λ _ s', frep s' (bv_upd (BBLOCK b (fs_sb s)) (bit_clear (b mod BPB) d) v) ∧
    sframe s s' ∧ ∀ j x, x ∈ bv_held v → fhandle s j x → fhandle s' j x) s.
Proof.
  intros R Hsb Hb Hd Hh Hu Hroom Ho. unfold bfree. wp_steps.
  eapply wp_mono; [by apply (fs_bread _ _ _ _ R Hd Hh) |].
  intros bp s1 (R1 & Hbp & Hdat & F1 & K1). unfold buf_data. wp_steps. rewrite Hdat.
  unfold in_use in Hu. rewrite Hd in Hu. apply negb_true_iff in Hu. rewrite Hu.
  apply (fs_log_data_end s1 v bp (BBLOCK b (fs_sb s)) _ _ R1 Hbp Hh); try done.
  - rewrite bit_clear_length. by eapply frep_len.
  - intros s2 R2 F2 K2. split_and!; [done | by etrans |].
    intros j x Hx Hj. apply K2; [congruence | auto].
Qed.

Lemma bfree_panics s v b d :
  frep s v → bv_now v !! BBLOCK b (fs_sb s) = Some d → BBLOCK b (fs_sb s) ∉ bv_held v →
  in_use (fs_sb s) v b = false → room 1 v →
  fails (bfree ROOTDEV b) "freeing free block" s.
Proof.
  intros R Hd Hh Hu Hroom. unfold bfree. apply fails_bind. wp_steps. apply fails_bind.
  eapply wp_mono; [by apply (fs_bread _ _ _ _ R Hd Hh) |].
  intros bp s1 (R1 & Hbp & Hdat & F1 & K1). apply fails_bind. unfold buf_data. wp_steps. rewrite Hdat.
  unfold in_use in Hu. rewrite Hd in Hu. apply negb_false_iff in Hu. rewrite Hu. done.
Qed.

(** ** A full disk *)
Lemma balloc_loop_full fuel b s v :
  frep s v → sbwf (fs_sb s) v → room 1 v → 0 <= b → b mod BPB = 0 →
  (sb_size (fs_sb s) - b <= (Z.of_nat fuel - 1) * BPB) → (0 < fuel)%nat →
  (∀ x, 0 <= x < sb_size (fs_sb s) → BBLOCK x (fs_sb s) ∉ bv_held v) →
  (∀ x, 0 <= x < sb_size (fs_sb s) → in_use (fs_sb s) v x = true) →
  fails (balloc_loop fuel ROOTDEV b) "balloc: out of blocks" s.
Proof.
  revert b s. induction fuel as [|fuel IH]; intros b s R Hsb Hroom Hb Hm Hfuel Hpos Hbmh Hall; [lia |].
  cbn [balloc_loop]. apply fails_bind. wp_steps.
  destruct (decide (b < sb_size (fs_sb s))) as [Hlt|Hge]; [| done].
  pose proof (sw_bmap_dom _ _ Hsb b ltac:(lia)) as [d Hd]%elem_of_dom.
  apply fails_bind. eapply wp_mono; [apply (fs_bread _ _ _ _ R Hd (Hbmh b ltac:(lia)) Hroom) |].
  intros bp s1 (R1 & Hbp & Hdat & F1 & K1). apply fails_bind. unfold buf_data. wp_steps. rewrite Hdat.
  destruct (find_free _ _ _) as [bi|] eqn:Eff.
  { exfalso. apply find_free_Some in Eff as (Hbi & Hbf & _).
    destruct (BBLOCK_same (fs_sb s) b bi Hb Hm ltac:(lia)) as [EB Emod].
    pose proof (Hall (b + bi) ltac:(lia)) as Hu. unfold in_use in Hu.
    by rewrite EB, Hd, Emod, Hbf in Hu. }
  apply fails_bind. eapply wp_mono; [apply (fs_brelse _ _ _ _ R1 Hbp (Hbmh b ltac:(lia))) |].
  { intros Hl. apply (frep_clean _ _ _ R); [apply Hbmh; lia | done]. }
  intros _ s2 (R2 & F2 & K2). assert (Esb : fs_sb s2 = fs_sb s).
  { transitivity (fs_sb s1); [apply F2 | apply F1]. }
  apply IH; rewrite ?Esb; try done.
  - params. lia.
  - rewrite Z.add_mod, Hm by (params; lia). params. done.
  - lia.
  - params. lia.
Qed.

Lemma balloc_full s v :
  frep s v → sbwf (fs_sb s) v → room 1 v →
  (∀ x, 0 <= x < sb_size (fs_sb s) → BBLOCK x (fs_sb s) ∉ bv_held v) →
  (∀ x, 0 <= x < sb_size (fs_sb s) → in_use (fs_sb s) v x = true) →
  fails (balloc ROOTDEV) "balloc: out of blocks" s.
Proof.
  intros R Hsb Hroom Hh Hall. unfold balloc. apply fails_bind. wp_steps.
  apply (balloc_loop_full _ _ _ v); try done; try lia.
  pose proof (sw_size _ _ Hsb). pose proof (Z.div_pos (sb_size (fs_sb s)) BPB ltac:(lia) ltac:(params; lia)).
  rewrite Nat2Z.inj_add, Z2Nat.id by done.
  pose proof (Z.mul_succ_div_gt (sb_size (fs_sb s)) BPB ltac:(params; lia)). params. lia.
Qed.
End Bitmap.
