(* ===== verification/Image.v ===== *)
(** * Concrete disk images

    A small file system laid out the way [mkfs] does it (boot block, super
    block, log, inodes, bitmap, data), on which the theorems about
    [kernel/fs.c] are instantiated, and a flat user memory. *)
From S2P Require Import Prelude Params CString Locks BlockLayer Fs Dir FsBlocks.

Definition image_map (img : list block) : gmap Z block :=
  list_to_map (imap (λ k d, (Z.of_nat k, d)) img).

Lemma image_lookup img b :
  image_map img !! b = if decide (0 <= b) then img !! Z.to_nat b else None.
Proof.
  unfold image_map.
  assert (Hk : (imap (λ k d, (Z.of_nat k, d)) img).*1 = Z.of_nat <$> seq 0 (length img)).
  { apply list_eq. intros k. rewrite !list_lookup_fmap, list_lookup_imap.
    destruct (decide (k < length img)%nat) as [Hlt|Hge].
    - rewrite lookup_seq_lt by done. destruct (lookup_lt_is_Some_2 _ _ Hlt) as [d ->]. done.
    - rewrite (lookup_ge_None_2 img) by lia. by rewrite lookup_seq_ge by lia. }
  assert (Hnd : NoDup (imap (λ k d, (Z.of_nat k, d)) img).*1).
  { rewrite Hk. apply NoDup_fmap_2_strong; [| apply NoDup_seq]. intros x y _ _. lia. }
  case_decide as Hb.
  - destruct (img !! Z.to_nat b) as [d|] eqn:E.
    + apply elem_of_list_to_map_1; [done |]. apply list_elem_of_lookup. exists (Z.to_nat b).
      rewrite list_lookup_imap, E. simpl. by rewrite Z2Nat.id by lia.
    + apply not_elem_of_list_to_map_1. rewrite Hk. intros (k & -> & Hk'%elem_of_seq)%list_elem_of_fmap.
      apply lookup_ge_None_1 in E. lia.
  - apply not_elem_of_list_to_map_1. rewrite Hk. intros (k & -> & _)%list_elem_of_fmap. lia.
Qed.

Lemma image_dom img b : b ∈ dom (image_map img) ↔ 0 <= b < Z.of_nat (length img).
Proof.
  rewrite elem_of_dom, image_lookup. case_decide; [rewrite lookup_lt_is_Some; lia |].
  split; [by intros [] | lia].
Qed.

(** The view of an image, with [o] operations open. *)
Definition image_view (img : list block) (o : Z) : bview :=
  BView (image_map img) (image_map img) ∅ ∅ o.

Lemma image_rep img o pid :
  Forall (λ d : block, length d = bsize) img → mem_rep (MemSt (image_view img o) pid) (image_view img o).
Proof.
  intros Hl. split; cbn [image_view bv_now bv_disk bv_held bv_log].
  - done.
  - intros b. rewrite image_dom. lia.
  - intros b d. rewrite image_lookup. case_decide; [| done]. intros Hd.
    rewrite Forall_lookup in Hl. eauto.
  - done.
  - set_solver.
  - split; [set_solver |]. change (size (∅ : gset Z) ≤ 29)%nat. rewrite size_empty. lia.
Qed.

(** A flat user memory of [n] bytes: any access beyond it fails at once. *)
#[export] Instance flat_mem : UserMem (list Z) := {
  um_copyout va data mem :=
    if decide (data = [] ∨ 0 <= va ∧ (Z.to_nat va + length data ≤ length mem)%nat)
    then (0, splice (Z.to_nat va) data mem) else (-1, mem);
  um_copyin va n mem :=
    if decide (n = 0%nat ∨ 0 <= va ∧ (Z.to_nat va + n ≤ length mem)%nat)
    then (0, slice (Z.to_nat va) n mem) else (-1, []);
  um_copyinstr va n mem :=
    if decide (0 <= va) then
      (let s := cstr (drop (Z.to_nat va) mem) in
       if decide (length s < n ∧ Z.to_nat va + length s < length mem)%nat then Some s else None)
    else None;
}.

(** ** The example: 64 blocks, log at 2..31, inodes at 32 and 33, bitmap at
    34, data from 35 on; inode 1 is the root directory in block 35. *)
Definition sb64 : superblock := Superblock FSMAGIC 64 28 32 30 2 32 34.

Definition pad (l : list Z) : block := take bsize (l ++ replicate bsize 0).
Definition sb_bytes (sb : superblock) : list Z :=
  enc32s [sb_magic sb; sb_size sb; sb_nblocks sb; sb_ninodes sb;
          sb_nlog sb; sb_logstart sb; sb_inodestart sb; sb_bmapstart sb].
Definition root_dinode : dinode := Dinode 32 (35 :: replicate 12 0) T_DIR 1 M_ALL M_ALL.
Definition root_block : block :=
  pad (dirent_bytes (Dirent 1 [46;0;0;0;0;0;0;0;0;0;0;0;0;0]) ++
       dirent_bytes (Dirent 1 [46;46;0;0;0;0;0;0;0;0;0;0;0;0])).
(** 36 blocks in use. *)
Definition bitmap64 : block := pad (replicate 4 255 ++ [15]).
Definition image64 : list block :=
  [zero_block; pad (sb_bytes sb64)] ++ replicate 30 zero_block ++
  [dinode_store 64 root_dinode zero_block; zero_block; bitmap64; root_block] ++
  replicate 28 zero_block.

Lemma image64_lengths : Forall (λ d : block, length d = bsize) image64.
Proof.
  assert (forallb (λ d : block, bool_decide (length d = bsize)) image64 = true) as H
    by (vm_compute; reflexivity).
  apply Forall_forall. intros d Hd%list_elem_of_In. rewrite forallb_forall in H.
  by apply H, bool_decide_eq_true in Hd.
Qed.

Definition fs64 (o : Z) : fst memst (list Z) :=
  Fst (MemSt (image_view image64 o) 7) sb64 (replicate ninode inode0) 0 (replicate 4096 0).
Definition view64 (o : Z) : bview := image_view image64 o.

Lemma fs64_rep o : frep (fs64 o) (view64 o).
Proof. apply image_rep, image64_lengths. Qed.

Lemma image64_length : length image64 = 64%nat.
Proof. vm_compute. reflexivity. Qed.

Lemma BBLOCK64 b : 0 <= b < 64 → BBLOCK b sb64 = 34.
Proof. intros Hb. unfold BBLOCK. rewrite Z.div_small by (params; lia). done. Qed.

Lemma view64_bitmap o : bv_now (view64 o) !! 34 = Some bitmap64.
Proof.
  cbn [view64 image_view bv_now]. rewrite image_lookup, decide_True by lia. vm_compute. reflexivity.
Qed.

Lemma fs64_sbwf o : sbwf sb64 (view64 o).
Proof.
  split; cbn [sb64 sb_size sb_bmapstart].
  - lia.
  - intros b Hb. cbn [view64 image_view bv_now]. rewrite image_dom, image64_length. lia.
  - vm_compute. split; [done | done].
  - intros b Hb. rewrite BBLOCK64 by done. apply elem_of_dom. rewrite view64_bitmap. done.
Qed.

(** The first 36 blocks are in use, the others free. *)
Lemma fs64_in_use o b : 0 <= b < 64 → in_use sb64 (view64 o) b = bool_decide (b < 36).
Proof.
  intros Hb. unfold in_use. rewrite BBLOCK64, view64_bitmap, Z.mod_small by (params; lia).
  assert (forallb (λ k : nat, eqb (negb (bit_free (Z.of_nat k) bitmap64)) (bool_decide (Z.of_nat k < 36)))
            (seq 0 64) = true) as H by (vm_compute; reflexivity).
  rewrite forallb_forall in H. specialize (H (Z.to_nat b)).
  rewrite Z2Nat.id in H by lia. apply eqb_prop, H. apply list_elem_of_In, elem_of_seq. lia.
Qed.
