(* ===== verification/BlockAlloc.v ===== *)
(** * The block allocator: theorems ([balloc], [bfree] of [kernel/fs.c]) *)
From S2P Require Import Prelude Params CString Locks BlockLayer Fs Dir FsBlocks Image.

(** Every bitmap block is marked in the bitmap, as [mkfs] leaves it. *)
Definition bitmap_reserved (sb : superblock) (v : bview) : Prop :=
  ∀ b x, 0 <= b < sb_size sb → 0 <= x < sb_size sb → in_use sb v b = false → b ≠ BBLOCK x sb.

Section Theorems.
Context {S U : Type} `{BlockLayerOk S} `{UserMem U}.

(** What an allocation does to the view. *)
Lemma balloc_view_facts sb v r (d : block) :
  sbwf sb v → bitmap_reserved sb v → 0 <= r < sb_size sb → in_use sb v r = false →
  bv_now v !! BBLOCK r sb = Some d → length d = bsize →
  let v' := balloc_view sb r d v in
  bv_now v' !! r = Some zero_block ∧
  (∀ x, 0 <= x < sb_size sb → in_use sb v' x = if decide (x = r) then true else in_use sb v x) ∧
  (∀ b, b ≠ r → (∀ x, 0 <= x < sb_size sb → b ≠ BBLOCK x sb) → bv_now v' !! b = bv_now v !! b).
Proof.
  intros Hsb Hres Hr Hfree Hd Hl v'.
  assert (Hne : ∀ x, 0 <= x < sb_size sb → r ≠ BBLOCK x sb) by (intros x Hx; by apply Hres).
  split_and!.
  - unfold v', balloc_view. simpl. by rewrite lookup_insert_eq.
  - intros x Hx. transitivity (in_use sb (bv_upd (BBLOCK r sb) (bit_mark (r mod BPB) d) v) x).
    + unfold in_use, v', balloc_view. cbn [bv_now bv_upd]. rewrite lookup_insert_ne by (by apply Hne). done.
    + apply (in_use_upd sb v r x d _ false); try done. intros j Hj.
      apply bit_free_mark; [done | apply Z.mod_pos_bound; params; lia | done].
  - intros b Hbr Hb. unfold v', balloc_view. simpl.
    rewrite !lookup_insert_ne; [done | | done]. specialize (Hb r Hr). congruence.
Qed.

(** C34: [balloc] with a free block available returns the lowest-numbered
    free block; afterwards that block is marked in use and holds only
    zeros, no other bit of the free map has changed, and neither has any
    other block outside the free map. *)
Theorem balloc_correct (s : fst S U) v :
  frep s v → sbwf (fs_sb s) v → bitmap_reserved (fs_sb s) v → room 2 v → 1 <= bv_open v →
  bv_held v = ∅ → (∃ x, 0 <= x < sb_size (fs_sb s) ∧ in_use (fs_sb s) v x = false) →
  wp (balloc ROOTDEV) (λ r s', ∃ v', frep s' v' ∧ bv_held v' = ∅ ∧
    0 <= r < sb_size (fs_sb s) ∧ in_use (fs_sb s) v r = false ∧
    (∀ x, 0 <= x < r → in_use (fs_sb s) v x = true) ∧
    bv_now v' !! r = Some zero_block ∧
    (∀ x, 0 <= x < sb_size (fs_sb s) →
       in_use (fs_sb s) v' x = if decide (x = r) then true else in_use (fs_sb s) v x) ∧
    (∀ b, b ≠ r → (∀ x, 0 <= x < sb_size (fs_sb s) → b ≠ BBLOCK x (fs_sb s)) →
       bv_now v' !! b = bv_now v !! b)) s.
Proof.
  intros R Hsb Hres Hroom Ho Hheld Hex.
  eapply wp_mono; [apply (balloc_spec s v); try done; rewrite Hheld; set_solver |].
  intros r s' (Hr & Hfree & Hmin & (d & Hd & R') & F & _).
  pose proof (frep_len _ _ _ _ R Hd) as Hl.
  destruct (balloc_view_facts _ _ _ _ Hsb Hres Hr Hfree Hd Hl) as (H1' & H2' & H3').
  exists (balloc_view (fs_sb s) r d v). split_and!; try done; lia.
Qed.

(** [balloc] never hands out a block it should not: when every bit of
    the free map is set it panics with "balloc: out of blocks". *)
Theorem balloc_out_of_blocks (s : fst S U) v :
  frep s v → sbwf (fs_sb s) v → room 1 v → bv_held v = ∅ →
  (∀ x, 0 <= x < sb_size (fs_sb s) → in_use (fs_sb s) v x = true) →
  balloc ROOTDEV s = Panic "balloc: out of blocks".
Proof.
  intros R Hsb Hroom Hheld Hall. apply (balloc_full s v); try done. rewrite Hheld. set_solver.
Qed.

(** Freeing the block just allocated restores the free map: after
    [b = balloc(dev); bfree(dev, b)] every bit is what it was before. *)
Theorem balloc_bfree_roundtrip (s : fst S U) v :
  frep s v → sbwf (fs_sb s) v → bitmap_reserved (fs_sb s) v → room 3 v → 1 <= bv_open v →
  bv_held v = ∅ → (∃ x, 0 <= x < sb_size (fs_sb s) ∧ in_use (fs_sb s) v x = false) →
  wp (let! b := balloc ROOTDEV in bfree ROOTDEV b) (λ _ s', ∃ v', frep s' v' ∧
    ∀ x, 0 <= x < sb_size (fs_sb s) → in_use (fs_sb s) v' x = in_use (fs_sb s) v x) s.
Proof.
  intros R Hsb Hres Hroom Ho Hheld Hex. apply wp_bind.
  eapply wp_mono; [apply (balloc_spec s v); try done; try (rewrite Hheld; set_solver);
    by eapply room_le; [done | lia] |].
  intros r s' (Hr & Hfree & Hmin & (d & Hd & R') & F & _).
  pose proof (frep_len _ _ _ _ R Hd) as Hl. assert (Esb : fs_sb s' = fs_sb s) by apply F.
  destruct (balloc_view_facts _ _ _ _ Hsb Hres Hr Hfree Hd Hl) as (H1' & H2' & H3').
  set (v1 := balloc_view (fs_sb s) r d v) in *.
  assert (Hd1 : bv_now v1 !! BBLOCK r (fs_sb s) = Some (bit_mark (r mod BPB) d)).
  { unfold v1, balloc_view. simpl. rewrite lookup_insert_ne by (by apply Hres). by rewrite lookup_insert_eq. }
  assert (Hsb1 : sbwf (fs_sb s) v1).
  { destruct Hsb. split; try done; intros b Hb; unfold v1, balloc_view; rewrite !bv_upd_dom;
      do 2 apply elem_of_union_r; auto. }
  eapply wp_mono; [apply (bfree_spec s' v1 r (bit_mark (r mod BPB) d)); rewrite ?Esb; try done |].
  - unfold v1. simpl. rewrite Hheld. set_solver.
  - rewrite H2' by done. by rewrite decide_True.
  - unfold v1, balloc_view. by do 2 apply room_upd.
  - rewrite Esb. intros _ s2 (R2 & _ & _). eexists. split; [exact R2 |]. intros x Hx.
    rewrite (in_use_upd (fs_sb s) v1 r x (bit_mark (r mod BPB) d) _ true); try done.
    + rewrite H2' by done. case_decide; [subst; by rewrite Hfree | done].
    + by rewrite bit_mark_length.
    + intros j Hj. apply bit_free_clear; [by rewrite bit_mark_length | apply Z.mod_pos_bound; params; lia | done].
Qed.

(** [bfree] of a block whose bit is already clear panics with "freeing
    free block" instead of corrupting the free map. *)
Theorem bfree_double_free (s : fst S U) v b (d : block) :
  frep s v → bv_now v !! BBLOCK b (fs_sb s) = Some d → bv_held v = ∅ →
  in_use (fs_sb s) v b = false → room 1 v →
  bfree ROOTDEV b s = Panic "freeing free block".
Proof. intros R Hd Hheld Hu Hroom. apply (bfree_panics s v b d); try done. rewrite Hheld. set_solver. Qed.
End Theorems.

(** ** On the example image *)
Lemma fs64_reserved o : bitmap_reserved sb64 (view64 o).
Proof.
  intros b x Hb Hx. rewrite fs64_in_use, BBLOCK64 by done. case_bool_decide; [done |]. lia.
Qed.

Lemma view64_room o k : (k ≤ 29)%nat → room (S := memst) k (view64 o).
Proof.
  intros Hk. unfold room. cbn [view64 image_view bv_held bv_log]. rewrite size_empty. exact Hk.
Qed.

Lemma balloc_correct_witness :
  wp (balloc ROOTDEV) (λ r s', ∃ v', frep s' v' ∧ bv_held v' = ∅ ∧
    0 <= r < 64 ∧ in_use sb64 (view64 1) r = false ∧
    (∀ x, 0 <= x < r → in_use sb64 (view64 1) x = true) ∧
    bv_now v' !! r = Some zero_block ∧
    (∀ x, 0 <= x < 64 → in_use sb64 v' x = if decide (x = r) then true else in_use sb64 (view64 1) x) ∧
    (∀ b, b ≠ r → (∀ x, 0 <= x < 64 → b ≠ BBLOCK x sb64) →
       bv_now v' !! b = bv_now (view64 1) !! b)) (fs64 1).
Proof.
  apply (balloc_correct (fs64 1) (view64 1)).
  - apply fs64_rep.
  - apply fs64_sbwf.
  - apply fs64_reserved.
  - apply view64_room. lia.
  - cbn. lia.
  - reflexivity.
  - exists 40. split; [cbn; lia |]. rewrite fs64_in_use by lia. reflexivity.
Defined.

(** The same image with every block marked. *)
Definition full_block : block := replicate bsize 255.
Definition image_full : list block := <[34%nat := full_block]> image64.
Definition fs_full : fst memst (list Z) :=
  Fst (MemSt (image_view image_full 1) 7) sb64 (replicate ninode inode0) 0 (replicate 4096 0).

Lemma balloc_out_of_blocks_witness : balloc ROOTDEV fs_full = Panic "balloc: out of blocks".
Proof.
  assert (Hlen : length image_full = 64%nat) by (vm_compute; reflexivity).
  assert (Hbm : bv_now (image_view image_full 1) !! 34 = Some full_block).
  { cbn [image_view bv_now]. rewrite image_lookup, decide_True by lia. vm_compute. reflexivity. }
  apply (balloc_out_of_blocks fs_full (image_view image_full 1)).
  - apply image_rep. apply Forall_insert; [apply image64_lengths | apply length_replicate].
  - split; cbn [fs_full fs_sb sb64 sb_size sb_bmapstart].
    + lia.
    + intros b Hb. cbn [image_view bv_now]. rewrite image_dom, Hlen. lia.
    + vm_compute. split; done.
    + intros b Hb. rewrite BBLOCK64 by done. apply elem_of_dom. rewrite Hbm. done.
  - unfold room. cbn [image_view bv_held bv_log]. rewrite size_empty. cbn. lia.
  - reflexivity.
  - intros x Hx. cbn in Hx. unfold in_use. cbn [fs_full fs_sb].
    rewrite BBLOCK64, Hbm, bit_free_testbit by lia.
    assert (Hi : (Z.to_nat (x mod BPB / 8) < bsize)%nat).
    { rewrite Z.mod_small by (params; lia). pose proof (Z.div_lt_upper_bound x 8 64). params. lia. }
    assert (byte_of (x mod BPB) full_block = 255) as ->.
    { apply (list_lookup_total_correct (A := Z) full_block). by apply lookup_replicate_2. }
    pose proof (Z.mod_pos_bound (x mod BPB) 8 ltac:(lia)).
    change 255 with (Z.ones 8). rewrite Z.ones_spec_low by lia. done.
Defined.

Lemma balloc_bfree_roundtrip_witness :
  wp (let! b := balloc ROOTDEV in bfree ROOTDEV b) (λ _ s', ∃ v', frep s' v' ∧
    ∀ x, 0 <= x < 64 → in_use sb64 v' x = in_use sb64 (view64 1) x) (fs64 1).
Proof.
  apply (balloc_bfree_roundtrip (fs64 1) (view64 1)).
  - apply fs64_rep.
  - apply fs64_sbwf.
  - apply fs64_reserved.
  - apply view64_room. lia.
  - cbn. lia.
  - reflexivity.
  - exists 40. split; [cbn; lia |]. rewrite fs64_in_use by lia. reflexivity.
Defined.

Lemma bfree_double_free_witness : bfree ROOTDEV 50 (fs64 1) = Panic "freeing free block".
Proof.
  apply (bfree_double_free (fs64 1) (view64 1) 50 bitmap64).
  - apply fs64_rep.
  - apply view64_bitmap.
  - reflexivity.
  - rewrite fs64_in_use by lia. reflexivity.
  - apply view64_room. lia.
Defined.
