(* ===== verification/FsInode.v ===== *)
(** * Inodes: the on-disk codec, [iupdate], [ilock], [ialloc] and the inode
      cache ([kernel/fs.c]) *)
From S2P Require Import Prelude Params CString Locks BlockLayer Fs Dir FsBlocks.

(** ** Arrays of [uint]s on the disk *)
Lemma enc32s_length l : length (enc32s l) = (4 * length l)%nat.
Proof.
  unfold enc32s. induction l as [|x l IH]; [done |]. cbn [fmap list_fmap concat].
  rewrite length_app, IH. cbn [length]. rewrite le_enc_length. lia.
Qed.

Lemma enc32s_slice l (k : nat) x : l !! k = Some x → slice (4 * k) 4 (enc32s l) = le_enc 4 x.
Proof.
  revert k. induction l as [|y l IH]; intros [|k]; cbn [lookup list_lookup]; intros Hk; try done.
  - injection Hk as ->. unfold slice, enc32s. cbn [fmap list_fmap concat].
    change (4 * 0)%nat with 0%nat. rewrite drop_0.
    rewrite take_app_le by (rewrite le_enc_length; lia). apply take_ge. rewrite le_enc_length. lia.
  - unfold slice in *. unfold enc32s in *. cbn [fmap list_fmap concat].
    rewrite drop_app_ge by (rewrite le_enc_length; lia). rewrite le_enc_length.
    replace (4 * S k - 4)%nat with (4 * k)%nat by lia. by apply IH.
Qed.

Lemma ld32s_enc off l (d : list Z) :
  (off + 4 * length l ≤ length d)%nat → Forall (λ x, 0 <= x < 2 ^ 32) l →
  ld32s off (length l) (splice off (enc32s l) d) = l.
Proof.
  intros Hl Hr. unfold ld32s. apply list_eq. intros k. rewrite list_lookup_fmap.
  destruct (decide (k < length l)%nat) as [Hk|Hk].
  - rewrite lookup_seq_lt by done. destruct (lookup_lt_is_Some_2 _ _ Hk) as [x Hx]. rewrite Hx. simpl.
    f_equal. unfold ld32, ldn.
    rewrite (slice_ext _ _ _ (4 * k) (enc32s l)).
    + rewrite (enc32s_slice _ _ _ Hx), le_dec_enc. apply Z.mod_small.
      rewrite Forall_lookup in Hr. by apply Hr in Hx.
    + rewrite splice_length; rewrite ?enc32s_length; lia.
    + rewrite enc32s_length. lia.
    + intros j Hj. rewrite lookup_splice_in; rewrite ?enc32s_length; try lia. f_equal. lia.
  - rewrite lookup_seq_ge by lia. by rewrite lookup_ge_None_2 by lia.
Qed.

(** Typed loads only look at their own bytes. *)
Lemma ldn_splice_disjoint k off off' new (d : list Z) :
  (off + k ≤ length d)%nat → (off' + length new ≤ length d)%nat →
  (off + k ≤ off' ∨ off' + length new ≤ off)%nat → ldn k off (splice off' new d) = ldn k off d.
Proof. intros ???. unfold ldn. by rewrite slice_splice_disjoint. Qed.

(** ** Dinodes *)
Record dinode_ok (x : dinode) : Prop := {
  do_size : 0 <= d_size x < 2 ^ 32;
  do_addrs : length (d_addrs x) = naddrs ∧ Forall (λ a, 0 <= a < 2 ^ 32) (d_addrs x);
  do_type : - 2 ^ 15 <= d_type x < 2 ^ 15;
  do_nlink : - 2 ^ 15 <= d_nlink x < 2 ^ 15;
  do_mode : - 2 ^ 15 <= d_mode x < 2 ^ 15;
  do_perm : - 2 ^ 15 <= d_perm x < 2 ^ 15;
}.

Lemma naddrs_eq : naddrs = 13%nat. Proof. done. Qed.

Lemma dinode_store_length off x (d : block) :
  (off + 64 ≤ length d)%nat → length (d_addrs x) = naddrs →
  length (dinode_store off x d) = length d.
Proof.
  intros Hl Ha. unfold dinode_store, st16, st32.
  rewrite splice_length; rewrite ?enc32s_length, ?Ha, ?naddrs_eq; repeat rewrite stn_length; lia.
Qed.

Lemma ld16_st16_s16 off x (d : list Z) :
  (off + 2 ≤ length d)%nat → - 2 ^ 15 <= x < 2 ^ 15 → s16 (ld16 off (st16 off x d)) = x.
Proof.
  intros Hl Hx. unfold ld16, st16. rewrite ldn_stn_same by done.
  change (s16 (u16 x) = x). rewrite s16_u16. by apply s16_small.
Qed.

Ltac stn_len := first [lia | rewrite stn_length; stn_len].
Lemma ldn_store_disjoint k off' off x (d : block) :
  (off + 64 ≤ length d)%nat → (off' + k ≤ length d)%nat → length (d_addrs x) = naddrs →
  (off' + k ≤ off ∨ off + 64 ≤ off')%nat →
  ldn k off' (dinode_store off x d) = ldn k off' d.
Proof.
  intros Hl Hl' Ha Hd. unfold dinode_store, st16, st32.
  rewrite ldn_splice_disjoint; rewrite ?enc32s_length, ?Ha, ?naddrs_eq;
    [| repeat rewrite stn_length; lia.. | lia].
  rewrite !ldn_stn_disjoint; [done | repeat rewrite stn_length; lia ..].
Qed.

Lemma dinode_load_ext off off' (d d' : block) :
  (∀ k j : nat, (j + k ≤ 64)%nat → ldn k (off + j) d = ldn k (off' + j) d') →
  dinode_load off d = dinode_load off' d'.
Proof.
  intros E. unfold dinode_load, ld16, ld32. f_equal; try (f_equal; apply E; lia).
  - pose proof (E 4%nat 0%nat ltac:(lia)) as E0. by rewrite !Nat.add_0_r in E0.
  - unfold ld32s. apply list_fmap_ext. intros i k Hk. apply lookup_seq in Hk as [-> Hk].
    rewrite naddrs_eq in Hk. unfold ld32. rewrite <- !Nat.add_assoc. apply E. simpl. lia.
Qed.

Lemma dinode_load_other off off' x (d : block) :
  (off + 64 ≤ length d)%nat → (off' + 64 ≤ length d)%nat → length (d_addrs x) = naddrs →
  (off' + 64 ≤ off ∨ off + 64 ≤ off')%nat →
  dinode_load off' (dinode_store off x d) = dinode_load off' d.
Proof.
  intros Hl Hl' Ha Hd. apply dinode_load_ext. intros k j Hj. apply ldn_store_disjoint; try done; lia.
Qed.

Lemma dinode_load_store off x (d : block) :
  (off + 64 ≤ length d)%nat → dinode_ok x → dinode_load off (dinode_store off x d) = x.
Proof.
  intros Hl [Hs [Ha Har] Ht Hn Hm Hp]. unfold dinode_load.
  assert (He : length (enc32s (d_addrs x)) = 52%nat) by (rewrite enc32s_length, Ha; done).
  assert (Hld : ∀ k j, (off ≤ j)%nat → (j + k ≤ off + 4 ∨ off + 56 ≤ j)%nat → (j + k ≤ off + 64)%nat →
    ldn k j (dinode_store off x d) =
    ldn k j (stn 2 (off + 62) (d_perm x) (stn 2 (off + 60) (d_mode x) (stn 4 off (d_size x)
      (stn 2 (off + 58) (d_nlink x) (stn 2 (off + 56) (d_type x) d)))))).
  { intros k j H1 H2 H3. unfold dinode_store, st16, st32.
    rewrite ldn_splice_disjoint; [done | stn_len | rewrite He; stn_len | rewrite He; lia]. }
  destruct x as [sz ad ty nl mo pe]; simpl in *. f_equal.
  - unfold ld32. rewrite Hld by lia. do 2 (rewrite ldn_stn_disjoint; [| stn_len | stn_len | lia]).
    rewrite ldn_stn_same by stn_len. apply Z.mod_small. done.
  - rewrite <- Ha at 1. unfold dinode_store. cbn [d_addrs d_type d_nlink d_size d_mode d_perm].
    unfold st16, st32. apply ld32s_enc; [| done]. rewrite Ha, naddrs_eq. stn_len.
  - unfold ld16. rewrite Hld by lia. do 4 (rewrite ldn_stn_disjoint; [| stn_len | stn_len | lia]).
    apply ld16_st16_s16; [lia | done].
  - unfold ld16. rewrite Hld by lia. do 3 (rewrite ldn_stn_disjoint; [| stn_len | stn_len | lia]).
    apply ld16_st16_s16; [stn_len | done].
  - unfold ld16. rewrite Hld by lia. do 1 (rewrite ldn_stn_disjoint; [| stn_len | stn_len | lia]).
    apply ld16_st16_s16; [stn_len | done].
  - unfold ld16. rewrite Hld by lia. apply ld16_st16_s16; [stn_len | done].
Qed.

Lemma dinode_off_bound inum : (dinode_off inum + 64 ≤ bsize)%nat.
Proof.
  unfold dinode_off. params. pose proof (Z.mod_pos_bound inum 16 ltac:(lia)). 
  change (1024 / 64) with 16. lia.
Qed.

Lemma dinode_off_disjoint a b :
  dinode_off a ≠ dinode_off b → (dinode_off a + 64 ≤ dinode_off b ∨ dinode_off b + 64 ≤ dinode_off a)%nat.
Proof.
  unfold dinode_off. params. change (1024 / 64) with 16.
  pose proof (Z.mod_pos_bound a 16 ltac:(lia)). pose proof (Z.mod_pos_bound b 16 ltac:(lia)). lia.
Qed.

(** ** Inodes as the block view records them *)
Definition inode_at (sb : superblock) (v : bview) (inum : Z) : option dinode :=
  d ← bv_now v !! IBLOCK inum sb; Some (dinode_load (dinode_off inum) d).

Record iwf (sb : superblock) (v : bview) : Prop := {
  iw_n : 0 <= sb_ninodes sb < 2 ^ 31;
  iw_start : 0 <= sb_inodestart sb ∧ sb_ninodes sb / IPB + sb_inodestart sb < 2 ^ 32;
  iw_dom : ∀ i, 0 <= i < sb_ninodes sb → IBLOCK i sb ∈ dom (bv_now v);
}.

Lemma IBLOCK_inj sb v a b :
  iwf sb v → 0 <= a < sb_ninodes sb → 0 <= b < sb_ninodes sb →
  IBLOCK a sb = IBLOCK b sb → dinode_off a = dinode_off b → a = b.
Proof.
  intros [Hn [H1 H2] _] Ha Hb E1 E2. unfold IBLOCK, dinode_off in *.
  assert (IPB = 16) as HI by done. rewrite HI in *. unfold DINODE_SIZE in *.
  pose proof (Z.div_le_mono a (sb_ninodes sb) 16). pose proof (Z.div_le_mono b (sb_ninodes sb) 16).
  pose proof (Z.div_pos a 16). pose proof (Z.div_pos b 16).
  rewrite !u32_small in E1 by lia.
  pose proof (Z.mod_pos_bound a 16 ltac:(lia)). pose proof (Z.mod_pos_bound b 16 ltac:(lia)).
  rewrite (Z.div_mod a 16), (Z.div_mod b 16) by lia. lia.
Qed.

(** Writing one dinode leaves the others alone. *)
Lemma inode_at_upd sb v a b (d : block) x :
  iwf sb v → 0 <= a < sb_ninodes sb → 0 <= b < sb_ninodes sb →
  bv_now v !! IBLOCK a sb = Some d → length d = bsize → dinode_ok x →
  inode_at sb (bv_upd (IBLOCK a sb) (dinode_store (dinode_off a) x d) v) b =
    if decide (b = a) then Some x else inode_at sb v b.
Proof.
  intros Hi Ha Hb Hd Hl Hx. unfold inode_at. simpl.
  pose proof (dinode_off_bound a). pose proof (dinode_off_bound b).
  destruct (decide (IBLOCK b sb = IBLOCK a sb)) as [E|E].
  - rewrite E, lookup_insert_eq, Hd. simpl. case_decide as Eb.
    + subst. f_equal. apply dinode_load_store; [lia | done].
    + f_equal. apply dinode_load_other; [lia | lia | apply Hx |].
      destruct (decide (dinode_off b = dinode_off a)) as [E2|E2].
      * exfalso. by apply Eb, (IBLOCK_inj sb v).
      * destruct (dinode_off_disjoint _ _ E2); lia.
  - rewrite lookup_insert_ne by done. rewrite decide_False by congruence. done.
Qed.

(** ** The inode cache *)
Record icwf (ic : list inode) : Prop := {
  ic_len : length ic = ninode;
  ic_ref : Forall (λ x, 0 <= i_ref x) ic;
  ic_uniq : ∀ (i j : nat) x y, ic !! i = Some x → ic !! j = Some y →
    0 < i_ref x → 0 < i_ref y → i_dev x = i_dev y → i_inum x = i_inum y → i = j;
}.

Lemma icwf_alter ic (i : nat) x f :
  icwf ic → ic !! i = Some x → 0 <= i_ref (f x) →
  (0 < i_ref (f x) → ∀ j y, j ≠ i → ic !! j = Some y → 0 < i_ref y →
     ¬ (i_dev y = i_dev (f x) ∧ i_inum y = i_inum (f x))) →
  icwf (alter f i ic).
Proof.
  intros [Hl Hr Hu] Hx Hf Hn. split.
  - by rewrite length_alter.
  - apply Forall_lookup. intros j y. rewrite list_lookup_alter. case_decide as E.
    + subst. rewrite Hx. intros [= <-]. done.
    + intros Hy. rewrite Forall_lookup in Hr. eauto.
  - intros j k y z. rewrite !list_lookup_alter.
    destruct (decide (i = j)) as [Ej|Hj], (decide (i = k)) as [Ek|Hk]; try subst j; try subst k; try done;
      rewrite ?Hx; intros Hy Hz P1 P2 P3 P4; simplify_eq/=.
    + exfalso. eapply Hn; eauto.
    + exfalso. eapply Hn; eauto.
    + eauto.
Qed.

Lemma icwf_insert ic (i : nat) x y :
  icwf ic → ic !! i = Some x → i_ref y = i_ref x → i_dev y = i_dev x → i_inum y = i_inum x →
  icwf (<[i := y]> ic).
Proof.
  intros Hic Hx Er Ed En. pose proof (Forall_lookup_1 _ _ _ _ (ic_ref _ Hic) Hx) as Hge. cbv beta in Hge.
  replace (<[i := y]> ic) with (alter (λ _, y) i ic) by by apply (alter_to_insert _ _ _ x).
  eapply icwf_alter; [done | done | lia |]. rewrite Er, Ed, En. intros Hp j z Hne Hz Hpz [E1 E2].
  apply Hne. eapply (ic_uniq _ Hic); eauto.
Qed.

Section InodeOps.
Context {S U : Type} `{BlockLayerOk S} `{UserMem U}.
Implicit Types (s : fst S U) (v : bview).

(** *** [iget] *)
Lemma iget_spec dev inum s :
  icwf (fs_icache s) → (∃ x, x ∈ fs_icache s ∧ (i_ref x = 0 ∨ 0 < i_ref x ∧ i_dev x = dev ∧ i_inum x = inum)) →
  wp (iget dev inum) (λ i s', ∃ x ic', fs_icache s !! i = Some x ∧ s' = cache_to ic' s ∧ icwf ic' ∧
    ((0 < i_ref x ∧ i_dev x = dev ∧ i_inum x = inum ∧ ic' = <[i := set_ref (i_ref x + 1) x]> (fs_icache s)) ∨
     (i_ref x = 0 ∧ (∀ y, y ∈ fs_icache s → 0 < i_ref y → ¬ (i_dev y = dev ∧ i_inum y = inum)) ∧
      ic' = <[i := recycle_inode dev inum x]> (fs_icache s)))) s.
Proof.
  intros Hic (x0 & Hx0 & Hav). unfold iget. wp_steps.
  destruct (list_find _ _) as [[i x]|] eqn:E1.
  - apply list_find_Some in E1 as (Hx & (Hr & Hd & Hn) & _). fs_steps.
    exists x. eexists. split_and!; [done | done | |].
    + apply (icwf_alter _ _ x); [done | done | simpl; lia |]. simpl. intros _ j y Hj Hy Hry [P1 P2].
      apply Hj. eapply (ic_uniq _ Hic); eauto; try lia; congruence.
    + left. split_and!; [lia | done | done |]. by apply alter_to_insert.
  - assert (Hno : ∀ y, y ∈ fs_icache s → 0 < i_ref y → ¬ (i_dev y = dev ∧ i_inum y = inum)).
    { apply list_find_None in E1. rewrite Forall_forall in E1. intros y Hy Hr [P1 P2].
      apply (E1 y Hy). split_and!; [lia | done | done]. }
    destruct (list_find (λ i, i_ref i = 0) _) as [[i x]|] eqn:E2.
    + apply list_find_Some in E2 as (Hx & Hr & _). fs_steps.
      exists x. eexists. split_and!; [done | done | |].
      * apply (icwf_alter _ _ x); [done | done | simpl; lia |]. simpl. intros _ j y Hj Hy Hry [P1 P2].
        apply (Hno y); [by eapply list_elem_of_lookup_2 | done | done].
      * right. split_and!; [done | done |]. by apply alter_to_insert.
    + exfalso. apply list_find_None in E2. rewrite Forall_forall in E2.
      destruct Hav as [Hr | (Hr & P1 & P2)]; [by apply (E2 _ Hx0) | by apply (Hno _ Hx0 Hr)].
Qed.

(** *** [iupdate] *)
Lemma iupdate_spec s v (i : nat) ip (d : block) :
  frep s v → fs_icache s !! i = Some ip → i_dev ip = ROOTDEV → length (i_addrs ip) = naddrs →
  bv_now v !! IBLOCK (i_inum ip) (fs_sb s) = Some d → IBLOCK (i_inum ip) (fs_sb s) ∉ bv_held v →
  room 1 v → 1 <= bv_open v →
  wp (iupdate i) (λ _ s', frep s' (bv_upd (IBLOCK (i_inum ip) (fs_sb s))
      (dinode_store (dinode_off (i_inum ip)) (inode_disk ip) d) v) ∧ sframe s s' ∧
    ∀ j x, x ∈ bv_held v → fhandle s j x → fhandle s' j x) s.
Proof.
  intros R Hip Hdev Ha Hd Hh Hroom Ho. unfold iupdate. wp_steps.
  rewrite (ino_lookup _ _ _ Hip), Hdev.
  eapply wp_mono; [by apply (fs_bread _ _ _ _ R Hd Hh) |].
  intros bp s1 (R1 & Hbp & Hdat & F1 & K1). buf_read Hdat.
  pose proof (frep_len _ _ _ _ R Hd) as Hl.
  apply (fs_log_data_end s1 v bp _ _ _ R1 Hbp Hh); try done.
  - rewrite dinode_store_length; [done | | done]. rewrite Hl. apply dinode_off_bound.
  - intros s2 R2 F2 K2. split_and!; [done | by etrans |].
    intros j x Hx Hj. apply K2; [congruence | auto].
Qed.

(** *** [ilock] and [iunlock] *)
Definition locked (s : fst S U) (x : inode) : Prop := i_lock x = SleepLock true (pid_of s).

Lemma ilock_valid s (i : nat) ip :
  fs_icache s !! i = Some ip → 1 <= i_ref ip → sl_locked (i_lock ip) = false → i_valid ip = true →
  ilock i s = Ret tt (cache_to (alter (set_ilock (SleepLock true (pid_of s))) i (fs_icache s)) s).
Proof.
  intros Hip Hr Hl Hv. unfold ilock, bind, gets. rewrite (ino_lookup _ _ _ Hip).
  rewrite decide_False by lia. unfold acquiresleep. rewrite Hl, Hv. done.
Qed.

Lemma ilock_load s v (i : nat) ip (d : block) :
  frep s v → fs_icache s !! i = Some ip → 1 <= i_ref ip → sl_locked (i_lock ip) = false →
  i_valid ip = false → i_dev ip = ROOTDEV →
  bv_now v !! IBLOCK (i_inum ip) (fs_sb s) = Some d → IBLOCK (i_inum ip) (fs_sb s) ∉ bv_held v → room 1 v →
  let x := dinode_load (dinode_off (i_inum ip)) d in
  d_type x ≠ 0 →
  wp (ilock i) (λ _ s', frep s' v ∧ fs_sb s' = fs_sb s ∧ fs_cwd s' = fs_cwd s ∧ fs_mem s' = fs_mem s ∧
    pid_of s' = pid_of s ∧
    fs_icache s' = <[i := set_dinode x (set_ilock (SleepLock true (pid_of s)) ip)]> (fs_icache s) ∧
    ∀ j y, y ∈ bv_held v → fhandle s j y → fhandle s' j y) s.
Proof.
  intros R Hip Hr Hl Hv Hdev Hd Hh Hroom x Ht. unfold ilock. wp_steps.
  rewrite (ino_lookup _ _ _ Hip), decide_False by lia. unfold acquiresleep. rewrite Hl, Hv.
  fs_steps. cbn [fs_sb cache_to]. rewrite Hdev.
  set (s1 := cache_to _ s).
  eapply wp_mono; [apply (fs_bread s1 v _ _ R Hd Hh Hroom) |].
  intros bp s2 (R2 & Hbp & Hdat & F2 & K2). buf_read Hdat. fold x. wp_step.
  eapply wp_mono; [apply (fs_brelse _ _ _ _ R2 Hbp Hh) |].
  { intros Hlog. by apply (frep_clean _ _ _ R). }
  intros _ s3 (R3 & F3 & K3). fs_steps. rewrite decide_False by done. fs_steps. cbn [cache_to fs_sb fs_cwd fs_mem fs_icache].
  destruct F2 as (A1 & A2 & A3 & A4 & A5), F3 as (B1 & B2 & B3 & B4 & B5).
  split_and!; try (unfold pid_of in *; simpl in *; congruence).
  - exact R3.
  - rewrite B2, A2. cbn [s1 cache_to fs_icache]. rewrite (alter_to_insert _ _ _ _ Hip).
    rewrite (alter_to_insert _ _ _ (set_ilock (SleepLock true (pid_of s)) ip)).
    + by rewrite list_insert_insert_eq.
    + apply list_lookup_insert_eq. by eapply lookup_lt_Some.
  - intros j y Hy Hj. apply (K3 j y); [congruence |]. by apply K2.
Qed.

Lemma iunlock_spec s (i : nat) ip :
  fs_icache s !! i = Some ip → 1 <= i_ref ip → locked s ip →
  iunlock i s = Ret tt (cache_to (alter (λ x, set_ilock (releasesleep (i_lock x)) x) i (fs_icache s)) s).
Proof.
  intros Hip Hr Hl. unfold iunlock, bind, gets. rewrite (ino_lookup _ _ _ Hip).
  unfold holdingsleep. rewrite Hl. simpl. rewrite Z.eqb_refl, bool_decide_false by lia. done.
Qed.

(** *** [ialloc] *)
Definition fresh_dinode (type : Z) : dinode := Dinode 0 (replicate naddrs 0) type 0 M_ALL M_ALL.

(** The bytes [ialloc] stores over a free dinode. *)
Definition ialloc_store (off : nat) (type : Z) (d : block) : block :=
  st16 (off + 62) (Z.lor M_READ M_WRITE) (st16 (off + 60) M_ALL (st16 (off + 56) type
    (splice off (replicate (Z.to_nat DINODE_SIZE) 0) d))).

Lemma ldn_zeros k j off (d : list Z) :
  (off + 64 ≤ length d)%nat → (off ≤ j)%nat → (j + k ≤ off + 64)%nat →
  ldn k j (splice off (replicate (Z.to_nat DINODE_SIZE) 0) d) = 0.
Proof.
  intros Hl H1' H2'. unfold ldn. transitivity (le_dec (replicate k 0)); [f_equal | apply le_dec_zeros].
  assert (Hz : length (replicate (Z.to_nat DINODE_SIZE) 0) = 64%nat) by done.
  apply list_eq. intros m. destruct (decide (m < k)%nat) as [Hm|Hm].
  - rewrite lookup_slice, lookup_splice_in by (rewrite ?Hz; lia).
    rewrite !lookup_replicate_2; [done | lia |]. change (Z.to_nat DINODE_SIZE) with 64%nat. lia.
  - rewrite !lookup_ge_None_2; [done | rewrite length_replicate; lia |].
    rewrite slice_length; [lia |]. rewrite splice_length; rewrite ?Hz; lia.
Qed.

Lemma ialloc_store_spec off type (d : block) :
  (off + 64 ≤ length d)%nat → - 2 ^ 15 <= type < 2 ^ 15 →
  length (ialloc_store off type d) = length d ∧
  dinode_load off (ialloc_store off type d) = fresh_dinode type ∧
  ∀ off', (off' + 64 ≤ length d)%nat → (off' + 64 ≤ off ∨ off + 64 ≤ off')%nat →
    dinode_load off' (ialloc_store off type d) = dinode_load off' d.
Proof.
  intros Hl Ht. unfold ialloc_store. change (Z.lor M_READ M_WRITE) with M_ALL.
  assert (Hz : length (replicate (Z.to_nat DINODE_SIZE) 0) = 64%nat) by done.
  set (z := splice off (replicate (Z.to_nat DINODE_SIZE) 0) d).
  assert (Hlz : length z = length d) by (unfold z; rewrite splice_length; rewrite ?Hz; lia).
  unfold st16. split_and!; [stn_len | |].
  - unfold dinode_load, fresh_dinode, ld32, ld16. f_equal.
    + do 3 (rewrite ldn_stn_disjoint; [| stn_len | stn_len | lia]). apply ldn_zeros; lia.
    + unfold ld32s. apply list_eq. intros k. rewrite list_lookup_fmap.
      destruct (decide (k < naddrs)%nat) as [Hk|Hk].
      * rewrite lookup_seq_lt, lookup_replicate_2 by done. simpl. f_equal. unfold ld32.
        rewrite naddrs_eq in Hk.
        do 3 (rewrite ldn_stn_disjoint; [| stn_len | stn_len | lia]). apply ldn_zeros; lia.
      * rewrite lookup_seq_ge by lia. rewrite lookup_ge_None_2; [done |]. rewrite length_replicate. lia.
    + do 2 (rewrite ldn_stn_disjoint; [| stn_len | stn_len | lia]). apply ld16_st16_s16; [lia | done].
    + do 3 (rewrite ldn_stn_disjoint; [| stn_len | stn_len | lia]). unfold z. rewrite ldn_zeros by lia. done.
    + rewrite ldn_stn_disjoint; [| stn_len | stn_len | lia].
      apply (ld16_st16_s16 (off + 60) M_ALL); [stn_len | done].
    + apply (ld16_st16_s16 (off + 62) M_ALL); [stn_len | done].
  - intros off' Hl' Hdis. apply dinode_load_ext. intros k j Hj.
    do 3 (rewrite ldn_stn_disjoint; [| stn_len | stn_len | lia]).
    unfold z. apply ldn_splice_disjoint; rewrite ?Hz; lia.
Qed.

Lemma inode_at_ialloc sb v a b (d : block) type :
  iwf sb v → 0 <= a < sb_ninodes sb → 0 <= b < sb_ninodes sb →
  bv_now v !! IBLOCK a sb = Some d → length d = bsize → - 2 ^ 15 <= type < 2 ^ 15 →
  inode_at sb (bv_upd (IBLOCK a sb) (ialloc_store (dinode_off a) type d) v) b =
    if decide (b = a) then Some (fresh_dinode type) else inode_at sb v b.
Proof.
  intros Hi Ha Hb Hd Hl Ht. unfold inode_at. simpl.
  pose proof (dinode_off_bound a). pose proof (dinode_off_bound b).
  destruct (ialloc_store_spec (dinode_off a) type d) as (_ & H1' & H2'); [lia | done |].
  destruct (decide (IBLOCK b sb = IBLOCK a sb)) as [E|E].
  - rewrite E, lookup_insert_eq, Hd. simpl. case_decide as Eb; f_equal.
    + by subst.
    + apply H2'; [lia |]. destruct (decide (dinode_off b = dinode_off a)) as [E2|E2].
      * exfalso. by apply Eb, (IBLOCK_inj sb v).
      * destruct (dinode_off_disjoint _ _ E2); lia.
  - rewrite lookup_insert_ne by done. rewrite decide_False by congruence. done.
Qed.

Lemma ialloc_loop_spec fuel inum type s0 s v :
  frep s v → sframe s0 s → iwf (fs_sb s0) v → room 1 v → 1 <= bv_open v → bv_held v = ∅ →
  - 2 ^ 15 <= type < 2 ^ 15 → icwf (fs_icache s0) → (∃ x, x ∈ fs_icache s0 ∧ i_ref x = 0) →
  1 <= inum → (sb_ninodes (fs_sb s0) - inum < Z.of_nat fuel) →
  (∃ k x, inum <= k < sb_ninodes (fs_sb s0) ∧ inode_at (fs_sb s0) v k = Some x ∧ d_type x = 0) →
  wp (ialloc_loop fuel ROOTDEV type inum) (λ i s', ∃ k x (d : block) ip ic',
    inum <= k < sb_ninodes (fs_sb s0) ∧ inode_at (fs_sb s0) v k = Some x ∧ d_type x = 0 ∧
    (∀ j y, inum <= j < k → inode_at (fs_sb s0) v j = Some y → d_type y ≠ 0) ∧
    bv_now v !! IBLOCK k (fs_sb s0) = Some d ∧
    frep s' (bv_upd (IBLOCK k (fs_sb s0)) (ialloc_store (dinode_off k) type d) v) ∧
    fs_icache s' = ic' ∧ icwf ic' ∧ ic' !! i = Some ip ∧ 0 < i_ref ip ∧ i_dev ip = ROOTDEV ∧ i_inum ip = k ∧
    fs_sb s' = fs_sb s0) s.
Proof.
  revert inum s. induction fuel as [|fuel IH];
    intros inum s R F Hi Hroom Ho Hheld Ht Hic Hfr H1' Hfuel (k & x & Hk & Hx & Hx0); [lia |].
  cbn [ialloc_loop]. wp_steps. assert (Esb : fs_sb s = fs_sb s0) by apply F. rewrite Esb.
  rewrite decide_True by lia.
  pose proof (iw_dom _ _ Hi inum ltac:(lia)) as [d Hd]%elem_of_dom.
  assert (Hnh : IBLOCK inum (fs_sb s0) ∉ bv_held v) by (rewrite Hheld; set_solver).
  eapply wp_bind, wp_mono; [apply (fs_bread _ _ _ _ R Hd Hnh Hroom) |].
  intros bp s1 (R1 & Hbp & Hdat & F1 & K1). buf_read Hdat.
  pose proof (frep_len _ _ _ _ R Hd) as Hl. pose proof (dinode_off_bound inum) as Hob.
  assert (Hat : inode_at (fs_sb s0) v inum = Some (dinode_load (dinode_off inum) d)).
  { unfold inode_at. by rewrite Hd. }
  destruct (decide (d_type (dinode_load (dinode_off inum) d) = 0)) as [E0|E0].
  - fold (ialloc_store (dinode_off inum) type d).
    destruct (ialloc_store_spec (dinode_off inum) type d) as (Hls & _ & _); [lia | done |].
    apply (fs_log_data s1 v bp _ _ _ _ R1 Hbp Hnh); try done; [lia |].
    intros s2 R2 F2 K2. assert (F02 : sframe s0 s2) by (etrans; [exact F |]; by etrans).
    assert (Eic : fs_icache s2 = fs_icache s0) by apply F02.
    eapply wp_mono; [apply iget_spec; rewrite Eic; [done |] |].
    { destruct Hfr as (y & Hy & Hy0). exists y. auto. }
    rewrite Eic. intros i s3 (y & ic' & Hy & -> & Hic' & Hcase).
    exists inum, (dinode_load (dinode_off inum) d), d.
    assert (Hlt : (i < length (fs_icache s0))%nat) by (by eapply lookup_lt_Some).
    assert (∃ ip, ic' !! i = Some ip ∧ 0 < i_ref ip ∧ i_dev ip = ROOTDEV ∧ i_inum ip = inum) as (ip & Hip).
    { destruct Hcase as [(P1 & P2 & P3 & ->) | (P1 & P2 & ->)]; eexists;
        (split; [rewrite list_lookup_insert_eq; [reflexivity | done] |]); simpl; split_and!; try done; lia. }
    exists ip, ic'. split_and!; try done; try lia; try apply Hip.
    apply F02.
  - apply wp_bind. eapply wp_mono; [apply (fs_brelse _ _ _ _ R1 Hbp Hnh) |].
    { intros Hlog. by apply (frep_clean _ _ _ R). }
    intros _ s2 (R2 & F2 & K2).
    assert (k ≠ inum) by (intros ->; rewrite Hat in Hx; congruence).
    eapply wp_mono; [apply (IH (inum + 1) s2); try done; [etrans; [exact F |]; by etrans | lia | lia |] |].
    { exists k, x. split_and!; [lia | lia | done | done]. }
    intros i s3 (k' & x' & d' & ip & ic' & P1 & P2 & P3 & P4 & P5).
    exists k', x', d', ip, ic'. split_and!; try done; try lia; try apply P5.
    intros j y Hj Hy. destruct (decide (j = inum)) as [->|]; [congruence |]. apply (P4 j y); [lia | done].
Qed.
End InodeOps.
