(* ===== verification/FsFile.v ===== *)
(** * File contents: [bmap], [readi], [writei] of [kernel/fs.c]

    A file is seen as its block slots: slots 0-11 are the direct blocks,
    slot 12 the indirect block itself, slots 13.. the entries of the
    indirect block.  [fwf] says that the slots in use name distinct,
    allocated data blocks; the operations are specified by their effect on
    the slots and on the bytes behind them. *)
From S2P Require Import Prelude Params CString Locks BlockLayer Fs Dir FsBlocks BlockAlloc FsInode.

Definition nslots : nat := 269.
Definition IND : nat := 12.

Definition slot (v : bview) (addrs : list Z) (k : nat) : Z :=
  if decide (k ≤ IND)%nat then addrs !!! k
  else if decide (addrs !!! IND = 0) then 0
  else match (bv_now v !! (addrs !!! IND) : option block) with
       | Some d => ld32 (4 * (k - 13)) d
       | None => 0
       end.
(** The slot that holds file block [bn]. *)
Definition data_slot (bn : Z) : nat :=
  if decide (bn < NDIRECT) then Z.to_nat bn else (Z.to_nat bn + 1)%nat.

(** A block of the data area: not a bitmap or inode block, not block 0. *)
Definition data_block (sb : superblock) (b : Z) : Prop :=
  0 < b < sb_size sb ∧ (∀ x, 0 <= x < sb_size sb → b ≠ BBLOCK x sb) ∧
  (∀ i, 0 <= i < sb_ninodes sb → b ≠ IBLOCK i sb).

Record fwf (sb : superblock) (v : bview) (addrs : list Z) : Prop := {
  fw_len : length addrs = naddrs;
  fw_ok : ∀ k, (k < nslots)%nat → slot v addrs k ≠ 0 →
    data_block sb (slot v addrs k) ∧ in_use sb v (slot v addrs k) = true;
  fw_inj : ∀ k j, (k < nslots)%nat → (j < nslots)%nat → slot v addrs k ≠ 0 →
    slot v addrs k = slot v addrs j → k = j;
}.

(** The file system as [bmap] needs it: geometry, and only data blocks free. *)
Record fswf (sb : superblock) (v : bview) : Prop := {
  fs_sbwf : sbwf sb v;
  fs_iwf : iwf sb v;
  fs_free : ∀ b, 0 <= b < sb_size sb → in_use sb v b = false → data_block sb b;
  fs_meta : ∀ x i, 0 <= x < sb_size sb → 0 <= i < sb_ninodes sb → IBLOCK i sb ≠ BBLOCK x sb;
}.

Lemma fswf_reserved sb v : fswf sb v → bitmap_reserved sb v.
Proof. intros H b x Hb Hx Hu. by apply (fs_free _ _ H b Hb Hu). Qed.

(** At least [n] free blocks. *)
Definition avail (sb : superblock) (v : bview) (n : nat) : Prop :=
  ∃ l : list Z, NoDup l ∧ (n ≤ length l)%nat ∧
    ∀ x, x ∈ l → 0 <= x < sb_size sb ∧ in_use sb v x = false.

Lemma avail_some sb v n : avail sb v (S n) → ∃ x, 0 <= x < sb_size sb ∧ in_use sb v x = false.
Proof.
  intros ([|x l] & _ & Hn & Hl); [simpl in Hn; lia |]. exists x. apply Hl. set_solver.
Qed.

Lemma avail_le sb v n m : avail sb v n → (m ≤ n)%nat → avail sb v m.
Proof. intros (l & H1 & H2 & H3) Hm. exists l. split_and!; [done | lia | done]. Qed.

Lemma filter_length_le_remove (l : list Z) r :
  NoDup l → (length l ≤ S (length (filter (λ x, x ≠ r) l)))%nat.
Proof.
  induction 1 as [|x l Hx Hnd IH]; [simpl; lia |]. rewrite filter_cons. case_decide as E; [simpl; lia |].
  assert (x = r) as -> by (destruct (decide (x = r)); tauto).
  assert (∀ k : list Z, r ∉ k → length (filter (λ x, x ≠ r) k) = length k) as Hall; [| rewrite Hall; done].
  intros k. induction k as [|y k IHk]; intros Hk; [done |]. rewrite filter_cons, decide_True by set_solver.
  simpl. rewrite IHk by set_solver. done.
Qed.

Lemma avail_use sb v v' r n :
  avail sb v (S n) →
  (∀ x, 0 <= x < sb_size sb → in_use sb v' x = if decide (x = r) then true else in_use sb v x) →
  avail sb v' n.
Proof.
  intros (l & Hnd & Hn & Hl) Hu. exists (filter (λ x, x ≠ r) l). split_and!.
  - by apply NoDup_filter.
  - pose proof (filter_length_le_remove l r Hnd). lia.
  - intros x [Hx Hin]%list_elem_of_filter. destruct (Hl x Hin) as [H1 H2].
    split; [done |]. rewrite Hu by done. by rewrite decide_False.
Qed.

(** ** Effects on views *)

(** Blocks of the data area that were in use keep their contents, except
    [b]; every block in use stays in use. *)
Definition data_kept (sb : superblock) (b : Z → Prop) (v v' : bview) : Prop :=
  ∀ x, data_block sb x → in_use sb v x = true → ¬ b x →
    bv_now v' !! x = bv_now v !! x.
Definition used_kept (sb : superblock) (v v' : bview) : Prop :=
  ∀ x, 0 <= x < sb_size sb → in_use sb v x = true → in_use sb v' x = true.

Lemma slot_ext v v' addrs k :
  (addrs !!! IND ≠ 0 → bv_now v' !! (addrs !!! IND) = bv_now v !! (addrs !!! IND)) →
  slot v' addrs k = slot v addrs k.
Proof.
  intros H. unfold slot. destruct (decide (k ≤ IND)%nat); [done |].
  destruct (decide (addrs !!! IND = 0)) as [|Hne]; [done |]. by rewrite (H Hne).
Qed.

Lemma slot_ind v addrs : slot v addrs IND = addrs !!! IND.
Proof. unfold slot. by rewrite decide_True by lia. Qed.

Lemma fwf_ind sb v addrs :
  fwf sb v addrs → addrs !!! IND ≠ 0 → data_block sb (addrs !!! IND) ∧ in_use sb v (addrs !!! IND) = true.
Proof. intros H Ha. rewrite <- slot_ind with (v := v) in Ha |- *. apply (fw_ok _ _ _ H); [unfold IND, nslots; lia | done]. Qed.

(** A view change that keeps the blocks in use keeps the file. *)
Lemma fwf_kept sb v v' addrs P :
  fwf sb v addrs → data_kept sb P v v' → used_kept sb v v' →
  (∀ k, (k < nslots)%nat → slot v addrs k ≠ 0 → ¬ P (slot v addrs k)) →
  fwf sb v' addrs ∧ ∀ k, slot v' addrs k = slot v addrs k.
Proof.
  intros H Hk Hu HP.
  assert (E : ∀ k, slot v' addrs k = slot v addrs k).
  { intros k. apply slot_ext. intros Ha. destruct (fwf_ind _ _ _ H Ha) as [H1 H2].
    apply Hk; try done. rewrite <- slot_ind with (v := v). apply HP; [unfold IND, nslots; lia |].
    by rewrite slot_ind. }
  split; [| done]. destruct H as [Hl Ho Hi]. split; [done | |].
  - intros k Hk'. rewrite E. intros Hs. destruct (Ho k Hk' Hs) as [H1 H2]. split; [done |].
    apply Hu; [| done]. destruct H1 as [H1 _]. lia.
  - intros k j. rewrite !E. apply Hi.
Qed.

(** Allocation of [r]. *)
Lemma balloc_kept sb v r (d : block) :
  fswf sb v → 0 <= r < sb_size sb → in_use sb v r = false →
  bv_now v !! BBLOCK r sb = Some d → length d = bsize →
  let v' := balloc_view sb r d v in
  data_kept sb (λ _, False) v v' ∧ used_kept sb v v' ∧ fswf sb v' ∧
  in_use sb v' r = true ∧ bv_now v' !! r = Some zero_block ∧ data_block sb r ∧
  (∀ n, avail sb v (S n) → avail sb v' n) ∧
  (∀ i, 0 <= i < sb_ninodes sb → bv_now v' !! IBLOCK i sb = bv_now v !! IBLOCK i sb).
Proof.
  intros Hf Hr Hfree Hd Hl v'.
  destruct (balloc_view_facts sb v r d (fs_sbwf _ _ Hf) (fswf_reserved _ _ Hf) Hr Hfree Hd Hl) as (H1 & H2 & H3).
  fold v' in H1, H2, H3. pose proof (fs_free _ _ Hf r Hr Hfree) as Hdata.
  assert (Hdom : ∀ x, x ∈ dom (bv_now v) → x ∈ dom (bv_now v')).
  { intros x Hx. unfold v', balloc_view. rewrite !bv_upd_dom. set_solver. }
  split_and!.
  - intros x Hx Hux _. apply H3; [congruence |]. intros y Hy. by apply Hx.
  - intros x Hx Hux. rewrite H2 by done. by case_decide.
  - destruct Hf as [[] [] Hfr Hm]. split; [by split; auto | by split; auto | | done].
    intros b Hb. rewrite H2 by done. case_decide; [done |]. by apply Hfr.
  - rewrite H2 by done. by rewrite decide_True.
  - done.
  - done.
  - intros n Hn. by eapply avail_use.
  - intros i Hi. apply H3; [intros E; by eapply (proj2 (proj2 Hdata)) |].
    intros x Hx. by apply (fs_meta _ _ Hf).
Qed.

(** A step that may allocate blocks and rewrite the data blocks in [P], and
    touches nothing else. *)
Record grow (sb : superblock) (P : Z → Prop) (v v' : bview) : Prop := {
  g_data : data_kept sb P v v';
  g_used : used_kept sb v v';
  g_ino : ∀ i, 0 <= i < sb_ninodes sb → bv_now v' !! IBLOCK i sb = bv_now v !! IBLOCK i sb;
  g_held : bv_held v' = bv_held v;
  g_open : bv_open v' = bv_open v;
  g_fs : fswf sb v → fswf sb v';
}.

Lemma grow_refl sb P v : grow sb P v v.
Proof. split; try done; by intros ??. Qed.

Lemma grow_weaken sb (P Q : Z → Prop) v v' : grow sb P v v' → (∀ x, P x → Q x) → grow sb Q v v'.
Proof. intros [] H. split; try done. intros x Hx Hu Hq. apply g_data0; auto. Qed.

Lemma grow_trans sb P v1 v2 v3 : grow sb P v1 v2 → grow sb P v2 v3 → grow sb P v1 v3.
Proof.
  intros [D1 U1 I1 H1 O1 F1] [D2 U2 I2 H2 O2 F2]. split; try congruence.
  - intros x Hx Hu Hp. rewrite D2; [by apply D1 | done | | done]. apply U1; [destruct Hx; lia | done].
  - intros x Hx Hu. apply U2; [done |]. by apply U1.
  - intros i Hi. rewrite I2, I1 by done. done.
  - auto.
Qed.

(** Rewriting one allocated data block. *)
Lemma grow_upd sb v b d :
  data_block sb b → in_use sb v b = true → fswf sb v → grow sb (λ x, x = b) v (bv_upd b d v) ∧
  (∀ x, 0 <= x < sb_size sb → in_use sb (bv_upd b d v) x = in_use sb v x).
Proof.
  intros Hb Hu Hf.
  assert (E : ∀ x, 0 <= x < sb_size sb → in_use sb (bv_upd b d v) x = in_use sb v x).
  { intros x Hx. unfold in_use. cbn [bv_now bv_upd]. rewrite lookup_insert_ne; [done |].
    by apply Hb. }
  split; [| done]. split; try done.
  - intros x Hx Hux Hne. cbn [bv_now bv_upd]. rewrite lookup_insert_ne; [done |]. congruence.
  - intros x Hx Hux. by rewrite E.
  - intros i Hi. cbn [bv_now bv_upd]. rewrite lookup_insert_ne; [done |]. by apply Hb.
  - intros _. destruct Hf as [[] [] Hfr Hm].
    assert (∀ x, x ∈ dom (bv_now v) → x ∈ dom (bv_now (bv_upd b d v)))
      by (intros x Hx; rewrite bv_upd_dom; set_solver).
    split; [by split; auto | by split; auto | | done].
    intros x Hx. rewrite E by done. by apply Hfr.
Qed.

(** ** Filling a slot *)
Lemma slot_insert_direct v addrs k (a : Z) j :
  length addrs = naddrs → (k < IND)%nat →
  slot v (<[k := a]> addrs) j = if decide (j = k) then a else slot v addrs j.
Proof.
  intros Hl Hk. unfold slot. rewrite naddrs_eq in Hl. unfold IND in *.
  rewrite (list_lookup_total_insert_ne addrs k 12) by lia.
  destruct (decide (j = k)) as [->|Hj].
  - rewrite decide_True by lia. by rewrite list_lookup_total_insert_eq by lia.
  - destruct (decide (j ≤ 12)%nat); [| done]. by rewrite list_lookup_total_insert_ne by done.
Qed.

Lemma slot_insert_ind v addrs (a : Z) j :
  length addrs = naddrs → addrs !!! IND = 0 → bv_now v !! a = Some zero_block → (j < nslots)%nat →
  slot v (<[IND := a]> addrs) j = if decide (j = IND) then a else slot v addrs j.
Proof.
  intros Hl Ha Hz Hj'. unfold slot. rewrite naddrs_eq in Hl. unfold IND, nslots in *.
  rewrite (list_lookup_total_insert_eq addrs 12) by lia.
  destruct (decide (j = 12%nat)) as [->|Hj].
  - rewrite decide_True by lia. by rewrite list_lookup_total_insert_eq by lia.
  - destruct (decide (j ≤ 12)%nat); [by rewrite list_lookup_total_insert_ne by done |].
    rewrite (decide_True (P := addrs !!! 12%nat = 0)) by done. case_decide; [done |]. rewrite Hz.
    unfold ld32, ldn. rewrite <- (le_dec_zeros 4). f_equal. apply list_eq. intros m.
    destruct (decide (m < 4)%nat).
    + rewrite lookup_slice by done. unfold zero_block. rewrite !lookup_replicate_2; [done | lia | params; lia].
    + rewrite !lookup_ge_None_2; [done | simpl; lia |]. unfold slice. rewrite length_take. lia.
Qed.

Lemma slot_set_entry v addrs (j k : nat) (d : block) a :
  (IND < j)%nat → (j < nslots)%nat → (k < nslots)%nat →
  addrs !!! IND ≠ 0 → bv_now v !! (addrs !!! IND) = Some d → length d = bsize → 0 <= a < 2 ^ 32 →
  slot (bv_upd (addrs !!! IND) (st32 (4 * (j - 13)) a d) v) addrs k =
    if decide (k = j) then a else slot v addrs k.
Proof.
  intros Hj Hj' Hk' Ha Hd Hl Har. unfold slot, IND, nslots in *. cbn [bv_now bv_upd]. params.
  destruct (decide (k ≤ 12)%nat) as [Hk|Hk].
  - by rewrite (decide_False (P := k = j)) by lia.
  - rewrite !(decide_False (P := addrs !!! 12%nat = 0)) by done. rewrite lookup_insert_eq, Hd.
    unfold ld32, st32. destruct (decide (k = j)) as [->|Hne].
    + rewrite ldn_stn_same by lia. apply Z.mod_small. done.
    + rewrite ?(decide_False (P := addrs !!! 12%nat = 0)) by done.
      rewrite ldn_stn_disjoint; [done | lia | lia | lia].
Qed.

(** A freshly allocated block joins the file. *)
Lemma fwf_fill sb v v' addrs addrs' (k : nat) r :
  fwf sb v addrs → length addrs' = naddrs → (k < nslots)%nat →
  (∀ j, (j < nslots)%nat → slot v' addrs' j = if decide (j = k) then r else slot v addrs j) →
  used_kept sb v v' → data_block sb r → in_use sb v' r = true →
  (∀ j, (j < nslots)%nat → slot v addrs j ≠ r) →
  fwf sb v' addrs'.
Proof.
  intros [Hl Ho Hi] Hl' Hk Es Hu Hd Hur Hnew. split; [done | |].
  - intros j Hj. rewrite Es by done. case_decide; [done |]. intros Hs.
    destruct (Ho j Hj Hs) as [H1 H2]. split; [done |]. apply Hu; [destruct H1; lia | done].
  - intros i j Hi' Hj. rewrite !Es by done. repeat case_decide; subst; try done.
    + intros _ E. symmetry in E. by apply Hnew in E.
    + intros _ E. by apply Hnew in E.
    + by apply Hi.
Qed.

Section Content.
Context {S U : Type} `{BlockLayerOk S} `{UserMem U}.
Implicit Types (s : fst S U) (v : bview).

(** The transaction slots a step may consume. *)
Definition costs (k : nat) (v v' : bview) : Prop := ∀ n, room (k + n) v → room n v'.

Lemma costs_upd b d v : costs 1 v (bv_upd b d v).
Proof. intros n Hn. by apply room_upd. Qed.
Lemma costs_trans k j v1 v2 v3 : costs k v1 v2 → costs j v2 v3 → costs (k + j) v1 v3.
Proof. intros H1' H2' n Hn. apply H2', H1'. by rewrite Nat.add_assoc. Qed.
Lemma costs_le k j v v' : costs k v v' → (k ≤ j)%nat → costs j v v'.
Proof. intros Hc Hk n Hn. apply Hc. eapply room_le; [done | lia]. Qed.
Lemma costs_refl k v : costs k v v.
Proof. intros n Hn. eapply room_le; [done | lia]. Qed.

Lemma balloc_grow s v :
  let sb := fs_sb s in
  frep s v → fswf sb v → avail sb v 1 → room 2 v → 1 <= bv_open v →
  (∀ b, b ∈ bv_held v → data_block sb b ∧ in_use sb v b = true) →
  wp (balloc ROOTDEV) (λ r s', ∃ v', frep s' v' ∧ sframe s s' ∧ grow sb (λ _, False) v v' ∧
    data_block sb r ∧ in_use sb v r = false ∧ in_use sb v' r = true ∧ bv_now v' !! r = Some zero_block ∧
    (∀ n, avail sb v (Datatypes.S n) → avail sb v' n) ∧ costs 2 v v' ∧
    ∀ j x, fhandle s j x → x ∈ bv_held v → fhandle s' j x) s.
Proof.
  intros sb R Hf Hav Hroom Ho Hheld.
  eapply wp_mono; [apply (balloc_spec s v); try done; try apply Hf |].
  - intros b Hb [Hin | Hin]; [by apply Hheld |]. destruct (Hheld _ Hin) as [Hd _].
    exfalso. by apply (proj1 (proj2 Hd) b).
  - intros b Hb Hin. destruct (Hheld _ Hin) as [Hd _]. by apply (proj1 (proj2 Hd) b).
  - by eapply avail_some.
  - intros r s' (Hr & Hfree & _ & (d & Hd & R') & F & K).
    pose proof (frep_len _ _ _ _ R Hd) as Hl.
    destruct (balloc_kept sb v r d Hf Hr Hfree Hd Hl) as (P1 & P2 & P3 & P4 & P5 & P6 & P7 & P8).
    exists (balloc_view sb r d v). split_and!; try done.
    apply (costs_trans 1 1 _ (bv_upd (BBLOCK r sb) (bit_mark (r mod BPB) d) v)); apply costs_upd.
Qed.

(** The in-memory inode with other block addresses. *)
Definition with_addrs (addrs : list Z) (ip : inode) : inode :=
  Inode (i_dev ip) (i_inum ip) (i_ref ip) (i_lock ip) (i_valid ip) (i_type ip) (i_major ip) (i_minor ip)
        (i_nlink ip) (i_size ip) addrs (i_mode ip) (i_perm ip).

(** Everything but the block layer and the addresses of inode [i]. *)
Definition iframe (i : nat) (addrs : list Z) (s s' : fst S U) : Prop :=
  fs_sb s' = fs_sb s ∧ fs_icache s' = alter (with_addrs addrs) i (fs_icache s) ∧
  fs_cwd s' = fs_cwd s ∧ fs_mem s' = fs_mem s ∧ pid_of s' = pid_of s.

Lemma alter_with_addrs_id (i : nat) ip (ic : list inode) :
  ic !! i = Some ip → alter (with_addrs (i_addrs ip)) i ic = ic.
Proof.
  intros Hi. rewrite (alter_to_insert _ _ _ _ Hi). apply list_insert_id. rewrite Hi. by destruct ip.
Qed.

Lemma alter_with_addrs_twice (i : nat) a b (ic : list inode) :
  alter (with_addrs b) i (alter (with_addrs a) i ic) = alter (with_addrs b) i ic.
Proof.
  apply list_eq. intros j. rewrite !list_lookup_alter. destruct (decide (i = j)) as [<-|]; [| done].
  rewrite decide_True by done. by destruct (ic !! i) as [[]|].
Qed.

Lemma iframe_trans i a b s1 s2 s3 : iframe i a s1 s2 → iframe i b s2 s3 → iframe i b s1 s3.
Proof.
  intros (A1 & A2 & A3 & A4 & A5) (B1 & B2 & B3 & B4 & B5). split_and!; try congruence.
  rewrite B2, A2. apply alter_with_addrs_twice.
Qed.

Lemma iframe_sframe i a s1 s2 s3 : iframe i a s1 s2 → sframe s2 s3 → iframe i a s1 s3.
Proof. intros (A1 & A2 & A3 & A4 & A5) (B1 & B2 & B3 & B4 & B5). split_and!; congruence. Qed.

Lemma sframe_iframe i ip s1 s2 :
  fs_icache s1 !! i = Some ip → sframe s1 s2 → iframe i (i_addrs ip) s1 s2.
Proof.
  intros Hi (B1 & B2 & B3 & B4 & B5). split_and!; try congruence.
  by rewrite alter_with_addrs_id, B2.
Qed.

Lemma set_addr_iframe i ip s s1 (k : nat) r :
  fs_icache s !! i = Some ip → sframe s s1 →
  iframe i (<[k := r]> (i_addrs ip)) s (cache_to (alter (set_addr k r) i (fs_icache s1)) s1).
Proof.
  intros Hip (A1 & A2 & A3 & A4 & A5). split_and!; try done. cbn [cache_to fs_icache].
  rewrite A2. by rewrite !(alter_to_insert _ _ _ _ Hip).
Qed.

(** Views with the same contents. *)
Lemma fswf_now sb v v' : bv_now v' = bv_now v → fswf sb v → fswf sb v'.
Proof.
  intros E [[A1 A2 A3 A4] [B1 B2 B3] C D]. unfold in_use in *. split.
  - split; rewrite ?E; done.
  - split; rewrite ?E; done.
  - intros b Hb. unfold in_use. rewrite E. by apply C.
  - done.
Qed.

Lemma fwf_now sb v v' a : bv_now v' = bv_now v → fwf sb v a → fwf sb v' a.
Proof.
  intros E [A B C]. unfold in_use, slot in *. split; [done | |]; unfold in_use, slot; rewrite E; done.
Qed.

Lemma grow_now sb P v1 v2 v1' v2' :
  grow sb P v1 v2 → bv_now v1' = bv_now v1 → bv_now v2' = bv_now v2 →
  bv_held v2' = bv_held v1' → bv_open v2' = bv_open v1' → grow sb P v1' v2'.
Proof.
  intros [D Us I _ _ F] E1 E2 E3 E4. split; try done.
  - intros x Hx Hu Hp. unfold in_use in Hu. rewrite E1 in Hu |- *. rewrite E2. by apply D.
  - intros x Hx Hu. unfold in_use in *. rewrite E1 in Hu. rewrite E2. by apply Us.
  - intros i Hi. rewrite E1, E2. auto.
  - intros Hf. apply (fswf_now sb v2); [done |]. apply F. by apply (fswf_now sb v1').
Qed.

(** *** [bmap] *)
Definition bmap_effect (sb : superblock) (v : bview) (addrs : list Z) (bn a : Z) (v' : bview)
    (addrs' : list Z) : Prop :=
  grow sb (λ x, x = addrs !!! IND) v v' ∧ fwf sb v' addrs' ∧ a ≠ 0 ∧
  slot v' addrs' (data_slot bn) = a ∧
  (∀ k, (k < nslots)%nat → k ≠ data_slot bn → k ≠ IND → slot v' addrs' k = slot v addrs k) ∧
  (slot v addrs (data_slot bn) = 0 → bv_now v' !! a = Some zero_block ∧ in_use sb v a = false) ∧
  (slot v addrs (data_slot bn) ≠ 0 → v' = v ∧ addrs' = addrs) ∧
  costs 5 v v' ∧ (∀ n, avail sb v (2 + n) → avail sb v' n) ∧
  (slot v' addrs' IND = slot v addrs IND ∨ in_use sb v (slot v' addrs' IND) = false).

Lemma data_slot_lt bn : 0 <= bn < MAXFILE → (data_slot bn < nslots)%nat ∧ data_slot bn ≠ IND.
Proof. intros Hb. unfold data_slot, nslots, IND. params. change (1024 / 4) with 256 in *. case_decide; lia. Qed.

Section Bmap.
Context (s : fst S U) (v : bview) (i : nat) (ip : inode) (bn : Z).
Let sb := fs_sb s.
Let addrs := i_addrs ip.
Context (R : frep s v) (Hf : fswf sb v) (Hip : fs_icache s !! i = Some ip).
Context (Hdev : i_dev ip = ROOTDEV) (Hw : fwf sb v addrs).
Context (Hheld : bv_held v = ∅) (Hbn : 0 <= bn < MAXFILE).

Lemma bmap_hit_effect : slot v addrs (data_slot bn) ≠ 0 →
  bmap_effect sb v addrs bn (slot v addrs (data_slot bn)) v addrs.
Proof.
  intros Hs. split_and!; try done.
  - apply grow_refl.
  - apply costs_refl.
  - intros n Hn. eapply avail_le; [done | lia].
  - by left.
Qed.

Lemma bmap_direct :
  bn < NDIRECT →
  (slot v addrs (data_slot bn) ≠ 0 ∨ 1 <= bv_open v ∧ avail sb v 2 ∧ room 5 v) →
  wp (bmap i bn) (λ a s', ∃ v' addrs', frep s' v' ∧ iframe i addrs' s s' ∧
    bmap_effect sb v addrs bn a v' addrs') s.
Proof.
  intros Hd Hav. destruct (data_slot_lt bn Hbn) as [Hslt Hsind].
  assert (Hds : data_slot bn = Z.to_nat bn) by (unfold data_slot; by rewrite decide_True).
  assert (Hsl : slot v addrs (data_slot bn) = addrs !!! Z.to_nat bn).
  { unfold slot. rewrite Hds, decide_True; [done |]. unfold IND. params. lia. }
  unfold bmap. wp_step. wp_step. rewrite (ino_lookup _ _ _ Hip), decide_True by done. fold addrs.
  destruct (decide (addrs !!! Z.to_nat bn = 0)) as [E0|E0].
  - destruct Hav as [Hav | (Ho & Hav & Hroom)]; [congruence |]. apply wp_bind. rewrite Hdev.
    eapply wp_mono; [apply (balloc_grow s v R Hf) |]; try done.
    { eapply avail_le; [done | lia]. }
    { eapply room_le; [done | lia]. }
    { rewrite Hheld. set_solver. }
    intros r s1 (v1 & R1 & F1 & G1 & Hrd & Hrf & Hru & Hrz & Hra & Hrc & K1). cbv beta.
    rewrite decide_False by (destruct Hrd; lia). wp_step. apply wp_upd_ino. wp_step.
    assert (Hkept := fwf_kept sb v v1 addrs _ Hw (g_data _ _ _ _ G1) (g_used _ _ _ _ G1) ltac:(auto)).
    destruct Hkept as [Hw1 Es1].
    assert (Hins : ∀ j, (j < nslots)%nat → slot v1 (<[Z.to_nat bn := r]> addrs) j =
      if decide (j = Z.to_nat bn) then r else slot v addrs j).
    { intros j Hj. rewrite slot_insert_direct; [| apply Hw | unfold IND; params; lia].
      case_decide; [done | apply Es1]. }
    exists v1, (<[Z.to_nat bn := r]> addrs). split_and!.
    + done.
    + by apply set_addr_iframe.
    + split_and!.
      * eapply grow_weaken; [done | done].
      * apply (fwf_fill sb v v1 addrs _ (Z.to_nat bn) r Hw); try done.
        -- rewrite length_insert. apply Hw.
        -- by rewrite <- Hds.
        -- apply G1.
        -- intros j Hj E. destruct (decide (slot v addrs j = 0)) as [E1|E1]; [destruct Hrd; lia |].
           destruct (fw_ok _ _ _ Hw j Hj E1) as [_ Hu]. unfold sb in Hu. congruence.
      * destruct Hrd. lia.
      * rewrite Hins by done. by rewrite decide_True.
      * intros k Hk Hne _. rewrite Hins by done. rewrite decide_False; [done |]. by rewrite <- Hds.
      * done.
      * intros Hs. congruence.
      * by eapply (costs_le 2); [| lia].
      * intros n Hn. eapply avail_le; [apply Hra; exact Hn | lia].
      * left. rewrite Hins by (unfold IND, nslots; lia). by rewrite decide_False by (rewrite <- Hds; congruence).
  - wp_step. exists v, addrs. rewrite <- Hsl. split_and!; [done | | apply bmap_hit_effect; congruence].
    by apply sframe_iframe.
Qed.

(** The blocks of the file are not free ones. *)
Lemma slot_not_free w a r : fwf sb w a → data_block sb r → in_use sb w r = false →
  ∀ j, (j < nslots)%nat → slot w a j ≠ r.
Proof.
  intros Hw' Hrd Hrf j Hj E. destruct (decide (slot w a j = 0)) as [E1|E1]; [destruct Hrd; lia |].
  destruct (fw_ok _ _ _ Hw' j Hj E1) as [_ Hu]. congruence.
Qed.

Lemma bmap_indirect_spec :
  (addrs !!! IND ≠ 0 ∨ 1 <= bv_open v ∧ avail sb v 1 ∧ room 2 v) →
  wp (bmap_indirect i ip) (λ a s', ∃ v' addrs', frep s' v' ∧ iframe i addrs' s s' ∧
    grow sb (λ _, False) v v' ∧ fwf sb v' addrs' ∧ a ≠ 0 ∧ a = addrs' !!! IND ∧
    (∀ k, (k < nslots)%nat → k ≠ IND → slot v' addrs' k = slot v addrs k) ∧
    (addrs !!! IND ≠ 0 → v' = v ∧ addrs' = addrs) ∧
    (addrs !!! IND = 0 → in_use sb v a = false) ∧
    costs 2 v v' ∧ (∀ n, avail sb v (1 + n) → avail sb v' n)) s.
Proof.
  intros Hav. unfold bmap_indirect. change (Z.to_nat NDIRECT) with IND. fold addrs.
  destruct (decide (addrs !!! IND = 0)) as [E0|E0].
  - destruct Hav as [Hav | (Ho & Hav & Hroom)]; [done |]. apply wp_bind. rewrite Hdev.
    eapply wp_mono; [apply (balloc_grow s v R Hf) |]; try done.
    { rewrite Hheld. set_solver. }
    intros r s1 (v1 & R1 & F1 & G1 & Hrd & Hrf & Hru & Hrz & Hra & Hrc & K1). cbv beta.
    assert (r ≠ 0) by (destruct Hrd; lia).
    rewrite decide_False by done. wp_step. apply wp_upd_ino. wp_step.
    destruct (fwf_kept sb v v1 addrs _ Hw (g_data _ _ _ _ G1) (g_used _ _ _ _ G1) ltac:(auto)) as [Hw1 Es1].
    assert (Hlen : length addrs = naddrs) by apply Hw.
    assert (Hins : ∀ j, (j < nslots)%nat → slot v1 (<[IND := r]> addrs) j =
      if decide (j = IND) then r else slot v addrs j).
    { intros j Hj. rewrite slot_insert_ind by done. case_decide; [done | apply Es1]. }
    exists v1, (<[IND := r]> addrs). split_and!; try done.
    + by apply set_addr_iframe.
    + apply (fwf_fill sb v v1 addrs _ IND r Hw); try done.
      * by rewrite length_insert.
      * unfold IND, nslots. lia.
      * apply G1.
      * by apply slot_not_free.
    + rewrite list_lookup_total_insert_eq; [done |]. rewrite Hlen, naddrs_eq. unfold IND. lia.
    + intros k Hk Hne. rewrite Hins by done. by rewrite decide_False.
  - wp_step. exists v, addrs. split_and!; try done.
    + by apply sframe_iframe.
    + apply grow_refl.
    + apply costs_refl.
    + intros n Hn. eapply avail_le; [done | lia].
Qed.
End Bmap.

(** *** An entry of the indirect block, with the block held in [bp] *)
Lemma bmap_entry_spec s v addrs bp (j : nat) :
  let sb := fs_sb s in
  frep s (bv_hold (addrs !!! IND) v) → fswf sb v → fwf sb v addrs → bv_held v = ∅ →
  fhandle s bp (addrs !!! IND) → addrs !!! IND ≠ 0 → (IND < j < nslots)%nat →
  (slot v addrs j ≠ 0 ∨ 1 <= bv_open v ∧ avail sb v 1 ∧ room 4 v) →
  wp (bmap_entry ROOTDEV bp (Z.of_nat (j - 13))) (λ a s', ∃ v',
    frep s' (bv_hold (addrs !!! IND) v') ∧ fhandle s' bp (addrs !!! IND) ∧ sframe s s' ∧
    grow sb (λ x, x = addrs !!! IND) v v' ∧ fwf sb v' addrs ∧ a ≠ 0 ∧ slot v' addrs j = a ∧
    (∀ k, (k < nslots)%nat → k ≠ j → slot v' addrs k = slot v addrs k) ∧
    (slot v addrs j = 0 → bv_now v' !! a = Some zero_block ∧ in_use sb v a = false ∧
       addrs !!! IND ∈ bv_log v') ∧
    (slot v addrs j ≠ 0 → v' = v) ∧
    costs 3 v v' ∧ (∀ n, avail sb v (1 + n) → avail sb v' n)) s.
Proof.
  intros sb R Hf Hw Hheld Hbp Ha Hj Hav. set (a12 := addrs !!! IND) in *.
  destruct (fwf_ind _ _ _ Hw Ha) as [Hd12 Hu12]. fold a12 in Hd12, Hu12.
  destruct (bl_held_data _ _ _ _ R Hbp) as [_ Hdata]. cbn [bv_now bv_hold] in Hdata.
  set (d := bl_data bp (fs_bl s)) in *.
  pose proof (frep_len _ _ _ _ R Hdata) as Hdl.
  assert (Hsl : slot v addrs j = ld32 (4 * (j - 13)) d).
  { unfold slot. rewrite decide_False by lia. fold a12. rewrite decide_False by done. by rewrite Hdata. }
  unfold bmap_entry. eapply fs_buf_data; [reflexivity |]. cbv beta zeta. fold d. rewrite Nat2Z.id, <- Hsl.
  destruct (decide (slot v addrs j = 0)) as [E0|E0].
  - destruct Hav as [Hav | (Ho & Hav & Hroom)]; [done |]. apply wp_bind.
    eapply wp_mono; [apply (balloc_grow s (bv_hold a12 v) R) |]; try done.
    { by apply (fswf_now sb v). }
    { apply room_hold. eapply room_le; [done | lia]. }
    { intros b. cbn [bv_held bv_hold]. rewrite Hheld, union_empty_r_L, elem_of_singleton. by intros ->. }
    intros r s1 (v1 & R1 & F1 & G1 & Hrd & Hrf & Hru & Hrz & Hra & Hrc & K1). cbv beta.
    fold sb in Hrd, Hrf, Hru, Hra. change (in_use sb v r = false) in Hrf.
    assert (r ≠ 0) by (destruct Hrd; lia). rewrite decide_False by done.
    assert (Hh1 : bv_held v1 = {[a12]}).
    { rewrite (g_held _ _ _ _ G1). cbn [bv_held bv_hold]. rewrite Hheld. set_solver. }
    set (v1' := bv_drop a12 v1).
    assert (Ev1 : bv_hold a12 v1' = v1).
    { unfold v1'. destruct v1. apply bview_eq; simpl in *; try done. set_solver. }
    assert (G1' : grow sb (λ _, False) v v1').
    { apply (grow_now sb _ _ _ _ _ G1); try done; [| apply G1]. unfold v1'. simpl. rewrite Hh1, Hheld. set_solver. }
    pose proof (K1 _ _ Hbp ltac:(cbn; set_solver)) as Hbp1.
    assert (Hd1 : bv_now v1' !! a12 = Some d) by (rewrite (g_data _ _ _ _ G1'); tauto).
    assert (Hdat1 : bl_data bp (fs_bl s1) = d) by (apply (bl_data_now _ _ _ _ _ R1 Hbp1); done).
    destruct (fwf_kept sb v v1' addrs _ Hw (g_data _ _ _ _ G1') (g_used _ _ _ _ G1') ltac:(auto)) as [Hw1 Es1].
    pose proof (g_fs _ _ _ _ G1' Hf) as Hf1.
    pose proof (g_used _ _ _ _ G1' a12 ltac:(destruct Hd12; lia) Hu12) as Hu1.
    buf_read Hdat1.
    assert (Hdrop : ∀ m, room m v1 → room (Datatypes.S m) v1').
    { intros m. unfold room, v1'. simpl. rewrite Hh1, size_singleton.
      rewrite difference_diag_L, size_empty. lia. }
    assert (Hroom1 : room 1 v1').
    { apply Hdrop, Hrc, room_hold. eapply room_le; [done | lia]. }
    apply (fs_set_log s1 v1' bp a12); [by rewrite Ev1 | done | unfold v1'; simpl; set_solver | | done | |].
    { unfold st32. rewrite stn_length; [done |]. rewrite Hdl. unfold IND, nslots in Hj. params. lia. }
    { rewrite (g_open _ _ _ _ G1'). done. }
    set (d' := st32 _ _ _). intros s2 R2 F2 K2. wp_step.
    assert (Hr32 : 0 <= r < 2 ^ 32).
    { destruct Hrd. pose proof (sw_size _ _ (fs_sbwf _ _ Hf)). lia. }
    destruct (grow_upd sb v1' a12 d' Hd12 Hu1 Hf1) as [G2 Eu2].
    assert (Es2 : ∀ k, (k < nslots)%nat → slot (bv_upd a12 d' v1') addrs k =
      if decide (k = j) then r else slot v addrs k).
    { intros k Hk. rewrite <- (Es1 k). apply slot_set_entry; try done; lia. }
    assert (Hr12 : r ≠ a12) by congruence.
    exists (bv_upd a12 d' v1'). split_and!; try done.
    + by apply K2.
    + by etrans.
    + eapply grow_trans; [eapply grow_weaken; [exact G1' | done] | exact G2].
    + apply (fwf_fill sb v _ addrs addrs j r Hw); try done; [apply Hw | lia | | |].
      * intros x Hx Hux. rewrite Eu2 by done. by apply G1'.
      * rewrite Eu2; [done |]. destruct Hrd. lia.
      * by apply (slot_not_free s).
    + rewrite Es2 by lia. by rewrite decide_True.
    + intros k Hk Hne. rewrite Es2 by done. by rewrite decide_False.
    + intros _. split_and!; [| done | simpl; set_solver].
      cbn [bv_now bv_upd]. by rewrite lookup_insert_ne by done.
    + intros n Hn. apply (costs_upd a12 d' v1' n), Hdrop, Hrc, room_hold. done.
    + intros n Hn. assert (avail sb v1 n) as (l & L1 & L2 & L3) by by apply Hra.
      exists l. split_and!; [done | done |]. intros x Hx. destruct (L3 x Hx). split; [done |].
      rewrite Eu2 by done. done.
  - wp_step. exists v. split_and!; try done.
    + apply grow_refl.
    + apply costs_refl.
    + intros n Hn. eapply avail_le; [done | lia].
Qed.

Lemma slot_ind_zero v addrs k : addrs !!! IND = 0 → (IND < k)%nat → slot v addrs k = 0.
Proof. intros H0' Hk. unfold slot. rewrite decide_False by lia. by rewrite decide_True. Qed.

Lemma bmap_spec s v (i : nat) ip bn :
  let sb := fs_sb s in let addrs := i_addrs ip in
  frep s v → fswf sb v → fs_icache s !! i = Some ip → i_dev ip = ROOTDEV → fwf sb v addrs →
  bv_held v = ∅ → 0 <= bn < MAXFILE → room 1 v →
  (slot v addrs (data_slot bn) ≠ 0 ∨ 1 <= bv_open v ∧ avail sb v 2 ∧ room 6 v) →
  wp (bmap i bn) (λ a s', ∃ v' addrs', frep s' v' ∧ iframe i addrs' s s' ∧
    bmap_effect sb v addrs bn a v' addrs') s.
Proof.
  intros sb addrs R Hf Hip Hdev Hw Hheld Hbn Hroom1 Hav.
  destruct (data_slot_lt bn Hbn) as [Hslt Hsind].
  destruct (decide (bn < NDIRECT)) as [Hd|Hd].
  { apply bmap_direct; try done. destruct Hav as [|(? & ? & ?)]; [by left | right].
    split_and!; [done | done | by eapply room_le; [done | lia]]. }
  unfold bmap. wp_step. wp_step. rewrite (ino_lookup _ _ _ Hip), decide_False by done.
  assert (Hbn2 : bn - NDIRECT < NINDIRECT) by (unfold MAXFILE in Hbn; lia).
  rewrite decide_True by done. fold addrs. set (j := data_slot bn) in *.
  assert (Hj : j = (Z.to_nat bn + 1)%nat) by (unfold j, data_slot; by rewrite decide_False).
  assert (HjI : (IND < j)%nat) by (unfold IND; params; lia).
  apply wp_bind. eapply wp_mono; [apply (bmap_indirect_spec s v i ip bn R Hf Hip Hdev Hw Hheld Hbn) |].
  { fold addrs. destruct (decide (addrs !!! IND = 0)) as [E|E]; [right | by left].
    destruct Hav as [Hav|(? & ? & ?)]; [exfalso; apply Hav; by apply slot_ind_zero |].
    split_and!; [done | eapply avail_le; [done | lia] | eapply room_le; [done | lia]]. }
  intros a s1 (v1 & addrs1 & R1 & F1 & G1 & Hw1 & Ha0 & Ea & Es1 & Hno1 & Hnew1 & C1 & A1). cbv beta.
  fold sb addrs in G1, Hw1, Es1, Hno1, Hnew1, A1.
  assert (Esb : fs_sb s1 = sb) by apply F1. rewrite Hdev.
  assert (Hh1 : bv_held v1 = ∅) by (rewrite (g_held _ _ _ _ G1); done).
  destruct (fwf_ind sb v1 addrs1 Hw1 ltac:(congruence)) as [Hda Hua]. rewrite <- Ea in Hda, Hua.
  pose proof (g_fs _ _ _ _ G1 Hf) as Hf1.
  pose proof (sw_blocks _ _ (fs_sbwf _ _ Hf1) a ltac:(destruct Hda; lia)) as [d Hdd]%elem_of_dom.
  assert (Hr1 : room 1 v1).
  { destruct (decide (addrs !!! IND = 0)) as [E|E]; [| destruct (Hno1 E) as [-> _]; done].
    destruct Hav as [Hav|(? & ? & ?)]; [exfalso; apply Hav; by apply slot_ind_zero |].
    apply C1. eapply room_le; [done | lia]. }
  apply wp_bind. eapply wp_mono; [apply (fs_bread s1 v1 a d R1 Hdd); [rewrite Hh1; set_solver | done] |].
  intros bp s2 (R2 & Hbp & Hdat & F2 & K2). cbv beta. rewrite Ea in R2, Hbp.
  assert (Esb2 : fs_sb s2 = sb) by (rewrite <- Esb; apply F2).
  replace (bn - NDIRECT) with (Z.of_nat (j - 13)) by (params; lia).
  apply wp_bind. eapply wp_mono; [apply (bmap_entry_spec s2 v1 addrs1 bp j R2); rewrite ?Esb2; try done |].
  { congruence. }
  { rewrite Es1 by done. destruct Hav as [|(? & ? & ?)]; [by left | right].
    split_and!; [rewrite (g_open _ _ _ _ G1); done | by apply A1 | by apply C1]. }
  rewrite Esb2.
  intros t s3 (v3 & R3 & Hbp3 & F3 & G3 & Hw3 & Ht0 & Est & Es3 & Hz3 & Hno3 & C3 & A3). cbv beta.
  apply wp_bind. eapply wp_mono; [apply (fs_brelse s3 v3 bp (addrs1 !!! IND) R3 Hbp3) |].
  { rewrite (g_held _ _ _ _ G3), Hh1. set_solver. }
  { intros Hlog. destruct (decide (slot v1 addrs1 j = 0)) as [E|E].
    - exfalso. by apply Hlog, Hz3.
    - rewrite (Hno3 E) in *. apply (frep_clean s1 v1 _ R1); [rewrite Hh1; set_solver | done]. }
  intros _ s4 (R4 & F4 & K4). wp_step. exists v3, addrs1. split_and!; [done | |].
  { eapply iframe_sframe; [exact F1 |]. etrans; [exact F2 |]. by etrans. }
  assert (Hsj : slot v1 addrs1 j = slot v addrs j) by (by apply Es1).
  split_and!; try done.
  - destruct (decide (addrs !!! IND = 0)) as [E|E].
    + split.
      * intros x Hx Hu Hp. rewrite (g_data _ _ _ _ G3 x Hx); [apply (g_data _ _ _ _ G1 x Hx Hu); tauto | |].
        -- apply (g_used _ _ _ _ G1); [destruct Hx; lia | done].
        -- rewrite <- Ea. intros ->. by rewrite (Hnew1 E) in Hu.
      * intros x Hx Hu. apply (g_used _ _ _ _ G3); [done |]. by apply (g_used _ _ _ _ G1).
      * intros k Hk. rewrite (g_ino _ _ _ _ G3), (g_ino _ _ _ _ G1) by done. done.
      * by rewrite (g_held _ _ _ _ G3), (g_held _ _ _ _ G1).
      * by rewrite (g_open _ _ _ _ G3), (g_open _ _ _ _ G1).
      * intros _. by apply (g_fs _ _ _ _ G3).
    + destruct (Hno1 E) as [-> ->]. done.
  - intros k Hk Hne Hki. rewrite Es3 by done. by apply Es1.
  - fold j. rewrite <- Hsj. intros E. destruct (Hz3 E) as (Z1 & Z2 & _). split; [done |].
    destruct (in_use sb v t) eqn:Eu; [| done].
    assert (in_use sb v1 t = true); [| congruence]. apply (g_used _ _ _ _ G1); [| done].
    assert (slot v3 addrs1 j ≠ 0) as Hnz by congruence.
    destruct (fw_ok _ _ _ Hw3 j Hslt Hnz) as [Hdt _]. rewrite Est in Hdt. destruct Hdt. lia.
  - fold j. intros E. rewrite Hsj in Hno3. specialize (Hno3 E) as ->.
    apply Hno1. intros E2. apply E. by apply slot_ind_zero.
  - by apply (costs_trans 2 3 _ v1).
  - intros n Hn. by apply A3, A1.
  - rewrite !slot_ind, <- Ea. destruct (decide (addrs !!! IND = 0)) as [E|E]; [right; by apply Hnew1 |].
    left. destruct (Hno1 E) as [_ E2]. rewrite Ea, E2. done.
Qed.
End Content.
