(* ===== verification/FileIO.v ===== *)
(** * Reading and writing files ([readi], [writei] of [kernel/fs.c]) *)
From S2P Require Import Prelude Params CString Locks BlockLayer Fs Dir FsBlocks BlockAlloc FsInode FsFile.

(** ** The contents of a file: a hole reads as zeros *)
Definition file_block (v : bview) (addrs : list Z) (bn : Z) : block :=
  let a := slot v addrs (data_slot bn) in
  if decide (a = 0) then zero_block else default zero_block (bv_now v !! a : option block).
Definition file_byte (v : bview) (addrs : list Z) (o : Z) : Z :=
  file_block v addrs (o / BSIZE) !!! Z.to_nat (o mod BSIZE).
Definition file_slice (v : bview) (addrs : list Z) (off : Z) (n : nat) : list Z :=
  (λ k : nat, file_byte v addrs (off + Z.of_nat k)) <$> seq 0 n.

(** No holes below [size]. *)
Definition mapped (v : bview) (addrs : list Z) (size : Z) : Prop :=
  ∀ bn, 0 <= bn → bn * BSIZE < size → slot v addrs (data_slot bn) ≠ 0.

Lemma data_slot_inj a b : 0 <= a → 0 <= b → data_slot a = data_slot b → a = b.
Proof. unfold data_slot. repeat case_decide; lia. Qed.

Lemma file_slice_length v addrs off n : length (file_slice v addrs off n) = n.
Proof. unfold file_slice. by rewrite length_fmap, length_seq. Qed.

Lemma file_slice_app v addrs off (n m : nat) :
  file_slice v addrs off (n + m) = file_slice v addrs off n ++ file_slice v addrs (off + Z.of_nat n) m.
Proof.
  unfold file_slice. rewrite seq_app, fmap_app. f_equal. apply list_eq. intros k.
  rewrite !list_lookup_fmap. destruct (decide (k < m)%nat).
  - rewrite !lookup_seq_lt by done. simpl. f_equal. f_equal. lia.
  - by rewrite !lookup_seq_ge by lia.
Qed.

(** The bytes of one block. *)
Lemma file_slice_block v addrs off (m : nat) (d : block) :
  0 <= off → file_block v addrs (off / BSIZE) = d → length d = bsize →
  off mod BSIZE + Z.of_nat m <= BSIZE →
  slice (Z.to_nat (off mod BSIZE)) m d = file_slice v addrs off m.
Proof.
  intros Ho Hd Hl Hm. pose proof (Z.mod_pos_bound off BSIZE ltac:(params; lia)) as Hmod.
  assert (HB : BSIZE = 1024) by done. assert (Hb : bsize = 1024%nat) by done.
  apply list_eq. intros k. destruct (decide (k < m)%nat) as [Hk|Hk].
  - rewrite lookup_slice by done. unfold file_slice. rewrite list_lookup_fmap, lookup_seq_lt by done. simpl.
    unfold file_byte.
    assert (E : off + Z.of_nat k = BSIZE * (off / BSIZE) + (off mod BSIZE + Z.of_nat k)).
    { rewrite (Z.div_mod off BSIZE) at 1 by lia. lia. }
    assert ((off + Z.of_nat k) / BSIZE = off / BSIZE) as ->.
    { symmetry. apply (Z.div_unique_pos _ _ _ (off mod BSIZE + Z.of_nat k)); [lia | exact E]. }
    assert ((off + Z.of_nat k) mod BSIZE = off mod BSIZE + Z.of_nat k) as ->.
    { symmetry. apply (Z.mod_unique_pos _ _ (off / BSIZE)); [lia | exact E]. }
    rewrite Hd, Z2Nat.inj_add, Nat2Z.id by lia. apply list_lookup_lookup_total_lt. lia.
  - rewrite !lookup_ge_None_2; [done | rewrite file_slice_length; lia |].
    rewrite slice_length; lia.
Qed.

Section IO.
Context {S U : Type} `{BlockLayerOk S} `{UserMem U}.
Implicit Types (s : fst S U) (v : bview).

(** [bmap] never changes what a file reads as. *)
Lemma bmap_effect_block sb v addrs bn a v' addrs' x :
  fwf sb v addrs → bmap_effect sb v addrs bn a v' addrs' → 0 <= bn < MAXFILE → 0 <= x < MAXFILE →
  file_block v' addrs' x = file_block v addrs x.
Proof.
  intros Hw (G & Hw' & Ha & Ea & Es & Hz & Hno & _) Hbn Hx.
  destruct (data_slot_lt x Hx) as [Hx1 Hx2]. unfold file_block.
  destruct (decide (x = bn)) as [->|Hne].
  - destruct (decide (slot v addrs (data_slot bn) = 0)) as [E|E].
    + destruct (Hz E) as [Hzz _]. rewrite Ea, decide_False by done. by rewrite Hzz.
    + destruct (Hno E) as [-> ->]. by rewrite decide_False.
  - assert (data_slot x ≠ data_slot bn) by (intros E; apply Hne; apply data_slot_inj; [lia | lia | done]).
    rewrite Es by done. case_decide as E; [done |]. f_equal.
    destruct (fw_ok _ _ _ Hw _ Hx1 E) as [H1' H2'].
    apply (g_data _ _ _ _ G); [done | done |]. rewrite <- (slot_ind v addrs). intros E2. apply Hx2.
    apply (fw_inj _ _ _ Hw); [done | unfold IND, nslots; lia | done | done].
Qed.

(** The block behind a mapped slot. *)
Lemma mapped_block sb v addrs bn s :
  frep s v → fswf sb v → fwf sb v addrs → 0 <= bn < MAXFILE → slot v addrs (data_slot bn) ≠ 0 →
  bv_now v !! slot v addrs (data_slot bn) = Some (file_block v addrs bn) ∧
  length (file_block v addrs bn) = bsize ∧
  data_block sb (slot v addrs (data_slot bn)) ∧ in_use sb v (slot v addrs (data_slot bn)) = true.
Proof.
  intros R Hf Hw Hbn Hs. destruct (data_slot_lt bn Hbn) as [Hlt _].
  destruct (fw_ok _ _ _ Hw _ Hlt Hs) as [Hd Hu].
  pose proof (sw_blocks _ _ (fs_sbwf _ _ Hf) (slot v addrs (data_slot bn)) ltac:(destruct Hd; lia)) as [d Hdd]%elem_of_dom.
  unfold file_block. rewrite decide_False, Hdd by done. simpl. split_and!; try done.
  by eapply frep_len.
Qed.

(** *** [readi] into a kernel buffer *)
Lemma readi_loop_spec fuel s v (i : nat) ip size n tot off data :
  let sb := fs_sb s in let addrs := i_addrs ip in
  frep s v → fswf sb v → fs_icache s !! i = Some ip → i_dev ip = ROOTDEV → fwf sb v addrs →
  bv_held v = ∅ → room 1 v → mapped v addrs size → size <= MAXFILE * BSIZE →
  0 <= tot <= n → 0 <= off → off + (n - tot) <= size →
  (0 < fuel)%nat → (tot < n → n - tot + off mod BSIZE <= (Z.of_nat fuel - 1) * BSIZE) →
  wp (readi_loop fuel i (Kernel data) n tot off) (λ r s', r = (n, file_slice v addrs off (Z.to_nat (n - tot))) ∧
    frep s' v ∧ sframe s s') s.
Proof.
  intros sb addrs. unfold sb. clear sb. revert s tot off data.
  induction fuel as [|fuel IH]; intros s tot off data; [lia |].
  intros R Hf Hip Hdev Hw Hheld Hroom Hmap Hsz Htot Hoff Hend _ Hfuel.
  assert (HB : BSIZE = 1024) by done. cbn [readi_loop].
  destruct (decide (tot < n)) as [Hlt|Hge].
  2:{ wp_step. assert (tot = n) as -> by lia. rewrite Z.sub_diag. split_and!; [done | done | done]. }
  specialize (Hfuel Hlt).
  pose proof (Z.mod_pos_bound off BSIZE ltac:(lia)) as Hmod.
  set (bn := off / BSIZE). assert (Hbn0 : 0 <= bn) by (apply Z.div_pos; lia).
  assert (Hbnsz : bn * BSIZE < size).
  { pose proof (Z.mul_div_le off BSIZE ltac:(lia)). unfold bn. lia. }
  assert (Hbn : 0 <= bn < MAXFILE) by (split; [done |]; params; lia).
  pose proof (Hmap bn Hbn0 Hbnsz) as Hs.
  destruct (mapped_block _ _ _ _ _ R Hf Hw Hbn Hs) as (Hd & Hdl & Hdd & Hdu).
  wp_step. eapply wp_mono; [apply (bmap_spec s v i ip bn R Hf Hip Hdev Hw Hheld Hbn Hroom); by left |].
  intros a s1 (v1 & addrs1 & R1 & F1 & Heff). cbv beta.
  destruct Heff as (_ & _ & _ & Ea & _ & _ & Hno & _). fold addrs in Ea, Hno, Hs.
  destruct (Hno Hs) as [-> ->]. rewrite <- Ea in *.
  assert (Eic : fs_icache s1 = fs_icache s).
  { destruct F1 as (_ & E & _). rewrite E. by apply alter_with_addrs_id. }
  wp_step. wp_step. unfold ino. rewrite Eic, (list_lookup_total_correct _ _ _ Hip), Hdev.
  wp_step. eapply wp_mono; [apply (fs_bread s1 v _ _ R1 Hd); [rewrite Hheld; set_solver | done] |].
  intros bp s2 (R2 & Hbp & Hdat & F2 & K2). buf_read Hdat.
  set (m := chunk n tot off). assert (Hm : 0 < m <= n - tot ∧ off mod BSIZE + m <= BSIZE).
  { unfold m, chunk. lia. }
  cbn [either_copyout]. wp_step. wp_step.
  wp_step. eapply wp_mono; [apply (fs_brelse s2 v _ _ R2 Hbp) |].
  { rewrite Hheld. set_solver. }
  { intros Hlog. apply (frep_clean s1 v _ R1); [rewrite Hheld; set_solver | done]. }
  intros _ s3 (R3 & F3 & K3). cbv beta. rewrite decide_False by lia.
  assert (F13 : sframe s s3).
  { destruct F1 as (A1 & _ & A3 & A4 & A5). destruct (transitivity F2 F3) as (B1 & B2 & B3 & B4 & B5).
    split_and!; congruence. }
  assert (Esb : fs_sb s3 = fs_sb s) by apply F13.
  wp_step. cbn [advance].
  eapply wp_mono; [apply (IH s3 (tot + m) (off + m)); rewrite ?Esb; try done |].
  { assert (fs_icache s3 = fs_icache s) as -> by apply F13. done. }
  { lia. }
  { lia. }
  { lia. }
  { lia. }
  { intros Hlt2. assert (m = BSIZE - off mod BSIZE) as Em by (unfold m, chunk in *; lia).
    assert ((off + m) mod BSIZE = 0) as ->.
    { rewrite Em. replace (off + (BSIZE - off mod BSIZE)) with ((off / BSIZE + 1) * BSIZE).
      - apply Z_mod_mult.
      - rewrite (Z.div_mod off BSIZE) at 2 by lia. lia. }
    lia. }
  intros r s4 (-> & R4 & F4). cbv beta. wp_step. split_and!; [| done | by etrans].
  f_equal. replace (Z.to_nat (n - tot)) with (Z.to_nat m + Z.to_nat (n - (tot + m)))%nat by lia.
  rewrite file_slice_app, Z2Nat.id by lia. f_equal.
  apply file_slice_block; try done. rewrite Z2Nat.id; lia.
Qed.

(** How many bytes [readi] delivers. *)
Definition readable (size off n : Z) : Z := if decide (off > size) then 0 else Z.min n (size - off).

Lemma readi_spec s v (i : nat) ip off n :
  let sb := fs_sb s in let addrs := i_addrs ip in
  frep s v → fswf sb v → fs_icache s !! i = Some ip → i_dev ip = ROOTDEV → fwf sb v addrs →
  bv_held v = ∅ → room 1 v → mapped v addrs (i_size ip) → 0 <= i_size ip <= MAXFILE * BSIZE →
  0 <= off → 0 <= n → off + n < 2 ^ 32 →
  wp (readi i (Kernel []) off n) (λ r s',
    r = (readable (i_size ip) off n, file_slice v addrs off (Z.to_nat (readable (i_size ip) off n))) ∧
    frep s' v ∧ sframe s s') s.
Proof.
  intros sb addrs R Hf Hip Hdev Hw Hheld Hroom Hmap Hsz Hoff Hn Hov.
  assert (HB : BSIZE = 1024) by done. assert (HM : MAXFILE = 268) by done.
  unfold readi, readable. wp_step. wp_step. rewrite (ino_lookup _ _ _ Hip), u32_small by lia.
  destruct (decide (off > i_size ip)) as [Hgt|Hle].
  { rewrite decide_True by (by left). wp_step. done. }
  rewrite decide_False by lia.
  set (n' := if decide (off + n > i_size ip) then i_size ip - off else n).
  assert (Hn' : n' = Z.min n (i_size ip - off)) by (unfold n'; case_decide; lia). clearbody n'.
  cbv zeta. wp_step. eapply wp_mono; [apply (readi_loop_spec _ s v i ip (i_size ip) n' 0 off []); try done; try lia |].
  { intros Hlt. pose proof (Z.mod_pos_bound off BSIZE ltac:(lia)).
    pose proof (Z.mul_succ_div_gt n' BSIZE ltac:(lia)). pose proof (Z.div_pos n' BSIZE). lia. }
  intros r s' (-> & R' & F'). cbv beta. wp_step. rewrite Z.sub_0_r, <- Hn'. split_and!; [| done | done].
  by rewrite s32_small by lia.
Qed.

(** *** [writei] from a kernel buffer *)
Definition in_file (v : bview) (addrs : list Z) (x : Z) : Prop :=
  ∃ k, (k < nslots)%nat ∧ slot v addrs k = x ∧ x ≠ 0.

Lemma bmap_in_file sb v addrs bn a v' addrs' x :
  bmap_effect sb v addrs bn a v' addrs' → in_use sb v x = true → in_file v' addrs' x → in_file v addrs x.
Proof.
  intros (G & Hw' & Ha & Ea & Es & Hz & Hno & _ & _ & Hind) Hu (k & Hk & Ek & Hx0).
  destruct (decide (k = data_slot bn)) as [->|Hne].
  - destruct (decide (slot v addrs (data_slot bn) = 0)) as [E|E].
    + destruct (Hz E) as [_ Hf]. congruence.
    + destruct (Hno E) as [-> ->]. by exists (data_slot bn).
  - destruct (decide (k = IND)) as [->|Hki].
    + destruct Hind as [E|E]; [exists IND; split_and!; [done | congruence | done] | congruence].
    + exists k. rewrite <- Es by done. done.
Qed.

(** Overwriting the data block of file block [bn]. *)
Lemma write_block sb v addrs bn (d : block) :
  fswf sb v → fwf sb v addrs → 0 <= bn < MAXFILE → slot v addrs (data_slot bn) ≠ 0 →
  let a := slot v addrs (data_slot bn) in
  let v' := bv_upd a d v in
  grow sb (in_file v addrs) v v' ∧ fwf sb v' addrs ∧ (∀ k, slot v' addrs k = slot v addrs k) ∧
  (∀ x, 0 <= x < MAXFILE → file_block v' addrs x = if decide (x = bn) then d else file_block v addrs x) ∧
  (∀ n, avail sb v n → avail sb v' n).
Proof.
  intros Hf Hw Hbn Hs a v'. destruct (data_slot_lt bn Hbn) as [Hlt Hni].
  destruct (fw_ok _ _ _ Hw _ Hlt Hs) as [Hd Hu]. fold a in Hd, Hu.
  destruct (grow_upd sb v a d Hd Hu Hf) as [G Eu]. fold v' in G, Eu.
  assert (Es : ∀ k, slot v' addrs k = slot v addrs k).
  { intros k. apply slot_ext. intros Ha. unfold v'. cbn [bv_now bv_upd]. rewrite lookup_insert_ne; [done |].
    unfold a. rewrite <- (slot_ind v addrs). intros E. apply Hni.
    apply (fw_inj _ _ _ Hw); [done | unfold IND, nslots; lia | done | done]. }
  split_and!; [| | done | |].
  - eapply grow_weaken; [exact G |]. intros x ->. by exists (data_slot bn).
  - destruct Hw as [A B C]. split; [done | |].
    + intros k Hk. rewrite Es. intros Hk0. destruct (B k Hk Hk0) as [B1 B2]. split; [done |].
      rewrite Eu by (destruct B1; lia). done.
    + intros k j. rewrite !Es. apply C.
  - intros x Hx. unfold file_block. rewrite Es. destruct (data_slot_lt x Hx) as [Hxl _].
    destruct (decide (x = bn)) as [->|Hne].
    + rewrite decide_False by done. unfold v'. cbn [bv_now bv_upd]. by rewrite lookup_insert_eq.
    + case_decide as E; [done |]. unfold v'. cbn [bv_now bv_upd]. rewrite lookup_insert_ne; [done |].
      intros E2. apply Hne, data_slot_inj; [lia | lia |]. symmetry.
      apply (fw_inj _ _ _ Hw); [done | done | done | by symmetry].
  - intros n (l & L1 & L2 & L3). exists l. split_and!; [done | done |].
    intros x Hx. destruct (L3 x Hx). split; [done |]. by rewrite Eu.
Qed.

(** The bytes of a file after [data] was written at [off]. *)
Definition written (v : bview) (addrs : list Z) (off : Z) (data : list Z) (v' : bview) (addrs' : list Z) : Prop :=
  ∀ o, 0 <= o < MAXFILE * BSIZE → file_byte v' addrs' o =
    if decide (off <= o < off + Z.of_nat (length data)) then data !!! Z.to_nat (o - off)
    else file_byte v addrs o.

Lemma written_nil v addrs off : written v addrs off [] v addrs.
Proof. intros o Ho. rewrite decide_False; [done |]. simpl. lia. Qed.

Lemma written_app v1 a1 v2 a2 v3 a3 off d1 d2 :
  written v1 a1 off d1 v2 a2 → written v2 a2 (off + Z.of_nat (length d1)) d2 v3 a3 → 0 <= off →
  written v1 a1 off (d1 ++ d2) v3 a3.
Proof.
  intros W1 W2 Hoff o Ho. rewrite W2 by done. rewrite length_app.
  destruct (decide (off + Z.of_nat (length d1) <= o < off + Z.of_nat (length d1) + Z.of_nat (length d2))) as [E|E].
  - rewrite decide_True by lia. rewrite lookup_total_app_r by lia. f_equal. lia.
  - rewrite W1 by done. destruct (decide (off <= o < off + Z.of_nat (length d1))) as [E2|E2].
    + rewrite decide_True by lia. rewrite lookup_total_app_l by lia. done.
    + rewrite decide_False by lia. done.
Qed.

Lemma written_chunk v addrs v' addrs' off (bytes : list Z) (d : block) :
  0 <= off → off / BSIZE < MAXFILE → off mod BSIZE + Z.of_nat (length bytes) <= BSIZE → length d = bsize →
  file_block v addrs (off / BSIZE) = d →
  (∀ x, 0 <= x < MAXFILE → file_block v' addrs' x =
     if decide (x = off / BSIZE) then splice (Z.to_nat (off mod BSIZE)) bytes d else file_block v addrs x) →
  written v addrs off bytes v' addrs'.
Proof.
  intros Hoff Hbn Hm Hl Hd Hb o Ho. assert (HB : BSIZE = 1024) by done. assert (Hbs : bsize = 1024%nat) by done.
  pose proof (Z.mod_pos_bound off BSIZE ltac:(lia)). pose proof (Z.mod_pos_bound o BSIZE ltac:(lia)).
  pose proof (Z.div_mod off BSIZE ltac:(lia)) as E1. pose proof (Z.div_mod o BSIZE ltac:(lia)) as E2.
  unfold file_byte. rewrite Hb by (split; [apply Z.div_pos; lia | apply Z.div_lt_upper_bound; lia]).
  destruct (decide (o / BSIZE = off / BSIZE)) as [E|E].
  - rewrite E in E2. destruct (decide (off <= o < off + Z.of_nat (length bytes))) as [Hin|Hout].
    + destruct (lookup_lt_is_Some_2 bytes (Z.to_nat (o - off))) as [y Hy]; [lia |].
      rewrite (list_lookup_total_correct bytes _ _ Hy). apply (list_lookup_total_correct (A := Z)).
      rewrite lookup_splice_in by lia. rewrite <- Hy. f_equal. lia.
    + rewrite E, Hd. destruct (lookup_lt_is_Some_2 d (Z.to_nat (o mod BSIZE))) as [y Hy]; [lia |].
      rewrite (list_lookup_total_correct (A := Z) d _ _ Hy). apply (list_lookup_total_correct (A := Z)).
      rewrite <- Hy. apply lookup_splice_out; lia.
  - rewrite decide_False; [done |]. intros Hin. apply E.
    symmetry. apply (Z.div_unique_pos o BSIZE (off / BSIZE) (o - BSIZE * (off / BSIZE))); lia.
Qed.

(** Blocks that are mapped stay mapped, the written ones become so. *)
Definition maps (v : bview) (addrs : list Z) (off n : Z) (v' : bview) (addrs' : list Z) : Prop :=
  ∀ bn, 0 <= bn < MAXFILE →
    (slot v addrs (data_slot bn) ≠ 0 ∨ 0 < n ∧ off < (bn + 1) * BSIZE ∧ bn * BSIZE < off + n) →
    slot v' addrs' (data_slot bn) ≠ 0.

Lemma bmap_maps sb v addrs bn a v' addrs' x :
  bmap_effect sb v addrs bn a v' addrs' → 0 <= bn < MAXFILE → 0 <= x < MAXFILE →
  (slot v addrs (data_slot x) ≠ 0 ∨ x = bn) → slot v' addrs' (data_slot x) ≠ 0.
Proof.
  intros (_ & _ & Ha & Ea & Es & _) Hbn Hx Hm. destruct (decide (x = bn)) as [->|Hne]; [congruence |].
  destruct (data_slot_lt x Hx). rewrite Es; [tauto | done | | done].
  intros E. apply Hne, data_slot_inj; [lia | lia | done].
Qed.

(** One turn of the loop: [bmap], then the chunk goes into the block. *)
Lemma writei_chunk sb v addrs off a v1 addrs1 (bytes : list Z) :
  fswf sb v → fwf sb v addrs → 0 <= off → off / BSIZE < MAXFILE →
  bmap_effect sb v addrs (off / BSIZE) a v1 addrs1 →
  0 < Z.of_nat (length bytes) → off mod BSIZE + Z.of_nat (length bytes) <= BSIZE →
  length (file_block v1 addrs1 (off / BSIZE)) = bsize →
  let d' := splice (Z.to_nat (off mod BSIZE)) bytes (file_block v1 addrs1 (off / BSIZE)) in
  let v2 := bv_upd a d' v1 in
  grow sb (in_file v addrs) v v2 ∧ fwf sb v2 addrs1 ∧ written v addrs off bytes v2 addrs1 ∧
  maps v addrs off (Z.of_nat (length bytes)) v2 addrs1 ∧
  (∀ x, in_use sb v x = true → in_file v2 addrs1 x → in_file v addrs x) ∧
  costs 6 v v2 ∧ (∀ n, avail sb v (2 + n) → avail sb v2 n).
Proof.
  intros Hf Hw Hoff Hbm Heff Hlen Hm Hdl d' v2. set (bn := off / BSIZE) in *.
  assert (Hbn : 0 <= bn < MAXFILE) by (split; [apply Z.div_pos; [lia | done] | done]).
  pose proof Heff as (G1 & Hw1 & Ha & Ea & Es & Hz & Hno & C1 & A1 & Hind).
  pose proof (g_fs _ _ _ _ G1 Hf) as Hf1.
  assert (Hs1 : slot v1 addrs1 (data_slot bn) ≠ 0) by congruence.
  destruct (write_block sb v1 addrs1 bn d' Hf1 Hw1 Hbn Hs1) as (G2 & Hw2 & Es2 & Hb2 & A2).
  rewrite Ea in G2, Hw2, Es2, Hb2, A2. fold v2 in G2, Hw2, Es2, Hb2, A2.
  assert (Hin1 : ∀ x, in_use sb v x = true → in_file v1 addrs1 x → in_file v addrs x).
  { intros x Hu. by eapply bmap_in_file. }
  assert (HB : BSIZE = 1024) by done.
  split_and!.
  - split.
    + intros x Hx Hu Hp. rewrite (g_data _ _ _ _ G2 x Hx).
      * apply (g_data _ _ _ _ G1 x Hx Hu). intros ->. apply Hp. exists IND.
        rewrite slot_ind. split_and!; [unfold IND, nslots; lia | done | destruct Hx; lia].
      * apply (g_used _ _ _ _ G1); [destruct Hx; lia | done].
      * intros Hin. by apply Hp, Hin1.
    + intros x Hx Hu. apply (g_used _ _ _ _ G2); [done |]. by apply (g_used _ _ _ _ G1).
    + intros k Hk. rewrite (g_ino _ _ _ _ G2), (g_ino _ _ _ _ G1) by done. done.
    + by rewrite (g_held _ _ _ _ G2), (g_held _ _ _ _ G1).
    + by rewrite (g_open _ _ _ _ G2), (g_open _ _ _ _ G1).
    + intros _. by apply (g_fs _ _ _ _ G2).
  - done.
  - apply (written_chunk _ _ _ _ _ _ (file_block v1 addrs1 bn)); try done.
    + fold bn. symmetry. by eapply bmap_effect_block.
    + fold bn. intros x Hx. rewrite Hb2 by done. case_decide; [done |]. by eapply bmap_effect_block.
  - intros x Hx Hm'. rewrite Es2. eapply bmap_maps; [done | done | done |].
    destruct Hm' as [|(_ & M1 & M2)]; [by left | right].
    pose proof (Z.div_mod off BSIZE ltac:(lia)). fold bn in H2. pose proof (Z.mod_pos_bound off BSIZE ltac:(lia)).
    nia.
  - intros x Hu (k & Hk & Ek & Hx0). apply Hin1; [done |]. exists k. by rewrite <- Es2.
  - apply (costs_trans 5 1 _ v1); [done | apply costs_upd].
  - intros n Hn. by apply A2, A1.
Qed.

Lemma maps_trans v1 a1 v2 a2 v3 a3 off n m :
  maps v1 a1 off n v2 a2 → maps v2 a2 (off + n) m v3 a3 → 0 < n → 0 <= m → maps v1 a1 off (n + m) v3 a3.
Proof.
  intros M1 M2 Hn Hm bn Hbn [Hs|(_ & H1' & H2')]; apply M2; try done.
  - left. apply M1; [done | by left].
  - destruct (decide (bn * BSIZE < off + n)); [left; apply M1; [done | by right] |].
    right. unfold BSIZE in *. lia.
Qed.

Lemma writei_loop_spec fuel c s v (i : nat) ip n tot off data :
  let sb := fs_sb s in let addrs := i_addrs ip in
  frep s v → fswf sb v → fs_icache s !! i = Some ip → i_dev ip = ROOTDEV → fwf sb v addrs →
  bv_held v = ∅ → 1 <= bv_open v → room (6 * c) v → avail sb v (2 * c) →
  0 <= tot <= n → 0 <= off → off + (n - tot) <= MAXFILE * BSIZE → Z.of_nat (length data) = n - tot →
  (0 < fuel)%nat → (tot < n → n - tot + off mod BSIZE <= Z.of_nat c * BSIZE ∧ (c < fuel)%nat) →
  wp (writei_loop fuel i (Kernel data) n tot off) (λ r s', r = off + (n - tot) ∧ ∃ v' addrs',
    frep s' v' ∧ iframe i addrs' s s' ∧ grow sb (in_file v addrs) v v' ∧ fwf sb v' addrs' ∧
    written v addrs off data v' addrs' ∧ maps v addrs off (n - tot) v' addrs' ∧
    (∀ x, in_use sb v x = true → in_file v' addrs' x → in_file v addrs x) ∧
    costs (6 * c) v v' ∧ (∀ k, avail sb v (2 * c + k) → avail sb v' k)) s.
Proof.
  intros sb addrs. unfold sb, addrs. clear sb addrs. revert c s v ip tot off data.
  induction fuel as [|fuel IH]; intros c s v ip tot off data; [lia |].
  intros R Hf Hip Hdev Hw Hheld Ho Hroom Hav Htot Hoff Hend Hlen _ Hfuel.
  assert (HB : BSIZE = 1024) by done. assert (HM : MAXFILE = 268) by done. cbn [writei_loop].
  destruct (decide (tot < n)) as [Hlt|Hge].
  2:{ wp_step. assert (n - tot = 0) as E0 by lia. rewrite E0, Z.add_0_r. split; [done |].
      assert (data = []) as -> by (destruct data; [done | simpl in Hlen; lia]).
      exists v, (i_addrs ip). split_and!; try done.
      - by apply sframe_iframe.
      - apply grow_refl.
      - apply written_nil.
      - intros bn Hbn [?|(? & _)]; [done | lia].
      - apply costs_refl.
      - intros k Hk. eapply avail_le; [done | lia]. }
  destruct (Hfuel Hlt) as [Hc Hcf]. destruct c as [|c]; [pose proof (Z.mod_pos_bound off BSIZE); lia |].
  pose proof (Z.mod_pos_bound off BSIZE ltac:(lia)) as Hmod.
  pose proof (Z.div_mod off BSIZE ltac:(lia)) as Edm.
  assert (Hbn : 0 <= off / BSIZE < MAXFILE).
  { split; [apply Z.div_pos; lia | apply Z.div_lt_upper_bound; lia]. }
  wp_step. eapply wp_mono; [apply (bmap_spec s v i ip (off / BSIZE) R Hf Hip Hdev Hw Hheld Hbn) |].
  { eapply room_le; [done | lia]. }
  { right. split_and!; [done | eapply avail_le; [done | lia] | eapply room_le; [done | lia]]. }
  intros a s1 (v1 & addrs1 & R1 & F1 & Heff). cbv beta.
  pose proof Heff as (G1 & Hw1 & Ha & Ea & _ & _ & _ & C1 & _).
  pose proof (g_fs _ _ _ _ G1 Hf) as Hf1.
  assert (Hs1 : slot v1 addrs1 (data_slot (off / BSIZE)) ≠ 0) by congruence.
  destruct (mapped_block _ _ _ _ _ R1 Hf1 Hw1 Hbn Hs1) as (Hd & Hdl & Hdd & Hdu). rewrite Ea in Hd, Hdd, Hdu.
  assert (Hh1 : bv_held v1 = ∅) by (rewrite (g_held _ _ _ _ G1); done).
  assert (Hip1 : fs_icache s1 !! i = Some (with_addrs addrs1 ip)).
  { destruct F1 as (_ & -> & _). by rewrite list_lookup_alter, decide_True, Hip. }
  wp_step. wp_step. rewrite (ino_lookup _ _ _ Hip1). cbn [i_dev with_addrs]. rewrite Hdev.
  assert (Hroom1 : room 1 v1) by (apply C1; eapply room_le; [done | lia]).
  wp_step. eapply wp_mono; [apply (fs_bread s1 v1 _ _ R1 Hd); [rewrite Hh1; set_solver | done] |].
  intros bp s2 (R2 & Hbp & Hdat & F2 & K2). cbv beta.
  set (m := chunk n tot off). assert (Hm : 0 < m <= n - tot ∧ off mod BSIZE + m <= BSIZE).
  { unfold m, chunk. lia. }
  cbn [either_copyin]. rewrite decide_True by lia. wp_step. wp_step. cbv beta. buf_read Hdat.
  rewrite decide_False by lia.
  assert (Hbl : Z.of_nat (length (take (Z.to_nat m) data)) = m) by (rewrite length_take; lia).
  set (bytes := take (Z.to_nat m) data) in *.
  apply (fs_log_data s2 v1 bp a _ _ _ R2 Hbp); [rewrite Hh1; set_solver | | done | rewrite (g_open _ _ _ _ G1); done |].
  { rewrite splice_length; [done |]. rewrite Hdl. params. lia. }
  destruct (writei_chunk (fs_sb s) v (i_addrs ip) off a v1 addrs1 bytes) as (G & Hw2 & W2 & M2 & In2 & C2 & A2);
    try done; try lia.
  set (d' := splice _ _ _) in *. set (v2 := bv_upd a d' v1) in *.
  intros s3 R3 F3 K3.
  assert (F13 : iframe i addrs1 s s3) by (eapply iframe_sframe; [exact F1 |]; by etrans).
  assert (Esb : fs_sb s3 = fs_sb s) by apply F13.
  assert (Hip3 : fs_icache s3 !! i = Some (with_addrs addrs1 ip)).
  { destruct F13 as (_ & -> & _). by rewrite list_lookup_alter, decide_True, Hip. }
  cbn [advance]. eapply wp_mono; [apply (IH c s3 v2 (with_addrs addrs1 ip) (tot + m) (off + m) (drop (Z.to_nat m) data));
    rewrite ?Esb; try done |].
  { by apply (g_fs _ _ _ _ G). }
  { rewrite (g_open _ _ _ _ G). done. }
  { apply C2. eapply room_le; [done | lia]. }
  { apply A2. eapply avail_le; [done | lia]. }
  { lia. }
  { lia. }
  { lia. }
  { rewrite length_drop. lia. }
  { lia. }
  { intros Hlt2. assert (m = BSIZE - off mod BSIZE) as Em by (unfold m, chunk in *; lia).
    assert ((off + m) mod BSIZE = 0) as ->.
    { rewrite Em. replace (off + (BSIZE - off mod BSIZE)) with ((off / BSIZE + 1) * BSIZE) by lia.
      apply Z_mod_mult. }
    split; lia. }
  rewrite Esb. intros r s4 [-> (v4 & addrs4 & R4 & F4 & G4 & Hw4 & W4 & M4 & In4 & C4 & A4)].
  cbn [i_addrs with_addrs] in *. split; [lia |]. exists v4, addrs4. split_and!; try done.
  - eapply iframe_trans; done.
  - split.
    + intros x Hx Hu Hp. rewrite (g_data _ _ _ _ G4 x Hx).
      * by apply (g_data _ _ _ _ G x Hx Hu).
      * apply (g_used _ _ _ _ G); [destruct Hx; lia | done].
      * intros Hin. by apply Hp, In2.
    + intros x Hx Hu. apply (g_used _ _ _ _ G4); [done |]. by apply (g_used _ _ _ _ G).
    + intros k Hk. rewrite (g_ino _ _ _ _ G4), (g_ino _ _ _ _ G) by done. done.
    + by rewrite (g_held _ _ _ _ G4), (g_held _ _ _ _ G).
    + by rewrite (g_open _ _ _ _ G4), (g_open _ _ _ _ G).
    + intros _. by apply (g_fs _ _ _ _ G4), (g_fs _ _ _ _ G).
  - rewrite <- (take_drop (Z.to_nat m) data). fold bytes. eapply written_app; [exact W2 | | done].
    by rewrite Hbl.
  - replace (n - tot) with (m + (n - (tot + m))) by lia. eapply maps_trans; [| exact M4 | lia | lia].
    by rewrite Hbl in M2.
  - intros x Hu Hin. apply In2; [done |]. apply In4; [| done].
    destruct (in_use (fs_sb s) v2 x) eqn:E; [done |].
    exfalso. destruct Hin as (k & Hk & Ek & Hx0).
    assert (slot v4 addrs4 k ≠ 0) as Hnz by congruence.
    destruct (fw_ok _ _ _ Hw4 k Hk Hnz) as [Hdx _]. rewrite Ek in Hdx.
    rewrite (g_used _ _ _ _ G) in E; [done | destruct Hdx; lia | done].
  - replace (6 * Datatypes.S c)%nat with (6 + 6 * c)%nat by lia. by eapply costs_trans.
  - intros k Hk. apply A4, A2. eapply avail_le; [exact Hk | lia].
Qed.

(** *** Writing the inode back *)

(** Changing an inode block leaves the bitmap and all file contents alone. *)
Lemma inode_block_kept sb v (d : block) inum :
  fswf sb v → 0 <= inum < sb_ninodes sb →
  let v' := bv_upd (IBLOCK inum sb) d v in
  fswf sb v' ∧ (∀ x, 0 <= x < sb_size sb → in_use sb v' x = in_use sb v x) ∧
  (∀ x, data_block sb x → bv_now v' !! x = bv_now v !! x) ∧
  (∀ addrs, fwf sb v addrs → fwf sb v' addrs ∧ (∀ k, (k < nslots)%nat → slot v' addrs k = slot v addrs k) ∧
     ∀ bn, 0 <= bn < MAXFILE → file_block v' addrs bn = file_block v addrs bn).
Proof.
  intros Hf Hi v'.
  assert (Eu : ∀ x, 0 <= x < sb_size sb → in_use sb v' x = in_use sb v x).
  { intros x Hx. unfold in_use, v'. cbn [bv_now bv_upd]. rewrite lookup_insert_ne; [done |].
    by apply (fs_meta _ _ Hf). }
  assert (Ed : ∀ x, data_block sb x → bv_now v' !! x = bv_now v !! x).
  { intros x (_ & _ & Hx). unfold v'. cbn [bv_now bv_upd]. rewrite lookup_insert_ne; [done |].
    intros E. by apply (Hx inum). }
  split_and!; try done.
  - destruct Hf as [[] [] Hfr Hm].
    assert (∀ x, x ∈ dom (bv_now v) → x ∈ dom (bv_now v')) by (intros x Hx; unfold v'; rewrite bv_upd_dom; set_solver).
    split; [by split; auto | by split; auto | | done].
    intros b Hb. rewrite Eu by done. by apply Hfr.
  - intros addrs Hw. destruct (fwf_kept sb v v' addrs (λ _, False) Hw) as [Hw' Es]; auto.
    { intros x Hx _ _. by apply Ed. }
    { intros x Hx Hu. by rewrite Eu. }
    split_and!; [done | done |]. intros bn Hbn. unfold file_block. rewrite Es.
    case_decide as E; [done |]. destruct (data_slot_lt bn Hbn) as [Hlt _].
    by rewrite Ed by (by apply (fw_ok _ _ _ Hw)).
Qed.

Lemma fwf_addrs_range sb v addrs :
  fwf sb v addrs → 0 < sb_size sb < 2 ^ 31 → Forall (λ a, 0 <= a < 2 ^ 32) addrs.
Proof.
  intros Hw Hs. apply Forall_lookup. intros k a Hk.
  assert (Hlt : (k < naddrs)%nat) by (rewrite <- (fw_len _ _ _ Hw); by eapply lookup_lt_Some).
  rewrite naddrs_eq in Hlt.
  assert (Ea : slot v addrs k = a).
  { unfold slot. rewrite decide_True by (unfold IND; lia). by apply list_lookup_total_correct. }
  destruct (decide (a = 0)) as [->|Ha]; [lia |].
  assert (slot v addrs k ≠ 0) as Hnz by congruence.
  destruct (fw_ok _ _ _ Hw k ltac:(unfold nslots; lia) Hnz) as [Hd _].
  rewrite Ea in Hd. destruct Hd. lia.
Qed.

(** The inode after [writei]. *)
Definition written_inode (off n : Z) (addrs : list Z) (ip : inode) : inode :=
  let ip := with_addrs addrs ip in if decide (off + n > i_size ip) then set_size (off + n) ip else ip.

(** What a successful [writei] of [data] at [off] establishes. *)
Record writei_post (s : fst S U) (v : bview) (i : nat) (ip : inode) (off : Z) (data : list Z)
    (s' : fst S U) (v' : bview) (ip' : inode) : Prop := {
  wr_rep : frep s' v';
  wr_fs : fswf (fs_sb s) v';
  wr_ip : ip' = written_inode off (Z.of_nat (length data)) (i_addrs ip') ip;
  wr_cache : fs_icache s' = <[i := ip']> (fs_icache s);
  wr_env : fs_sb s' = fs_sb s ∧ fs_cwd s' = fs_cwd s ∧ fs_mem s' = fs_mem s ∧ pid_of s' = pid_of s;
  wr_fwf : fwf (fs_sb s) v' (i_addrs ip');
  wr_bytes : written v (i_addrs ip) off data v' (i_addrs ip');
  wr_maps : maps v (i_addrs ip) off (Z.of_nat (length data)) v' (i_addrs ip');
  wr_inode : inode_at (fs_sb s) v' (i_inum ip) = Some (inode_disk ip');
  wr_others : ∀ k, 0 <= k < sb_ninodes (fs_sb s) → k ≠ i_inum ip →
    inode_at (fs_sb s) v' k = inode_at (fs_sb s) v k;
  wr_data : data_kept (fs_sb s) (in_file v (i_addrs ip)) v v';
  wr_used : used_kept (fs_sb s) v v';
  wr_held : bv_held v' = ∅;
  wr_open : bv_open v' = bv_open v;
}.

Lemma file_byte_ext v addrs v' addrs' o :
  0 <= o < MAXFILE * BSIZE →
  (∀ bn, 0 <= bn < MAXFILE → file_block v' addrs' bn = file_block v addrs bn) →
  file_byte v' addrs' o = file_byte v addrs o.
Proof.
  intros Ho E. unfold file_byte. rewrite E; [done |].
  assert (HB : BSIZE = 1024) by done. split; [apply Z.div_pos; lia | apply Z.div_lt_upper_bound; lia].
Qed.

Lemma writei_spec c s v (i : nat) ip off data :
  let sb := fs_sb s in let n := Z.of_nat (length data) in
  frep s v → fswf sb v → fs_icache s !! i = Some ip → i_dev ip = ROOTDEV → fwf sb v (i_addrs ip) →
  0 <= i_inum ip < sb_ninodes sb → dinode_ok (inode_disk ip) →
  bv_held v = ∅ → 1 <= bv_open v → room (6 * c + 1) v → avail sb v (2 * c) →
  0 <= off <= i_size ip → off + n <= MAXFILE * BSIZE → 0 < n →
  n + off mod BSIZE <= Z.of_nat c * BSIZE → Z.of_nat c <= n / BSIZE + 2 →
  wp (writei i (Kernel data) off n) (λ r s', r = n ∧
    ∃ v' ip', writei_post s v i ip off data s' v' ip' ∧ (∀ k, room (6 * c + 1 + k) v → room k v')) s.
Proof.
  intros sb n R Hf Hip Hdev Hw Hinum Hdok Hheld Ho Hroom Hav Hoff Hend Hn Hc Hc2.
  assert (HB : BSIZE = 1024) by done. assert (HM : MAXFILE = 268) by done.
  unfold writei. wp_step. wp_step. rewrite (ino_lookup _ _ _ Hip), u32_small by lia.
  rewrite decide_False by lia. rewrite decide_False by lia. wp_step.
  pose proof (Z.div_pos n BSIZE ltac:(lia) ltac:(lia)).
  eapply wp_mono; [apply (writei_loop_spec _ c s v i ip n 0 off data R Hf Hip Hdev Hw Hheld Ho); try done; try lia |].
  { eapply room_le; [done | lia]. }
  intros r s1 [-> (v1 & addrs1 & R1 & F1 & G1 & Hw1 & W1 & M1 & In1 & C1 & A1)]. cbv beta.
  fold sb in G1, Hw1. rewrite Z.sub_0_r in *. rewrite decide_True by lia.
  assert (Hip1 : fs_icache s1 !! i = Some (with_addrs addrs1 ip)).
  { destruct F1 as (_ & -> & _). by rewrite list_lookup_alter, decide_True, Hip. }
  wp_step. wp_step. wp_step. rewrite (ino_lookup _ _ _ Hip1).
  set (ip' := written_inode off n addrs1 ip).
  assert (Hstep : ∃ s2, (if decide (off + n > i_size (with_addrs addrs1 ip)) then upd_ino i (set_size (off + n)) else ret tt) s1
     = Ret tt s2 ∧ frep s2 v1 ∧ fs_icache s2 = <[i := ip']> (fs_icache s) ∧ fs_sb s2 = sb ∧
       fs_cwd s2 = fs_cwd s ∧ fs_mem s2 = fs_mem s ∧ pid_of s2 = pid_of s).
  { destruct F1 as (B1 & B2 & B3 & B4 & B5). unfold ip', written_inode.
    rewrite (alter_to_insert _ _ _ _ Hip) in B2. case_decide.
    - eexists. split; [reflexivity |]. cbn [cache_to fs_icache fs_sb fs_cwd fs_mem]. split_and!; try done.
      rewrite (alter_to_insert _ _ _ _ Hip1), B2. by rewrite list_insert_insert_eq.
    - eexists. split; [reflexivity |]. split_and!; done. }
  destruct Hstep as (s2 & Es2 & R2 & Eic & Esb & Ecwd & Emem & Epid).
  wp_step. eapply wp_intro; [exact Es2 |]. cbv beta.
  assert (Hlt : (i < length (fs_icache s))%nat) by (by eapply lookup_lt_Some).
  assert (Hip2 : fs_icache s2 !! i = Some ip') by (rewrite Eic; by apply list_lookup_insert_eq).
  assert (Eip : i_inum ip' = i_inum ip ∧ i_dev ip' = ROOTDEV ∧ i_addrs ip' = addrs1).
  { unfold ip', written_inode. by case_decide. }
  destruct Eip as (Einum & Edev & Eaddrs).
  pose proof (g_fs _ _ _ _ G1 Hf) as Hf1.
  assert (Hdok' : dinode_ok (inode_disk ip')).
  { clear Es2 Eic Hip2 Einum Edev Eaddrs. destruct Hdok as [D1 D2 D3 D4 D5 D6]. simpl in *.
    unfold ip', written_inode. simpl. case_decide; split; simpl in *; try done; try lia;
      (split; [apply Hw1 | eapply fwf_addrs_range; [exact Hw1 | apply Hf1]]). }
  pose proof (iw_dom _ _ (fs_iwf _ _ Hf1) (i_inum ip) Hinum) as [d Hd]%elem_of_dom.
  assert (Hh1 : bv_held v1 = ∅) by (rewrite (g_held _ _ _ _ G1); done).
  pose proof (frep_len _ _ _ _ R2 Hd) as Hdl.
  eapply wp_mono; [apply (iupdate_spec s2 v1 i ip' d R2 Hip2 Edev); rewrite ?Esb, ?Einum, ?Eaddrs; try done |].
  { apply Hw1. }
  { rewrite Hh1. set_solver. }
  { apply C1. done. }
  { rewrite (g_open _ _ _ _ G1). done. }
  rewrite Esb, Einum. intros _ s3 (R3 & F3 & _). cbv beta. wp_step.
  split; [by rewrite s32_small by lia |].
  destruct (inode_block_kept sb v1 (dinode_store (dinode_off (i_inum ip)) (inode_disk ip') d) (i_inum ip) Hf1 Hinum)
    as (Hf3 & Eu3 & Ed3 & Hfile3).
  destruct (Hfile3 _ Hw1) as (Hw3 & Es3 & Eb3).
  set (v3 := bv_upd _ _ v1) in *.
  assert (Hat : ∀ k, 0 <= k < sb_ninodes sb → inode_at sb v3 k =
     if decide (k = i_inum ip) then Some (inode_disk ip') else inode_at sb v1 k).
  { intros k Hk. apply inode_at_upd; try done. apply Hf1. }
  destruct F3 as (B1 & B2 & B3 & B4 & B5).
  exists v3, ip'. split.
  - split; fold sb; rewrite ?Eaddrs; try done.
    + congruence.
    + split_and!; congruence.
    + intros o Hoo. rewrite <- W1 by done. by apply file_byte_ext.
    + intros bn Hbn Hm. rewrite Es3 by apply (data_slot_lt bn Hbn). by apply M1.
    + rewrite Hat by done. by rewrite decide_True.
    + intros k Hk Hne. rewrite Hat by done. rewrite decide_False by done.
      unfold inode_at. by rewrite (g_ino _ _ _ _ G1).
    + intros x Hx Hu Hp. rewrite Ed3 by done. by apply (g_data _ _ _ _ G1).
    + intros x Hx Hu. rewrite Eu3 by done. by apply (g_used _ _ _ _ G1).
    + apply (g_open _ _ _ _ G1).
  - intros k Hk. apply (costs_upd (IBLOCK (i_inum ip) sb) _ v1 k). apply C1. eapply room_le; [exact Hk | lia].
Qed.
End IO.
