(* ===== verification/FileTheorems.v ===== *)
(** * Inodes and files: theorems ([kernel/fs.c]) *)
From S2P Require Import Prelude Params CString Locks BlockLayer Fs Dir FsBlocks Image BlockAlloc FsInode FsFile FileIO.

(** ** The example image again *)
Lemma IBLOCK64 i : 0 <= i < 32 → IBLOCK i sb64 = 32 ∨ IBLOCK i sb64 = 33.
Proof.
  intros Hi. unfold IBLOCK. change (sb_inodestart sb64) with 32. change IPB with 16.
  pose proof (Z.div_pos i 16). pose proof (Z.div_lt_upper_bound i 16 2).
  rewrite u32_small; lia.
Qed.

Lemma fs64_fswf o : fswf sb64 (view64 o).
Proof.
  split.
  - apply fs64_sbwf.
  - split; cbn [sb64 sb_ninodes sb_inodestart].
    + lia.
    + vm_compute. split; done.
    + intros i Hi. cbn [view64 image_view bv_now]. rewrite image_dom, image64_length.
      destruct (IBLOCK64 i Hi) as [-> | ->]; lia.
  - intros b Hb. cbn in Hb. rewrite fs64_in_use by done. case_bool_decide; [done |]. intros _. split_and!.
    + lia.
    + cbn. lia.
    + intros x Hx. cbn in Hx. rewrite BBLOCK64 by done. lia.
    + intros i Hi. cbn in Hi. destruct (IBLOCK64 i Hi) as [-> | ->]; lia.
  - intros x i Hx Hi. cbn in Hx, Hi. rewrite BBLOCK64 by done. destruct (IBLOCK64 i Hi) as [-> | ->]; lia.
Qed.

(** The root directory in the inode cache, locked by process 7. *)
Definition root_inode : inode :=
  set_dinode root_dinode (Inode 1 1 1 (SleepLock true 7) false 0 0 0 0 0 (replicate naddrs 0) 0 0).
Definition fs64r (o : Z) : fst memst (list Z) :=
  Fst (MemSt (view64 o) 7) sb64 (root_inode :: replicate (ninode - 1) inode0) 0 (replicate 4096 0).

Lemma root_slots o k : (k < nslots)%nat → slot (view64 o) (i_addrs root_inode) k = if decide (k = 0%nat) then 35 else 0.
Proof.
  intros Hk. unfold slot, IND. destruct (decide (k ≤ 12)%nat) as [Hle|Hgt].
  - do 13 (destruct k as [|k]; [reflexivity |]). lia.
  - rewrite decide_True by reflexivity. rewrite decide_False by lia. done.
Qed.

Lemma root_fwf o : fwf sb64 (view64 o) (i_addrs root_inode).
Proof.
  split.
  - reflexivity.
  - intros k Hk. rewrite root_slots by done. case_decide; [| done]. intros _. split.
    + split_and!; [cbn; lia | cbn; lia | |].
      * intros x Hx. cbn in Hx. rewrite BBLOCK64 by done. lia.
      * intros i Hi. cbn in Hi. destruct (IBLOCK64 i Hi) as [-> | ->]; lia.
    + rewrite fs64_in_use by lia. reflexivity.
  - intros k j Hk Hj. rewrite !root_slots by done. repeat case_decide; try done. lia.
Qed.

Lemma root_mapped o : mapped (view64 o) (i_addrs root_inode) 32.
Proof.
  intros bn H0 H1. assert (bn = 0) as -> by (unfold BSIZE in H1; lia). change (data_slot 0) with 0%nat.
  rewrite root_slots by (unfold nslots; lia). done.
Qed.

Lemma fs64r_rep o : frep (fs64r o) (view64 o).
Proof. apply image_rep, image64_lengths. Qed.

Lemma fs64_avail o n : (n ≤ 28)%nat → avail sb64 (view64 o) n.
Proof.
  intros Hn. exists ((λ k : nat, 36 + Z.of_nat k) <$> seq 0 28). split_and!.
  - apply NoDup_fmap_2_strong; [| apply NoDup_seq]. intros x y _ _. lia.
  - rewrite length_fmap, length_seq. done.
  - intros x (k & -> & Hk%elem_of_seq)%list_elem_of_fmap. cbn [sb64 sb_size].
    split; [lia |]. rewrite fs64_in_use by lia. apply bool_decide_eq_false. lia.
Qed.

Lemma root_dinode_ok : dinode_ok (inode_disk root_inode).
Proof.
  split; cbn [inode_disk root_inode set_dinode root_dinode d_size d_addrs d_type d_nlink d_mode d_perm
    i_size i_addrs i_type i_nlink i_mode i_perm]; unfold T_DIR, M_ALL; try lia.
  split; [reflexivity |]. repeat constructor; lia.
Qed.

Section Theorems.
Context {S U : Type} `{BlockLayerOk S} `{UserMem U}.

(** The on-disk inode format: storing an inode's fields and loading them
    back gives the same inode, for every field within its C type, and
    loading any other slot of the same block is unaffected. *)
Theorem dinode_roundtrip inum x (d : block) :
  length d = bsize → dinode_ok x →
  let d' := dinode_store (dinode_off inum) x d in
  length d' = bsize ∧ dinode_load (dinode_off inum) d' = x ∧
  ∀ inum', dinode_off inum' ≠ dinode_off inum → dinode_load (dinode_off inum') d' = dinode_load (dinode_off inum') d.
Proof.
  intros Hd Hx d'. pose proof (dinode_off_bound inum) as Hb. split_and!.
  - unfold d'. rewrite dinode_store_length; [done | lia | apply Hx].
  - apply dinode_load_store; [lia | done].
  - intros inum' Hne. pose proof (dinode_off_bound inum'). apply dinode_load_other; [lia | lia | apply Hx |].
    destruct (dinode_off_disjoint _ _ Hne); lia.
Qed.

(** [iupdate] writes the cached inode through: afterwards the on-disk
    inode is the in-memory one, every other inode of the file system is
    unchanged, and neither is anything else. *)
Theorem iupdate_writes_through (s : fst S U) v (i : nat) ip :
  frep s v → fswf (fs_sb s) v → fs_icache s !! i = Some ip → i_dev ip = ROOTDEV →
  0 <= i_inum ip < sb_ninodes (fs_sb s) → dinode_ok (inode_disk ip) → bv_held v = ∅ →
  room 1 v → 1 <= bv_open v →
  wp (iupdate i) (λ _ s', ∃ v', frep s' v' ∧ sframe s s' ∧
    inode_at (fs_sb s) v' (i_inum ip) = Some (inode_disk ip) ∧
    (∀ k, 0 <= k < sb_ninodes (fs_sb s) → k ≠ i_inum ip → inode_at (fs_sb s) v' k = inode_at (fs_sb s) v k) ∧
    (∀ b, b ≠ IBLOCK (i_inum ip) (fs_sb s) → bv_now v' !! b = bv_now v !! b)) s.
Proof.
  intros R Hf Hip Hdev Hin Hok Hheld Hroom Ho.
  pose proof (iw_dom _ _ (fs_iwf _ _ Hf) _ Hin) as [d Hd]%elem_of_dom.
  eapply wp_mono; [apply (iupdate_spec s v i ip d R Hip Hdev); try done; [apply Hok | rewrite Hheld; set_solver] |].
  intros _ s' (R' & F & _). eexists. split_and!; [exact R' | done | | |].
  - rewrite inode_at_upd; try done; [by rewrite decide_True | apply Hf | exact (frep_len _ _ _ _ R Hd)].
  - intros k Hk Hne. rewrite inode_at_upd; try done; [by rewrite decide_False | apply Hf | exact (frep_len _ _ _ _ R Hd)].
  - intros b Hb. cbn [bv_now bv_upd]. by rewrite lookup_insert_ne.
Qed.

(** [ilock] of an inode that is not in memory yet loads exactly what is
    on the disk and takes the lock, keeping the reference count. *)
Theorem ilock_loads (s : fst S U) v (i : nat) ip x :
  frep s v → fswf (fs_sb s) v → fs_icache s !! i = Some ip → i_dev ip = ROOTDEV →
  0 <= i_inum ip < sb_ninodes (fs_sb s) → 1 <= i_ref ip → sl_locked (i_lock ip) = false →
  i_valid ip = false → inode_at (fs_sb s) v (i_inum ip) = Some x → d_type x ≠ 0 →
  bv_held v = ∅ → room 1 v →
  wp (ilock i) (λ _ s', frep s' v ∧ ∃ ip', fs_icache s' = <[i := ip']> (fs_icache s) ∧
    inode_disk ip' = x ∧ i_valid ip' = true ∧ i_lock ip' = SleepLock true (pid_of s) ∧
    i_ref ip' = i_ref ip ∧ i_inum ip' = i_inum ip ∧ i_dev ip' = i_dev ip) s.
Proof.
  intros R Hf Hip Hdev Hin Hr Hl Hv Hx Ht Hheld Hroom.
  pose proof (iw_dom _ _ (fs_iwf _ _ Hf) _ Hin) as [d Hd]%elem_of_dom.
  unfold inode_at in Hx. rewrite Hd in Hx. injection Hx as <-.
  eapply wp_mono; [apply (ilock_load s v i ip d R Hip Hr Hl Hv Hdev Hd); [rewrite Hheld; set_solver | done | done] |].
  intros _ s' (R' & _ & _ & _ & _ & Eic & _). split; [done |]. eexists. split; [exact Eic |]. done.
Qed.

(** [ialloc] picks the free inode with the lowest number: the chosen
    inode had type 0 and every lower-numbered one is in use; on the disk it
    becomes an empty inode of the requested type with default permissions,
    all other inodes keep their contents, and the returned cache entry
    refers to it. *)
Theorem ialloc_correct (s : fst S U) v type :
  frep s v → fswf (fs_sb s) v → icwf (fs_icache s) → (∃ x, x ∈ fs_icache s ∧ i_ref x = 0) →
  - 2 ^ 15 <= type < 2 ^ 15 → bv_held v = ∅ → room 1 v → 1 <= bv_open v →
  (∃ k x, 1 <= k < sb_ninodes (fs_sb s) ∧ inode_at (fs_sb s) v k = Some x ∧ d_type x = 0) →
  wp (ialloc ROOTDEV type) (λ i s', ∃ v' ip, frep s' v' ∧ icwf (fs_icache s') ∧
    fs_icache s' !! i = Some ip ∧ 0 < i_ref ip ∧ i_dev ip = ROOTDEV ∧
    1 <= i_inum ip < sb_ninodes (fs_sb s) ∧
    (∃ x, inode_at (fs_sb s) v (i_inum ip) = Some x ∧ d_type x = 0) ∧
    (∀ j y, 1 <= j < i_inum ip → inode_at (fs_sb s) v j = Some y → d_type y ≠ 0) ∧
    inode_at (fs_sb s) v' (i_inum ip) = Some (fresh_dinode type) ∧
    (∀ k, 0 <= k < sb_ninodes (fs_sb s) → k ≠ i_inum ip →
       inode_at (fs_sb s) v' k = inode_at (fs_sb s) v k)) s.
Proof.
  intros R Hf Hic Hfree Ht Hheld Hroom Ho Hex. unfold ialloc. wp_step. wp_step.
  pose proof (iw_n _ _ (fs_iwf _ _ Hf)).
  eapply wp_mono; [apply (ialloc_loop_spec _ 1 type s s v); try done; [apply Hf | lia] |].
  intros i s' (k & x & d & ip & ic' & Hk & Hx & Hx0 & Hmin & Hd & R' & <- & Hic' & Hip & P1 & P2 & P3 & _).
  pose proof (frep_len _ _ _ _ R Hd) as Hl.
  eexists _, ip. subst k. split_and!; try done; try lia.
  - by exists x.
  - rewrite inode_at_ialloc; try done; [by rewrite decide_True | apply Hf | lia | lia].
  - intros k Hk' Hne. rewrite inode_at_ialloc; try done; [by rewrite decide_False | apply Hf | lia].
Qed.

(** [iget] keeps the inode cache consistent: there is never more than
    one referenced entry for an inode, the entry returned is for the
    requested inode, its reference count went up by one (from zero when the
    entry was recycled, in which case it must be re-read by [ilock]), and no
    other entry changed. *)
Theorem iget_cache (s : fst S U) dev inum :
  icwf (fs_icache s) →
  (∃ x, x ∈ fs_icache s ∧ (i_ref x = 0 ∨ 0 < i_ref x ∧ i_dev x = dev ∧ i_inum x = inum)) →
  wp (iget dev inum) (λ i s', ∃ x x', fs_icache s !! i = Some x ∧
    fs_icache s' = <[i := x']> (fs_icache s) ∧ icwf (fs_icache s') ∧
    i_dev x' = dev ∧ i_inum x' = inum ∧ i_ref x' = i_ref x + 1 ∧
    (i_ref x = 0 → i_valid x' = false) ∧ (0 < i_ref x → x' = set_ref (i_ref x + 1) x)) s.
Proof.
  intros Hic Hav. eapply wp_mono; [by apply iget_spec |].
  intros i s' (x & ic' & Hx & -> & Hic' & Hcase). cbn [cache_to fs_icache]. exists x.
  destruct Hcase as [(P1 & P2 & P3 & ->) | (P1 & P2 & ->)]; eexists; (split_and!; [done | reflexivity | done | ..]);
    simpl; try done; try lia.
Qed.

(** [bmap] translates a block index of a file to its disk block: for a
    block that exists it changes nothing; for a missing one it allocates a
    zeroed block (and the indirect block if that is missing too) that no
    file used, and no other block of any file moves or changes. *)
Theorem bmap_correct (s : fst S U) v (i : nat) ip bn :
  frep s v → fswf (fs_sb s) v → fs_icache s !! i = Some ip → i_dev ip = ROOTDEV →
  fwf (fs_sb s) v (i_addrs ip) → bv_held v = ∅ → 0 <= bn < MAXFILE → room 6 v →
  1 <= bv_open v → avail (fs_sb s) v 2 →
  wp (bmap i bn) (λ a s', ∃ v' ip', frep s' v' ∧ fs_icache s' = <[i := ip']> (fs_icache s) ∧
    ip' = with_addrs (i_addrs ip') ip ∧ fwf (fs_sb s) v' (i_addrs ip') ∧
    a = slot v' (i_addrs ip') (data_slot bn) ∧ a ≠ 0 ∧
    (slot v (i_addrs ip) (data_slot bn) ≠ 0 → v' = v ∧ ip' = ip) ∧
    (slot v (i_addrs ip) (data_slot bn) = 0 → in_use (fs_sb s) v a = false ∧ bv_now v' !! a = Some zero_block) ∧
    (∀ x, 0 <= x < MAXFILE → file_block v' (i_addrs ip') x = file_block v (i_addrs ip) x) ∧
    (∀ b, data_block (fs_sb s) b → in_use (fs_sb s) v b = true → b ≠ i_addrs ip !!! IND →
       bv_now v' !! b = bv_now v !! b)) s.
Proof.
  intros R Hf Hip Hdev Hw Hheld Hbn Hroom Ho Hav.
  eapply wp_mono; [apply (bmap_spec s v i ip bn R Hf Hip Hdev Hw Hheld Hbn) |].
  { eapply room_le; [done | lia]. }
  { right. done. }
  intros a s' (v' & addrs' & R' & F & Heff). exists v', (with_addrs addrs' ip).
  pose proof Heff as (G & Hw' & Ha & Ea & _ & Hz & Hno & _). cbn [i_addrs with_addrs].
  destruct F as (_ & E2 & _). rewrite (alter_to_insert _ _ _ _ Hip) in E2. split_and!; try done.
  - intros Hs. destruct (Hno Hs) as [-> ->]. split; [done |]. by destruct ip.
  - intros Hs. by destruct (Hz Hs).
  - intros x Hx. by eapply bmap_effect_block.
  - intros b Hb Hu Hne. by apply (g_data _ _ _ _ G).
Qed.

(** [readi] of a file without holes returns the bytes of the file from
    [off] on, as many as were asked for and exist: nothing past the end,
    nothing lost, and the file system is unchanged. *)
Theorem readi_correct (s : fst S U) v (i : nat) ip off n :
  frep s v → fswf (fs_sb s) v → fs_icache s !! i = Some ip → i_dev ip = ROOTDEV →
  fwf (fs_sb s) v (i_addrs ip) → bv_held v = ∅ → room 1 v →
  mapped v (i_addrs ip) (i_size ip) → 0 <= i_size ip <= MAXFILE * BSIZE →
  0 <= off → 0 <= n → off + n < 2 ^ 32 →
  wp (readi i (Kernel []) off n) (λ r s',
    r.1 = (if decide (off > i_size ip) then 0 else Z.min n (i_size ip - off)) ∧
    Z.of_nat (length r.2) = r.1 ∧
    (∀ k : nat, (k < length r.2)%nat → r.2 !! k = Some (file_byte v (i_addrs ip) (off + Z.of_nat k))) ∧
    frep s' v ∧ sframe s s') s.
Proof.
  intros R Hf Hip Hdev Hw Hheld Hroom Hmap Hsz Hoff Hn Hov.
  eapply wp_mono; [apply (readi_spec s v i ip off n); done |]. intros r s' (-> & R' & F). simpl.
  assert (0 <= readable (i_size ip) off n) by (unfold readable; case_decide; lia).
  rewrite file_slice_length, Z2Nat.id by done. split_and!; try done.
  intros k Hk. unfold file_slice. rewrite list_lookup_fmap, lookup_seq_lt by done. done.
Qed.

(** C2: [writei] of [data] at [off] inside a transaction returns the number
    of bytes; afterwards the file reads as before except that the bytes from
    [off] on are [data], its size is the larger of the old size and the end
    of the write, the inode on the disk says so too, all other inodes are
    unchanged, and so is every block in use by another file. *)
Theorem writei_correct c (s : fst S U) v (i : nat) ip off data :
  let n := Z.of_nat (length data) in
  frep s v → fswf (fs_sb s) v → fs_icache s !! i = Some ip → i_dev ip = ROOTDEV →
  fwf (fs_sb s) v (i_addrs ip) → 0 <= i_inum ip < sb_ninodes (fs_sb s) → dinode_ok (inode_disk ip) →
  bv_held v = ∅ → 1 <= bv_open v → room (6 * c + 1) v → avail (fs_sb s) v (2 * c) →
  0 <= off <= i_size ip → off + n <= MAXFILE * BSIZE → 0 < n →
  n + off mod BSIZE <= Z.of_nat c * BSIZE → Z.of_nat c <= n / BSIZE + 2 →
  wp (writei i (Kernel data) off n) (λ r s', r = n ∧ ∃ v' ip', frep s' v' ∧
    fs_icache s' = <[i := ip']> (fs_icache s) ∧
    i_size ip' = Z.max (i_size ip) (off + n) ∧
    (∀ o, 0 <= o < MAXFILE * BSIZE → file_byte v' (i_addrs ip') o =
       if decide (off <= o < off + n) then data !!! Z.to_nat (o - off) else file_byte v (i_addrs ip) o) ∧
    inode_at (fs_sb s) v' (i_inum ip) = Some (inode_disk ip') ∧
    (∀ k, 0 <= k < sb_ninodes (fs_sb s) → k ≠ i_inum ip → inode_at (fs_sb s) v' k = inode_at (fs_sb s) v k) ∧
    (∀ b, data_block (fs_sb s) b → in_use (fs_sb s) v b = true → ¬ in_file v (i_addrs ip) b →
       bv_now v' !! b = bv_now v !! b)) s.
Proof.
  intros n R Hf Hip Hdev Hw Hin Hok Hheld Ho Hroom Hav Hoff Hend Hn Hc Hc2.
  eapply wp_mono; [apply (writei_spec c s v i ip off data); done |].
  intros r s' [-> (v' & ip' & Hpost & _)]. split; [done |]. exists v', ip'.
  destruct Hpost. split_and!; try done.
  rewrite wr_ip. unfold written_inode. fold n. cbn [i_size with_addrs]. case_decide; simpl; lia.
Qed.

(** C15: A process reads its own writes: [writei] followed by [readi] of the
    same range, on a file without holes, returns exactly the bytes written. *)
Theorem writei_readi c (s : fst S U) v (i : nat) ip off data :
  let n := Z.of_nat (length data) in
  frep s v → fswf (fs_sb s) v → fs_icache s !! i = Some ip → i_dev ip = ROOTDEV →
  fwf (fs_sb s) v (i_addrs ip) → 0 <= i_inum ip < sb_ninodes (fs_sb s) → dinode_ok (inode_disk ip) →
  mapped v (i_addrs ip) (i_size ip) → 0 <= i_size ip <= MAXFILE * BSIZE →
  bv_held v = ∅ → 1 <= bv_open v → room (6 * c + 2) v → avail (fs_sb s) v (2 * c) →
  0 <= off <= i_size ip → off + n <= MAXFILE * BSIZE → 0 < n →
  n + off mod BSIZE <= Z.of_nat c * BSIZE → Z.of_nat c <= n / BSIZE + 2 →
  wp (writei i (Kernel data) off n;; readi i (Kernel []) off n) (λ r _, r = (n, data)) s.
Proof.
  intros n R Hf Hip Hdev Hw Hin Hok Hmap Hsz Hheld Ho Hroom Hav Hoff Hend Hn Hc Hc2. wp_step.
  eapply wp_mono; [apply (writei_spec c s v i ip off data); try done; by eapply room_le; [done | lia] |].
  intros r s1 [-> (v1 & ip1 & Hpost & Hrm)]. cbv beta. fold n in Hpost |- *.
  assert (HB : BSIZE = 1024) by done. assert (HM : MAXFILE = 268) by done.
  assert (Hsz1 : i_size ip1 = Z.max (i_size ip) (off + n)).
  { destruct Hpost. rewrite wr_ip. unfold written_inode. fold n. cbn [i_size with_addrs]. case_decide; simpl; lia. }
  assert (Hdev1 : i_dev ip1 = ROOTDEV).
  { destruct Hpost. rewrite wr_ip. unfold written_inode. by case_decide. }
  destruct Hpost. assert (Esb : fs_sb s1 = fs_sb s) by apply wr_env.
  assert (Hip1 : fs_icache s1 !! i = Some ip1).
  { rewrite wr_cache. apply list_lookup_insert_eq. by eapply lookup_lt_Some. }
  eapply wp_mono; [apply (readi_spec s1 v1 i ip1 off n); rewrite ?Esb; try done; try lia |].
  - apply Hrm. eapply room_le; [done | lia].
  - intros bn Hbn Hlt. rewrite Hsz1 in Hlt. apply wr_maps; [lia |].
    destruct (decide (bn * BSIZE < i_size ip)); [left; by apply Hmap |].
    right. fold n. lia.
  - intros r s2 (-> & _ & _).
    assert (readable (i_size ip1) off n = n) as Er by (unfold readable; rewrite decide_False by lia; lia).
    rewrite Er. f_equal. apply list_eq. intros k. unfold file_slice. rewrite list_lookup_fmap.
    destruct (decide (k < length data)%nat) as [Hk|Hk].
    + rewrite lookup_seq_lt by lia. simpl. rewrite wr_bytes by lia. rewrite decide_True by lia.
      replace (Z.to_nat (off + Z.of_nat k - off)) with k by lia. symmetry. by apply list_lookup_lookup_total_lt.
    + rewrite lookup_seq_ge by lia. by rewrite lookup_ge_None_2 by lia.
Qed.
End Theorems.

(** ** Witnesses *)

(** A closed numeric side condition. *)
Ltac small := vm_compute; repeat split; done.
Lemma dinode_roundtrip_witness :
  let d' := dinode_store (dinode_off 1) root_dinode zero_block in
  length d' = bsize ∧ dinode_load (dinode_off 1) d' = root_dinode ∧
  ∀ inum', dinode_off inum' ≠ dinode_off 1 → dinode_load (dinode_off inum') d' = dinode_load (dinode_off inum') zero_block.
Proof. apply (dinode_roundtrip 1 root_dinode zero_block zero_block_length root_dinode_ok). Defined.

Lemma iupdate_writes_through_witness :
  wp (iupdate 0) (λ _ s', ∃ v', frep s' v' ∧ sframe (fs64r 1) s' ∧
    inode_at sb64 v' 1 = Some (inode_disk root_inode) ∧
    (∀ k, 0 <= k < 32 → k ≠ 1 → inode_at sb64 v' k = inode_at sb64 (view64 1) k) ∧
    (∀ b, b ≠ IBLOCK 1 sb64 → bv_now v' !! b = bv_now (view64 1) !! b)) (fs64r 1).
Proof.
  apply (iupdate_writes_through (fs64r 1) (view64 1) 0 root_inode).
  - apply fs64r_rep.
  - apply fs64_fswf.
  - reflexivity.
  - reflexivity.
  - cbn. lia.
  - apply root_dinode_ok.
  - reflexivity.
  - apply view64_room. lia.
  - cbn. lia.
Defined.

(** The root inode referenced, not loaded. *)
Definition root_unloaded : inode := Inode 1 1 1 initsleeplock false 0 0 0 0 0 (replicate naddrs 0) 0 0.
Definition fs64u : fst memst (list Z) :=
  Fst (MemSt (view64 0) 7) sb64 (root_unloaded :: replicate (ninode - 1) inode0) 0 (replicate 4096 0).

Lemma root_inode_at o : inode_at sb64 (view64 o) 1 = Some root_dinode.
Proof.
  unfold inode_at. cbn [view64 image_view bv_now]. rewrite image_lookup.
  change (IBLOCK 1 sb64) with 32. rewrite decide_True by lia. vm_compute. reflexivity.
Qed.

Lemma ilock_loads_witness :
  wp (ilock 0) (λ _ s', frep s' (view64 0) ∧ ∃ ip', fs_icache s' = <[0%nat := ip']> (fs_icache fs64u) ∧
    inode_disk ip' = root_dinode ∧ i_valid ip' = true ∧ i_lock ip' = SleepLock true (pid_of fs64u) ∧
    i_ref ip' = i_ref root_unloaded ∧ i_inum ip' = i_inum root_unloaded ∧ i_dev ip' = i_dev root_unloaded) fs64u.
Proof.
  apply (ilock_loads fs64u (view64 0) 0 root_unloaded root_dinode).
  - apply image_rep, image64_lengths.
  - apply fs64_fswf.
  - reflexivity.
  - reflexivity.
  - cbn. lia.
  - cbn. lia.
  - reflexivity.
  - reflexivity.
  - apply root_inode_at.
  - done.
  - reflexivity.
  - apply view64_room. lia.
Defined.

Lemma fs64_icwf o : icwf (fs_icache (fs64 o)).
Proof.
  split.
  - reflexivity.
  - apply Forall_replicate. cbn. lia.
  - intros i j x y Hx Hy Hr. apply lookup_replicate in Hx as [-> _]. cbn in Hr. lia.
Qed.

Lemma ialloc_correct_witness :
  wp (ialloc ROOTDEV T_FILE) (λ i s', ∃ v' ip, frep s' v' ∧ icwf (fs_icache s') ∧
    fs_icache s' !! i = Some ip ∧ 0 < i_ref ip ∧ i_dev ip = ROOTDEV ∧
    1 <= i_inum ip < 32 ∧
    (∃ x, inode_at sb64 (view64 1) (i_inum ip) = Some x ∧ d_type x = 0) ∧
    (∀ j y, 1 <= j < i_inum ip → inode_at sb64 (view64 1) j = Some y → d_type y ≠ 0) ∧
    inode_at sb64 v' (i_inum ip) = Some (fresh_dinode T_FILE) ∧
    (∀ k, 0 <= k < 32 → k ≠ i_inum ip → inode_at sb64 v' k = inode_at sb64 (view64 1) k)) (fs64 1).
Proof.
  apply (ialloc_correct (fs64 1) (view64 1) T_FILE).
  - apply fs64_rep.
  - apply fs64_fswf.
  - apply fs64_icwf.
  - exists inode0. split; [| reflexivity]. apply list_elem_of_lookup. exists 0%nat. reflexivity.
  - unfold T_FILE. lia.
  - reflexivity.
  - apply view64_room. lia.
  - cbn. lia.
  - exists 2. eexists. split; [cbn; lia |]. unfold inode_at. cbn [view64 image_view bv_now].
    rewrite image_lookup. change (IBLOCK 2 (fs_sb (fs64 1))) with 32. rewrite decide_True by lia.
    vm_compute. split; reflexivity.
Defined.

Lemma iget_cache_witness :
  wp (iget ROOTDEV 5) (λ i s', ∃ x x', fs_icache (fs64 0) !! i = Some x ∧
    fs_icache s' = <[i := x']> (fs_icache (fs64 0)) ∧ icwf (fs_icache s') ∧
    i_dev x' = ROOTDEV ∧ i_inum x' = 5 ∧ i_ref x' = i_ref x + 1 ∧
    (i_ref x = 0 → i_valid x' = false) ∧ (0 < i_ref x → x' = set_ref (i_ref x + 1) x)) (fs64 0).
Proof.
  apply (iget_cache (fs64 0) ROOTDEV 5).
  - apply fs64_icwf.
  - exists inode0. split; [| by left]. apply list_elem_of_lookup. exists 0%nat. reflexivity.
Defined.

Lemma bmap_correct_witness :
  wp (bmap 0 20) (λ a s', ∃ v' ip', frep s' v' ∧ fs_icache s' = <[0%nat := ip']> (fs_icache (fs64r 1)) ∧
    ip' = with_addrs (i_addrs ip') root_inode ∧ fwf sb64 v' (i_addrs ip') ∧
    a = slot v' (i_addrs ip') (data_slot 20) ∧ a ≠ 0 ∧
    (slot (view64 1) (i_addrs root_inode) (data_slot 20) ≠ 0 → v' = view64 1 ∧ ip' = root_inode) ∧
    (slot (view64 1) (i_addrs root_inode) (data_slot 20) = 0 →
       in_use sb64 (view64 1) a = false ∧ bv_now v' !! a = Some zero_block) ∧
    (∀ x, 0 <= x < MAXFILE → file_block v' (i_addrs ip') x = file_block (view64 1) (i_addrs root_inode) x) ∧
    (∀ b, data_block sb64 b → in_use sb64 (view64 1) b = true → b ≠ i_addrs root_inode !!! IND →
       bv_now v' !! b = bv_now (view64 1) !! b)) (fs64r 1).
Proof.
  apply (bmap_correct (fs64r 1) (view64 1) 0 root_inode 20).
  - apply fs64r_rep.
  - apply fs64_fswf.
  - reflexivity.
  - reflexivity.
  - apply root_fwf.
  - reflexivity.
  - change MAXFILE with 268. lia.
  - apply view64_room. lia.
  - cbn. lia.
  - apply fs64_avail. lia.
Defined.

Lemma readi_correct_witness :
  wp (readi 0 (Kernel []) 16 100) (λ r s',
    r.1 = (if decide (16 > 32) then 0 else Z.min 100 (32 - 16)) ∧
    Z.of_nat (length r.2) = r.1 ∧
    (∀ k : nat, (k < length r.2)%nat →
       r.2 !! k = Some (file_byte (view64 0) (i_addrs root_inode) (16 + Z.of_nat k))) ∧
    frep s' (view64 0) ∧ sframe (fs64r 0) s') (fs64r 0).
Proof.
  apply (readi_correct (fs64r 0) (view64 0) 0 root_inode 16 100).
  - apply fs64r_rep.
  - apply fs64_fswf.
  - reflexivity.
  - reflexivity.
  - apply root_fwf.
  - reflexivity.
  - apply view64_room. lia.
  - apply root_mapped.
  - small.
  - lia.
  - lia.
  - lia.
Defined.

Lemma writei_correct_witness :
  wp (writei 0 (Kernel [104; 105]) 32 2) (λ r s', r = 2 ∧ ∃ v' ip', frep s' v' ∧
    fs_icache s' = <[0%nat := ip']> (fs_icache (fs64r 1)) ∧
    i_size ip' = Z.max 32 (32 + 2) ∧
    (∀ o, 0 <= o < MAXFILE * BSIZE → file_byte v' (i_addrs ip') o =
       if decide (32 <= o < 32 + 2) then [104; 105] !!! Z.to_nat (o - 32)
       else file_byte (view64 1) (i_addrs root_inode) o) ∧
    inode_at sb64 v' 1 = Some (inode_disk ip') ∧
    (∀ k, 0 <= k < 32 → k ≠ 1 → inode_at sb64 v' k = inode_at sb64 (view64 1) k) ∧
    (∀ b, data_block sb64 b → in_use sb64 (view64 1) b = true → ¬ in_file (view64 1) (i_addrs root_inode) b →
       bv_now v' !! b = bv_now (view64 1) !! b)) (fs64r 1).
Proof.
  apply (writei_correct 1 (fs64r 1) (view64 1) 0 root_inode 32 [104; 105]).
  - apply fs64r_rep.
  - apply fs64_fswf.
  - reflexivity.
  - reflexivity.
  - apply root_fwf.
  - small.
  - apply root_dinode_ok.
  - reflexivity.
  - small.
  - apply view64_room. lia.
  - apply fs64_avail. lia.
  - small.
  - small.
  - small.
  - small.
  - small.
Defined.

Lemma writei_readi_witness :
  wp (writei 0 (Kernel [104; 105]) 32 2;; readi 0 (Kernel []) 32 2) (λ r _, r = (2, [104; 105])) (fs64r 1).
Proof.
  apply (writei_readi 1 (fs64r 1) (view64 1) 0 root_inode 32 [104; 105]).
  - apply fs64r_rep.
  - apply fs64_fswf.
  - reflexivity.
  - reflexivity.
  - apply root_fwf.
  - small.
  - apply root_dinode_ok.
  - apply root_mapped.
  - small.
  - reflexivity.
  - small.
  - apply view64_room. lia.
  - apply fs64_avail. lia.
  - small.
  - small.
  - small.
  - small.
  - small.
Defined.
