(* ===== verification/DirProofs.v ===== *)
(** * Directories and paths: proofs ([dirlookup], [dirlink], [skipelem] of
      [kernel/fs.c]) *)
From S2P Require Import Prelude Params CString Locks BlockLayer Fs Dir FsBlocks Image BlockAlloc FsInode FsFile FileIO FileTheorems.
Import CString.

(** ** Path elements *)

(** Reference: cut at every slash, drop the empty pieces. *)
Fixpoint split_slash (p : list Z) : list (list Z) :=
  match p with
  | [] => [[]]
  | c :: p =>
      match split_slash p with
      | [] => [[c]]
      | e :: es => if decide (c = SLASH) then [] :: e :: es else (c :: e) :: es
      end
  end.
Definition elems (p : list Z) : list (list Z) := filter (λ e, e ≠ []) (split_slash p).

Lemma split_slash_nonempty p : split_slash p ≠ [].
Proof. destruct p as [|c p]; [done |]. simpl. destruct (split_slash p); [done |]. by case_decide. Qed.

Lemma elems_slash p : elems (SLASH :: p) = elems p.
Proof.
  unfold elems. simpl. pose proof (split_slash_nonempty p).
  destruct (split_slash p) as [|e es]; [done |]. rewrite filter_cons_False; [done |]. tauto.
Qed.

Lemma elems_skip p : elems (skip_slashes p) = elems p.
Proof.
  induction p as [|c p IH]; [done |]. simpl. case_decide as E; [| done].
  subst. by rewrite elems_slash.
Qed.

Lemma skip_slashes_head p c q : skip_slashes p = c :: q → c ≠ SLASH.
Proof. induction p as [|x p IH]; simpl; [done |]. case_decide; [done |]. by intros [= -> _]. Qed.

Lemma skip_slashes_length p : (length (skip_slashes p) ≤ length p)%nat.
Proof. induction p as [|c p IH]; simpl; [lia |]. case_decide; simpl; lia. Qed.

Lemma split_span p e r :
  span_elem p = (e, r) → p = e ++ r ∧ (r = [] ∨ ∃ r', r = SLASH :: r') ∧ Forall (λ c, c ≠ SLASH) e.
Proof.
  revert e r. induction p as [|c p IH]; simpl; intros e r Hs.
  { simplify_eq. split_and!; [done | by left | constructor]. }
  case_decide as E.
  { simplify_eq. split_and!; [done | right; by eexists | constructor]. }
  destruct (span_elem p) as [e' r'] eqn:E2. simplify_eq. destruct (IH _ _ eq_refl) as (-> & H2 & H3).
  split_and!; [done | done | by constructor].
Qed.

Lemma split_slash_app e r :
  Forall (λ c, c ≠ SLASH) e → (r = [] ∨ ∃ r', r = SLASH :: r') →
  elems (e ++ r) = (if decide (e = []) then [] else [e]) ++ elems r.
Proof.
  intros He Hr.
  assert (Hsp : ∃ x xs, split_slash r = x :: xs ∧ x = []).
  { destruct Hr as [-> | [r' ->]]; simpl; [eauto |]. pose proof (split_slash_nonempty r').
    destruct (split_slash r'); [done |]. eauto. }
  destruct Hsp as (x & xs & Ex & ->).
  assert (split_slash (e ++ r) = e :: xs) as E.
  { clear Hr. induction He as [|c e Hc _ IH]; simpl; [done |]. rewrite IH. by rewrite decide_False. }
  unfold elems. rewrite E, Ex. rewrite filter_cons. rewrite (filter_cons_False _ [] xs) by tauto.
  destruct (decide (e = [])); [rewrite decide_False by tauto; done |]. rewrite decide_True by done. done.
Qed.

(** What [skipelem] leaves in [name]. *)
Lemma skipelem_spec path name :
  length name = dirsiz → Forall (λ c, c ≠ 0) path →
  match skipelem path name with
  | None => elems path = []
  | Some (rest, name') =>
      ∃ e, elems path = e :: elems rest ∧ cstr name' = take dirsiz e ∧ length name' = dirsiz ∧
        Forall (λ c, c ≠ 0) e ∧ Forall (λ c, c ≠ 0) rest ∧ head rest ≠ Some SLASH ∧
        (length rest < length path)%nat
  end.
Proof.
  intros Hn Hp. unfold skipelem. pose proof (skip_slashes_head path) as Hh.
  pose proof (elems_skip path) as Ee. pose proof (skip_slashes_length path) as Hl.
  assert (Hp' : Forall (λ c, c ≠ 0) (skip_slashes path)).
  { clear -Hp. induction Hp as [|c p Hc Hp IH]; simpl; [constructor |]. case_decide; [done | by constructor]. }
  destruct (skip_slashes path) as [|c q] eqn:Es; [by rewrite <- Ee |].
  specialize (Hh c q eq_refl). destruct (span_elem (c :: q)) as [e r] eqn:Esp.
  destruct (split_span _ _ _ Esp) as (Eq & Hr & He).
  assert (e ≠ []) as Hene.
  { intros ->. simpl in Eq. destruct Hr as [-> | [r' ->]]; [done |]. injection Eq as -> _. done. }
  rewrite Eq in Hp'. apply Forall_app in Hp' as [Hpe Hpr]. exists e. rewrite <- Ee, Eq, split_slash_app by done.
  rewrite decide_False, elems_skip by done.
  split_and!.
  - done.
  - case_decide as Hlen.
    + assert (splice 0 (take dirsiz e) name = take dirsiz e) as ->.
      { apply splice_full. rewrite length_take, Hn. lia. }
      apply cstr_all. by apply Forall_take.
    + rewrite take_ge by lia. unfold splice. simpl.
      destruct (lookup_lt_is_Some_2 name (length e)) as [y Hy]; [lia |]. rewrite (drop_S _ _ _ Hy).
      rewrite insert_app_r_alt by lia. rewrite Nat.sub_diag. simpl. by apply cstr_app.
  - case_decide as Hlen.
    + rewrite splice_length; [done |]. rewrite length_take, Hn. lia.
    + rewrite length_insert, splice_length; [done |]. lia.
  - done.
  - clear -Hpr. induction Hpr as [|c p Hc Hp IH]; simpl; [constructor |]. case_decide; [done | by constructor].
  - destruct (skip_slashes r) as [|x z] eqn:E; [done |]. simpl. intros [= ->].
    by apply skip_slashes_head in E.
  - pose proof (skip_slashes_length r). rewrite Eq in Hl. rewrite length_app in Hl.
    destruct e; [done |]. simpl in Hl. lia.
Qed.

(** ** Directory entries *)
Lemma dirent_roundtrip inum nm :
  0 <= inum < 2 ^ 16 → length nm = dirsiz → dirent_load (dirent_bytes (Dirent inum nm)) = Dirent inum nm.
Proof.
  intros Hi Hn. unfold dirent_load, dirent_bytes. cbn [de_inum de_name].
  assert (Hl : length (le_enc 2 inum) = 2%nat) by apply le_enc_length. f_equal.
  - unfold ld16, ldn, slice. rewrite drop_0, take_app_le by lia. rewrite take_ge by lia.
    rewrite le_dec_enc. apply Z.mod_small. done.
  - unfold slice. rewrite drop_app_ge, Hl by lia. rewrite Nat.sub_diag, drop_0. apply take_ge. lia.
Qed.

Lemma dirent_bytes_length e : length (de_name e) = dirsiz → length (dirent_bytes e) = dirent_size.
Proof. intros Hn. unfold dirent_bytes. rewrite length_app, le_enc_length, Hn. done. Qed.

(** The entries of a directory of [n] slots. *)
Definition entry (v : bview) (addrs : list Z) (k : nat) : dirent :=
  dirent_load (file_slice v addrs (DIRENT_SIZE * Z.of_nat k) dirent_size).
Definition entries (v : bview) (addrs : list Z) (n : nat) : list dirent := entry v addrs <$> seq 0 n.

(** The name an entry stores and the name a search string denotes. *)
Definition entry_name (e : dirent) : list Z := cstr (de_name e).
Definition key (name : list Z) : list Z := take dirsiz (cstr name).
Definition matches (name : list Z) (e : dirent) : Prop := de_inum e ≠ 0 ∧ entry_name e = key name.
#[export] Instance matches_dec name e : Decision (matches name e).
Proof. unfold matches. apply _. Defined.

Lemma entry_name_length v addrs k : length (de_name (entry v addrs k)) = dirsiz.
Proof.
  unfold entry, dirent_load. cbn [de_name]. rewrite slice_length; [done |].
  rewrite file_slice_length. done.
Qed.

Lemma cstr_length l : (length (cstr l) ≤ length l)%nat.
Proof. induction l as [|x l IH]; simpl; [lia |]. case_decide; simpl; lia. Qed.

(** A C string that can be compared over [DIRSIZ] bytes. *)
Definition readable_name (name : list Z) : Prop := (dirsiz ≤ length name)%nat ∨ 0 ∈ name.

Lemma strncmp_some p q n :
  (n ≤ length p)%nat ∨ 0 ∈ p → (n ≤ length q)%nat → is_Some (strncmp p q n).
Proof.
  revert p q. induction n as [|n IH]; intros [|x p] [|y q] Hp Hq; simpl in *; try lia; try done.
  - destruct Hp as [|Hp]; [lia | by apply not_elem_of_nil in Hp].
  - case_decide as E; [| done]. apply IH; [| lia]. destruct Hp as [|Hp]; [left; lia | right].
    apply elem_of_cons in Hp as [<-|]; [by destruct E | done].
Qed.

Lemma strncpy_some t n : (n ≤ length t)%nat ∨ 0 ∈ t → is_Some (strncpy t n).
Proof.
  revert t. induction n as [|n IH]; intros [|x t] Ht; simpl in *; try done.
  - destruct Ht as [|Ht]; [lia | by apply not_elem_of_nil in Ht].
  - case_decide as E; [done |]. destruct (IH t) as [l ->]; [| done].
    destruct Ht as [|Ht]; [left; lia | right]. apply elem_of_cons in Ht as [<-|]; done.
Qed.

(** [namecmp] against an entry decides [matches]. *)
Lemma namecmp_entry name nm :
  readable_name name → length nm = dirsiz →
  ∃ c, strncmp name nm dirsiz = Some c ∧ (c = 0 ↔ cstr nm = key name).
Proof.
  intros Hn Hl. destruct (strncmp_some name nm dirsiz Hn ltac:(lia)) as [c Hc]. exists c. split; [done |].
  rewrite (strncmp_eq _ _ _ _ Hc). unfold key. rewrite (take_ge (cstr nm)); [done |].
  pose proof (cstr_length nm). lia.
Qed.

(** ** Reading a directory *)

(** A file of the view, loaded in cache entry [i]. *)
Record open_file {S U : Type} `{BlockLayerOk S} `{UserMem U} (s : fst S U) (v : bview) (i : nat) (ip : inode) : Prop := {
  of_rep : frep s v;
  of_fs : fswf (fs_sb s) v;
  of_ip : fs_icache s !! i = Some ip;
  of_dev : i_dev ip = ROOTDEV;
  of_fwf : fwf (fs_sb s) v (i_addrs ip);
  of_held : bv_held v = ∅;
  of_map : mapped v (i_addrs ip) (i_size ip);
  of_size : 0 <= i_size ip <= MAXFILE * BSIZE;
}.

(** The number of entries of a directory. *)
Definition nent (dp : inode) : nat := Z.to_nat (i_size dp / DIRENT_SIZE).

(** What [iget] does to the cache. *)
Definition iget_post (ic : list inode) (dev inum : Z) (i : nat) (ic' : list inode) : Prop :=
  ∃ x x', ic !! i = Some x ∧ ic' = <[i := x']> ic ∧ icwf ic' ∧ i_dev x' = dev ∧ i_inum x' = inum ∧
    i_ref x' = i_ref x + 1 ∧ (i_ref x = 0 → i_valid x' = false) ∧
    (0 < i_ref x → x' = set_ref (i_ref x + 1) x) ∧ i_lock x' = i_lock x.

Section DirOps.
Context {S U : Type} `{BlockLayerOk S} `{UserMem U}.
Implicit Types (s : fst S U) (v : bview).

Lemma open_file_frame s s' v i ip : open_file s v i ip → frep s' v → sframe s s' → open_file s' v i ip.
Proof.
  intros [] R (E1 & E2 & _). split; try done; by rewrite ?E1, ?E2.
Qed.

Lemma iget_spec' dev inum s :
  icwf (fs_icache s) → (∃ x, x ∈ fs_icache s ∧ i_ref x = 0) →
  wp (iget dev inum) (λ i s', ∃ ic', s' = cache_to ic' s ∧ iget_post (fs_icache s) dev inum i ic') s.
Proof.
  intros Hic (y & Hy & Hy0). eapply wp_mono; [apply iget_spec; [done | by exists y; auto] |].
  intros i s' (x & ic' & Hx & -> & Hic' & Hcase). exists ic'. split; [done |]. exists x.
  destruct Hcase as [(P1 & P2 & P3 & ->) | (P1 & P2 & ->)]; eexists; (split_and!; [done | reflexivity | done | ..]);
    simpl; try done; try lia.
Qed.

Lemma read_dirent_spec s v (i : nat) dp (k : nat) :
  open_file s v i dp → room 1 v → (k < nent dp)%nat →
  wp (read_dirent i (DIRENT_SIZE * Z.of_nat k)) (λ r s', r = Some (entry v (i_addrs dp) k) ∧
    frep s' v ∧ sframe s s') s.
Proof.
  intros Hof Hroom Hk. unfold nent in Hk. pose proof (of_size _ _ _ _ Hof) as Hsz.
  assert (HD : DIRENT_SIZE = 16) by done. assert (HB : MAXFILE * BSIZE = 274432) by done.
  pose proof (Z.mul_div_le (i_size dp) DIRENT_SIZE ltac:(lia)) as Hle.
  assert (Hend : DIRENT_SIZE * Z.of_nat k + 16 <= i_size dp) by lia.
  unfold read_dirent. wp_step.
  eapply wp_mono; [apply (readi_spec s v i dp (DIRENT_SIZE * Z.of_nat k) DIRENT_SIZE); try apply Hof; try done; lia |].
  intros r s' (-> & R & F). cbv beta. wp_step.
  assert (readable (i_size dp) (DIRENT_SIZE * Z.of_nat k) DIRENT_SIZE = DIRENT_SIZE) as ->.
  { unfold readable. rewrite decide_False by lia. lia. }
  rewrite decide_True by done. done.
Qed.

Section Lookup.
Context (v : bview) (i : nat) (dp : inode) (name : list Z).
Context (Hname : readable_name name) (Hroom : room 1 v) (Hmult : i_size dp mod DIRENT_SIZE = 0).
Let es := entries v (i_addrs dp) (nent dp).

Lemma entries_lookup (k : nat) : (k < nent dp)%nat → es !! k = Some (entry v (i_addrs dp) k).
Proof. intros Hk. unfold es, entries. by rewrite list_lookup_fmap, lookup_seq_lt. Qed.

Lemma nent_size : i_size dp = DIRENT_SIZE * (i_size dp / DIRENT_SIZE).
Proof. apply Z.div_exact; done. Qed.

Lemma dirlookup_loop_spec fuel k s :
  open_file s v i dp → icwf (fs_icache s) → (∃ x, x ∈ fs_icache s ∧ i_ref x = 0) →
  (k ≤ nent dp)%nat → (nent dp - k < fuel)%nat → 0 <= i_size dp →
  wp (dirlookup_loop fuel i name (DIRENT_SIZE * Z.of_nat k)) (λ r s',
    match list_find (matches name) (drop k es) with
    | None => r = None ∧ frep s' v ∧ sframe s s'
    | Some (j, e) => ∃ ip ic', r = Some (ip, DIRENT_SIZE * Z.of_nat (k + j)) ∧ frep s' v ∧
        sframe (cache_to ic' s) s' ∧ iget_post (fs_icache s) ROOTDEV (de_inum e) ip ic'
    end) s.
Proof.
  revert k s. induction fuel as [|fuel IH]; intros k s Hof Hic Hfree Hk Hfuel Hs0; [lia |].
  assert (HD : DIRENT_SIZE = 16) by done. cbn [dirlookup_loop]. wp_step. wp_step.
  rewrite (ino_lookup _ _ _ (of_ip _ _ _ _ Hof)). pose proof nent_size as Hns.
  pose proof (Z.div_pos (i_size dp) DIRENT_SIZE ltac:(lia) ltac:(lia)) as Hdp. unfold nent in *.
  destruct (decide (DIRENT_SIZE * Z.of_nat k < i_size dp)) as [Hlt|Hge].
  2:{ wp_step. rewrite drop_ge; [simpl | unfold es, entries; rewrite length_fmap, length_seq; unfold nent; lia].
      split_and!; [done | apply Hof | done]. }
  assert (Hkn : (k < Z.to_nat (i_size dp / DIRENT_SIZE))%nat) by lia.
  wp_step. eapply wp_mono; [apply (read_dirent_spec s v i dp k Hof Hroom Hkn) |].
  intros r s1 (-> & R1 & F1). cbv beta iota.
  pose proof (entries_lookup k Hkn) as Hek. rewrite (drop_S _ _ _ Hek). set (e := entry v (i_addrs dp) k) in *.
  pose proof (open_file_frame _ _ _ _ _ Hof R1 F1) as Hof1.
  assert (Eic : fs_icache s1 = fs_icache s) by apply F1.
  assert (Hrec : ¬ matches name e →
    wp (dirlookup_loop fuel i name (DIRENT_SIZE * Z.of_nat k + DIRENT_SIZE)) (λ r s',
      match list_find (matches name) (e :: drop (Datatypes.S k) es) with
      | None => r = None ∧ frep s' v ∧ sframe s s'
      | Some (j, e) => ∃ ip ic', r = Some (ip, DIRENT_SIZE * Z.of_nat (k + j)) ∧ frep s' v ∧
          sframe (cache_to ic' s) s' ∧ iget_post (fs_icache s) ROOTDEV (de_inum e) ip ic'
      end) s1).
  { intros Hno. replace (DIRENT_SIZE * Z.of_nat k + DIRENT_SIZE) with (DIRENT_SIZE * Z.of_nat (Datatypes.S k)) by lia.
    eapply wp_mono; [apply (IH (Datatypes.S k) s1 Hof1); rewrite ?Eic; try done; lia |].
    intros r s2 Hr. cbn [list_find]. rewrite decide_False by done.
    destruct (list_find (matches name) (drop (Datatypes.S k) es)) as [[j e']|]; simpl.
    - destruct Hr as (ip & ic' & -> & R2 & F2 & P). exists ip, ic'. rewrite Eic in P. split_and!; try done.
      + f_equal. f_equal. lia.
      + destruct F1 as (A1 & A2 & A3 & A4 & A5), F2 as (B1 & B2 & B3 & B4 & B5). split_and!; simpl in *;
          unfold pid_of in *; simpl in *; congruence.
    - destruct Hr as (-> & R2 & F2). split_and!; [done | done | by etrans]. }
  destruct (decide (de_inum e = 0)) as [E0|E0].
  { apply Hrec. intros [? _]. done. }
  destruct (namecmp_entry name (de_name e) Hname (entry_name_length _ _ _)) as (c & Hc & Hc0).
  wp_step. unfold namecmp. rewrite Hc. cbn [some_or_oob]. wp_step.
  destruct (decide (c = 0)) as [Ec|Ec].
  - assert (Hm : matches name e) by (split; [done | by apply Hc0]).
    cbn [list_find]. rewrite decide_True by done. wp_step. rewrite (of_dev _ _ _ _ Hof).
    eapply wp_mono; [apply (iget_spec' ROOTDEV (de_inum e) s1); by rewrite Eic |].
    rewrite Eic. intros ip s2 (ic' & -> & P). cbv beta. wp_step. exists ip, ic'. rewrite Nat.add_0_r.
    split_and!; try done. destruct F1 as (A1 & A2 & A3 & A4 & A5). split_and!; done.
  - apply Hrec. intros [_ Hm]. by apply Ec, Hc0.
Qed.

Lemma dirlookup_spec s :
  open_file s v i dp → i_type dp = T_DIR → icwf (fs_icache s) → (∃ x, x ∈ fs_icache s ∧ i_ref x = 0) →
  wp (dirlookup i name) (λ r s',
    match list_find (matches name) es with
    | None => r = None ∧ frep s' v ∧ sframe s s'
    | Some (j, e) => ∃ ip ic', r = Some (ip, DIRENT_SIZE * Z.of_nat j) ∧ frep s' v ∧
        sframe (cache_to ic' s) s' ∧ iget_post (fs_icache s) ROOTDEV (de_inum e) ip ic'
    end) s.
Proof.
  intros Hof Ht Hic Hfree. unfold dirlookup. wp_step. wp_step. rewrite (ino_lookup _ _ _ (of_ip _ _ _ _ Hof)).
  rewrite decide_False by (rewrite Ht; tauto).
  pose proof (of_size _ _ _ _ Hof).
  eapply wp_mono; [apply (dirlookup_loop_spec _ 0 s Hof Hic Hfree); [lia | unfold nent; lia | lia] |].
  intros r s'. by rewrite drop_0.
Qed.

Lemma dirlink_slot_spec fuel k s :
  open_file s v i dp → (k ≤ nent dp)%nat → (nent dp - k < fuel)%nat → 0 <= i_size dp →
  wp (dirlink_slot fuel i (DIRENT_SIZE * Z.of_nat k)) (λ r s', ∃ j : nat, (k ≤ j ≤ nent dp)%nat ∧
    r = DIRENT_SIZE * Z.of_nat j ∧ (∀ e, es !! j = Some e → de_inum e = 0) ∧ frep s' v ∧ sframe s s') s.
Proof.
  revert k s. induction fuel as [|fuel IH]; intros k s Hof Hk Hfuel Hs0; [lia |].
  assert (HD : DIRENT_SIZE = 16) by done. cbn [dirlink_slot]. wp_step. wp_step.
  rewrite (ino_lookup _ _ _ (of_ip _ _ _ _ Hof)). pose proof nent_size as Hns.
  pose proof (Z.div_pos (i_size dp) DIRENT_SIZE ltac:(lia) ltac:(lia)) as Hdp.
  destruct (decide (DIRENT_SIZE * Z.of_nat k < i_size dp)) as [Hlt|Hge].
  2:{ wp_step. exists k. split_and!; try done; try apply Hof. intros e He. apply lookup_lt_Some in He.
      unfold es, entries in He. rewrite length_fmap, length_seq in He. unfold nent in *. lia. }
  assert (Hkn : (k < nent dp)%nat) by (unfold nent; lia).
  wp_step. eapply wp_mono; [apply (read_dirent_spec s v i dp k Hof Hroom Hkn) |].
  intros r s1 (-> & R1 & F1). cbv beta iota.
  pose proof (entries_lookup k Hkn) as Hek. set (e := entry v (i_addrs dp) k) in *.
  case_decide as E0.
  - wp_step. exists k. split_and!; try done. intros e' He'. congruence.
  - replace (DIRENT_SIZE * Z.of_nat k + DIRENT_SIZE) with (DIRENT_SIZE * Z.of_nat (Datatypes.S k)) by lia.
    eapply wp_mono; [apply (IH (Datatypes.S k) s1); [by eapply open_file_frame | lia | lia | lia] |].
    intros r s2 (j & Hj & -> & He & R2 & F2). exists j. split_and!; try done; try lia. by etrans.
Qed.
End Lookup.

(** Dropping a reference that is not the last one to an unlinked file. *)
Lemma iput_keep s (i : nat) ip :
  fs_icache s !! i = Some ip → ¬ (i_ref ip = 1 ∧ i_valid ip = true ∧ i_nlink ip = 0) →
  iput i s = Ret tt (cache_to (alter (λ x, set_ref (i_ref x - 1) x) i (fs_icache s)) s).
Proof.
  intros Hip Hno. unfold iput, bind, gets. rewrite (ino_lookup _ _ _ Hip). by rewrite decide_False.
Qed.

(** The entries after [e] was written into slot [k] of a directory. *)
Lemma entries_written v addrs v' addrs' (k : nat) e j :
  length (de_name e) = dirsiz → 0 <= de_inum e < 2 ^ 16 →
  written v addrs (DIRENT_SIZE * Z.of_nat k) (dirent_bytes e) v' addrs' →
  DIRENT_SIZE * Z.of_nat j + DIRENT_SIZE <= MAXFILE * BSIZE →
  entry v' addrs' j = if decide (j = k) then e else entry v addrs j.
Proof.
  intros Hn Hi Hw Hj. assert (HD : DIRENT_SIZE = 16) by done. assert (Hds : dirent_size = 16%nat) by done.
  pose proof (dirent_bytes_length e Hn) as Hl. unfold written in Hw. rewrite Hl, Hds in Hw. unfold entry.
  destruct (decide (j = k)) as [->|Hne].
  - destruct e as [inum nm]. cbn [de_name de_inum] in *.
    transitivity (dirent_load (dirent_bytes (Dirent inum nm))); [f_equal | by apply dirent_roundtrip].
    apply list_eq. intros m. unfold file_slice. rewrite list_lookup_fmap.
    destruct (decide (m < dirent_size)%nat) as [Hm|Hm].
    + rewrite lookup_seq_lt by done. simpl. rewrite Hw by lia. rewrite decide_True by lia.
      replace (Z.to_nat (DIRENT_SIZE * Z.of_nat k + Z.of_nat m - DIRENT_SIZE * Z.of_nat k)) with m by lia.
      symmetry. apply list_lookup_lookup_total_lt. lia.
    + rewrite lookup_seq_ge by lia. rewrite lookup_ge_None_2 by lia. done.
  - f_equal. unfold file_slice. apply list_fmap_ext. intros x m Hm. apply lookup_seq in Hm as [-> Hm].
    rewrite Hw by lia. rewrite decide_False by lia. done.
Qed.

(** The directory after [dirlink] stored [e] in slot [k]: [k] is either a
    free entry or the end. *)
Definition link_entry (k : nat) (e : dirent) (es : list dirent) : list dirent :=
  if decide (k < length es)%nat then <[k := e]> es else es ++ [e].

Record dirlink_post (s : fst S U) (v : bview) (i : nat) (dp : inode) (name : list Z) (inum : Z)
    (s' : fst S U) (v' : bview) (dp' : inode) (k : nat) (nm : list Z) : Prop := {
  dl_file : open_file s' v' i dp';
  dl_type : i_type dp' = i_type dp ∧ i_dev dp' = i_dev dp ∧ i_inum dp' = i_inum dp ∧ i_ref dp' = i_ref dp;
  dl_mult : i_size dp' mod DIRENT_SIZE = 0;
  dl_cache : fs_icache s' = <[i := dp']> (fs_icache s);
  dl_name : length nm = dirsiz ∧ cstr nm = key name;
  dl_slot : (k ≤ nent dp)%nat ∧ ∀ e, entries v (i_addrs dp) (nent dp) !! k = Some e → de_inum e = 0;
  dl_entries : entries v' (i_addrs dp') (nent dp') =
    link_entry k (Dirent (u16 inum) nm) (entries v (i_addrs dp) (nent dp));
  dl_disk : inode_at (fs_sb s) v' (i_inum dp) = Some (inode_disk dp');
}.

Lemma dirlink_absent s v (i : nat) dp name inum :
  open_file s v i dp → readable_name name → i_type dp = T_DIR → icwf (fs_icache s) →
  (∃ x, x ∈ fs_icache s ∧ i_ref x = 0) → i_size dp mod DIRENT_SIZE = 0 →
  i_size dp + DIRENT_SIZE <= MAXFILE * BSIZE →
  0 <= i_inum dp < sb_ninodes (fs_sb s) → dinode_ok (inode_disk dp) → 1 <= bv_open v →
  room 7 v → avail (fs_sb s) v 2 →
  list_find (matches name) (entries v (i_addrs dp) (nent dp)) = None →
  wp (dirlink i name inum) (λ r s', r = 0 ∧ ∃ v' dp' k nm,
    dirlink_post s v i dp name inum s' v' dp' k nm ∧ (∀ j, room (7 + j) v → room j v')) s.
Proof.
  intros Hof Hname Ht Hic Hfree Hmult Hsz Hinum Hok Ho Hroom Hav Hnone.
  assert (HD : DIRENT_SIZE = 16) by done. assert (HB : BSIZE = 1024) by done.
  assert (HM : MAXFILE * BSIZE = 274432) by done.
  pose proof (of_size _ _ _ _ Hof) as Hs0. pose proof (nent_size dp Hmult) as Hns.
  assert (Hr1 : room 1 v) by (eapply room_le; [done | lia]).
  unfold dirlink. wp_step. eapply wp_mono; [apply (dirlookup_spec v i dp name Hname Hr1 Hmult s Hof Ht Hic Hfree) |].
  intros r s1. rewrite Hnone. intros (-> & R1 & F1). cbv beta iota.
  pose proof (open_file_frame _ _ _ _ _ Hof R1 F1) as Hof1.
  wp_step. wp_step. rewrite (ino_lookup _ _ _ (of_ip _ _ _ _ Hof1)).
  wp_step. eapply wp_mono; [apply (dirlink_slot_spec v i dp Hr1 Hmult _ 0 s1 Hof1); unfold nent; lia |].
  intros off s2 (k & Hk & -> & Hslot & R2 & F2). cbv beta.
  destruct (strncpy_some name dirsiz Hname) as [nm Hnm]. rewrite Hnm. cbn [some_or_oob].
  pose proof (strncpy_length _ _ _ Hnm) as Hnl. pose proof (strncpy_cstr _ _ _ Hnm) as Hnc.
  assert (F12 : sframe s s2) by by etrans. assert (Esb : fs_sb s2 = fs_sb s) by apply F12.
  assert (Eic : fs_icache s2 = fs_icache s) by apply F12.
  set (e := Dirent (u16 inum) nm). assert (Hel : length (dirent_bytes e) = 16%nat) by (by apply dirent_bytes_length).
  assert (Hei : 0 <= de_inum e < 2 ^ 16) by (apply Z.mod_pos_bound; lia).
  pose proof (Z.div_pos (i_size dp) DIRENT_SIZE ltac:(lia) ltac:(lia)) as Hdp.
  assert (Hkz : DIRENT_SIZE * Z.of_nat k <= i_size dp) by (unfold nent in Hk; lia).
  wp_step. wp_step. wp_step. change DIRENT_SIZE with (Z.of_nat 16) at 2. rewrite <- Hel.
  eapply wp_mono; [apply (writei_spec 1 s2 v i dp (DIRENT_SIZE * Z.of_nat k) (dirent_bytes e)); rewrite ?Esb, ?Eic, ?Hel;
    try exact Hav; try lia; try done; try apply Hof |].
  { rewrite HD, HB. replace (16 * Z.of_nat k) with (Z.of_nat k * 16) by lia.
    change 1024 with (64 * 16). rewrite Z.mul_mod_distr_r by lia.
    pose proof (Z.mod_pos_bound (Z.of_nat k) 64 ltac:(lia)). lia. }
  intros r s3 [-> (v3 & dp3 & Hpost & Hrm)]. cbv beta. rewrite Hel. rewrite decide_False by lia. wp_step.
  split; [done |]. exists v3, dp3, k, nm.
  assert (Ef : i_type dp3 = i_type dp ∧ i_dev dp3 = i_dev dp ∧ i_inum dp3 = i_inum dp ∧ i_ref dp3 = i_ref dp ∧
    i_size dp3 = Z.max (i_size dp) (DIRENT_SIZE * Z.of_nat k + 16)).
  { destruct Hpost. rewrite wr_ip. unfold written_inode. rewrite Hel. cbn [i_size with_addrs].
    case_decide; simpl in *; split_and!; try done; lia. }
  destruct Ef as (Et & Ed & Ei & Er & Esz). destruct Hpost. rewrite Esb, Eic in *.
  assert (Hmult3 : i_size dp3 mod DIRENT_SIZE = 0 ∧ nent dp3 = Nat.max (nent dp) (k + 1)).
  { rewrite Esz. unfold nent in *. rewrite Esz. set (q := i_size dp / DIRENT_SIZE) in *. rewrite Hns, HD in *.
    destruct (decide (q < Z.of_nat k + 1)).
    - rewrite Z.max_r by lia. replace (16 * Z.of_nat k + 16) with ((Z.of_nat k + 1) * 16) by lia.
      rewrite Z_mod_mult, Z_div_mult by lia. split; [done | lia].
    - rewrite Z.max_l by lia. rewrite (Z.mul_comm 16 q), Z_mod_mult, Z_div_mult by lia. split; [done | lia]. }
  destruct Hmult3 as [Hmult3 Hn3]. split.
  - split; try done.
    + split; try done.
      * by rewrite (proj1 wr_env).
      * rewrite wr_cache. apply list_lookup_insert_eq. eapply lookup_lt_Some, Hof.
      * rewrite Ed. apply Hof.
      * by rewrite (proj1 wr_env).
      * intros bn Hbn Hlt. rewrite Esz in Hlt. apply wr_maps; [lia |].
        destruct (decide (bn * BSIZE < i_size dp)); [left; by apply (of_map _ _ _ _ Hof) |].
        right. rewrite Hel. lia.
      * rewrite Esz. lia.
    + split; [lia | done].
    + unfold link_entry, entries. rewrite length_fmap, length_seq, Hn3.
      assert (Hent : ∀ j : nat, (j < Nat.max (nent dp) (k + 1))%nat →
        entry v3 (i_addrs dp3) j = if decide (j = k) then e else entry v (i_addrs dp) j).
      { intros j Hj. apply entries_written; try done. unfold nent in *. lia. }
      case_decide as Hkn.
      * rewrite Nat.max_l by lia. apply list_eq. intros j. rewrite list_lookup_insert, !list_lookup_fmap.
        destruct (decide (j < nent dp)%nat) as [Hj|Hj].
        -- rewrite !lookup_seq_lt by done. simpl. rewrite Hent by lia. rewrite length_fmap, length_seq.
           destruct (decide (j = k)) as [->|]; [by rewrite decide_True |]. by rewrite decide_False by lia.
        -- rewrite !lookup_seq_ge by lia. rewrite decide_False by lia. done.
      * assert (k = nent dp) as -> by lia. rewrite Nat.max_r by lia. rewrite seq_app, fmap_app.
        f_equal.
        -- apply list_fmap_ext. intros x j Hj. apply lookup_seq in Hj as [-> Hj]. rewrite Hent by lia.
           by rewrite decide_False by lia.
        -- simpl. rewrite Hent by lia. by rewrite decide_True.
  - intros j Hj. apply Hrm. done.
Qed.
End DirOps.
