(* ===== verification/UserMem.v ===== *)
(** * User memory as bytes

    The contract of [copyin], [copyout] and [copyinstr] towards the rest of
    the kernel: a process's memory is a partial map from addresses to bytes;
    a copy of mapped bytes succeeds and moves exactly those bytes, a copy
    that meets an unmapped byte fails. *)
From S2P Require Import Prelude Params CString Fs Image.

Class UserMemOk (U : Type) `{UserMem U} := {
  um_wf : U → Prop;
  um_byte : U → Z → option Z;
  um_byte_range : ∀ u a x, um_wf u → um_byte u a = Some x → 0 <= a < 2 ^ 63;
  um_copyin_ok : ∀ u va l, um_wf u → 0 <= va →
    (∀ (k : nat) x, l !! k = Some x → um_byte u (va + Z.of_nat k) = Some x) →
    um_copyin va (length l) u = (0, l);
  um_copyin_fault : ∀ u va n, um_wf u → 0 <= va < 2 ^ 64 →
    (∃ k : nat, (k < n)%nat ∧ um_byte u (va + Z.of_nat k) = None) → (um_copyin va n u).1 = -1;
  um_copyout_ok : ∀ u va data, um_wf u → 0 <= va →
    (∀ k : nat, (k < length data)%nat → is_Some (um_byte u (va + Z.of_nat k))) →
    ∃ u', um_copyout va data u = (0, u') ∧ um_wf u' ∧
      ∀ a, um_byte u' a = (if decide (va <= a < va + Z.of_nat (length data)) then data !! Z.to_nat (a - va)
                           else um_byte u a);
  um_copyout_fault : ∀ u va data, um_wf u → 0 <= va < 2 ^ 64 →
    (∃ k : nat, (k < length data)%nat ∧ um_byte u (va + Z.of_nat k) = None) →
    (um_copyout va data u).1 = -1;
}.

(** [bytes] lie at [va]. *)
Definition holds {U} `{UserMemOk U} (u : U) (va : Z) (bytes : list Z) : Prop :=
  ∀ (k : nat) x, bytes !! k = Some x → um_byte u (va + Z.of_nat k) = Some x.
(** [n] bytes at [va] are mapped. *)
Definition accessible {U} `{UserMemOk U} (u : U) (va n : Z) : Prop :=
  ∀ k, 0 <= k < n → is_Some (um_byte u (va + k)).

(** ** The flat memory meets the contract *)
#[export] Instance flat_mem_ok : UserMemOk (list Z).
Proof.
  refine {| um_wf := λ u : list Z, Z.of_nat (length u) < 2 ^ 63;
            um_byte := λ u a, if decide (0 <= a) then u !! Z.to_nat a else None |}.
  - intros u a x Hw. case_decide; [| done]. intros Ha%lookup_lt_Some. lia.
  - intros u va l Hw Hva Hl. simpl. destruct (decide (l = [])) as [->|Hne]; [by rewrite decide_True by auto |].
    assert (Hlen : (Z.to_nat va + length l ≤ length u)%nat).
    { destruct l as [|y l _] using rev_ind; [done |]. specialize (Hl (length l) y).
      rewrite lookup_app_r, Nat.sub_diag, decide_True in Hl by lia. specialize (Hl eq_refl).
      apply lookup_lt_Some in Hl. rewrite length_app. simpl. lia. }
    rewrite decide_True by auto. f_equal. apply list_eq. intros k. unfold slice.
    destruct (decide (k < length l)%nat) as [Hk|Hk].
    + rewrite lookup_take_lt, lookup_drop by done. destruct (lookup_lt_is_Some_2 l k Hk) as [x Hx].
      specialize (Hl k x Hx). rewrite decide_True in Hl by lia. rewrite Hx, <- Hl. f_equal. lia.
    + rewrite !lookup_ge_None_2; [done | lia | rewrite length_take; lia].
  - intros u va n Hw Hva (k & Hk & Hb). simpl. rewrite decide_False; [done |]. intros [-> | [_ Hle]]; [lia |].
    rewrite decide_True in Hb by lia. apply lookup_ge_None_1 in Hb. lia.
  - intros u va data Hw Hva Hd. simpl. destruct (decide (data = [])) as [->|Hne].
    { rewrite decide_True by auto. exists (splice (Z.to_nat va) [] u). unfold splice. simpl. rewrite Nat.add_0_r, take_drop.
      split_and!; [done | done |]. intros a. by rewrite (decide_False (P := va <= a < _)) by lia. }
    assert (Hlen : (Z.to_nat va + length data ≤ length u)%nat).
    { destruct data as [|y l _] using rev_ind; [done |]. specialize (Hd (length l)).
      rewrite length_app in *. simpl in *. rewrite decide_True in Hd by lia.
      destruct (Hd ltac:(lia)) as [x Hx]. apply lookup_lt_Some in Hx. lia. }
    rewrite decide_True by auto. eexists. split_and!; [done | by rewrite splice_length |]. intros a.
    destruct (decide (va <= a < va + Z.of_nat (length data))) as [Ha|Ha].
    + rewrite decide_True, lookup_splice_in by lia. f_equal. lia.
    + case_decide; [| done]. by rewrite lookup_splice_out by lia.
  - intros u va data Hw Hva (k & Hk & Hb). simpl. rewrite decide_False; [done |]. intros [-> | [_ Hle]]; [simpl in Hk; lia |].
    rewrite decide_True in Hb by lia. apply lookup_ge_None_1 in Hb. lia.
Defined.
