(* ===== verification/DirTheorems.v ===== *)
(** * Directories and paths: the theorems

    Path parsing against a reference splitter, [dirlookup] as a search for
    the first matching entry, and [dirlink] followed by [dirlookup] as a
    round trip. *)
From S2P Require Import Prelude Params CString Locks BlockLayer Fs Dir FsBlocks Image BlockAlloc FsInode FsFile FileIO FileTheorems DirProofs.
Import CString.

Lemma list_find_link name (k : nat) e es :
  list_find (matches name) es = None → matches name e → (k ≤ length es)%nat →
  list_find (matches name) (link_entry k e es) = Some (k, e).
Proof.
  intros Hn Hm Hk. apply list_find_None in Hn. rewrite Forall_lookup in Hn.
  apply list_find_Some. unfold link_entry. case_decide as Hlt.
  - split_and!; [by apply list_lookup_insert_eq | done |]. intros j y Hy Hj.
    rewrite list_lookup_insert_ne in Hy by lia. by eapply Hn.
  - assert (k = length es) as -> by lia. split_and!; [| done |].
    + by rewrite lookup_app_r, Nat.sub_diag by lia.
    + intros j y Hy Hj. rewrite lookup_app_l in Hy by done. by eapply Hn.
Qed.

Section Theorems.
Context {S U : Type} `{BlockLayerOk S} `{UserMem U}.
Implicit Types (s : fst S U) (v : bview).

(** A reference that [iget] just took is never the last one of an unlinked
    inode, so [iput] only gives it back. *)
Lemma iget_iput s dev inum (ip : nat) ic' :
  icwf (fs_icache s) → iget_post (fs_icache s) dev inum ip ic' →
  ∀ s', sframe (cache_to ic' s) s' →
  ∃ x x', iput ip s' = Ret tt (cache_to (<[ip := x']> (fs_icache s)) s') ∧
    fs_icache s !! ip = Some x ∧ i_ref x' = i_ref x ∧ (0 < i_ref x → x' = x).
Proof.
  intros Hic (x & x' & Hx & -> & Hic' & Hd & Hi & Hr & Hr0 & Hr1 & _) s' F.
  assert (Ec : fs_icache s' = <[ip := x']> (fs_icache s)) by apply F.
  assert (Hl : (ip < length (fs_icache s))%nat) by by eapply lookup_lt_Some.
  pose proof (Forall_lookup_1 _ _ _ _ (ic_ref _ Hic) Hx) as Hge. cbv beta in Hge.
  assert (Hx' : fs_icache s' !! ip = Some x') by (rewrite Ec; by apply list_lookup_insert_eq).
  exists x, (set_ref (i_ref x) x'). rewrite (iput_keep s' ip x' Hx').
  2:{ intros (A & B & C). assert (i_ref x = 0) as E by lia. rewrite (Hr0 E) in B. done. }
  split_and!; try done.
  - do 2 f_equal. rewrite (alter_to_insert _ _ _ x' Hx'), Ec, list_insert_insert_eq, Hr. do 2 f_equal. lia.
  - intros Hp. rewrite (Hr1 Hp). by destruct x.
Qed.

(** [dirlookup] returns the first entry of the directory whose inode
    number is non-zero and whose name equals the searched one on its first
    [DIRSIZ] bytes: a referenced cache entry for its inode, and its offset.
    When no entry matches it returns 0; neither changes the disk. *)
Theorem dirlookup_first_match s v (i : nat) dp name :
  open_file s v i dp → i_type dp = T_DIR → i_size dp mod DIRENT_SIZE = 0 → readable_name name →
  room 1 v → icwf (fs_icache s) → (∃ x, x ∈ fs_icache s ∧ i_ref x = 0) →
  wp (dirlookup i name) (λ r s', frep s' v ∧
    match list_find (matches name) (entries v (i_addrs dp) (nent dp)) with
    | None => r = None ∧ sframe s s'
    | Some (j, e) => ∃ ip ic', r = Some (ip, DIRENT_SIZE * Z.of_nat j) ∧
        sframe (cache_to ic' s) s' ∧ iget_post (fs_icache s) ROOTDEV (de_inum e) ip ic'
    end) s.
Proof.
  intros Hof Ht Hm Hname Hr Hic Hfree.
  eapply wp_mono; [apply (dirlookup_spec v i dp name Hname Hr Hm s Hof Ht Hic Hfree) |].
  intros r s'. destruct (list_find _ _) as [[j e]|]; naive_solver.
Qed.

(** linking a name that the directory already has fails with -1, and
    neither the disk nor any referenced cache entry changes. *)
Theorem dirlink_duplicate s v (i : nat) dp name inum :
  open_file s v i dp → i_type dp = T_DIR → i_size dp mod DIRENT_SIZE = 0 → readable_name name →
  room 1 v → icwf (fs_icache s) → (∃ x, x ∈ fs_icache s ∧ i_ref x = 0) →
  list_find (matches name) (entries v (i_addrs dp) (nent dp)) ≠ None →
  wp (dirlink i name inum) (λ r s', r = -1 ∧ frep s' v ∧
    ∀ (k : nat) x, fs_icache s !! k = Some x → 0 < i_ref x → fs_icache s' !! k = Some x) s.
Proof.
  intros Hof Ht Hm Hname Hr Hic Hfree Hfound. unfold dirlink. wp_step.
  eapply wp_mono; [apply (dirlookup_spec v i dp name Hname Hr Hm s Hof Ht Hic Hfree) |].
  intros r s1. destruct (list_find _ _) as [[j e]|]; [| done].
  intros (ip & ic' & -> & R & F & P). cbv beta iota.
  destruct (iget_iput s _ _ ip ic' Hic P s1 F) as (x & x' & Hput & Hx & Href & Hsame).
  wp_step. unfold wp. rewrite Hput. simpl. split_and!; [done | exact R |]. intros k y Hy Hpos.
  destruct (decide (k = ip)) as [->|]; [| by rewrite list_lookup_insert_ne].
  rewrite Hx in Hy. simplify_eq. rewrite (Hsame Hpos). apply list_lookup_insert_eq. by eapply lookup_lt_Some.
Qed.

(** C23: linking a new name succeeds, and looking the name up afterwards
    finds the linked inode, at the slot the entry was stored in. *)
Theorem dirlink_dirlookup s v (i : nat) dp name inum :
  open_file s v i dp → i_type dp = T_DIR → i_size dp mod DIRENT_SIZE = 0 → readable_name name →
  icwf (fs_icache s) → (∃ x, x ∈ fs_icache s ∧ i_ref x = 0) → i_ref dp ≠ 0 →
  i_size dp + DIRENT_SIZE <= MAXFILE * BSIZE →
  0 <= i_inum dp < sb_ninodes (fs_sb s) → dinode_ok (inode_disk dp) → 1 <= bv_open v →
  room 8 v → avail (fs_sb s) v 2 → 0 < inum < 2 ^ 16 →
  list_find (matches name) (entries v (i_addrs dp) (nent dp)) = None →
  wp (let! r := dirlink i name inum in let! f := dirlookup i name in ret (r, f)) (λ rf s',
    rf.1 = 0 ∧ ∃ (ip k : nat) x, rf.2 = Some (ip, DIRENT_SIZE * Z.of_nat k) ∧ (k ≤ nent dp)%nat ∧
      fs_icache s' !! ip = Some x ∧ i_dev x = ROOTDEV ∧ i_inum x = inum ∧ 0 < i_ref x) s.
Proof.
  intros Hof Ht Hm Hname Hic Hfree Href Hsz Hin Hok Ho Hr Hav Hinum Hnone.
  wp_step. eapply wp_mono; [apply (dirlink_absent s v i dp name inum); try done; eapply room_le; [done | lia] |].
  intros r s1 (-> & v1 & dp1 & k & nm & P & Hrm). destruct P.
  destruct dl_type as (Et & Ed & Ei & Er), dl_slot as [Hk Hslot], dl_name as [Hl Hnm].
  pose proof (of_ip _ _ _ _ Hof) as Hip.
  assert (Hic1 : icwf (fs_icache s1)) by (rewrite dl_cache; by eapply icwf_insert).
  assert (Hfree1 : ∃ x, x ∈ fs_icache s1 ∧ i_ref x = 0).
  { destruct Hfree as (x & Hx & H0x). apply list_elem_of_lookup in Hx as [j Hj]. exists x. split; [| done].
    apply list_elem_of_lookup. exists j. rewrite dl_cache, list_lookup_insert_ne; [done | congruence]. }
  assert (Hr1 : room 1 v1) by (apply Hrm; eapply room_le; [done | lia]).
  wp_step. eapply wp_mono; [apply (dirlookup_spec v1 i dp1 name Hname Hr1 dl_mult s1 dl_file); try done; congruence |].
  intros f s2. rewrite dl_entries. assert (u16 inum = inum) as Eu by (unfold u16; apply Z.mod_small; lia).
  rewrite list_find_link; [| done | split; [cbn [de_inum]; lia | exact Hnm] |
    unfold entries; by rewrite length_fmap, length_seq].
  intros (ip & ic' & -> & R2 & F2 & (x & x' & Hx & -> & _ & Dx & Ix & Rx & _)). cbv beta. wp_step. split; [done |].
  exists ip, k, x'. pose proof (Forall_lookup_1 _ _ _ _ (ic_ref _ Hic1) Hx) as Hge. cbv beta in Hge.
  split_and!; try done; [| rewrite Ix; exact Eu | lia].
  assert (fs_icache s2 = <[ip := x']> (fs_icache s1)) as -> by apply F2.
  apply list_lookup_insert_eq. by eapply lookup_lt_Some.
Qed.
End Theorems.

(** [skipelem] cuts the first element off a path as the reference
    splitter does: it fails exactly when no element is left, otherwise it
    leaves the first element, cut to [DIRSIZ] bytes, in [name] and a
    shorter rest that starts with no slash and has the other elements. *)
Theorem skipelem_elems path name :
  length name = dirsiz → Forall (λ c, c ≠ 0) path →
  match skipelem path name with
  | None => elems path = []
  | Some (rest, name') => ∃ e, elems path = e :: elems rest ∧ cstr name' = take dirsiz e ∧
      length name' = dirsiz ∧ head rest ≠ Some SLASH ∧ (length rest < length path)%nat
  end.
Proof.
  intros Hl Hp. pose proof (skipelem_spec path name Hl Hp) as Hs.
  destruct (skipelem path name) as [[rest name']|]; [| done].
  destruct Hs as (e & E1 & E2 & E3 & _ & _ & E4 & E5). by exists e.
Qed.

(** ["//a/bb"] *)
Definition path_ab : list Z := [47; 47; 97; 47; 98; 98].

Lemma skipelem_elems_witness :
  (length name0 = dirsiz ∧ elems path_ab = [[97]; [98; 98]]) ∧
  match skipelem path_ab name0 with
  | None => elems path_ab = []
  | Some (rest, name') => ∃ e, elems path_ab = e :: elems rest ∧ cstr name' = take dirsiz e ∧
      length name' = dirsiz ∧ head rest ≠ Some SLASH ∧ (length rest < length path_ab)%nat
  end.
Proof.
  split; [split; vm_compute; reflexivity |].
  apply (skipelem_elems path_ab name0); [reflexivity | repeat constructor; discriminate].
Defined.

(** ** On the example file system, whose root directory is loaded *)
Lemma fs64r_root o : open_file (fs64r o) (view64 o) 0 root_inode.
Proof.
  split; [apply fs64r_rep | apply fs64_fswf | reflexivity | reflexivity | apply root_fwf | reflexivity |
    apply root_mapped | small].
Qed.

Lemma fs64r_icwf o : icwf (fs_icache (fs64r o)).
Proof.
  split.
  - reflexivity.
  - constructor; [cbn; lia |]. apply Forall_replicate. cbn. lia.
  - intros [|i] [|j] x y Hx Hy Hr Hr2 _ _; [done | ..]; cbn in Hx, Hy.
    + apply lookup_replicate in Hy as [-> _]. cbn in Hr2. lia.
    + apply lookup_replicate in Hx as [-> _]. cbn in Hr. lia.
    + apply lookup_replicate in Hx as [-> _]. cbn in Hr. lia.
Qed.

Lemma fs64r_free o : ∃ x, x ∈ fs_icache (fs64r o) ∧ i_ref x = 0.
Proof. exists inode0. split; [| reflexivity]. apply list_elem_of_lookup. exists 1%nat. reflexivity. Qed.

Lemma fs64r_entries : list_find (matches [97; 0]) (entries (view64 1) (i_addrs root_inode) (nent root_inode)) = None ∧
  list_find (matches DOTDOT) (entries (view64 1) (i_addrs root_inode) (nent root_inode)) ≠ None.
Proof. split; vm_compute; [reflexivity | discriminate]. Qed.

Lemma dirlookup_first_match_witness :
  wp (dirlookup 0 DOTDOT) (λ r s', frep s' (view64 1) ∧
    match list_find (matches DOTDOT) (entries (view64 1) (i_addrs root_inode) (nent root_inode)) with
    | None => r = None ∧ sframe (fs64r 1) s'
    | Some (j, e) => ∃ ip ic', r = Some (ip, DIRENT_SIZE * Z.of_nat j) ∧
        sframe (cache_to ic' (fs64r 1)) s' ∧ iget_post (fs_icache (fs64r 1)) ROOTDEV (de_inum e) ip ic'
    end) (fs64r 1).
Proof.
  apply (dirlookup_first_match (fs64r 1) (view64 1) 0 root_inode DOTDOT).
  - apply fs64r_root.
  - reflexivity.
  - reflexivity.
  - right. apply list_elem_of_lookup. exists 2%nat. reflexivity.
  - apply view64_room. lia.
  - apply fs64r_icwf.
  - apply fs64r_free.
Defined.

Lemma dirlink_duplicate_witness :
  wp (dirlink 0 DOTDOT 5) (λ r s', r = -1 ∧ frep s' (view64 1) ∧
    ∀ (k : nat) x, fs_icache (fs64r 1) !! k = Some x → 0 < i_ref x → fs_icache s' !! k = Some x) (fs64r 1).
Proof.
  apply (dirlink_duplicate (fs64r 1) (view64 1) 0 root_inode DOTDOT 5).
  - apply fs64r_root.
  - reflexivity.
  - reflexivity.
  - right. apply list_elem_of_lookup. exists 2%nat. reflexivity.
  - apply view64_room. lia.
  - apply fs64r_icwf.
  - apply fs64r_free.
  - apply fs64r_entries.
Defined.

Lemma dirlink_dirlookup_witness :
  wp (let! r := dirlink 0 [97; 0] 5 in let! f := dirlookup 0 [97; 0] in ret (r, f)) (λ rf s',
    rf.1 = 0 ∧ ∃ (ip k : nat) x, rf.2 = Some (ip, DIRENT_SIZE * Z.of_nat k) ∧ (k ≤ nent root_inode)%nat ∧
      fs_icache s' !! ip = Some x ∧ i_dev x = ROOTDEV ∧ i_inum x = 5 ∧ 0 < i_ref x) (fs64r 1).
Proof.
  apply (dirlink_dirlookup (fs64r 1) (view64 1) 0 root_inode [97; 0] 5).
  - apply fs64r_root.
  - reflexivity.
  - reflexivity.
  - right. apply list_elem_of_lookup. exists 1%nat. reflexivity.
  - apply fs64r_icwf.
  - apply fs64r_free.
  - discriminate.
  - small.
  - small.
  - apply root_dinode_ok.
  - small.
  - apply view64_room. lia.
  - apply fs64_avail. lia.
  - lia.
  - apply fs64r_entries.
Defined.
