(* ===== verification/Path.v ===== *)
(** * Path lookup ([namex], [namei], [nameiparent] of [kernel/fs.c])

    The reference [walk] follows the elements of a path through the
    directory tree stored on the disk; the theorems show that [namei] and
    [nameiparent] return the inode that it reaches, and that they hold
    exactly one reference more than before, or none on failure. *)
From S2P Require Import Prelude Params CString Locks BlockLayer Fs Dir FsBlocks Image BlockAlloc FsInode FsFile FileIO FileTheorems DirProofs.
Import CString.

(** ** The reference *)
Definition dir_entries (v : bview) (d : dinode) : list dirent :=
  entries v (d_addrs d) (Z.to_nat (d_size d / DIRENT_SIZE)).

Fixpoint walk (sb : superblock) (v : bview) (parent : bool) (inum : Z) (es : list (list Z)) : option Z :=
  match es with
  | [] => if parent then None else Some inum
  | e :: es =>
      d ← inode_at sb v inum;
      if decide (d_type d ≠ T_DIR) then None
      else if parent && bool_decide (es = []) then Some inum
      else match list_find (matches e) (dir_entries v d) with
           | Some (_, de) => walk sb v parent (de_inum de) es
           | None => None
           end
  end.

(** ** The invariants *)

(** A disk inode that is in use. *)
Definition live (sb : superblock) (v : bview) (inum : Z) (d : dinode) : Prop :=
  0 <= inum < sb_ninodes sb ∧ inode_at sb v inum = Some d ∧ d_type d ≠ 0.

(** Every file in use has a link; directories are whole numbers of entries,
    without holes, and their entries name files in use. *)
Record tree_wf (sb : superblock) (v : bview) : Prop := {
  tw_nlink : ∀ inum d, live sb v inum d → d_nlink d ≠ 0;
  tw_dir : ∀ inum d, live sb v inum d → d_type d = T_DIR →
    fwf sb v (d_addrs d) ∧ mapped v (d_addrs d) (d_size d) ∧ 0 <= d_size d <= MAXFILE * BSIZE ∧
    d_size d mod DIRENT_SIZE = 0;
  tw_entry : ∀ inum d e, live sb v inum d → d_type d = T_DIR → e ∈ dir_entries v d → de_inum e ≠ 0 →
    ∃ d', live sb v (de_inum e) d';
  tw_root : ∃ d, live sb v ROOTINO d;
}.

(** A referenced cache entry agrees with the disk. *)
Record cached (sb : superblock) (v : bview) (x : inode) : Prop := {
  cx_dev : i_dev x = ROOTDEV;
  cx_live : ∃ d, live sb v (i_inum x) d;
  cx_valid : i_valid x = true → inode_at sb v (i_inum x) = Some (inode_disk x);
}.

(** The inode cache when the only inode lock held, if any, is [h]'s. *)
Record quiet (sb : superblock) (v : bview) (h : option nat) (ic : list inode) : Prop := {
  q_wf : icwf ic;
  q_lock : ∀ (j : nat) x, ic !! j = Some x → Some j ≠ h → sl_locked (i_lock x) = false;
  q_cached : ∀ (j : nat) x, ic !! j = Some x → 0 < i_ref x → cached sb v x;
}.

(** The reference counts, and two unused entries: a path lookup holds at
    most two references at a time. *)
Definition refs (ic : list inode) : list Z := i_ref <$> ic.
Definition two_free (rs : list Z) : Prop :=
  ∃ a b : nat, a ≠ b ∧ rs !! a = Some 0 ∧ rs !! b = Some 0.
Definition take_ref (i : nat) (rs : list Z) : list Z := alter (λ r, r + 1) i rs.

Lemma refs_insert ic (i : nat) y : refs (<[i := y]> ic) = <[i := i_ref y]> (refs ic).
Proof. apply list_fmap_insert. Qed.

Lemma refs_lookup ic (i : nat) x : ic !! i = Some x → refs ic !! i = Some (i_ref x).
Proof. intros Hx. unfold refs. by rewrite list_lookup_fmap, Hx. Qed.

Lemma two_free_other ic (i : nat) rs :
  refs ic = take_ref i rs → two_free rs → ∃ x, x ∈ ic ∧ i_ref x = 0.
Proof.
  intros Hr (a & b & Hab & Ha & Hb).
  assert (∃ c, c ≠ i ∧ rs !! c = Some 0) as (c & Hc & Hz).
  { destruct (decide (a = i)) as [->|]; [by exists b | by exists a]. }
  assert (refs ic !! c = Some 0) as Hx by (rewrite Hr; unfold take_ref; by rewrite list_lookup_alter_ne).
  unfold refs in Hx. rewrite list_lookup_fmap in Hx. destruct (ic !! c) as [x|] eqn:E; [| done].
  simplify_eq/=. exists x. split; [| done]. apply list_elem_of_lookup. eauto.
Qed.

(** Taking a reference to [k] and giving back the one to [i]. *)
Lemma refs_move (i k : nat) rs y :
  take_ref k (take_ref i rs) !! i = Some y → <[i := y - 1]> (take_ref k (take_ref i rs)) = take_ref k rs.
Proof.
  intros Hy. apply list_eq. intros j. destruct (decide (i = j)) as [<-|Hj].
  - rewrite list_lookup_insert_eq by by eapply lookup_lt_Some. revert Hy. unfold take_ref.
    rewrite !list_lookup_alter, (decide_True (P := i = i)) by done.
    destruct (decide (k = i)) as [->|]; rewrite ?decide_True by done;
      destruct (rs !! i); simpl; intros; simplify_eq; f_equal; lia.
  - rewrite list_lookup_insert_ne by done. unfold take_ref. rewrite !list_lookup_alter.
    rewrite (decide_False (P := i = j)) by done.
    destruct (decide (k = j)) as [->|]; [| done]. by rewrite decide_False.
Qed.

Lemma refs_drop (i : nat) rs y :
  take_ref i rs !! i = Some y → <[i := y - 1]> (take_ref i rs) = rs.
Proof.
  intros Hy. apply list_eq. intros j. destruct (decide (i = j)) as [<-|Hj].
  - rewrite list_lookup_insert_eq by by eapply lookup_lt_Some. revert Hy. unfold take_ref.
    rewrite list_lookup_alter, decide_True by done. destruct (rs !! i); simpl; intros; simplify_eq; f_equal; lia.
  - rewrite list_lookup_insert_ne by done. unfold take_ref. by rewrite list_lookup_alter, decide_False.
Qed.

Lemma take_ref_insert (i : nat) rs r : rs !! i = Some r → <[i := r + 1]> rs = take_ref i rs.
Proof. intros Hr. unfold take_ref. symmetry. by apply (alter_to_insert (λ r, r + 1)). Qed.

Lemma quiet_insert sb v h h' ic (i : nat) y :
  quiet sb v h ic → icwf (<[i := y]> ic) → (Some i ≠ h' → sl_locked (i_lock y) = false) →
  (0 < i_ref y → cached sb v y) → (∀ j, j ≠ i → Some j ≠ h' → Some j ≠ h) →
  quiet sb v h' (<[i := y]> ic).
Proof.
  intros [Hwf Hl Hc] Hwf' Hy Hcy Hh. split; [done | |]; intros j x Hj; apply list_lookup_insert_Some in Hj;
    destruct Hj as [(-> & -> & _) | [Hne Hj]]; eauto.
Qed.

Section Namex.
Context {S U : Type} `{BlockLayerOk S} `{UserMem U}.
Implicit Types (s : fst S U) (v : bview).

(** The environment of a path lookup. *)
Record lookup_env (s : fst S U) (v : bview) : Prop := {
  le_rep : frep s v;
  le_fs : fswf (fs_sb s) v;
  le_tree : tree_wf (fs_sb s) v;
  le_held : bv_held v = ∅;
  le_room : room 1 v;
}.
(** What a path lookup leaves alone. *)
Definition env_kept (s s' : fst S U) : Prop :=
  fs_sb s' = fs_sb s ∧ fs_cwd s' = fs_cwd s ∧ fs_mem s' = fs_mem s ∧ pid_of s' = pid_of s.

#[export] Instance env_kept_trans : PreOrder env_kept.
Proof.
  split; [done |]. intros s1 s2 s3 (A1 & A2 & A3 & A4) (B1 & B2 & B3 & B4).
  split_and!; congruence.
Qed.

Lemma lookup_env_kept s s' v : lookup_env s v → frep s' v → env_kept s s' → lookup_env s' v.
Proof. intros [] R (E & _). split; try done; by rewrite E. Qed.

Lemma sframe_env s s' : sframe s s' → env_kept s s'.
Proof. intros (A & _ & B & C & D). done. Qed.

(** Lock a referenced inode: the entry then holds the disk inode. *)
Lemma ilock_quiet s v (i : nat) x :
  lookup_env s v → quiet (fs_sb s) v None (fs_icache s) → fs_icache s !! i = Some x → 0 < i_ref x →
  wp (ilock i) (λ _ s', frep s' v ∧ env_kept s s' ∧ ∃ y, fs_icache s' = <[i := y]> (fs_icache s) ∧
    locked s' y ∧ i_valid y = true ∧ i_ref y = i_ref x ∧ i_inum y = i_inum x ∧ i_dev y = i_dev x ∧
    live (fs_sb s) v (i_inum x) (inode_disk y) ∧ quiet (fs_sb s) v (Some i) (fs_icache s')) s.
Proof.
  intros Henv Hq Hx Hp. pose proof (q_lock _ _ _ _ Hq _ _ Hx ltac:(done)) as Hl.
  destruct (q_cached _ _ _ _ Hq _ _ Hx Hp) as [Hdev (d & Hlive) Hval].
  assert (Hfin : ∀ y, i_ref y = i_ref x → i_inum y = i_inum x → i_dev y = i_dev x →
    inode_at (fs_sb s) v (i_inum x) = Some (inode_disk y) → i_valid y = true →
    quiet (fs_sb s) v (Some i) (<[i := y]> (fs_icache s)) ∧ live (fs_sb s) v (i_inum x) (inode_disk y)).
  { intros y Er En Ed Hy Hv. destruct Hlive as (Hin & Hd & Ht). rewrite Hy in Hd. simplify_eq. split; [| done].
    apply (quiet_insert _ _ None); try done; try congruence.
    - eapply icwf_insert; [apply Hq | done..].
    - intros _. split; rewrite ?En; [congruence | by exists (inode_disk y) | done]. }
  destruct (i_valid x) eqn:Ev.
  - unfold wp. rewrite (ilock_valid s i x Hx ltac:(lia) Hl Ev). split_and!; [apply Henv | done |].
    eexists. split; [by apply alter_to_insert |]. simpl. rewrite (alter_to_insert _ _ _ x Hx).
    edestruct Hfin as [Q L]; [.. | split_and!; try done; exact Q]; try done. by apply Hval.
  - destruct Hlive as (Hin & Hd & Ht). unfold inode_at in Hd.
    destruct (bv_now v !! IBLOCK (i_inum x) (fs_sb s)) as [b|] eqn:Eb; simplify_eq/=.
    eapply wp_mono; [apply (ilock_load s v i x b); try done; try apply Henv; try lia |].
    { rewrite (le_held _ _ Henv). set_solver. }
    intros _ s' (R & E1 & E2 & E3 & E4 & Ec & _). split_and!; try done.
    eexists. split; [exact Ec |]. rewrite Ec.
    edestruct Hfin as [Q L]; [.. | split_and!; try done; try exact Q].
    all: try done.
    + unfold inode_at. rewrite Eb. simpl. by destruct (dinode_load _ _).
    + unfold locked. by rewrite E4.
Qed.

Lemma iunlock_quiet s v (i : nat) y :
  quiet (fs_sb s) v (Some i) (fs_icache s) → fs_icache s !! i = Some y → 0 < i_ref y → locked s y →
  ∃ z, iunlock i s = Ret tt (cache_to (<[i := z]> (fs_icache s)) s) ∧ i_ref z = i_ref y ∧ i_inum z = i_inum y ∧
    i_valid z = i_valid y ∧ inode_disk z = inode_disk y ∧ quiet (fs_sb s) v None (<[i := z]> (fs_icache s)).
Proof.
  intros Hq Hy Hp Hl. rewrite (iunlock_spec s i y Hy ltac:(lia) Hl), (alter_to_insert _ _ _ y Hy).
  eexists. split_and!; [done.. |]. destruct (q_cached _ _ _ _ Hq _ _ Hy Hp) as [C1 C2 C3].
  apply (quiet_insert _ _ (Some i)); try done; [| congruence].
  eapply icwf_insert; [apply Hq | done..].
Qed.

(** Give back a reference to a file that has links. *)
Lemma iput_quiet s v (i : nat) y :
  quiet (fs_sb s) v None (fs_icache s) → fs_icache s !! i = Some y → 0 < i_ref y →
  (i_valid y = true → i_nlink y ≠ 0) →
  ∃ z, iput i s = Ret tt (cache_to (<[i := z]> (fs_icache s)) s) ∧ i_ref z = i_ref y - 1 ∧
    i_inum z = i_inum y ∧ quiet (fs_sb s) v None (<[i := z]> (fs_icache s)).
Proof.
  intros Hq Hy Hp Hn. rewrite (iput_keep s i y Hy) by naive_solver. rewrite (alter_to_insert _ _ _ y Hy).
  eexists. split_and!; [done.. |]. destruct (q_cached _ _ _ _ Hq _ _ Hy Hp) as [C1 C2 C3].
  apply (quiet_insert _ _ None); try done; [| intros _; exact (q_lock _ _ _ _ Hq _ _ Hy ltac:(done))].
  rewrite <- (alter_to_insert (λ x, set_ref (i_ref x - 1) x) _ _ y Hy).
  eapply icwf_alter; [apply Hq | done | simpl; lia |]. simpl. intros _ j z Hne Hz Hpz [E1 E2].
  apply Hne. eapply (ic_uniq _ (q_wf _ _ _ _ Hq)); eauto.
Qed.

Lemma iunlockput_quiet s v (i : nat) y :
  quiet (fs_sb s) v (Some i) (fs_icache s) → fs_icache s !! i = Some y → 0 < i_ref y → locked s y →
  i_nlink y ≠ 0 →
  ∃ z, iunlockput i s = Ret tt (cache_to (<[i := z]> (fs_icache s)) s) ∧ i_ref z = i_ref y - 1 ∧
    i_inum z = i_inum y ∧ quiet (fs_sb s) v None (<[i := z]> (fs_icache s)).
Proof.
  intros Hq Hy Hp Hl Hn. destruct (iunlock_quiet s v i y Hq Hy Hp Hl) as (z & E & Er & En & Ev & Ed & Q).
  unfold iunlockput, bind. rewrite E. set (s1 := cache_to _ s).
  assert (Hz : fs_icache s1 !! i = Some z) by (apply list_lookup_insert_eq; by eapply lookup_lt_Some).
  destruct (iput_quiet s1 v i z Q Hz) as (w & E2 & Er2 & En2 & Q2); [lia | intros _; injection Ed; intros; congruence |].
  exists w. rewrite E2. simpl in *. rewrite list_insert_insert_eq in *. split_and!; [done | lia | congruence | done].
Qed.

Lemma iunlockput_drop s v (i : nat) y :
  lookup_env s v → quiet (fs_sb s) v (Some i) (fs_icache s) → fs_icache s !! i = Some y → 0 < i_ref y →
  locked s y → i_nlink y ≠ 0 →
  wp (iunlockput i) (λ _ s', frep s' v ∧ env_kept s s' ∧ quiet (fs_sb s) v None (fs_icache s') ∧
    refs (fs_icache s') = <[i := i_ref y - 1]> (refs (fs_icache s)) ∧
    ∀ j : nat, i_inum <$> fs_icache s' !! j = i_inum <$> fs_icache s !! j) s.
Proof.
  intros Henv Hq Hy Hp Hl Hn. destruct (iunlockput_quiet s v i y Hq Hy Hp Hl Hn) as (z & E & Er & En & Q).
  unfold wp. rewrite E. simpl. rewrite refs_insert, Er. split_and!; try done; [apply Henv |].
  intros j. rewrite list_lookup_insert. case_decide as Ej; [| done]. destruct Ej as [-> _]. rewrite Hy. simpl.
  by rewrite En.
Qed.

Lemma elems_head p : head p ≠ Some SLASH → elems p = [] → p = [].
Proof.
  intros Hh He. destruct p as [|c p]; [done |]. exfalso. simpl in Hh.
  destruct (span_elem (c :: p)) as [e r] eqn:E. destruct (split_span _ _ _ E) as (Eq & Hr & Hs).
  rewrite Eq, split_slash_app in He by done. case_decide as Ee; [| done]. subst e. simpl in Eq.
  destruct Hr as [-> | [r' ->]]; [done |]. simplify_eq.
Qed.

Lemma matches_key a b l : key a = key b → list_find (matches a) l = list_find (matches b) l.
Proof. intros E. apply list_find_ext. intros x. unfold matches. by rewrite E. Qed.

Lemma key_elem name e : cstr name = take dirsiz e → Forall (λ c, c ≠ 0) e → key name = key e.
Proof.
  intros Hn He. unfold key. rewrite Hn, take_take, Nat.min_id. by rewrite cstr_all.
Qed.

(** One element: look [e] up in the locked directory [i]. *)
Lemma dir_step s v (i : nat) y name e :
  lookup_env s v → quiet (fs_sb s) v (Some i) (fs_icache s) → fs_icache s !! i = Some y → 0 < i_ref y →
  live (fs_sb s) v (i_inum y) (inode_disk y) → i_type y = T_DIR →
  length name = dirsiz → cstr name = take dirsiz e → Forall (λ c, c ≠ 0) e →
  (∃ x, x ∈ fs_icache s ∧ i_ref x = 0) →
  wp (dirlookup i name) (λ r s', frep s' v ∧ env_kept s s' ∧
    match list_find (matches e) (dir_entries v (inode_disk y)) with
    | None => r = None ∧ fs_icache s' = fs_icache s
    | Some (_, de) => ∃ (nx : nat) off x x', r = Some (nx, off) ∧ fs_icache s !! nx = Some x ∧
        fs_icache s' = <[nx := x']> (fs_icache s) ∧ i_ref x' = i_ref x + 1 ∧ i_inum x' = de_inum de ∧
        0 < i_ref x' ∧ quiet (fs_sb s) v (Some i) (fs_icache s') ∧ (nx = i → x' = set_ref (i_ref y + 1) y)
    end) s.
Proof.
  intros Henv Hq Hy Hp Hlive Ht Hl Hn He Hfree. destruct Henv as [R Hfs Htree Hheld Hroom].
  destruct (tw_dir _ _ Htree _ _ Hlive Ht) as (Hw & Hmap & Hsz & Hm).
  destruct (q_cached _ _ _ _ Hq _ _ Hy Hp) as [C1 C2 C3].
  assert (Hof : open_file s v i y) by (split; done).
  assert (Hrn : readable_name name) by (left; lia).
  eapply wp_mono; [apply (dirlookup_spec v i y name Hrn Hroom Hm s Hof Ht (q_wf _ _ _ _ Hq) Hfree) |].
  intros r s'. rewrite (matches_key name e) by by apply key_elem.
  change (entries v (i_addrs y) (nent y)) with (dir_entries v (inode_disk y)).
  destruct (list_find _ _) as [[j de]|] eqn:Ef.
  - intros (nx & ic' & -> & R' & F & (x & x' & Hx & -> & Hwf & Dx & Ix & Rx & R0 & R1 & Lx)).
    apply list_find_Some in Ef as (Hde & (Hnz & _) & _).
    pose proof (Forall_lookup_1 _ _ _ _ (ic_ref _ (q_wf _ _ _ _ Hq)) Hx) as Hge. cbv beta in Hge.
    assert (Ec : fs_icache s' = <[nx := x']> (fs_icache s)) by apply F.
    split_and!; [done | by apply sframe_env in F |]. exists nx, (DIRENT_SIZE * Z.of_nat j), x, x'.
    split_and!; try done; [lia | |].
    + rewrite Ec. apply (quiet_insert _ _ (Some i)); try done.
      * intros Hni. rewrite Lx. by eapply (q_lock _ _ _ _ Hq).
      * intros _. split; [done | |].
        -- rewrite Ix. eapply (tw_entry _ _ Htree _ _ de Hlive Ht); [| done]. by eapply list_elem_of_lookup_2.
        -- intros Hv. destruct (decide (i_ref x = 0)) as [E|E]; [rewrite R0 in Hv by done; done |].
           assert (0 < i_ref x) as Hpx by lia. rewrite (R1 Hpx) in *. apply (q_cached _ _ _ _ Hq _ _ Hx Hpx). done.
    + intros ->. rewrite Hy in Hx. simplify_eq. auto.
  - intros (-> & R' & F). split_and!; [done | by apply sframe_env | done | apply F].
Qed.

Lemma cached_linked sb v x : tree_wf sb v → cached sb v x → i_valid x = true → i_nlink x ≠ 0.
Proof.
  intros Ht [_ (d & L1 & L2 & L3) Hc] Hv. specialize (Hc Hv). rewrite L2 in Hc. simplify_eq.
  apply (tw_nlink _ _ Ht (i_inum x) (inode_disk x)). done.
Qed.

Definition namex_post (s : fst S U) (v : bview) (parent : bool) (start : Z) (es : list (list Z)) (rs : list Z)
    (r : option nat * list Z) (s' : fst S U) : Prop :=
  frep s' v ∧ env_kept s s' ∧ quiet (fs_sb s) v None (fs_icache s') ∧
  match walk (fs_sb s) v parent start es with
  | None => r.1 = None ∧ refs (fs_icache s') = rs
  | Some n => ∃ ip x, r.1 = Some ip ∧ fs_icache s' !! ip = Some x ∧ i_inum x = n ∧
      refs (fs_icache s') = take_ref ip rs ∧
      (parent = true → ∃ e, last es = Some e ∧ cstr r.2 = take dirsiz e)
  end.

Lemma namex_loop_spec fuel s v (ip : nat) x path parent name rs :
  lookup_env s v → quiet (fs_sb s) v None (fs_icache s) → fs_icache s !! ip = Some x → 0 < i_ref x →
  refs (fs_icache s) = take_ref ip rs → two_free rs → Forall (λ r, 0 <= r) rs → length name = dirsiz →
  Forall (λ c, c ≠ 0) path → (length path < fuel)%nat →
  wp (namex_loop fuel ip path parent name) (namex_post s v parent (i_inum x) (elems path) rs) s.
Proof.
  revert s ip x path name. induction fuel as [|fuel IH]; intros s ip x path name Henv Hq Hx Hp Hrs Hfree Hnn Hl Hpath Hf; [lia |].
  cbn [namex_loop]. pose proof (skipelem_spec path name Hl Hpath) as Hsk.
  destruct (skipelem path name) as [[rest name']|].
  2:{ rewrite Hsk. destruct parent.
      - wp_step.
        destruct (iput_quiet s v ip x Hq Hx Hp) as (z & E & Er & _ & Q); [eapply cached_linked; [apply Henv | by eapply (q_cached _ _ _ _ Hq)] |].
        unfold wp. rewrite E. simpl. split_and!; try done; [apply Henv |]. simpl. split; [done |].
        rewrite refs_insert, Er, Hrs. apply refs_drop. rewrite <- Hrs. by apply refs_lookup.
      - wp_step. split_and!; try done; [apply Henv |]. simpl. exists ip, x. done. }
  destruct Hsk as (e & Ee & Hn' & Hl' & He & Hrest & Hhead & Hlen). rewrite Ee.
  wp_step. eapply wp_mono; [apply (ilock_quiet s v ip x Henv Hq Hx Hp) |].
  intros _ s1 (R1 & K1 & y & Ec1 & Hlk & Hval & Er1 & En1 & Ed1 & Hlive & Q1). cbv beta.
  pose proof (lookup_env_kept _ _ _ Henv R1 K1) as Henv1. destruct (K1) as (Esb & _).
  assert (Hy : fs_icache s1 !! ip = Some y) by (rewrite Ec1; apply list_lookup_insert_eq; by eapply lookup_lt_Some).
  assert (Hrs1 : refs (fs_icache s1) = take_ref ip rs).
  { rewrite Ec1, refs_insert, Er1, list_insert_id; [done | by apply refs_lookup]. }
  assert (Hnl : i_nlink y ≠ 0) by exact (tw_nlink _ _ (le_tree _ _ Henv) _ _ Hlive).
  assert (Hyp : 0 < i_ref y) by lia. rewrite <- Esb in Q1, Hlive. rewrite <- En1 in Hlive.
  wp_step. wp_step. rewrite (ino_lookup _ _ _ Hy).
  unfold namex_post. rewrite <- En1, <- Esb. cbn [walk]. rewrite (proj1 (proj2 Hlive)). cbn [mbind option_bind].
  change (d_type (inode_disk y)) with (i_type y).
  destruct (decide (i_type y ≠ T_DIR)) as [Ht|Ht].
  { wp_step. eapply wp_mono; [by apply (iunlockput_drop s1 v ip y) |].
    intros _ s2 (R2 & K2 & Q2 & Hr2 & _). cbv beta. wp_step. split_and!; try done; [by etrans |].
    rewrite Hr2, Hrs1. apply refs_drop. rewrite <- Hrs1. by apply refs_lookup. }
  assert (Erest : bool_decide (rest = []) = bool_decide (elems rest = [])).
  { apply bool_decide_ext. split; [by intros -> | by apply elems_head]. }
  rewrite Erest. destruct (parent && bool_decide (elems rest = [])) eqn:Epar.
  { apply andb_true_iff in Epar as [-> Er]. apply bool_decide_eq_true in Er. wp_step.
    destruct (iunlock_quiet s1 v ip y Q1 Hy Hyp Hlk) as (z & E & Erz & Enz & _ & _ & Qz). unfold wp. rewrite E. simpl.
    split_and!; try done. exists ip, z. split_and!; try done.
    - apply list_lookup_insert_eq. by eapply lookup_lt_Some.
    - rewrite refs_insert, Erz, list_insert_id; [done | by apply refs_lookup].
    - intros _. exists e. by rewrite Er. }
  assert (i_type y = T_DIR) as Htd by by apply dec_stable.
  wp_step. eapply wp_mono; [apply (dir_step s1 v ip y name' e); try done; by eapply two_free_other |].
  intros r s2 (R2 & K2 & Hr). cbv beta. pose proof (lookup_env_kept _ _ _ Henv1 R2 K2) as Henv2.
  assert (Hlk2 : i_lock y = SleepLock true (pid_of s2)) by (by rewrite (proj2 (proj2 (proj2 K2)))).
  rewrite <- (proj1 K2) in *. destruct (list_find _ _) as [[j de]|].
  - destruct Hr as (nx & off & z & z' & -> & Hz & Ec2 & Erz & Enz & Hpz & Q2 & Hsame). cbv beta iota.
    assert (∃ y2, fs_icache s2 !! ip = Some y2 ∧ i_lock y2 = i_lock y ∧ i_nlink y2 = i_nlink y ∧ 0 < i_ref y2)
      as (y2 & Hy2 & El2 & Enl2 & Hp2).
    { rewrite Ec2. destruct (decide (nx = ip)) as [E|E].
      - exists z'. rewrite E, list_lookup_insert_eq by by eapply lookup_lt_Some. split; [done |].
        rewrite (Hsame E). simpl. split_and!; [done | done | lia].
      - exists y. by rewrite list_lookup_insert_ne. }
    assert (Hrs2 : refs (fs_icache s2) = take_ref nx (take_ref ip rs)).
    { rewrite Ec2, refs_insert, Erz, <- Hrs1. apply take_ref_insert. by apply refs_lookup. }
    wp_step. eapply wp_mono; [apply (iunlockput_drop s2 v ip y2); try done; [by unfold locked; congruence | congruence] |].
    intros _ s3 (R3 & K3 & Q3 & Hr3 & Hin3). cbv beta.
    assert (Hx3 : ∃ x3, fs_icache s3 !! nx = Some x3 ∧ i_inum x3 = de_inum de).
    { specialize (Hin3 nx). rewrite Ec2, list_lookup_insert_eq in Hin3 by by eapply lookup_lt_Some.
      destruct (fs_icache s3 !! nx) as [x3|]; simplify_eq/=. exists x3. split; [done | congruence]. }
    destruct Hx3 as (x3 & Hx3 & <-).
    assert (Hrs3 : refs (fs_icache s3) = take_ref nx rs).
    { rewrite Hr3, Hrs2. apply refs_move. rewrite <- Hrs2. by apply refs_lookup. }
    assert (Hp3 : 0 < i_ref x3).
    { pose proof (refs_lookup _ _ _ Hx3) as Hl3. rewrite Hrs3 in Hl3. unfold take_ref in Hl3.
      rewrite list_lookup_alter, decide_True in Hl3 by done. destruct (rs !! nx) as [r|] eqn:E; simplify_eq/=.
      rewrite Forall_lookup in Hnn. specialize (Hnn _ _ E). simpl in Hnn. lia. }
    pose proof (lookup_env_kept _ _ _ Henv2 R3 K3) as Henv3.
    eapply wp_mono; [apply (IH s3 nx x3 rest name'); rewrite ?(proj1 K3); try done; lia |].
    intros r s4 (R4 & K4 & Q4 & Hr4). rewrite (proj1 K3) in *. split_and!; try done.
    { rewrite K1, K2, K3. done. }
    destruct (walk _ _ _ _ _) as [n|]; [| done]. destruct Hr4 as (ip' & x' & E1 & E2 & E3 & E4 & E5).
    exists ip', x'. split_and!; try done. intros Hpar. destruct (E5 Hpar) as (e' & E6 & E7). exists e'.
    split; [| done]. destruct (elems rest); [done |]. done.
  - destruct Hr as [-> Ec2]. cbv beta iota.
    wp_step. eapply wp_mono; [apply (iunlockput_drop s2 v ip y); rewrite ?Ec2; done |].
    intros _ s3 (R3 & K3 & Q3 & Hr3 & _). cbv beta. wp_step. split_and!; try done.
    { rewrite K1, K2. done. }
    rewrite Hr3, Ec2, Hrs1. apply refs_drop. rewrite <- Hrs1. by apply refs_lookup.
Qed.
End Namex.

(** Where a lookup starts: the root, or the current directory. *)
Definition path_start {S U : Type} (s : fst S U) (path : list Z) (n : Z) : Prop :=
  (head path = Some SLASH ∧ n = ROOTINO) ∨
  (head path ≠ Some SLASH ∧ ∃ c, fs_icache s !! fs_cwd s = Some c ∧ 0 < i_ref c ∧ i_inum c = n).

Section Theorems.
Context {S U : Type} `{BlockLayerOk S} `{UserMem U}.
Implicit Types (s : fst S U) (v : bview).

Lemma start_spec s v path n :
  lookup_env s v → quiet (fs_sb s) v None (fs_icache s) → two_free (refs (fs_icache s)) → path_start s path n →
  wp (if decide (head path = Some SLASH) then iget ROOTDEV ROOTINO
      else let! cwd := gets fs_cwd in idup cwd) (λ ip s', frep s' v ∧ env_kept s s' ∧
    quiet (fs_sb s) v None (fs_icache s') ∧ refs (fs_icache s') = take_ref ip (refs (fs_icache s)) ∧
    ∃ x, fs_icache s' !! ip = Some x ∧ i_inum x = n ∧ 0 < i_ref x) s.
Proof.
  intros Henv Hq Hfree [[Hh ->] | (Hh & c & Hc & Hp & <-)].
  - rewrite decide_True by done. eapply wp_mono; [apply iget_spec'; [apply Hq |] |].
    { destruct Hfree as (a & _ & _ & Ha & _). unfold refs in Ha. rewrite list_lookup_fmap in Ha.
      destruct (fs_icache s !! a) as [x|] eqn:E; simplify_eq/=. exists x. split; [| done].
      by eapply list_elem_of_lookup_2. }
    intros i s' (ic' & -> & (x & x' & Hx & -> & Hwf & Dx & Ix & Rx & R0 & R1 & Lx)).
    pose proof (Forall_lookup_1 _ _ _ _ (ic_ref _ (q_wf _ _ _ _ Hq)) Hx) as Hge. cbv beta in Hge.
    cbn [fs_icache cache_to]. split_and!; try done; [apply Henv | | |].
    + apply (quiet_insert _ _ None); try done; [rewrite Lx; intros _; by eapply (q_lock _ _ _ _ Hq) |].
      intros _. split; [done | rewrite Ix; apply Henv |]. intros Hv.
      destruct (decide (i_ref x = 0)) as [E|E]; [rewrite R0 in Hv by done; done |].
      assert (0 < i_ref x) as Hpx by lia. rewrite (R1 Hpx) in *. apply (q_cached _ _ _ _ Hq _ _ Hx Hpx). done.
    + rewrite refs_insert, Rx. apply take_ref_insert. by apply refs_lookup.
    + exists x'. split_and!; [apply list_lookup_insert_eq; by eapply lookup_lt_Some | done | lia].
  - rewrite decide_False by done. unfold idup. fs_steps. rewrite (alter_to_insert _ _ _ c Hc).
    destruct (q_cached _ _ _ _ Hq _ _ Hc Hp) as [C1 C2 C3]. cbn [fs_icache cache_to].
    split_and!; try done; [apply Henv | | |].
    + apply (quiet_insert _ _ None); try done.
      * rewrite <- (alter_to_insert (λ x, set_ref (i_ref x + 1) x) _ _ c Hc).
        eapply icwf_alter; [apply Hq | done | simpl; lia |]. simpl. intros _ j z Hne Hz Hpz [E1 E2].
        apply Hne. eapply (ic_uniq _ (q_wf _ _ _ _ Hq)); eauto.
      * intros _. exact (q_lock _ _ _ _ Hq _ _ Hc ltac:(done)).
    + rewrite refs_insert. apply take_ref_insert. by apply refs_lookup.
    + eexists. split_and!; [apply list_lookup_insert_eq; by eapply lookup_lt_Some | done | simpl; lia].
Qed.

Lemma namex_spec s v path parent name n :
  lookup_env s v → quiet (fs_sb s) v None (fs_icache s) → two_free (refs (fs_icache s)) → path_start s path n →
  Forall (λ c, c ≠ 0) path → length name = dirsiz →
  wp (namex path parent name) (namex_post s v parent n (elems path) (refs (fs_icache s))) s.
Proof.
  intros Henv Hq Hfree Hst Hpath Hl. unfold namex. wp_step. eapply wp_mono; [by apply (start_spec s v path n) |].
  intros ip s1 (R1 & K1 & Q1 & Hr1 & x & Hx & <- & Hp).
  pose proof (lookup_env_kept _ _ _ Henv R1 K1) as Henv1.
  eapply wp_mono; [apply (namex_loop_spec _ s1 v ip x path parent name (refs (fs_icache s)));
    rewrite ?(proj1 K1); try done; [| lia] |].
  { apply Forall_fmap. eapply Forall_impl; [apply (ic_ref _ (q_wf _ _ _ _ Hq)) | done]. }
  intros r s2 (R2 & K2 & Q2 & Hr). rewrite (proj1 K1) in *. split_and!; try done. by etrans.
Qed.

(** C3: [namei] resolves a path exactly as the reference walk over the
    on-disk directory tree does: it returns a cache entry for the inode the
    walk ends in, or 0 when an element is missing or not a directory. It
    ends holding no lock, the disk is unchanged, and the only reference
    gained is the one to the returned inode. *)
Theorem namei_walks s v path n :
  lookup_env s v → quiet (fs_sb s) v None (fs_icache s) → two_free (refs (fs_icache s)) → path_start s path n →
  Forall (λ c, c ≠ 0) path →
  wp (namei path) (λ r s', frep s' v ∧ quiet (fs_sb s) v None (fs_icache s') ∧
    match walk (fs_sb s) v false n (elems path) with
    | None => r = None ∧ refs (fs_icache s') = refs (fs_icache s)
    | Some m => ∃ ip x, r = Some ip ∧ fs_icache s' !! ip = Some x ∧ i_inum x = m ∧
        refs (fs_icache s') = take_ref ip (refs (fs_icache s))
    end) s.
Proof.
  intros Henv Hq Hfree Hst Hpath. unfold namei. wp_step.
  eapply wp_mono; [by apply (namex_spec s v path false name0 n) |].
  intros [r nm] s1 (R1 & K1 & Q1 & Hr). cbv beta iota. wp_step. split_and!; try done.
  destruct (walk _ _ _ _ _); naive_solver.
Qed.

(** [nameiparent] resolves all but the last element the same way and
    leaves the last one, cut to [DIRSIZ] bytes, in [name]; the result is
    a directory, and is 0 for a path without elements. *)
Theorem nameiparent_walks s v path name n :
  lookup_env s v → quiet (fs_sb s) v None (fs_icache s) → two_free (refs (fs_icache s)) → path_start s path n →
  Forall (λ c, c ≠ 0) path → length name = dirsiz →
  wp (nameiparent path name) (λ r s', frep s' v ∧ quiet (fs_sb s) v None (fs_icache s') ∧
    match walk (fs_sb s) v true n (elems path) with
    | None => r.1 = None ∧ refs (fs_icache s') = refs (fs_icache s)
    | Some m => ∃ ip x e, r.1 = Some ip ∧ fs_icache s' !! ip = Some x ∧ i_inum x = m ∧
        refs (fs_icache s') = take_ref ip (refs (fs_icache s)) ∧
        last (elems path) = Some e ∧ cstr r.2 = take dirsiz e
    end) s.
Proof.
  intros Henv Hq Hfree Hst Hpath Hl. unfold nameiparent.
  eapply wp_mono; [by apply (namex_spec s v path true name n) |].
  intros r s1 (R1 & K1 & Q1 & Hr). split_and!; try done.
  destruct (walk _ _ _ _ _); [| done]. destruct Hr as (ip & x & E1 & E2 & E3 & E4 & E5).
  destruct (E5 eq_refl) as (e & E6 & E7). by exists ip, x, e.
Qed.
End Theorems.

(** ** The theorems on the example file system *)
Lemma fs64_live inum d : live sb64 (view64 0) inum d → inum = 1 ∧ d = root_dinode.
Proof.
  intros (Hin & Hd & Ht). change (sb_ninodes sb64) with 32 in Hin.
  assert (Hall : forallb (λ k : nat, (k =? 1)%nat ||
    match inode_at sb64 (view64 0) (Z.of_nat k) with Some d => d_type d =? 0 | None => true end)
    (seq 0 32) = true) by (vm_compute; reflexivity).
  rewrite forallb_forall in Hall. specialize (Hall (Z.to_nat inum)). rewrite Z2Nat.id, Hd in Hall by lia.
  destruct (decide (inum = 1)) as [->|Hne]; [rewrite root_inode_at in Hd; by simplify_eq |].
  assert (In (Z.to_nat inum) (seq 0 32)) as Hi by (apply in_seq; lia).
  apply Hall, orb_true_iff in Hi as [Hi%Nat.eqb_eq | Hi%Z.eqb_eq]; [lia | done].
Qed.

Lemma fs64_root_live : live sb64 (view64 0) 1 root_dinode.
Proof. split; [cbn; lia |]. split; [apply root_inode_at | done]. Qed.

Lemma fs64_tree : tree_wf sb64 (view64 0).
Proof.
  split.
  - intros inum d [-> ->]%fs64_live. done.
  - intros inum d [-> ->]%fs64_live _. split_and!; [apply root_fwf | apply root_mapped | done.. | done].
  - intros inum d e [-> ->]%fs64_live _ He Hnz. exists root_dinode.
    assert (Hes : forallb (λ e, de_inum e =? 1) (dir_entries (view64 0) root_dinode) = true)
      by (vm_compute; reflexivity).
    rewrite forallb_forall in Hes. apply list_elem_of_In, Hes in He. assert (de_inum e = 1) as -> by lia.
    apply fs64_root_live.
  - exists root_dinode. apply fs64_root_live.
Qed.

Lemma fs64_env : lookup_env (fs64 0) (view64 0).
Proof.
  split; [apply fs64_rep | apply fs64_fswf | apply fs64_tree | reflexivity | apply view64_room; lia].
Qed.

Lemma fs64_quiet : quiet sb64 (view64 0) None (fs_icache (fs64 0)).
Proof.
  split; [apply fs64_icwf | |]; intros j x Hx; apply lookup_replicate in Hx as [-> _]; done.
Qed.

Lemma fs64_two_free : two_free (refs (fs_icache (fs64 0))).
Proof. exists 0%nat, 1%nat. done. Qed.

(** ["/./.."] *)
Definition dots : list Z := [47; 46; 47; 46; 46].

Lemma namei_walks_witness :
  wp (namei dots) (λ r s', frep s' (view64 0) ∧ quiet sb64 (view64 0) None (fs_icache s') ∧
    match walk sb64 (view64 0) false ROOTINO (elems dots) with
    | None => r = None ∧ refs (fs_icache s') = refs (fs_icache (fs64 0))
    | Some m => ∃ ip x, r = Some ip ∧ fs_icache s' !! ip = Some x ∧ i_inum x = m ∧
        refs (fs_icache s') = take_ref ip (refs (fs_icache (fs64 0)))
    end) (fs64 0) ∧ walk sb64 (view64 0) false ROOTINO (elems dots) = Some 1.
Proof.
  split; [| vm_compute; reflexivity].
  apply (namei_walks (fs64 0) (view64 0) dots ROOTINO).
  - apply fs64_env.
  - apply fs64_quiet.
  - apply fs64_two_free.
  - left. split; reflexivity.
  - repeat constructor; discriminate.
Defined.

Lemma nameiparent_walks_witness :
  wp (nameiparent dots name0) (λ r s', frep s' (view64 0) ∧ quiet sb64 (view64 0) None (fs_icache s') ∧
    match walk sb64 (view64 0) true ROOTINO (elems dots) with
    | None => r.1 = None ∧ refs (fs_icache s') = refs (fs_icache (fs64 0))
    | Some m => ∃ ip x e, r.1 = Some ip ∧ fs_icache s' !! ip = Some x ∧ i_inum x = m ∧
        refs (fs_icache s') = take_ref ip (refs (fs_icache (fs64 0))) ∧
        last (elems dots) = Some e ∧ cstr r.2 = take dirsiz e
    end) (fs64 0) ∧ walk sb64 (view64 0) true ROOTINO (elems dots) = Some 1.
Proof.
  split; [| vm_compute; reflexivity].
  apply (nameiparent_walks (fs64 0) (view64 0) dots name0 ROOTINO).
  - apply fs64_env.
  - apply fs64_quiet.
  - apply fs64_two_free.
  - left. split; reflexivity.
  - repeat constructor; discriminate.
  - reflexivity.
Defined.
