(* ===== verification/Riscv.v ===== *)
(** * Pages and page-table entries ([kernel/riscv.h], [kernel/memlayout.h])

    The address arithmetic of the memory system on 64-bit words. *)
From S2P Require Import Prelude Params.

Definition PGSIZE : Z := 4096.
Definition PGSHIFT : Z := 12.
Definition PGROUNDUP (sz : Z) : Z := Z.land (u64 (sz + PGSIZE - 1)) (Z.lnot (PGSIZE - 1)).
Definition PGROUNDDOWN (a : Z) : Z := Z.land a (Z.lnot (PGSIZE - 1)).

Definition PTE_V : Z := Z.shiftl 1 0.
Definition PTE_R : Z := Z.shiftl 1 1.
Definition PTE_W : Z := Z.shiftl 1 2.
Definition PTE_X : Z := Z.shiftl 1 3.
Definition PTE_U : Z := Z.shiftl 1 4.
Definition PA2PTE (pa : Z) : Z := Z.shiftl (Z.shiftr pa 12) 10.
Definition PTE2PA (pte : Z) : Z := u64 (Z.shiftl (Z.shiftr pte 10) 12).
Definition PTE_FLAGS (pte : Z) : Z := Z.land pte 0x3FF.
(** [pte & bit], as a condition. *)
Definition has (bit pte : Z) : bool := negb (Z.land pte bit =? 0).

Definition PXMASK : Z := 0x1FF.
Definition PXSHIFT (level : Z) : Z := PGSHIFT + 9 * level.
Definition PX (level va : Z) : Z := Z.land (Z.shiftr va (PXSHIFT level)) PXMASK.
Definition MAXVA : Z := Z.shiftl 1 (9 + 9 + 9 + 12 - 1).

Definition KERNBASE : Z := 0x80000000.
Definition PHYSTOP : Z := KERNBASE + 128 * 1024 * 1024.
Definition TRAMPOLINE : Z := MAXVA - PGSIZE.
Definition TRAPFRAME : Z := TRAMPOLINE - PGSIZE.

Definition pgsize : nat := Z.to_nat PGSIZE.
Arguments pgsize : simpl never.
Notation page := (list Z) (only parsing).
Definition ld64 := ldn 8.
Definition st64 := stn 8.

(** ** Rounding *)
Lemma land_page a : Z.land a (Z.lnot (PGSIZE - 1)) = PGSIZE * (a / PGSIZE).
Proof.
  change (PGSIZE - 1) with (Z.ones 12). rewrite <- Z.ldiff_land, Z.ldiff_ones_r by lia.
  rewrite Z.shiftl_mul_pow2, Z.shiftr_div_pow2 by lia. change (2 ^ 12) with PGSIZE. lia.
Qed.

Lemma PGROUNDDOWN_eq a : PGROUNDDOWN a = PGSIZE * (a / PGSIZE).
Proof. apply land_page. Qed.

Lemma PGROUNDDOWN_mod a : a = PGROUNDDOWN a + a mod PGSIZE.
Proof. rewrite PGROUNDDOWN_eq. apply Z.div_mod. done. Qed.

Lemma PGROUNDDOWN_aligned a : PGROUNDDOWN a mod PGSIZE = 0.
Proof. rewrite PGROUNDDOWN_eq, Z.mul_comm. by apply Z_mod_mult. Qed.

Lemma PGROUNDDOWN_id a : a mod PGSIZE = 0 → PGROUNDDOWN a = a.
Proof. intros Ha. rewrite (PGROUNDDOWN_mod a) at 2. lia. Qed.

Lemma PGROUNDUP_eq sz : 0 <= sz → sz + PGSIZE < 2 ^ 64 → PGROUNDUP sz = PGSIZE * ((sz + PGSIZE - 1) / PGSIZE).
Proof. intros H0 H1. unfold PGROUNDUP. rewrite land_page. unfold u64, PGSIZE in *. by rewrite Z.mod_small by lia. Qed.

(** ** Entries *)
Lemma PTE2PA_lor pa f : 0 <= pa < 2 ^ 64 → pa mod PGSIZE = 0 → 0 <= f < 1024 → PTE2PA (Z.lor (PA2PTE pa) f) = pa.
Proof.
  intros Hpa Hal Hf. unfold PTE2PA, PA2PTE. rewrite Z.shiftr_lor.
  rewrite Z.shiftr_shiftl_l, Z.sub_diag, Z.shiftl_0_r by lia.
  rewrite (Z.shiftr_div_pow2 f), Z.div_small, Z.lor_0_r by lia.
  rewrite Z.shiftl_mul_pow2, Z.shiftr_div_pow2 by lia. unfold u64, PGSIZE in *. change (2 ^ 12) with 4096.
  assert (pa / 4096 * 4096 = pa) as -> by (pose proof (Z.div_mod pa 4096 ltac:(lia)); lia).
  by apply Z.mod_small.
Qed.

Lemma lor_small a b n : 0 <= n → 0 <= a < 2 ^ n → 0 <= b < 2 ^ n → 0 <= Z.lor a b < 2 ^ n.
Proof.
  intros Hn Ha Hb. assert (0 <= Z.lor a b) by (apply Z.lor_nonneg; lia). split; [done |].
  destruct (decide (Z.lor a b = 0)) as [->|]; [lia |]. apply Z.log2_lt_pow2; [lia |]. rewrite Z.log2_lor by lia.
  destruct (decide (a = 0)) as [->|], (decide (b = 0)) as [->|]; rewrite ?Z.lor_0_r in *; try lia.
  - rewrite Z.max_r by (apply Z.log2_nonneg). apply Z.log2_lt_pow2; lia.
  - rewrite Z.max_l by (apply Z.log2_nonneg). apply Z.log2_lt_pow2; lia.
  - apply Z.max_lub_lt; apply Z.log2_lt_pow2; lia.
Qed.

Lemma PA2PTE_range pa : 0 <= pa < 2 ^ 56 → 0 <= PA2PTE pa < 2 ^ 54.
Proof.
  intros Hpa. unfold PA2PTE. rewrite Z.shiftl_mul_pow2, Z.shiftr_div_pow2 by lia.
  assert (0 <= pa / 2 ^ 12 < 2 ^ 44) by (split; [apply Z.div_pos; lia | apply Z.div_lt_upper_bound; lia]). lia.
Qed.

Lemma has_testbit k pte : 0 <= k → has (Z.shiftl 1 k) pte = Z.testbit pte k.
Proof.
  intros Hk. unfold has. destruct (Z.testbit pte k) eqn:E.
  - apply negb_true_iff, Z.eqb_neq. intros H0.
    assert (Z.testbit (Z.land pte (Z.shiftl 1 k)) k = false) as Hb by (rewrite H0; apply Z.bits_0).
    rewrite Z.land_spec, E, Z.shiftl_spec, Z.sub_diag in Hb by lia. done.
  - apply negb_false_iff, Z.eqb_eq. apply Z.bits_inj'. intros j Hj. rewrite Z.land_spec, Z.bits_0.
    destruct (decide (j = k)) as [->|]; [by rewrite E |]. rewrite Z.shiftl_1_l, Z.pow2_bits_false by lia. apply andb_false_r.
Qed.

Lemma has_V_lor a : has PTE_V (Z.lor a PTE_V) = true.
Proof. unfold PTE_V. rewrite has_testbit, Z.lor_spec by lia. apply orb_true_r. Qed.

Lemma has_low k pa f :
  0 <= k < 10 → 0 <= pa → has (Z.shiftl 1 k) (Z.lor (PA2PTE pa) f) = has (Z.shiftl 1 k) f.
Proof.
  intros Hk Hpa. rewrite !has_testbit, Z.lor_spec by lia. unfold PA2PTE.
  rewrite Z.shiftl_spec_low by lia. done.
Qed.

(** ** Indices *)
Lemma PX_range level va : 0 <= PX level va < 512.
Proof.
  unfold PX. change PXMASK with (Z.ones 9). rewrite Z.land_ones by lia. apply Z.mod_pos_bound. lia.
Qed.

Lemma PX_eq level va : 0 <= level → PX level va = va / 2 ^ (12 + 9 * level) mod 512.
Proof.
  intros Hl. unfold PX, PXSHIFT, PGSHIFT. change PXMASK with (Z.ones 9).
  by rewrite Z.land_ones, Z.shiftr_div_pow2 by lia.
Qed.

(** The three indices determine the page. *)
Lemma PX_inj va va' :
  0 <= va < MAXVA → 0 <= va' < MAXVA → PX 2 va = PX 2 va' → PX 1 va = PX 1 va' → PX 0 va = PX 0 va' →
  va / PGSIZE = va' / PGSIZE.
Proof.
  intros Hv Hv'. assert (HM : MAXVA = 4096 * 2 ^ 26) by done. rewrite HM in *.
  rewrite !PX_eq by lia. unfold PGSIZE. change (12 + 9 * 2) with (12 + 18). change (12 + 9 * 1) with (12 + 9).
  change (12 + 9 * 0) with 12. rewrite !(Z.pow_add_r 2 12) by lia. change (2 ^ 12) with 4096.
  rewrite <- !Z.div_div by lia. change (2 ^ 18) with (512 * 512). change (2 ^ 9) with 512. rewrite <- !(Z.div_div _ 512 512) by lia.
  assert (0 <= va / 4096 < 2 ^ 26) as Ha by (split; [apply Z.div_pos; lia | apply Z.div_lt_upper_bound; lia]).
  assert (0 <= va' / 4096 < 2 ^ 26) as Hb by (split; [apply Z.div_pos; lia | apply Z.div_lt_upper_bound; lia]).
  set (a := va / 4096) in *. set (b := va' / 4096) in *. intros E2 E1 E0.
  assert (∀ x, 0 <= x < 2 ^ 26 → x / 512 / 512 < 512) as Hs.
  { intros x Hx. rewrite Z.div_div by lia. apply Z.div_lt_upper_bound; lia. }
  assert (∀ x, 0 <= x < 2 ^ 26 → 0 <= x / 512 / 512) as Hp by (intros; apply Z.div_pos; [apply Z.div_pos; lia | lia]).
  rewrite !Z.mod_small in E2 by (split; auto).
  pose proof (Z.div_mod (a / 512) 512 ltac:(lia)). pose proof (Z.div_mod (b / 512) 512 ltac:(lia)).
  pose proof (Z.div_mod a 512 ltac:(lia)). pose proof (Z.div_mod b 512 ltac:(lia)). lia.
Qed.
