(* ===== verification/Kalloc.v ===== *)
(** * The physical page allocator ([kernel/kalloc.c])

    Physical memory is a map from page addresses to their bytes.  The free
    list is what the code makes of it: [kmem.freelist] points to a page
    whose first eight bytes point to the next one.  The refinement shows
    that [kalloc] and [kfree] are pop and push of a stack of distinct
    pages. *)
From S2P Require Import Prelude Params CString Riscv.
Import CString.
Arguments memset : simpl never.

Record pmem := Pmem { pm_pages : gmap Z page; kmem_freelist : Z }.

(** An access to memory that is not there. *)
Definition page_of (pa : Z) : M pmem page := λ s,
  match pm_pages s !! pa with Some p => Ret p s | None => Panic "bad physical address" end.
Definition set_page (pa : Z) (p : page) : M pmem unit :=
  modify (λ s, Pmem (<[pa := p]> (pm_pages s)) (kmem_freelist s)).
Definition set_freelist (r : Z) : M pmem unit := modify (λ s, Pmem (pm_pages s) r).
(** [memset(pa, c, PGSIZE)] *)
Definition memset_page (pa c : Z) : M pmem unit :=
  let! p := page_of pa in set_page pa (memset 0 c pgsize p).

(** [kend] is the linker's [end], the first address after the kernel. *)
Definition kfree (kend pa : Z) : M pmem unit :=
  if decide (pa mod PGSIZE ≠ 0 ∨ pa < kend ∨ pa >= PHYSTOP) then panic "kfree"
  else
    memset_page pa 1;;
    let! p := page_of pa in
    let! next := gets kmem_freelist in
    set_page pa (st64 0 next p);;
    set_freelist pa.

(** The page, or 0. *)
Definition kalloc : M pmem Z :=
  let! r := gets kmem_freelist in
  (if decide (r ≠ 0) then
     let! p := page_of r in
     set_freelist (ld64 0 p);;
     memset_page r 5
   else ret tt);;
  ret r.

Fixpoint freerange_loop (kend : Z) (k : nat) (p pa_end : Z) : M pmem unit :=
  if decide (p + PGSIZE <= pa_end) then
    match k with
    | O => λ _, OutOfFuel
    | S k => kfree kend p;; freerange_loop kend k (p + PGSIZE) pa_end
    end
  else ret tt.
Definition freerange (kend pa_start pa_end : Z) : M pmem unit :=
  freerange_loop kend (Z.to_nat ((pa_end - pa_start) / PGSIZE)) (PGROUNDUP pa_start) pa_end.
Definition kinit (kend : Z) : M pmem unit := freerange kend kend PHYSTOP.

(** ** The free list in memory *)
Definition is_page (m : gmap Z page) (pa : Z) : Prop :=
  ∃ p : page, m !! pa = Some p ∧ length p = pgsize.

Fixpoint list_at (m : gmap Z page) (r : Z) (l : list Z) : Prop :=
  match l with
  | [] => r = 0
  | x :: l => r = x ∧ x ≠ 0 ∧ ∃ p : page, m !! x = Some p ∧ length p = pgsize ∧ list_at m (ld64 0 p) l
  end.

Record krep (s : pmem) (l : list Z) : Prop := {
  kr_list : list_at (pm_pages s) (kmem_freelist s) l;
  kr_nodup : NoDup l;
  kr_range : Forall (λ x, 0 < x < 2 ^ 56 ∧ x mod PGSIZE = 0) l;
}.

Lemma list_at_insert m r l pa p : pa ∉ l → list_at m r l → list_at (<[pa := p]> m) r l.
Proof.
  revert r. induction l as [|x l IH]; intros r Hn; simpl; [done |].
  apply not_elem_of_cons in Hn as [Hx Hn]. intros (-> & H0 & q & Hq & Hl & Hat).
  split_and!; [done | done |]. exists q. rewrite lookup_insert_ne by done. eauto.
Qed.

Lemma list_at_pages m r l x : list_at m r l → x ∈ l → is_page m x.
Proof.
  revert r. induction l as [|y l IH]; intros r Hat Hx; [by apply not_elem_of_nil in Hx |].
  destruct Hat as (-> & _ & p & Hp & Hl & Hat). apply elem_of_cons in Hx as [->|Hx]; [by exists p | by eapply IH].
Qed.

Lemma memset_full c (p : page) : length p = pgsize → memset 0 c pgsize p = replicate pgsize (u8 c).
Proof. intros Hl. rewrite memset_splice by lia. apply splice_full. by rewrite length_replicate. Qed.

(** ** Pop and push *)
Lemma kalloc_spec s l :
  krep s l →
  wp kalloc (λ r s', match l with
    | [] => r = 0 ∧ s' = s
    | x :: l' => r = x ∧ krep s' l' ∧ pm_pages s' = <[x := replicate pgsize 5]> (pm_pages s)
    end) s.
Proof.
  intros [Hat Hnd Hrg]. unfold kalloc. wp_step. wp_step. destruct l as [|x l].
  - simpl in Hat. rewrite Hat. rewrite decide_False by tauto. wp_step. wp_step. by wp_step.
  - destruct Hat as (-> & H0 & p & Hp & Hl & Hat). rewrite decide_True by done.
    apply NoDup_cons in Hnd as [Hx Hnd]. apply Forall_cons in Hrg as [Hr Hrg].
    wp_step. unfold memset_page, set_freelist, set_page, page_of. unfold wp, bind, modify, ret. simpl. rewrite Hp. simpl.
    rewrite Hp. simpl. rewrite memset_full by done. split_and!; [done | | done].
    split; [by apply list_at_insert | done | done].
Qed.

Lemma kfree_spec kend s l pa :
  krep s l → pa ∉ l → 0 < kend <= pa → pa < PHYSTOP → pa mod PGSIZE = 0 → is_page (pm_pages s) pa →
  wp (kfree kend pa) (λ _ s', krep s' (pa :: l) ∧
    ∀ x, x ≠ pa → pm_pages s' !! x = pm_pages s !! x) s.
Proof.
  intros [Hat Hnd Hrg] Hn Hk Ht Hal (p & Hp & Hl). assert (HP : PHYSTOP < 2 ^ 56) by done. unfold kfree.
  rewrite decide_False by lia.
  unfold memset_page, page_of, set_page, set_freelist, wp, bind, gets, modify. simpl. rewrite Hp. simpl.
  rewrite lookup_insert_eq. simpl. rewrite insert_insert_eq, memset_full by done.
  assert (Hlen : length (st64 0 (kmem_freelist s) (replicate pgsize (u8 1))) = pgsize).
  { unfold st64. rewrite stn_length.
    - apply length_replicate.
    - rewrite length_replicate; unfold pgsize, PGSIZE; lia. }
  split; [split | intros x Hx; by rewrite lookup_insert_ne].
  - cbn [pm_pages kmem_freelist list_at]. split_and!; [done | lia |]. eexists. rewrite lookup_insert_eq. split_and!; [done | done |].
    unfold ld64, st64. rewrite ldn_stn_same by (rewrite length_replicate; unfold pgsize, PGSIZE; lia).
    assert (0 <= kmem_freelist s < 2 ^ 56) as Hf.
    { destruct l as [|y l]; simpl in Hat; [lia |]. destruct Hat as (-> & _). apply Forall_cons in Hrg as [? _]. lia. }
    rewrite Z.mod_small by (change (256 ^ Z.of_nat 8) with (2 ^ 64); lia). by apply list_at_insert.
  - by constructor.
  - constructor; [lia | done].
Qed.

(** ** Initialisation *)
Definition pages_from (p : Z) (n : nat) : list Z := (λ k, p + PGSIZE * Z.of_nat k) <$> seq 0 n.

Lemma pages_from_S p n : pages_from p (S n) = p :: pages_from (p + PGSIZE) n.
Proof.
  unfold pages_from. cbn [seq fmap list_fmap]. f_equal; [lia |]. rewrite <- fmap_S_seq, <- list_fmap_compose.
  apply list_fmap_ext. intros i x _. simpl. lia.
Qed.

Lemma freerange_loop_spec kend pa_end n p l s fuel :
  krep s l → 0 < kend <= p → pa_end <= PHYSTOP → p mod PGSIZE = 0 → n = Z.to_nat ((pa_end - p) / PGSIZE) → (n ≤ fuel)%nat →
  Forall (is_page (pm_pages s)) (pages_from p n) → (∀ x, x ∈ l → x < p) →
  wp (freerange_loop kend fuel p pa_end) (λ _ s', krep s' (reverse (pages_from p n) ++ l)) s.
Proof.
  revert n p l s. induction fuel as [|fuel IH]; intros n p l s Hr Hk He Hal Hn Hf Hpg Hlt; cbn [freerange_loop].
  - rewrite decide_False; [wp_step; by replace n with 0%nat by lia |]. intros Hle.
    assert (1 <= (pa_end - p) / PGSIZE) by (apply Z.div_le_lower_bound; unfold PGSIZE in *; lia). lia.
  - case_decide as Hle.
    + assert (Hdiv : (pa_end - p) / PGSIZE = (pa_end - (p + PGSIZE)) / PGSIZE + 1).
      { replace (pa_end - p) with (pa_end - (p + PGSIZE) + 1 * PGSIZE) by lia. apply Z.div_add. done. }
      assert (0 <= (pa_end - (p + PGSIZE)) / PGSIZE) by (apply Z.div_pos; unfold PGSIZE in *; lia).
      destruct n as [|n]; [lia |]. rewrite pages_from_S in *. apply Forall_cons in Hpg as [Hp Hpg].
      wp_step. eapply wp_mono; [apply (kfree_spec kend s l p Hr); try done; [intros Hx%Hlt; lia | unfold PGSIZE in *; lia] |].
      intros _ s1 [Hr1 Hsame]. cbv beta.
      rewrite reverse_cons, <- app_assoc. apply (IH n (p + PGSIZE) (p :: l) s1); try done; unfold PGSIZE in *; try lia.
      * rewrite <- Zplus_mod_idemp_r. by rewrite Z.add_0_r.
      * eapply Forall_impl; [apply Forall_forall; intros x Hx; exact (conj Hx (proj1 (Forall_forall _ _) Hpg x Hx)) |].
        intros x [Hx (q & Hq & Hl)]. exists q. rewrite Hsame; [done |]. apply list_elem_of_fmap in Hx as (k & -> & _). unfold PGSIZE; lia.
      * intros x Hx. apply elem_of_cons in Hx as [->|Hx%Hlt]; lia.
    + wp_step. assert ((pa_end - p) / PGSIZE <= 0) as Hle0.
      { apply Z.lt_succ_r, Z.div_lt_upper_bound; unfold PGSIZE in *; lia. }
      by replace n with 0%nat by lia.
Qed.

(** ** Clients

    Code that allocates pages and frees only pages it was given. *)
Inductive kstep (kend : Z) : pmem * gset Z → pmem * gset Z → Prop :=
| ks_alloc s own r s' : kalloc s = Ret r s' → r ≠ 0 → kstep kend (s, own) (s', {[r]} ∪ own)
| ks_nomem s own s' : kalloc s = Ret 0 s' → kstep kend (s, own) (s', own)
| ks_free s own pa s' : pa ∈ own → kfree kend pa s = Ret tt s' → kstep kend (s, own) (s', own ∖ {[pa]})
| ks_write s own pa p : pa ∈ own → length p = pgsize →
    kstep kend (s, own) (Pmem (<[pa := p]> (pm_pages s)) (kmem_freelist s), own).

Record kinv (kend : Z) (all : gset Z) (c : pmem * gset Z) (l : list Z) : Prop := {
  ki_rep : krep c.1 l;
  ki_all : list_to_set l ∪ c.2 = all;
  ki_disj : ∀ x, x ∈ l → x ∉ c.2;
  ki_page : ∀ x, x ∈ all → is_page (pm_pages c.1) x ∧ 0 < kend <= x ∧ x < PHYSTOP ∧ x mod PGSIZE = 0;
}.

Lemma kalloc_inv kend all s own l :
  kinv kend all (s, own) l →
  wp kalloc (λ r s', (r = 0 ∧ l = [] ∧ s' = s) ∨
    ∃ l', r ≠ 0 ∧ l = r :: l' ∧ kinv kend all (s', {[r]} ∪ own) l') s.
Proof.
  intros [Hr Ha Hd Hp]. simpl in *. eapply wp_mono; [by apply kalloc_spec |]. intros r s'. destruct l as [|x l].
  - intros [-> ->]. by left.
  - intros (-> & Hr' & Epg). right. exists l. pose proof (kr_nodup _ _ Hr) as [Hx Hnd]%NoDup_cons.
    pose proof (kr_range _ _ Hr) as [Hx0 _]%Forall_cons. split_and!; [lia | done |]. split; simpl.
    + done.
    + rewrite <- Ha. clear. set_solver.
    + intros y Hy. apply not_elem_of_union. split; [| apply Hd; by apply elem_of_cons; right].
      intros ->%elem_of_singleton. done.
    + intros y Hy. destruct (Hp y Hy) as [(q & Hq & Hl) Hrest]. split; [| done]. rewrite Epg.
      destruct (decide (y = x)) as [->|Hne].
      * exists (replicate pgsize 5). rewrite lookup_insert_eq. split; [done | apply length_replicate].
      * exists q. by rewrite lookup_insert_ne.
Qed.

Lemma kfree_inv kend all s own l pa :
  kinv kend all (s, own) l → pa ∈ own →
  wp (kfree kend pa) (λ _ s', kinv kend all (s', own ∖ {[pa]}) (pa :: l)) s.
Proof.
  intros [Hr Ha Hd Hp] Ho. simpl in *. assert (Hpa : pa ∈ all) by set_solver.
  destruct (Hp pa Hpa) as (Hpg & Hk & Ht & Hal).
  eapply wp_mono; [apply (kfree_spec kend s l pa Hr); try done; intros Hx%Hd; done |].
  intros _ s' [Hr' Hsame]. split; simpl.
  - done.
  - rewrite <- Ha. apply set_eq. intros x. destruct (decide (x = pa)); set_solver.
  - intros x Hx. apply elem_of_cons in Hx as [->|Hx%Hd]; set_solver.
  - intros x Hx. destruct (Hp x Hx) as [(q & Hq & Hl) Hrest]. split; [| done].
    destruct (decide (x = pa)) as [->|Hne].
    + eapply list_at_pages; [apply Hr' | by apply elem_of_cons; left].
    + exists q. by rewrite Hsame.
Qed.

Lemma kstep_inv kend all c c' l : kinv kend all c l → kstep kend c c' → ∃ l', kinv kend all c' l'.
Proof.
  intros Hi Hs. destruct Hs as [s own r s' E Hr | s own s' E | s own pa s' Ho E | s own pa p Ho Hl].
  - pose proof (kalloc_inv _ _ _ _ _ Hi) as Hw. unfold wp in Hw. rewrite E in Hw.
    destruct Hw as [(-> & _) | (l' & _ & _ & Hi')]; [done | eauto].
  - pose proof (kalloc_inv _ _ _ _ _ Hi) as Hw. unfold wp in Hw. rewrite E in Hw.
    destruct Hw as [(_ & -> & ->) | (l' & Hz & _)]; [eauto | done].
  - pose proof (kfree_inv _ _ _ _ _ _ Hi Ho) as Hw. unfold wp in Hw. rewrite E in Hw. eauto.
  - exists l. destruct Hi as [Hr Ha Hd Hp]. simpl in *. split; simpl; try done.
    + destruct Hr as [R1 R2 R3]. split; simpl; [| done | done]. apply list_at_insert; [| done]. intros Hx%Hd. done.
    + intros x Hx. destruct (Hp x Hx) as [(q & Hq & Hlq) Hrest]. split; [| done].
      destruct (decide (x = pa)) as [->|Hne]; [exists p; by rewrite lookup_insert_eq | exists q; by rewrite lookup_insert_ne].
Qed.

(** C16: whatever a well-behaved client does, the allocator keeps every
    page either on the free list or in the client's hands, never both and
    never lost; in particular [kalloc] never returns a page that is in use,
    and it fails only when every page is. *)
Theorem kalloc_exclusive kend all c l c' :
  kinv kend all c l → rtc (kstep kend) c c' →
  wp kalloc (λ r s', (r = 0 ∧ c'.2 = all) ∨ (r ∈ all ∧ r ∉ c'.2 ∧ pm_pages s' !! r = Some (replicate pgsize 5))) c'.1.
Proof.
  intros Hi Hs. assert (∃ l', kinv kend all c' l') as [l' Hi'].
  { revert l Hi. induction Hs as [c | c c1 c2 H1 _ IH]; intros l Hi; [eauto |].
    destruct (kstep_inv _ _ _ _ _ Hi H1) as [l1 Hi1]. eauto. }
  destruct c' as [s own]. pose proof (kalloc_spec s l' (ki_rep _ _ _ _ Hi')) as Hspec.
  apply (wp_mono _ _ _ _ Hspec). intros r s'. pose proof (ki_all _ _ _ _ Hi') as Ha. simpl in *.
  destruct l' as [|x l'].
  - intros [-> ->]. left. split; [done |]. rewrite <- Ha. apply leibniz_equiv. by rewrite list_to_set_nil, (left_id ∅ (∪)).
  - intros (-> & _ & Epg). right. split_and!.
    + rewrite <- Ha. apply elem_of_union. left. rewrite list_to_set_cons. by apply elem_of_union; left; apply elem_of_singleton.
    + apply (ki_disj _ _ _ _ Hi'). by apply elem_of_cons; left.
    + rewrite Epg. by rewrite lookup_insert_eq.
Qed.

(** [kinit] terminates with exactly the whole pages between the end of
    the kernel and [PHYSTOP] on the free list, the last one first. *)
Theorem kinit_frees_all kend s :
  0 < kend <= PHYSTOP → kmem_freelist s = 0 →
  let n := Z.to_nat ((PHYSTOP - PGROUNDUP kend) / PGSIZE) in
  Forall (is_page (pm_pages s)) (pages_from (PGROUNDUP kend) n) →
  wp (kinit kend) (λ _ s', krep s' (reverse (pages_from (PGROUNDUP kend) n))) s.
Proof.
  intros Hk Hf n Hpg. unfold kinit, freerange. assert (HP : PHYSTOP + PGSIZE < 2 ^ 64) by done.
  pose proof (PGROUNDUP_eq kend ltac:(lia) ltac:(lia)) as Hup.
  assert (Hge : kend <= PGROUNDUP kend).
  { rewrite Hup. pose proof (Z.div_mod (kend + PGSIZE - 1) PGSIZE ltac:(done)) as Hd.
    pose proof (Z.mod_pos_bound (kend + PGSIZE - 1) PGSIZE ltac:(done)). lia. }
  eapply wp_mono; [apply (freerange_loop_spec kend PHYSTOP n (PGROUNDUP kend) [] s) |].
  - split; [by rewrite Hf | constructor | constructor].
  - lia.
  - lia.
  - rewrite Hup, Z.mul_comm. by apply Z_mod_mult.
  - done.
  - unfold n. assert ((PHYSTOP - PGROUNDUP kend) / PGSIZE <= (PHYSTOP - kend) / PGSIZE)
      by (apply Z.div_le_mono; [done | lia]). lia.
  - done.
  - intros x Hx. by apply not_elem_of_nil in Hx.
  - intros [] s'. by rewrite app_nil_r.
Qed.

(** ** A machine with two pages of memory after the kernel *)
Definition kend0 : Z := PHYSTOP - 2 * PGSIZE.
Definition pmem0 : pmem :=
  Pmem (<[kend0 := replicate pgsize 0]> (<[kend0 + PGSIZE := replicate pgsize 0]> ∅)) 0.

Lemma pmem0_pages : Forall (is_page (pm_pages pmem0)) (pages_from kend0 2).
Proof.
  repeat constructor.
  - exists (replicate pgsize 0). split; [vm_compute; reflexivity | apply length_replicate].
  - exists (replicate pgsize 0). split; [vm_compute; reflexivity | apply length_replicate].
Qed.

Lemma kinit_frees_all_witness :
  wp (kinit kend0) (λ _ s', krep s' (reverse (pages_from kend0 2))) pmem0.
Proof.
  apply (kinit_frees_all kend0 pmem0); [split; vm_compute; [reflexivity | discriminate] | reflexivity | apply pmem0_pages].
Defined.

Definition booted : pmem := final (kinit kend0) pmem0.

Lemma booted_inv : kinv kend0 {[kend0; kend0 + PGSIZE]} (booted, ∅) [kend0 + PGSIZE; kend0].
Proof.
  assert (Hr : krep booted [kend0 + PGSIZE; kend0]).
  { pose proof (freerange_loop_spec kend0 PHYSTOP 2 kend0 [] pmem0 2) as Hw.
    assert (wp (kinit kend0) (λ _ s', krep s' (reverse (pages_from kend0 2) ++ [])) pmem0) as Hk.
    { apply Hw; try done; try apply pmem0_pages; [split; [done | constructor | constructor] | intros x Hx; by apply not_elem_of_nil in Hx]. }
    apply wp_final in Hk as (a & E & Hk). exact Hk. }
  split; [done | | |].
  - vm_compute. reflexivity.
  - intros x Hx. simpl. set_solver.
  - intros x Hx. assert (x ∈ [kend0 + PGSIZE; kend0]) as Hx2 by set_solver. split.
    + eapply list_at_pages; [apply Hr | done].
    + apply elem_of_cons in Hx2 as [-> | Hx2]; [by vm_compute | apply list_elem_of_singleton in Hx2 as ->; by vm_compute].
Qed.

(** A client that made one allocation. *)
Definition client1 : pmem * gset Z := (final kalloc booted, {[kend0 + PGSIZE]} ∪ ∅).

Lemma kalloc_exclusive_witness :
  rtc (kstep kend0) (booted, ∅) client1 ∧
  wp kalloc (λ r s', (r = 0 ∧ client1.2 = ({[kend0; kend0 + PGSIZE]} : gset Z)) ∨
    (r ∈ ({[kend0; kend0 + PGSIZE]} : gset Z) ∧ r ∉ client1.2 ∧
     pm_pages s' !! r = Some (replicate pgsize 5))) client1.1.
Proof.
  assert (Hs : rtc (kstep kend0) (booted, ∅) client1).
  { apply rtc_once. unfold client1. apply (ks_alloc kend0 booted ∅ (kend0 + PGSIZE)); [| discriminate].
    destruct (wp_final _ _ _ (kalloc_spec booted _ (ki_rep _ _ _ _ booted_inv))) as (a & E & -> & _). exact E. }
  split; [exact Hs |].
  exact (kalloc_exclusive kend0 {[kend0; kend0 + PGSIZE]} (booted, ∅) [kend0 + PGSIZE; kend0] client1 booted_inv Hs).
Defined.
