(* ===== verification/Vm.v ===== *)
(** * Virtual memory ([kernel/vm.c])

    Page tables live in physical pages as the hardware sees them: 512
    little-endian words a page, three levels.  A [pte_t *] is a page and an
    index into it; a null pointer is [None].  The linker's [end], [etext]
    and [trampoline] are parameters.  Moves between two objects
    ([memmove] with a user page on one side) are splices of the page. *)
From S2P Require Import Prelude Params CString Riscv Kalloc.
Import CString.

Definition read_pte (pt i : Z) : M pmem Z :=
  let! p := page_of pt in ret (ld64 (8 * Z.to_nat i) p).
Definition write_pte (pt i pte : Z) : M pmem unit :=
  let! p := page_of pt in set_page pt (st64 (8 * Z.to_nat i) pte p).

(** The loop of [walk] with [level] levels to go. *)
Fixpoint walk_loop (level : nat) (pagetable va : Z) (alloc : bool) : M pmem (option (Z * Z)) :=
  match level with
  | O => ret (Some (pagetable, PX 0 va))
  | S l =>
      let! pte := read_pte pagetable (PX (Z.of_nat level) va) in
      if has PTE_V pte then walk_loop l (PTE2PA pte) va alloc
      else if negb alloc then ret None
      else
        let! new := kalloc in
        if decide (new = 0) then ret None
        else
          memset_page new 0;;
          write_pte pagetable (PX (Z.of_nat level) va) (Z.lor (PA2PTE new) PTE_V);;
          walk_loop l new va alloc
  end.
Definition walk (pagetable va : Z) (alloc : bool) : M pmem (option (Z * Z)) :=
  if decide (va >= MAXVA) then panic "walk" else walk_loop 2 pagetable va alloc.

Definition walkaddr (pagetable va : Z) : M pmem Z :=
  if decide (va >= MAXVA) then ret 0
  else
    let! r := walk pagetable va false in
    match r with
    | None => ret 0
    | Some (pt, i) =>
        let! pte := read_pte pt i in
        if negb (has PTE_V pte) then ret 0
        else if negb (has PTE_U pte) then ret 0
        else ret (PTE2PA pte)
    end.

Fixpoint mappages_loop (fuel : nat) (pagetable a last pa perm : Z) : M pmem Z :=
  match fuel with
  | O => λ _, OutOfFuel
  | S fuel =>
      let! r := walk pagetable a true in
      match r with
      | None => ret (-1)
      | Some (pt, i) =>
          let! pte := read_pte pt i in
          if has PTE_V pte then panic "remap"
          else
            write_pte pt i (Z.lor (Z.lor (PA2PTE pa) perm) PTE_V);;
            if decide (a = last) then ret 0
            else mappages_loop fuel pagetable (u64 (a + PGSIZE)) last (u64 (pa + PGSIZE)) perm
      end
  end.
Definition mappages (pagetable va size pa perm : Z) : M pmem Z :=
  let a := PGROUNDDOWN va in
  let last := PGROUNDDOWN (u64 (va + size - 1)) in
  mappages_loop (Z.to_nat (u64 (last - a) / PGSIZE) + 1) pagetable a last pa perm.

Definition kvmmap (kernel_pagetable va pa sz perm : Z) : M pmem unit :=
  let! r := mappages kernel_pagetable va sz pa perm in
  if decide (r ≠ 0) then panic "kvmmap" else ret tt.

Definition kvmpa (kernel_pagetable va : Z) : M pmem Z :=
  let off := va mod PGSIZE in
  let! r := walk kernel_pagetable va false in
  match r with
  | None => panic "kvmpa"
  | Some (pt, i) =>
      let! pte := read_pte pt i in
      if negb (has PTE_V pte) then panic "kvmpa" else ret (u64 (PTE2PA pte + off))
  end.

Fixpoint uvmunmap_loop (fuel : nat) (kend pagetable a stop : Z) (do_free : bool) : M pmem unit :=
  if decide (a < stop) then
    match fuel with
    | O => λ _, OutOfFuel
    | S fuel =>
        let! r := walk pagetable a false in
        match r with
        | None => panic "uvmunmap: walk"
        | Some (pt, i) =>
            let! pte := read_pte pt i in
            if negb (has PTE_V pte) then panic "uvmunmap: not mapped"
            else if decide (PTE_FLAGS pte = PTE_V) then panic "uvmunmap: not a leaf"
            else
              (if do_free then kfree kend (PTE2PA pte) else ret tt);;
              write_pte pt i 0;;
              uvmunmap_loop fuel kend pagetable (u64 (a + PGSIZE)) stop do_free
        end
    end
  else ret tt.
Definition uvmunmap (kend pagetable va npages : Z) (do_free : bool) : M pmem unit :=
  if decide (va mod PGSIZE ≠ 0) then panic "uvmunmap: not aligned"
  else uvmunmap_loop (Z.to_nat npages) kend pagetable va (u64 (va + npages * PGSIZE)) do_free.

Definition uvmcreate : M pmem Z :=
  let! pagetable := kalloc in
  if decide (pagetable = 0) then ret 0
  else memset_page pagetable 0;; ret pagetable.

Definition uvminit (pagetable : Z) (src : list Z) : M pmem unit :=
  if decide (Z.of_nat (length src) >= PGSIZE) then panic "inituvm: more than a page"
  else
    let! mem := kalloc in
    memset_page mem 0;;
    let! _ := mappages pagetable 0 PGSIZE mem (Z.lor PTE_W (Z.lor PTE_R (Z.lor PTE_X PTE_U))) in
    let! p := page_of mem in
    set_page mem (splice 0 src p).

Definition uvmdealloc (kend pagetable oldsz newsz : Z) : M pmem Z :=
  if decide (newsz >= oldsz) then ret oldsz
  else
    (if decide (PGROUNDUP newsz < PGROUNDUP oldsz) then
       let npages := s32 (u64 (PGROUNDUP oldsz - PGROUNDUP newsz) / PGSIZE) in
       uvmunmap kend pagetable (PGROUNDUP newsz) npages true
     else ret tt);;
    ret newsz.

Fixpoint uvmalloc_loop (fuel : nat) (kend pagetable oldsz newsz a : Z) : M pmem Z :=
  if decide (a < newsz) then
    match fuel with
    | O => λ _, OutOfFuel
    | S fuel =>
        let! mem := kalloc in
        if decide (mem = 0) then let! _ := uvmdealloc kend pagetable a oldsz in ret 0
        else
          memset_page mem 0;;
          let! r := mappages pagetable a PGSIZE mem (Z.lor PTE_W (Z.lor PTE_X (Z.lor PTE_R PTE_U))) in
          if decide (r ≠ 0) then
            kfree kend mem;;
            let! _ := uvmdealloc kend pagetable a oldsz in
            ret 0
          else uvmalloc_loop fuel kend pagetable oldsz newsz (u64 (a + PGSIZE))
    end
  else ret newsz.
Definition uvmalloc (kend pagetable oldsz newsz : Z) : M pmem Z :=
  if decide (newsz < oldsz) then ret oldsz
  else
    let oldsz := PGROUNDUP oldsz in
    uvmalloc_loop (Z.to_nat ((newsz - oldsz) / PGSIZE) + 1) kend pagetable oldsz newsz oldsz.

(** [freewalk]: [depth] bounds the recursion, the loop runs over the 512
    entries. *)
Fixpoint freewalk (depth : nat) (kend pagetable : Z) : M pmem unit :=
  match depth with
  | O => λ _, OutOfFuel
  | S depth =>
      mfor 512 0 (λ i,
        let! pte := read_pte pagetable i in
        if has PTE_V pte && (Z.land pte (Z.lor PTE_R (Z.lor PTE_W PTE_X)) =? 0) then
          freewalk depth kend (PTE2PA pte);;
          write_pte pagetable i 0
        else if has PTE_V pte then panic "freewalk: leaf"
        else ret tt);;
      kfree kend pagetable
  end.

Definition uvmfree (kend pagetable sz : Z) : M pmem unit :=
  (if decide (sz > 0) then uvmunmap kend pagetable 0 (PGROUNDUP sz / PGSIZE) true else ret tt);;
  freewalk 3 kend pagetable.

Fixpoint uvmcopy_loop (fuel : nat) (kend old new sz i : Z) : M pmem Z :=
  if decide (i < sz) then
    match fuel with
    | O => λ _, OutOfFuel
    | S fuel =>
        let! r := walk old i false in
        match r with
        | None => panic "uvmcopy: pte should exist"
        | Some (pt, k) =>
            let! pte := read_pte pt k in
            if negb (has PTE_V pte) then panic "uvmcopy: page not present"
            else
              let! mem := kalloc in
              if decide (mem = 0) then uvmunmap kend new 0 (i / PGSIZE) true;; ret (-1)
              else
                let! p := page_of (PTE2PA pte) in
                set_page mem p;;
                let! r := mappages new i PGSIZE mem (PTE_FLAGS pte) in
                if decide (r ≠ 0) then
                  kfree kend mem;;
                  uvmunmap kend new 0 (i / PGSIZE) true;;
                  ret (-1)
                else uvmcopy_loop fuel kend old new sz (i + PGSIZE)
        end
    end
  else ret 0.
Definition uvmcopy (kend old new sz : Z) : M pmem Z :=
  uvmcopy_loop (Z.to_nat (sz / PGSIZE) + 1) kend old new sz 0.

Definition uvmclear (pagetable va : Z) : M pmem unit :=
  let! r := walk pagetable va false in
  match r with
  | None => panic "uvmclear"
  | Some (pt, i) =>
      let! pte := read_pte pt i in
      write_pte pt i (Z.land pte (Z.lnot PTE_U))
  end.

(** ** Copies between the kernel and a process *)
Fixpoint copyout_loop (fuel : nat) (pagetable dstva : Z) (src : list Z) : M pmem Z :=
  if decide (src = []) then ret 0
  else match fuel with
  | O => λ _, OutOfFuel
  | S fuel =>
      let va0 := PGROUNDDOWN dstva in
      let! pa0 := walkaddr pagetable va0 in
      if decide (pa0 = 0) then ret (-1)
      else
        let n := Z.to_nat (Z.min (PGSIZE - (dstva - va0)) (Z.of_nat (length src))) in
        let! p := page_of pa0 in
        set_page pa0 (splice (Z.to_nat (dstva - va0)) (take n src) p);;
        copyout_loop fuel pagetable (u64 (va0 + PGSIZE)) (drop n src)
  end.
Definition copyout (pagetable dstva : Z) (src : list Z) : M pmem Z :=
  copyout_loop (length src) pagetable dstva src.

(** The return code and the bytes stored so far. *)
Fixpoint copyin_loop (fuel : nat) (pagetable srcva : Z) (len : nat) : M pmem (Z * list Z) :=
  if decide (len = 0%nat) then ret (0, [])
  else match fuel with
  | O => λ _, OutOfFuel
  | S fuel =>
      let va0 := PGROUNDDOWN srcva in
      let! pa0 := walkaddr pagetable va0 in
      if decide (pa0 = 0) then ret (-1, [])
      else
        let n := Z.to_nat (Z.min (PGSIZE - (srcva - va0)) (Z.of_nat len)) in
        let! p := page_of pa0 in
        let bytes := slice (Z.to_nat (srcva - va0)) n p in
        let! (r, rest) := copyin_loop fuel pagetable (u64 (va0 + PGSIZE)) (len - n) in
        ret (r, bytes ++ rest)
  end.
Definition copyin (pagetable srcva : Z) (len : nat) : M pmem (Z * list Z) :=
  copyin_loop len pagetable srcva len.

(** The inner loop of [copyinstr]: the bytes before the first NUL among
    the first [n], and whether there is one. *)
Fixpoint str_scan (n : nat) (p : list Z) : list Z * bool :=
  match n, p with
  | O, _ | _, [] => ([], false)
  | S n, x :: p => if decide (x = 0) then ([], true) else let '(s, b) := str_scan n p in (x :: s, b)
  end.
(** The string without its NUL, or [None] for -1. *)
Fixpoint copyinstr_loop (fuel : nat) (pagetable srcva : Z) (max : nat) : M pmem (option (list Z)) :=
  if decide (max = 0%nat) then ret None
  else match fuel with
  | O => λ _, OutOfFuel
  | S fuel =>
      let va0 := PGROUNDDOWN srcva in
      let! pa0 := walkaddr pagetable va0 in
      if decide (pa0 = 0) then ret None
      else
        let n := Z.to_nat (Z.min (PGSIZE - (srcva - va0)) (Z.of_nat max)) in
        let! p := page_of pa0 in
        let '(s, got_null) := str_scan n (drop (Z.to_nat (srcva - va0)) p) in
        if got_null : bool then ret (Some s)
        else
          let! rest := copyinstr_loop fuel pagetable (u64 (va0 + PGSIZE)) (max - n) in
          ret (app s <$> rest)
  end.
Definition copyinstr (pagetable srcva : Z) (max : nat) : M pmem (option (list Z)) :=
  copyinstr_loop max pagetable srcva max.

(** ** The kernel's own page table *)
Definition UART0 : Z := 0x10000000.
Definition VIRTIO0 : Z := 0x10001000.
Definition CLINT : Z := 0x2000000.
Definition PLIC : Z := 0x0c000000.

Definition kvminit (etext trampoline : Z) : M pmem Z :=
  let! kernel_pagetable := kalloc in
  memset_page kernel_pagetable 0;;
  kvmmap kernel_pagetable UART0 UART0 PGSIZE (Z.lor PTE_R PTE_W);;
  kvmmap kernel_pagetable VIRTIO0 VIRTIO0 PGSIZE (Z.lor PTE_R PTE_W);;
  kvmmap kernel_pagetable CLINT CLINT 0x10000 (Z.lor PTE_R PTE_W);;
  kvmmap kernel_pagetable PLIC PLIC 0x400000 (Z.lor PTE_R PTE_W);;
  kvmmap kernel_pagetable KERNBASE KERNBASE (etext - KERNBASE) (Z.lor PTE_R PTE_X);;
  kvmmap kernel_pagetable etext etext (PHYSTOP - etext) (Z.lor PTE_R PTE_W);;
  kvmmap kernel_pagetable TRAMPOLINE trampoline PGSIZE (Z.lor PTE_R PTE_X);;
  ret kernel_pagetable.
