(* ===== verification/VmProofs.v ===== *)
(** * Virtual memory: page tables as maps

    A page table, seen from the top, maps virtual pages to entries.  The
    lemmas here show that [walk] without allocation reads that map, that
    [walk] with allocation grows the tables without changing it, and that a
    store through the pointer it returns changes it at one page only. *)
From S2P Require Import Prelude Params CString Riscv Kalloc Vm.
Import CString.

(** ** The map *)
Definition pte_get (m : gmap Z page) (pt i : Z) : Z :=
  match (m !! pt : option page) with Some p => ld64 (8 * Z.to_nat i) p | None => 0 end.
(** The table an entry of a higher-level table points to. *)
Definition table_at (m : gmap Z page) (pt i : Z) : option Z :=
  if has PTE_V (pte_get m pt i) then Some (PTE2PA (pte_get m pt i)) else None.
Definition leaf_at (m : gmap Z page) (root i j : Z) : option Z :=
  p ← table_at m root i; table_at m p j.
(** The entry for [va]; 0, as in an empty table, where there is no table. *)
Definition vmap (m : gmap Z page) (root va : Z) : Z :=
  match leaf_at m root (PX 2 va) (PX 1 va) with Some q => pte_get m q (PX 0 va) | None => 0 end.

Definition idx (i : Z) : Prop := 0 <= i < 512.

(** The tables are pages, all distinct. *)
Record pt_wf (m : gmap Z page) (root : Z) : Prop := {
  pw_root : is_page m root;
  pw_mid : ∀ i p, idx i → table_at m root i = Some p → is_page m p ∧ p ≠ root;
  pw_mid_inj : ∀ i i' p, idx i → idx i' → table_at m root i = Some p → table_at m root i' = Some p → i = i';
  pw_leaf : ∀ i j q, idx i → idx j → leaf_at m root i j = Some q →
    is_page m q ∧ q ≠ root ∧ ∀ i', idx i' → table_at m root i' ≠ Some q;
  pw_leaf_inj : ∀ i j i' j' q, idx i → idx j → idx i' → idx j' →
    leaf_at m root i j = Some q → leaf_at m root i' j' = Some q → i = i' ∧ j = j';
}.

(** The pages the tables are in. *)
Definition in_tables (m : gmap Z page) (root x : Z) : Prop :=
  x = root ∨ (∃ i, idx i ∧ table_at m root i = Some x) ∨
  (∃ i j, idx i ∧ idx j ∧ leaf_at m root i j = Some x).

Lemma PX_idx level va : idx (PX level va).
Proof. apply PX_range. Qed.
#[export] Hint Resolve PX_idx : xv6.

Lemma in_tables_pages m root x : pt_wf m root → in_tables m root x → is_page m x.
Proof.
  intros Hw [-> | [(i & Hi & Ht) | (i & j & Hi & Hj & Ht)]]; [apply Hw | apply (pw_mid _ _ Hw i x Hi Ht) |
    apply (pw_leaf _ _ Hw i j x Hi Hj Ht)].
Qed.

Lemma pte_get_insert_ne m x p pt i : pt ≠ x → pte_get (<[x := p]> m) pt i = pte_get m pt i.
Proof. intros Hne. unfold pte_get. by rewrite lookup_insert_ne. Qed.

Lemma table_at_ext m m' pt i : m' !! pt = m !! pt → table_at m' pt i = table_at m pt i.
Proof. intros E. unfold table_at, pte_get. by rewrite E. Qed.

Lemma pte_get_zero m x i : m !! x = Some (replicate pgsize 0) → idx i → pte_get m x i = 0.
Proof.
  intros Hx Hi. unfold pte_get. rewrite Hx. unfold ld64, ldn, slice.
  rewrite drop_replicate, take_replicate. apply le_dec_zeros.
Qed.

(** *** Writing outside the tables *)
Section Outside.
Context (m m' : gmap Z page) (root : Z) (Hw : pt_wf m root).
Context (Hsame : ∀ x, in_tables m root x → m' !! x = m !! x).

Lemma outside_mid i : table_at m' root i = table_at m root i.
Proof. apply table_at_ext, Hsame. by left. Qed.

Lemma outside_leaf i j : idx i → leaf_at m' root i j = leaf_at m root i j.
Proof.
  intros Hi. unfold leaf_at. rewrite outside_mid. destruct (table_at m root i) as [p|] eqn:E; [| done]. simpl.
  apply table_at_ext, Hsame. right. left. eauto.
Qed.

Lemma outside_page x : in_tables m root x → is_page m x → is_page m' x.
Proof. intros Hx (p & Hp & Hl). exists p. by rewrite Hsame. Qed.

Lemma outside_wf : pt_wf m' root.
Proof.
  split.
  - apply outside_page; [by left | apply Hw].
  - intros i p Hi. rewrite outside_mid. intros Ht. destruct (pw_mid _ _ Hw _ _ Hi Ht) as [Hp Hne].
    split; [| done]. apply outside_page; [right; left; eauto | done].
  - intros i i' p Hi Hi'. rewrite !outside_mid. by apply Hw.
  - intros i j q Hi Hj. rewrite outside_leaf by done. intros Ht.
    destruct (pw_leaf _ _ Hw _ _ _ Hi Hj Ht) as (Hp & Hne & Hm). split_and!; [| done |].
    + apply outside_page; [right; right; eauto | done].
    + intros i' Hi'. rewrite outside_mid. by apply Hm.
  - intros i j i' j' q Hi Hj Hi' Hj'. rewrite !outside_leaf by done. by apply Hw.
Qed.

Lemma outside_tables x : in_tables m' root x ↔ in_tables m root x.
Proof.
  unfold in_tables. apply or_iff_compat_l. apply ZifyClasses.or_morph.
  - split; intros (i & Hi & Ht); exists i; [rewrite outside_mid in Ht | rewrite outside_mid]; done.
  - split; intros (i & j & Hi & Hj & Ht); exists i, j; [rewrite outside_leaf in Ht by done | rewrite outside_leaf by done]; done.
Qed.

Lemma outside_vmap va : vmap m' root va = vmap m root va.
Proof.
  unfold vmap. rewrite outside_leaf by apply PX_idx.
  destruct (leaf_at m root (PX 2 va) (PX 1 va)) as [q|] eqn:E; [| done].
  unfold pte_get. rewrite Hsame; [done |]. right. right. eexists _, _. split_and!; [apply PX_idx.. | done].
Qed.
End Outside.

(** *** Writing an entry of a leaf table *)
Lemma leaf_write_kept m root i j q p :
  pt_wf m root → idx i → idx j → leaf_at m root i j = Some q → length p = pgsize →
  let m' := <[q := p]> m in
  (∀ i, idx i → table_at m' root i = table_at m root i) ∧
  (∀ i j, idx i → idx j → leaf_at m' root i j = leaf_at m root i j) ∧ pt_wf m' root.
Proof.
  intros Hw Hi Hj Hq Hl m'. destruct (pw_leaf _ _ Hw _ _ _ Hi Hj Hq) as (Hqp & Hqr & Hqm).
  assert (Hmid : ∀ i, idx i → table_at m' root i = table_at m root i).
  { intros i' Hi'. apply table_at_ext. unfold m'. by rewrite lookup_insert_ne. }
  assert (Hlf : ∀ i j, idx i → idx j → leaf_at m' root i j = leaf_at m root i j).
  { intros i' j' Hi' Hj'. unfold leaf_at. rewrite Hmid by done. destruct (table_at m root i') as [p'|] eqn:E; [| done].
    simpl. apply table_at_ext. unfold m'. rewrite lookup_insert_ne; [done |]. intros <-. by apply (Hqm i'). }
  assert (Hpg : ∀ x, is_page m x → is_page m' x).
  { intros x (p' & Hp' & Hl'). unfold is_page, m'. destruct (decide (x = q)) as [->|Hne].
    - exists p. by rewrite lookup_insert_eq.
    - exists p'. by rewrite lookup_insert_ne. }
  split_and!; [done | done |]. split.
  - apply Hpg, Hw.
  - intros i' p' Hi'. rewrite Hmid by done. intros Ht. destruct (pw_mid _ _ Hw _ _ Hi' Ht). auto.
  - intros i1 i2 p' H1 H2. rewrite !Hmid by done. by apply Hw.
  - intros i' j' q' Hi' Hj'. rewrite Hlf by done. intros Ht. destruct (pw_leaf _ _ Hw _ _ _ Hi' Hj' Ht) as (A & B & C).
    split_and!; [auto | done |]. intros i2 H2. rewrite Hmid by done. by apply C.
  - intros i1 j1 i2 j2 q' H1 H2 H3 H4. rewrite !Hlf by done. by apply Hw.
Qed.

(** *** Stores of entries *)
Lemma pte_get_st m x (p : page) i v j :
  length p = pgsize → idx i → idx j → 0 <= v < 2 ^ 64 →
  pte_get (<[x := st64 (8 * Z.to_nat i) v p]> m) x j = if decide (j = i) then v else ld64 (8 * Z.to_nat j) p.
Proof.
  intros Hl Hi Hj Hv. unfold idx in *. unfold pte_get. rewrite lookup_insert_eq. unfold ld64, st64.
  assert (HP : pgsize = 4096%nat) by done. case_decide as E.
  - subst j. rewrite ldn_stn_same by lia. apply Z.mod_small. change (256 ^ Z.of_nat 8) with (2 ^ 64). lia.
  - rewrite ldn_stn_disjoint; [done | lia | lia |]. lia.
Qed.

Lemma st64_length i v (p : page) : length p = pgsize → idx i → length (st64 (8 * Z.to_nat i) v p) = pgsize.
Proof. intros Hl Hi. unfold idx in *. assert (HP : pgsize = 4096%nat) by done. unfold st64. rewrite stn_length; lia. Qed.

(** The virtual map after the entry for [va] was stored. *)
Lemma vmap_store m root va q (p : page) v va' :
  pt_wf m root → 0 <= va < MAXVA → 0 <= va' < MAXVA → leaf_at m root (PX 2 va) (PX 1 va) = Some q →
  m !! q = Some p → length p = pgsize → 0 <= v < 2 ^ 64 →
  vmap (<[q := st64 (8 * Z.to_nat (PX 0 va)) v p]> m) root va' =
    if decide (va' / PGSIZE = va / PGSIZE) then v else vmap m root va'.
Proof.
  intros Hw Hva Hva' Hq Hp Hl Hv.
  destruct (leaf_write_kept m root _ _ q (st64 (8 * Z.to_nat (PX 0 va)) v p) Hw (PX_idx _ _) (PX_idx _ _) Hq) as (_ & Hlf & _).
  { apply st64_length; [done | apply PX_idx]. }
  unfold vmap. rewrite Hlf by apply PX_idx. case_decide as E.
  - assert (∀ l, 0 <= l → PX l va' = PX l va) as EP.
    { intros l Hl0. rewrite !PX_eq by done. rewrite !Z.pow_add_r by lia. change (2 ^ 12) with PGSIZE.
      assert (0 < 2 ^ (9 * l)) by (apply Z.pow_pos_nonneg; lia).
      rewrite <- !Z.div_div by (unfold PGSIZE; lia). by rewrite E. }
    rewrite !EP by lia. rewrite Hq. rewrite pte_get_st by (done || apply PX_idx). by rewrite decide_True.
  - destruct (leaf_at m root (PX 2 va') (PX 1 va')) as [q'|] eqn:Eq; [| done].
    destruct (decide (q' = q)) as [->|Hne]; [| by rewrite pte_get_insert_ne].
    rewrite pte_get_st by (done || apply PX_idx). rewrite decide_False; [unfold pte_get; by rewrite Hp |].
    intros E0. apply E. destruct (pw_leaf_inj _ _ Hw _ _ _ _ q (PX_idx _ _) (PX_idx _ _) (PX_idx _ _) (PX_idx _ _) Eq Hq) as [E2 E1].
    by apply PX_inj.
Qed.

(** *** Hanging a new, empty table into an entry *)

(** One level up: [r] is the table, [new] the page. *)
Lemma table_at_new m r (p : page) i new j :
  m !! r = Some p → length p = pgsize → idx i → idx j → 0 < new < 2 ^ 56 → new mod PGSIZE = 0 →
  table_at (<[r := st64 (8 * Z.to_nat i) (Z.lor (PA2PTE new) PTE_V) p]> m) r j =
    if decide (j = i) then Some new else table_at m r j.
Proof.
  intros Hp Hl Hi Hj Hn Ha. assert (Hv : 0 <= Z.lor (PA2PTE new) PTE_V < 2 ^ 54).
  { apply lor_small; [lia | apply PA2PTE_range; lia | done]. }
  unfold table_at. rewrite pte_get_st by (done || lia). case_decide.
  - by rewrite has_V_lor, PTE2PA_lor by (done || lia).
  - unfold pte_get. by rewrite Hp.
Qed.

Lemma table_at_zero m x i : m !! x = Some (replicate pgsize 0) → idx i → table_at m x i = None.
Proof. intros Hx Hi. unfold table_at. by rewrite pte_get_zero. Qed.

(** What hanging [new] into a table keeps. *)
Definition hangs (m : gmap Z page) (root new : Z) (m' : gmap Z page) : Prop :=
  pt_wf m' root ∧ (∀ va, vmap m' root va = vmap m root va) ∧
  (∀ x, in_tables m' root x ↔ in_tables m root x ∨ x = new) ∧
  (∀ i p, idx i → table_at m root i = Some p → table_at m' root i = Some p).

Lemma hang_mid m root (p : page) i new :
  pt_wf m root → idx i → table_at m root i = None → m !! root = Some p →
  m !! new = Some (replicate pgsize 0) → ¬ in_tables m root new → 0 < new < 2 ^ 56 → new mod PGSIZE = 0 →
  hangs m root new (<[root := st64 (8 * Z.to_nat i) (Z.lor (PA2PTE new) PTE_V) p]> m).
Proof.
  intros Hw Hi Hnone Hp Hnew Hfresh Hn Ha. set (m' := <[root := _]> m).
  assert (Hl : length p = pgsize) by (destruct (pw_root _ _ Hw) as (p' & Hp' & Hl); simplify_eq; done).
  assert (Hnr : new ≠ root) by (intros ->; apply Hfresh; by left).
  assert (Hmid : ∀ j, idx j → table_at m' root j = if decide (j = i) then Some new else table_at m root j).
  { intros j Hj. by apply table_at_new. }
  assert (Hoth : ∀ x, x ≠ root → m' !! x = m !! x) by (intros x Hx; unfold m'; by rewrite lookup_insert_ne).
  assert (Hlf : ∀ a b, idx a → idx b → leaf_at m' root a b = leaf_at m root a b).
  { intros a b Hia Hib. unfold leaf_at. rewrite Hmid by done. destruct (decide (a = i)) as [->|Hne].
    - rewrite Hnone. simpl. apply table_at_zero; [by rewrite Hoth | done].
    - destruct (table_at m root a) as [q|] eqn:E; [| done]. simpl. apply table_at_ext, Hoth. by apply (pw_mid _ _ Hw a q). }
  assert (Hpg : ∀ x, is_page m x → is_page m' x).
  { intros x (p' & Hp' & Hl'). destruct (decide (x = root)) as [->|Hne].
    - eexists. unfold m'. rewrite lookup_insert_eq. split; [done | by apply st64_length].
    - exists p'. by rewrite Hoth. }
  assert (Hzp : is_page m new) by (eexists; split; [done | apply length_replicate]).
  split_and!.
  - split.
    + apply Hpg, Hw.
    + intros j q Hj. rewrite Hmid by done. case_decide; [intros [= <-]; auto |].
      intros Ht. destruct (pw_mid _ _ Hw _ _ Hj Ht). auto.
    + intros j j' q Hj Hj'. rewrite !Hmid by done. repeat case_decide; try congruence.
      * intros [= <-] Ht. exfalso. apply Hfresh. right. left. eauto.
      * intros Ht [= <-]. exfalso. apply Hfresh. right. left. eauto.
      * by apply Hw.
    + intros a b q Hia Hib. rewrite Hlf by done. intros Ht. destruct (pw_leaf _ _ Hw _ _ _ Hia Hib Ht) as (A & B & C).
      split_and!; [auto | done |]. intros j Hj. rewrite Hmid by done. case_decide; [| by apply C].
      intros [= <-]. apply Hfresh. right. right. eauto.
    + intros a b a' b' q H1 H2 H3 H4. rewrite !Hlf by done. by apply Hw.
  - intros va. unfold vmap. rewrite Hlf by apply PX_idx. destruct (leaf_at m root _ _) as [q|] eqn:E; [| done].
    unfold pte_get. rewrite Hoth; [done |]. by apply (pw_leaf _ _ Hw _ _ _ (PX_idx _ _) (PX_idx _ _) E).
  - intros x. unfold in_tables. split.
    + intros [-> | [(j & Hj & Ht) | (a & b & Hia & Hib & Ht)]]; [by left; left | |].
      * rewrite Hmid in Ht by done. case_decide; [right; congruence |]. left. right. left. eauto.
      * rewrite Hlf in Ht by done. left. right. right. eauto 10.
    + intros [[-> | [(j & Hj & Ht) | (a & b & Hia & Hib & Ht)]] | ->]; [by left | | |].
      * right. left. exists j. split; [done |]. rewrite Hmid by done. case_decide; [congruence | done].
      * right. right. exists a, b. by rewrite Hlf.
      * right. left. exists i. split; [done |]. rewrite Hmid by done. by rewrite decide_True.
  - intros j q Hj Ht. rewrite Hmid by done. case_decide; [congruence | done].
Qed.

Lemma hang_leaf m root r (p : page) i j new :
  pt_wf m root → idx i → idx j → table_at m root i = Some r → table_at m r j = None → m !! r = Some p →
  m !! new = Some (replicate pgsize 0) → ¬ in_tables m root new → 0 < new < 2 ^ 56 → new mod PGSIZE = 0 →
  hangs m root new (<[r := st64 (8 * Z.to_nat j) (Z.lor (PA2PTE new) PTE_V) p]> m).
Proof.
  intros Hw Hi Hj Hr Hnone Hp Hnew Hfresh Hn Ha. set (m' := <[r := _]> m).
  destruct (pw_mid _ _ Hw _ _ Hi Hr) as [(p' & Hp' & Hl) Hrr]. simplify_eq.
  assert (Hnr : new ≠ r) by (intros ->; apply Hfresh; right; left; eauto).
  assert (Hoth : ∀ x, x ≠ r → m' !! x = m !! x) by (intros x Hx; unfold m'; by rewrite lookup_insert_ne).
  assert (Hmid : ∀ a, idx a → table_at m' root a = table_at m root a) by (intros; by apply table_at_ext, Hoth).
  assert (Hrj : ∀ b, idx b → table_at m' r b = if decide (b = j) then Some new else table_at m r b).
  { intros b Hb. by apply table_at_new. }
  assert (Hlf : ∀ a b, idx a → idx b →
    leaf_at m' root a b = if decide (a = i ∧ b = j) then Some new else leaf_at m root a b).
  { intros a b Hia Hib. unfold leaf_at. rewrite Hmid by done. destruct (decide (a = i)) as [->|Hne].
    - rewrite Hr. simpl. rewrite Hrj by done. repeat case_decide; try tauto; done.
    - rewrite decide_False by tauto. destruct (table_at m root a) as [q|] eqn:E; [| done]. simpl. apply table_at_ext, Hoth.
      intros ->. apply Hne. by apply (pw_mid_inj _ _ Hw a i r). }
  assert (Hij : leaf_at m root i j = None) by (unfold leaf_at; by rewrite Hr).
  assert (Hpg : ∀ x, is_page m x → is_page m' x).
  { intros x (q & Hq & Hlq). destruct (decide (x = r)) as [->|Hne].
    - eexists. unfold m'. rewrite lookup_insert_eq. split; [done | by apply st64_length].
    - exists q. by rewrite Hoth. }
  assert (Hzp : is_page m new) by (eexists; split; [done | apply length_replicate]).
  assert (Hnl : ∀ a b, idx a → idx b → leaf_at m root a b ≠ Some new).
  { intros a b Hia Hib Ht. apply Hfresh. right. right. eauto. }
  split_and!.
  - split.
    + apply Hpg, Hw.
    + intros a q Hia. rewrite Hmid by done. intros Ht. destruct (pw_mid _ _ Hw _ _ Hia Ht). auto.
    + intros a a' q Hia Hia'. rewrite !Hmid by done. by apply Hw.
    + intros a b q Hia Hib. rewrite Hlf by done. case_decide.
      * intros [= <-]. split_and!; [auto | intros ->; apply Hfresh; by left |]. intros c Hc. rewrite Hmid by done.
        intros Ht. apply Hfresh. right. left. eauto.
      * intros Ht. destruct (pw_leaf _ _ Hw _ _ _ Hia Hib Ht) as (A & B & C). split_and!; [auto | done |].
        intros c Hc. rewrite Hmid by done. by apply C.
    + intros a b a' b' q H1 H2 H3 H4. rewrite !Hlf by done.
      destruct (decide (a = i ∧ b = j)) as [[-> ->]|N1], (decide (a' = i ∧ b' = j)) as [[-> ->]|N2]; [done | | |].
      * intros [= <-] Ht. by apply Hnl in Ht.
      * intros Ht [= <-]. by apply Hnl in Ht.
      * by apply (pw_leaf_inj _ _ Hw a b a' b' q).
  - intros va. unfold vmap. rewrite Hlf by apply PX_idx. case_decide as E.
    + destruct E as [-> ->]. rewrite Hij. apply pte_get_zero; [by rewrite Hoth | apply PX_idx].
    + destruct (leaf_at m root (PX 2 va) (PX 1 va)) as [q|] eqn:Eq; [| reflexivity]. unfold pte_get.
      rewrite Hoth; [reflexivity |].
      intros ->. by apply (pw_leaf _ _ Hw _ _ _ (PX_idx _ _) (PX_idx _ _) Eq) in Hr.
  - intros x. unfold in_tables. split.
    + intros [-> | [(a & Hia & Ht) | (a & b & Hia & Hib & Ht)]]; [by left; left | |].
      * rewrite Hmid in Ht by done. left. right. left. eauto.
      * rewrite Hlf in Ht by done. case_decide; [right; congruence |]. left. right. right. eauto 10.
    + intros [[-> | [(a & Hia & Ht) | (a & b & Hia & Hib & Ht)]] | ->]; [by left | | |].
      * right. left. exists a. by rewrite Hmid.
      * right. right. exists a, b. split_and!; [done | done |]. rewrite Hlf by done.
        case_decide as E; [destruct E; congruence | done].
      * right. right. exists i, j. split_and!; [done | done |]. rewrite Hlf by done. by rewrite decide_True.
  - intros a q Hia Ht. by rewrite Hmid.
Qed.

(** ** [walk] *)

(** A machine state with a well-formed page table and a free list. *)
Record vrep (root : Z) (s : pmem) (l : list Z) : Prop := {
  vr_free : krep s l;
  vr_wf : pt_wf (pm_pages s) root;
  vr_disj : ∀ x, x ∈ l → ¬ in_tables (pm_pages s) root x;
}.

(** The tables grew by pages of the free list; the map did not change. *)
Record grown (root : Z) (s : pmem) (l : list Z) (s' : pmem) (l' used : list Z) : Prop := {
  gr_list : l = used ++ l';
  gr_rep : vrep root s' l';
  gr_vmap : ∀ va, vmap (pm_pages s') root va = vmap (pm_pages s) root va;
  gr_tables : ∀ x, in_tables (pm_pages s') root x ↔ in_tables (pm_pages s) root x ∨ x ∈ used;
  gr_other : ∀ x, ¬ in_tables (pm_pages s') root x → pm_pages s' !! x = pm_pages s !! x;
}.

Lemma grown_refl root s l : vrep root s l → grown root s l s l [].
Proof.
  intros Hv. split; try done. intros x. split; [by left |]. intros [|Hx]; [done | by apply not_elem_of_nil in Hx].
Qed.

Lemma grown_trans root s l s1 l1 u1 s2 l2 u2 :
  grown root s l s1 l1 u1 → grown root s1 l1 s2 l2 u2 → grown root s l s2 l2 (u1 ++ u2).
Proof.
  intros [A1 A2 A3 A4 A5] [B1 B2 B3 B4 B5]. split.
  - by rewrite A1, B1, app_assoc.
  - done.
  - intros va. by rewrite B3, A3.
  - intros x. rewrite B4, A4, elem_of_app. tauto.
  - intros x Hx. rewrite B5 by done. apply A5. intros Ht. apply Hx. apply B4. by left.
Qed.

Lemma page_of_eq s pa p : pm_pages s !! pa = Some p → page_of pa s = Ret p s.
Proof. intros Hp. unfold page_of. by rewrite Hp. Qed.

Lemma wp_read_pte s pt i Q : is_page (pm_pages s) pt → Q (pte_get (pm_pages s) pt i) s → wp (read_pte pt i) Q s.
Proof.
  intros (p & Hp & _) HQ. unfold read_pte, wp, bind. rewrite (page_of_eq _ _ _ Hp). simpl.
  unfold pte_get in HQ. by rewrite Hp in HQ.
Qed.

Lemma wp_write_pte s pt i v p Q :
  pm_pages s !! pt = Some p →
  Q tt (Pmem (<[pt := st64 (8 * Z.to_nat i) v p]> (pm_pages s)) (kmem_freelist s)) → wp (write_pte pt i v) Q s.
Proof. intros Hp HQ. unfold write_pte, wp, bind. by rewrite (page_of_eq _ _ _ Hp). Qed.

Lemma wp_memset_page s pa c p Q :
  pm_pages s !! pa = Some p → length p = pgsize →
  Q tt (Pmem (<[pa := replicate pgsize (u8 c)]> (pm_pages s)) (kmem_freelist s)) → wp (memset_page pa c) Q s.
Proof.
  intros Hp Hl HQ. unfold memset_page, wp, bind. rewrite (page_of_eq _ _ _ Hp). rewrite memset_full by done. exact HQ.
Qed.

(** A page taken from the free list and cleared. *)
Lemma kalloc_zeroed root s l :
  vrep root s l →
  wp kalloc (λ r s1, match l with
    | [] => r = 0 ∧ s1 = s
    | new :: l' => r = new ∧ new ≠ 0 ∧ 0 < new < 2 ^ 56 ∧ new mod PGSIZE = 0 ∧ ¬ in_tables (pm_pages s) root new ∧ new ∉ l' ∧
        wp (memset_page new 0) (λ _ s2, vrep root s2 l' ∧ kmem_freelist s2 = kmem_freelist s1 ∧
          pm_pages s2 = <[new := replicate pgsize 0]> (pm_pages s)) s1
    end) s.
Proof.
  intros [Hk Hw Hd]. eapply wp_mono; [by apply kalloc_spec |]. intros r s1. destruct l as [|new l]; [done |].
  intros (-> & Hk1 & Epg). pose proof (kr_range _ _ Hk) as [[Hn Ha] _]%Forall_cons.
  pose proof (kr_nodup _ _ Hk) as [Hnl _]%NoDup_cons.
  assert (Hnt : ¬ in_tables (pm_pages s) root new) by (apply Hd; by apply elem_of_cons; left).
  split_and!; try done; try lia.
  apply wp_memset_page with (replicate pgsize 5); [by rewrite Epg, lookup_insert_eq | apply length_replicate |].
  rewrite Epg, insert_insert_eq. split_and!; [| done | done].
  assert (Hsame : ∀ x, in_tables (pm_pages s) root x → <[new := replicate pgsize 0]> (pm_pages s) !! x = pm_pages s !! x).
  { intros x Hx. rewrite lookup_insert_ne; [done |]. by intros <-. }
  split; cbn [pm_pages].
  - destruct Hk1 as [R1 R2 R3]. split; cbn [pm_pages kmem_freelist]; [| done | done].
    rewrite Epg in R1. apply (list_at_insert _ _ _ new (replicate pgsize 0)) in R1; [| done]. by rewrite insert_insert_eq in R1.
  - by apply (outside_wf (pm_pages s)).
  - intros x Hx. rewrite (outside_tables (pm_pages s)) by done. apply Hd. by apply elem_of_cons; right.
Qed.

(** Hanging a new table into entry [i] of a table [r] of level 2 or 1. *)
Lemma grow_spec {A} root s l r i (k : Z → M pmem A) Q (nomem : A) :
  vrep root s l → idx i → table_at (pm_pages s) r i = None →
  r = root ∨ (∃ i0, idx i0 ∧ table_at (pm_pages s) root i0 = Some r) →
  (l = [] → Q nomem s) →
  (∀ new l' s', l = new :: l' → grown root s l s' l' [new] → table_at (pm_pages s') r i = Some new →
     (∀ i0, idx i0 → table_at (pm_pages s) root i0 = Some r → table_at (pm_pages s') root i0 = Some r) →
     wp (k new) Q s') →
  wp (let! new := kalloc in
      if decide (new = 0) then ret nomem
      else memset_page new 0;; write_pte r i (Z.lor (PA2PTE new) PTE_V);; k new) Q s.
Proof.
  intros Hv Hi Hnone Hr Hnil Hk. wp_step. eapply wp_mono; [by apply (kalloc_zeroed root s l) |].
  intros new s1. destruct l as [|x l].
  { intros [-> ->]. rewrite decide_True by done. wp_step. auto. }
  intros (-> & Hx0 & Hx & Hal & Hnt & Hxl & Hms). rewrite decide_False by done. wp_step.
  eapply wp_mono; [exact Hms |]. intros [] s2 (Hv2 & Ef & Epg). cbv beta. wp_step.
  assert (Hrt : in_tables (pm_pages s) root r) by (destruct Hr as [-> | (i0 & Hi0 & Ht)]; [by left | right; left; eauto]).
  assert (Hrx : r ≠ x) by (by intros ->).
  destruct (in_tables_pages _ _ _ (vr_wf _ _ _ Hv) Hrt) as (p & Hp & Hl).
  set (m2 := pm_pages s2) in *.
  assert (Hsame : ∀ y, in_tables (pm_pages s) root y → m2 !! y = pm_pages s !! y).
  { intros y Hy. rewrite Epg, lookup_insert_ne; [done |]. by intros <-. }
  assert (Hp2 : m2 !! r = Some p) by (by rewrite Hsame).
  assert (Hnone2 : table_at m2 r i = None) by (rewrite (table_at_ext (pm_pages s)); [done | by rewrite Hsame]).
  assert (Hx2 : m2 !! x = Some (replicate pgsize 0)) by (by rewrite Epg, lookup_insert_eq).
  pose proof (vr_wf _ _ _ Hv) as Hw. pose proof (vr_wf _ _ _ Hv2) as Hw2. fold m2 in Hw2.
  assert (Hnt2 : ¬ in_tables m2 root x) by (rewrite (outside_tables (pm_pages s)) by done; done).
  set (m3 := <[r := st64 (8 * Z.to_nat i) (Z.lor (PA2PTE x) PTE_V) p]> m2).
  assert (Hh : hangs m2 root x m3).
  { destruct Hr as [-> | (i0 & Hi0 & Ht)]; [by apply hang_mid |]. apply hang_leaf with i0; try done.
    rewrite (table_at_ext (pm_pages s)); [done |]. apply Hsame. by left. }
  destruct Hh as (Hw3 & Hvm3 & Htb3 & Hmid3).
  apply wp_write_pte with p; [done |]. fold m2. fold m3. apply (Hk x l); [done | split | |]; cbn [pm_pages].
  - done.
  - split; cbn [pm_pages]; [| done |].
    + destruct (vr_free _ _ _ Hv2) as [R1 R2 R3]. split; cbn [pm_pages kmem_freelist]; [| done | done].
      apply list_at_insert; [| done]. intros Hrl. apply (vr_disj _ _ _ Hv r); [by apply elem_of_cons; right | done].
    + intros y Hy. rewrite Htb3, (outside_tables (pm_pages s)) by done. intros [Ht | ->]; [| done].
      by apply (vr_disj _ _ _ Hv y); [apply elem_of_cons; right |].
  - intros va. rewrite Hvm3. by apply (outside_vmap (pm_pages s)).
  - intros y. rewrite Htb3, (outside_tables (pm_pages s)), list_elem_of_singleton by done. done.
  - intros y Hy. unfold m3. rewrite lookup_insert_ne; [| intros <-; apply Hy, Htb3; left; by apply (outside_tables (pm_pages s))].
    rewrite Epg, lookup_insert_ne; [done |]. intros <-. apply Hy, Htb3. by right.
  - unfold m3. rewrite table_at_new by done. by rewrite decide_True.
  - intros i0 Hi0 Ht. apply Hmid3; [done |]. rewrite (table_at_ext (pm_pages s)); [done |]. apply Hsame. by left.
Qed.

(** [walk(pagetable, va, 0)]: the leaf table and the index in it. *)
Lemma walk_read s root va :
  pt_wf (pm_pages s) root → 0 <= va < MAXVA →
  walk root va false s =
    Ret ((λ q, (q, PX 0 va)) <$> leaf_at (pm_pages s) root (PX 2 va) (PX 1 va)) s.
Proof.
  intros Hw Hva. unfold walk. rewrite decide_False by lia. cbn [walk_loop].
  assert (Hread : ∀ {A} pt i (k : Z → M pmem A), is_page (pm_pages s) pt →
    bind (read_pte pt i) k s = k (pte_get (pm_pages s) pt i) s).
  { intros A pt i k (p & Hp & _). unfold read_pte, bind. rewrite (page_of_eq _ _ _ Hp). unfold pte_get. by rewrite Hp. }
  rewrite Hread by apply Hw. change (Z.of_nat 2) with 2. change (Z.of_nat 1) with 1.
  unfold leaf_at. destruct (table_at (pm_pages s) root (PX 2 va)) as [p|] eqn:E; revert E; unfold table_at at 1;
    destruct (has PTE_V (pte_get (pm_pages s) root (PX 2 va))) eqn:Ev; intros E; simplify_eq; [| done].
  cbn [mbind option_bind]. rewrite Hread.
  2:{ apply (pw_mid _ _ Hw (PX 2 va)); [apply PX_idx |]. unfold table_at. by rewrite Ev. }
  unfold table_at. destruct (has PTE_V (pte_get (pm_pages s) (PTE2PA _) (PX 1 va))); done.
Qed.

(** [walk(pagetable, va, 1)]: it fails only for want of memory; otherwise
    the tables cover [va]. *)
Lemma walk_alloc s l root va :
  vrep root s l → 0 <= va < MAXVA →
  wp (walk root va true) (λ r s', ∃ l' used, grown root s l s' l' used ∧
    match r with
    | None => l' = []
    | Some (q, i) => i = PX 0 va ∧ leaf_at (pm_pages s') root (PX 2 va) (PX 1 va) = Some q
    end) s.
Proof.
  intros Hv Hva. unfold walk. rewrite decide_False by lia. cbn [walk_loop negb].
  change (Z.of_nat 2) with 2. change (Z.of_nat 1) with 1.
  (* level 1, with table [p] in place *)
  assert (Hlow : ∀ s1 l1 u1 p, grown root s l s1 l1 u1 → table_at (pm_pages s1) root (PX 2 va) = Some p →
    wp (walk_loop 1 p va true) (λ r s', ∃ l' used, grown root s l s' l' used ∧
      match r with
      | None => l' = []
      | Some (q, i) => i = PX 0 va ∧ leaf_at (pm_pages s') root (PX 2 va) (PX 1 va) = Some q
      end) s1).
  { intros s1 l1 u1 p Hg Hp. cbn [walk_loop negb]. change (Z.of_nat 1) with 1. wp_step.
    pose proof (gr_rep _ _ _ _ _ _ Hg) as Hv1. pose proof (vr_wf _ _ _ Hv1) as Hw1.
    apply wp_read_pte; [by apply (pw_mid _ _ Hw1 (PX 2 va)); [apply PX_idx |] |]. cbv beta.
    destruct (has PTE_V (pte_get (pm_pages s1) p (PX 1 va))) eqn:Ev.
    - wp_step. exists l1, u1. split_and!; [done | done |]. unfold leaf_at. rewrite Hp. simpl. unfold table_at. by rewrite Ev.
    - eapply (grow_spec root s1 l1 p); [done | apply PX_idx | unfold table_at; by rewrite Ev | right; eexists; split; [apply PX_idx | done] | |].
      + intros ->. exists [], u1. done.
      + intros new l2 s2 -> Hg2 Ht2 Hm2. wp_step. exists l2, (u1 ++ [new]). split; [by eapply grown_trans |].
        split; [done |]. unfold leaf_at. rewrite (Hm2 (PX 2 va) (PX_idx _ _) Hp). exact Ht2. }
  wp_step. pose proof (vr_wf _ _ _ Hv) as Hw. apply wp_read_pte; [apply Hw |]. cbv beta.
  destruct (has PTE_V (pte_get (pm_pages s) root (PX 2 va))) eqn:Ev.
  - apply (Hlow s l [] _ (grown_refl _ _ _ Hv)). unfold table_at. by rewrite Ev.
  - eapply (grow_spec root s l root); [done | apply PX_idx | unfold table_at; by rewrite Ev | by left | |].
    + intros ->. exists [], []. split; [by apply grown_refl | done].
    + intros new l2 s2 -> Hg2 Ht2 _. by apply (Hlow s2 l2 [new]).
Qed.

(** ** [mappages] *)

(** The mapping was made for the pages of [a .. a + n * PGSIZE). *)
Record mapped_to (root : Z) (s : pmem) (l : list Z) (a pa perm : Z) (n : nat) (s' : pmem) (l' used : list Z) : Prop := {
  mt_list : l = used ++ l';
  mt_rep : vrep root s' l';
  mt_vmap : ∀ va, 0 <= va < MAXVA → vmap (pm_pages s') root va =
    if decide (a <= va < a + PGSIZE * Z.of_nat n)
    then Z.lor (Z.lor (PA2PTE (pa + (PGROUNDDOWN va - a))) perm) PTE_V
    else vmap (pm_pages s) root va;
  mt_tables : ∀ x, in_tables (pm_pages s') root x ↔ in_tables (pm_pages s) root x ∨ x ∈ used;
  mt_other : ∀ x, ¬ in_tables (pm_pages s') root x → pm_pages s' !! x = pm_pages s !! x;
}.

Lemma PTE_range pa perm : 0 <= pa < 2 ^ 56 → 0 <= perm < 1024 → 0 <= Z.lor (Z.lor (PA2PTE pa) perm) PTE_V < 2 ^ 64.
Proof.
  intros Hpa Hperm. pose proof (PA2PTE_range pa Hpa). assert (0 <= PTE_V < 2 ^ 64) by done.
  apply lor_small; [lia | apply lor_small; lia | lia].
Qed.

(** One iteration: the entry for [a] is stored. *)
Lemma map_entry root s l s1 l1 used a q pa perm :
  grown root s l s1 l1 used → 0 <= a < MAXVA → a mod PGSIZE = 0 → 0 <= pa < 2 ^ 56 → 0 <= perm < 1024 →
  leaf_at (pm_pages s1) root (PX 2 a) (PX 1 a) = Some q →
  ∃ p, pm_pages s1 !! q = Some p ∧
    mapped_to root s l a pa perm 1
      (Pmem (<[q := st64 (8 * Z.to_nat (PX 0 a)) (Z.lor (Z.lor (PA2PTE pa) perm) PTE_V) p]> (pm_pages s1)) (kmem_freelist s1)) l1 used.
Proof.
  intros [G1 [K W D] G3 G4 G5] Ha Hal Hpa Hperm Hq.
  destruct (pw_leaf _ _ W _ _ _ (PX_idx _ _) (PX_idx _ _) Hq) as ((p & Hp & Hl) & Hqr & Hqm). exists p. split; [done |].
  set (m1 := pm_pages s1) in *. set (pte := Z.lor _ PTE_V).
  set (p' := st64 _ pte p). assert (Hl' : length p' = pgsize) by (apply st64_length; [done | apply PX_idx]).
  destruct (leaf_write_kept m1 root _ _ q p' W (PX_idx _ _) (PX_idx _ _) Hq Hl') as (Hmid & Hlf & W').
  assert (Htab : ∀ x, in_tables (<[q := p']> m1) root x ↔ in_tables m1 root x).
  { intros x. unfold in_tables. split; (intros [-> | [(i & Hi & Ht) | (i & j & Hi & Hj & Ht)]]; [by left | right; left; exists i |
      right; right; exists i, j]); [rewrite Hmid in Ht by done | rewrite Hlf in Ht by done | rewrite Hmid by done | rewrite Hlf by done]; done. }
  assert (Hqt : in_tables m1 root q) by (right; right; eexists _, _; split_and!; [apply PX_idx.. | done]).
  split; cbn [pm_pages].
  - done.
  - split; cbn [pm_pages]; [| done |].
    + destruct K as [R1 R2 R3]. split; cbn [pm_pages kmem_freelist]; [| done | done].
      apply list_at_insert; [| done]. intros Hx. by apply (D q).
    + intros x Hx. rewrite Htab. by apply D.
  - intros va Hva. unfold p'. rewrite (vmap_store m1 root a q p pte va) by (done || by apply PTE_range).
    rewrite Z.mul_1_r. pose proof (Z.div_mod a PGSIZE ltac:(done)) as Hda. pose proof (Z.div_mod va PGSIZE ltac:(done)) as Hdv.
    pose proof (Z.mod_pos_bound va PGSIZE ltac:(done)) as Hmv. pose proof (PGROUNDDOWN_eq va) as Hdn.
    destruct (decide (va / PGSIZE = a / PGSIZE)) as [E|E].
    + rewrite decide_True by (unfold PGSIZE in *; lia).
      replace (pa + (PGROUNDDOWN va - a)) with pa by (unfold PGSIZE in *; lia). done.
    + rewrite decide_False; [apply G3 |]. unfold PGSIZE in *. lia.
  - intros x. rewrite Htab. apply G4.
  - intros x Hx. rewrite Htab in Hx. rewrite lookup_insert_ne by (by intros <-). by apply G5.
Qed.

Lemma grown_mapped root s l s1 l1 used a pa perm :
  grown root s l s1 l1 used → mapped_to root s l a pa perm 0 s1 l1 used.
Proof.
  intros [A1 A2 A3 A4 A5]. split; try done. intros va _. rewrite decide_False by lia. apply A3.
Qed.

Lemma mapped_trans root s l a pa perm n1 s1 l1 u1 n2 s2 l2 u2 :
  mapped_to root s l a pa perm n1 s1 l1 u1 →
  mapped_to root s1 l1 (a + PGSIZE * Z.of_nat n1) (pa + PGSIZE * Z.of_nat n1) perm n2 s2 l2 u2 →
  mapped_to root s l a pa perm (n1 + n2) s2 l2 (u1 ++ u2).
Proof.
  intros [A1 A2 A3 A4 A5] [B1 B2 B3 B4 B5]. split.
  - by rewrite A1, B1, app_assoc.
  - done.
  - intros va Hva. rewrite B3, A3 by done. unfold PGSIZE. repeat case_decide; try lia; try done.
    do 3 f_equal. lia.
  - intros x. rewrite B4, A4, elem_of_app. tauto.
  - intros x Hx. rewrite B5 by done. apply A5. intros Ht. apply Hx. apply B4. by left.
Qed.

Lemma mappages_loop_spec root perm n fuel s l a pa :
  vrep root s l → 0 <= a → a mod PGSIZE = 0 → a + PGSIZE * Z.of_nat (S n) <= MAXVA →
  0 <= pa → pa + PGSIZE * Z.of_nat (S n) <= 2 ^ 56 → 0 <= perm < 1024 → (n < fuel)%nat →
  (∀ va, a <= va < a + PGSIZE * Z.of_nat (S n) → has PTE_V (vmap (pm_pages s) root va) = false) →
  wp (mappages_loop fuel root a (a + PGSIZE * Z.of_nat n) pa perm) (λ r s', ∃ l' used,
    (r = 0 ∧ mapped_to root s l a pa perm (S n) s' l' used) ∨
    (r = -1 ∧ l' = [] ∧ ∃ k, (k ≤ n)%nat ∧ mapped_to root s l a pa perm k s' l' used)) s.
Proof.
  assert (HM : MAXVA < 2 ^ 63) by done.
  revert n s l a pa. induction fuel as [|fuel IH]; intros n s l a pa Hv Ha Hal Hend Hpa Hpend Hperm Hf Hun; [lia |].
  assert (Hpos : 0 < PGSIZE) by done.
  cbn [mappages_loop]. wp_step. eapply wp_mono; [apply (walk_alloc s l root a Hv); nia |].
  intros r s1 (l1 & used & Hg & Hr). destruct r as [[q i]|].
  2:{ cbv beta iota. wp_step. exists l1, used. right. split_and!; [done | done |]. exists 0%nat. split; [lia |]. by apply grown_mapped. }
  destruct Hr as [-> Hq]. cbv beta iota. wp_step.
  pose proof (vr_wf _ _ _ (gr_rep _ _ _ _ _ _ Hg)) as W1.
  apply wp_read_pte; [by apply (pw_leaf _ _ W1 _ _ _ (PX_idx _ _) (PX_idx _ _) Hq) |]. cbv beta.
  assert (pte_get (pm_pages s1) q (PX 0 a) = vmap (pm_pages s) root a) as ->.
  { rewrite <- (gr_vmap _ _ _ _ _ _ Hg). unfold vmap. by rewrite Hq. }
  rewrite Hun by nia. destruct (map_entry root s l s1 l1 used a q pa perm Hg) as (p & Hp & Hm1); try done; try nia.
  wp_step. apply wp_write_pte with p; [done |]. set (s2 := Pmem _ _) in *. destruct n as [|n].
  - rewrite Z.mul_0_r, Z.add_0_r, decide_True by done. wp_step. exists l1, used. left. done.
  - rewrite decide_False by nia. unfold u64. rewrite !Z.mod_small by nia.
    replace (a + PGSIZE * Z.of_nat (S n)) with (a + PGSIZE + PGSIZE * Z.of_nat n) by nia.
    eapply wp_mono; [apply (IH n s2 l1 (a + PGSIZE) (pa + PGSIZE)); try done; try nia |].
    { apply Hm1. } { rewrite <- Zplus_mod_idemp_r, Z.mod_same, Z.add_0_r by done. done. }
    { intros va Hva. rewrite (mt_vmap _ _ _ _ _ _ _ _ _ _ Hm1) by nia. rewrite decide_False by nia. apply Hun. nia. }
    intros r s3 (l3 & u3 & Hres). exists l3, (used ++ u3).
    assert (Hcat : ∀ k, mapped_to root s2 l1 (a + PGSIZE) (pa + PGSIZE) perm k s3 l3 u3 →
      mapped_to root s l a pa perm (S k) s3 l3 (used ++ u3)).
    { intros k Hk. apply (mapped_trans root s l a pa perm 1 s2 l1 used k); [done |].
      change (Z.of_nat 1) with 1. by rewrite Z.mul_1_r. }
    destruct Hres as [[-> Hk] | (-> & El & k & Hkn & Hk)]; [left; auto |]. right. split_and!; [done | done |].
    exists (S k). split; [lia | auto].
Qed.

(** The number of pages that [va .. va + size) touches. *)
Definition npages (va size : Z) : nat :=
  Z.to_nat ((va + size - 1) / PGSIZE - va / PGSIZE + 1).

Lemma mappages_spec root s l va size pa perm :
  vrep root s l → 0 <= va → 0 < size → va + size <= MAXVA →
  0 <= pa → pa + PGSIZE * Z.of_nat (npages va size) <= 2 ^ 56 → 0 <= perm < 1024 →
  let a := PGROUNDDOWN va in
  (∀ x, a <= x < a + PGSIZE * Z.of_nat (npages va size) → has PTE_V (vmap (pm_pages s) root x) = false) →
  wp (mappages root va size pa perm) (λ r s', ∃ l' used,
    (r = 0 ∧ mapped_to root s l a pa perm (npages va size) s' l' used) ∨
    (r = -1 ∧ l' = [] ∧ ∃ k, (k < npages va size)%nat ∧ mapped_to root s l a pa perm k s' l' used)) s.
Proof.
  intros Hv Hva Hsz Hend Hpa Hpend Hperm a Hun. assert (HM : MAXVA < 2 ^ 63) by done.
  assert (HMd : MAXVA = PGSIZE * (MAXVA / PGSIZE)) by done.
  pose proof (Z.div_le_mono va (va + size - 1) PGSIZE ltac:(done) ltac:(lia)) as Hmono.
  pose proof (Z.div_pos va PGSIZE ltac:(lia) ltac:(done)) as Hp0.
  assert (Hlt : (va + size - 1) / PGSIZE < MAXVA / PGSIZE) by (apply Z.div_lt_upper_bound; [done | lia]).
  unfold mappages, npages in *. fold a.
  assert (u64 (va + size - 1) = va + size - 1) as -> by (apply Z.mod_small; lia).
  unfold a in *. rewrite !PGROUNDDOWN_eq in *.
  set (x := va / PGSIZE) in *. set (y := (va + size - 1) / PGSIZE) in *.
  set (n := Z.to_nat (y - x)). assert (Hn : Z.of_nat n = y - x) by (unfold n; lia).
  replace (Z.to_nat (y - x + 1)) with (S n) in * by lia.
  replace (PGSIZE * y) with (PGSIZE * x + PGSIZE * Z.of_nat n) by (rewrite Hn; ring).
  assert (Hfu : u64 (PGSIZE * x + PGSIZE * Z.of_nat n - PGSIZE * x) / PGSIZE = Z.of_nat n).
  { replace (PGSIZE * x + PGSIZE * Z.of_nat n - PGSIZE * x) with (Z.of_nat n * PGSIZE) by ring. unfold u64.
    rewrite Z.mod_small by (unfold PGSIZE in *; lia). by apply Z_div_mult_full. }
  rewrite Hfu, Nat2Z.id.
  eapply wp_mono; [apply (mappages_loop_spec root perm n (n + 1) s l (PGSIZE * x) pa); try done; try (unfold PGSIZE in *; lia) |].
  - rewrite Z.mul_comm. by apply Z_mod_mult.
  - intros r s' (l' & used & [? | (? & ? & k & Hk & ?)]); exists l', used; [by left | right].
    split_and!; [done | done |]. exists k. split; [lia | done].
Qed.
