(* ===== verification/VmUser.v ===== *)
(** * User memory through a page table

    [copyin], [copyout] and [copyinstr] of [kernel/vm.c] meet the contract
    of user memory: a process's memory is the partial map of bytes that its
    page table gives. *)
From S2P Require Import Prelude Params CString Fs Image UserMem Riscv Kalloc Vm VmProofs.
Import CString.

(** A process's address space: physical memory and its root table. *)
Record uspace := Uspace { us_pmem : pmem; us_root : Z }.

#[export] Instance vm_mem : UserMem uspace := {
  um_copyout va data u :=
    match copyout (us_root u) va data (us_pmem u) with
    | Ret r s => (r, Uspace s (us_root u))
    | _ => (-1, u)
    end;
  um_copyin va n u :=
    match copyin (us_root u) va n (us_pmem u) with Ret r _ => r | _ => (-1, []) end;
  um_copyinstr va n u :=
    match copyinstr (us_root u) va n (us_pmem u) with Ret r _ => r | _ => None end;
}.

(** ** What [walkaddr] computes *)
Definition user_pte (pte : Z) : bool := has PTE_V pte && has PTE_U pte.
Definition uaddr (m : gmap Z page) (root va : Z) : Z :=
  if decide (va < MAXVA) then if user_pte (vmap m root va) then PTE2PA (vmap m root va) else 0 else 0.

Lemma walkaddr_eq s root va : pt_wf (pm_pages s) root → 0 <= va → walkaddr root va s = Ret (uaddr (pm_pages s) root va) s.
Proof.
  intros Hw Hva. unfold walkaddr, uaddr. destruct (decide (va < MAXVA)) as [Hlt|Hge].
  - rewrite decide_False by lia. unfold bind at 1. rewrite walk_read by (done || lia). unfold vmap, user_pte.
    destruct (leaf_at (pm_pages s) root (PX 2 va) (PX 1 va)) as [q|] eqn:E; cbn [fmap option_fmap option_map]; [| done].
    destruct (pw_leaf _ _ Hw _ _ _ (PX_idx _ _) (PX_idx _ _) E) as ((p & Hp & _) & _).
    unfold read_pte, bind. rewrite (page_of_eq _ _ _ Hp). unfold pte_get. rewrite Hp. unfold ret.
    destruct (has PTE_V _); cbn [negb andb]; [| reflexivity]. destruct (has PTE_U _); reflexivity.
  - by rewrite decide_True by lia.
Qed.

Lemma vmap_page m root va va' : va / PGSIZE = va' / PGSIZE → vmap m root va = vmap m root va'.
Proof.
  intros E. assert (∀ l, 0 <= l → PX l va = PX l va') as EP.
  { intros l Hl0. rewrite !PX_eq by done. rewrite !Z.pow_add_r by lia. change (2 ^ 12) with PGSIZE.
    assert (0 < 2 ^ (9 * l)) by (apply Z.pow_pos_nonneg; lia).
    rewrite <- !Z.div_div by (unfold PGSIZE; lia). by rewrite E. }
  unfold vmap. by rewrite !EP by lia.
Qed.

(** ** The bytes of an address space *)
Definition us_byte (u : uspace) (a : Z) : option Z :=
  let m := pm_pages (us_pmem u) in
  let pa := uaddr m (us_root u) (PGROUNDDOWN a) in
  if decide (0 <= a ∧ pa ≠ 0) then p ← m !! pa; p !! Z.to_nat (a mod PGSIZE) else None.

(** User pages are memory, apart from the tables, and not shared. *)
Record us_wf (u : uspace) : Prop := {
  uw_pt : pt_wf (pm_pages (us_pmem u)) (us_root u);
  uw_page : ∀ va, 0 <= va → uaddr (pm_pages (us_pmem u)) (us_root u) va ≠ 0 →
    is_page (pm_pages (us_pmem u)) (uaddr (pm_pages (us_pmem u)) (us_root u) va) ∧
    ¬ in_tables (pm_pages (us_pmem u)) (us_root u) (uaddr (pm_pages (us_pmem u)) (us_root u) va);
  uw_inj : ∀ va va', 0 <= va → 0 <= va' → uaddr (pm_pages (us_pmem u)) (us_root u) va ≠ 0 →
    uaddr (pm_pages (us_pmem u)) (us_root u) va = uaddr (pm_pages (us_pmem u)) (us_root u) va' →
    va / PGSIZE = va' / PGSIZE;
}.

Lemma page_facts a : 0 <= a →
  0 <= PGROUNDDOWN a <= a ∧ a - PGROUNDDOWN a = a mod PGSIZE ∧ 0 <= a mod PGSIZE < PGSIZE ∧
  PGROUNDDOWN a = PGSIZE * (a / PGSIZE).
Proof.
  intros Ha. pose proof (Z.mod_pos_bound a PGSIZE ltac:(done)). pose proof (PGROUNDDOWN_mod a).
  rewrite PGROUNDDOWN_eq in *. pose proof (Z.div_pos a PGSIZE ltac:(lia) ltac:(done)). unfold PGSIZE in *. lia.
Qed.

Lemma PGROUNDDOWN_same a b : 0 <= a → 0 <= b → a / PGSIZE = b / PGSIZE → PGROUNDDOWN a = PGROUNDDOWN b.
Proof. intros Ha Hb E. by rewrite !PGROUNDDOWN_eq, E. Qed.

(** A byte is mapped exactly when its page is. *)
Lemma us_byte_None u a : us_wf u → 0 <= a →
  us_byte u a = None ↔ uaddr (pm_pages (us_pmem u)) (us_root u) (PGROUNDDOWN a) = 0.
Proof.
  intros Hu Ha. unfold us_byte. destruct (page_facts a Ha) as (F1 & F2 & F3 & _). split.
  - case_decide as Hd; [| intros _; destruct (decide (uaddr (pm_pages (us_pmem u)) (us_root u) (PGROUNDDOWN a) = 0)); [done | tauto]].
    destruct Hd as [_ Hne]. destruct (uw_page _ Hu (PGROUNDDOWN a) ltac:(lia) Hne) as [(p & Hp & Hl) _]. rewrite Hp. simpl.
    intros Hn%lookup_ge_None_1. unfold pgsize, PGSIZE in *. lia.
  - intros ->. rewrite decide_False by tauto. done.
Qed.

Lemma us_byte_range u a x : us_byte u a = Some x → 0 <= a < 2 ^ 63.
Proof.
  unfold us_byte. case_decide as Hd; [| done]. destruct Hd as [Ha Hne]. intros _. split; [done |].
  unfold uaddr in Hne. destruct (page_facts a Ha) as (F1 & F2 & F3 & _). case_decide as Hlt; [| done].
  assert (HM : MAXVA + PGSIZE < 2 ^ 63) by done. lia.
Qed.

(** The bytes of one page, from [a] on. *)
Lemma us_byte_page u a p (k : Z) :
  us_wf u → 0 <= a → pm_pages (us_pmem u) !! uaddr (pm_pages (us_pmem u)) (us_root u) (PGROUNDDOWN a) = Some p →
  uaddr (pm_pages (us_pmem u)) (us_root u) (PGROUNDDOWN a) ≠ 0 → 0 <= k < PGSIZE - a mod PGSIZE →
  us_byte u (a + k) = p !! Z.to_nat (a mod PGSIZE + k).
Proof.
  intros Hu Ha Hp Hne Hk. unfold us_byte. destruct (page_facts a Ha) as (F1 & F2 & F3 & F4).
  assert (Hdiv : (a + k) / PGSIZE = a / PGSIZE).
  { symmetry. apply (Z.div_unique_pos _ _ _ (a mod PGSIZE + k)); [lia |]. pose proof (Z.div_mod a PGSIZE ltac:(done)). lia. }
  rewrite (PGROUNDDOWN_same (a + k) a) by (done || lia). rewrite decide_True by (split; [lia | done]). rewrite Hp. simpl.
  f_equal. f_equal. rewrite Z.mod_eq, Hdiv by done. rewrite Z.mod_eq by done. lia.
Qed.

(** ** Copies *)

(** Storing into the user page of [a] changes those bytes only. *)
Lemma us_store u a p new :
  us_wf u → 0 <= a → let pa := uaddr (pm_pages (us_pmem u)) (us_root u) (PGROUNDDOWN a) in
  pa ≠ 0 → pm_pages (us_pmem u) !! pa = Some p → Z.of_nat (length new) <= PGSIZE - a mod PGSIZE →
  let u' := Uspace (Pmem (<[pa := splice (Z.to_nat (a mod PGSIZE)) new p]> (pm_pages (us_pmem u)))
                         (kmem_freelist (us_pmem u))) (us_root u) in
  us_wf u' ∧ ∀ x, us_byte u' x = if decide (a <= x < a + Z.of_nat (length new)) then new !! Z.to_nat (x - a)
                                 else us_byte u x.
Proof.
  intros Hu Ha pa Hpa Hp Hlen u'. set (m := pm_pages (us_pmem u)) in *. set (root := us_root u) in *.
  destruct (page_facts a Ha) as (F1 & F2 & F3 & F4).
  destruct (uw_page _ Hu (PGROUNDDOWN a) ltac:(lia) Hpa) as [(p0 & Hp0 & Hl) Hnt]. fold m root pa in Hp0, Hnt. simplify_eq.
  assert (Hsl : length (splice (Z.to_nat (a mod PGSIZE)) new p) = pgsize).
  { rewrite splice_length; [done |]. unfold pgsize, PGSIZE in *. lia. }
  set (m' := <[pa := splice (Z.to_nat (a mod PGSIZE)) new p]> m).
  assert (Hsame : ∀ x, in_tables m root x → m' !! x = m !! x).
  { intros x Hx. unfold m'. rewrite lookup_insert_ne; [done |]. by intros <-. }
  assert (Hua : ∀ va, uaddr m' root va = uaddr m root va).
  { intros va. unfold uaddr. by rewrite (outside_vmap m m' root Hsame). }
  assert (Hpg : ∀ x, is_page m x → is_page m' x).
  { intros x (q & Hq & Hlq). unfold is_page, m'. destruct (decide (x = pa)) as [->|Hne].
    - eexists. rewrite lookup_insert_eq. done.
    - exists q. by rewrite lookup_insert_ne. }
  split.
  - split; cbn [u' us_pmem us_root pm_pages]; fold m root; fold m'.
    + exact (outside_wf m m' root (uw_pt _ Hu) Hsame).
    + intros va Hva. rewrite Hua. intros Hne. destruct (uw_page _ Hu va Hva Hne) as [A B]. split; [by apply Hpg |].
      by rewrite (outside_tables m m' root Hsame).
    + intros va va' Hva Hva'. rewrite !Hua. by apply Hu.
  - intros x. unfold us_byte. cbn [u' us_pmem us_root pm_pages]. fold m root. fold m'. rewrite Hua.
    destruct (decide (0 <= x ∧ uaddr m root (PGROUNDDOWN x) ≠ 0)) as [[Hx Hne]|Hn].
    + destruct (page_facts x Hx) as (X1 & X2 & X3 & X4). destruct (decide (uaddr m root (PGROUNDDOWN x) = pa)) as [E|E].
      * assert (Hdiv : PGROUNDDOWN x / PGSIZE = PGROUNDDOWN a / PGSIZE).
        { apply (uw_inj _ Hu); try lia; [exact Hne | exact E]. }
        rewrite F4, X4, !(Z.mul_comm PGSIZE), !Z_div_mult_full in Hdiv by done.
        rewrite E, Hp. unfold m'. rewrite lookup_insert_eq. cbn [mbind option_bind].
        case_decide as Hd.
        -- rewrite lookup_splice_in by (unfold pgsize, PGSIZE in *; lia). f_equal. lia.
        -- rewrite lookup_splice_out by (unfold pgsize, PGSIZE in *; lia). done.
      * unfold m'. rewrite lookup_insert_ne by done. rewrite decide_False; [done |]. intros Hd. apply E.
        unfold pa. f_equal. apply PGROUNDDOWN_same; [lia | lia |]. symmetry.
        pose proof (Z.div_mod a PGSIZE ltac:(done)). apply (Z.div_unique_pos _ _ _ (x - PGROUNDDOWN a)); [| lia].
        unfold PGSIZE in *. lia.
    + rewrite decide_False; [done |]. intros Hd. apply Hn. split; [lia |].
      rewrite (PGROUNDDOWN_same x a); [exact Hpa | lia | lia |]. symmetry.
      pose proof (Z.div_mod a PGSIZE ltac:(done)). apply (Z.div_unique_pos _ _ _ (x - PGROUNDDOWN a)); [| lia].
      unfold PGSIZE in *. lia.
Qed.

(** The bytes of a copy that lie on its first page. *)
Definition first (a : Z) (len : nat) : nat := Z.to_nat (Z.min (PGSIZE - a mod PGSIZE) (Z.of_nat len)).

Lemma first_facts a len : (0 < len)%nat → 0 <= a →
  (0 < first a len ≤ len)%nat ∧ Z.of_nat (first a len) <= PGSIZE - a mod PGSIZE ∧
  ((first a len < len)%nat → PGROUNDDOWN a + PGSIZE = a + Z.of_nat (first a len)).
Proof.
  intros Hl Ha. destruct (page_facts a Ha) as (F1 & F2 & F3 & F4). unfold first. lia.
Qed.

Lemma uaddr_lt m root va : uaddr m root va ≠ 0 → va < MAXVA.
Proof. unfold uaddr. by case_decide. Qed.

Lemma copyout_loop_ok fuel u a src :
  us_wf u → 0 <= a → (length src ≤ fuel)%nat →
  (∀ k : nat, (k < length src)%nat → is_Some (us_byte u (a + Z.of_nat k))) →
  wp (copyout_loop fuel (us_root u) a src) (λ r s', r = 0 ∧ us_wf (Uspace s' (us_root u)) ∧
    ∀ x, us_byte (Uspace s' (us_root u)) x =
      if decide (a <= x < a + Z.of_nat (length src)) then src !! Z.to_nat (x - a) else us_byte u x) (us_pmem u).
Proof.
  assert (HM : MAXVA + PGSIZE < 2 ^ 64) by done.
  revert u a src. induction fuel as [|fuel IH]; intros u a src Hu Ha Hf Hb; cbn [copyout_loop].
  { destruct src; [| simpl in Hf; lia]. rewrite decide_True by done. wp_step. split_and!; [done | by destruct u |].
    intros x. rewrite decide_False by (simpl; lia). by destruct u. }
  destruct src as [|y src']; [| set (src := y :: src') in *].
  { rewrite decide_True by done. wp_step. split_and!; [done | by destruct u |].
    intros x. rewrite decide_False by (simpl; lia). by destruct u. }
  rewrite decide_False by done. destruct (page_facts a Ha) as (F1 & F2 & F3 & F4).
  assert (Hlen : (0 < length src)%nat) by (simpl; lia). destruct (first_facts a (length src) Hlen Ha) as (N1 & N2 & N3).
  set (pa := uaddr (pm_pages (us_pmem u)) (us_root u) (PGROUNDDOWN a)).
  assert (Hpa : pa ≠ 0).
  { intros E. apply (us_byte_None u a Hu Ha) in E. destruct (Hb 0%nat Hlen) as [z Hz]. rewrite Z.add_0_r in Hz. congruence. }
  destruct (uw_page _ Hu (PGROUNDDOWN a) ltac:(lia) Hpa) as [(p & Hp & Hl) _]. fold pa in Hp.
  wp_step. unfold wp at 1. rewrite walkaddr_eq by (apply Hu || lia). fold pa. rewrite decide_False by done.
  wp_step. unfold wp at 1. rewrite (page_of_eq _ _ _ Hp). rewrite F2. wp_step.
  fold (first a (length src)). set (n := first a (length src)) in *.
  assert (Htl : length (take n src) = n) by (rewrite length_take; lia).
  destruct (us_store u a p (take n src) Hu Ha Hpa Hp ltac:(lia)) as [Hu1 Hb1]. fold pa in Hu1, Hb1.
  apply wp_modify. set (u1 := Uspace _ _) in Hu1, Hb1. rewrite Htl in Hb1.
  change (Pmem _ _) with (us_pmem u1). change (us_root u) with (us_root u1).
  destruct (decide (n < length src)%nat) as [Hlt|Hge].
  - assert (u64 (PGROUNDDOWN a + PGSIZE) = a + Z.of_nat n) as ->.
    { rewrite N3 by done. apply Z.mod_small. pose proof (uaddr_lt _ _ _ Hpa). rewrite <- N3 by done. lia. }
    eapply wp_mono; [apply (IH u1 (a + Z.of_nat n) (drop n src) Hu1); rewrite ?length_drop; try lia |].
    { intros k Hk. rewrite Hb1, decide_False by lia. rewrite <- Z.add_assoc, <- Nat2Z.inj_add. apply Hb. lia. }
    intros r s' (-> & Hw' & Hb'). split_and!; [done | done |]. intros x. rewrite Hb', Hb1, length_drop.
    repeat case_decide; try lia; try done.
    + rewrite lookup_drop. f_equal. lia.
    + rewrite lookup_take_lt by lia. done.
  - assert (drop n src = []) as -> by (apply drop_ge; lia).
    destruct fuel; cbn [copyout_loop]; rewrite decide_True by done; wp_step; (split_and!; [done | done |]);
      intros x; rewrite Hb1; rewrite take_ge by lia; (assert (n = length src) as -> by lia); done.
Qed.

Lemma copyout_loop_fault fuel u a src :
  us_wf u → 0 <= a < 2 ^ 64 → (length src ≤ fuel)%nat →
  (∃ k : nat, (k < length src)%nat ∧ us_byte u (a + Z.of_nat k) = None) →
  wp (copyout_loop fuel (us_root u) a src) (λ r _, r = -1) (us_pmem u).
Proof.
  assert (HM : MAXVA + PGSIZE < 2 ^ 64) by done.
  revert u a src. induction fuel as [|fuel IH]; intros u a src Hu Ha Hf (k & Hk & Hb); cbn [copyout_loop]; [lia |].
  rewrite decide_False by (by intros ->; simpl in Hk; lia). destruct (page_facts a ltac:(lia)) as (F1 & F2 & F3 & F4).
  destruct (first_facts a (length src) ltac:(lia) ltac:(lia)) as (N1 & N2 & N3).
  set (pa := uaddr (pm_pages (us_pmem u)) (us_root u) (PGROUNDDOWN a)).
  wp_step. unfold wp at 1. rewrite walkaddr_eq by (apply Hu || lia). fold pa.
  destruct (decide (pa = 0)) as [E|Hpa]; [by wp_step |].
  destruct (uw_page _ Hu (PGROUNDDOWN a) ltac:(lia) Hpa) as [(p & Hp & Hl) _]. fold pa in Hp.
  wp_step. unfold wp at 1. rewrite (page_of_eq _ _ _ Hp). rewrite F2. wp_step.
  fold (first a (length src)). set (n := first a (length src)) in *.
  assert (Htl : length (take n src) = n) by (rewrite length_take; lia).
  destruct (us_store u a p (take n src) Hu ltac:(lia) Hpa Hp ltac:(lia)) as [Hu1 Hb1]. fold pa in Hu1, Hb1.
  apply wp_modify. set (u1 := Uspace _ _) in Hu1, Hb1. rewrite Htl in Hb1.
  change (Pmem _ _) with (us_pmem u1). change (us_root u) with (us_root u1).
  assert (Hkn : (n ≤ k)%nat).
  { destruct (decide (n ≤ k)%nat) as [|Hnk]; [done |]. exfalso.
    rewrite (us_byte_page u a p (Z.of_nat k) Hu ltac:(lia) Hp Hpa ltac:(lia)) in Hb. apply lookup_ge_None_1 in Hb.
    unfold pgsize, PGSIZE in *. lia. }
  pose proof (uaddr_lt _ _ _ Hpa).
  assert (u64 (PGROUNDDOWN a + PGSIZE) = a + Z.of_nat n) as ->.
  { rewrite N3 by lia. apply Z.mod_small. rewrite <- N3 by lia. lia. }
  apply (IH u1 (a + Z.of_nat n) (drop n src) Hu1).
  - rewrite <- N3 by lia. lia.
  - rewrite length_drop. lia.
  - exists (k - n)%nat. rewrite length_drop. split; [lia |]. rewrite Hb1, decide_False by lia.
    rewrite <- Hb. f_equal. lia.
Qed.

(** The page of a mapped byte. *)
Lemma us_page u a x :
  us_wf u → us_byte u a = Some x →
  0 <= a ∧ uaddr (pm_pages (us_pmem u)) (us_root u) (PGROUNDDOWN a) ≠ 0 ∧ PGROUNDDOWN a < MAXVA ∧
  ∃ p, pm_pages (us_pmem u) !! uaddr (pm_pages (us_pmem u)) (us_root u) (PGROUNDDOWN a) = Some p ∧ length p = pgsize.
Proof.
  intros Hu Hx. pose proof (us_byte_range _ _ _ Hx) as [Ha _]. destruct (page_facts a Ha) as (F1 & _).
  assert (Hne : uaddr (pm_pages (us_pmem u)) (us_root u) (PGROUNDDOWN a) ≠ 0).
  { intros E. apply (us_byte_None u a Hu Ha) in E. congruence. }
  split_and!; [done | done | by eapply uaddr_lt |]. apply (uw_page _ Hu); [lia | done].
Qed.

Lemma copyin_loop_ok fuel u a l :
  us_wf u → 0 <= a → (length l ≤ fuel)%nat →
  (∀ (k : nat) x, l !! k = Some x → us_byte u (a + Z.of_nat k) = Some x) →
  copyin_loop fuel (us_root u) a (length l) (us_pmem u) = Ret (0, l) (us_pmem u).
Proof.
  assert (HM : MAXVA + PGSIZE < 2 ^ 64) by done.
  revert a l. induction fuel as [|fuel IH]; intros a l Hu Ha Hf Hb; cbn [copyin_loop].
  { destruct l; [by rewrite decide_True | simpl in Hf; lia]. }
  destruct l as [|y l']; [by rewrite decide_True |]. set (l := y :: l') in *. rewrite decide_False by done.
  assert (Hlen : (0 < length l)%nat) by (simpl; lia).
  pose proof (Hb 0%nat y eq_refl) as Hy. rewrite Z.add_0_r in Hy.
  destruct (us_page u a y Hu Hy) as (_ & Hpa & Hlt & p & Hp & Hl).
  destruct (page_facts a Ha) as (F1 & F2 & F3 & F4). destruct (first_facts a (length l) Hlen Ha) as (N1 & N2 & N3).
  unfold bind at 1. rewrite walkaddr_eq by (apply Hu || lia). rewrite decide_False by done.
  unfold bind at 1. rewrite (page_of_eq _ _ _ Hp), F2. fold (first a (length l)). set (n := first a (length l)) in *.
  assert (Hbytes : slice (Z.to_nat (a mod PGSIZE)) n p = take n l).
  { unfold slice. apply list_eq. intros k. destruct (decide (k < n)%nat) as [Hk|Hk].
    - rewrite !lookup_take_lt, lookup_drop by done. destruct (lookup_lt_is_Some_2 l k ltac:(lia)) as [x Hx].
      rewrite Hx, <- (Hb k x Hx), (us_byte_page u a p (Z.of_nat k) Hu Ha Hp Hpa ltac:(lia)). f_equal. lia.
    - rewrite !lookup_take_ge by lia. done. }
  rewrite Hbytes. destruct (decide (n < length l)%nat) as [Hnl|Hnl].
  - assert (u64 (PGROUNDDOWN a + PGSIZE) = a + Z.of_nat n) as ->.
    { rewrite N3 by done. apply Z.mod_small. rewrite <- N3 by done. lia. }
    unfold bind at 1. replace (length l - n)%nat with (length (drop n l)) by (rewrite length_drop; lia).
    rewrite IH; [unfold ret; by rewrite take_drop | done | lia | rewrite length_drop; lia |].
    intros k x Hk. rewrite lookup_drop in Hk. rewrite <- Z.add_assoc, <- Nat2Z.inj_add. by apply Hb.
  - replace (length l - n)%nat with 0%nat by lia. rewrite (take_ge l) by lia. unfold bind at 1.
    destruct fuel; cbn [copyin_loop]; rewrite decide_True by done; unfold ret; by rewrite app_nil_r.
Qed.

Lemma copyin_loop_fault fuel u a len :
  us_wf u → 0 <= a < 2 ^ 64 → (len ≤ fuel)%nat →
  (∃ k : nat, (k < len)%nat ∧ us_byte u (a + Z.of_nat k) = None) →
  ∃ out, copyin_loop fuel (us_root u) a len (us_pmem u) = Ret (-1, out) (us_pmem u).
Proof.
  assert (HM : MAXVA + PGSIZE < 2 ^ 64) by done.
  revert a len. induction fuel as [|fuel IH]; intros a len Hu Ha Hf (k & Hk & Hb); cbn [copyin_loop]; [lia |].
  rewrite decide_False by lia. destruct (page_facts a ltac:(lia)) as (F1 & F2 & F3 & F4).
  destruct (first_facts a len ltac:(lia) ltac:(lia)) as (N1 & N2 & N3).
  set (pa := uaddr (pm_pages (us_pmem u)) (us_root u) (PGROUNDDOWN a)).
  unfold bind at 1. rewrite walkaddr_eq by (apply Hu || lia). fold pa.
  destruct (decide (pa = 0)) as [E|Hpa]; [by eexists |].
  destruct (uw_page _ Hu (PGROUNDDOWN a) ltac:(lia) Hpa) as [(p & Hp & Hl) _]. fold pa in Hp.
  unfold bind at 1. rewrite (page_of_eq _ _ _ Hp), F2. fold (first a len). set (n := first a len) in *.
  assert (Hkn : (n ≤ k)%nat).
  { destruct (decide (n ≤ k)%nat) as [|Hnk]; [done |]. exfalso.
    rewrite (us_byte_page u a p (Z.of_nat k) Hu ltac:(lia) Hp Hpa ltac:(lia)) in Hb. apply lookup_ge_None_1 in Hb.
    unfold pgsize, PGSIZE in *. lia. }
  pose proof (uaddr_lt _ _ _ Hpa).
  assert (u64 (PGROUNDDOWN a + PGSIZE) = a + Z.of_nat n) as ->.
  { rewrite N3 by lia. apply Z.mod_small. rewrite <- N3 by lia. lia. }
  unfold bind at 1. destruct (IH (a + Z.of_nat n) (len - n)%nat Hu) as [out ->]; [rewrite <- N3 by lia; lia | lia | | by eexists].
  exists (k - n)%nat. split; [lia |]. rewrite <- Hb. f_equal. lia.
Qed.

(** ** The contract *)
#[export] Instance vm_mem_ok : UserMemOk uspace.
Proof.
  refine {| um_wf := us_wf; um_byte := us_byte |}.
  - intros u a x _ Hx. by eapply us_byte_range.
  - intros u va l Hu Hva Hl. simpl. unfold copyin. by rewrite (copyin_loop_ok (length l) u va l).
  - intros u va n Hu Hva Hk. simpl. unfold copyin. by destruct (copyin_loop_fault n u va n Hu Hva ltac:(lia) Hk) as [out ->].
  - intros u va data Hu Hva Hd. simpl. unfold copyout.
    pose proof (copyout_loop_ok (length data) u va data Hu Hva ltac:(lia) Hd) as Hw. unfold wp in Hw.
    destruct (copyout_loop _ _ _ _ _) as [r s'| | |]; try done. destruct Hw as (-> & Hw & Hb). by eexists.
  - intros u va data Hu Hva Hk. simpl. unfold copyout.
    pose proof (copyout_loop_fault (length data) u va data Hu Hva ltac:(lia) Hk) as Hw. unfold wp in Hw.
    destruct (copyout_loop _ _ _ _ _) as [r s'| | |]; done.
Defined.

(** *** [copyinstr] *)
Lemma str_scan_found n p s : (length s < n)%nat → take (S (length s)) p = s ++ [0] → Forall (λ c, c ≠ 0) s →
  str_scan n p = (s, true).
Proof.
  revert n p. induction s as [|x s IH]; intros [|n] [|y p] Hn Hp Hs; simpl in *; simplify_eq; try lia.
  - by rewrite decide_True.
  - apply Forall_cons in Hs as [Hx Hs]. rewrite decide_False by done. by rewrite (IH n p) by (done || lia).
Qed.

Lemma str_scan_none n p : (n ≤ length p)%nat → Forall (λ c, c ≠ 0) (take n p) → str_scan n p = (take n p, false).
Proof.
  revert p. induction n as [|n IH]; intros [|y p] Hn Hs; simpl in *; try done; try lia.
  apply Forall_cons in Hs as [Hx Hs]. rewrite decide_False by done. by rewrite IH by (done || lia).
Qed.

Lemma page_bytes u a p l (n : nat) :
  us_wf u → 0 <= a → uaddr (pm_pages (us_pmem u)) (us_root u) (PGROUNDDOWN a) ≠ 0 →
  pm_pages (us_pmem u) !! uaddr (pm_pages (us_pmem u)) (us_root u) (PGROUNDDOWN a) = Some p →
  Z.of_nat n <= PGSIZE - a mod PGSIZE → (n ≤ length l)%nat →
  (∀ (k : nat) x, l !! k = Some x → us_byte u (a + Z.of_nat k) = Some x) →
  take n (drop (Z.to_nat (a mod PGSIZE)) p) = take n l.
Proof.
  intros Hu Ha Hpa Hp Hn Hl Hb. apply list_eq. intros k. destruct (decide (k < n)%nat) as [Hk|Hk].
  - rewrite !lookup_take_lt, lookup_drop by done. destruct (lookup_lt_is_Some_2 l k ltac:(lia)) as [x Hx].
    pose proof (Z.mod_pos_bound a PGSIZE ltac:(done)).
    rewrite Hx, <- (Hb k x Hx), (us_byte_page u a p (Z.of_nat k) Hu Ha Hp Hpa ltac:(lia)). f_equal. lia.
  - rewrite !lookup_take_ge by lia. done.
Qed.

Lemma copyinstr_loop_ok fuel u a s max :
  us_wf u → 0 <= a → (max ≤ fuel)%nat → (length s < max)%nat → Forall (λ c, c ≠ 0) s →
  (∀ (k : nat) x, (s ++ [0]) !! k = Some x → us_byte u (a + Z.of_nat k) = Some x) →
  copyinstr_loop fuel (us_root u) a max (us_pmem u) = Ret (Some s) (us_pmem u).
Proof.
  assert (HM : MAXVA + PGSIZE < 2 ^ 64) by done.
  revert a s max. induction fuel as [|fuel IH]; intros a s max Hu Ha Hf Hmax Hs Hb; cbn [copyinstr_loop]; [lia |].
  rewrite decide_False by lia.
  destruct (lookup_lt_is_Some_2 (s ++ [0]) 0) as [y Hy0]; [rewrite length_app; simpl; lia |].
  pose proof (Hb 0%nat y Hy0) as Hy. rewrite Z.add_0_r in Hy.
  destruct (us_page u a y Hu Hy) as (_ & Hpa & Hlt & p & Hp & Hl).
  destruct (page_facts a Ha) as (F1 & F2 & F3 & F4). destruct (first_facts a max ltac:(lia) Ha) as (N1 & N2 & N3).
  unfold bind at 1. rewrite walkaddr_eq by (apply Hu || lia). rewrite decide_False by done.
  unfold bind at 1. rewrite (page_of_eq _ _ _ Hp), F2. fold (first a max). set (n := first a max) in *.
  assert (Hpl : (n ≤ length (drop (Z.to_nat (a mod PGSIZE)) p))%nat).
  { rewrite length_drop, Hl. unfold pgsize, PGSIZE in *. lia. }
  destruct (decide (length s < n)%nat) as [Hsn|Hsn].
  - rewrite (str_scan_found n _ s); [done | done | | done].
    rewrite (page_bytes u a p (s ++ [0]) (S (length s))); try done; try lia; [| rewrite length_app; simpl; lia].
    apply take_ge. rewrite length_app. simpl. lia.
  - assert (Htk : take n (drop (Z.to_nat (a mod PGSIZE)) p) = take n s).
    { rewrite (page_bytes u a p (s ++ [0]) n); try done; try lia; [| rewrite length_app; simpl; lia]. apply take_app_le. lia. }
    rewrite (str_scan_none n) by (try done; rewrite Htk; by apply Forall_take). rewrite Htk.
    assert (u64 (PGROUNDDOWN a + PGSIZE) = a + Z.of_nat n) as ->.
    { rewrite N3 by lia. apply Z.mod_small. rewrite <- N3 by lia. lia. }
    unfold bind at 1. rewrite (IH (a + Z.of_nat n) (drop n s) (max - n)%nat); try done; try lia.
    + unfold ret. cbn [fmap option_fmap option_map]. by rewrite take_drop.
    + rewrite length_drop. lia.
    + by apply Forall_drop.
    + intros k x Hk. rewrite <- Z.add_assoc, <- Nat2Z.inj_add. apply Hb. rewrite <- Hk.
      assert (drop n s ++ [0] = drop n (s ++ [0])) as -> by (by rewrite drop_app_le by lia). by rewrite lookup_drop.
Qed.
