(* ===== verification/VmGrow.v ===== *)
(** * Growing a process ([uvmcreate], [uvmalloc] of [kernel/vm.c])

    A new page table maps nothing; every page that [uvmalloc] adds is zero,
    mapped for the user, and takes nothing away from what was there. *)
From S2P Require Import Prelude Params CString Fs UserMem Riscv Kalloc Vm VmProofs VmUser.
Import CString.

(** Linear arithmetic with the page size as a number. *)
Ltac pg := unfold PGSIZE in *; lia.

(** A process's memory and the free list. *)
Record pmem_wf (root : Z) (s : pmem) (l : list Z) : Prop := {
  pu_vrep : vrep root s l;
  pu_us : us_wf (Uspace s root);
  pu_free : ∀ va, 0 <= va → uaddr (pm_pages s) root va ≠ 0 → uaddr (pm_pages s) root va ∉ l;
}.

(** *** An empty table *)
Lemma empty_table m root : m !! root = Some (replicate pgsize 0) → 
  pt_wf m root ∧ (∀ va, vmap m root va = 0) ∧ ∀ x, in_tables m root x → x = root.
Proof.
  intros Hr. assert (Ht : ∀ i, idx i → table_at m root i = None) by (intros; by apply table_at_zero).
  assert (Hl : ∀ i j, idx i → leaf_at m root i j = None) by (intros i j Hi; unfold leaf_at; by rewrite Ht).
  split_and!.
  - split.
    + eexists. split; [done | apply length_replicate].
    + intros i p Hi. by rewrite Ht.
    + intros i i' p Hi Hi'. by rewrite Ht.
    + intros i j q Hi Hj. by rewrite Hl.
    + intros i j i' j' q Hi Hj Hi' Hj'. by rewrite Hl.
  - intros va. unfold vmap. by rewrite Hl by apply PX_idx.
  - intros x [-> | [(i & Hi & E) | (i & j & Hi & Hj & E)]]; [done | by rewrite Ht in E | by rewrite Hl in E].
Qed.

Lemma uvmcreate_spec s l :
  krep s l →
  wp uvmcreate (λ r s', match l with
    | [] => r = 0 ∧ s' = s
    | root :: l' => r = root ∧ pmem_wf root s' l' ∧ (∀ va, vmap (pm_pages s') root va = 0) ∧
        ∀ x, x ≠ root → pm_pages s' !! x = pm_pages s !! x
    end) s.
Proof.
  intros Hk. unfold uvmcreate. wp_step. eapply wp_mono; [by apply kalloc_spec |]. intros r s1. destruct l as [|x l].
  { intros [-> ->]. rewrite decide_True by done. by wp_step. }
  intros (-> & Hk1 & Epg). pose proof (kr_range _ _ Hk) as [[Hn Ha] _]%Forall_cons.
  pose proof (kr_nodup _ _ Hk) as [Hnl _]%NoDup_cons. rewrite decide_False by lia. wp_step.
  apply wp_memset_page with (replicate pgsize 5); [by rewrite Epg, lookup_insert_eq | apply length_replicate |].
  rewrite Epg, insert_insert_eq. wp_step.
  destruct (empty_table (<[x := replicate pgsize 0]> (pm_pages s)) x) as (W & V & T); [apply lookup_insert_eq |].
  assert (Hua : ∀ va, uaddr (<[x := replicate pgsize 0]> (pm_pages s)) x va = 0).
  { intros va. unfold uaddr. case_decide; [| done]. by rewrite V. }
  cbn [pm_pages]. split_and!; [done | | done | intros y Hy; by rewrite lookup_insert_ne].
  split; cbn [pm_pages].
  - split; cbn [pm_pages]; [| done |].
    + destruct Hk1 as [R1 R2 R3]. split; cbn [pm_pages kmem_freelist]; [| done | done].
      rewrite Epg in R1. apply (list_at_insert _ _ _ x (replicate pgsize 0)) in R1; [| done]. by rewrite insert_insert_eq in R1.
    + intros y Hy Hin. apply T in Hin. by subst.
  - split; cbn [us_pmem us_root pm_pages]; [done | |].
    + intros va Hva. by rewrite Hua.
    + intros va va' Hva Hva'. by rewrite Hua.
  - intros va Hva. by rewrite Hua.
Qed.

(** *** One more page *)
Definition uperm : Z := Z.lor PTE_W (Z.lor PTE_X (Z.lor PTE_R PTE_U)).

Lemma user_pte_new pa : 0 <= pa < 2 ^ 56 → pa mod PGSIZE = 0 →
  user_pte (Z.lor (Z.lor (PA2PTE pa) uperm) PTE_V) = true ∧ PTE2PA (Z.lor (Z.lor (PA2PTE pa) uperm) PTE_V) = pa.
Proof.
  intros Hpa Ha. rewrite <- Z.lor_assoc. split.
  - unfold user_pte, PTE_V at 1, PTE_U at 1. rewrite !has_low by lia. done.
  - apply PTE2PA_lor; [lia | done | done].
Qed.

Lemma npages_one a : a mod PGSIZE = 0 → npages a PGSIZE = 1%nat.
Proof.
  intros Ha. unfold npages. pose proof (Z.div_mod a PGSIZE ltac:(done)) as Hd. rewrite Ha, Z.add_0_r in Hd.
  assert ((a + PGSIZE - 1) / PGSIZE = a / PGSIZE) as ->; [| lia].
  symmetry. apply (Z.div_unique_pos _ _ _ (PGSIZE - 1)); [done | lia].
Qed.

(** The page of [a] mapped to [mem]. *)
Lemma grow_page root s l a mem s' l' used :
  pmem_wf root s l → mem ∉ l → ¬ in_tables (pm_pages s) root mem → 0 < mem < 2 ^ 56 → mem mod PGSIZE = 0 →
  (∀ va, 0 <= va → uaddr (pm_pages s) root va ≠ mem) →
  pm_pages s !! mem = Some (replicate pgsize 0) → 0 <= a → a mod PGSIZE = 0 → a + PGSIZE <= MAXVA →
  mapped_to root s l a mem uperm 1 s' l' used →
  pmem_wf root s' l' ∧
  (∀ va, 0 <= va → uaddr (pm_pages s') root va = if decide (a <= va < a + PGSIZE) then mem else uaddr (pm_pages s) root va) ∧
  ∀ x, us_byte (Uspace s' root) x =
    if decide (a <= x < a + PGSIZE) then Some 0 else us_byte (Uspace s root) x.
Proof.
  intros [Hv Hu Hfr] Hml Hmt Hm Hma Hmu Hz Ha Hal Hend [M1 M2 M3 M4 M5].
  pose proof (user_pte_new mem ltac:(lia) Hma) as [Eu Epa].
  assert (Hua : ∀ va, 0 <= va → uaddr (pm_pages s') root va =
    if decide (a <= va < a + PGSIZE) then mem else uaddr (pm_pages s) root va).
  { intros va Hva. unfold uaddr. destruct (decide (va < MAXVA)) as [Hlt|Hge].
    - rewrite M3 by lia. change (Z.of_nat 1) with 1. rewrite Z.mul_1_r. case_decide as Hd; [| done].
      assert (PGROUNDDOWN va = a) as ->.
      { rewrite PGROUNDDOWN_eq. rewrite <- (Z.div_unique_pos va PGSIZE (a / PGSIZE) (va - a)).
        - pose proof (Z.div_mod a PGSIZE ltac:(done)). lia.
        - lia.
        - pose proof (Z.div_mod a PGSIZE ltac:(done)). lia. }
      rewrite Z.sub_diag, Z.add_0_r, Eu, Epa. done.
    - rewrite decide_False by lia. done. }
  assert (Hmt' : ¬ in_tables (pm_pages s') root mem).
  { rewrite M4. intros [|Hin]; [done |]. apply Hml. rewrite M1. apply elem_of_app. by left. }
  assert (Hkeep : ∀ va, 0 <= va → uaddr (pm_pages s) root va ≠ 0 →
    ¬ in_tables (pm_pages s') root (uaddr (pm_pages s) root va)).
  { intros va Hva Hne. rewrite M4. intros [Hin|Hin]; [by apply (uw_page _ Hu va) in Hin |].
    apply (Hfr va Hva Hne). rewrite M1. apply elem_of_app. by left. }
  assert (Hpg : ∀ va, 0 <= va → uaddr (pm_pages s) root va ≠ 0 →
    pm_pages s' !! uaddr (pm_pages s) root va = pm_pages s !! uaddr (pm_pages s) root va).
  { intros va Hva Hne. apply M5. by apply Hkeep. }
  split; [split | split; [done |]].
  - done.
  - split; cbn [us_pmem us_root].
    + apply M2.
    + intros va Hva. rewrite Hua by done. case_decide.
      * intros _. split; [| done]. exists (replicate pgsize 0). rewrite M5 by done. split; [done | apply length_replicate].
      * intros Hne. split; [| by apply Hkeep]. destruct (uw_page _ Hu va Hva Hne) as [(p & Hp & Hl) _].
        exists p. cbn [us_pmem us_root] in Hp. by rewrite Hpg.
    + intros va va' Hva Hva'. rewrite !Hua by done. repeat case_decide; intros Hne E.
      * assert (∀ x, a <= x < a + PGSIZE → x / PGSIZE = a / PGSIZE) as Hq; [| by rewrite (Hq va), (Hq va')].
        intros x Hx. symmetry. apply (Z.div_unique_pos _ _ _ (x - a)); [lia |].
        pose proof (Z.div_mod a PGSIZE ltac:(done)). lia.
      * by destruct (Hmu va' Hva').
      * by destruct (Hmu va Hva).
      * by apply Hu.
  - intros va Hva. rewrite Hua by done. case_decide.
    + intros _ Hin. apply Hml. rewrite M1. apply elem_of_app. by right.
    + intros Hne Hin. apply (Hfr va Hva Hne). rewrite M1. apply elem_of_app. by right.
  - intros x. unfold us_byte. cbn [us_pmem us_root]. destruct (decide (0 <= x)) as [Hx|Hx].
    2:{ rewrite !decide_False by (intros; lia). done. }
    destruct (page_facts x Hx) as (X1 & X2 & X3 & X4). rewrite Hua by lia.
    assert (Hiff : a <= PGROUNDDOWN x < a + PGSIZE ↔ a <= x < a + PGSIZE).
    { pose proof (Z.div_mod a PGSIZE ltac:(done)) as Hd. rewrite X4 in *. unfold PGSIZE in *. lia. }
    destruct (decide (a <= x < a + PGSIZE)) as [Hin|Hout].
    + rewrite (decide_True (P := a <= PGROUNDDOWN x < a + PGSIZE)) by tauto. rewrite decide_True by (split; [done | lia]).
      rewrite M5, Hz by done. cbn [mbind option_bind]. apply lookup_replicate_2. unfold pgsize, PGSIZE in *. lia.
    + rewrite (decide_False (P := a <= PGROUNDDOWN x < a + PGSIZE)) by tauto. case_decide as Hd; [| done].
      rewrite Hpg by (lia || tauto). done.
Qed.

(** *** One page less *)
Lemma PTE2PA_aligned pte : PTE2PA pte mod PGSIZE = 0.
Proof.
  unfold PTE2PA, u64. rewrite Z.shiftl_mul_pow2 by lia. change PGSIZE with (2 ^ 12).
  rewrite Z.mod_mod_divide by (exists (2 ^ 52); lia). by apply Z_mod_mult.
Qed.

Lemma uaddr_page m root va va' : 0 <= va → 0 <= va' → va / PGSIZE = va' / PGSIZE → uaddr m root va = uaddr m root va'.
Proof.
  intros Hva Hva' E. unfold uaddr. rewrite (vmap_page m root va va' E).
  assert (HM : MAXVA = PGSIZE * (MAXVA / PGSIZE)) by done.
  pose proof (Z.div_mod va PGSIZE ltac:(done)). pose proof (Z.div_mod va' PGSIZE ltac:(done)).
  pose proof (Z.mod_pos_bound va PGSIZE ltac:(done)). pose proof (Z.mod_pos_bound va' PGSIZE ltac:(done)).
  repeat case_decide; try done; unfold PGSIZE in *; lia.
Qed.

(** The state after the page of [a], at [pa], was freed and its entry cleared. *)
Lemma shrink_page root s l a pa s' :
  pmem_wf root s l → 0 <= a → pa = uaddr (pm_pages s) root a → pa ≠ 0 →
  krep s' (pa :: l) → pt_wf (pm_pages s') root →
  (∀ x, in_tables (pm_pages s') root x ↔ in_tables (pm_pages s) root x) →
  (∀ va, 0 <= va < MAXVA → vmap (pm_pages s') root va =
     if decide (va / PGSIZE = a / PGSIZE) then 0 else vmap (pm_pages s) root va) →
  (∀ x, x ≠ pa → ¬ in_tables (pm_pages s) root x → pm_pages s' !! x = pm_pages s !! x) →
  pmem_wf root s' (pa :: l) ∧
  (∀ va, 0 <= va → uaddr (pm_pages s') root va = if decide (va / PGSIZE = a / PGSIZE) then 0 else uaddr (pm_pages s) root va) ∧
  ∀ x, us_byte (Uspace s' root) x =
    if decide (0 <= x ∧ x / PGSIZE = a / PGSIZE) then None else us_byte (Uspace s root) x.
Proof.
  intros [Hv Hu Hfr] Ha Epa Hpa Hk W T V O. destruct (uw_page _ Hu a Ha) as [_ Hnt]; [cbn; congruence |].
  cbn [us_pmem us_root] in Hnt. rewrite <- Epa in Hnt.
  assert (Hua : ∀ va, 0 <= va → uaddr (pm_pages s') root va =
    if decide (va / PGSIZE = a / PGSIZE) then 0 else uaddr (pm_pages s) root va).
  { intros va Hva. unfold uaddr. case_decide as Hlt; [| by destruct (decide (va / PGSIZE = a / PGSIZE))].
    rewrite V by lia. by destruct (decide (va / PGSIZE = a / PGSIZE)). }
  assert (Hpg : ∀ va, 0 <= va → va / PGSIZE ≠ a / PGSIZE → uaddr (pm_pages s) root va ≠ 0 →
    uaddr (pm_pages s) root va ≠ pa ∧ pm_pages s' !! uaddr (pm_pages s) root va = pm_pages s !! uaddr (pm_pages s) root va).
  { intros va Hva Hd Hne. assert (uaddr (pm_pages s) root va ≠ pa) as Hx.
    { intros E. apply Hd. apply (uw_inj _ Hu va a Hva Ha); cbn [us_pmem us_root]; [done | by rewrite E]. }
    split; [done |]. apply O; [done |]. by apply (uw_page _ Hu va). }
  split; [split |]; [| | | split; [done |]].
  - split; [done | done |]. intros x Hx. rewrite T. apply elem_of_cons in Hx as [->|Hx]; [done | by apply (vr_disj _ _ _ Hv)].
  - split; cbn [us_pmem us_root]; [done | |].
    + intros va Hva. rewrite Hua by done. case_decide as Hd; [done |]. intros Hne. destruct (Hpg va Hva Hd Hne) as [_ E].
      destruct (uw_page _ Hu va Hva Hne) as [(p & Hp & Hl) Hn]. split; [exists p; by rewrite E | by rewrite T].
    + intros va va' Hva Hva'. rewrite !Hua by done. repeat case_decide; intros Hne E; try done; first [congruence | by apply Hu].
  - intros va Hva. rewrite Hua by done. case_decide as Hd; [done |]. intros Hne Hin. apply elem_of_cons in Hin as [E|Hin].
    + by destruct (Hpg va Hva Hd Hne).
    + by apply (Hfr va).
  - intros x. unfold us_byte. cbn [us_pmem us_root]. destruct (decide (0 <= x)) as [Hx|Hx].
    2:{ rewrite !decide_False by (intros; lia). done. }
    destruct (page_facts x Hx) as (X1 & X2 & X3 & X4). rewrite Hua by lia.
    assert (PGROUNDDOWN x / PGSIZE = x / PGSIZE) as -> by (rewrite X4, Z.mul_comm; by apply Z_div_mult_full).
    destruct (decide (x / PGSIZE = a / PGSIZE)) as [Hd|Hd].
    + rewrite decide_False by tauto. by rewrite decide_True.
    + rewrite (decide_False (P := 0 <= x ∧ x / PGSIZE = a / PGSIZE)) by tauto. case_decide as Hn; [| done].
      destruct (Hpg (PGROUNDDOWN x)) as [_ ->]; [lia | | tauto | done].
      by rewrite X4, Z.mul_comm, Z_div_mult_full.
Qed.

Lemma unmap_page kend root s l a :
  pmem_wf root s l → 0 <= a < MAXVA → let pa := uaddr (pm_pages s) root a in
  pa ≠ 0 → 0 < kend <= pa → pa < PHYSTOP →
  ∃ q, leaf_at (pm_pages s) root (PX 2 a) (PX 1 a) = Some q ∧
  wp (kfree kend pa;; write_pte q (PX 0 a) 0) (λ _ s', pmem_wf root s' (pa :: l) ∧
    (∀ va, 0 <= va → uaddr (pm_pages s') root va = if decide (va / PGSIZE = a / PGSIZE) then 0 else uaddr (pm_pages s) root va) ∧
    (∀ x, us_byte (Uspace s' root) x =
      if decide (0 <= x ∧ x / PGSIZE = a / PGSIZE) then None else us_byte (Uspace s root) x) ∧
    ∀ va, 0 <= va < MAXVA → va / PGSIZE ≠ a / PGSIZE → vmap (pm_pages s') root va = vmap (pm_pages s) root va) s.
Proof.
  intros Hpw Ha pa Hpa Hk Hph. pose proof Hpw as [Hv Hu Hfr].
  destruct (uw_page _ Hu a ltac:(lia) Hpa) as [Hpp Hnt]. cbn [us_pmem us_root] in Hpp, Hnt. fold pa in Hpp, Hnt.
  assert (∃ q, leaf_at (pm_pages s) root (PX 2 a) (PX 1 a) = Some q) as [q Hq].
  { unfold pa, uaddr, vmap in Hpa. destruct (leaf_at _ _ _ _) as [q|]; [eauto |]. by case_decide. }
  exists q. split; [done |]. pose proof (vr_wf _ _ _ Hv) as W.
  assert (Hqt : in_tables (pm_pages s) root q) by (right; right; eexists _, _; split_and!; [apply PX_idx.. | done]).
  assert (Hal : pa mod PGSIZE = 0).
  { unfold pa, uaddr. case_decide; [| done]. destruct (user_pte _); [apply PTE2PA_aligned | done]. }
  wp_step. eapply wp_mono; [apply (kfree_spec kend s l pa (vr_free _ _ _ Hv)); try done; by apply Hfr; [lia |] |].
  intros [] s1 [Hk1 Hsame]. cbv beta.
  assert (Hst : ∀ x, in_tables (pm_pages s) root x → pm_pages s1 !! x = pm_pages s !! x) by (intros x Hx; apply Hsame; by intros ->).
  pose proof (outside_wf _ _ _ W Hst) as W1.
  assert (Hq1 : leaf_at (pm_pages s1) root (PX 2 a) (PX 1 a) = Some q) by (by rewrite (outside_leaf (pm_pages s)) by (done || apply PX_idx)).
  destruct (pw_leaf _ _ W1 _ _ _ (PX_idx _ _) (PX_idx _ _) Hq1) as ((p & Hp & Hl) & _).
  apply wp_write_pte with p; [done |].
  set (p' := st64 _ 0 p). assert (Hl' : length p' = pgsize) by (apply st64_length; [done | apply PX_idx]).
  destruct (leaf_write_kept _ root _ _ q p' W1 (PX_idx _ _) (PX_idx _ _) Hq1 Hl') as (Hmid & Hlf & W2).
  assert (Hvm : ∀ va, 0 <= va < MAXVA → vmap (<[q := p']> (pm_pages s1)) root va =
    if decide (va / PGSIZE = a / PGSIZE) then 0 else vmap (pm_pages s) root va).
  { intros va Hva. unfold p'. rewrite (vmap_store _ root a q p 0 va) by (done || lia).
    by rewrite (outside_vmap (pm_pages s)). }
  assert (Hand : ∀ A B C D : Prop, (A ∧ B ∧ C) → D → A ∧ B ∧ C ∧ D) by tauto. apply Hand.
  2:{ cbn [pm_pages]. intros va Hva Hd. rewrite Hvm by done. by rewrite decide_False. }
  apply (shrink_page root s l a pa); try done; cbn [pm_pages].
  - lia.
  - destruct Hk1 as [R1 R2 R3]. split; cbn [pm_pages kmem_freelist]; [| done | done].
    apply list_at_insert; [| done]. intros Hin. apply elem_of_cons in Hin as [->|Hin]; [done |].
    by apply (vr_disj _ _ _ Hv q).
  - intros x. rewrite <- (outside_tables (pm_pages s) (pm_pages s1)) by done. unfold in_tables.
    split; (intros [-> | [(i & Hi & Ht) | (i & j & Hi & Hj & Ht)]]; [by left | right; left; exists i |
      right; right; exists i, j]); [rewrite Hmid in Ht by done | rewrite Hlf in Ht by done | rewrite Hmid by done | rewrite Hlf by done]; done.
  - intros x Hx Hnx. rewrite lookup_insert_ne by (by intros <-). by apply Hsame.
Qed.

(** *** [uvmunmap] *)
Lemma user_pte_flags pte : user_pte pte = true → PTE_FLAGS pte ≠ PTE_V.
Proof.
  unfold user_pte, PTE_U. rewrite (has_testbit 4) by lia. intros [_ Hb]%andb_true_iff E.
  assert (Z.testbit (PTE_FLAGS pte) 4 = true) as Hf; [| by rewrite E in Hf].
  unfold PTE_FLAGS. rewrite Z.land_spec, Hb. done.
Qed.

Lemma div_aligned a : a mod PGSIZE = 0 → a = PGSIZE * (a / PGSIZE).
Proof. intros H. pose proof (Z.div_mod a PGSIZE ltac:(done)). lia. Qed.

Lemma uvmunmap_loop_spec kend root n fuel s l a :
  pmem_wf root s l → 0 < kend → 0 <= a → a mod PGSIZE = 0 → a + PGSIZE * Z.of_nat n <= MAXVA → (n ≤ fuel)%nat →
  (∀ va, a <= va < a + PGSIZE * Z.of_nat n → uaddr (pm_pages s) root va ≠ 0 ∧ kend <= uaddr (pm_pages s) root va < PHYSTOP) →
  wp (uvmunmap_loop fuel kend root a (a + PGSIZE * Z.of_nat n) true) (λ _ s', ∃ l', pmem_wf root s' (l' ++ l) ∧
    length l' = n ∧
    (∀ x, x ∈ l' → ∃ va, a <= va < a + PGSIZE * Z.of_nat n ∧ x = uaddr (pm_pages s) root va) ∧
    (∀ x, us_byte (Uspace s' root) x =
      if decide (a <= x < a + PGSIZE * Z.of_nat n) then None else us_byte (Uspace s root) x) ∧
    ∀ va, 0 <= va < MAXVA → ¬ (a <= va < a + PGSIZE * Z.of_nat n) →
      vmap (pm_pages s') root va = vmap (pm_pages s) root va) s.
Proof.
  assert (HM : MAXVA < 2 ^ 63) by done. assert (Hpos : 0 < PGSIZE) by done.
  revert n s l a. induction fuel as [|fuel IH]; intros n s l a Hpw Hk Ha Hal Hend Hf Hm.
  { assert (n = 0%nat) as -> by lia. cbn [uvmunmap_loop]. rewrite decide_False by lia. wp_step. exists []. split_and!; try done.
    - intros x Hx. by apply not_elem_of_nil in Hx.
    - intros x. by rewrite decide_False by lia. }
  cbn [uvmunmap_loop]. destruct n as [|n].
  { rewrite decide_False by lia. wp_step. exists []. split_and!; try done.
    - intros x Hx. by apply not_elem_of_nil in Hx.
    - intros x. by rewrite decide_False by lia. }
  rewrite decide_True by pg. destruct (Hm a ltac:(pg)) as [Hne Hrg].
  destruct (unmap_page kend root s l a Hpw ltac:(pg) Hne ltac:(lia) ltac:(lia)) as (q & Hq & Hw).
  pose proof (vr_wf _ _ _ (pu_vrep _ _ _ Hpw)) as W. wp_step. unfold wp at 1. rewrite walk_read by (done || pg).
  rewrite Hq. cbn [fmap option_fmap option_map]. wp_step.
  apply wp_read_pte; [by apply (pw_leaf _ _ W _ _ _ (PX_idx _ _) (PX_idx _ _) Hq) |]. cbv beta.
  assert (pte_get (pm_pages s) q (PX 0 a) = vmap (pm_pages s) root a) as -> by (unfold vmap; by rewrite Hq).
  assert (Hup : user_pte (vmap (pm_pages s) root a) = true ∧ PTE2PA (vmap (pm_pages s) root a) = uaddr (pm_pages s) root a).
  { unfold uaddr in Hne |- *. rewrite decide_True in Hne |- * by pg.
    destruct (user_pte _); [split; reflexivity | by destruct Hne]. }
  destruct Hup as [Hup Epa]. pose proof (user_pte_flags _ Hup) as Hfl.
  unfold user_pte in Hup. apply andb_true_iff in Hup as [-> _]. cbn [negb]. rewrite decide_False by done. rewrite Epa.
  unfold wp, bind in Hw |- *. destruct (kfree kend _ s) as [[] s1| | |]; try done.
  destruct (write_pte q (PX 0 a) 0 s1) as [[] s2| | |]; try done. destruct Hw as (Hpw2 & Hua2 & Hb2 & Hv2).
  set (pa := uaddr (pm_pages s) root a) in *.
  assert (u64 (a + PGSIZE) = a + PGSIZE) as -> by (apply Z.mod_small; pg).
  replace (a + PGSIZE * Z.of_nat (S n)) with (a + PGSIZE + PGSIZE * Z.of_nat n) by pg.
  pose proof (div_aligned a Hal) as Hda.
  assert (Hdiv : ∀ x, 0 <= x → x / PGSIZE = a / PGSIZE ↔ a <= x < a + PGSIZE).
  { intros x Hx. pose proof (Z.div_mod x PGSIZE ltac:(lia)). pose proof (Z.mod_pos_bound x PGSIZE ltac:(lia)). unfold PGSIZE in *. lia. }
  change (wp (uvmunmap_loop fuel kend root (a + PGSIZE) (a + PGSIZE + PGSIZE * Z.of_nat n) true) (λ _ s', ∃ l' : list Z,
    pmem_wf root s' (l' ++ l) ∧ length l' = S n ∧
    (∀ x, x ∈ l' → ∃ va, a <= va < a + PGSIZE + PGSIZE * Z.of_nat n ∧ x = uaddr (pm_pages s) root va) ∧
    (∀ x, us_byte (Uspace s' root) x =
      if decide (a <= x < a + PGSIZE + PGSIZE * Z.of_nat n) then None else us_byte (Uspace s root) x) ∧
    ∀ va, 0 <= va < MAXVA → ¬ (a <= va < a + PGSIZE + PGSIZE * Z.of_nat n) →
      vmap (pm_pages s') root va = vmap (pm_pages s) root va) s2).
  eapply wp_mono; [apply (IH n s2 (pa :: l) (a + PGSIZE)); try done; try pg |].
  - rewrite <- Zplus_mod_idemp_r, Z.mod_same, Z.add_0_r by lia. done.
  - intros va Hva. rewrite Hua2 by pg. rewrite decide_False by (rewrite Hdiv by pg; lia). apply Hm. pg.
  - intros [] s3 (l' & Hpw3 & Hl3 & Hin3 & Hb3 & Hv3). exists (l' ++ [pa]). rewrite <- app_assoc. split_and!; [done | | | |].
    + rewrite length_app, Hl3. simpl. lia.
    + intros x Hx. apply elem_of_app in Hx as [Hx | ->%list_elem_of_singleton]; [| exists a; split; [pg | done]].
      destruct (Hin3 x Hx) as (va & Hva & E). exists va. split; [lia |]. rewrite E, Hua2 by pg.
      by rewrite decide_False by (rewrite Hdiv by pg; lia).
    + intros x. rewrite Hb3, Hb2. rewrite (decide_ext (0 <= x ∧ x / PGSIZE = a / PGSIZE) (a <= x < a + PGSIZE)).
      * repeat case_decide; try done; pg.
      * split; [intros [Hx Hd]; by apply Hdiv | intros Hx; split; [lia | apply Hdiv; lia]].
    + intros va Hva Hout. rewrite Hv3, Hv2 by (try rewrite Hdiv; lia || pg). done.
Qed.

(** *** [uvmalloc] *)

(** The pages from [lo] up to [a] belong to the process and lie in the
    allocator's range. *)
Definition own_pages (kend root : Z) (s : pmem) (lo a : Z) : Prop :=
  ∀ va, lo <= va < a → uaddr (pm_pages s) root va ≠ 0 ∧ kend <= uaddr (pm_pages s) root va < PHYSTOP.

Lemma uvmdealloc_spec kend root s l lo a :
  pmem_wf root s l → 0 < kend → 0 <= lo <= a → lo mod PGSIZE = 0 → a mod PGSIZE = 0 → a <= MAXVA → own_pages kend root s lo a →
  wp (uvmdealloc kend root a lo) (λ _ s', ∃ l', pmem_wf root s' l' ∧
    (∀ x, us_byte (Uspace s' root) x = if decide (lo <= x < a) then None else us_byte (Uspace s root) x) ∧
    ∀ va, 0 <= va < MAXVA → ¬ (lo <= va < a) → vmap (pm_pages s') root va = vmap (pm_pages s) root va) s.
Proof.
  intros Hpw Hk Hlo Hal Haa Hend Hown. assert (HM : MAXVA < 2 ^ 38 + 1) by done. unfold uvmdealloc. case_decide as Hge.
  { wp_step. exists l. split; [done |]. split; [| done]. intros x. by rewrite decide_False by lia. }
  assert (Hup : ∀ x, 0 <= x <= MAXVA → x mod PGSIZE = 0 → PGROUNDUP x = x).
  { intros x Hx Hxa. rewrite PGROUNDUP_eq by pg. pose proof (div_aligned x Hxa) as Hd.
    rewrite <- (Z.div_unique_pos (x + PGSIZE - 1) PGSIZE (x / PGSIZE) (PGSIZE - 1)) by pg. lia. }
  rewrite !Hup by (done || lia). rewrite decide_True by lia.
  pose proof (div_aligned lo Hal) as Hdl. pose proof (div_aligned a Haa) as Hda.
  set (n := Z.to_nat (a / PGSIZE - lo / PGSIZE)).
  assert (Hn : a = lo + PGSIZE * Z.of_nat n) by pg.
  assert (Hnp : s32 (u64 (a - lo) / PGSIZE) = Z.of_nat n).
  { unfold u64. rewrite Z.mod_small by lia. replace (a - lo) with (Z.of_nat n * PGSIZE) by lia.
    rewrite Z_div_mult_full by done. apply s32_small. pg. }
  rewrite Hnp. unfold uvmunmap. wp_step. rewrite decide_False by lia.
  assert (u64 (lo + Z.of_nat n * PGSIZE) = lo + PGSIZE * Z.of_nat n) as -> by (rewrite Z.mul_comm; apply Z.mod_small; lia).
  eapply wp_mono; [apply (uvmunmap_loop_spec kend root n); try done; try lia |].
  { intros va Hva. apply Hown. lia. }
  intros [] s1 (l' & Hpw1 & _ & _ & Hb1 & Hv1). cbv beta. wp_step. exists (l' ++ l). split; [done |]. by rewrite Hn.
Qed.

(** What a call in progress, at [a], has made of the process's memory; the
    call may use the addresses below [top]. *)
Record growing (kend root : Z) (s0 : pmem) (lo top a : Z) (s : pmem) (l : list Z) : Prop := {
  gw_wf : pmem_wf root s l;
  gw_own : own_pages kend root s lo a;
  gw_free : ∀ va, a <= va → va < top → has PTE_V (vmap (pm_pages s) root va) = false;
  gw_list : Forall (λ x, kend <= x < PHYSTOP) l;
  gw_byte : ∀ x, us_byte (Uspace s root) x = if decide (lo <= x < a) then Some 0 else us_byte (Uspace s0 root) x;
  gw_kept : ∀ va, 0 <= va < MAXVA → ¬ (lo <= va < a) → vmap (pm_pages s) root va = vmap (pm_pages s0) root va;
}.

(** The translations outside [lo .. hi) are those of [s0]. *)
Definition kept (root : Z) (s0 : pmem) (lo hi : Z) (s : pmem) : Prop :=
  ∀ va, 0 <= va < MAXVA → ¬ (lo <= va < hi) → vmap (pm_pages s) root va = vmap (pm_pages s0) root va.

(** Putting a page back that was taken from the free list. *)
Lemma give_back kend root s l x p :
  pmem_wf root s l → pm_pages s !! x = Some p → length p = pgsize → x ∉ l → ¬ in_tables (pm_pages s) root x →
  (∀ va, 0 <= va → uaddr (pm_pages s) root va ≠ x) → 0 < kend <= x → x < PHYSTOP → x mod PGSIZE = 0 →
  wp (kfree kend x) (λ _ s', pmem_wf root s' (x :: l) ∧ (∀ va, uaddr (pm_pages s') root va = uaddr (pm_pages s) root va) ∧
    (∀ va, vmap (pm_pages s') root va = vmap (pm_pages s) root va) ∧
    ∀ y, us_byte (Uspace s' root) y = us_byte (Uspace s root) y) s.
Proof.
  intros [Hv Hu Hfr] Hp Hl Hxl Hxt Hxu Hk Hph Hal.
  eapply wp_mono; [apply (kfree_spec kend s l x (vr_free _ _ _ Hv)); try done; by exists p |].
  intros [] s' [Hk' Hsame].
  assert (Hst : ∀ y, in_tables (pm_pages s) root y → pm_pages s' !! y = pm_pages s !! y) by (intros y Hy; apply Hsame; by intros ->).
  assert (Hvm : ∀ va, vmap (pm_pages s') root va = vmap (pm_pages s) root va) by (intros; by apply outside_vmap).
  assert (Hua : ∀ va, uaddr (pm_pages s') root va = uaddr (pm_pages s) root va) by (intros va; unfold uaddr; by rewrite Hvm).
  assert (Hpg : ∀ va, 0 <= va → pm_pages s' !! uaddr (pm_pages s) root va = pm_pages s !! uaddr (pm_pages s) root va).
  { intros va Hva. apply Hsame. by apply Hxu. }
  split_and!; [split | done | done |].
  - split; [done | by apply (outside_wf (pm_pages s)); [apply Hv |] |].
    intros y Hy. rewrite (outside_tables (pm_pages s)) by done.
    apply elem_of_cons in Hy as [->|Hy]; [done | by apply (vr_disj _ _ _ Hv)].
  - split; cbn [us_pmem us_root].
    + apply (outside_wf (pm_pages s)); [apply Hv | done].
    + intros va Hva. rewrite Hua. intros Hne. destruct (uw_page _ Hu va Hva Hne) as [(q & Hq & Hlq) Hn].
      split; [exists q; by rewrite Hpg | by rewrite (outside_tables (pm_pages s))].
    + intros va va' Hva Hva'. rewrite !Hua. by apply Hu.
  - intros va Hva. rewrite Hua. intros Hne Hin. apply elem_of_cons in Hin as [E|Hin]; [by apply (Hxu va) | by apply (Hfr va)].
  - intros y. unfold us_byte. cbn [us_pmem us_root]. rewrite Hua. case_decide as Hd; [| done].
    destruct (page_facts y ltac:(tauto)) as (Y1 & _). by rewrite Hpg by lia.
Qed.

(** Memory whose user part is the same: same user pages at the same places. *)
Lemma same_uaddr root s l s' l' :
  pmem_wf root s l → vrep root s' l' → (∀ x, x ∈ l' → x ∈ l) →
  (∀ va, 0 <= va → uaddr (pm_pages s') root va = uaddr (pm_pages s) root va) →
  (∀ x, in_tables (pm_pages s') root x → in_tables (pm_pages s) root x ∨ x ∈ l) →
  (∀ va, 0 <= va → uaddr (pm_pages s) root va ≠ 0 →
    pm_pages s' !! uaddr (pm_pages s) root va = pm_pages s !! uaddr (pm_pages s) root va) →
  pmem_wf root s' l' ∧ ∀ x, us_byte (Uspace s' root) x = us_byte (Uspace s root) x.
Proof.
  intros [Hv Hu Hfr] Hv' Hl Hua Ht Hpg. split; [split |].
  - done.
  - split; cbn [us_pmem us_root]; [apply Hv' | |].
    + intros va Hva. rewrite Hua by done. intros Hne. destruct (uw_page _ Hu va Hva Hne) as [(q & Hq & Hlq) Hn].
      split; [exists q; by rewrite Hpg |]. intros [Hin|Hin]%Ht; [done | by apply (Hfr va)].
    + intros va va' Hva Hva'. rewrite !Hua by done. by apply Hu.
  - intros va Hva. rewrite Hua by done. intros Hne Hin%Hl. by apply (Hfr va).
  - intros y. unfold us_byte. cbn [us_pmem us_root]. destruct (decide (0 <= y)) as [Hy|Hy].
    2:{ rewrite !decide_False by (intros; lia). done. }
    destruct (page_facts y Hy) as (Y1 & _). rewrite Hua by lia. case_decide as Hd; [| done].
    by rewrite Hpg by (lia || tauto).
Qed.

Lemma same_user root s l s' l' :
  pmem_wf root s l → vrep root s' l' → (∀ x, x ∈ l' → x ∈ l) →
  (∀ va, 0 <= va < MAXVA → vmap (pm_pages s') root va = vmap (pm_pages s) root va) →
  (∀ x, in_tables (pm_pages s') root x → in_tables (pm_pages s) root x ∨ x ∈ l) →
  (∀ va, 0 <= va → uaddr (pm_pages s) root va ≠ 0 →
    pm_pages s' !! uaddr (pm_pages s) root va = pm_pages s !! uaddr (pm_pages s) root va) →
  pmem_wf root s' l' ∧ (∀ va, 0 <= va → uaddr (pm_pages s') root va = uaddr (pm_pages s) root va) ∧
  ∀ x, us_byte (Uspace s' root) x = us_byte (Uspace s root) x.
Proof.
  intros Hpw Hv' Hl Hvm Ht Hpg.
  assert (Hua : ∀ va, 0 <= va → uaddr (pm_pages s') root va = uaddr (pm_pages s) root va).
  { intros va Hva. unfold uaddr. case_decide; [| done]. by rewrite Hvm by lia. }
  destruct (same_uaddr root s l s' l') as [H1 H2]; done.
Qed.

(** A page mapped without [PTE_U] is not the user's. *)
Lemma user_pte_kernel pa perm : 0 <= pa → has PTE_U perm = false →
  user_pte (Z.lor (Z.lor (PA2PTE pa) perm) PTE_V) = false.
Proof.
  intros Hp Hu. unfold user_pte. rewrite <- Z.lor_assoc. unfold PTE_U at 1. rewrite has_low by lia.
  unfold PTE_U in Hu. rewrite (has_testbit 4) in Hu by lia. rewrite (has_testbit 4) by lia.
  rewrite Z.lor_spec, Hu. cbn. apply andb_false_r.
Qed.

Lemma map_kernel_page root s l a pa perm s' l' used :
  pmem_wf root s l → mapped_to root s l a pa perm 1 s' l' used → 0 <= pa → 0 <= a → a mod PGSIZE = 0 →
  has PTE_U perm = false →
  (∀ va, a <= va < a + PGSIZE → has PTE_V (vmap (pm_pages s) root va) = false) →
  pmem_wf root s' l'.
Proof.
  intros Hpw [M1 M2 M3 M4 M5] Hpa Ha Hal Hu Hun.
  apply (same_uaddr root s l s' l'); try done.
  - intros x Hx. rewrite M1. apply elem_of_app. by right.
  - intros va Hva. unfold uaddr. case_decide; [| done]. rewrite M3 by lia. case_decide as Hin; [| done].
    rewrite user_pte_kernel; [unfold user_pte | | done].
    2:{ rewrite PGROUNDDOWN_eq. pose proof (div_aligned a Hal). pose proof (Z.div_le_mono a va PGSIZE ltac:(done) ltac:(lia)). pg. }
    rewrite Hun by lia. done.
  - intros x Hx. apply M4 in Hx as [|Hx]; [by left | right]. rewrite M1. apply elem_of_app. by left.
  - intros va Hva Hne. apply M5. intros [Hin|Hin]%M4; [by apply (uw_page _ (pu_us _ _ _ Hpw) va) in Hin |].
    apply (pu_free _ _ _ Hpw va Hva Hne). rewrite M1. apply elem_of_app. by left.
Qed.

(** The page that [kalloc] and [memset] take. *)
Lemma take_page root s x l :
  pmem_wf root s (x :: l) →
  wp kalloc (λ r s1, r = x ∧ x ≠ 0 ∧ wp (memset_page x 0) (λ _ s2, pmem_wf root s2 l ∧
    (∀ va, uaddr (pm_pages s2) root va = uaddr (pm_pages s) root va) ∧
    (∀ va, vmap (pm_pages s2) root va = vmap (pm_pages s) root va) ∧
    (∀ y, us_byte (Uspace s2 root) y = us_byte (Uspace s root) y) ∧
    pm_pages s2 !! x = Some (replicate pgsize 0) ∧ 0 < x < 2 ^ 56 ∧ x mod PGSIZE = 0 ∧ x ∉ l ∧
    ¬ in_tables (pm_pages s2) root x ∧ ∀ va, 0 <= va → uaddr (pm_pages s2) root va ≠ x) s1) s.
Proof.
  intros Hpw. pose proof Hpw as [Hv Hu Hfr]. eapply wp_mono; [by apply (kalloc_zeroed root s (x :: l)) |].
  intros r s1 (-> & Hx0 & Hx & Hal & Hnt & Hxl & Hms). split_and!; [done | done |].
  eapply wp_mono; [exact Hms |]. intros [] s2 (Hv2 & _ & Epg).
  assert (Hst : ∀ y, in_tables (pm_pages s) root y → pm_pages s2 !! y = pm_pages s !! y).
  { intros y Hy. rewrite Epg, lookup_insert_ne; [done |]. by intros <-. }
  assert (Hvm : ∀ va, vmap (pm_pages s2) root va = vmap (pm_pages s) root va) by (intros; by apply outside_vmap).
  assert (Hua : ∀ va, uaddr (pm_pages s2) root va = uaddr (pm_pages s) root va) by (intros va; unfold uaddr; by rewrite Hvm).
  assert (Hxu : ∀ va, 0 <= va → uaddr (pm_pages s) root va ≠ x).
  { intros va Hva E. apply (Hfr va Hva); [congruence |]. rewrite E. by apply elem_of_cons; left. }
  destruct (same_user root s (x :: l) s2 l Hpw Hv2) as (P1 & _ & P3).
  - intros y Hy. by apply elem_of_cons; right.
  - intros va _. apply Hvm.
  - intros y Hy. left. by rewrite (outside_tables (pm_pages s)) in Hy.
  - intros va Hva _. rewrite Epg, lookup_insert_ne; [done |]. intros E. by apply (Hxu va Hva).
  - split_and!; try done; try lia.
    + by rewrite Epg, lookup_insert_eq.
    + by rewrite (outside_tables (pm_pages s)).
    + intros va Hva. rewrite Hua. by apply Hxu.
Qed.

(** A failed call: what was added is taken away again. *)
Lemma grow_undo kend root s0 lo top a s l {A} (r : A) :
  growing kend root s0 lo top a s l → 0 < kend → 0 <= lo <= a → lo mod PGSIZE = 0 → a mod PGSIZE = 0 →
  a <= top <= MAXVA → (∀ x, lo <= x < top → us_byte (Uspace s0 root) x = None) →
  wp (let! _ := uvmdealloc kend root a lo in ret r) (λ r' s', r' = r ∧ ∃ l', pmem_wf root s' l' ∧
    kept root s0 lo a s' ∧ ∀ x, us_byte (Uspace s' root) x = us_byte (Uspace s0 root) x) s.
Proof.
  intros [Hpw Hown _ _ Hb Hkp] Hk Hlo Hal Haa Hend Hun. wp_step.
  eapply wp_mono; [apply (uvmdealloc_spec kend root s l lo a); try done; lia |].
  intros _ s1 (l' & Hpw1 & Hb1 & Hv1). cbv beta. wp_step.
  split; [done |]. exists l'. split; [done |]. split.
  - intros va Hva Hout. rewrite Hv1 by done. by apply Hkp.
  - intros x. rewrite Hb1, Hb. repeat case_decide; try done. rewrite Hun; [done | lia].
Qed.

Lemma uvmalloc_loop_spec kend root s0 lo top newsz fuel a s l :
  growing kend root s0 lo top a s l → 0 < kend → 0 <= lo <= a → a <= top → lo mod PGSIZE = 0 → a mod PGSIZE = 0 →
  newsz <= top <= MAXVA → top mod PGSIZE = 0 → a < newsz + PGSIZE → newsz - a < PGSIZE * Z.of_nat fuel →
  (∀ x, lo <= x < top → us_byte (Uspace s0 root) x = None) →
  wp (uvmalloc_loop fuel kend root lo newsz a) (λ r s', ∃ l', pmem_wf root s' l' ∧ kept root s0 lo top s' ∧
    ((r = newsz ∧ ∃ hi, newsz <= hi < newsz + PGSIZE ∧ hi mod PGSIZE = 0 ∧ ∀ x, us_byte (Uspace s' root) x =
        if decide (lo <= x < hi) then Some 0 else us_byte (Uspace s0 root) x) ∨
     (r = 0 ∧ ∀ x, us_byte (Uspace s' root) x = us_byte (Uspace s0 root) x))) s.
Proof.
  assert (HM : MAXVA < 2 ^ 38 + 1) by done. assert (HMd : MAXVA mod PGSIZE = 0) by done. intros Hg Hk Hlo Hat Hal.
  revert a s l Hg Hlo Hat. induction fuel as [|fuel IH]; intros a s l Hg Hlo Hat Haa Hnew Htop Hlt Hf Hun; cbn [uvmalloc_loop].
  { rewrite decide_False by lia. wp_step. exists l. split; [apply Hg |].
    split; [intros va Hva Hout; apply Hg; lia |]. left. split; [done |]. exists a.
    split_and!; [lia | pg | done | apply Hg]. }
  case_decide as Hcont.
  2:{ wp_step. exists l. split; [apply Hg |]. split; [intros va Hva Hout; apply Hg; lia |]. left. split; [done |]. exists a. split_and!; [lia | lia | done | apply Hg]. }
  pose proof (div_aligned a Haa) as Hda. pose proof (div_aligned top Htop) as HdM.
  assert (Hafit : a + PGSIZE <= top) by pg. pose proof Hg as [Hpw Hown Hfree Hrng Hbyte Hkp].
  assert (Hfail : ∀ s1 l1, growing kend root s0 lo top a s1 l1 →
    wp (let! _ := uvmdealloc kend root a lo in ret 0) (λ r s', ∃ l', pmem_wf root s' l' ∧ kept root s0 lo top s' ∧
    ((r = newsz ∧ ∃ hi, newsz <= hi < newsz + PGSIZE ∧ hi mod PGSIZE = 0 ∧ ∀ x, us_byte (Uspace s' root) x =
        if decide (lo <= x < hi) then Some 0 else us_byte (Uspace s0 root) x) ∨
     (r = 0 ∧ ∀ x, us_byte (Uspace s' root) x = us_byte (Uspace s0 root) x))) s1).
  { intros s1 l1 Hg1. eapply wp_mono; [apply (grow_undo kend root s0 lo top a s1 l1 0 Hg1); try done; lia |].
    intros r s' (-> & l' & Hpw' & Hkp' & Hb'). exists l'. split; [done |].
    split; [intros va Hva Hout; apply Hkp'; lia |]. by right. }
  wp_step. destruct l as [|x l].
  { eapply wp_mono; [apply (kalloc_spec s [] (vr_free _ _ _ (pu_vrep _ _ _ Hpw))) |].
    intros r s1 [-> ->]. rewrite decide_True by done. by apply (Hfail s []). }
  apply Forall_cons in Hrng as [Hxr Hrng]. cbv beta in Hxr.
  eapply wp_mono; [by apply (take_page root s x l) |]. intros r s1 (-> & Hx0 & Hms). rewrite decide_False by done. wp_step.
  eapply wp_mono; [exact Hms |]. intros [] s2 (Hpw2 & Hua2 & Hvm2 & Hb2 & Hz & Hx & Hxa & Hxl & Hxt & Hxu). cbv beta.
  fold uperm. wp_step. pose proof (npages_one a Haa) as Hnp. assert (HP : PHYSTOP + PGSIZE < 2 ^ 56) by done.
  eapply wp_mono; [apply (mappages_spec root s2 l a PGSIZE x uperm (pu_vrep _ _ _ Hpw2)); try done; rewrite ?Hnp; try pg |].
  { intros y Hy. rewrite Hvm2. rewrite PGROUNDDOWN_id in Hy by done. apply Hfree; pg. }
  rewrite Hnp, PGROUNDDOWN_id by done. intros r s3 (l3 & used & [[-> Hm] | (-> & -> & k & Hk0 & Hm)]); cbv beta.
  - rewrite decide_False by tauto.
    destruct (grow_page root s2 l a x s3 l3 used Hpw2) as (Hpw3 & Hua3 & Hb3); try done; try lia.
    assert (u64 (a + PGSIZE) = a + PGSIZE) as -> by (apply Z.mod_small; pg).
    apply (IH (a + PGSIZE) s3 l3); try done; try pg.
    + split; try done.
      * intros va Hva. rewrite Hua3 by lia. case_decide; [split; lia |]. rewrite Hua2. apply Hown. lia.
      * intros va Hva Hva2. rewrite (mt_vmap _ _ _ _ _ _ _ _ _ _ Hm) by pg. rewrite decide_False by pg. rewrite Hvm2. apply Hfree; pg.
      * rewrite (mt_list _ _ _ _ _ _ _ _ _ _ Hm) in Hrng. by apply Forall_app in Hrng as [_ ?].
      * intros y. rewrite Hb3, Hb2, Hbyte. repeat case_decide; try done; pg.
      * intros va Hva Hout. rewrite (mt_vmap _ _ _ _ _ _ _ _ _ _ Hm) by done. rewrite decide_False by pg.
        rewrite Hvm2. apply Hkp; [done | pg].
    + rewrite <- Zplus_mod_idemp_r, Z.mod_same, Z.add_0_r by done. done.
  - rewrite decide_True by done. assert (k = 0%nat) as -> by lia.
    destruct (same_user root s2 l s3 [] Hpw2 (mt_rep _ _ _ _ _ _ _ _ _ _ Hm)) as (Hpw3 & Hua3 & Hb3).
    + intros y Hy. by apply not_elem_of_nil in Hy.
    + intros va Hva. rewrite (mt_vmap _ _ _ _ _ _ _ _ _ _ Hm) by done. by rewrite decide_False by lia.
    + intros y Hy. apply (mt_tables _ _ _ _ _ _ _ _ _ _ Hm) in Hy as [|Hy]; [by left | right].
      rewrite (mt_list _ _ _ _ _ _ _ _ _ _ Hm). apply elem_of_app. by left.
    + intros va Hva Hne. apply (mt_other _ _ _ _ _ _ _ _ _ _ Hm). intros Hin.
      apply (mt_tables _ _ _ _ _ _ _ _ _ _ Hm) in Hin as [Hin|Hin].
      * by apply (uw_page _ (pu_us _ _ _ Hpw2) va) in Hin.
      * apply (pu_free _ _ _ Hpw2 va Hva Hne). rewrite (mt_list _ _ _ _ _ _ _ _ _ _ Hm). apply elem_of_app. by left.
    + assert (Hxt3 : ¬ in_tables (pm_pages s3) root x).
      { rewrite (mt_tables _ _ _ _ _ _ _ _ _ _ Hm). intros [|Hin]; [done |]. apply Hxl.
        rewrite (mt_list _ _ _ _ _ _ _ _ _ _ Hm). apply elem_of_app. by left. }
      assert (Hz3 : pm_pages s3 !! x = Some (replicate pgsize 0)) by (by rewrite (mt_other _ _ _ _ _ _ _ _ _ _ Hm)).
      assert (Hxu3 : ∀ va, 0 <= va → uaddr (pm_pages s3) root va ≠ x) by (intros va Hva; rewrite Hua3 by done; by apply Hxu).
      wp_step. eapply wp_mono; [apply (give_back kend root s3 [] x (replicate pgsize 0) Hpw3 Hz3 (length_replicate _ _)
        (not_elem_of_nil _) Hxt3 Hxu3); [lia | lia | done] |].
      * intros [] s4 (Hpw4 & Hua4 & Hvm4 & Hb4). cbv beta. apply (Hfail s4 [x]). split.
        -- done.
        -- intros va Hva. rewrite Hua4, Hua3, Hua2 by lia. by apply Hown.
        -- intros va Hva Hva2. rewrite Hvm4, (mt_vmap _ _ _ _ _ _ _ _ _ _ Hm) by lia. rewrite decide_False by lia. rewrite Hvm2. by apply Hfree.
        -- by constructor.
        -- intros y. rewrite Hb4, Hb3, Hb2. apply Hbyte.
        -- intros va Hva Hout. rewrite Hvm4, (mt_vmap _ _ _ _ _ _ _ _ _ _ Hm) by lia. rewrite decide_False by lia.
           rewrite Hvm2. by apply Hkp.
Qed.
