(* ===== verification/VmTheorems.v ===== *)
(** * Virtual memory: the theorems

    [mappages], [uvmalloc], [copyout], [copyin] and [copyinstr] of
    [kernel/vm.c], with a small machine on which they are applied. *)
From S2P Require Import Prelude Params CString Fs UserMem Riscv Kalloc Vm VmProofs VmUser VmGrow.
Import CString.

(** C17: [mappages] maps exactly the pages that [va .. va+size) touches, in
    order from [pa] on, with the permissions asked for and no other
    translation changed; it fails only when no page is left for a table. *)
Theorem mappages_maps root s l va size pa perm :
  vrep root s l → 0 <= va → 0 < size → va + size <= MAXVA →
  0 <= pa → pa + PGSIZE * Z.of_nat (npages va size) <= 2 ^ 56 → 0 <= perm < 1024 →
  (∀ x, PGROUNDDOWN va <= x < PGROUNDDOWN va + PGSIZE * Z.of_nat (npages va size) → has PTE_V (vmap (pm_pages s) root x) = false) →
  wp (mappages root va size pa perm) (λ r s',
    (r = 0 ∧ ∀ x, 0 <= x < MAXVA → vmap (pm_pages s') root x =
       if decide (va / PGSIZE <= x / PGSIZE <= (va + size - 1) / PGSIZE)
       then Z.lor (Z.lor (PA2PTE (pa + PGSIZE * (x / PGSIZE - va / PGSIZE))) perm) PTE_V
       else vmap (pm_pages s) root x) ∨
    (r = -1 ∧ kmem_freelist s' = 0)) s.
Proof.
  intros Hv Hva Hsz Hend Hpa Hpend Hperm Hun. eapply wp_mono; [by apply (mappages_spec root s l) |].
  intros r s' (l' & used & [[-> Hm] | (-> & -> & k & _ & Hm)]).
  - left. split; [done |]. intros x Hx. rewrite (mt_vmap _ _ _ _ _ _ _ _ _ _ Hm) by done. unfold npages.
    pose proof (Z.div_le_mono va (va + size - 1) PGSIZE ltac:(done) ltac:(lia)).
    rewrite Z2Nat.id by lia. rewrite !PGROUNDDOWN_eq.
    pose proof (Z.div_mod x PGSIZE ltac:(done)). pose proof (Z.mod_pos_bound x PGSIZE ltac:(done)).
    repeat case_decide; try done; unfold PGSIZE in *; try lia. do 3 f_equal. lia.
  - right. split; [done |]. exact (kr_list _ _ (vr_free _ _ _ (mt_rep _ _ _ _ _ _ _ _ _ _ Hm))).
Qed.

(** C36: what [copyout] stored in a process's memory, [copyin] returns, and
    no other byte of the process changed. *)
Theorem copyout_copyin u va data :
  us_wf u → 0 <= va → (∀ k : nat, (k < length data)%nat → is_Some (us_byte u (va + Z.of_nat k))) →
  wp (let! r := copyout (us_root u) va data in
      let! b := copyin (us_root u) va (length data) in ret (r, b)) (λ res s',
    res = (0, (0, data)) ∧
    ∀ a, ¬ (va <= a < va + Z.of_nat (length data)) → us_byte (Uspace s' (us_root u)) a = us_byte u a) (us_pmem u).
Proof.
  intros Hu Hva Hb. wp_step. eapply wp_mono; [by apply (copyout_loop_ok (length data) u va data) |].
  intros r s1 (-> & Hu1 & Hb1). cbv beta. wp_step. unfold wp at 1, copyin.
  pose proof (copyin_loop_ok (length data) (Uspace s1 (us_root u)) va data Hu1 Hva ltac:(lia)) as Hin.
  cbn [us_root us_pmem] in Hin. rewrite Hin.
  - wp_step. split; [done |]. intros a Ha. rewrite Hb1. by rewrite decide_False.
  - intros k x Hk. rewrite Hb1. apply lookup_lt_Some in Hk as Hlt. rewrite decide_True by lia. rewrite <- Hk. f_equal. lia.
Qed.

(** [copyinstr] returns the NUL-terminated string at [va], across page
    boundaries, whenever it and its NUL are mapped and fit into [max]. *)
Theorem copyinstr_string u va str max :
  us_wf u → 0 <= va → (length str < max)%nat → Forall (λ c, c ≠ 0) str →
  (∀ (k : nat) x, (str ++ [0]) !! k = Some x → us_byte u (va + Z.of_nat k) = Some x) →
  copyinstr (us_root u) va max (us_pmem u) = Ret (Some str) (us_pmem u).
Proof. intros Hu Hva Hmax Hs Hb. by apply copyinstr_loop_ok. Qed.

Lemma PGROUNDUP_bounds x : 0 <= x <= MAXVA →
  x <= PGROUNDUP x < x + PGSIZE ∧ PGROUNDUP x mod PGSIZE = 0 ∧ PGROUNDUP x <= MAXVA.
Proof.
  intros Hx. assert (HM : MAXVA + PGSIZE < 2 ^ 64) by done. assert (HMd : MAXVA = PGSIZE * (MAXVA / PGSIZE)) by done.
  pose proof (PGROUNDUP_eq x ltac:(lia) ltac:(lia)) as ->.
  pose proof (Z.div_mod (x + PGSIZE - 1) PGSIZE ltac:(done)). pose proof (Z.mod_pos_bound (x + PGSIZE - 1) PGSIZE ltac:(done)).
  split_and!; [pg | pg | rewrite Z.mul_comm; by apply Z_mod_mult | pg].
Qed.

Lemma aligned_unique x y z : x mod PGSIZE = 0 → y mod PGSIZE = 0 → z <= x < z + PGSIZE → z <= y < z + PGSIZE → x = y.
Proof. intros Hx%div_aligned Hy%div_aligned. pg. Qed.

(** C35: [uvmalloc] either grows the process to [newsz], the new memory up
    to the end of its page all zero and every byte that was mapped
    unchanged, or returns 0 with the process's memory exactly as before: the
    pages it had added are freed again when memory runs out half way.
    Either way no translation outside the new pages changes, the trap
    frame's and the trampoline's among them.  Only the new pages need to be
    unmapped before. *)
Theorem uvmalloc_grows kend root s l oldsz newsz :
  pmem_wf root s l → 0 < kend → Forall (λ x, kend <= x < PHYSTOP) l →
  0 <= oldsz <= newsz → newsz <= MAXVA →
  (∀ va, PGROUNDUP oldsz <= va < PGROUNDUP newsz → has PTE_V (vmap (pm_pages s) root va) = false) →
  wp (uvmalloc kend root oldsz newsz) (λ r s', ∃ l', pmem_wf root s' l' ∧
    (∀ va, 0 <= va < MAXVA → ¬ (PGROUNDUP oldsz <= va < PGROUNDUP newsz) →
       vmap (pm_pages s') root va = vmap (pm_pages s) root va) ∧
    ((r = newsz ∧ ∀ x, us_byte (Uspace s' root) x =
        if decide (PGROUNDUP oldsz <= x < PGROUNDUP newsz) then Some 0 else us_byte (Uspace s root) x) ∨
     (r = 0 ∧ ∀ x, us_byte (Uspace s' root) x = us_byte (Uspace s root) x))) s.
Proof.
  intros Hpw Hk Hl Hsz Hmax Hun. unfold uvmalloc. rewrite decide_False by lia.
  destruct (PGROUNDUP_bounds oldsz ltac:(lia)) as (Hlo & Hal & _).
  destruct (PGROUNDUP_bounds newsz ltac:(lia)) as (Hhi & Hah & Htop).
  assert (Hle : PGROUNDUP oldsz <= PGROUNDUP newsz).
  { apply div_aligned in Hal, Hah. rewrite Hal, Hah in *. pg. }
  set (lo := PGROUNDUP oldsz) in *. set (top := PGROUNDUP newsz) in *.
  assert (Hg : growing kend root s lo top lo s l).
  { split; try done.
    - intros va Hva. lia.
    - intros va H1 H2. apply Hun. lia.
    - intros x. by rewrite decide_False by lia. }
  assert (Hnone : ∀ x, lo <= x < top → us_byte (Uspace s root) x = None).
  { intros x Hx. unfold us_byte. cbn [us_pmem us_root]. rewrite decide_False; [done |]. intros [_ Hne]. apply Hne.
    destruct (page_facts x ltac:(lia)) as (X1 & X2 & X3 & X4). unfold uaddr. rewrite decide_True by lia.
    rewrite (vmap_page _ _ (PGROUNDDOWN x) x) by (rewrite X4, Z.mul_comm; by apply Z_div_mult_full).
    unfold user_pte. by rewrite Hun. }
  eapply wp_mono; [apply (uvmalloc_loop_spec kend root s lo top newsz _ lo s l Hg); try done; try lia |].
  - pose proof (Z.div_mod (newsz - lo) PGSIZE ltac:(done)). pose proof (Z.mod_pos_bound (newsz - lo) PGSIZE ltac:(done)).
    rewrite Nat2Z.inj_add. destruct (decide (0 <= (newsz - lo) / PGSIZE)); [rewrite Z2Nat.id by done; pg | pg].
  - intros r s' (l' & Hpw' & Hkp & [(-> & hi & Hhi' & Hha & Hb) | [-> Hb]]); exists l';
      (split; [done |]; split; [done |]); [left | right; done].
    split; [done |]. by rewrite <- (aligned_unique hi top newsz).
Qed.

(** ** A process of one page on a machine of six *)
Definition kend6 : Z := PHYSTOP - 6 * PGSIZE.
Definition pmem6 : pmem := Pmem (list_to_map ((λ a, (a, replicate pgsize 0)) <$> pages_from kend6 6)) 0.
Definition booted6 : pmem := final (kinit kend6) pmem6.
Definition root6 : Z := kend6 + 5 * PGSIZE.
Definition proc0 : pmem := final uvmcreate booted6.
Definition free5 : list Z := (λ k, kend6 + PGSIZE * k) <$> [4; 3; 2; 1; 0].

Lemma booted6_krep : krep booted6 (root6 :: free5).
Proof.
  assert (wp (kinit kend6) (λ _ s', krep s' (reverse (pages_from kend6 6) ++ [])) pmem6) as Hk.
  { apply (freerange_loop_spec kend6 PHYSTOP 6 kend6 [] pmem6 6).
    - split; [done | constructor | constructor].
    - by vm_compute.
    - done.
    - done.
    - done.
    - lia.
    - repeat constructor; eexists; (split; [vm_compute; reflexivity | reflexivity]).
    - intros x Hx. by apply not_elem_of_nil in Hx. }
  apply wp_final in Hk as (a & E & Hk). exact Hk.
Qed.

Lemma proc0_wf : pmem_wf root6 proc0 free5 ∧ ∀ va, vmap (pm_pages proc0) root6 va = 0.
Proof.
  destruct (wp_final _ _ _ (uvmcreate_spec booted6 _ booted6_krep)) as (a & E & _ & Hpw & Hv & _).
  exact (conj Hpw Hv).
Qed.

Lemma free5_range : Forall (λ x, kend6 <= x < PHYSTOP) free5.
Proof. repeat constructor; by vm_compute. Qed.

(** *** After [uvmalloc] to two pages *)
Definition proc1 : pmem := final (uvmalloc kend6 root6 0 8192) proc0.
Definition space1 : uspace := Uspace proc1 root6.

Lemma proc1_facts : us_wf space1 ∧ ∀ x, 0 <= x < 8192 → us_byte space1 x = Some 0.
Proof.
  assert (Hg : growing kend6 root6 proc0 0 MAXVA 0 proc0 free5).
  { split; [apply proc0_wf | intros va Hva; lia | intros va _ _; by rewrite (proj2 proc0_wf) | apply free5_range | | done].
    intros x. by rewrite decide_False by lia. }
  assert (Hnone : ∀ x, 0 <= x < MAXVA → us_byte (Uspace proc0 root6) x = None).
  { intros x Hx. unfold us_byte. cbn [us_pmem us_root]. rewrite decide_False; [done |]. intros [_ Hne]. apply Hne.
    unfold uaddr. case_decide; [| done]. by rewrite (proj2 proc0_wf). }
  assert (Hw : wp (uvmalloc kend6 root6 0 8192) (λ r s', ∃ l', pmem_wf root6 s' l' ∧ kept root6 proc0 0 MAXVA s' ∧
    ((r = 8192 ∧ ∃ hi, 8192 <= hi < 8192 + PGSIZE ∧ hi mod PGSIZE = 0 ∧ ∀ x, us_byte (Uspace s' root6) x =
        if decide (0 <= x < hi) then Some 0 else us_byte (Uspace proc0 root6) x) ∨
     (r = 0 ∧ ∀ x, us_byte (Uspace s' root6) x = us_byte (Uspace proc0 root6) x))) proc0).
  { apply (uvmalloc_loop_spec kend6 root6 proc0 0 MAXVA 8192 3 0 proc0 free5 Hg); try done; try lia. }
  apply wp_final in Hw as (r & E & l' & Hpw & _ & Hr).
  assert (Er : match uvmalloc kend6 root6 0 8192 proc0 with Ret r _ => r | _ => 0 end = 8192) by (vm_compute; reflexivity).
  rewrite E in Er. subst r. destruct Hr as [(_ & hi & Hhi & _ & Hb) | [Habs _]]; [| discriminate].
  split; [exact (pu_us _ _ _ Hpw) |]. intros x Hx. unfold space1, proc1. rewrite Hb. by rewrite decide_True by lia.
Qed.

(** ["hi"] across the page boundary. *)
Definition space2 : uspace := Uspace (final (copyout root6 4095 [104; 105; 0]) proc1) root6.

Lemma space2_facts : us_wf space2 ∧ ∀ (k : nat) x, [104; 105; 0] !! k = Some x → us_byte space2 (4095 + Z.of_nat k) = Some x.
Proof.
  destruct proc1_facts as [Hu Hb].
  assert (Hw : wp (copyout root6 4095 [104; 105; 0]) (λ r s', r = 0 ∧ us_wf (Uspace s' root6) ∧
    ∀ x, us_byte (Uspace s' root6) x = if decide (4095 <= x < 4095 + 3) then [104; 105; 0] !! Z.to_nat (x - 4095) else us_byte space1 x) proc1).
  { apply (copyout_loop_ok 3 space1 4095 [104; 105; 0] Hu); [lia | simpl; lia |]. intros k Hk. simpl in Hk.
    rewrite Hb by lia. eauto. }
  apply wp_final in Hw as (r & E & _ & Hu2 & Hb2). split; [exact Hu2 |]. intros k x Hk. unfold space2. rewrite Hb2.
  apply lookup_lt_Some in Hk as Hlt. simpl in Hlt. rewrite decide_True by lia. rewrite <- Hk. f_equal. lia.
Qed.

Lemma mappages_maps_witness :
  wp (mappages root6 4096 PGSIZE kend6 uperm) (λ r s',
    (r = 0 ∧ ∀ x, 0 <= x < MAXVA → vmap (pm_pages s') root6 x =
       if decide (4096 / PGSIZE <= x / PGSIZE <= (4096 + PGSIZE - 1) / PGSIZE)
       then Z.lor (Z.lor (PA2PTE (kend6 + PGSIZE * (x / PGSIZE - 4096 / PGSIZE))) uperm) PTE_V
       else vmap (pm_pages proc0) root6 x) ∨
    (r = -1 ∧ kmem_freelist s' = 0)) proc0.
Proof.
  apply (mappages_maps root6 proc0 free5 4096 PGSIZE kend6 uperm).
  - apply proc0_wf.
  - lia.
  - reflexivity.
  - by vm_compute.
  - by vm_compute.
  - by vm_compute.
  - by vm_compute.
  - intros x Hx. rewrite (proj2 proc0_wf). reflexivity.
Defined.

Lemma copyout_copyin_witness :
  wp (let! r := copyout root6 4095 [104; 105] in
      let! b := copyin root6 4095 2 in ret (r, b)) (λ res s',
    res = (0, (0, [104; 105])) ∧
    ∀ a, ¬ (4095 <= a < 4095 + 2) → us_byte (Uspace s' root6) a = us_byte space1 a) proc1.
Proof.
  apply (copyout_copyin space1 4095 [104; 105]).
  - apply proc1_facts.
  - lia.
  - intros k Hk. cbn in Hk. rewrite (proj2 proc1_facts) by lia. eauto.
Defined.

Lemma copyinstr_string_witness : copyinstr root6 4095 10 (us_pmem space2) = Ret (Some [104; 105]) (us_pmem space2).
Proof.
  apply (copyinstr_string space2 4095 [104; 105] 10).
  - apply space2_facts.
  - lia.
  - cbn. lia.
  - repeat constructor; discriminate.
  - intros k x Hk. apply space2_facts. exact Hk.
Defined.
