(* ===== verification/Access.v ===== *)
(** * Code cut into the accesses other harts can run between

    [M S A] runs a piece of C from beginning to end.  Where the order of
    the accesses to shared memory matters ([acquire] and [release] in
    [Spinlock.v], [sleep] in [Proc.v]) the C function is a [code]: a
    sequence of accesses, and of loops that repeat one access.  [tick] makes
    the next access, [exec] runs the whole without interruption. *)
From S2P Require Import Prelude.

Inductive code (S A : Type) : Type :=
| Fin (a : A)
| Act {B : Type} (m : M S B) (k : B → code S A)
| Spin (m : M S bool) (k : code S A).       (* [while (m) ;] *)
Arguments Fin {S A} a.
Arguments Act {S A B} m k.
Arguments Spin {S A} m k.

Definition act {S A} (m : M S A) : code S A := Act m Fin.
Definition spin {S} (m : M S bool) : code S unit := Spin m (Fin tt).

Fixpoint cbind {S A B} (c : code S A) (k : A → code S B) : code S B :=
  match c with
  | Fin a => k a
  | Act m j => Act m (λ b, cbind (j b) k)
  | Spin m j => Spin m (cbind j k)
  end.

Notation "'let*' x := m 'in' k" := (cbind m (λ x, k))
  (at level 10, x pattern, m at level 100, k at level 200,
   format "'[v' 'let*'  x  :=  m  'in' '/' k ']'") : xv6_scope.

(** A loop entered while its condition holds spins. *)
Fixpoint exec {S A} (c : code S A) : M S A :=
  match c with
  | Fin a => ret a
  | Act m k => bind m (λ b, exec (k b))
  | Spin m k => bind m (λ busy, if busy : bool then sleep_on "spin" else exec k)
  end.

(** The next access: what is left to run. *)
Definition tick {S A} (c : code S A) : M S (code S A) :=
  match c with
  | Fin a => ret (Fin a)
  | Act m k => bind m (λ b, ret (k b))
  | Spin m k => bind m (λ busy, ret (if busy : bool then c else k))
  end.

Lemma exec_cbind {S A B} (c : code S A) (k : A → code S B) (s : S) :
  exec (cbind c k) s = bind (exec c) (λ a, exec (k a)) s.
Proof.
  revert s. induction c as [a | C m j IH | m j IH]; intros s; cbn; unfold bind; [done | |].
  - destruct (m s) as [b s'| | |]; [apply IH | done..].
  - destruct (m s) as [[] s'| | |]; [done | apply IH | done..].
Qed.

(** An uninterrupted run is a sequence of ticks. *)
Lemma exec_tick {S A} (c : code S A) (s s' : S) (c' : code S A) :
  tick c s = Ret c' s' → c ≠ c' → exec c s = exec c' s'.
Proof.
  destruct c as [a | C m j | m j]; cbn; unfold bind, ret; [by intros [= <- <-] |..];
    destruct (m s) as [b s0| | |] eqn:E; try done; intros [= <- <-] Hne; [done |].
  by destruct b.
Qed.
