(* ===== verification/Spinlock.v ===== *)
(** * Spin locks and interrupt nesting ([kernel/spinlock.c])

    [push_off] and [pop_off] work on the state of one hart, [acquire] and
    [release] on a hart and a lock.  Both are written access by access
    ([Access.v]): run alone they are [acquire] and [release], a lock that is
    taken makes [acquire] spin ([Wait]).  The second half runs the same code
    on any number of harts, interleaved after every access to the lock, and
    shows that the lock excludes, although [holding] reads [lk->locked] and
    [lk->cpu] one after the other without synchronisation. *)
From S2P Require Import Prelude Access.

(** [lk->cpu] is the index in [cpus], [None] for 0. *)
Record spinlock := SpinLock { lk_locked : bool; lk_cpu : option nat }.
#[export] Instance spinlock_eq_dec : EqDecision spinlock.
Proof. solve_decision. Defined.

(** [struct cpu] with the interrupt-enable bit of the hart's [sstatus]. *)
Record cpu := Cpu { c_proc : option nat; c_noff : Z; c_intena : bool; c_sie : bool }.
#[export] Instance cpu_eq_dec : EqDecision cpu.
Proof. solve_decision. Defined.
#[export] Instance cpu_inhabited : Inhabited cpu := populate (Cpu None 0 false false).

Definition set_cproc (p : option nat) (c : cpu) : cpu := Cpu p (c_noff c) (c_intena c) (c_sie c).
Definition set_noff (n : Z) (c : cpu) : cpu := Cpu (c_proc c) n (c_intena c) (c_sie c).
Definition set_intena (b : bool) (c : cpu) : cpu := Cpu (c_proc c) (c_noff c) b (c_sie c).
Definition set_sie (b : bool) (c : cpu) : cpu := Cpu (c_proc c) (c_noff c) (c_intena c) b.

Definition initlock : spinlock := SpinLock false None.

(** [riscv.h] *)
Definition intr_on : M cpu unit := modify (set_sie true).
Definition intr_off : M cpu unit := modify (set_sie false).
Definition intr_get : M cpu bool := gets c_sie.

Definition push_off : M cpu unit :=
  let! old := intr_get in
  intr_off;;
  let! noff := gets c_noff in
  (if decide (noff = 0) then modify (set_intena old) else ret tt);;
  modify (λ c, set_noff (c_noff c + 1) c).

Definition pop_off : M cpu unit :=
  let! on := intr_get in
  if on : bool then panic "pop_off - interruptible"
  else
    let! noff := gets c_noff in
    if decide (noff < 1) then panic "pop_off"
    else
      modify (set_noff (noff - 1));;
      let! c := gets id in
      if decide (c_noff c = 0 ∧ c_intena c = true) then intr_on else ret tt.

Arguments push_off : simpl never.
Arguments pop_off : simpl never.

(** ** [acquire] and [release] by hart [me] *)
Definition holding (me : nat) (lk : spinlock) : bool :=
  lk_locked lk && bool_decide (lk_cpu lk = Some me).

Definition hop {A} (m : M cpu A) : M (cpu * spinlock) A := zoom (λ s, s.1) (λ c s, (c, s.2)) m.
(** [__sync_lock_test_and_set(&lk->locked, 1)] and [__sync_lock_release]. *)
Definition test_and_set : M (cpu * spinlock) bool := λ s,
  Ret (lk_locked s.2) (s.1, SpinLock true (lk_cpu s.2)).
Definition lock_release : M (cpu * spinlock) unit := modify (λ s, (s.1, SpinLock false (lk_cpu s.2))).
Definition set_lkcpu (c : option nat) : M (cpu * spinlock) unit :=
  modify (λ s, (s.1, SpinLock (lk_locked s.2) c)).

(** [holding] loads [lk->locked] and, if it is set, [lk->cpu]. *)
Definition holding_code (me : nat) : code (cpu * spinlock) bool :=
  let* locked := act (gets (λ s, lk_locked s.2)) in
  if locked : bool
  then let* c := act (gets (λ s, lk_cpu s.2)) in Fin (bool_decide (c = Some me))
  else Fin false.

Definition acquire_code (me : nat) : code (cpu * spinlock) unit :=
  let* _ := act (hop push_off) in
  let* h := holding_code me in
  if h : bool then act (panic "acquire")
  else
    let* _ := spin test_and_set in
    act (set_lkcpu (Some me)).

Definition release_code (me : nat) : code (cpu * spinlock) unit :=
  let* h := holding_code me in
  if negb h then act (panic "release")
  else
    let* _ := act (set_lkcpu None) in
    let* _ := act lock_release in
    act (hop pop_off).

Definition acquire (me : nat) : M (cpu * spinlock) unit := exec (acquire_code me).
Definition release (me : nat) : M (cpu * spinlock) unit := exec (release_code me).

Lemma holding_exec me s : exec (holding_code me) s = Ret (holding me s.2) s.
Proof. destruct s as [c [[] o]]; reflexivity. Qed.

(** [acquire] run alone. *)
Lemma acquire_eq me c lk :
  acquire me (c, lk) =
  match push_off c with
  | Ret _ c' => if holding me lk then Panic "acquire"
                else if lk_locked lk then Wait "spin" (c', lk)
                else Ret tt (c', SpinLock true (Some me))
  | Panic msg => Panic msg
  | Wait ch c' => Wait ch (c', lk)
  | OutOfFuel => OutOfFuel
  end.
Proof.
  unfold acquire. destruct lk as [[] o]; cbn; unfold bind, hop, zoom, ret; cbn;
    destruct (push_off c) as [[] c'| | |]; cbn; try done.
  unfold holding. cbn. by case_bool_decide.
Qed.

(** ** What one acquire/release pair does to a hart *)

(** A hart inside one more level of [push_off]. *)
Definition pushed (c : cpu) : cpu :=
  Cpu (c_proc c) (c_noff c + 1) (if decide (c_noff c = 0) then c_sie c else c_intena c) false.
(** A hart after [push_off]; [pop_off]. *)
Definition settle (c : cpu) : cpu :=
  Cpu (c_proc c) (c_noff c) (if decide (c_noff c = 0) then c_sie c else c_intena c) (c_sie c).
(** Interrupts are off inside [push_off]. *)
Definition cpu_ok (c : cpu) : Prop := 0 <= c_noff c ∧ (0 < c_noff c → c_sie c = false).

Lemma push_off_pushed c : push_off c = Ret tt (pushed c).
Proof. destruct c as [p n i e]. unfold push_off, pushed, bind. cbn. by case_decide. Qed.

Lemma pop_off_last p n i :
  0 < n → pop_off (Cpu p n i false) = Ret tt (Cpu p (n - 1) i (if decide (n - 1 = 0) then i else false)).
Proof.
  intros Hn. unfold pop_off, bind. cbn. rewrite decide_False by lia. cbn.
  destruct i; repeat case_decide; naive_solver.
Qed.

Lemma settle_idem c : settle (settle c) = settle c.
Proof. unfold settle. cbn. by repeat case_decide. Qed.

Lemma pop_pushed c : cpu_ok c → pop_off (pushed c) = Ret tt (settle c).
Proof.
  intros [H0 H1]. destruct c as [p n i e]. cbn in H0, H1. unfold pushed, settle.
  cbn [c_proc c_noff c_intena c_sie]. rewrite pop_off_last by lia. replace (n + 1 - 1) with n by lia.
  repeat case_decide; try done. f_equal. f_equal. symmetry. apply H1. lia.
Qed.

Lemma acquire_free me c :
  acquire me (c, initlock) = Ret tt (pushed c, SpinLock true (Some me)).
Proof. by rewrite acquire_eq, push_off_pushed. Qed.

Lemma release_own me c :
  release me (c, SpinLock true (Some me)) = hop pop_off (c, initlock).
Proof.
  unfold release. cbn. unfold bind, hop, zoom, ret. cbn. rewrite bool_decide_true by done. cbn.
  unfold bind, ret. cbn. by destruct (pop_off c) as [[]| | |].
Qed.

Lemma release_held me p n i :
  0 < n →
  release me (Cpu p n i false, SpinLock true (Some me)) =
  Ret tt (Cpu p (n - 1) i (if decide (n - 1 = 0) then i else false), initlock).
Proof. intros Hn. rewrite release_own. unfold hop, zoom. cbn. by rewrite pop_off_last. Qed.

Lemma release_pushed me c :
  cpu_ok c → release me (pushed c, SpinLock true (Some me)) = Ret tt (settle c, initlock).
Proof. intros H. rewrite release_own. unfold hop, zoom. cbn. by rewrite (pop_pushed c). Qed.

(** ** Any matched sequence of [push_off] and [pop_off] *)
Definition pp_run (ops : list bool) : M cpu unit :=
  foldr (λ (push : bool) m, (if push then push_off else pop_off);; m) (ret tt) ops.

(** The depth after the operations; [None] if a [pop_off] has no [push_off]. *)
Fixpoint pp_depth (d : nat) (ops : list bool) : option nat :=
  match ops, d with
  | [], _ => Some d
  | true :: ops, _ => pp_depth (S d) ops
  | false :: ops, S d => pp_depth d ops
  | false :: _, O => None
  end.

(** The hart at depth [d] of a nest entered with interrupts [b]. *)
Definition nested (p : option nat) (b : bool) (d : nat) (c : cpu) : Prop :=
  c_proc c = p ∧ c_noff c = Z.of_nat d ∧
  if decide (d = O) then c_sie c = b else c_sie c = false ∧ c_intena c = b.

Lemma nested_pushed p b d c : nested p b d c → nested p b (S d) (pushed c).
Proof.
  intros (Hp & Hn & H). unfold nested, pushed. cbn. rewrite Hn. split; [done |]. split; [lia |].
  destruct (decide (d = O)) as [->|Hd]; [by cbn; split |].
  rewrite decide_False by done. destruct H as [_ H]. by rewrite decide_False by lia.
Qed.

Lemma nested_pop p b d c : nested p b (S d) c → wp pop_off (λ _ c', nested p b d c') c.
Proof.
  destruct c as [p' n i e]. intros (Hp & Hn & H). rewrite decide_False in H by lia.
  cbn in *. destruct H as [-> ->]. subst. eapply wp_intro; [apply pop_off_last; lia |].
  unfold nested. cbn. split; [done |]. split; [lia |].
  repeat case_decide; try done; lia.
Qed.

(** [push_off] and [pop_off] match: any sequence whose pops have their
    pushes runs without panic, and leaves the nesting depth in [noff]; with
    the depth back at 0 interrupts are as they were before the first push,
    and at any other depth they are off. *)
Theorem push_pop_matched p b d c ops d' :
  nested p b d c → pp_depth d ops = Some d' → wp (pp_run ops) (λ _ c', nested p b d' c') c.
Proof.
  revert d c. induction ops as [|[] ops IH]; intros d c Hc Hd; cbn [pp_run foldr] in *.
  - cbn in Hd. simplify_eq. by wp_steps.
  - wp_steps. eapply wp_intro; [apply push_off_pushed |].
    by eapply IH; [apply nested_pushed |].
  - destruct d as [|d]; [done |]. wp_steps. wp_call nested_pop; [done |].
    intros [] c' Hc'. by eapply IH.
Qed.

Lemma push_pop_matched_witness :
  wp (pp_run [true; true; false; false]) (λ _ c', nested None true 0 c') (Cpu None 0 false true).
Proof. apply (push_pop_matched None true 0 _ _ 0); [vm_compute; tauto | reflexivity]. Defined.

(** ** Harts contending for one lock, one access at a time *)

(** Where a hart is: the rest of [acquire] or [release] that it still has to
    run, and [Halted] for a hart that panicked in it. *)
Inductive lkpc :=
| Out
| Acquiring (c : code (cpu * spinlock) unit)
| Crit
| Releasing (c : code (cpu * spinlock) unit)
| Halted (msg : string).

Record contention := Contention { ct_lk : spinlock; ct_harts : list (cpu * lkpc) }.

(** The place of a hart whose call has [c] left. *)
Definition calling (leave : lkpc) (stay : code (cpu * spinlock) unit → lkpc)
    (c : code (cpu * spinlock) unit) : lkpc :=
  match c with Fin _ => leave | _ => stay c end.

(** One access of hart [h] to the lock.  Between its calls a hart runs other
    code: outside, anything that keeps [noff] from going negative; in the
    critical section, code that leaves the depth positive and interrupts
    off. *)
Inductive lkstep : contention → contention → Prop :=
| step_call_acquire lk hs h c :
    hs !! h = Some (c, Out) →
    lkstep (Contention lk hs) (Contention lk (<[h := (c, Acquiring (acquire_code h))]> hs))
| step_call_release lk hs h c :
    hs !! h = Some (c, Crit) →
    lkstep (Contention lk hs) (Contention lk (<[h := (c, Releasing (release_code h))]> hs))
| step_acquiring lk hs h c p p' c' lk' :
    hs !! h = Some (c, Acquiring p) → tick p (c, lk) = Ret p' (c', lk') →
    lkstep (Contention lk hs) (Contention lk' (<[h := (c', calling Crit Acquiring p')]> hs))
| step_releasing lk hs h c p p' c' lk' :
    hs !! h = Some (c, Releasing p) → tick p (c, lk) = Ret p' (c', lk') →
    lkstep (Contention lk hs) (Contention lk' (<[h := (c', calling Out Releasing p')]> hs))
| step_panic lk hs h c p pc msg :
    hs !! h = Some (c, pc) → pc = Acquiring p ∨ pc = Releasing p → tick p (c, lk) = Panic msg →
    lkstep (Contention lk hs) (Contention lk (<[h := (c, Halted msg)]> hs))
| step_outside lk hs h c c' :
    hs !! h = Some (c, Out) → 0 <= c_noff c' →
    lkstep (Contention lk hs) (Contention lk (<[h := (c', Out)]> hs))
| step_critical lk hs h c c' :
    hs !! h = Some (c, Crit) → 0 < c_noff c' → c_sie c' = false →
    lkstep (Contention lk hs) (Contention lk (<[h := (c', Crit)]> hs)).

(** The places [acquire] and [release] really pass through, in the order of
    their accesses. *)
Inductive stage :=
| SOut | SPush | SLocked | SCpu | SSwap | SOwn | SCrit | SRLocked | SRCpu | SDisown | SFree | SPop.
#[export] Instance stage_eq_dec : EqDecision stage.
Proof. solve_decision. Defined.

Definition own_code (h : nat) : code (cpu * spinlock) unit := act (set_lkcpu (Some h)).
Definition swap_code (h : nat) : code (cpu * spinlock) unit := Spin test_and_set (own_code h).
Definition enter_code (h : nat) (b : bool) : code (cpu * spinlock) unit :=
  if b then act (panic "acquire") else swap_code h.
Definition free_code : code (cpu * spinlock) unit := Act lock_release (λ _, act (hop pop_off)).
Definition leave_code (b : bool) : code (cpu * spinlock) unit :=
  if negb b then act (panic "release") else Act (set_lkcpu None) (λ _, free_code).

Definition stage_pc (h : nat) (st : stage) : lkpc :=
  match st with
  | SOut => Out
  | SPush => Acquiring (acquire_code h)
  | SLocked => Acquiring (cbind (holding_code h) (enter_code h))
  | SCpu => Acquiring (Act (gets (λ s, lk_cpu s.2)) (λ c, enter_code h (bool_decide (c = Some h))))
  | SSwap => Acquiring (swap_code h)
  | SOwn => Acquiring (own_code h)
  | SCrit => Crit
  | SRLocked => Releasing (release_code h)
  | SRCpu => Releasing (Act (gets (λ s, lk_cpu s.2)) (λ c, leave_code (bool_decide (c = Some h))))
  | SDisown => Releasing (leave_code true)
  | SFree => Releasing free_code
  | SPop => Releasing (act (hop pop_off))
  end.

(** Between the swap that took the lock and the store that frees it; and
    while [lk->cpu] names the hart. *)
Definition inside (st : stage) : bool :=
  match st with SOwn | SCrit | SRLocked | SRCpu | SDisown | SFree => true | _ => false end.
Definition named (st : stage) : bool :=
  match st with SCrit | SRLocked | SRCpu | SDisown => true | _ => false end.
Definition nesting (st : stage) : bool := match st with SOut | SPush => false | _ => true end.

(** The lock is taken exactly while one hart is inside, and names it exactly
    between its two stores to [lk->cpu]. *)
Definition owned (lk : spinlock) (sts : list stage) (o : option nat) : Prop :=
  lk_locked lk = bool_decide (is_Some o) ∧
  (∀ h st, sts !! h = Some st → inside st = true → o = Some h) ∧
  (∀ h, o = Some h → ∃ st, sts !! h = Some st ∧ inside st = true ∧
     lk_cpu lk = if named st then Some h else None) ∧
  (o = None → lk_cpu lk = None).
Definition hart_fits (c : cpu) (st : stage) : Prop :=
  0 <= c_noff c ∧ (nesting st = true → c_sie c = false ∧ 0 < c_noff c).
Record excl (s : contention) (sts : list stage) : Prop := {
  ex_owner : ∃ o, owned (ct_lk s) sts o;
  ex_len : length sts = length (ct_harts s);
  ex_harts : ∀ h c pc, ct_harts s !! h = Some (c, pc) →
    ∃ st, sts !! h = Some st ∧ pc = stage_pc h st ∧ hart_fits c st;
}.

Definition contend0 (cs : list cpu) : contention := Contention initlock ((λ c, (c, Out)) <$> cs).

Lemma contend0_excl cs :
  Forall (λ c, 0 <= c_noff c) cs → excl (contend0 cs) (replicate (length cs) SOut).
Proof.
  intros Hcs. split; cbn.
  - exists None. split_and!; try done.
    intros h st Hh Hi. apply lookup_replicate in Hh as [-> _]. done.
  - by rewrite length_replicate, length_fmap.
  - intros h c pc [c' [[= -> ->] Hc]]%list_lookup_fmap_Some.
    exists SOut. rewrite lookup_replicate. pose proof (lookup_lt_Some _ _ _ Hc).
    split_and!; [done | done | done |]. split; [| done]. by eapply Forall_lookup_1 in Hcs.
Qed.

(** A hart moves to another place, inside or outside as before. *)
Lemma owned_move lk sts o h st st' lk' :
  owned lk sts o → sts !! h = Some st → inside st' = inside st →
  lk_locked lk' = lk_locked lk →
  (inside st = true → lk_cpu lk' = if named st' then Some h else None) →
  (inside st = false → lk_cpu lk' = lk_cpu lk) →
  owned lk' (<[h := st']> sts) o.
Proof.
  intros (Hl & Hin & Hout & Hn) Hst Hi Hl' Hc Hc'. pose proof (lookup_lt_Some _ _ _ Hst) as Hlt.
  split_and!; [congruence | | |].
  - intros k q [(-> & <- & _)|[_ Hq]]%list_lookup_insert_Some ?; [| by eapply Hin].
    apply (Hin _ st); congruence.
  - intros k ->. destruct (Hout k eq_refl) as (q & Hq & Hqi & Hqc).
    destruct (decide (k = h)) as [->|Hne].
    + simplify_eq. exists st'. rewrite list_lookup_insert_eq by done. split_and!; [done | congruence |].
      by apply Hc.
    + exists q. rewrite list_lookup_insert_ne by done. split_and!; [done | done |].
      destruct (inside st) eqn:E; [| rewrite Hc' by done; done].
      pose proof (Hin h st Hst E). congruence.
  - intros ->. destruct (inside st) eqn:E; [by apply Hin in Hst |]. rewrite Hc' by done. by apply Hn.
Qed.

(** The swap that finds the lock free. *)
Lemma owned_take lk sts o h st :
  owned lk sts o → sts !! h = Some st → lk_locked lk = false →
  owned (SpinLock true (lk_cpu lk)) (<[h := SOwn]> sts) (Some h).
Proof.
  intros (Hl & Hin & Hout & Hn) Hst Hf. destruct o as [o|]; [by rewrite Hf in Hl |].
  pose proof (lookup_lt_Some _ _ _ Hst) as Hlt. split_and!; [done | | | done].
  - intros k q [(-> & <- & _)|[_ Hq]]%list_lookup_insert_Some Hqi; [done |].
    by apply Hin in Hq.
  - intros k [= <-]. exists SOwn. rewrite list_lookup_insert_eq by done.
    split_and!; [done | done |]. by apply Hn.
Qed.

(** The store that frees it. *)
Lemma owned_leave lk sts o h :
  owned lk sts o → sts !! h = Some SFree →
  owned (SpinLock false (lk_cpu lk)) (<[h := SPop]> sts) None.
Proof.
  intros (Hl & Hin & Hout & Hn) Hst. pose proof (Hin h _ Hst eq_refl) as ->.
  pose proof (lookup_lt_Some _ _ _ Hst) as Hlt. split_and!; [done | | done |].
  - intros k q [(-> & <- & _)|[Hne Hq]]%list_lookup_insert_Some Hqi; [done |].
    apply Hin in Hq; congruence.
  - intros _. destruct (Hout h eq_refl) as (q & Hq & _ & Hc). simplify_eq. done.
Qed.

(** [lk->cpu] names a hart exactly between its two stores to it, and the
    lock is taken all that time. *)
Lemma owned_named lk sts o h st :
  owned lk sts o → sts !! h = Some st →
  (lk_cpu lk = Some h ↔ named st = true) ∧ (named st = true → lk_locked lk = true).
Proof.
  intros (Hl & Hin & Hout & Hn) Hst. split; [split |].
  - intros Hc. destruct o as [o|]; [| by rewrite Hn in Hc].
    destruct (Hout o eq_refl) as (q & Hq & _ & E). rewrite Hc in E.
    destruct (named q) eqn:En; [| done]. by simplify_eq.
  - intros Hnm. assert (inside st = true) as Hi by (by destruct st).
    destruct (Hout h (Hin h _ Hst Hi)) as (q & Hq & _ & E). simplify_eq. by rewrite Hnm in E.
  - intros Hnm. assert (inside st = true) as Hi by (by destruct st).
    by rewrite Hl, (Hin h _ Hst Hi).
Qed.

Definition next_pc (pc : lkpc) (p : code (cpu * spinlock) unit) : lkpc :=
  match pc with Releasing _ => calling Out Releasing p | _ => calling Crit Acquiring p end.

(** The next access of a hart in [acquire] or [release] does not panic, and
    brings it to the next place. *)
Lemma tick_stage lk sts o h st c p :
  owned lk sts o → sts !! h = Some st → hart_fits c st →
  stage_pc h st = Acquiring p ∨ stage_pc h st = Releasing p →
  ∃ p' c' lk' st' o', tick p (c, lk) = Ret p' (c', lk') ∧ next_pc (stage_pc h st) p' = stage_pc h st' ∧
    owned lk' (<[h := st']> sts) o' ∧ hart_fits c' st'.
Proof.
  intros Ho Hst [H0 Hn] Hp. destruct (owned_named _ _ _ _ _ Ho Hst) as [Hnm Hlk].
  destruct st; cbn in Hp; destruct Hp as [Hp|Hp]; try discriminate Hp; injection Hp as <-;
    cbn in Hn, Hnm, Hlk.
  - eexists _, (pushed c), lk, SLocked, o. cbn. unfold bind, hop, zoom, ret. cbn.
    rewrite push_off_pushed. split_and!; [reflexivity | done | by eapply owned_move |].
    split; cbn; [lia | split; [done | lia]].
  - destruct (lk_locked lk) eqn:El.
    + eexists _, c, lk, SCpu, o. cbn. rewrite El. cbn.
      split_and!; [reflexivity | done | by eapply owned_move | by split].
    + eexists _, c, lk, SSwap, o. cbn. rewrite El. cbn.
      split_and!; [reflexivity | done | by eapply owned_move | by split].
  - eexists _, c, lk, SSwap, o. cbn. rewrite bool_decide_false by (intros E; by apply Hnm in E).
    split_and!; [reflexivity | done | by eapply owned_move | by split].
  - destruct (lk_locked lk) eqn:El.
    + eexists _, c, _, SSwap, o. unfold swap_code. cbn. unfold bind, test_and_set. cbn. rewrite El. cbn.
      split_and!; [reflexivity | done | by eapply owned_move | by split].
    + eexists _, c, _, SOwn, (Some h). cbn. unfold bind, test_and_set. cbn. rewrite El. cbn.
      split_and!; [reflexivity | done | by eapply owned_take | by split].
  - eexists _, c, _, SCrit, o. cbn. split_and!; [reflexivity | done | by eapply owned_move | by split].
  - eexists _, c, lk, SRCpu, o. cbn. rewrite Hlk by done.
    split_and!; [reflexivity | done | eapply owned_move; try done; intros _; by apply Hnm | by split].
  - eexists _, c, lk, SDisown, o. cbn. rewrite bool_decide_true by (by apply Hnm).
    split_and!; [reflexivity | done | eapply owned_move; try done; intros _; by apply Hnm | by split].
  - eexists _, c, _, SFree, o. cbn. split_and!; [reflexivity | done | by eapply owned_move | by split].
  - eexists _, c, _, SPop, None. cbn. split_and!; [reflexivity | done | by eapply owned_leave | by split].
  - destruct c as [p n i e]. cbn in Hn. destruct (Hn eq_refl) as [-> Hpos]. eexists _, _, lk, SOut, o.
    cbn. unfold bind, hop, zoom, ret. cbn. rewrite pop_off_last by done.
    split_and!; [reflexivity | done | by eapply owned_move |]. split; [cbn; lia | done].
Qed.

(** The stages after a step of hart [h]. *)
Lemma excl_set lk hs sts h c pc st lk' o' :
  excl (Contention lk hs) sts → owned lk' (<[h := st]> sts) o' → pc = stage_pc h st → hart_fits c st →
  excl (Contention lk' (<[h := (c, pc)]> hs)) (<[h := st]> sts).
Proof.
  intros [_ Hlen Hh] Ho -> Hf. cbn in *. split; cbn; [by eauto | by rewrite !length_insert |].
  intros k c' q [(-> & [= <- <-] & Hlt)|[Hne Hk]]%list_lookup_insert_Some.
  - exists st. rewrite list_lookup_insert_eq by lia. done.
  - rewrite list_lookup_insert_ne by done. by eapply Hh.
Qed.

Lemma lkstep_excl s s' sts : lkstep s s' → excl s sts → ∃ sts', excl s' sts'.
Proof.
  intros Hs Hex. pose proof Hex as [[o Ho] Hlen Hh]. destruct Hs as
    [lk hs h c Hc | lk hs h c Hc | lk hs h c p p' c' lk' Hc Ht | lk hs h c p p' c' lk' Hc Ht
    | lk hs h c p pc msg Hc Hp Ht | lk hs h c c' Hc H0 | lk hs h c c' Hc H0 Hsie]; cbn in *;
    destruct (Hh _ _ _ Hc) as (st & Hst & Epc & [Hn Hf]).
  - exists (<[h := SPush]> sts). destruct st; try discriminate Epc.
    eapply excl_set; [done | by eapply owned_move | done | by split].
  - exists (<[h := SRLocked]> sts). destruct st; try discriminate Epc.
    eapply excl_set; [done | | done | by split]. eapply owned_move; try done.
    intros _. cbn. by apply (owned_named _ _ _ _ _ Ho Hst).
  - destruct (tick_stage _ _ _ _ _ _ p Ho Hst (conj Hn Hf)) as (q & d & lk1 & st' & o' & E & En & Ho' & Hf'); [by left |].
    rewrite Ht in E. injection E as -> -> ->. rewrite <- Epc in En.
    exists (<[h := st']> sts). by eapply excl_set.
  - destruct (tick_stage _ _ _ _ _ _ p Ho Hst (conj Hn Hf)) as (q & d & lk1 & st' & o' & E & En & Ho' & Hf'); [by right |].
    rewrite Ht in E. injection E as -> -> ->. rewrite <- Epc in En.
    exists (<[h := st']> sts). by eapply excl_set.
  - exfalso. rewrite Epc in Hp.
    destruct (tick_stage _ _ _ _ _ _ p Ho Hst (conj Hn Hf) Hp) as (q & d & lk1 & st' & o' & E & _).
    by rewrite Ht in E.
  - exists (<[h := SOut]> sts). destruct st; try discriminate Epc.
    eapply excl_set; [done | by eapply owned_move | done | by split].
  - exists (<[h := SCrit]> sts). destruct st; try discriminate Epc.
    eapply excl_set; [done | | done | split; [lia | done]]. eapply owned_move; try done.
    intros _. cbn. by apply (owned_named _ _ _ _ _ Ho Hst).
Qed.

Lemma contention_excl cs s :
  Forall (λ c, 0 <= c_noff c) cs → rtc lkstep (contend0 cs) s → ∃ sts, excl s sts.
Proof.
  intros Hcs Hr. remember (contend0 cs) as s0 eqn:E.
  assert (∃ sts, excl s0 sts) as H0 by (subst; eauto using contend0_excl). clear E.
  induction Hr as [|s0 s1 s2 Hs _ IH]; [done |]. destruct H0 as [sts H0].
  apply IH. by eapply lkstep_excl.
Qed.

Definition in_call (pc : lkpc) (p : code (cpu * spinlock) unit) : Prop := pc = Acquiring p ∨ pc = Releasing p.

(** C9: spin locks exclude: harts that call [acquire] and [release], however
    their accesses interleave (every load and store of the lock on its own)
    and whatever other code they run outside and between, keep this: at most
    one hart is in the critical section, with interrupts off; [holding] is
    true there, and false on every hart outside and still in [acquire]; no
    hart has panicked, and the next access of a hart in [acquire] or
    [release] does not panic. *)
Theorem spinlock_mutex cs s :
  Forall (λ c, 0 <= c_noff c) cs → rtc lkstep (contend0 cs) s →
  (∀ h h' c c', ct_harts s !! h = Some (c, Crit) → ct_harts s !! h' = Some (c', Crit) → h = h') ∧
  (∀ h c, ct_harts s !! h = Some (c, Crit) → holding h (ct_lk s) = true ∧ c_sie c = false) ∧
  (∀ h c p, ct_harts s !! h = Some (c, Out) ∨ ct_harts s !! h = Some (c, Acquiring p) →
     holding h (ct_lk s) = false) ∧
  (∀ h c msg, ct_harts s !! h ≠ Some (c, Halted msg)) ∧
  (∀ h c pc p, ct_harts s !! h = Some (c, pc) → in_call pc p →
     ∃ p' s', tick p (c, ct_lk s) = Ret p' s').
Proof.
  intros Hcs Hr. destruct (contention_excl cs s Hcs Hr) as [sts [[o Ho] Hlen Hh]].
  assert (∀ h st, sts !! h = Some st → holding h (ct_lk s) = named st) as Hhold.
  { intros h st Hst. destruct (owned_named _ _ _ _ _ Ho Hst) as [Hn Hl]. unfold holding.
    destruct (named st); [rewrite Hl, bool_decide_true by naive_solver; done |].
    rewrite bool_decide_false by naive_solver. by rewrite andb_false_r. }
  split_and!.
  - intros h h' c c' H1 H2. destruct (Hh _ _ _ H1) as (st & Hst & E & _), (Hh _ _ _ H2) as (st' & Hst' & E' & _).
    destruct st, st'; try discriminate. destruct Ho as (_ & Hin & _).
    pose proof (Hin _ _ Hst eq_refl). pose proof (Hin _ _ Hst' eq_refl). congruence.
  - intros h c H1. destruct (Hh _ _ _ H1) as (st & Hst & E & _ & Hf). rewrite (Hhold _ _ Hst).
    destruct st; try discriminate. by destruct (Hf eq_refl).
  - intros h c p [H1|H1]; destruct (Hh _ _ _ H1) as (st & Hst & E & _); rewrite (Hhold _ _ Hst);
      by destruct st.
  - intros h c msg H1. destruct (Hh _ _ _ H1) as (st & _ & E & _). by destruct st.
  - intros h c pc p H1 Hp. destruct (Hh _ _ _ H1) as (st & Hst & -> & Hf).
    destruct (tick_stage _ _ _ _ _ _ p Ho Hst Hf Hp) as (p' & c' & lk' & _ & _ & E & _).
    by eexists _, _.
Qed.

(** Hart 0 takes the lock while hart 1 spins. *)
Definition two_harts : list cpu := [Cpu None 0 false true; Cpu None 0 false true].
Definition contended : contention :=
  Contention (SpinLock true (Some 0%nat)) [(Cpu None 1 true false, Crit); (Cpu None 1 true false, Acquiring (swap_code 1))].
Lemma contended_reached : rtc lkstep (contend0 two_harts) contended.
Proof.
  eapply rtc_l; [eapply (step_call_acquire _ _ 0); reflexivity |].
  eapply rtc_l; [eapply (step_call_acquire _ _ 1); reflexivity |].
  do 2 (eapply rtc_l; [eapply (step_acquiring _ _ 0); reflexivity |]).
  do 2 (eapply rtc_l; [eapply (step_acquiring _ _ 1); reflexivity |]).
  eapply rtc_l; [eapply (step_acquiring _ _ 0); reflexivity |].
  eapply rtc_l; [eapply (step_acquiring _ _ 1); reflexivity |].
  eapply rtc_l; [eapply (step_acquiring _ _ 0); reflexivity |]. apply rtc_refl.
Qed.
Lemma spinlock_mutex_witness :
  rtc lkstep (contend0 two_harts) contended ∧ holding 0 (ct_lk contended) = true.
Proof.
  split; [exact contended_reached |].
  apply (spinlock_mutex two_harts _ ltac:(repeat constructor; cbn; lia) contended_reached)
    with (c := Cpu None 1 true false). reflexivity.
Defined.
