(* ===== verification/Pipe.v ===== *)
(** * Pipes ([kernel/pipe.c])

    A pipe operation runs in sections: it holds [pi->lock] until it returns
    or goes to sleep, and a sleeper that wakes up continues with the test
    that put it to sleep.  A section is a function from the pipe (and the
    process's memory) to what it did, with the list of the channels it
    called [wakeup] on; [rounds] interleaves the sections of any number of
    readers and writers.  The contract is a bounded first-in first-out
    queue of bytes. *)
From S2P Require Import Prelude Params Fs Image UserMem.

Definition PIPESIZE : Z := 512.

Record pipe := Pipe {
  p_data : list Z; p_nread : Z; p_nwrite : Z; p_readopen : bool; p_writeopen : bool;
}.
(** [&pi->nread] and [&pi->nwrite] as sleep channels. *)
Inductive pchan := NRead | NWrite.

(** How a section ends: [return r], or [sleep] with the loop at [i]. *)
Inductive outcome := Return (r : Z) | Sleeping (c : pchan) (i : Z).

(** What [pipealloc] stores in a new page; the rest is the allocator's fill. *)
Definition pipe_init (page : list Z) : pipe := Pipe (take (Z.to_nat PIPESIZE) page) 0 0 true true.

(** [pi->data[pi->nwrite++ % PIPESIZE] = ch] *)
Definition pipe_put (ch : Z) (pi : pipe) : pipe :=
  Pipe (<[Z.to_nat (p_nwrite pi mod PIPESIZE) := ch]> (p_data pi)) (p_nread pi) (u32 (p_nwrite pi + 1))
       (p_readopen pi) (p_writeopen pi).
(** [ch = pi->data[pi->nread++ % PIPESIZE]] *)
Definition pipe_get (pi : pipe) : Z * pipe :=
  (p_data pi !!! Z.to_nat (p_nread pi mod PIPESIZE),
   Pipe (p_data pi) (u32 (p_nread pi + 1)) (p_nwrite pi) (p_readopen pi) (p_writeopen pi)).
Definition pipe_full (pi : pipe) : bool := bool_decide (p_nwrite pi = u32 (p_nread pi + PIPESIZE)).
Definition pipe_empty (pi : pipe) : bool := bool_decide (p_nread pi = p_nwrite pi).

(** [pipeclose]: the pipe, the channel woken, and whether the page is freed. *)
Definition pipeclose (writable : bool) (pi : pipe) : pipe * pchan * bool :=
  let '(pi, c) :=
    if writable then (Pipe (p_data pi) (p_nread pi) (p_nwrite pi) (p_readopen pi) false, NRead)
    else (Pipe (p_data pi) (p_nread pi) (p_nwrite pi) false (p_writeopen pi), NWrite) in
  (pi, c, negb (p_readopen pi) && negb (p_writeopen pi)).

Section Ops.
Context {U : Type} `{UserMem U}.

(** The loop of [pipewrite] from byte [i] on, [k] bytes before its end. *)
Fixpoint pipewrite_loop (k : nat) (killed : bool) (addr i : Z) (pi : pipe) (u : U)
    : outcome * pipe * list pchan :=
  match k with
  | O => (Return i, pi, [NRead])
  | S k =>
      if pipe_full pi then
        if negb (p_readopen pi) || killed then (Return (-1), pi, [])
        else (Sleeping NWrite i, pi, [NRead])
      else
        let '(r, bytes) := um_copyin (u64 (addr + i)) 1 u in
        if decide (r = -1) then (Return i, pi, [NRead])
        else pipewrite_loop k killed addr (i + 1) (pipe_put (default 0 (head bytes)) pi) u
  end.
(** A section of [pipewrite(pi, addr, n)] that starts, or resumes, at [i]. *)
Definition pipewrite (killed : bool) (addr n i : Z) (pi : pipe) (u : U) : outcome * pipe * list pchan :=
  pipewrite_loop (Z.to_nat (n - i)) killed addr i pi u.

(** The copy loop of [piperead]. *)
Fixpoint piperead_loop (k : nat) (addr i : Z) (pi : pipe) (u : U) : Z * pipe * U :=
  match k with
  | O => (i, pi, u)
  | S k =>
      if pipe_empty pi then (i, pi, u)
      else
        let '(ch, pi) := pipe_get pi in
        let '(r, u) := um_copyout (u64 (addr + i)) [ch] u in
        if decide (r = -1) then (i, pi, u)
        else piperead_loop k addr (i + 1) pi u
  end.
Definition piperead (killed : bool) (addr n : Z) (pi : pipe) (u : U) : outcome * pipe * U * list pchan :=
  if pipe_empty pi && p_writeopen pi then
    if killed then (Return (-1), pi, u, [])
    else (Sleeping NRead 0, pi, u, [])
  else
    let '(i, pi, u) := piperead_loop (Z.to_nat n) addr 0 pi u in
    (Return i, pi, u, [NWrite]).
End Ops.

(** ** The queue a pipe holds *)
Definition psize : nat := Z.to_nat PIPESIZE.

Record pipe_rep (pi : pipe) (q : list Z) : Prop := {
  pr_len : length (p_data pi) = psize;
  pr_cap : (length q ≤ psize)%nat;
  pr_read : 0 <= p_nread pi < 2 ^ 32;
  pr_write : p_nwrite pi = u32 (p_nread pi + Z.of_nat (length q));
  pr_data : ∀ (k : nat) x, q !! k = Some x →
    p_data pi !! Z.to_nat ((p_nread pi + Z.of_nat k) mod PIPESIZE) = Some x;
}.

Lemma u32_add_eq a k : 0 <= a < 2 ^ 32 → 0 <= k < 2 ^ 32 → u32 (a + k) = a → k = 0.
Proof.
  unfold u32. intros Ha Hk He. destruct (decide (a + k < 2 ^ 32)).
  - rewrite Z.mod_small in He; lia.
  - replace (a + k) with ((a + k - 2 ^ 32) + 1 * 2 ^ 32) in He by lia.
    rewrite Z_mod_plus_full, Z.mod_small in He by lia. lia.
Qed.

Lemma u32_add_inj a j k : 0 <= j < 2 ^ 32 → 0 <= k < 2 ^ 32 → u32 (a + j) = u32 (a + k) → j = k.
Proof.
  unfold u32. intros Hj Hk He.
  assert ((a + j - (a + k)) mod 2 ^ 32 = 0) as Hm by (rewrite Zminus_mod, He, Z.sub_diag; done).
  apply Z.mod_divide in Hm as [c Hc]; [| done]. nia.
Qed.

(** 512 divides the counters' modulus. *)
Lemma u32_mod_PIPESIZE a : u32 a mod PIPESIZE = a mod PIPESIZE.
Proof.
  unfold u32, PIPESIZE. apply Z.mod_mod_divide. exists (2 ^ 23). lia.
Qed.

Section Rep.
Context (pi : pipe) (q : list Z) (Hrep : pipe_rep pi q).

Lemma pipe_empty_iff : pipe_empty pi = bool_decide (q = []).
Proof.
  destruct Hrep as [_ Hc Hr Hw _]. unfold psize, PIPESIZE in Hc. unfold pipe_empty. apply bool_decide_ext. rewrite Hw. split.
  - intros E. symmetry in E. apply u32_add_eq in E; [| lia | lia]. destruct q; [done | simpl in E; lia].
  - intros ->. rewrite Z.add_0_r. symmetry. by apply Z.mod_small.
Qed.

Lemma pipe_full_iff : pipe_full pi = bool_decide (length q = psize).
Proof.
  destruct Hrep as [_ Hc Hr Hw _]. unfold psize, PIPESIZE in *. unfold pipe_full. apply bool_decide_ext. rewrite Hw.
  unfold PIPESIZE. split.
  - intros E%u32_add_inj; lia.
  - intros ->. done.
Qed.

Lemma pipe_put_rep ch : (length q < psize)%nat → pipe_rep (pipe_put ch pi) (q ++ [ch]).
Proof.
  destruct Hrep as [Hl Hc Hr Hw Hd]. intros Hlt. split; cbn [pipe_put p_data p_nread p_nwrite].
  - by rewrite length_insert.
  - rewrite length_app. simpl. lia.
  - done.
  - rewrite Hw, length_app. unfold u32. rewrite Zplus_mod_idemp_l. f_equal. simpl. lia.
  - intros k x Hk. rewrite Hw, u32_mod_PIPESIZE. apply lookup_app_Some in Hk as [Hk | [Hge Hk]].
    + rewrite list_lookup_insert_ne; [by apply Hd |]. apply lookup_lt_Some in Hk. unfold psize, PIPESIZE in *.
      intros E%(f_equal Z.of_nat). rewrite !Z2Nat.id in E by (apply Z.mod_pos_bound; lia).
      assert ((p_nread pi + Z.of_nat (length q) - (p_nread pi + Z.of_nat k)) mod 512 = 0) as Hm
        by (rewrite Zminus_mod, E, Z.sub_diag; done).
      rewrite Z.mod_small in Hm; lia.
    + apply list_lookup_singleton_Some in Hk as [E ->]. replace k with (length q) by lia.
      apply list_lookup_insert_eq. rewrite Hl. unfold psize. apply Z2Nat.inj_lt;
        try apply Z.mod_pos_bound; unfold PIPESIZE; lia.
Qed.
End Rep.

Lemma pipe_get_rep pi x q :
  pipe_rep pi (x :: q) → (pipe_get pi).1 = x ∧ pipe_rep (pipe_get pi).2 q.
Proof.
  intros [Hl Hc Hr Hw Hd]. split.
  - simpl. apply list_lookup_total_correct. rewrite <- (Z.add_0_r (p_nread pi)). by apply (Hd 0%nat).
  - split; cbn [pipe_get snd p_data p_nread p_nwrite].
    + done.
    + simpl in Hc. lia.
    + apply Z.mod_pos_bound. lia.
    + rewrite Hw. unfold u32. rewrite Zplus_mod_idemp_l. f_equal. simpl. lia.
    + intros k y Hk. rewrite <- Zplus_mod_idemp_l, u32_mod_PIPESIZE, Zplus_mod_idemp_l.
      replace (p_nread pi + 1 + Z.of_nat k) with (p_nread pi + Z.of_nat (S k)) by lia. by apply Hd.
Qed.

(** ** The sections against the queue *)
Definition free_slots (q : list Z) : nat := psize - length q.

Section Specs.
Context {U : Type} `{UserMemOk U}.
Implicit Types (u : U).

Lemma holds_u64 u va x bs : um_wf u → holds u va (x :: bs) → um_byte u (u64 va) = Some x ∧ u64 va = va.
Proof.
  intros Hw Hh. pose proof (Hh 0%nat x eq_refl) as Hx. rewrite Z.add_0_r in Hx.
  pose proof (um_byte_range _ _ _ Hw Hx). assert (u64 va = va) as -> by (apply Z.mod_small; lia). done.
Qed.

Lemma holds_inj u va bs bs' : holds u va bs → holds u va bs' → length bs = length bs' → bs = bs'.
Proof.
  intros Hh Hh' Hl. apply list_eq_same_length with (length bs); [done | done |].
  intros i x y _ Hx Hy. apply Hh in Hx. apply Hh' in Hy. congruence.
Qed.

Lemma holds_tail u va x bs : holds u va (x :: bs) → holds u (va + 1) bs.
Proof. intros Hh k y Hk. replace (va + 1 + Z.of_nat k) with (va + Z.of_nat (S k)) by lia. by apply Hh. Qed.

Lemma pipewrite_loop_spec killed addr bs i pi q u :
  um_wf u → 0 <= addr + i → pipe_rep pi q → holds u (addr + i) bs →
  ∃ pi' o w, pipewrite_loop (length bs) killed addr i pi u = (o, pi', w) ∧
    pipe_rep pi' (q ++ take (free_slots q) bs) ∧ p_readopen pi' = p_readopen pi ∧ p_writeopen pi' = p_writeopen pi ∧
    (o, w) = (if decide (length bs ≤ free_slots q)%nat then (Return (i + Z.of_nat (length bs)), [NRead])
              else if negb (p_readopen pi) || killed then (Return (-1), [])
              else (Sleeping NWrite (i + Z.of_nat (free_slots q)), [NRead])).
Proof.
  intros Hw. revert i pi q. induction bs as [|x bs IH]; intros i pi q Ha Hr Hh; cbn [pipewrite_loop length].
  { eexists _, _, _. split; [done |]. rewrite take_nil, app_nil_r. split_and!; try done.
    rewrite decide_True by lia. by rewrite Z.add_0_r. }
  rewrite (pipe_full_iff pi q Hr). pose proof (pr_cap _ _ Hr) as Hc. unfold free_slots in *.
  case_bool_decide as Hf.
  - rewrite Hf, Nat.sub_diag, decide_False by lia. rewrite Z.add_0_r. cbn [take]. rewrite app_nil_r.
    destruct (negb (p_readopen pi) || killed); eexists _, _, _; split_and!; done.
  - destruct (holds_u64 _ _ _ _ Hw Hh) as [Hx Hu]. rewrite Hu in Hx |- *.
    assert (um_copyin (addr + i) 1 u = (0, [x])) as ->.
    { apply (um_copyin_ok u (addr + i) [x]); [done | done |]. intros [|k] y Hy; [| done]. simplify_eq/=.
      by rewrite Z.add_0_r. }
    rewrite decide_False by done. cbn [head default].
    destruct (IH (i + 1) (pipe_put x pi) (q ++ [x])) as (pi' & o & w & E & Hr' & E1 & E2 & Eo).
    { lia. } { apply pipe_put_rep; [done | lia]. }
    { rewrite Z.add_assoc. by eapply holds_tail. }
    exists pi', o, w. cbn [from_option id]. unfold default, id. rewrite E. split; [done |].
    rewrite length_app in *. simpl in Hr', Eo.
    assert (take (psize - length q) (x :: bs) = x :: take (psize - (length q + 1)) bs) as ->.
    { destruct (psize - length q)%nat as [|m] eqn:Em; [lia |]. simpl. do 2 f_equal. lia. }
    rewrite <- app_assoc in Hr'. split_and!; try done. rewrite Eo.
    repeat case_decide; try lia; [do 2 f_equal; lia |]. destruct (_ || _); [done |]. do 2 f_equal. lia.
Qed.

Lemma piperead_loop_spec addr k i pi q u :
  um_wf u → 0 <= addr + i → pipe_rep pi q → accessible u (addr + i) (Z.of_nat k) →
  let m := Nat.min k (length q) in
  ∃ pi' u', piperead_loop k addr i pi u = (i + Z.of_nat m, pi', u') ∧ pipe_rep pi' (drop m q) ∧ um_wf u' ∧
    p_readopen pi' = p_readopen pi ∧ p_writeopen pi' = p_writeopen pi ∧
    holds u' (addr + i) (take m q) ∧
    ∀ a, ¬ (addr + i <= a < addr + i + Z.of_nat m) → um_byte u' a = um_byte u a.
Proof.
  revert i pi q u. induction k as [|k IH]; intros i pi q u Hw Ha Hr Hacc; cbn [piperead_loop].
  { exists pi, u. rewrite Z.add_0_r. simpl. split_and!; done. }
  rewrite (pipe_empty_iff pi q Hr). destruct q as [|x q].
  { rewrite bool_decide_true by done. exists pi, u. simpl. rewrite Z.add_0_r. split_and!; done. }
  rewrite bool_decide_false by done. destruct (pipe_get_rep pi x q Hr) as [Ex Hr'].
  destruct (pipe_get pi) as [ch pi1] eqn:Eg. simpl in Ex, Hr'. subst ch.
  assert (Ef : p_readopen pi1 = p_readopen pi ∧ p_writeopen pi1 = p_writeopen pi) by (by injection Eg as _ <-).
  destruct (Hacc 0 ltac:(lia)) as [y Hy]. rewrite Z.add_0_r in Hy. pose proof (um_byte_range _ _ _ Hw Hy) as Hrg.
  assert (u64 (addr + i) = addr + i) as -> by (apply Z.mod_small; lia).
  destruct (um_copyout_ok u (addr + i) [x] Hw Ha) as (u1 & Eo & Hw1 & Hb1).
  { intros j Hj. simpl in Hj. replace j with 0%nat by lia. rewrite Z.add_0_r. eauto. }
  rewrite Eo. rewrite decide_False by done. simpl in Hb1.
  destruct (IH (i + 1) pi1 q u1) as (pi' & u' & E & R & W & O1 & O2 & Hh & Hout); try done; [lia | |].
  { intros j Hj. rewrite Hb1. rewrite decide_False by lia.
    replace (addr + (i + 1) + j) with (addr + i + (1 + j)) by lia. apply Hacc. lia. }
  exists pi', u'. rewrite E. simpl. destruct Ef as [<- <-]. split_and!; try done.
  - do 2 f_equal. lia.
  - intros [|j] z Hz; simpl in Hz.
    + simplify_eq. rewrite Z.add_0_r, Hout, Hb1 by lia. rewrite decide_True by lia. by rewrite Z.sub_diag.
    + replace (addr + i + Z.of_nat (S j)) with (addr + (i + 1) + Z.of_nat j) by lia. by apply Hh.
  - intros a Hna. rewrite Hout by lia. rewrite Hb1. by rewrite decide_False by lia.
Qed.
End Specs.

(** ** Interleavings

    What any sequence of sections of readers and writers, in whatever
    processes, does to a new pipe: [sent] are the bytes the writers' calls
    took from their buffers, [recv] the bytes the readers found in theirs. *)
Section Interleaving.
Context {U : Type} `{UserMemOk U}.

Definition count (pi pi' : pipe) : nat := Z.to_nat (u32 (p_nwrite pi' - p_nwrite pi)).
Definition returned (o : outcome) : Z := match o with Return r => Z.max 0 r | Sleeping _ _ => 0 end.

Inductive rounds : pipe → list Z → list Z → Prop :=
| rd_new page : length page = 4096%nat → rounds (pipe_init page) [] []
| rd_write pi sent recv (u : U) killed addr bytes i o pi' w :
    rounds pi sent recv → um_wf u → 0 <= addr → holds u addr bytes → (i ≤ length bytes)%nat →
    pipewrite killed addr (Z.of_nat (length bytes)) (Z.of_nat i) pi u = (o, pi', w) →
    rounds pi' (sent ++ take (count pi pi') (drop i bytes)) recv
| rd_read pi sent recv (u u' : U) killed addr n out o pi' w :
    rounds pi sent recv → um_wf u → 0 <= addr → accessible u addr n →
    piperead killed addr n pi u = (o, pi', u', w) →
    Z.of_nat (length out) = returned o → holds u' addr out →
    rounds pi' sent (recv ++ out)
| rd_close pi sent recv writable :
    rounds pi sent recv → rounds (pipeclose writable pi).1.1 sent recv.

Lemma pipe_init_rep page : length page = 4096%nat → pipe_rep (pipe_init page) [].
Proof.
  intros Hl. split; cbn [pipe_init p_data p_nread p_nwrite].
  - rewrite length_take. unfold psize, PIPESIZE. lia.
  - simpl. lia.
  - lia.
  - done.
  - done.
Qed.

Lemma pipeclose_rep writable pi q : pipe_rep pi q → pipe_rep (pipeclose writable pi).1.1 q.
Proof. intros []. destruct writable; split; done. Qed.

Lemma count_rep pi q pi' bs : pipe_rep pi q → pipe_rep pi' (q ++ bs) → p_nread pi' = p_nread pi → count pi pi' = length bs.
Proof.
  intros [_ _ _ Hw _] [_ Hc _ Hw' _] Er. unfold count. rewrite Hw', Hw, Er, length_app. unfold u32.
  rewrite <- Zminus_mod. replace (_ + _ - _) with (Z.of_nat (length bs)) by lia.
  rewrite length_app in Hc. unfold psize, PIPESIZE in Hc. rewrite Z.mod_small; lia.
Qed.

Lemma pipewrite_loop_nread k killed addr i pi (u : U) : p_nread (pipewrite_loop k killed addr i pi u).1.2 = p_nread pi.
Proof.
  revert i pi. induction k as [|k IH]; intros i pi; simpl; [done |]. destruct (pipe_full pi).
  - by destruct (_ || _).
  - destruct (um_copyin _ _ _) as [r bytes]. case_decide; [done |]. by rewrite IH.
Qed.

Lemma pipewrite_rep killed addr bytes (i : nat) pi q (u : U) :
  um_wf u → 0 <= addr → pipe_rep pi q → holds u addr bytes → (i ≤ length bytes)%nat →
  let n := Z.of_nat (length bytes) in
  ∃ pi' o w, pipewrite killed addr n (Z.of_nat i) pi u = (o, pi', w) ∧
    pipe_rep pi' (q ++ take (free_slots q) (drop i bytes)) ∧
    p_readopen pi' = p_readopen pi ∧ p_writeopen pi' = p_writeopen pi ∧
    (o, w) = (if decide (n - Z.of_nat i <= Z.of_nat (free_slots q)) then (Return n, [NRead])
              else if negb (p_readopen pi) || killed then (Return (-1), [])
              else (Sleeping NWrite (Z.of_nat i + Z.of_nat (free_slots q)), [NRead])).
Proof.
  intros Hw Ha Hr Hh Hi n. unfold pipewrite, n.
  replace (Z.to_nat (Z.of_nat (length bytes) - Z.of_nat i)) with (length (drop i bytes)) by (rewrite length_drop; lia).
  destruct (pipewrite_loop_spec killed addr (drop i bytes) (Z.of_nat i) pi q u Hw ltac:(lia) Hr) as (pi' & o & w & E & R & F1 & F2 & Eo).
  { intros k x Hk. rewrite lookup_drop in Hk. rewrite <- Z.add_assoc, <- Nat2Z.inj_add. by apply Hh. }
  exists pi', o, w. split_and!; try done. rewrite Eo, length_drop.
  clear Eo; repeat case_decide; try lia; [| done]. do 2 f_equal. lia.
Qed.

Lemma piperead_rep killed addr n pi q (u : U) :
  um_wf u → 0 <= addr → pipe_rep pi q → accessible u addr n →
  if decide (q = [] ∧ p_writeopen pi = true) then
    piperead killed addr n pi u = (if killed then Return (-1) else Sleeping NRead 0, pi, u, [])
  else let m := Nat.min (Z.to_nat n) (length q) in
    ∃ pi' u', piperead killed addr n pi u = (Return (Z.of_nat m), pi', u', [NWrite]) ∧
      pipe_rep pi' (drop m q) ∧ um_wf u' ∧ p_readopen pi' = p_readopen pi ∧ p_writeopen pi' = p_writeopen pi ∧
      holds u' addr (take m q) ∧
      ∀ a, ¬ (addr <= a < addr + Z.of_nat m) → um_byte u' a = um_byte u a.
Proof.
  intros Hw Ha Hr Hacc. unfold piperead. rewrite (pipe_empty_iff pi q Hr). case_decide as Hq.
  - destruct Hq as [-> ->]. rewrite bool_decide_true by done. by destruct killed.
  - assert (bool_decide (q = []) && p_writeopen pi = false) as ->.
    { apply andb_false_iff. case_bool_decide; [right | by left]. destruct (p_writeopen pi); [tauto | done]. }
    destruct (piperead_loop_spec addr (Z.to_nat n) 0 pi q u Hw) as (pi' & u' & E & P); try done; [lia | |].
    { intros k Hk. rewrite Z.add_0_r. apply Hacc. lia. }
    rewrite Z.add_0_r in P. exists pi', u'. rewrite E. done.
Qed.

(** C8: a pipe delivers the bytes written to it, in order, each once: in
    every interleaving of reader and writer sections (including sleeping,
    killed and closing ones, and with the 32-bit counters wrapping), the
    bytes sent are the bytes received followed by the at most [PIPESIZE]
    bytes still queued. *)
Theorem pipe_fifo pi sent recv :
  rounds pi sent recv → ∃ q, sent = recv ++ q ∧ (length q ≤ Z.to_nat PIPESIZE)%nat ∧ pipe_rep pi q.
Proof.
  induction 1 as [page Hp | pi sent recv u killed addr bytes i o pi' w _ (q & -> & Hc & Hr) Hw Ha Hh Hi E
    | pi sent recv u u' killed addr n out o pi' w _ (q & -> & Hc & Hr) Hw Ha Hacc E Hout Hh | pi sent recv writable _ (q & -> & Hc & Hr)].
  - exists []. split_and!; [done | simpl; lia | by apply pipe_init_rep].
  - destruct (pipewrite_rep killed addr bytes i pi q u Hw Ha Hr Hh Hi) as (pi2 & o2 & w2 & E2 & R2 & _).
    rewrite E in E2. simplify_eq. pose proof (pipewrite_loop_nread (Z.to_nat (Z.of_nat (length bytes) - Z.of_nat i)) killed addr
      (Z.of_nat i) pi u) as Hnr. unfold pipewrite in E. rewrite E in Hnr. simpl in Hnr.
    rewrite (count_rep _ _ _ _ Hr R2 Hnr). exists (q ++ take (free_slots q) (drop i bytes)). split_and!; [| apply R2 | done].
    rewrite <- app_assoc. do 2 f_equal. rewrite length_take.
    destruct (Nat.min_spec (free_slots q) (length (drop i bytes))) as [[Hm ->] | [Hm ->]]; [done |].
    by rewrite !take_ge.
  - pose proof (piperead_rep killed addr n pi q u Hw Ha Hr Hacc) as Hrd. case_decide as Hq.
    + rewrite E in Hrd. assert (out = []) as ->; [| rewrite app_nil_r; exists q; naive_solver].
      destruct killed; simplify_eq/=; apply nil_length_inv; lia.
    + destruct Hrd as (pi2 & u2 & E2 & R2 & _ & _ & _ & Hh2 & _). rewrite E in E2. simplify_eq/=.
      set (m := Nat.min (Z.to_nat n) (length q)) in *. assert (out = take m q) as ->.
      { eapply holds_inj; [done | done |]. rewrite length_take. unfold m in *. lia. }
      exists (drop m q). split_and!; [| rewrite length_drop; lia | done]. by rewrite <- app_assoc, take_drop.
  - exists q. split_and!; [done | done | by apply pipeclose_rep].
Qed.
End Interleaving.

Section Theorems.
Context {U : Type} `{UserMemOk U}.

(** a section of [pipewrite] that resumes at byte [i] appends as many
    of the remaining bytes as the pipe has room for. When all fit it
    returns [n]; otherwise it sleeps at the first byte that did not, or
    returns -1 when the read end is closed or the process is killed. It
    wakes the readers unless it fails with -1. *)
Theorem pipewrite_correct killed addr bytes (i : nat) pi q (u : U) :
  um_wf u → 0 <= addr → holds u addr bytes → (i ≤ length bytes)%nat → pipe_rep pi q →
  let n := Z.of_nat (length bytes) in
  let room := PIPESIZE - Z.of_nat (length q) in
  ∃ pi' o w, pipewrite killed addr n (Z.of_nat i) pi u = (o, pi', w) ∧
    pipe_rep pi' (q ++ take (Z.to_nat room) (drop i bytes)) ∧
    (o, w) = (if decide (n - Z.of_nat i <= room) then (Return n, [NRead])
              else if negb (p_readopen pi) || killed then (Return (-1), [])
              else (Sleeping NWrite (Z.of_nat i + room), [NRead])).
Proof.
  intros Hw Ha Hh Hi Hr n room. pose proof (pr_cap _ _ Hr) as Hc. unfold psize, PIPESIZE in Hc.
  assert (Hroom : Z.of_nat (free_slots q) = room) by (unfold free_slots, psize, room, PIPESIZE; lia).
  destruct (pipewrite_rep killed addr bytes i pi q u Hw Ha Hr Hh Hi) as (pi' & o & w & E & R & _ & _ & Eo).
  exists pi', o, w. rewrite Hroom in Eo. split_and!; [done | | exact Eo].
  replace (Z.to_nat room) with (free_slots q) by lia. done.
Qed.

(** a [piperead] of an empty pipe whose write end is open sleeps, or
    returns -1 in a killed process; otherwise it returns the number of
    bytes it could take, at most [n], leaves exactly the first bytes of the
    queue in the user's buffer and nothing else changed there, and wakes
    the writers. *)
Theorem piperead_correct killed addr n pi q (u : U) :
  um_wf u → 0 <= addr → accessible u addr n → pipe_rep pi q →
  if decide (q = [] ∧ p_writeopen pi = true) then
    piperead killed addr n pi u = (if killed then Return (-1) else Sleeping NRead 0, pi, u, [])
  else let m := Nat.min (Z.to_nat n) (length q) in
    ∃ pi' u', piperead killed addr n pi u = (Return (Z.of_nat m), pi', u', [NWrite]) ∧
      pipe_rep pi' (drop m q) ∧ holds u' addr (take m q) ∧
      ∀ a, ¬ (addr <= a < addr + Z.of_nat m) → um_byte u' a = um_byte u a.
Proof.
  intros Hw Ha Hacc Hr. pose proof (piperead_rep killed addr n pi q u Hw Ha Hr Hacc) as Hrd.
  case_decide; [done |]. destruct Hrd as (pi' & u' & E & R & _ & _ & _ & Hh & Ho). by exists pi', u'.
Qed.
End Theorems.

(** ** On concrete memories *)
Definition hi_mem : list Z := [104; 105] ++ replicate 14 0.
Definition new_pipe : pipe := pipe_init (replicate 4096 5).
Definition hi_pipe : pipe := (pipewrite false 0 2 0 new_pipe hi_mem).1.2.

Lemma new_pipe_rep : pipe_rep new_pipe [].
Proof. apply pipe_init_rep. reflexivity. Qed.

Lemma hi_holds : holds hi_mem 0 [104; 105].
Proof. intros [|[|k]] x Hx; simplify_eq/=; reflexivity. Qed.

Lemma hi_accessible : accessible hi_mem 4 3.
Proof.
  intros k Hk. assert (k = 0 ∨ k = 1 ∨ k = 2) as [-> | [-> | ->]] by lia; eexists; reflexivity.
Qed.

Lemma hi_pipe_rep : pipe_rep hi_pipe [104; 105].
Proof.
  destruct (pipewrite_rep false 0 [104; 105] 0 new_pipe [] hi_mem) as (pi' & o & w & E & R & _);
    [done | done | apply new_pipe_rep | apply hi_holds | simpl; lia |].
  assert (E' : pipewrite false 0 2 0 new_pipe hi_mem = (o, pi', w)) by exact E.
  unfold hi_pipe. rewrite E'. exact R.
Qed.

Lemma pipewrite_correct_witness :
  ∃ pi' o w, pipewrite false 0 2 0 new_pipe hi_mem = (o, pi', w) ∧
    pipe_rep pi' ([] ++ take 512 (drop 0 [104; 105])) ∧
    (o, w) = (if decide (2 - 0 <= 512) then (Return 2, [NRead])
              else if negb true || false then (Return (-1), []) else (Sleeping NWrite (0 + 512), [NRead])).
Proof.
  apply (pipewrite_correct false 0 [104; 105] 0 new_pipe [] hi_mem);
    [reflexivity | lia | apply hi_holds | simpl; lia | apply new_pipe_rep].
Defined.

Lemma piperead_correct_witness :
  ∃ pi' u', piperead false 4 3 hi_pipe hi_mem = (Return 2, pi', u', [NWrite]) ∧
    pipe_rep pi' [] ∧ holds u' 4 [104; 105] ∧
    ∀ a, ¬ (4 <= a < 4 + 2) → um_byte u' a = um_byte hi_mem a.
Proof.
  apply (piperead_correct false 4 3 hi_pipe [104; 105] hi_mem);
    [reflexivity | lia | apply hi_accessible | apply hi_pipe_rep].
Defined.

(** A write of two bytes, then a read of one of them. *)
Lemma pipe_fifo_witness :
  rounds (U := list Z) (piperead false 4 1 hi_pipe hi_mem).1.1.2 [104; 105] [104] ∧
  ∃ q, [104; 105] = [104] ++ q ∧ (length q ≤ 512)%nat ∧
    pipe_rep (piperead false 4 1 hi_pipe hi_mem).1.1.2 q.
Proof.
  assert (Hrd : rounds (U := list Z) (piperead false 4 1 hi_pipe hi_mem).1.1.2 [104; 105] [104]).
  { eapply (rd_read hi_pipe [104; 105] [] hi_mem _ false 4 1 [104]).
    - apply (rd_write new_pipe [] [] hi_mem false 0 [104; 105] 0 (Return 2) hi_pipe [NRead]).
      + apply rd_new. reflexivity.
      + reflexivity.
      + lia.
      + apply hi_holds.
      + simpl. lia.
      + vm_compute. reflexivity.
    - reflexivity.
    - lia.
    - intros k Hk. apply hi_accessible. lia.
    - vm_compute. reflexivity.
    - reflexivity.
    - intros [|k] x Hx; simplify_eq/=. reflexivity. }
  split; [exact Hrd |]. apply (pipe_fifo (U := list Z) _ _ _ Hrd).
Defined.
