(* ===== verification/File.v ===== *)
(** * Open files ([kernel/file.c], and [pipealloc] of [kernel/pipe.c])

    The system's file table, the descriptors of the running process and the
    pipes, on top of the file system.  A [struct file *] is an index into
    [ftable.file]; a [struct pipe *] is the address of the page it was
    allocated in, 0 for none.  The free pages are the stack that
    [Kalloc] shows the allocator to be. *)
From S2P Require Import Prelude Params CString Locks BlockLayer Fs Dir Pipe.
Import CString.

Inductive ftype := FD_NONE | FD_PIPE | FD_INODE | FD_DEVICE.
#[export] Instance ftype_eq_dec : EqDecision ftype.
Proof. solve_decision. Defined.

Record file := File {
  f_type : ftype; f_ref : Z; f_readable : bool; f_writable : bool;
  f_pipe : Z; f_ip : option nat; f_off : Z; f_major : Z;
}.
Definition file0 : file := File FD_NONE 0 false false 0 None 0 0.
#[export] Instance file_inhabited : Inhabited file := populate file0.

Definition set_fref (r : Z) (f : file) : file :=
  File (f_type f) r (f_readable f) (f_writable f) (f_pipe f) (f_ip f) (f_off f) (f_major f).
Definition set_ftype (t : ftype) (f : file) : file :=
  File t (f_ref f) (f_readable f) (f_writable f) (f_pipe f) (f_ip f) (f_off f) (f_major f).
Definition set_foff (o : Z) (f : file) : file :=
  File (f_type f) (f_ref f) (f_readable f) (f_writable f) (f_pipe f) (f_ip f) o (f_major f).
Definition set_fmajor (m : Z) (f : file) : file :=
  File (f_type f) (f_ref f) (f_readable f) (f_writable f) (f_pipe f) (f_ip f) (f_off f) m.
Definition set_fip (i : option nat) (f : file) : file :=
  File (f_type f) (f_ref f) (f_readable f) (f_writable f) (f_pipe f) i (f_off f) (f_major f).
Definition set_frw (r w : bool) (f : file) : file :=
  File (f_type f) (f_ref f) r w (f_pipe f) (f_ip f) (f_off f) (f_major f).
(** What [pipealloc] stores in its two files. *)
Definition set_fpipe (r w : bool) (pi : Z) (f : file) : file :=
  File FD_PIPE (f_ref f) r w pi (f_ip f) (f_off f) (f_major f).

(** [devsw]: the drivers, indexed by major number; they work on their own
    state and on the process's memory. *)
Class DevSw (D U : Type) := {
  devsw_read : Z → option (Z → Z → M (D * U) Z);
  devsw_write : Z → option (Z → Z → M (D * U) Z);
}.

(** The kernel state of file calls: the file system (with the process's
    memory and current directory), the file table, the process's
    descriptors, the pipes and free pages, the devices, and what else of
    [struct proc] the calls use: the argument registers, [sz], [killed]. *)
Record kst (S U D : Type) := Kst {
  k_fs : fst S U;
  k_ftable : list file;
  k_ofile : list (option nat);
  k_pipes : gmap Z pipe;
  k_pages : list Z;
  k_dev : D;
  k_args : list Z;
  k_sz : Z;
  k_killed : bool;
}.
Arguments Kst {S U D}.
Arguments k_fs {S U D}.
Arguments k_ftable {S U D}.
Arguments k_ofile {S U D}.
Arguments k_pipes {S U D}.
Arguments k_pages {S U D}.
Arguments k_dev {S U D}.
Arguments k_args {S U D}.
Arguments k_sz {S U D}.
Arguments k_killed {S U D}.

Definition nfile : nat := Z.to_nat NFILE.
Definition nofile : nat := Z.to_nat NOFILE.

Section Ops.
Context {S U D : Type} `{BlockLayer S} `{UserMem U} `{DevSw D U}.
Notation st := (kst S U D).

Definition fsop {A} (m : M (fst S U) A) : M st A :=
  zoom k_fs (λ f s, Kst f (k_ftable s) (k_ofile s) (k_pipes s) (k_pages s) (k_dev s) (k_args s) (k_sz s) (k_killed s)) m.
Definition put_mem (u : U) (s : st) : st :=
  let f := k_fs s in
  Kst (Fst (fs_bl f) (fs_sb f) (fs_icache f) (fs_cwd f) u)
      (k_ftable s) (k_ofile s) (k_pipes s) (k_pages s) (k_dev s) (k_args s) (k_sz s) (k_killed s).
Definition put_ftable (t : list file) (s : st) : st :=
  Kst (k_fs s) t (k_ofile s) (k_pipes s) (k_pages s) (k_dev s) (k_args s) (k_sz s) (k_killed s).
Definition put_ofile (o : list (option nat)) (s : st) : st :=
  Kst (k_fs s) (k_ftable s) o (k_pipes s) (k_pages s) (k_dev s) (k_args s) (k_sz s) (k_killed s).
Definition put_pipes (p : gmap Z pipe) (s : st) : st :=
  Kst (k_fs s) (k_ftable s) (k_ofile s) p (k_pages s) (k_dev s) (k_args s) (k_sz s) (k_killed s).
Definition put_pages (l : list Z) (s : st) : st :=
  Kst (k_fs s) (k_ftable s) (k_ofile s) (k_pipes s) l (k_dev s) (k_args s) (k_sz s) (k_killed s).
Definition put_dev (d : D) (s : st) : st :=
  Kst (k_fs s) (k_ftable s) (k_ofile s) (k_pipes s) (k_pages s) d (k_args s) (k_sz s) (k_killed s).

Definition file_at (f : nat) (s : st) : file := k_ftable s !!! f.
Definition upd_file (f : nat) (g : file → file) : M st unit :=
  modify (λ s, put_ftable (alter g f (k_ftable s)) s).
(** Dereferencing [f->ip]. *)
Definition ip_of (f : file) : M st nat := some_or_oob (f_ip f).

(** *** [file.c] *)
Definition filealloc : M st (option nat) :=
  let! t := gets k_ftable in
  match list_find (λ f, f_ref f = 0) t with
  | Some (f, _) => upd_file f (set_fref 1);; ret (Some f)
  | None => ret None
  end.

Definition filedup (f : nat) : M st nat :=
  let! x := gets (file_at f) in
  if decide (f_ref x < 1) then panic "filedup"
  else upd_file f (set_fref (f_ref x + 1));; ret f.

(** [pipeclose(pi, writable)] on the pipe of a page; the page goes back to
    the allocator when both ends are closed. *)
Definition close_pipe (pi : Z) (writable : bool) : M st unit :=
  let! ps := gets k_pipes in
  match ps !! pi with
  | None => oob
  | Some p =>
      let '(p, _, freed) := pipeclose writable p in
      if freed : bool then
        modify (λ s, put_pages (pi :: k_pages s) (put_pipes (delete pi ps) s))
      else modify (put_pipes (<[pi := p]> ps))
  end.

Definition fileclose (f : nat) : M st unit :=
  let! x := gets (file_at f) in
  if decide (f_ref x < 1) then panic "fileclose"
  else
    upd_file f (set_fref (f_ref x - 1));;
    if decide (f_ref x - 1 > 0) then ret tt
    else
      upd_file f (λ y, set_ftype FD_NONE (set_fref 0 y));;
      match f_type x with
      | FD_PIPE => close_pipe (f_pipe x) (f_writable x)
      | FD_INODE | FD_DEVICE =>
          fsop (bl bl_begin_op);;
          let! ip := ip_of x in
          fsop (iput ip);;
          fsop (bl bl_end_op)
      | FD_NONE => ret tt
      end.

(** [struct stat] as it lies in memory; [pad] is what the stack held in its
    two holes. *)
Definition stat_bytes (pad : list Z) (t : stat) : list Z :=
  le_enc 4 (u32 (st_dev t)) ++ le_enc 4 (st_ino t) ++ le_enc 2 (u16 (st_type t)) ++ le_enc 2 (u16 (st_nlink t)) ++
  take 4 pad ++ le_enc 8 (st_size t) ++ le_enc 2 (u16 (st_mode t)) ++ le_enc 2 (u16 (st_perm t)) ++ drop 4 pad.

(** [copyout(p->pagetable, addr, data, len)] *)
Definition copy_to_user (addr : Z) (data : list Z) : M st Z := λ s,
  let '(r, u) := um_copyout addr data (fs_mem (k_fs s)) in Ret r (put_mem u s).

Definition filestat (pad : list Z) (f : nat) (addr : Z) : M st Z :=
  let! x := gets (file_at f) in
  match f_type x with
  | FD_INODE | FD_DEVICE =>
      let! ip := ip_of x in
      fsop (ilock ip);;
      let! t := fsop (stati ip) in
      fsop (iunlock ip);;
      let! r := copy_to_user addr (stat_bytes pad t) in
      if decide (r < 0) then ret (-1) else ret 0
  | _ => ret (-1)
  end.

(** A section of a pipe operation; a sleeping one ends the run. *)
Definition pipe_section (pi : Z) (op : pipe → U → outcome * pipe * U) : M st Z := λ s,
  match k_pipes s !! pi with
  | None => Panic "out-of-bounds access"
  | Some p =>
      let '(o, p, u) := op p (fs_mem (k_fs s)) in
      let s := put_mem u (put_pipes (<[pi := p]> (k_pipes s)) s) in
      match o with Return r => Ret r s | Sleeping _ _ => Wait "pipe" s end
  end.

Definition dev_call (op : Z → Z → M (D * U) Z) (addr n : Z) : M st Z :=
  zoom (λ s, (k_dev s, fs_mem (k_fs s))) (λ du s, put_dev du.1 (put_mem du.2 s)) (op addr n).

Definition fileread (f : nat) (addr n : Z) : M st Z :=
  let! x := gets (file_at f) in
  if negb (f_readable x) then ret (-1)
  else match f_type x with
  | FD_PIPE =>
      let! killed := gets k_killed in
      pipe_section (f_pipe x) (λ p u, let '(o, p, u, _) := piperead killed addr n p u in (o, p, u))
  | FD_DEVICE =>
      if decide (f_major x < 0 ∨ f_major x >= NDEV) then ret (-1)
      else match devsw_read (f_major x) with
      | None => ret (-1)
      | Some op => dev_call op addr n
      end
  | FD_INODE =>
      let! ip := ip_of x in
      fsop (ilock ip);;
      let! (r, _) := fsop (readi ip (User addr) (f_off x) (u32 n)) in
      (if decide (r > 0) then upd_file f (λ y, set_foff (u32 (f_off y + r)) y) else ret tt);;
      fsop (iunlock ip);;
      ret r
  | FD_NONE => panic "fileread"
  end.

(** The most that one transaction writes. *)
Definition write_max : Z := (MAXOPBLOCKS - 1 - 1 - 2) / 2 * BSIZE.

(** The loop of [filewrite]: the final [i]. *)
Fixpoint filewrite_loop (fuel : nat) (f ip : nat) (addr n i : Z) : M st Z :=
  if decide (i < n) then
    match fuel with
    | O => λ _, OutOfFuel
    | Datatypes.S fuel =>
        let n1 := Z.min (n - i) write_max in
        fsop (bl bl_begin_op);;
        fsop (ilock ip);;
        let! x := gets (file_at f) in
        let! r := fsop (writei ip (User (u64 (addr + i))) (f_off x) n1) in
        (if decide (r > 0) then upd_file f (λ y, set_foff (u32 (f_off y + r)) y) else ret tt);;
        fsop (iunlock ip);;
        fsop (bl bl_end_op);;
        if decide (r < 0) then ret i
        else if decide (r ≠ n1) then panic "short filewrite"
        else filewrite_loop fuel f ip addr n (i + r)
    end
  else ret i.

Definition filewrite (f : nat) (addr n : Z) : M st Z :=
  let! x := gets (file_at f) in
  if negb (f_writable x) then ret (-1)
  else match f_type x with
  | FD_PIPE =>
      let! killed := gets k_killed in
      pipe_section (f_pipe x) (λ p u, let '(o, p, _) := pipewrite killed addr n 0 p u in (o, p, u))
  | FD_DEVICE =>
      if decide (f_major x < 0 ∨ f_major x >= NDEV) then ret (-1)
      else match devsw_write (f_major x) with
      | None => ret (-1)
      | Some op => dev_call op addr n
      end
  | FD_INODE =>
      let! ip := ip_of x in
      let! i := filewrite_loop (Z.to_nat (n / write_max) + 1) f ip addr n 0 in
      ret (if decide (i = n) then n else -1)
  | FD_NONE => panic "filewrite"
  end.

(** *** [pipealloc] *)
Definition pipe_page : M st Z :=
  let! l := gets k_pages in
  match l with [] => ret 0 | x :: l => modify (put_pages l);; ret x end.

Definition close_opt (f : option nat) : M st unit :=
  match f with Some f => fileclose f | None => ret tt end.

Definition pipealloc : M st (option (nat * nat)) :=
  let! f0 := filealloc in
  let! f1 := match f0 with None => ret None | Some _ => filealloc end in
  match f0, f1 with
  | Some a, Some b =>
      let! pi := pipe_page in
      if decide (pi = 0) then fileclose a;; fileclose b;; ret None
      else
        modify (λ s, put_pipes (<[pi := pipe_init (replicate 4096 5)]> (k_pipes s)) s);;
        upd_file a (set_fpipe true false pi);;
        upd_file b (set_fpipe false true pi);;
        ret (Some (a, b))
  | _, _ => close_opt f0;; close_opt f1;; ret None
  end.
End Ops.
