(* ===== verification/Proc.v ===== *)
(** * Processes ([kernel/proc.c], [kernel/sysproc.c])

    The process table, the harts and the physical memory.  A
    [struct proc *] is an index into [proc]; the hart that runs the code is
    an argument ([r_tp()]).  A function that calls [swtch] is split there:
    [sched] saves what the kernel thread keeps on its stack and ends the
    run, [..._return] is the code after it.  Each function takes and gives
    back the locks the code takes, so the panics of [acquire], [release]
    and [sched] are part of the model.  [sleep] is written as accesses
    ([Access.v]), so that other harts can be run between them. *)
From S2P Require Import Prelude Params CString Locks BlockLayer Fs Dir Pipe Riscv Kalloc Vm Access Spinlock File.
Import CString.

Definition NPROC : Z := 64.
Definition nproc : nat := Z.to_nat NPROC.
Definition KSTACK (p : Z) : Z := TRAMPOLINE - (p + 1) * 2 * PGSIZE.

Inductive procstate := UNUSED | SLEEPING | RUNNABLE | RUNNING | ZOMBIE.
#[export] Instance procstate_eq_dec : EqDecision procstate.
Proof. solve_decision. Defined.

(** A sleep channel: the address of a process, or another kernel address. *)
Inductive wchan := ProcChan (p : nat) | AddrChan (a : Z).
#[export] Instance wchan_eq_dec : EqDecision wchan.
Proof. solve_decision. Defined.

Record proc := Proc {
  p_lock : spinlock;
  p_state : procstate; p_parent : option nat; p_chan : option wchan;
  p_killed : Z; p_xstate : Z; p_pid : Z;
  p_kstack : Z; p_sz : Z; p_pagetable : Z; p_trapframe : Z;
  p_context : list Z; p_ofile : list (option nat); p_cwd : option nat; p_name : list Z;
}.
Definition proc0 : proc :=
  Proc initlock UNUSED None None 0 0 0 0 0 0 0 (replicate 14 0) (replicate nofile None) None (replicate 16 0).
#[export] Instance proc_inhabited : Inhabited proc := populate proc0.

Definition set_plock (l : spinlock) (p : proc) : proc :=
  Proc l (p_state p) (p_parent p) (p_chan p) (p_killed p) (p_xstate p) (p_pid p) (p_kstack p) (p_sz p)
    (p_pagetable p) (p_trapframe p) (p_context p) (p_ofile p) (p_cwd p) (p_name p).
Definition set_state (x : procstate) (p : proc) : proc :=
  Proc (p_lock p) x (p_parent p) (p_chan p) (p_killed p) (p_xstate p) (p_pid p) (p_kstack p) (p_sz p)
    (p_pagetable p) (p_trapframe p) (p_context p) (p_ofile p) (p_cwd p) (p_name p).
Definition set_parent (x : option nat) (p : proc) : proc :=
  Proc (p_lock p) (p_state p) x (p_chan p) (p_killed p) (p_xstate p) (p_pid p) (p_kstack p) (p_sz p)
    (p_pagetable p) (p_trapframe p) (p_context p) (p_ofile p) (p_cwd p) (p_name p).
Definition set_chan (x : option wchan) (p : proc) : proc :=
  Proc (p_lock p) (p_state p) (p_parent p) x (p_killed p) (p_xstate p) (p_pid p) (p_kstack p) (p_sz p)
    (p_pagetable p) (p_trapframe p) (p_context p) (p_ofile p) (p_cwd p) (p_name p).
Definition set_killed (x : Z) (p : proc) : proc :=
  Proc (p_lock p) (p_state p) (p_parent p) (p_chan p) x (p_xstate p) (p_pid p) (p_kstack p) (p_sz p)
    (p_pagetable p) (p_trapframe p) (p_context p) (p_ofile p) (p_cwd p) (p_name p).
Definition set_xstate (x : Z) (p : proc) : proc :=
  Proc (p_lock p) (p_state p) (p_parent p) (p_chan p) (p_killed p) x (p_pid p) (p_kstack p) (p_sz p)
    (p_pagetable p) (p_trapframe p) (p_context p) (p_ofile p) (p_cwd p) (p_name p).
Definition set_pid (x : Z) (p : proc) : proc :=
  Proc (p_lock p) (p_state p) (p_parent p) (p_chan p) (p_killed p) (p_xstate p) x (p_kstack p) (p_sz p)
    (p_pagetable p) (p_trapframe p) (p_context p) (p_ofile p) (p_cwd p) (p_name p).
Definition set_kstack (x : Z) (p : proc) : proc :=
  Proc (p_lock p) (p_state p) (p_parent p) (p_chan p) (p_killed p) (p_xstate p) (p_pid p) x (p_sz p)
    (p_pagetable p) (p_trapframe p) (p_context p) (p_ofile p) (p_cwd p) (p_name p).
Definition set_sz (x : Z) (p : proc) : proc :=
  Proc (p_lock p) (p_state p) (p_parent p) (p_chan p) (p_killed p) (p_xstate p) (p_pid p) (p_kstack p) x
    (p_pagetable p) (p_trapframe p) (p_context p) (p_ofile p) (p_cwd p) (p_name p).
Definition set_pagetable (x : Z) (p : proc) : proc :=
  Proc (p_lock p) (p_state p) (p_parent p) (p_chan p) (p_killed p) (p_xstate p) (p_pid p) (p_kstack p) (p_sz p)
    x (p_trapframe p) (p_context p) (p_ofile p) (p_cwd p) (p_name p).
Definition set_trapframe (x : Z) (p : proc) : proc :=
  Proc (p_lock p) (p_state p) (p_parent p) (p_chan p) (p_killed p) (p_xstate p) (p_pid p) (p_kstack p) (p_sz p)
    (p_pagetable p) x (p_context p) (p_ofile p) (p_cwd p) (p_name p).
Definition set_context (x : list Z) (p : proc) : proc :=
  Proc (p_lock p) (p_state p) (p_parent p) (p_chan p) (p_killed p) (p_xstate p) (p_pid p) (p_kstack p) (p_sz p)
    (p_pagetable p) (p_trapframe p) x (p_ofile p) (p_cwd p) (p_name p).
Definition set_ofile (x : list (option nat)) (p : proc) : proc :=
  Proc (p_lock p) (p_state p) (p_parent p) (p_chan p) (p_killed p) (p_xstate p) (p_pid p) (p_kstack p) (p_sz p)
    (p_pagetable p) (p_trapframe p) (p_context p) x (p_cwd p) (p_name p).
Definition set_cwd (x : option nat) (p : proc) : proc :=
  Proc (p_lock p) (p_state p) (p_parent p) (p_chan p) (p_killed p) (p_xstate p) (p_pid p) (p_kstack p) (p_sz p)
    (p_pagetable p) (p_trapframe p) (p_context p) (p_ofile p) x (p_name p).
Definition set_name (x : list Z) (p : proc) : proc :=
  Proc (p_lock p) (p_state p) (p_parent p) (p_chan p) (p_killed p) (p_xstate p) (p_pid p) (p_kstack p) (p_sz p)
    (p_pagetable p) (p_trapframe p) (p_context p) (p_ofile p) (p_cwd p) x.

(** What the process code asks of the file layer. *)
Class FileOps (F : Type) := {
  fo_filedup : nat → M F nat;
  fo_fileclose : nat → M F unit;
  fo_idup : nat → M F nat;
  fo_iput : nat → M F unit;
  fo_begin_op : M F unit;
  fo_end_op : M F unit;
  fo_namei : list Z → M F (option nat);
  fo_fsinit : Z → M F unit;
}.

Section KstFiles.
Context {S U D : Type} `{BlockLayer S} `{UserMem U} `{DevSw D U}.
#[export] Instance kst_fileops : FileOps (kst S U D) := {
  fo_filedup := filedup;
  fo_fileclose := fileclose;
  fo_idup i := fsop (idup i);
  fo_iput i := fsop (iput i);
  fo_begin_op := fsop (bl bl_begin_op);
  fo_end_op := fsop (bl bl_end_op);
  fo_namei path := fsop (namei path);
  fo_fsinit dev := fsop (fsinit dev);
}.
End KstFiles.

(** The state: [proc], [cpus], [pid_lock], [nextpid], [initproc], the other
    spin locks of the kernel by address, [ticks], physical memory, the file
    layer, and [first] of [forkret]. *)
Record pst (F : Type) := Pst {
  ps_proc : list proc; ps_cpus : list cpu; ps_pid_lock : spinlock; ps_nextpid : Z;
  ps_initproc : option nat; ps_locks : gmap Z spinlock; ps_ticks : Z;
  ps_mem : pmem; ps_files : F; ps_first : bool;
}.
Arguments Pst {F}.
Arguments ps_proc {F}.
Arguments ps_cpus {F}.
Arguments ps_pid_lock {F}.
Arguments ps_nextpid {F}.
Arguments ps_initproc {F}.
Arguments ps_locks {F}.
Arguments ps_ticks {F}.
Arguments ps_mem {F}.
Arguments ps_files {F}.
Arguments ps_first {F}.

(** A spin lock by its place. *)
Inductive lockref := LkProc (p : nat) | LkPid | LkAddr (a : Z).
#[export] Instance lockref_eq_dec : EqDecision lockref.
Proof. solve_decision. Defined.

Section Ops.
Context {F : Type} `{FileOps F}.
Notation st := (pst F).

(** [kend], [trampoline], [forkret] are addresses the linker chooses. *)
Context (kend trampoline forkret_addr : Z).

Definition put_procs (l : list proc) (s : st) : st :=
  Pst l (ps_cpus s) (ps_pid_lock s) (ps_nextpid s) (ps_initproc s) (ps_locks s) (ps_ticks s) (ps_mem s) (ps_files s) (ps_first s).
Definition put_cpus (l : list cpu) (s : st) : st :=
  Pst (ps_proc s) l (ps_pid_lock s) (ps_nextpid s) (ps_initproc s) (ps_locks s) (ps_ticks s) (ps_mem s) (ps_files s) (ps_first s).
Definition put_pmem (m : pmem) (s : st) : st :=
  Pst (ps_proc s) (ps_cpus s) (ps_pid_lock s) (ps_nextpid s) (ps_initproc s) (ps_locks s) (ps_ticks s) m (ps_files s) (ps_first s).
Definition put_files (f : F) (s : st) : st :=
  Pst (ps_proc s) (ps_cpus s) (ps_pid_lock s) (ps_nextpid s) (ps_initproc s) (ps_locks s) (ps_ticks s) (ps_mem s) f (ps_first s).

Definition memop {A} (m : M pmem A) : M st A := zoom ps_mem put_pmem m.
Definition filesop {A} (m : M F A) : M st A := zoom ps_files put_files m.
Definition proc_at (i : nat) (s : st) : proc := ps_proc s !!! i.
Definition cpu_at (me : nat) (s : st) : cpu := ps_cpus s !!! me.
Definition upd_proc (i : nat) (f : proc → proc) : M st unit :=
  modify (λ s, put_procs (alter f i (ps_proc s)) s).
Definition cpuop {A} (me : nat) (m : M cpu A) : M st A :=
  zoom (cpu_at me) (λ c s, put_cpus (<[me := c]> (ps_cpus s)) s) m.

(** Locks *)
Definition lock_of (l : lockref) (s : st) : spinlock :=
  match l with
  | LkProc i => p_lock (proc_at i s)
  | LkPid => ps_pid_lock s
  | LkAddr a => default initlock (ps_locks s !! a)
  end.
Definition put_lock (l : lockref) (k : spinlock) (s : st) : st :=
  match l with
  | LkProc i => put_procs (alter (set_plock k) i (ps_proc s)) s
  | LkPid => Pst (ps_proc s) (ps_cpus s) k (ps_nextpid s) (ps_initproc s) (ps_locks s) (ps_ticks s) (ps_mem s) (ps_files s) (ps_first s)
  | LkAddr a => Pst (ps_proc s) (ps_cpus s) (ps_pid_lock s) (ps_nextpid s) (ps_initproc s) (<[a := k]> (ps_locks s)) (ps_ticks s) (ps_mem s) (ps_files s) (ps_first s)
  end.
Definition lockop {A} (me : nat) (l : lockref) (m : M (cpu * spinlock) A) : M st A :=
  zoom (λ s, (cpu_at me s, lock_of l s))
       (λ cl s, put_lock l cl.2 (put_cpus (<[me := cl.1]> (ps_cpus s)) s)) m.
Definition lock (me : nat) (l : lockref) : M st unit := lockop me l (acquire me).
Definition unlock (me : nat) (l : lockref) : M st unit := lockop me l (release me).

(** *** Table and memory *)
Definition myproc (me : nat) : M st (option nat) :=
  cpuop me push_off;;
  let! p := gets (λ s, c_proc (cpu_at me s)) in
  cpuop me pop_off;;
  ret p.
(** [myproc()] dereferenced. *)
Definition curproc (me : nat) : M st nat := let! p := myproc me in some_or_oob p.

Definition procinit_step (me : nat) (kernel_pagetable : Z) (i : Z) : M st unit :=
  upd_proc (Z.to_nat i) (set_plock initlock);;
  let! pa := memop kalloc in
  if decide (pa = 0) then panic "kalloc"
  else
    let va := KSTACK i in
    memop (kvmmap kernel_pagetable va pa PGSIZE (Z.lor PTE_R PTE_W));;
    upd_proc (Z.to_nat i) (set_kstack va).
Definition procinit (me : nat) (kernel_pagetable : Z) : M st unit :=
  modify (put_lock LkPid initlock);;
  mfor nproc 0 (procinit_step me kernel_pagetable).

Definition allocpid (me : nat) : M st Z :=
  lock me LkPid;;
  let! pid := gets ps_nextpid in
  modify (λ s, Pst (ps_proc s) (ps_cpus s) (ps_pid_lock s) (s32 (pid + 1)) (ps_initproc s) (ps_locks s) (ps_ticks s) (ps_mem s) (ps_files s) (ps_first s));;
  unlock me LkPid;;
  ret pid.

Definition proc_pagetable (trapframe : Z) : M pmem Z :=
  let! pagetable := uvmcreate in
  if decide (pagetable = 0) then ret 0
  else
    let! r := mappages pagetable TRAMPOLINE PGSIZE trampoline (Z.lor PTE_R PTE_X) in
    if decide (r < 0) then uvmfree kend pagetable 0;; ret 0
    else
      let! r := mappages pagetable TRAPFRAME PGSIZE trapframe (Z.lor PTE_R PTE_W) in
      if decide (r < 0) then
        uvmunmap kend pagetable TRAMPOLINE 1 false;;
        uvmfree kend pagetable 0;;
        ret 0
      else ret pagetable.

Definition proc_freepagetable (pagetable sz : Z) : M pmem unit :=
  uvmunmap kend pagetable TRAMPOLINE 1 false;;
  uvmunmap kend pagetable TRAPFRAME 1 false;;
  uvmfree kend pagetable sz.

(** The memory a process gives back. *)
Definition free_mem (p : proc) : M pmem unit :=
  (if decide (p_trapframe p ≠ 0) then kfree kend (p_trapframe p) else ret tt);;
  if decide (p_pagetable p ≠ 0) then proc_freepagetable (p_pagetable p) (p_sz p) else ret tt.
(** The fields [freeproc] resets; [name[0] = 0]. *)
Definition freed (p : proc) : proc :=
  Proc (p_lock p) UNUSED None None 0 0 0 (p_kstack p) 0 0 0 (p_context p) (p_ofile p) (p_cwd p) (<[0%nat := 0]> (p_name p)).
Definition freeproc (i : nat) : M st unit :=
  let! p := gets (proc_at i) in
  memop (free_mem p);;
  upd_proc i freed.

(** The search of [allocproc]: the index of an [UNUSED] process, locked. *)
Fixpoint find_unused (me : nat) (k i : nat) : M st (option nat) :=
  match k with
  | O => ret None
  | Datatypes.S k =>
      lock me (LkProc i);;
      let! p := gets (proc_at i) in
      if decide (p_state p = UNUSED) then ret (Some i)
      else unlock me (LkProc i);; find_unused me k (i + 1)
  end.

Definition allocproc (me : nat) : M st (option nat) :=
  let! r := find_unused me nproc 0 in
  match r with
  | None => ret None
  | Some i =>
      let! pid := allocpid me in
      upd_proc i (set_pid pid);;
      let! tf := memop kalloc in
      upd_proc i (set_trapframe tf);;
      if decide (tf = 0) then unlock me (LkProc i);; ret None
      else
        let! pt := memop (proc_pagetable tf) in
        upd_proc i (set_pagetable pt);;
        if decide (pt = 0) then freeproc i;; unlock me (LkProc i);; ret None
        else
          let! p := gets (proc_at i) in
          upd_proc i (set_context (forkret_addr :: u64 (p_kstack p + PGSIZE) :: replicate 12 0));;
          ret (Some i)
  end.

(** A word of a trap frame. *)
Definition set_tf (tf : Z) (off : nat) (v : Z) : M pmem unit :=
  let! p := page_of tf in set_page tf (st64 off v p).
Definition tf_epc : nat := 24.
Definition tf_sp : nat := 48.
Definition tf_a0 : nat := 112.
Definition trapframe_size : nat := 288.

Definition initcode : list Z :=
  [0x17; 0x05; 0x00; 0x00; 0x13; 0x05; 0x45; 0x02; 0x97; 0x05; 0x00; 0x00; 0x93; 0x85; 0x35; 0x02; 0x93; 0x08;
   0x70; 0x00; 0x73; 0x00; 0x00; 0x00; 0x93; 0x08; 0x20; 0x00; 0x73; 0x00; 0x00; 0x00; 0xef; 0xf0; 0x9f; 0xff;
   0x2f; 0x69; 0x6e; 0x69; 0x74; 0x00; 0x00; 0x24; 0x00; 0x00; 0x00; 0x00; 0x00; 0x00; 0x00; 0x00].
(** [safestrcpy(dst, src, sizeof(name))] *)
Definition copy_name (src dst : list Z) : list Z :=
  match safestrcpy src 16 with Some l => splice 0 l dst | None => dst end.

Definition userinit (me : nat) : M st unit :=
  let! r := allocproc me in
  modify (λ s, Pst (ps_proc s) (ps_cpus s) (ps_pid_lock s) (ps_nextpid s) r (ps_locks s) (ps_ticks s) (ps_mem s) (ps_files s) (ps_first s));;
  let! i := some_or_oob r in
  let! p := gets (proc_at i) in
  memop (uvminit (p_pagetable p) initcode);;
  upd_proc i (set_sz PGSIZE);;
  memop (set_tf (p_trapframe p) tf_epc 0);;
  memop (set_tf (p_trapframe p) tf_sp PGSIZE);;
  upd_proc i (λ p, set_name (copy_name [105; 110; 105; 116; 99; 111; 100; 101; 0] (p_name p)) p);;
  let! cwd := filesop (fo_namei [47; 0]) in
  upd_proc i (set_cwd cwd);;
  upd_proc i (set_state RUNNABLE);;
  unlock me (LkProc i).

(** [n] is an [int], [sz] an [uint]. *)
Definition growproc (me : nat) (n : Z) : M st Z :=
  let! i := curproc me in
  let! p := gets (proc_at i) in
  let sz := u32 (p_sz p) in
  if decide (n > 0) then
    let! r := memop (uvmalloc kend (p_pagetable p) sz (u32 (sz + n))) in
    if decide (u32 r = 0) then ret (-1) else upd_proc i (set_sz (u32 r));; ret 0
  else if decide (n < 0) then
    let! r := memop (uvmdealloc kend (p_pagetable p) sz (u32 (sz + n))) in
    upd_proc i (set_sz (u32 r));; ret 0
  else upd_proc i (set_sz sz);; ret 0.

(** The loop of [fork] over the descriptors. *)
Fixpoint dup_files (k : nat) (fd : nat) (p np : nat) : M st unit :=
  match k with
  | O => ret tt
  | Datatypes.S k =>
      let! x := gets (proc_at p) in
      match p_ofile x !!! fd with
      | None => ret tt
      | Some f =>
          let! g := filesop (fo_filedup f) in
          upd_proc np (λ y, set_ofile (<[fd := Some g]> (p_ofile y)) y)
      end;;
      dup_files k (fd + 1) p np
  end.

Definition fork (me : nat) : M st Z :=
  let! p := curproc me in
  let! r := allocproc me in
  match r with
  | None => ret (-1)
  | Some np =>
      let! x := gets (proc_at p) in
      let! y := gets (proc_at np) in
      let! c := memop (uvmcopy kend (p_pagetable x) (p_pagetable y) (p_sz x)) in
      if decide (c < 0) then freeproc np;; unlock me (LkProc np);; ret (-1)
      else
        upd_proc np (set_sz (p_sz x));;
        upd_proc np (set_parent (Some p));;
        memop (let! src := page_of (p_trapframe x) in
               let! dst := page_of (p_trapframe y) in
               set_page (p_trapframe y) (splice 0 (slice 0 trapframe_size src) dst));;
        memop (set_tf (p_trapframe y) tf_a0 0);;
        dup_files nofile 0 p np;;
        let! cwd := some_or_oob (p_cwd x) in
        let! cwd := filesop (fo_idup cwd) in
        upd_proc np (set_cwd (Some cwd));;
        upd_proc np (λ y, set_name (copy_name (p_name x) (p_name y)) y);;
        let! y := gets (proc_at np) in
        upd_proc np (set_state RUNNABLE);;
        unlock me (LkProc np);;
        ret (p_pid y)
  end.

(** *** Switching *)

(** [sched] up to [swtch]: the [intena] it keeps on the stack. *)
Definition sched (me : nat) : M st bool :=
  let! i := curproc me in
  let! p := gets (proc_at i) in
  let! c := gets (cpu_at me) in
  if negb (holding me (p_lock p)) then panic "sched p->lock"
  else if decide (c_noff c ≠ 1) then panic "sched locks"
  else if decide (p_state p = RUNNING) then panic "sched running"
  else if c_sie c then panic "sched interruptible"
  else ret (c_intena c).
Definition sched_return (me : nat) (intena : bool) : M st unit := cpuop me (modify (set_intena intena)).

(** One turn of the scheduler's loop over the table, up to [swtch] (true: it
    switches to process [i]), and from the return of [swtch]. *)
Definition scheduler_pick (me i : nat) : M st bool :=
  lock me (LkProc i);;
  let! p := gets (proc_at i) in
  if decide (p_state p = RUNNABLE) then
    upd_proc i (set_state RUNNING);;
    cpuop me (modify (set_cproc (Some i)));;
    ret true
  else unlock me (LkProc i);; ret false.
Definition scheduler_return (me i : nat) : M st unit :=
  cpuop me (modify (set_cproc None));;
  unlock me (LkProc i).

Definition yield (me : nat) : M st bool :=
  let! i := curproc me in
  lock me (LkProc i);;
  upd_proc i (set_state RUNNABLE);;
  sched me.
Definition yield_return (me i : nat) (intena : bool) : M st unit :=
  sched_return me intena;;
  unlock me (LkProc i).

(** [forkret] up to [usertrapret]. *)
Definition forkret (me : nat) : M st unit :=
  let! i := curproc me in
  unlock me (LkProc i);;
  let! first := gets ps_first in
  if first : bool then
    modify (λ s, Pst (ps_proc s) (ps_cpus s) (ps_pid_lock s) (ps_nextpid s) (ps_initproc s) (ps_locks s) (ps_ticks s) (ps_mem s) (ps_files s) false);;
    filesop (fo_fsinit ROOTDEV)
  else ret tt.

(** [sleep], cut at the locks it takes and gives back and at its stores. *)
Definition sleep_code (me : nat) (chan : wchan) (lk : lockref) : code st bool :=
  let* i := act (curproc me) in
  let* _ := if decide (lk ≠ LkProc i)
            then let* _ := act (lock me (LkProc i)) in act (unlock me lk)
            else Fin tt in
  let* _ := act (upd_proc i (set_chan (Some chan))) in
  let* _ := act (upd_proc i (set_state SLEEPING)) in
  act (sched me).
Definition sleep (me : nat) (chan : wchan) (lk : lockref) : M st bool := exec (sleep_code me chan lk).
Definition sleep_return (me i : nat) (lk : lockref) (intena : bool) : M st unit :=
  sched_return me intena;;
  upd_proc i (set_chan None);;
  if decide (lk ≠ LkProc i) then unlock me (LkProc i);; lock me lk else ret tt.

Definition wakeup_step (me : nat) (chan : wchan) (i : Z) : M st unit :=
  let i := Z.to_nat i in
  lock me (LkProc i);;
  let! p := gets (proc_at i) in
  (if decide (p_state p = SLEEPING ∧ p_chan p = Some chan) then upd_proc i (set_state RUNNABLE) else ret tt);;
  unlock me (LkProc i).
Definition wakeup (me : nat) (chan : wchan) : M st unit := mfor nproc 0 (wakeup_step me chan).

Definition wakeup1 (me i : nat) : M st unit :=
  let! p := gets (proc_at i) in
  if negb (holding me (p_lock p)) then panic "wakeup1"
  else if decide (p_chan p = Some (ProcChan i) ∧ p_state p = SLEEPING) then upd_proc i (set_state RUNNABLE)
  else ret tt.

Fixpoint kill_loop (me : nat) (k i : nat) (pid : Z) : M st Z :=
  match k with
  | O => ret (-1)
  | Datatypes.S k =>
      lock me (LkProc i);;
      let! p := gets (proc_at i) in
      if decide (p_pid p = pid) then
        upd_proc i (set_killed 1);;
        (if decide (p_state p = SLEEPING) then upd_proc i (set_state RUNNABLE) else ret tt);;
        unlock me (LkProc i);;
        ret 0
      else unlock me (LkProc i);; kill_loop me k (i + 1) pid
  end.
Definition kill (me : nat) (pid : Z) : M st Z := kill_loop me nproc 0 pid.

(** *** [exit] and [wait] *)
Definition reparent_step (me p : nat) (i : Z) : M st unit :=
  let i := Z.to_nat i in
  let! x := gets (proc_at i) in
  if decide (p_parent x = Some p) then
    lock me (LkProc i);;
    let! init := gets ps_initproc in
    upd_proc i (set_parent init);;
    unlock me (LkProc i)
  else ret tt.
Definition reparent (me p : nat) : M st unit := mfor nproc 0 (reparent_step me p).

Fixpoint close_files (k : nat) (fd : nat) (p : nat) : M st unit :=
  match k with
  | O => ret tt
  | Datatypes.S k =>
      let! x := gets (proc_at p) in
      match p_ofile x !!! fd with
      | None => ret tt
      | Some f =>
          filesop (fo_fileclose f);;
          upd_proc p (λ y, set_ofile (<[fd := None]> (p_ofile y)) y)
      end;;
      close_files k (fd + 1) p
  end.

(** The part of [exit] that leaves the file system. *)
Definition exit_files (p : nat) : M st unit :=
  close_files nofile 0 p;;
  filesop fo_begin_op;;
  let! x := gets (proc_at p) in
  let! cwd := some_or_oob (p_cwd x) in
  filesop (fo_iput cwd);;
  filesop fo_end_op;;
  upd_proc p (set_cwd None).
(** The part after it, up to [swtch], which never returns. *)
Definition exit_leave (me p : nat) (status : Z) : M st bool :=
  let! init := gets ps_initproc in
  let! init := some_or_oob init in
  lock me (LkProc init);;
  wakeup1 me init;;
  unlock me (LkProc init);;
  lock me (LkProc p);;
  let! x := gets (proc_at p) in
  let original_parent := p_parent x in
  unlock me (LkProc p);;
  let! parent := some_or_oob original_parent in
  lock me (LkProc parent);;
  lock me (LkProc p);;
  reparent me p;;
  wakeup1 me parent;;
  upd_proc p (set_xstate status);;
  upd_proc p (set_state ZOMBIE);;
  unlock me (LkProc parent);;
  sched me.
Definition exit (me : nat) (status : Z) : M st bool :=
  let! p := curproc me in
  let! init := gets ps_initproc in
  if decide (init = Some p) then panic "init exiting"
  else exit_files p;; exit_leave me p status.

(** One scan of the table by [wait]: the result, or whether there are
    children. *)
Fixpoint wait_scan (me p : nat) (addr : Z) (k i : nat) (havekids : bool) : M st (Z + bool) :=
  match k with
  | O => ret (inr havekids)
  | Datatypes.S k =>
      let! x := gets (proc_at i) in
      if decide (p_parent x = Some p) then
        lock me (LkProc i);;
        let! x := gets (proc_at i) in
        if decide (p_state x = ZOMBIE) then
          let! y := gets (proc_at p) in
          let! r := (if decide (addr ≠ 0)
                     then memop (copyout (p_pagetable y) addr (le_enc 4 (u32 (p_xstate x)))) else ret 0) in
          if decide (r < 0) then unlock me (LkProc i);; unlock me (LkProc p);; ret (inl (-1))
          else freeproc i;; unlock me (LkProc i);; unlock me (LkProc p);; ret (inl (p_pid x))
        else unlock me (LkProc i);; wait_scan me p addr k (i + 1) true
      else wait_scan me p addr k (i + 1) havekids
  end.
(** A turn of the loop of [wait], with [p->lock] held: a result, or the
    process sleeps with the [intena] that [sched] saved. *)
Definition wait_turn (me p : nat) (addr : Z) : M st (Z + bool) :=
  let! r := wait_scan me p addr nproc 0 false in
  match r with
  | inl r => ret (inl r)
  | inr havekids =>
      let! x := gets (proc_at p) in
      if decide (havekids = false ∨ p_killed x ≠ 0) then unlock me (LkProc p);; ret (inl (-1))
      else let! b := sleep me (ProcChan p) (LkProc p) in ret (inr b)
  end.
Definition wait (me : nat) (addr : Z) : M st (Z + bool) :=
  let! p := curproc me in
  lock me (LkProc p);;
  wait_turn me p addr.
(** [wait] when its [sleep] returns. *)
Definition wait_return (me p : nat) (addr : Z) (intena : bool) : M st (Z + bool) :=
  sleep_return me p (LkProc p) intena;;
  wait_turn me p addr.

(** *** [sysproc.c]; the arguments are already fetched *)
Definition sys_getpid (me : nat) : M st Z :=
  let! i := curproc me in let! p := gets (proc_at i) in ret (p_pid p).
Definition sys_sbrk (me : nat) (n : Z) : M st Z :=
  let! i := curproc me in
  let! p := gets (proc_at i) in
  let addr := s32 (u32 (p_sz p)) in
  let! r := growproc me n in
  if decide (r < 0) then ret (-1) else ret addr.

(** [tickslock] and the channel [&ticks]. *)
Definition tickslock : lockref := LkAddr 1.
Definition ticks_chan : wchan := AddrChan 2.
(** The loop test of [sys_sleep], with [tickslock] held. *)
Definition sleep_turn (me : nat) (ticks0 n : Z) : M st (Z + bool) :=
  let! ticks := gets ps_ticks in
  if decide (u32 (ticks - ticks0) < u32 n) then
    let! i := curproc me in
    let! p := gets (proc_at i) in
    if decide (p_killed p ≠ 0) then unlock me tickslock;; ret (inl (-1))
    else let! b := sleep me ticks_chan tickslock in ret (inr b)
  else unlock me tickslock;; ret (inl 0).
Definition sys_sleep (me : nat) (n : Z) : M st (Z * (Z + bool)) :=
  lock me tickslock;;
  let! ticks0 := gets ps_ticks in
  let! r := sleep_turn me ticks0 n in ret (ticks0, r).
Definition sys_sleep_return (me i : nat) (ticks0 n : Z) (intena : bool) : M st (Z + bool) :=
  sleep_return me i tickslock intena;;
  sleep_turn me ticks0 n.
Definition sys_uptime (me : nat) : M st Z :=
  lock me tickslock;;
  let! xticks := gets ps_ticks in
  unlock me tickslock;;
  ret xticks.
(** [clockintr] of [trap.c] *)
Definition clockintr (me : nat) : M st unit :=
  lock me tickslock;;
  modify (λ s, Pst (ps_proc s) (ps_cpus s) (ps_pid_lock s) (ps_nextpid s) (ps_initproc s) (ps_locks s) (u32 (ps_ticks s + 1)) (ps_mem s) (ps_files s) (ps_first s));;
  wakeup me ticks_chan;;
  unlock me tickslock.
End Ops.
