(* ===== verification/ProcMem.v ===== *)
(** * A process's memory ([proc_pagetable] of [kernel/proc.c])

    The page table a process starts with: the trampoline and the trap frame
    at the top, for the kernel only, nothing below them.  [uvmalloc] grows a
    process from there. *)
From S2P Require Import Prelude Params CString Fs UserMem Riscv Kalloc Vm VmProofs VmUser VmGrow VmTheorems Spinlock Proc.
Import CString.

Lemma wlp_of_wp {S A} (m : M S A) (P Q : A → S → Prop) s :
  wp m P s → (∀ a s', P a s' → Q a s') → wlp m Q s.
Proof. intros Hw HQ. eapply wlp_mono; [by apply wp_wlp | done]. Qed.

Lemma has_valid x : has PTE_V (Z.lor x PTE_V) = true.
Proof. unfold PTE_V. rewrite (has_testbit 0), Z.lor_spec by lia. apply orb_true_r. Qed.

(** One page at the top, mapped for the kernel. *)
Lemma map_top root s l a pa perm (Q : Z → pmem → Prop) :
  pmem_wf root s l → 0 <= a → a mod PGSIZE = 0 → a + PGSIZE <= MAXVA → 0 <= pa → pa + PGSIZE <= 2 ^ 56 →
  0 <= perm < 1024 → has PTE_U perm = false →
  (∀ va, a <= va < a + PGSIZE → has PTE_V (vmap (pm_pages s) root va) = false) →
  (∀ s' l', pmem_wf root s' l' → suffix l' l →
     (∀ va, 0 <= va < MAXVA → vmap (pm_pages s') root va = if decide (a <= va < a + PGSIZE)
        then Z.lor (Z.lor (PA2PTE (pa + (PGROUNDDOWN va - a))) perm) PTE_V else vmap (pm_pages s) root va) → Q 0 s') →
  (∀ s', Q (-1) s') →
  wlp (mappages root a PGSIZE pa perm) Q s.
Proof.
  intros Hpw Ha Hal Hend Hpa Hpe Hperm Hu Hun HQ Hf. pose proof (npages_one a Hal) as Hnp.
  eapply wlp_of_wp; [apply (mappages_spec root s l a PGSIZE pa perm (pu_vrep _ _ _ Hpw)); try done; rewrite ?Hnp; try pg |].
  { intros x Hx. rewrite PGROUNDDOWN_id in Hx by done. apply Hun. pg. }
  rewrite Hnp, PGROUNDDOWN_id by done. intros r s' (l' & used & [[-> Hm] | (-> & _)]); [| apply Hf].
  apply (HQ s' l').
  - by eapply map_kernel_page.
  - exists used. apply (mt_list _ _ _ _ _ _ _ _ _ _ Hm).
  - intros va Hva. rewrite (mt_vmap _ _ _ _ _ _ _ _ _ _ Hm) by done. change (Z.of_nat 1) with 1. by rewrite Z.mul_1_r.
Qed.

(** [proc_pagetable], if it returns a table: the process owns no page yet,
    and nothing is mapped below the trap frame. *)
Lemma proc_pagetable_spec kend trampoline tf s l :
  krep s l → 0 <= trampoline → trampoline + PGSIZE <= 2 ^ 56 → 0 <= tf → tf + PGSIZE <= 2 ^ 56 →
  wlp (proc_pagetable kend trampoline tf) (λ r s', r ≠ 0 →
    ∃ l', pmem_wf r s' l' ∧ suffix l' l ∧
      has PTE_V (vmap (pm_pages s') r TRAMPOLINE) = true ∧ has PTE_V (vmap (pm_pages s') r TRAPFRAME) = true ∧
      ∀ va, 0 <= va < TRAPFRAME → vmap (pm_pages s') r va = 0) s.
Proof.
  intros Hk Ht Hte Hf Hfe. assert (HT : 0 <= TRAPFRAME ∧ TRAPFRAME + PGSIZE = TRAMPOLINE ∧ TRAMPOLINE < MAXVA) by done.
  unfold proc_pagetable. apply wlp_bind.
  eapply wlp_of_wp; [by apply (uvmcreate_spec s l) |]. intros root s1.
  destruct l as [|x l]; [intros [-> ->]; rewrite decide_True by done; apply wlp_ret; intros E; by destruct E |].
  intros (-> & Hpw & Hv & _). case_decide as Hx; [apply wlp_ret; intros E; by destruct E |]. apply wlp_bind.
  apply (map_top x s1 l TRAMPOLINE trampoline (Z.lor PTE_R PTE_X)); try done.
  { intros va _. rewrite Hv. reflexivity. }
  2:{ intros s2. rewrite decide_True by lia. apply wlp_bind. unfold wlp at 1.
      destruct (uvmfree kend x 0 s2); [apply wlp_ret; intros E; by destruct E | done..]. }
  intros s2 l2 Hpw2 Hs2 Hv2. rewrite decide_False by lia. apply wlp_bind.
  apply (map_top x s2 l2 TRAPFRAME tf (Z.lor PTE_R PTE_W)); try done.
  { intros va Hva. rewrite Hv2, decide_False by lia. rewrite Hv. reflexivity. }
  2:{ intros s3. rewrite decide_True by lia. apply wlp_bind. unfold wlp at 1.
      destruct (uvmunmap kend x TRAMPOLINE 1 false s3) as [[] s4| | |]; [| done..]. apply wlp_bind. unfold wlp at 1.
      destruct (uvmfree kend x 0 s4); [apply wlp_ret; intros E; by destruct E | done..]. }
  intros s3 l3 Hpw3 Hs3 Hv3. rewrite decide_False by lia. apply wlp_ret. intros _.
  exists l3. split_and!; [done | | | |].
  - transitivity l2; [done |]. transitivity l; [done |]. by exists [x].
  - rewrite Hv3, decide_False, Hv2, decide_True by (done || (split; [done |]; reflexivity) || (intros [_ E]; by vm_compute in E)).
    apply has_valid.
  - rewrite Hv3, decide_True by (done || (split; [done |]; reflexivity)). apply has_valid.
  - intros va Hva. assert (0 < PGSIZE) by done. rewrite Hv3, decide_False, Hv2, decide_False by lia. by rewrite Hv.
Qed.

(** ** A new process on a machine of ten pages *)
Definition kend10 : Z := PHYSTOP - 10 * PGSIZE.
Definition pmem10 : pmem := Pmem (list_to_map ((λ a, (a, replicate pgsize 0)) <$> pages_from kend10 10)) 0.
Definition booted10 : pmem := final (kinit kend10) pmem10.
Definition tf10 : Z := kend10 + 9 * PGSIZE.
Definition root10 : Z := kend10 + 8 * PGSIZE.
(** A trap frame and a page table, as [allocproc] makes them. *)
Definition newborn : pmem := final (let! tf := kalloc in proc_pagetable kend10 0x80007000 tf) booted10.

Lemma booted10_krep : krep booted10 (reverse (pages_from kend10 10)).
Proof.
  assert (wp (kinit kend10) (λ _ s', krep s' (reverse (pages_from kend10 10) ++ [])) pmem10) as Hk.
  { apply (freerange_loop_spec kend10 PHYSTOP 10 kend10 [] pmem10 10).
    - split; [done | constructor | constructor].
    - by vm_compute.
    - done.
    - done.
    - done.
    - lia.
    - repeat constructor; eexists; (split; [vm_compute; reflexivity | reflexivity]).
    - intros x Hx. by apply not_elem_of_nil in Hx. }
  apply wp_final in Hk as (a & E & Hk). rewrite app_nil_r in Hk. exact Hk.
Qed.

Lemma newborn_ready : ∃ l, pmem_wf root10 newborn l ∧ Forall (λ x, kend10 <= x < PHYSTOP) l ∧
  has PTE_V (vmap (pm_pages newborn) root10 TRAMPOLINE) = true ∧
  has PTE_V (vmap (pm_pages newborn) root10 TRAPFRAME) = true ∧
  ∀ va, 0 <= va < TRAPFRAME → vmap (pm_pages newborn) root10 va = 0.
Proof.
  assert (wlp (let! tf := kalloc in proc_pagetable kend10 0x80007000 tf) (λ r s', r ≠ 0 →
    ∃ l, pmem_wf r s' l ∧ suffix l (drop 1 (reverse (pages_from kend10 10))) ∧
      has PTE_V (vmap (pm_pages s') r TRAMPOLINE) = true ∧ has PTE_V (vmap (pm_pages s') r TRAPFRAME) = true ∧
      ∀ va, 0 <= va < TRAPFRAME → vmap (pm_pages s') r va = 0) booted10) as Hw.
  { apply wlp_bind. eapply wlp_of_wp; [apply (kalloc_spec _ _ booted10_krep) |].
    change (reverse (pages_from kend10 10)) with (tf10 :: drop 1 (reverse (pages_from kend10 10))).
    intros tf s1 (-> & Hk1 & _). by apply proc_pagetable_spec. }
  assert (E : match (let! tf := kalloc in proc_pagetable kend10 0x80007000 tf) booted10 with Ret r _ => r | _ => 0 end = root10)
    by (vm_compute; reflexivity).
  unfold wlp in Hw. unfold newborn, final.
  destruct ((let! tf := kalloc in proc_pagetable kend10 0x80007000 tf) booted10) as [r s1| | |]; [| discriminate E..].
  subst r. destruct (Hw ltac:(discriminate)) as (l & Hpw & Hsuf & Hv). exists l. split; [done |]. split; [| done].
  destruct Hsuf as [k Hk].
  assert (Forall (λ x, kend10 <= x < PHYSTOP) (drop 1 (reverse (pages_from kend10 10)))) as Hall by (repeat constructor; by vm_compute).
  rewrite Hk in Hall. by apply Forall_app in Hall as [_ ?].
Qed.

Lemma uvmalloc_grows_witness :
  has PTE_V (vmap (pm_pages newborn) root10 TRAPFRAME) = true ∧
  wp (uvmalloc kend10 root10 0 5000) (λ r s', ∃ l', pmem_wf root10 s' l' ∧
    (∀ va, 0 <= va < MAXVA → ¬ (PGROUNDUP 0 <= va < PGROUNDUP 5000) →
       vmap (pm_pages s') root10 va = vmap (pm_pages newborn) root10 va) ∧
    ((r = 5000 ∧ ∀ x, us_byte (Uspace s' root10) x =
        if decide (PGROUNDUP 0 <= x < PGROUNDUP 5000) then Some 0 else us_byte (Uspace newborn root10) x) ∨
     (r = 0 ∧ ∀ x, us_byte (Uspace s' root10) x = us_byte (Uspace newborn root10) x))) newborn.
Proof.
  destruct newborn_ready as (l & Hpw & Hl & _ & Htf & Hlow). split; [exact Htf |].
  apply (uvmalloc_grows kend10 root10 newborn l 0 5000 Hpw).
  - reflexivity.
  - exact Hl.
  - lia.
  - by vm_compute.
  - intros va Hva. change (PGROUNDUP 0) with 0 in Hva. change (PGROUNDUP 5000) with 8192 in Hva.
    rewrite Hlow; [reflexivity |]. assert (8192 < TRAPFRAME) by reflexivity. lia.
Defined.
