(* ===== verification/ProcInv.v ===== *)
(** * Invariants of the process table

    Two views of the table: which entries run (against the harts), and the
    tree of processes (pids and parents).  Each is an invariant of its own;
    a section of [proc.c] that keeps a view keeps its invariant. *)
From S2P Require Import Prelude Params Spinlock Proc.

(** ** Harts and running processes *)
Definition is_running (p : proc) : bool := bool_decide (p_state p = RUNNING).

Record hart_ok (run : list bool) (cpus : list cpu) : Prop := {
  ho_cpu : ∀ me c, cpus !! me = Some c → cpu_ok c ∧ (c_proc c = None → c_noff c = 0);
  ho_on : ∀ me c i, cpus !! me = Some c → c_proc c = Some i → run !! i = Some true;
  ho_running : ∀ i, run !! i = Some true → ∃ me c, cpus !! me = Some c ∧ c_proc c = Some i;
  ho_one : ∀ me me' c c' i, cpus !! me = Some c → cpus !! me' = Some c' →
    c_proc c = Some i → c_proc c' = Some i → me = me';
}.

Lemma hart_ok_same run cpus me c c' :
  hart_ok run cpus → cpus !! me = Some c → cpu_ok c' → c_proc c' = c_proc c →
  (c_proc c = None → c_noff c' = 0) → hart_ok run (<[me := c']> cpus).
Proof.
  intros [H1 H2 H3 H4] Hc Hok Hp Hn. pose proof (lookup_lt_Some _ _ _ Hc). split.
  - intros k d [(<- & <- & _)|[_ Hd]]%list_lookup_insert_Some; [| by eapply H1].
    split; [done |]. rewrite Hp. done.
  - intros k d i [(<- & <- & _)|[_ Hd]]%list_lookup_insert_Some; [rewrite Hp |]; by eapply H2.
  - intros i Hi. destruct (H3 i Hi) as (k & d & Hd & Hdi). destruct (decide (k = me)) as [->|Hne].
    + exists me, c'. rewrite list_lookup_insert_eq by done. split; [done | congruence].
    + exists k, d. by rewrite list_lookup_insert_ne.
  - intros k k' d d' i [(<- & <- & _)|[_ Hd]]%list_lookup_insert_Some
      [(<- & <- & _)|[_ Hd']]%list_lookup_insert_Some; rewrite ?Hp; eauto.
Qed.

(** A process leaves hart [me]. *)
Lemma hart_ok_stop run cpus me c i b e :
  hart_ok run cpus → cpus !! me = Some c → c_proc c = Some i →
  hart_ok (<[i := false]> run) (<[me := Cpu None 0 b e]> cpus).
Proof.
  intros [H1 H2 H3 H4] Hc Hi. pose proof (lookup_lt_Some _ _ _ Hc). split.
  - intros k d [(<- & <- & _)|[_ Hd]]%list_lookup_insert_Some; [| by eapply H1].
    split; [by split; cbn |]. done.
  - intros k d j [(<- & <- & _)|[Hk Hd]]%list_lookup_insert_Some Hj; [done |].
    rewrite list_lookup_insert_ne by (intros ->; eauto using eq_sym). by eapply H2.
  - intros j [(_ & ? & _)|[Hj Hr]]%list_lookup_insert_Some; [done |].
    destruct (H3 j Hr) as (k & d & Hd & Hdj). exists k, d. rewrite list_lookup_insert_ne; [done | congruence].
  - intros k k' d d' j [(<- & <- & _)|[_ Hd]]%list_lookup_insert_Some
      [(<- & <- & _)|[_ Hd']]%list_lookup_insert_Some; try done; eauto.
Qed.

(** An idle hart takes a process. *)
Lemma hart_ok_start run cpus me c i c' :
  hart_ok run cpus → cpus !! me = Some c → c_proc c = None → run !! i = Some false →
  cpu_ok c' → c_proc c' = Some i → hart_ok (<[i := true]> run) (<[me := c']> cpus).
Proof.
  intros [H1 H2 H3 H4] Hc Hn Hi Hok Hp. pose proof (lookup_lt_Some _ _ _ Hc). pose proof (lookup_lt_Some _ _ _ Hi). split.
  - intros k d [(<- & <- & _)|[_ Hd]]%list_lookup_insert_Some; [| by eapply H1].
    split; [done |]. congruence.
  - intros k d j [(<- & <- & _)|[Hk Hd]]%list_lookup_insert_Some Hj.
    + simplify_eq. by rewrite list_lookup_insert_eq.
    + destruct (decide (i = j)) as [->|]; [by rewrite list_lookup_insert_eq |].
      rewrite list_lookup_insert_ne by done. by eapply H2.
  - intros j [(<- & _ & _)|[Hj Hr]]%list_lookup_insert_Some.
    + exists me, c'. by rewrite list_lookup_insert_eq.
    + destruct (H3 j Hr) as (k & d & Hd & Hdj). exists k, d. rewrite list_lookup_insert_ne; [done | congruence].
  - assert (∀ k d, cpus !! k = Some d → c_proc d ≠ Some i) as Hno.
    { intros k d Hd Hdi. pose proof (H2 _ _ _ Hd Hdi). congruence. }
    intros k k' d d' j [(<- & <- & _)|[_ Hd]]%list_lookup_insert_Some
      [(<- & <- & _)|[_ Hd']]%list_lookup_insert_Some ? ?; simplify_eq; try done; [naive_solver | naive_solver |].
    by eapply H4.
Qed.

(** ** The tree of processes *)
Inductive pkind := KUnused | KAlive | KZombie.
#[export] Instance pkind_eq_dec : EqDecision pkind.
Proof. solve_decision. Defined.
Definition kind_of (x : procstate) : pkind :=
  match x with UNUSED => KUnused | ZOMBIE => KZombie | _ => KAlive end.
Record node := Node { n_kind : pkind; n_parent : option nat; n_pid : Z }.
Definition node_of (p : proc) : node := Node (kind_of (p_state p)) (p_parent p) (p_pid p).

(** Pids of used entries are distinct and below [nextpid]; init is there,
    with the least pid and no parent; every other used entry has a parent
    that is alive and older, so the parents form a tree under init. *)
Record tree_ok (l : list node) (init : option nat) (np : Z) : Prop := {
  to_pid : ∀ i x, l !! i = Some x → n_kind x ≠ KUnused → 0 < n_pid x < np;
  to_uniq : ∀ i j x y, l !! i = Some x → l !! j = Some y → n_kind x ≠ KUnused → n_kind y ≠ KUnused →
    n_pid x = n_pid y → i = j;
  to_unused : ∀ i x, l !! i = Some x → n_kind x = KUnused → n_parent x = None;
  to_init : ∃ k z, init = Some k ∧ l !! k = Some z ∧ n_kind z = KAlive ∧ n_parent z = None;
  to_tree : ∀ i x, l !! i = Some x → n_kind x ≠ KUnused → init ≠ Some i →
    ∃ j y, n_parent x = Some j ∧ l !! j = Some y ∧ n_kind y = KAlive ∧ n_pid y < n_pid x;
}.

Lemma tree_parent l init np i x j :
  tree_ok l init np → l !! i = Some x → n_parent x = Some j →
  init ≠ Some i ∧ n_kind x ≠ KUnused ∧ ∃ y, l !! j = Some y ∧ n_kind y = KAlive ∧ n_pid y < n_pid x.
Proof.
  intros Ht Hx Hj. destruct Ht as [H1 H2 H3 H4 H5].
  assert (n_kind x ≠ KUnused) as Hk by (intros E; rewrite (H3 i x Hx E) in Hj; done).
  assert (init ≠ Some i) as Hi by (destruct H4 as (k & z & -> & Hz & _ & Hp); congruence).
  split_and!; [done | done |]. destruct (H5 i x Hx Hk Hi) as (j' & y & Hj' & Hy & ? & ?). simplify_eq. by exists y.
Qed.

Lemma tree_not_self l init np i x : tree_ok l init np → l !! i = Some x → n_parent x ≠ Some i.
Proof.
  intros Ht Hx Hp. destruct (tree_parent _ _ _ _ _ _ Ht Hx Hp) as (_ & _ & y & Hy & _ & Hlt).
  simplify_eq. lia.
Qed.

(** Init has the least pid. *)
Lemma tree_init_least l init np k z i x :
  tree_ok l init np → init = Some k → l !! k = Some z → l !! i = Some x → n_kind x ≠ KUnused → i ≠ k →
  n_pid z < n_pid x.
Proof.
  intros Ht Hk Hz. revert i.
  assert (∀ n i, 0 <= n_pid (default z (l !! i)) < Z.of_nat n → l !! i = Some x ∨ True →
    ∀ y, l !! i = Some y → n_kind y ≠ KUnused → i ≠ k → n_pid z < n_pid y) as Hind.
  { induction n as [|n IH]; intros i Hn _ y Hy Hu Hi; [lia |].
    rewrite Hy in Hn. cbn in Hn. destruct Ht as [H1 H2 H3 H4 H5].
    destruct (H5 i y Hy Hu) as (j & w & Hj & Hw & Hwk & Hlt); [congruence |].
    destruct (decide (j = k)) as [->|Hjk]; [by simplify_eq |].
    assert (n_kind w ≠ KUnused) as Hwu by (by rewrite Hwk).
    transitivity (n_pid w); [| done]. apply (IH j); [| by right | done | done | done].
    rewrite Hw. cbn. pose proof (H1 j w Hw Hwu). lia. }
  intros i Hx Hu Hi. apply (Hind (Z.to_nat (n_pid x) + 1)%nat i); [| by right | done | done | done].
  rewrite Hx. cbn. pose proof (to_pid _ _ _ Ht i x Hx Hu). lia.
Qed.

(** A spare entry gets another pid; pids are used up. *)
Lemma tree_spare l init np np' i x y :
  tree_ok l init np → l !! i = Some x → n_kind x = KUnused → n_kind y = KUnused → n_parent y = None →
  np <= np' → tree_ok (<[i := y]> l) init np'.
Proof.
  intros [H1 H2 H3 H4 H5] Hx Hxu Hyu Hyp Hnp. pose proof (lookup_lt_Some _ _ _ Hx). split.
  - intros j w [(<- & <- & _)|[_ Hw]]%list_lookup_insert_Some Hu; [done |]. specialize (H1 j w Hw Hu). lia.
  - intros j j' w w' [(<- & <- & _)|[_ Hw]]%list_lookup_insert_Some
      [(<- & <- & _)|[_ Hw']]%list_lookup_insert_Some ? ?; try done. by eapply H2.
  - intros j w [(<- & <- & _)|[_ Hw]]%list_lookup_insert_Some Hu; [done |]. by eapply H3.
  - destruct H4 as (k & z & Hk & Hz & Hzk & Hzp). exists k, z. rewrite list_lookup_insert_ne; [done | congruence].
  - intros j w [(<- & <- & _)|[_ Hw]]%list_lookup_insert_Some Hu Hi; [done |].
    destruct (H5 j w Hw Hu Hi) as (j' & v & ? & Hv & ? & ?). exists j', v.
    rewrite list_lookup_insert_ne; [done | congruence].
Qed.

(** [fork]: a spare entry becomes a child of [p], with the next pid. *)
Lemma tree_fork l init np i x p y :
  tree_ok l init np → l !! i = Some x → n_kind x = KUnused → l !! p = Some y → n_kind y = KAlive →
  0 < np → tree_ok (<[i := Node KAlive (Some p) np]> l) init (np + 1).
Proof.
  intros Ht Hx Hxu Hy Hya Hnp. destruct Ht as [H1 H2 H3 H4 H5]. pose proof (lookup_lt_Some _ _ _ Hx).
  assert (i ≠ p) as Hip by congruence. split.
  - intros j w [(<- & <- & _)|[_ Hw]]%list_lookup_insert_Some Hu; [cbn; lia |]. specialize (H1 j w Hw Hu). lia.
  - intros j j' w w' [(<- & <- & _)|[Hj Hw]]%list_lookup_insert_Some
      [(<- & <- & _)|[Hj' Hw']]%list_lookup_insert_Some Hu Hu' E; cbn in *; try done.
    + specialize (H1 j' w' Hw' Hu'). lia.
    + specialize (H1 j w Hw Hu). lia.
    + by eapply H2.
  - intros j w [(<- & <- & _)|[_ Hw]]%list_lookup_insert_Some Hu; [done |]. by eapply H3.
  - destruct H4 as (k & z & Hk & Hz & Hzk & Hzp). exists k, z. rewrite list_lookup_insert_ne; [done | congruence].
  - intros j w [(<- & <- & _)|[_ Hw]]%list_lookup_insert_Some Hu Hi.
    + exists p, y. rewrite list_lookup_insert_ne by done. split_and!; try done. cbn.
      eapply H1; [done | by rewrite Hya].
    + destruct (H5 j w Hw Hu Hi) as (j' & v & ? & Hv & ? & ?). exists j', v.
      rewrite list_lookup_insert_ne; [done | congruence].
Qed.

(** [wait] frees a zombie. *)
Lemma tree_reap l init np i x y :
  tree_ok l init np → l !! i = Some x → n_kind x = KZombie → n_kind y = KUnused → n_parent y = None →
  tree_ok (<[i := y]> l) init np.
Proof.
  intros [H1 H2 H3 H4 H5] Hx Hxz Hyu Hyp. pose proof (lookup_lt_Some _ _ _ Hx). split.
  - intros j w [(<- & <- & _)|[_ Hw]]%list_lookup_insert_Some Hu; [done |]. by eapply H1.
  - intros j j' w w' [(<- & <- & _)|[_ Hw]]%list_lookup_insert_Some
      [(<- & <- & _)|[_ Hw']]%list_lookup_insert_Some ? ?; try done. by eapply H2.
  - intros j w [(<- & <- & _)|[_ Hw]]%list_lookup_insert_Some Hu; [done |]. by eapply H3.
  - destruct H4 as (k & z & Hk & Hz & Hzk & Hzp). exists k, z. rewrite list_lookup_insert_ne; [done | congruence].
  - intros j w [(<- & <- & _)|[_ Hw]]%list_lookup_insert_Some Hu Hi; [done |].
    destruct (H5 j w Hw Hu Hi) as (j' & v & ? & Hv & ? & ?). exists j', v.
    rewrite list_lookup_insert_ne; [done | congruence].
Qed.

(** [exit]: process [p] becomes a zombie and init adopts its children. *)
Definition exit_node (p init i : nat) (x : node) : node :=
  Node (if decide (i = p) then KZombie else n_kind x)
       (if decide (n_parent x = Some p) then Some init else n_parent x) (n_pid x).

Lemma tree_exit l k np p x :
  tree_ok l (Some k) np → l !! p = Some x → n_kind x = KAlive → p ≠ k →
  tree_ok (imap (exit_node p k) l) (Some k) np.
Proof.
  intros Ht Hx Hxa Hpk. pose proof Ht as [H1 H2 H3 H4 H5].
  destruct H4 as (k' & z & [= <-] & Hz & Hzk & Hzp).
  assert (∀ j w, imap (exit_node p k) l !! j = Some w → ∃ v, l !! j = Some v ∧ w = exit_node p k j v) as Hl.
  { intros j w. rewrite list_lookup_imap. destruct (l !! j) as [v|]; [| done]. intros [= <-]. by exists v. }
  assert (∀ j v, l !! j = Some v → n_kind (exit_node p k j v) ≠ KUnused → n_kind v ≠ KUnused) as Hu.
  { intros j v Hv. unfold exit_node. cbn. case_decide; [| done]. intros _. simplify_eq. by rewrite Hxa. }
  split.
  - intros j w (v & Hv & ->)%Hl Hw. exact (H1 j v Hv (Hu j v Hv Hw)).
  - intros j j' w w' (v & Hv & ->)%Hl (v' & Hv' & ->)%Hl Hw Hw' E.
    exact (H2 j j' v v' Hv Hv' (Hu j v Hv Hw) (Hu j' v' Hv' Hw') E).
  - intros j w (v & Hv & ->)%Hl Hw. cbn in *. destruct (decide (j = p)); [done |].
    pose proof (H3 j v Hv Hw) as E. rewrite E. by rewrite decide_False.
  - exists k, (exit_node p k k z). rewrite list_lookup_imap, Hz. unfold exit_node. cbn.
    rewrite decide_False by done. by rewrite Hzp.
  - intros j w (v & Hv & ->)%Hl Hw Hj. specialize (Hu j v Hv Hw).
    destruct (H5 j v Hv Hu Hj) as (q & y & Hq & Hy & Hya & Hlt). unfold exit_node at 1. cbn. rewrite Hq.
    case_decide as Hqp.
    + exists k, (exit_node p k k z). rewrite list_lookup_imap, Hz. split_and!; [done | done | |].
      * unfold exit_node. cbn. by rewrite decide_False.
      * cbn. eapply (tree_init_least l (Some k)); try done. congruence.
    + exists q, (exit_node p k q y). rewrite list_lookup_imap, Hy. split_and!; [done | done | | done].
      unfold exit_node. cbn. rewrite decide_False by congruence. done.
Qed.
