(* ===== verification/ProcProofs.v ===== *)
(** * The sections of [proc.c]: locks, table updates, loops *)
From S2P Require Import Prelude Params CString Locks BlockLayer Fs Dir Pipe Riscv Kalloc Vm Access Spinlock File Proc.

(** A map over the entries before index [j]. *)
Definition fmap_upto {A} (g : A → A) (j : nat) (l : list A) : list A := (g <$> take j l) ++ drop j l.

Lemma fmap_upto_full {A} (g : A → A) l : fmap_upto g (length l) l = g <$> l.
Proof. unfold fmap_upto. by rewrite take_ge, drop_ge, app_nil_r by lia. Qed.

Lemma fmap_upto_lookup {A} (g : A → A) j l x : l !! j = Some x → fmap_upto g j l !! j = Some x.
Proof.
  intros Hx. pose proof (lookup_lt_Some _ _ _ Hx). unfold fmap_upto.
  rewrite lookup_app_r by (rewrite length_fmap, length_take; lia).
  rewrite length_fmap, length_take, lookup_drop, <- Hx. f_equal. lia.
Qed.

Lemma fmap_upto_step {A} (g : A → A) j l x :
  l !! j = Some x → <[j := g x]> (fmap_upto g j l) = fmap_upto g (j + 1) l.
Proof.
  intros Hx. pose proof (lookup_lt_Some _ _ _ Hx). unfold fmap_upto.
  rewrite insert_app_r_alt by (rewrite length_fmap, length_take; lia).
  rewrite length_fmap, length_take, Nat.min_l by lia. rewrite Nat.sub_diag.
  rewrite (drop_S l x j) by done. replace (j + 1)%nat with (S j) by lia. cbn.
  by rewrite (take_S_r l j x), fmap_app, <- app_assoc by done.
Qed.

(** A lock held by hart [me]. *)
Definition held (me : nat) : spinlock := SpinLock true (Some me).

Arguments acquire : simpl never.
Arguments release : simpl never.
Arguments upd_proc : simpl never.
Arguments cpuop : simpl never.
Arguments lock : simpl never.
Arguments unlock : simpl never.
Arguments memop : simpl never.
Arguments filesop : simpl never.

Section Sections.
Context {F : Type} `{FileOps F}.
Notation st := (pst F).
Implicit Types s : st.

(** Hart [me] and process [i] replaced. *)
Definition put_hart (me : nat) (c : cpu) (s : st) : st := put_cpus (<[me := c]> (ps_cpus s)) s.
Definition put_proc (i : nat) (p : proc) (s : st) : st := put_procs (<[i := p]> (ps_proc s)) s.

Lemma put_hart_twice me c c' s : put_hart me c (put_hart me c' s) = put_hart me c s.
Proof. unfold put_hart, put_cpus. cbn. by rewrite list_insert_insert_eq. Qed.
Lemma put_proc_twice i p p' s : put_proc i p (put_proc i p' s) = put_proc i p s.
Proof. unfold put_proc, put_procs. cbn. by rewrite list_insert_insert_eq. Qed.
Lemma put_proc_hart i p me c s : put_proc i p (put_hart me c s) = put_hart me c (put_proc i p s).
Proof. done. Qed.
Lemma put_proc_lock i p a k s :
  put_proc i p (put_lock (LkAddr a) k s) = put_lock (LkAddr a) k (put_proc i p s).
Proof. done. Qed.
Lemma put_hart_lock me c a k s :
  put_hart me c (put_lock (LkAddr a) k s) = put_lock (LkAddr a) k (put_hart me c s).
Proof. done. Qed.
Lemma put_lock_twice a k k' s :
  put_lock (LkAddr a) k (put_lock (LkAddr a) k' s) = put_lock (LkAddr a) k s.
Proof. unfold put_lock. cbn. by rewrite insert_insert_eq. Qed.
Lemma put_proc_same i p s : ps_proc s !! i = Some p → put_proc i p s = s.
Proof. destruct s. unfold put_proc, put_procs. cbn. intros Hp. by rewrite list_insert_id. Qed.
Lemma put_hart_same me c s : ps_cpus s !! me = Some c → put_hart me c s = s.
Proof. destruct s. unfold put_hart, put_cpus. cbn. intros Hp. by rewrite list_insert_id. Qed.

Lemma proc_at_eq i p s : ps_proc s !! i = Some p → proc_at i s = p.
Proof. apply list_lookup_total_correct. Qed.
Lemma cpu_at_eq me c s : ps_cpus s !! me = Some c → cpu_at me s = c.
Proof. apply list_lookup_total_correct. Qed.

Lemma upd_proc_eq i f p s : ps_proc s !! i = Some p → upd_proc i f s = Ret tt (put_proc i (f p) s).
Proof. intros Hp. unfold upd_proc, modify, put_proc. by erewrite alter_to_insert. Qed.

Lemma lock_proc me i p c s :
  ps_proc s !! i = Some p → p_lock p = initlock → ps_cpus s !! me = Some c →
  lock me (LkProc i) s = Ret tt (put_hart me (pushed c) (put_proc i (set_plock (held me) p) s)).
Proof.
  intros Hp Hl Hc. unfold lock, lockop, zoom. rewrite (cpu_at_eq _ _ _ Hc). cbn [lock_of].
  rewrite (proc_at_eq _ _ _ Hp), Hl, acquire_free. cbn. by erewrite alter_to_insert.
Qed.

Lemma unlock_proc me i p q n b s :
  ps_proc s !! i = Some p → p_lock p = held me → ps_cpus s !! me = Some (Cpu q n b false) → 0 < n →
  unlock me (LkProc i) s =
  Ret tt (put_hart me (Cpu q (n - 1) b (if decide (n - 1 = 0) then b else false)) (put_proc i (set_plock initlock p) s)).
Proof.
  intros Hp Hl Hc Hn. unfold unlock, lockop, zoom. rewrite (cpu_at_eq _ _ _ Hc). cbn [lock_of].
  rewrite (proc_at_eq _ _ _ Hp), Hl. unfold held. rewrite release_held by done. cbn. by erewrite alter_to_insert.
Qed.

Lemma unlock_pushed me i p c s :
  ps_proc s !! i = Some p → p_lock p = held me → ps_cpus s !! me = Some (pushed c) → cpu_ok c →
  unlock me (LkProc i) s = Ret tt (put_hart me (settle c) (put_proc i (set_plock initlock p) s)).
Proof.
  intros Hp Hl Hc Hok. unfold unlock, lockop, zoom. rewrite (cpu_at_eq _ _ _ Hc). cbn [lock_of].
  rewrite (proc_at_eq _ _ _ Hp), Hl. unfold held. rewrite release_pushed by done. cbn. by erewrite alter_to_insert.
Qed.

Lemma myproc_eq me c s :
  ps_cpus s !! me = Some c → cpu_ok c → myproc me s = Ret (c_proc c) (put_hart me (settle c) s).
Proof.
  intros Hc Hok. pose proof (lookup_lt_Some _ _ _ Hc) as Hlt.
  unfold myproc, bind, cpuop, zoom. rewrite (cpu_at_eq _ _ _ Hc), push_off_pushed. cbn.
  unfold cpu_at. cbn. rewrite list_lookup_total_insert_eq by done. rewrite pop_pushed by done. cbn.
  unfold put_hart, put_cpus. cbn. by rewrite list_insert_insert_eq.
Qed.

Lemma curproc_eq me c i s :
  ps_cpus s !! me = Some c → cpu_ok c → c_proc c = Some i →
  curproc me s = Ret i (put_hart me (settle c) s).
Proof. intros Hc Hok Hi. unfold curproc, bind. rewrite (myproc_eq _ c) by done. by rewrite Hi. Qed.

Lemma plock_set_plock l p : p_lock (set_plock l p) = l.
Proof. done. Qed.
Lemma set_plock_twice l l' p : set_plock l (set_plock l' p) = set_plock l p.
Proof. done. Qed.
Lemma set_plock_id p : set_plock (p_lock p) p = p.
Proof. by destruct p. Qed.

Lemma set_plock_restore f l p :
  (∀ l q, f (set_plock l q) = set_plock l (f q)) → p_lock p = initlock →
  set_plock initlock (f (set_plock l p)) = f p.
Proof. intros Hf Hl. rewrite Hf, set_plock_twice, <- Hf, <- Hl. by rewrite set_plock_id. Qed.

Lemma relock_id l p : p_lock p = initlock → set_plock initlock (set_plock l p) = p.
Proof. intros <-. by destruct p. Qed.

(** A table entry with its lock taken, changed and given back. *)
Lemma locked_section me i p c f s :
  ps_proc s !! i = Some p → p_lock p = initlock → ps_cpus s !! me = Some c → cpu_ok c →
  (∀ l q, f (set_plock l q) = set_plock l (f q)) →
  (lock me (LkProc i);; upd_proc i f;; unlock me (LkProc i)) s =
  Ret tt (put_hart me (settle c) (put_proc i (f p) s)).
Proof.
  intros Hp Hl Hc Hok Hf. pose proof (lookup_lt_Some _ _ _ Hp). pose proof (lookup_lt_Some _ _ _ Hc).
  unfold bind. rewrite (lock_proc me i p c) by done.
  erewrite upd_proc_eq; [| cbn; by rewrite list_lookup_insert_eq].
  erewrite (unlock_pushed me i _ c); [| cbn; rewrite list_lookup_insert_eq; [done | by rewrite length_insert] | | cbn; by rewrite list_lookup_insert_eq | done].
  2:{ by rewrite Hf. }
  rewrite Hf, set_plock_twice. rewrite !put_proc_hart, !put_proc_twice, put_hart_twice.
  f_equal. f_equal. f_equal. rewrite <- Hl, <- Hf. by rewrite set_plock_id.
Qed.

(** ** A pass over the table

    Hart [me] ends as it began, but for [intena] when no lock was held. *)
Definition same_hart (c c' : cpu) : Prop := settle c' = settle c ∧ cpu_ok c'.

Lemma same_hart_refl c : cpu_ok c → same_hart c c.
Proof. done. Qed.
Lemma same_hart_settle c : cpu_ok c → same_hart c (settle c).
Proof. intros Hc. split; [apply settle_idem |]. apply Hc. Qed.
Lemma same_hart_trans c c' c'' : same_hart c c' → same_hart c' c'' → same_hart c c''.
Proof. intros [? _] [? ?]. split; [congruence | done]. Qed.
(** Under a lock nothing changes. *)
Lemma same_hart_locked p n b c' : 0 < n → same_hart (Cpu p n b false) c' → c' = Cpu p n b false.
Proof.
  intros Hn [Hs Hok]. destruct c' as [p' n' b' e']. unfold settle in Hs. cbn in Hs.
  rewrite (decide_False (P := n = 0)) in Hs by lia. injection Hs as -> -> Hb ->.
  rewrite decide_False in Hb by lia. by subst.
Qed.
Lemma same_hart_free p b e c' : same_hart (Cpu p 0 b e) c' → ∃ b', c' = Cpu p 0 b' e.
Proof.
  intros [Hs Hok]. destruct c' as [p' n' b' e']. unfold settle in Hs. cbn in Hs.
  injection Hs as -> -> Hb ->. by eexists.
Qed.

Lemma table_loop me init (g : proc → proc) (P : proc → Prop) (body : Z → M st unit) s c :
  (∀ i p d s', ps_proc s' !! i = Some p → P p → ps_cpus s' !! me = Some d → cpu_ok d →
     ps_initproc s' = init →
     ∃ d', same_hart d d' ∧ body (Z.of_nat i) s' = Ret tt (put_hart me d' (put_proc i (g p) s'))) →
  Forall P (ps_proc s) → ps_cpus s !! me = Some c → cpu_ok c → ps_initproc s = init →
  length (ps_proc s) = nproc →
  ∃ c', same_hart c c' ∧ mfor nproc 0 body s = Ret tt (put_hart me c' (put_procs (g <$> ps_proc s) s)).
Proof.
  intros Hbody HP Hc Hok Hi Hn. pose proof (lookup_lt_Some _ _ _ Hc) as Hlt.
  set (I := λ (j : nat) s', ∃ c', same_hart c c' ∧ s' = put_hart me c' (put_procs (fmap_upto g j (ps_proc s)) s)).
  assert (wp (mfor nproc 0 body) (λ _, I nproc) s) as (a & s' & E & c' & Hc' & ->)%wp_inv.
  - apply (wp_mfor I).
    + exists c. split; [by apply same_hart_refl |]. unfold fmap_upto. rewrite take_0, drop_0. cbn.
      destruct s. unfold put_hart, put_procs, put_cpus. cbn in *. by rewrite list_insert_id.
    + intros j s' Hj (c' & Hc' & ->).
      destruct (lookup_lt_is_Some_2 (ps_proc s) j ltac:(lia)) as [p Hp].
      edestruct (Hbody j p c' (put_hart me c' (put_procs (fmap_upto g j (ps_proc s)) s))) as (d & Hd & E).
      * cbn. by apply fmap_upto_lookup.
      * by eapply Forall_lookup_1.
      * cbn. by rewrite list_lookup_insert_eq.
      * apply Hc'.
      * done.
      * eapply wp_intro; [exact E |]. exists d. split; [by eapply same_hart_trans |].
        rewrite put_proc_hart, put_hart_twice. unfold put_proc. cbn. by rewrite fmap_upto_step.
  - exists c'. split; [done |]. rewrite E. destruct a. unfold put_procs. cbn.
    rewrite <- Hn, fmap_upto_full. done.
Qed.

Lemma locked_section_id me i p c s :
  ps_proc s !! i = Some p → p_lock p = initlock → ps_cpus s !! me = Some c → cpu_ok c →
  (lock me (LkProc i);; unlock me (LkProc i)) s = Ret tt (put_hart me (settle c) (put_proc i p s)).
Proof.
  intros Hp Hl Hc Hok. change p with (id p) at 1. rewrite <- (locked_section me i p c id s) by done.
  unfold bind. destruct (lock me (LkProc i) s) eqn:E; try done.
  rewrite (lock_proc me i p c) in E by done. injection E as <- <-.
  erewrite upd_proc_eq; [| cbn; rewrite list_lookup_insert_eq; [done | by eapply lookup_lt_Some]].
  by rewrite put_proc_hart, put_proc_twice.
Qed.

(** ** [wakeup] *)
Definition wake (chan : wchan) (p : proc) : proc :=
  if decide (p_state p = SLEEPING ∧ p_chan p = Some chan) then set_state RUNNABLE p else p.

Lemma wakeup_step_eq me chan i p d s :
  ps_proc s !! i = Some p → p_lock p = initlock → ps_cpus s !! me = Some d → cpu_ok d →
  wakeup_step me chan (Z.of_nat i) s = Ret tt (put_hart me (settle d) (put_proc i (wake chan p) s)).
Proof.
  intros Hp Hlp Hd Hokd. unfold wakeup_step. rewrite Nat2Z.id. unfold wake. case_decide as Hs.
  - rewrite <- (locked_section me i p d (set_state RUNNABLE) s) by done.
    unfold bind. rewrite (lock_proc me i p d) by done. cbn.
    erewrite proc_at_eq; [| cbn; rewrite list_lookup_insert_eq; [done | by eapply lookup_lt_Some]].
    by rewrite decide_True.
  - rewrite <- (locked_section_id me i p d s) by done.
    unfold bind. rewrite (lock_proc me i p d) by done. cbn.
    erewrite proc_at_eq; [| cbn; rewrite list_lookup_insert_eq; [done | by eapply lookup_lt_Some]].
    by rewrite decide_False.
Qed.

Lemma wakeup_eq me chan c s :
  Forall (λ p, p_lock p = initlock) (ps_proc s) → ps_cpus s !! me = Some c → cpu_ok c →
  length (ps_proc s) = nproc →
  ∃ c', same_hart c c' ∧ wakeup me chan s = Ret tt (put_hart me c' (put_procs (wake chan <$> ps_proc s) s)).
Proof.
  intros Hl Hc Hok Hn. apply (table_loop me (ps_initproc s) _ (λ p, p_lock p = initlock)); try done.
  intros i p d s' Hp Hlp Hd Hokd _. exists (settle d). split; [by apply same_hart_settle |].
  by apply wakeup_step_eq.
Qed.

(** ** Switching *)
Lemma sched_eq me i p b s :
  ps_cpus s !! me = Some (Cpu (Some i) 1 b false) → ps_proc s !! i = Some p → p_lock p = held me →
  p_state p ≠ RUNNING → sched me s = Ret b s.
Proof.
  intros Hc Hp Hl Hr. unfold sched, bind. rewrite (curproc_eq me _ i s Hc) by done.
  rewrite put_hart_same by done. cbn. erewrite proc_at_eq, cpu_at_eq by done. rewrite Hl.
  unfold holding. cbn. rewrite bool_decide_true by done. cbn.
  by rewrite (decide_False (P := p_state p = RUNNING)).
Qed.

Lemma cpuop_modify me f c s :
  ps_cpus s !! me = Some c → cpuop me (modify f) s = Ret tt (put_hart me (f c) s).
Proof. intros Hc. unfold cpuop, zoom. by rewrite (cpu_at_eq _ _ _ Hc). Qed.

Lemma scheduler_return_eq me i p q b s :
  ps_cpus s !! me = Some (Cpu q 1 b false) → ps_proc s !! i = Some p → p_lock p = held me →
  scheduler_return me i s = Ret tt (put_hart me (Cpu None 0 b b) (put_proc i (set_plock initlock p) s)).
Proof.
  intros Hc Hp Hl. pose proof (lookup_lt_Some _ _ _ Hc). unfold scheduler_return, bind.
  erewrite cpuop_modify by done. erewrite unlock_proc; [| done | done | cbn; by rewrite list_lookup_insert_eq | done].
  by rewrite put_proc_hart, put_hart_twice.
Qed.

Lemma scheduler_pick_eq me i p b e s :
  ps_cpus s !! me = Some (Cpu None 0 b e) → ps_proc s !! i = Some p → p_lock p = initlock →
  p_state p = RUNNABLE →
  scheduler_pick me i s =
  Ret true (put_hart me (Cpu (Some i) 1 e false) (put_proc i (set_plock (held me) (set_state RUNNING p)) s)).
Proof.
  intros Hc Hp Hl Hr. pose proof (lookup_lt_Some _ _ _ Hc). pose proof (lookup_lt_Some _ _ _ Hp).
  unfold scheduler_pick, bind. rewrite (lock_proc me i p _ s Hp Hl Hc). cbn.
  erewrite proc_at_eq by (cbn; by rewrite list_lookup_insert_eq). cbn. rewrite decide_True by done.
  erewrite upd_proc_eq by (cbn; by rewrite list_lookup_insert_eq).
  erewrite cpuop_modify by (cbn; by rewrite list_lookup_insert_eq).
  by rewrite !put_proc_hart, put_proc_twice, put_hart_twice.
Qed.

Lemma scheduler_pick_no me i p c s :
  ps_cpus s !! me = Some c → cpu_ok c → ps_proc s !! i = Some p → p_lock p = initlock →
  p_state p ≠ RUNNABLE →
  scheduler_pick me i s = Ret false (put_hart me (settle c) s).
Proof.
  intros Hc Hok Hp Hl Hr. pose proof (lookup_lt_Some _ _ _ Hp). unfold scheduler_pick.
  pose proof (locked_section_id me i p c s Hp Hl Hc Hok) as E. unfold bind in *.
  rewrite (lock_proc me i p _ s Hp Hl Hc) in *. cbn in E |- *.
  erewrite proc_at_eq by (cbn; by rewrite list_lookup_insert_eq). rewrite decide_False by done.
  rewrite E. by rewrite put_proc_same.
Qed.

Lemma yield_section me i p b e s :
  ps_cpus s !! me = Some (Cpu (Some i) 0 b e) → ps_proc s !! i = Some p → p_lock p = initlock →
  (let! x := yield me in scheduler_return me i;; ret x) s =
  Ret e (put_hart me (Cpu None 0 e e) (put_proc i (set_state RUNNABLE p) s)).
Proof.
  intros Hc Hp Hl. pose proof (lookup_lt_Some _ _ _ Hc). pose proof (lookup_lt_Some _ _ _ Hp).
  unfold yield, bind. rewrite (curproc_eq me _ i s Hc) by done.
  erewrite lock_proc; [| done | done | cbn; by rewrite list_lookup_insert_eq].
  erewrite upd_proc_eq by (cbn; by rewrite list_lookup_insert_eq).
  erewrite sched_eq; [| cbn; rewrite list_lookup_insert_eq by (by rewrite length_insert); reflexivity | cbn; rewrite list_lookup_insert_eq by (by rewrite length_insert); reflexivity | done | done].
  erewrite scheduler_return_eq; [| cbn; rewrite list_lookup_insert_eq by (by rewrite length_insert); reflexivity | cbn; rewrite list_lookup_insert_eq by (by rewrite length_insert); reflexivity | done].
  rewrite !put_proc_hart, !put_proc_twice, !put_hart_twice.
  by rewrite (set_plock_restore (set_state RUNNABLE)).
Qed.

(** *** Sleeping on a channel, protected by another lock *)
Lemma unlock_addr me a q n b s :
  ps_cpus s !! me = Some (Cpu q n b false) → lock_of (LkAddr a) s = held me → 0 < n →
  unlock me (LkAddr a) s =
  Ret tt (put_lock (LkAddr a) initlock (put_hart me (Cpu q (n - 1) b (if decide (n - 1 = 0) then b else false)) s)).
Proof.
  intros Hc Hl Hn. unfold unlock, lockop, zoom. rewrite (cpu_at_eq _ _ _ Hc), Hl. unfold held.
  by rewrite release_held by done.
Qed.

Lemma lock_addr me a c s :
  ps_cpus s !! me = Some c → lock_of (LkAddr a) s = initlock →
  lock me (LkAddr a) s = Ret tt (put_lock (LkAddr a) (held me) (put_hart me (pushed c) s)).
Proof. intros Hc Hl. unfold lock, lockop, zoom. by rewrite (cpu_at_eq _ _ _ Hc), Hl, acquire_free. Qed.

(** [sleep] without interruption. *)
Lemma sleep_eq me chan lk s :
  sleep me chan lk s =
  (let! i := curproc me in
   (if decide (lk ≠ LkProc i) then lock me (LkProc i);; unlock me lk else ret tt);;
   upd_proc i (set_chan (Some chan));;
   upd_proc i (set_state SLEEPING);;
   sched me) s.
Proof.
  unfold sleep, sleep_code. rewrite exec_cbind. cbn [exec act]. unfold bind, ret.
  destruct (curproc me s) as [i s1| | |]; try done. rewrite exec_cbind. unfold bind.
  case_decide; cbn [exec act cbind]; unfold bind, ret.
  - destruct (lock me (LkProc i) s1) as [[] s2| | |]; try done.
    destruct (unlock me lk s2) as [[] s3| | |]; try done.
    destruct (upd_proc i _ s3) as [? s4| | |]; try done.
    destruct (upd_proc i _ s4) as [? s5| | |]; try done. by destruct (sched me s5).
  - destruct (upd_proc i _ s1) as [? s4| | |]; try done.
    destruct (upd_proc i _ s4) as [? s5| | |]; try done. by destruct (sched me s5).
Qed.

Lemma sleep_section me i p b chan a s :
  ps_cpus s !! me = Some (Cpu (Some i) 1 b false) → ps_proc s !! i = Some p → p_lock p = initlock →
  lock_of (LkAddr a) s = held me →
  (let! x := sleep me chan (LkAddr a) in scheduler_return me i;; ret x) s =
  Ret b (put_lock (LkAddr a) initlock
    (put_hart me (Cpu None 0 b b) (put_proc i (set_state SLEEPING (set_chan (Some chan) p)) s))).
Proof.
  intros Hc Hp Hl Ha. pose proof (lookup_lt_Some _ _ _ Hc). pose proof (lookup_lt_Some _ _ _ Hp).
  unfold bind at 1. rewrite sleep_eq. unfold bind.
  rewrite (curproc_eq me _ i s Hc) by done. rewrite put_hart_same by done.
  rewrite decide_True by done. rewrite (lock_proc me i p _ s Hp Hl Hc).
  erewrite unlock_addr; [| cbn; rewrite list_lookup_insert_eq by done; reflexivity | done | done].
  erewrite upd_proc_eq by (cbn; by rewrite list_lookup_insert_eq).
  erewrite upd_proc_eq by (cbn; by rewrite list_lookup_insert_eq by (by rewrite length_insert)).
  erewrite sched_eq; [| cbn; rewrite list_lookup_insert_eq by (by rewrite length_insert); reflexivity | cbn; rewrite list_lookup_insert_eq by (by rewrite !length_insert); reflexivity | done | done].
  erewrite scheduler_return_eq; [| cbn; rewrite list_lookup_insert_eq by (by rewrite length_insert); reflexivity | cbn; rewrite list_lookup_insert_eq by (by rewrite !length_insert); reflexivity | done].
  rewrite (set_plock_restore (λ q, set_state SLEEPING (set_chan (Some chan) q))) by done.
  by rewrite !put_proc_lock, !put_hart_lock, !put_proc_hart, !put_proc_twice, !put_hart_twice.
Qed.

(** ** [exit] *)
Lemma wakeup1_eq me i p s :
  ps_proc s !! i = Some p → p_lock p = held me →
  wakeup1 me i s = Ret tt (put_proc i (wake (ProcChan i) p) s).
Proof.
  intros Hp Hl. unfold wakeup1, bind, gets. rewrite (proc_at_eq _ _ _ Hp), Hl.
  unfold holding, held. cbn. rewrite bool_decide_true by done. cbn. unfold wake.
  destruct (decide (p_state p = SLEEPING ∧ p_chan p = Some (ProcChan i))) as [[]|Hn].
  - rewrite decide_True by done. by apply upd_proc_eq.
  - rewrite decide_False by tauto. by rewrite put_proc_same.
Qed.

Lemma wake_plock chan l p : wake chan (set_plock l p) = set_plock l (wake chan p).
Proof. unfold wake. cbn. by case_decide. Qed.

Definition adopt (p : nat) (init : option nat) (q : proc) : proc :=
  if decide (p_parent q = Some p) then set_parent init q else q.

Lemma reparent_eq me p c s :
  Forall (λ q, p_parent q = Some p → p_lock q = initlock) (ps_proc s) →
  ps_cpus s !! me = Some c → cpu_ok c → length (ps_proc s) = nproc →
  ∃ c', same_hart c c' ∧
    reparent me p s = Ret tt (put_hart me c' (put_procs (adopt p (ps_initproc s) <$> ps_proc s) s)).
Proof.
  intros Hl Hc Hok Hn.
  apply (table_loop me (ps_initproc s) _ (λ q, p_parent q = Some p → p_lock q = initlock)); try done.
  intros i q d s' Hq Hlq Hd Hokd Hi. unfold reparent_step. rewrite Nat2Z.id.
  unfold bind at 1, gets at 1. rewrite (proc_at_eq _ _ _ Hq). unfold adopt. case_decide as Hp.
  - exists (settle d). split; [by apply same_hart_settle |].
    rewrite <- (locked_section me i q d (set_parent (ps_initproc s)) s' Hq) by auto.
    unfold bind. rewrite (lock_proc me i q d) by auto. cbn. by rewrite Hi.
  - exists d. split; [by apply same_hart_refl |]. by rewrite put_proc_same, put_hart_same.
Qed.

(** What [exit] by process [p] makes of entry [i] of the table. *)
Definition exit_view (p parent init : nat) (status : Z) (i : nat) (q : proc) : proc :=
  let q := if decide (i = init) then wake (ProcChan init) q else q in
  let q := adopt p (Some init) q in
  let q := if decide (i = parent) then wake (ProcChan parent) q else q in
  if decide (i = p) then set_state ZOMBIE (set_xstate status q) else q.

Lemma adopt_plock p init l q : adopt p init (set_plock l q) = set_plock l (adopt p init q).
Proof. unfold adopt. cbn. by case_decide. Qed.
Lemma wake_adopt chan p init q : wake chan (adopt p init q) = adopt p init (wake chan q).
Proof. unfold wake, adopt. by repeat (case_decide; cbn). Qed.
Lemma wake_parent chan q : p_parent (wake chan q) = p_parent q.
Proof. unfold wake. by case_decide. Qed.
Lemma wake_lock chan q : p_lock (wake chan q) = p_lock q.
Proof. unfold wake. by case_decide. Qed.

(** The part of [exit] that holds the locks of the parent and the process. *)
Definition exit_tail (me p parent : nat) (status : Z) : M st bool :=
  lock me (LkProc parent);;
  lock me (LkProc p);;
  reparent me p;;
  wakeup1 me parent;;
  upd_proc p (set_xstate status);;
  upd_proc p (set_state ZOMBIE);;
  unlock me (LkProc parent);;
  let! r := sched me in scheduler_return me p;; ret r.

Definition tail_view (p parent init : nat) (status : Z) (i : nat) (q : proc) : proc :=
  let q := adopt p (Some init) q in
  let q := if decide (i = parent) then wake (ProcChan parent) q else q in
  if decide (i = p) then set_state ZOMBIE (set_xstate status q) else q.

Ltac look := repeat first
  [ rewrite list_lookup_insert_eq by (rewrite ?length_insert, ?length_fmap, ?length_insert; assumption)
  | rewrite list_lookup_insert_ne by congruence | rewrite list_lookup_fmap ]; try reflexivity; try eassumption.

(** The table in each stage of [exit_tail], entry by entry. *)
Lemma exit_tail_table me p parent init status T x y :
  T !! p = Some x → T !! parent = Some y → parent ≠ p →
  p_lock x = initlock → p_lock y = initlock →
  let g := adopt p (Some init) in
  <[p := set_plock initlock (set_state ZOMBIE (set_xstate status (g (set_plock (held me) x))))]>
    (<[parent := set_plock initlock (wake (ProcChan parent) (g (set_plock (held me) y)))]>
      (<[p := set_state ZOMBIE (set_xstate status (g (set_plock (held me) x)))]>
       (<[parent := wake (ProcChan parent) (g (set_plock (held me) y))]>
         (g <$> <[p := set_plock (held me) x]> (<[parent := set_plock (held me) y]> T))))) =
  imap (tail_view p parent init status) T.
Proof.
  intros Hx Hy Hne Hlx Hly g.
  pose proof (lookup_lt_Some _ _ _ Hx). pose proof (lookup_lt_Some _ _ _ Hy).
  apply list_eq. intros k. rewrite list_lookup_imap. unfold tail_view. fold g.
  destruct (decide (k = p)) as [->|Hkp].
  - look. rewrite Hx. cbn. rewrite (decide_False (P := p = parent)) by congruence. f_equal.
    by rewrite (set_plock_restore (λ q, set_state ZOMBIE (set_xstate status (g q))))
      by (intros; unfold g; by rewrite ?adopt_plock).
  - destruct (decide (k = parent)) as [->|Hk].
    + look. rewrite Hy. cbn. f_equal.
      by rewrite (set_plock_restore (λ q, wake (ProcChan parent) (g q)))
        by (intros; unfold g; by rewrite ?adopt_plock, ?wake_plock).
    + look; by destruct (T !! k).
Qed.

Lemma exit_tail_eq me p x parent y init e s :
  ∀ status, ps_cpus s !! me = Some (Cpu (Some p) 0 e e) →
  ps_proc s !! p = Some x → ps_proc s !! parent = Some y → parent ≠ p →
  p_parent x ≠ Some p → p_parent y ≠ Some p → ps_initproc s = Some init →
  Forall (λ q, p_lock q = initlock) (ps_proc s) → length (ps_proc s) = nproc →
  exit_tail me p parent status s =
  Ret e (put_hart me (Cpu None 0 e e) (put_procs (imap (tail_view p parent init status) (ps_proc s)) s)).
Proof.
  intros status Hc Hx Hy Hne Hpx Hpy Hi Hl Hn.
  pose proof (lookup_lt_Some _ _ _ Hx). pose proof (lookup_lt_Some _ _ _ Hy). pose proof (lookup_lt_Some _ _ _ Hc).
  assert (p_lock x = initlock) as Hlx by (by eapply Forall_lookup_1 in Hl).
  assert (p_lock y = initlock) as Hly by (by eapply Forall_lookup_1 in Hl).
  unfold exit_tail. unfold bind.
  rewrite (lock_proc me parent y _ s Hy Hly Hc).
  erewrite (lock_proc me p x); [| cbn; look | done | cbn; look].
  set (s2 := put_hart me _ (put_proc p _ _)).
  assert (s2 = put_hart me (Cpu (Some p) 2 e false)
    (put_procs (<[p := set_plock (held me) x]> (<[parent := set_plock (held me) y]> (ps_proc s))) s)) as ->.
  { subst s2. by rewrite put_proc_hart, put_hart_twice. }
  set (T2 := <[p := _]> _).
  destruct (reparent_eq me p (Cpu (Some p) 2 e false)
    (put_hart me (Cpu (Some p) 2 e false) (put_procs T2 s))) as (c' & Hc' & E).
  { cbn. apply Forall_lookup_2. intros k q Hq Hqp. subst T2.
    apply list_lookup_insert_Some in Hq as [(<- & <- & _)|[_ Hq]]; [done |].
    apply list_lookup_insert_Some in Hq as [(<- & <- & _)|[_ Hq]]; [done |].
    by eapply Forall_lookup_1 in Hl. }
  { cbn. by look. }
  { split; cbn; [lia | done]. }
  { cbn. subst T2. by rewrite !length_insert. }
  apply same_hart_locked in Hc' as ->; [| lia]. rewrite E. cbn [ps_initproc put_hart put_procs put_cpus].
  rewrite Hi. clear E.
  set (s3 := put_hart me _ (put_procs _ _)).
  assert (s3 = put_hart me (Cpu (Some p) 2 e false) (put_procs (adopt p (Some init) <$> T2) s)) as ->.
  { subst s3. unfold put_hart, put_procs, put_cpus. cbn. by rewrite list_insert_insert_eq. }
  erewrite wakeup1_eq; [| cbn; subst T2; look | by rewrite adopt_plock].
  erewrite upd_proc_eq; [| cbn; subst T2; look].
  erewrite upd_proc_eq; [| cbn; subst T2; look].
  erewrite (unlock_proc me parent); [| cbn; subst T2; look | by rewrite adopt_plock, wake_plock | cbn; look | done].
  erewrite sched_eq; [| cbn; look | cbn; subst T2; look | | done].
  2:{ cbn. by rewrite adopt_plock. }
  erewrite scheduler_return_eq; [| cbn; look | cbn; subst T2; look |].
  2:{ cbn. by rewrite adopt_plock. }
  unfold ret. f_equal. rewrite !put_proc_hart, !put_hart_twice.
  rewrite (put_proc_twice p). by rewrite <- (exit_tail_table me p parent init status _ x y).
Qed.

Lemma locked_look me i p c f s :
  ps_proc s !! i = Some p → p_lock p = initlock → ps_cpus s !! me = Some c → cpu_ok c →
  (∀ l q, f (set_plock l q) = set_plock l (f q)) →
  ∀ (m : M st unit),
  (∀ s', ps_proc s' !! i = Some (set_plock (held me) p) → m s' = Ret tt (put_proc i (f (set_plock (held me) p)) s')) →
  (lock me (LkProc i);; m;; unlock me (LkProc i)) s = Ret tt (put_hart me (settle c) (put_proc i (f p) s)).
Proof.
  intros Hp Hl Hc Hok Hf m Hm. rewrite <- (locked_section me i p c f s) by done.
  pose proof (lookup_lt_Some _ _ _ Hp). unfold bind. rewrite (lock_proc me i p c) by done.
  rewrite Hm by (cbn; look). erewrite upd_proc_eq; [done | cbn; look].
Qed.

Lemma exit_view_tail p parent init status z (T : list proc) :
  T !! init = Some z →
  imap (tail_view p parent init status) (<[init := wake (ProcChan init) z]> T) =
  imap (exit_view p parent init status) T.
Proof.
  intros Hz. pose proof (lookup_lt_Some _ _ _ Hz). apply list_eq. intros k. rewrite !list_lookup_imap.
  unfold exit_view, tail_view. destruct (decide (k = init)) as [->|Hk].
  - look. by rewrite Hz.
  - look; by destruct (T !! k).
Qed.

Lemma exit_section me p x parent y init z b e status s :
  ps_cpus s !! me = Some (Cpu (Some p) 0 b e) →
  ps_proc s !! p = Some x → p_parent x = Some parent → ps_proc s !! parent = Some y → parent ≠ p →
  p_parent y ≠ Some p → ps_initproc s = Some init → ps_proc s !! init = Some z → init ≠ p →
  Forall (λ q, p_lock q = initlock) (ps_proc s) → length (ps_proc s) = nproc →
  (let! r := exit_leave me p status in scheduler_return me p;; ret r) s =
  Ret e (put_hart me (Cpu None 0 e e) (put_procs (imap (exit_view p parent init status) (ps_proc s)) s)).
Proof.
  intros Hc Hx Hpx Hy Hne Hpy Hi Hz Hip Hl Hn. pose proof (lookup_lt_Some _ _ _ Hc).
  pose proof (lookup_lt_Some _ _ _ Hx). pose proof (lookup_lt_Some _ _ _ Hz).
  assert (p_lock z = initlock) as Hlz by (by eapply Forall_lookup_1 in Hl).
  assert (p_lock x = initlock) as Hlx by (by eapply Forall_lookup_1 in Hl).
  set (s1 := put_hart me (Cpu (Some p) 0 e e) (put_proc init (wake (ProcChan init) z) s)).
  assert ((lock me (LkProc init);; wakeup1 me init;; unlock me (LkProc init)) s = Ret tt s1) as E1.
  { rewrite (locked_look me init z (Cpu (Some p) 0 b e) (wake (ProcChan init)) s); try done.
    - intros l q. apply wake_plock.
    - intros s' Hs'. by apply wakeup1_eq. }
  assert (ps_proc s1 !! p = Some x) as Hx1 by (cbn; look).
  assert (ps_cpus s1 !! me = Some (Cpu (Some p) 0 e e)) as Hc1 by (cbn; look).
  pose proof (locked_section_id me p x _ s1 Hx1 Hlx Hc1 ltac:(split; cbn; lia)) as E2.
  rewrite put_proc_same, put_hart_same in E2 by done.
  assert (∃ y1, ps_proc s1 !! parent = Some y1 ∧ p_parent y1 ≠ Some p) as (y1 & Hy1 & Hpy1).
  { cbn. destruct (decide (init = parent)) as [->|]; [| exists y; split; [look | done]].
    exists (wake (ProcChan parent) z). split; [look |]. rewrite wake_parent. congruence. }
  pose proof (exit_tail_eq me p x parent y1 init e s1 status) as E3.
  cbn in E3. rewrite (exit_view_tail p parent init status z) in E3 by done.
  assert (exit_tail me p parent status s1 =
    (let! r := (lock me (LkProc parent);; lock me (LkProc p);; reparent me p;; wakeup1 me parent;;
       upd_proc p (set_xstate status);; upd_proc p (set_state ZOMBIE);; unlock me (LkProc parent);; sched me) in
     scheduler_return me p;; ret r) s1) as E4.
  { unfold exit_tail, bind. repeat (case_match; simplify_eq; try done). }
  assert (∀ L, put_hart me (Cpu None 0 e e) (put_procs L s1) = put_hart me (Cpu None 0 e e) (put_procs L s)) as E5.
  { intros L. subst s1. unfold put_hart, put_proc, put_procs, put_cpus. cbn. by rewrite list_insert_insert_eq. }
  rewrite E5 in E3. rewrite <- E3; try done; [| congruence | |].
  - rewrite E4. clear E3 E4 E5. unfold exit_leave, bind, gets, some_or_oob in *. rewrite Hi. unfold ret at 1.
    destruct (lock me (LkProc init) s) as [[] t1| | |]; try discriminate E1.
    destruct (wakeup1 me init t1) as [[] t2| | |]; try discriminate E1.
    destruct (unlock me (LkProc init) t2) as [[] t3| | |]; try discriminate E1. injection E1 as ->.
    rewrite (lock_proc me p x _ s1 Hx1 Hlx Hc1) in *. erewrite proc_at_eq by (cbn; look).
    rewrite E2. cbn [p_parent set_plock]. by rewrite Hpx.
  - apply Forall_insert; [done |]. by rewrite wake_lock.
  - by rewrite length_insert.
Qed.

(** ** Searches of the table *)
Definition killed_proc (p : proc) : proc :=
  if decide (p_state p = SLEEPING) then set_state RUNNABLE (set_killed 1 p) else set_killed 1 p.

Lemma killed_plock l p : killed_proc (set_plock l p) = set_plock l (killed_proc p).
Proof. unfold killed_proc. cbn. by case_decide. Qed.

Lemma kill_loop_eq me pid k i c s :
  Forall (λ p, p_lock p = initlock) (ps_proc s) → (i + k)%nat = length (ps_proc s) →
  ps_cpus s !! me = Some c → cpu_ok c →
  ∃ c', same_hart c c' ∧ kill_loop me k i pid s =
    match list_find (λ p, p_pid p = pid) (drop i (ps_proc s)) with
    | Some (j, p) => Ret 0 (put_hart me c' (put_proc (i + j) (killed_proc p) s))
    | None => Ret (-1) (put_hart me c' s)
    end.
Proof.
  revert i c s. induction k as [|k IH]; intros i c s Hl Hn Hc Hok.
  - exists c. split; [by apply same_hart_refl |]. rewrite drop_ge by lia. cbn. by rewrite put_hart_same.
  - destruct (lookup_lt_is_Some_2 (ps_proc s) i ltac:(lia)) as [p Hp].
    pose proof (lookup_lt_Some _ _ _ Hp). pose proof (lookup_lt_Some _ _ _ Hc).
    assert (p_lock p = initlock) as Hlp by (by eapply Forall_lookup_1 in Hl).
    rewrite (drop_S (ps_proc s) p i) by done. cbn [kill_loop list_find]. case_decide as Hpid.
    + exists (settle c). split; [by apply same_hart_settle |]. rewrite Nat.add_0_r.
      pose proof (locked_look me i p c killed_proc s Hp Hlp Hc Hok (λ l q, killed_plock l q)
        (upd_proc i killed_proc) (λ s', upd_proc_eq i killed_proc _ s')) as E.
      revert E. unfold bind. rewrite (lock_proc me i p c) by done. unfold gets.
      erewrite (proc_at_eq i) by (cbn; look). cbn [p_pid set_plock p_state]. rewrite decide_True by done.
      erewrite (upd_proc_eq i killed_proc) by (cbn; look).
      erewrite (upd_proc_eq i (set_killed 1)) by (cbn; look).
      unfold killed_proc. cbn [p_state set_plock]. case_decide.
      * erewrite upd_proc_eq by (cbn; look). rewrite put_proc_twice. by intros ->.
      * unfold ret. by intros ->.
    + destruct (IH (i + 1)%nat (settle c) (put_hart me (settle c) s)) as (c' & Hc' & E);
        [done | cbn; lia | cbn; look | apply Hok |].
      exists c'. split; [eapply same_hart_trans; [by apply same_hart_settle | done] |].
      pose proof (locked_section_id me i p c s Hp Hlp Hc Hok) as E1. revert E1. unfold bind.
      rewrite (lock_proc me i p c) by done. unfold gets.
      erewrite (proc_at_eq i) by (cbn; look). cbn [p_pid set_plock]. rewrite decide_False by done.
      intros E1. rewrite E1, put_proc_same, E by done. cbn [ps_proc put_hart put_cpus].
      replace (S i) with (i + 1)%nat by lia.
      destruct (list_find _ _) as [[j q]|]; cbn; [| by rewrite put_hart_twice].
      rewrite put_proc_hart, put_hart_twice. do 3 f_equal. lia.
Qed.

Lemma kill_eq me pid c s :
  Forall (λ p, p_lock p = initlock) (ps_proc s) → length (ps_proc s) = nproc →
  ps_cpus s !! me = Some c → cpu_ok c →
  ∃ c', same_hart c c' ∧ kill me pid s =
    match list_find (λ p, p_pid p = pid) (ps_proc s) with
    | Some (j, p) => Ret 0 (put_hart me c' (put_proc j (killed_proc p) s))
    | None => Ret (-1) (put_hart me c' s)
    end.
Proof. intros Hl Hn Hc Hok. apply (kill_loop_eq me pid nproc 0 c s); done. Qed.

Lemma find_unused_eq me k i c s :
  Forall (λ p, p_lock p = initlock) (ps_proc s) → (i + k)%nat = length (ps_proc s) →
  ps_cpus s !! me = Some c → cpu_ok c →
  ∃ c', same_hart c c' ∧ find_unused me k i s =
    match list_find (λ p, p_state p = UNUSED) (drop i (ps_proc s)) with
    | Some (j, p) => Ret (Some (i + j)%nat) (put_hart me (pushed c') (put_proc (i + j) (set_plock (held me) p) s))
    | None => Ret None (put_hart me c' s)
    end.
Proof.
  revert i c s. induction k as [|k IH]; intros i c s Hl Hn Hc Hok.
  - exists c. split; [by apply same_hart_refl |]. rewrite drop_ge by lia. cbn. by rewrite put_hart_same.
  - destruct (lookup_lt_is_Some_2 (ps_proc s) i ltac:(lia)) as [p Hp].
    pose proof (lookup_lt_Some _ _ _ Hp). pose proof (lookup_lt_Some _ _ _ Hc).
    assert (p_lock p = initlock) as Hlp by (by eapply Forall_lookup_1 in Hl).
    rewrite (drop_S (ps_proc s) p i) by done. cbn [find_unused list_find]. case_decide as Hu.
    + exists c. split; [by apply same_hart_refl |]. rewrite Nat.add_0_r.
      unfold bind. rewrite (lock_proc me i p c) by done. unfold gets.
      erewrite (proc_at_eq i) by (cbn; look). cbn [p_state set_plock]. by rewrite decide_True.
    + destruct (IH (i + 1)%nat (settle c) (put_hart me (settle c) s)) as (c' & Hc' & E);
        [done | cbn; lia | cbn; look | apply Hok |].
      exists c'. split; [eapply same_hart_trans; [by apply same_hart_settle | done] |].
      pose proof (locked_section_id me i p c s Hp Hlp Hc Hok) as E1. revert E1. unfold bind.
      rewrite (lock_proc me i p c) by done. unfold gets.
      erewrite (proc_at_eq i) by (cbn; look). cbn [p_state set_plock]. rewrite decide_False by done.
      intros E1. rewrite E1, put_proc_same, E by done. cbn [ps_proc put_hart put_cpus].
      replace (S i) with (i + 1)%nat by lia.
      destruct (list_find _ _) as [[j q]|]; cbn; [| by rewrite put_hart_twice].
      rewrite put_proc_hart, put_hart_twice. replace (i + 1 + j)%nat with (i + S j)%nat by lia. done.
Qed.

(** ** [allocproc], [fork]

    All that a section changed of the process state, besides memory and
    files: hart [me], entry [i], [nextpid]. *)
Record changed (me i : nat) (c : cpu) (q : proc) (np : Z) (s s' : st) : Prop := {
  ch_proc : ps_proc s' = <[i := q]> (ps_proc s);
  ch_cpus : ps_cpus s' = <[me := c]> (ps_cpus s);
  ch_pid_lock : ps_pid_lock s' = ps_pid_lock s;
  ch_nextpid : ps_nextpid s' = np;
  ch_init : ps_initproc s' = ps_initproc s;
  ch_locks : ps_locks s' = ps_locks s;
}.

Lemma wlp_eq {A} (m : M st A) a s' Q s : m s = Ret a s' → Q a s' → wlp m Q s.
Proof. unfold wlp. by intros ->. Qed.

Definition put_nextpid (np : Z) (s : st) : st :=
  Pst (ps_proc s) (ps_cpus s) (ps_pid_lock s) np (ps_initproc s) (ps_locks s) (ps_ticks s) (ps_mem s) (ps_files s) (ps_first s).

Lemma allocpid_eq me c s :
  ps_cpus s !! me = Some c → cpu_ok c → ps_pid_lock s = initlock →
  allocpid me s = Ret (ps_nextpid s) (put_nextpid (s32 (ps_nextpid s + 1)) (put_hart me (settle c) s)).
Proof.
  intros Hc Hok Hl. pose proof (lookup_lt_Some _ _ _ Hc).
  unfold allocpid, bind, lock, lockop, zoom. rewrite (cpu_at_eq _ _ _ Hc). cbn [lock_of].
  rewrite Hl, acquire_free. cbn. unfold unlock, lockop, zoom. cbn.
  erewrite cpu_at_eq by (cbn; look). rewrite release_pushed by done. cbn.
  unfold put_nextpid, put_hart, put_cpus. cbn. by rewrite list_insert_insert_eq, Hl.
Qed.

Section Alloc.
Context (kend trampoline forkret_addr : Z).

Lemma wlp_freeproc i p Q s :
  ps_proc s !! i = Some p → (∀ m, Q tt (put_proc i (freed p) (put_pmem m s))) → wlp (freeproc kend i) Q s.
Proof.
  intros Hp HQ. unfold freeproc. apply wlp_bind, wlp_gets, wlp_bind. rewrite (proc_at_eq _ _ _ Hp).
  unfold memop. apply wlp_zoom. intros _ m. by eapply wlp_eq; [by apply upd_proc_eq |].
Qed.

(** A free entry, and a new one before [fork] fills it in. *)
Definition spare (q : proc) : Prop := p_lock q = initlock ∧ p_state q = UNUSED ∧ p_parent q = None.
Definition fresh (me : nat) (pid : Z) (q : proc) : Prop :=
  p_lock q = held me ∧ p_state q = UNUSED ∧ p_parent q = None ∧ p_pid q = pid.

Lemma allocproc_wlp me c s :
  Forall (λ p, p_lock p = initlock) (ps_proc s) → length (ps_proc s) = nproc →
  (∀ i p, ps_proc s !! i = Some p → p_state p = UNUSED → p_parent p = None) →
  ps_cpus s !! me = Some c → cpu_ok c → ps_pid_lock s = initlock →
  wlp (allocproc kend trampoline forkret_addr me) (λ r s',
    match r with
    | None => ∃ c' i p q np, same_hart c c' ∧ ps_proc s !! i = Some p ∧
        (p = q ∧ np = ps_nextpid s ∨ p_state p = UNUSED ∧ spare q ∧ np = s32 (ps_nextpid s + 1)) ∧
        changed me i c' q np s s'
    | Some i => ∃ c' p q, same_hart c c' ∧ ps_proc s !! i = Some p ∧ p_state p = UNUSED ∧
        fresh me (ps_nextpid s) q ∧ p_killed q = p_killed p ∧ changed me i (pushed c') q (s32 (ps_nextpid s + 1)) s s'
    end) s.
Proof.
  intros Hl Hn Hu Hc Hok Hpl. unfold allocproc. apply wlp_bind.
  destruct (find_unused_eq me nproc 0 c s) as (c' & Hc' & E); [done | done | done | done |].
  pose proof (lookup_lt_Some _ _ _ Hc).
  rewrite drop_0 in E. destruct (list_find _ _) as [[i p]|] eqn:Ef.
  - apply list_find_Some in Ef as (Hp & Hpu & _). cbn [Nat.add] in E.
    assert (p_lock p = initlock) as Hlp by (by eapply Forall_lookup_1 in Hl).
    pose proof (lookup_lt_Some _ _ _ Hp). assert (0 <= c_noff c') by apply Hc'.
    assert (cpu_ok (pushed c')) as Hok' by (split; cbn; [lia | done]).
    assert (settle (pushed c') = pushed c') as Hset.
    { unfold settle, pushed. cbn. by rewrite decide_False by lia. }
    eapply wlp_eq; [exact E |]. apply wlp_bind.
    eapply wlp_eq; [apply (allocpid_eq me (pushed c')); [cbn; look | done | done] |]. rewrite Hset.
    apply wlp_bind. eapply wlp_eq; [apply upd_proc_eq; cbn; look |].
    apply wlp_bind, wlp_zoom. intros tf m1.
    apply wlp_bind. eapply wlp_eq; [apply upd_proc_eq; cbn; look |]. case_decide as Htf.
    { apply wlp_bind. eapply wlp_eq; [eapply (unlock_pushed me i _ c'); [cbn; look | done | cbn; look | apply Hc'] |].
      eexists (settle c'), i, p, _, _. split; [eapply same_hart_trans; [done | apply same_hart_settle, Hc'] |].
      split; [done |]. split; [right; split; [done |]; split; [| reflexivity] |].
      2:{ split; cbn; try done; by rewrite !list_insert_insert_eq. }
      split; cbn; [done |]. split; [done | by eapply Hu]. }
    apply wlp_bind, wlp_zoom. intros pt m2.
    apply wlp_bind. eapply wlp_eq; [apply upd_proc_eq; cbn; look |]. case_decide as Hpt.
    { apply wlp_bind. eapply wlp_freeproc; [cbn; look |]. intros m3. apply wlp_bind.
      eapply wlp_eq; [eapply (unlock_pushed me i _ c'); [cbn; look | done | cbn; look | apply Hc'] |].
      eexists (settle c'), i, p, _, _. split; [eapply same_hart_trans; [done | apply same_hart_settle, Hc'] |].
      split; [done |]. split; [right; split; [done |]; split; [| reflexivity] |].
      2:{ split; cbn; try done; by rewrite !list_insert_insert_eq. }
      by split_and!. }
    apply wlp_bind, wlp_gets, wlp_bind. eapply wlp_eq; [apply upd_proc_eq; cbn; look |].
    eexists c', p, _. split_and!; [done | done | done | | |].
    3:{ split; cbn; try done; by rewrite !list_insert_insert_eq. }
    2:{ done. }
    split_and!; cbn; try done. by eapply Hu.
  - eapply wlp_eq; [exact E |].
    destruct (lookup_lt_is_Some_2 (ps_proc s) 0) as [p Hp]; [rewrite Hn; by vm_compute; lia |].
    exists c', 0%nat, p, p, (ps_nextpid s). split_and!; [done | done | by left |].
    split; cbn; try done. by rewrite list_insert_id.
Qed.

Lemma changed_trans me i c q np c' q' np' s1 s2 s3 :
  changed me i c q np s1 s2 → changed me i c' q' np' s2 s3 → changed me i c' q' np' s1 s3.
Proof.
  intros [H1 H2 H3 H4 H5 H6] [G1 G2 G3 G4 G5 G6]. split; try congruence.
  - by rewrite G1, H1, list_insert_insert_eq.
  - by rewrite G2, H2, list_insert_insert_eq.
Qed.
Lemma changed_refl me i c q s :
  ps_proc s !! i = Some q → ps_cpus s !! me = Some c → changed me i c q (ps_nextpid s) s s.
Proof. intros Hq Hc. split; try done; by rewrite list_insert_id. Qed.

Lemma dup_files_wlp me c k fd p np q s :
  ps_proc s !! np = Some q → ps_cpus s !! me = Some c →
  wlp (dup_files k fd p np) (λ _ s', ∃ l, changed me np c (set_ofile l q) (ps_nextpid s) s s') s.
Proof.
  revert fd q s. induction k as [|k IH]; intros fd q s Hq Hc; cbn [dup_files].
  - exists (p_ofile q). destruct q. by apply changed_refl.
  - pose proof (lookup_lt_Some _ _ _ Hq). apply wlp_bind, wlp_gets, wlp_bind. destruct (p_ofile _ !!! fd) as [f|].
    + apply wlp_bind, wlp_zoom. intros g fs. eapply wlp_eq; [by apply upd_proc_eq |].
      eapply wlp_mono; [eapply IH; [cbn; look | done] |]. intros _ s' [l Hs']. exists l.
      eapply changed_trans; [| exact Hs']. split; cbn; try done. by rewrite list_insert_id.
    + by apply IH.
Qed.

(** The outcomes of [fork] by process [p]. *)
Definition forked (me p : nat) (c : cpu) (s : st) (r : Z) (s' : st) : Prop :=
  ∃ c' i x q np, same_hart c c' ∧ ps_proc s !! i = Some x ∧ changed me i c' q np s s' ∧
  ((r = -1 ∧ x = q ∧ np = ps_nextpid s) ∨
   (r = -1 ∧ p_state x = UNUSED ∧ spare q ∧ np = s32 (ps_nextpid s + 1)) ∨
   (r = ps_nextpid s ∧ p_state x = UNUSED ∧ p_lock q = initlock ∧ p_state q = RUNNABLE ∧
    p_parent q = Some p ∧ p_pid q = ps_nextpid s ∧ p_killed q = p_killed x ∧
    np = s32 (ps_nextpid s + 1))).

Lemma fork_wlp me p c s :
  Forall (λ p, p_lock p = initlock) (ps_proc s) → length (ps_proc s) = nproc →
  (∀ i p, ps_proc s !! i = Some p → p_state p = UNUSED → p_parent p = None) →
  ps_cpus s !! me = Some c → cpu_ok c → c_proc c = Some p → ps_pid_lock s = initlock →
  wlp (fork kend trampoline forkret_addr me) (forked me p c s) s.
Proof.
  intros Hl Hn Hu Hc Hok Hp Hpl. pose proof (lookup_lt_Some _ _ _ Hc). unfold fork. apply wlp_bind.
  eapply wlp_eq; [by apply (curproc_eq me c p) |]. apply wlp_bind. eapply wlp_mono.
  { apply (allocproc_wlp me (settle c)); try done. cbn. look. }
  intros [i|] s1; cbv beta iota.
  2:{ intros (c' & i & x & q & np & Hc' & Hx & Hq & [Hs1 Hs2 Hs3 Hs4 Hs5 Hs6]). exists c', i, x, q, np.
    split_and!; [by eapply same_hart_trans; [apply same_hart_settle |] | done | | naive_solver].
    split; try done. rewrite Hs2. cbn. by rewrite list_insert_insert_eq. }
  intros (c' & x & q & Hc' & Hx & Hxu & (Hql & Hqs & Hqp & Hqpid) & Hqk & Hch).
  assert (changed me i (pushed c') q (s32 (ps_nextpid s + 1)) s s1) as Hch1.
  { destruct Hch as [Hs1 Hs2 Hs3 Hs4 Hs5 Hs6]. split; try done. rewrite Hs2. cbn. by rewrite list_insert_insert_eq. }
  clear Hch. cbn in Hx, Hqpid. pose proof (lookup_lt_Some _ _ _ Hx).
  assert (same_hart c c') as Hcc by (eapply same_hart_trans; [by apply same_hart_settle | done]).
  assert (ps_proc s1 !! i = Some q) as Hq1 by (rewrite (ch_proc _ _ _ _ _ _ _ Hch1); look).
  assert (ps_cpus s1 !! me = Some (pushed c')) as Hc1 by (rewrite (ch_cpus _ _ _ _ _ _ _ Hch1); look).
  pose proof (lookup_lt_Some _ _ _ Hq1). pose proof (lookup_lt_Some _ _ _ Hc1).
  apply wlp_bind, wlp_gets, wlp_bind, wlp_gets, wlp_bind, wlp_zoom. intros r m1. case_decide as Hr.
  { apply wlp_bind. eapply wlp_freeproc; [done |]. intros m2. apply wlp_bind.
    eapply wlp_eq; [eapply (unlock_pushed me i _ c'); [cbn; look | done | cbn; look | apply Hcc] |].
    eexists (settle c'), i, x, _, _. split_and!;
      [eapply same_hart_trans; [done | apply same_hart_settle, Hcc] | done | | right; left].
    - eapply changed_trans; [exact Hch1 |]. split; cbn; try done. by rewrite list_insert_insert_eq.
    - split_and!; try done. rewrite (ch_nextpid _ _ _ _ _ _ _ Hch1). done. }
  apply wlp_bind. eapply wlp_eq; [by apply upd_proc_eq |].
  apply wlp_bind. eapply wlp_eq; [apply upd_proc_eq; cbn; look |].
  apply wlp_bind, wlp_zoom. intros _ m2. apply wlp_bind, wlp_zoom. intros _ m3. apply wlp_bind.
  eapply wlp_mono; [apply (dup_files_wlp me (pushed c')); [cbn; look | done] |]. intros _ s2 [l Hch2].
  apply wlp_bind. destruct (p_cwd _) as [cwd|]; [| done]. apply wlp_ret.
  apply wlp_bind, wlp_zoom. intros cwd' fs. apply wlp_bind.
  assert (ps_proc s2 !! i = Some (set_ofile l (set_parent (Some p) (set_sz (p_sz (proc_at p s1)) q)))) as Hq2.
  { rewrite (ch_proc _ _ _ _ _ _ _ Hch2). cbn. look. }
  assert (ps_cpus s2 !! me = Some (pushed c')) as Hc2.
  { rewrite (ch_cpus _ _ _ _ _ _ _ Hch2). cbn. look. }
  pose proof (lookup_lt_Some _ _ _ Hq2). pose proof (lookup_lt_Some _ _ _ Hc2).
  eapply wlp_eq; [by apply upd_proc_eq |].
  apply wlp_bind. eapply wlp_eq; [apply upd_proc_eq; cbn; look |].
  apply wlp_bind, wlp_gets. erewrite proc_at_eq by (cbn; look).
  apply wlp_bind. eapply wlp_eq; [apply upd_proc_eq; cbn; look |].
  apply wlp_bind. eapply wlp_eq; [eapply (unlock_pushed me i _ c'); [cbn; look | done | cbn; look | apply Hcc] |].
  eexists (settle c'), i, x, _, _. split_and!;
    [eapply same_hart_trans; [done | apply same_hart_settle, Hcc] | done | | right; right].
  - eapply changed_trans; [exact Hch1 |]. eapply changed_trans.
    { eapply (changed_trans me i (pushed c')); [| exact Hch2].
      split; cbn; try done; [by rewrite list_insert_insert_eq | by rewrite list_insert_id]. }
    split; cbn; try done; by rewrite !list_insert_insert_eq.
  - split_and!; try done. rewrite (ch_nextpid _ _ _ _ _ _ _ Hch2). cbn.
    apply (ch_nextpid _ _ _ _ _ _ _ Hch1).
Qed.

(** ** [wait] by process [p], whose lock is held *)
Definition child_of (p : nat) (q : proc) : bool := bool_decide (p_parent q = Some p).

(** It returns [v]: without reaping, or with the pid of a zombie child. *)
Definition reaped (me p : nat) (x : proc) (b : bool) (s : st) (v : Z) (s' : st) : Prop :=
  let back := changed me p (Cpu (Some p) 0 b b) (set_plock initlock x) (ps_nextpid s) in
  (v = -1 ∧ back s s') ∨
  ∃ j q s1, j ≠ p ∧ ps_proc s !! j = Some q ∧ p_parent q = Some p ∧ p_state q = ZOMBIE ∧ v = p_pid q ∧
    changed me j (Cpu (Some p) 1 b false) (freed q) (ps_nextpid s) s s1 ∧ back s1 s'.

Lemma unlock_self me p x b s :
  ps_cpus s !! me = Some (Cpu (Some p) 1 b false) → ps_proc s !! p = Some x → p_lock x = held me →
  unlock me (LkProc p) s = Ret tt (put_hart me (Cpu (Some p) 0 b b) (put_proc p (set_plock initlock x) s)).
Proof. intros Hc Hx Hl. by rewrite (unlock_proc me p x (Some p) 1 b s). Qed.

Lemma changed_back me p x b s m :
  ps_proc s !! p = Some x → ps_cpus s !! me = Some (Cpu (Some p) 1 b false) →
  changed me p (Cpu (Some p) 0 b b) (set_plock initlock x) (ps_nextpid s) s
    (put_hart me (Cpu (Some p) 0 b b) (put_proc p (set_plock initlock x) (put_pmem m s))).
Proof. intros Hx Hc. by split. Qed.

Lemma wait_scan_wlp me p x b addr k i hk s :
  ps_cpus s !! me = Some (Cpu (Some p) 1 b false) → ps_proc s !! p = Some x → p_lock x = held me →
  p_parent x ≠ Some p → (∀ j q, j ≠ p → ps_proc s !! j = Some q → p_lock q = initlock) →
  (i + k)%nat = length (ps_proc s) →
  wlp (wait_scan kend me p addr k i hk) (λ r s',
    match r with
    | inl v => reaped me p x b s v s'
    | inr hk' => s' = s ∧ hk' = hk || existsb (child_of p) (drop i (ps_proc s)) ∧
        Forall (λ q, p_parent q = Some p → p_state q ≠ ZOMBIE) (drop i (ps_proc s))
    end) s.
Proof.
  intros Hc Hx Hlx Hpx Hl. revert i hk. induction k as [|k IH]; intros i hk Hi; cbn [wait_scan].
  { apply wlp_ret. rewrite drop_ge by lia. cbn. by rewrite orb_false_r. }
  destruct (lookup_lt_is_Some_2 (ps_proc s) i ltac:(lia)) as [q Hq].
  pose proof (lookup_lt_Some _ _ _ Hq). pose proof (lookup_lt_Some _ _ _ Hc).
  rewrite (drop_S _ q i) by done. cbn [existsb]. replace (S i) with (i + 1)%nat by lia.
  apply wlp_bind, wlp_gets. rewrite (proc_at_eq _ _ _ Hq). unfold child_of at 1. case_decide as Hpq.
  2:{ rewrite bool_decide_false by done. cbn. eapply wlp_mono; [apply IH; lia |].
    intros [v|hk'] s' Hr; [done |]. destruct Hr as (-> & -> & Hz). by split_and!; [| | constructor]. }
  rewrite bool_decide_true by done. rewrite orb_true_r.
  assert (i ≠ p) as Hip by congruence. pose proof (Hl i q Hip Hq) as Hlq.
  apply wlp_bind. eapply wlp_eq; [by apply (lock_proc me i q _ s Hq Hlq Hc) |].
  apply wlp_bind, wlp_gets. erewrite proc_at_eq by (cbn; look). cbn [p_state set_plock].
  case_decide as Hz.
  2:{ apply wlp_bind. eapply wlp_eq.
    { apply (unlock_pushed me i (set_plock (held me) q) (Cpu (Some p) 1 b false)); [cbn; look | done | cbn; look |].
      split; cbn; [lia | done]. }
    rewrite put_proc_hart, put_proc_twice, put_hart_twice.
    rewrite relock_id by done. rewrite put_proc_same, put_hart_same by done.
    eapply wlp_mono; [apply IH; lia |].
    intros [v|hk'] s' Hr; [done |]. destruct Hr as (-> & -> & Hz'). by split_and!; [| | constructor]. }
  apply wlp_bind, wlp_gets, wlp_bind.
  assert (∀ (m : M st Z) Q s', m = ret 0 ∨ (∃ m', m = memop m') →
    (∀ v mm, Q v (put_pmem mm s')) → wlp m Q s') as Hm.
  { intros m Q s' [->|[m' ->]] HQ; [| by apply wlp_zoom]. apply wlp_ret.
    specialize (HQ 0 (ps_mem s')). by destruct s'. }
  apply Hm; [case_decide; [right; by eexists | by left] |]. intros v mm. case_decide as Hv.
  { apply wlp_bind. eapply wlp_eq.
    { apply (unlock_pushed me i (set_plock (held me) q) (Cpu (Some p) 1 b false)); [cbn; look | done | cbn; look |].
      split; cbn; [lia | done]. }
    apply wlp_bind. eapply wlp_eq; [eapply (unlock_self me p x b); [cbn; look | cbn; look; done | done] |].
    apply wlp_ret. left. split; [done |]. split; cbn; try done; rewrite !list_insert_insert_eq; try done.
    rewrite relock_id by done. by rewrite (list_insert_id _ i). }
  apply wlp_bind. eapply wlp_freeproc; [cbn; look |]. intros m2. apply wlp_bind. eapply wlp_eq.
  { apply (unlock_pushed me i (freed (set_plock (held me) q)) (Cpu (Some p) 1 b false)); [cbn; look | done | cbn; look |].
    split; cbn; [lia | done]. }
  apply wlp_bind. eapply wlp_eq; [eapply (unlock_self me p x b); [cbn; look | cbn; look; done | done] |].
  apply wlp_ret. right. eexists i, q, (put_pmem m2 (put_proc i (freed q) s)).
  split_and!; try done.
  - split; cbn; try done. by rewrite list_insert_id.
  - split; cbn; try done; rewrite !list_insert_insert_eq; try done.
    by rewrite (set_plock_restore freed).
Qed.

Lemma sleep_self_eq me p x b chan s :
  ps_cpus s !! me = Some (Cpu (Some p) 1 b false) → ps_proc s !! p = Some x → p_lock x = held me →
  sleep me chan (LkProc p) s = Ret b (put_proc p (set_state SLEEPING (set_chan (Some chan) x)) s).
Proof.
  intros Hc Hx Hl. pose proof (lookup_lt_Some _ _ _ Hx). rewrite sleep_eq. unfold bind.
  rewrite (curproc_eq me _ p s Hc) by done. rewrite put_hart_same by done.
  rewrite decide_False by tauto. unfold ret at 1.
  erewrite upd_proc_eq by done. erewrite upd_proc_eq by (cbn; look).
  erewrite sched_eq; [| done | cbn; look | done | done]. by rewrite put_proc_twice.
Qed.

Definition sleeping (chan : wchan) (x : proc) : proc := set_state SLEEPING (set_chan (Some chan) x).

(** A turn of the loop and, if the process sleeps, the switch to the
    scheduler; [x] is the process's entry without its lock. *)
Definition waited (me p : nat) (x : proc) (b : bool) (s : st) (r : Z + bool) (s' : st) : Prop :=
  match r with
  | inl v => reaped me p x b s v s'
  | inr b' => b' = b ∧ changed me p (Cpu None 0 b b) (sleeping (ProcChan p) x) (ps_nextpid s) s s' ∧
      (∃ j q, ps_proc s !! j = Some q ∧ p_parent q = Some p) ∧ p_killed x = 0
  end.

Definition wait_turn_section (me p : nat) (addr : Z) (m : M st (Z + bool)) : M st (Z + bool) :=
  let! r := m in
  match r with inl v => ret (inl v) | inr b => scheduler_return me p;; ret (inr b) end.

Lemma wait_turn_wlp me p x b addr s :
  ps_cpus s !! me = Some (Cpu (Some p) 1 b false) → ps_proc s !! p = Some x → p_lock x = held me →
  p_parent x ≠ Some p → (∀ j q, j ≠ p → ps_proc s !! j = Some q → p_lock q = initlock) →
  length (ps_proc s) = nproc →
  wlp (wait_turn_section me p addr (wait_turn kend me p addr)) (waited me p (set_plock initlock x) b s) s.
Proof.
  intros Hc Hx Hlx Hpx Hl Hn. pose proof (lookup_lt_Some _ _ _ Hx). pose proof (lookup_lt_Some _ _ _ Hc).
  unfold wait_turn_section, wait_turn. apply wlp_bind, wlp_bind.
  eapply wlp_mono; [by apply (wait_scan_wlp me p x b) |]. intros [v|hk] s1.
  { intros Hr. apply wlp_ret, wlp_ret. exact Hr. }
  intros (-> & Hhk & _). rewrite drop_0 in Hhk. cbn in Hhk.
  apply wlp_bind, wlp_gets. rewrite (proc_at_eq _ _ _ Hx). case_decide as Hd.
  - apply wlp_bind. eapply wlp_eq; [by apply (unlock_self me p x b) |]. apply wlp_ret, wlp_ret.
    left. split; [done |]. by split.
  - apply wlp_bind. eapply wlp_eq; [by apply (sleep_self_eq me p x b) |]. apply wlp_ret, wlp_bind.
    eapply wlp_eq; [eapply scheduler_return_eq; [done | cbn; look | done] |]. apply wlp_ret.
    split_and!; [done | | |].
    + split; cbn; try done. by rewrite !list_insert_insert_eq.
    + destruct hk; [| naive_solver]. symmetry in Hhk. apply existsb_exists in Hhk as (q & Hq & Hp).
      apply list_elem_of_In, list_elem_of_lookup in Hq as [j Hj]. exists j, q. split; [done |].
      by apply bool_decide_eq_true in Hp.
    + cbn. destruct (decide (p_killed x = 0)); tauto.
Qed.

Lemma waited_lock me p x b s s1 r s' :
  ps_proc s !! p = Some x → p_lock x = initlock →
  changed me p (Cpu (Some p) 1 b false) (set_plock (held me) x) (ps_nextpid s) s s1 →
  waited me p (set_plock initlock (set_plock (held me) x)) b s1 r s' → waited me p x b s r s'.
Proof.
  intros Hx Hl Hch. rewrite relock_id by done. pose proof (ch_nextpid _ _ _ _ _ _ _ Hch) as Hnp.
  destruct r as [v|b']; cbn; rewrite ?Hnp.
  - intros [[-> Hr]|(j & q & s2 & Hj & Hq & Hqp & Hqs & -> & H2 & H3)].
    + left. split; [done |]. rewrite Hnp in Hr. by eapply changed_trans.
    + right. rewrite Hnp in *. rewrite (ch_proc _ _ _ _ _ _ _ Hch), list_lookup_insert_ne in Hq by done.
      exists j, q, (put_hart me (Cpu (Some p) 1 b false) (put_proc j (freed q) s)).
      split_and!; try done.
      destruct Hch as [G1 G2 G3 G4 G5 G6], H2 as [I1 I2 I3 I4 I5 I6], H3 as [J1 J2 J3 J4 J5 J6].
      split; cbn; try congruence.
      * rewrite J1, I1, G1, (list_insert_insert_ne _ j p) by done. by rewrite list_insert_insert_eq.
      * rewrite J2, I2, G2. by rewrite !list_insert_insert_eq.
  - intros (-> & Hr & (j & q & Hq & Hp) & Hk). split_and!; [done | by eapply changed_trans | | done].
    rewrite (ch_proc _ _ _ _ _ _ _ Hch) in Hq.
    apply list_lookup_insert_Some in Hq as [(<- & <- & _)|[_ Hq]]; [by exists p, x | by exists j, q].
Qed.

Lemma wait_section_wlp me p x b e addr s :
  ps_cpus s !! me = Some (Cpu (Some p) 0 b e) → ps_proc s !! p = Some x →
  Forall (λ q, p_lock q = initlock) (ps_proc s) → p_parent x ≠ Some p → length (ps_proc s) = nproc →
  wlp (wait_turn_section me p addr (wait kend me addr)) (waited me p x e s) s.
Proof.
  intros Hc Hx Hl Hpx Hn. pose proof (lookup_lt_Some _ _ _ Hx). pose proof (lookup_lt_Some _ _ _ Hc).
  assert (p_lock x = initlock) as Hlx by (by eapply Forall_lookup_1 in Hl).
  set (s1 := put_hart me (Cpu (Some p) 1 e false) (put_proc p (set_plock (held me) x) s)).
  assert (wlp (wait_turn_section me p addr (wait_turn kend me p addr)) (waited me p x e s) s1) as Hw.
  { eapply wlp_mono; [apply (wait_turn_wlp me p (set_plock (held me) x) e) |].
    - cbn; look.
    - cbn; look.
    - done.
    - done.
    - cbn. intros j q Hj. rewrite list_lookup_insert_ne by done. intros Hq. by eapply Forall_lookup_1 in Hl.
    - cbn. by rewrite length_insert.
    - intros r s'. apply waited_lock; [done | done |]. by split. }
  revert Hw. unfold wlp, wait_turn_section, wait, bind. rewrite (curproc_eq me _ p s Hc) by (done || by split).
  erewrite lock_proc; [| done | done | cbn; look]. by rewrite put_proc_hart, put_hart_twice.
Qed.
End Alloc.
End Sections.
