(* ===== verification/ProcSteps.v ===== *)
(** * The machine: harts, the scheduler and the sections of [proc.c]

    A step is one section, from taking the hart (or being called) to giving
    it up (or returning).  [resume] says where a process that is not
    running continues when the scheduler switches to it. *)
From S2P Require Import Prelude Params Riscv Kalloc Vm Spinlock Proc ProcInv ProcProofs.

Lemma Ret_inj {S A} (a b : A) (s s' : S) : Ret a s = Ret b s' → a = b ∧ s = s'.
Proof. by intros [=]. Qed.

(** The code after the [swtch] in [sched] that the process will return
    from; [forkret] for a new one. *)
Inductive rpoint :=
| RForkret
| RYield (intena : bool)
| RSleep (a : Z) (intena : bool)
| RWait (addr : Z) (intena : bool).

Section Steps.
Context {F : Type} `{FileOps F} (kend trampoline forkret_addr : Z).
Notation st := (pst F).
Implicit Types s : st.

(** Process [i] continues on hart [me]; in [wait] it may sleep again, which
    leaves a new point to resume at. *)
Definition resume (me i : nat) (rp : rpoint) : M st (option rpoint) :=
  match rp with
  | RForkret => forkret me;; ret None
  | RYield b => yield_return me i b;; ret None
  | RSleep a b => sleep_return me i (LkAddr a) b;; ret None
  | RWait addr b =>
      let! r := wait_turn_section me i addr (wait_return kend me i addr b) in
      ret (match r with inl _ => None | inr b => Some (RWait addr b) end)
  end.

(** The scheduler of hart [me] at entry [i] of the table. *)
Definition dispatch (me i : nat) (rp : rpoint) : M st (option rpoint) :=
  let! found := scheduler_pick me i in
  if found : bool then resume me i rp else ret None.

(** Hart [me] runs process [i], [n] levels deep in [push_off]. *)
Definition runs (me i : nat) (n : Z) (s : st) : Prop :=
  ∃ c, ps_cpus s !! me = Some c ∧ c_proc c = Some i ∧ c_noff c = n.

Definition config : Type := st * list rpoint.

Inductive pstep : config → config → Prop :=
| ps_dispatch me c i rp s rps o s' :
    ps_cpus s !! me = Some c → c_proc c = None → rps !! i = Some rp →
    dispatch me i rp s = Ret o s' →
    pstep (s, rps) (s', match o with Some rp' => <[i := rp']> rps | None => rps end)
| ps_yield me i s rps b s' :
    runs me i 0 s → (let! x := yield me in scheduler_return me i;; ret x) s = Ret b s' →
    pstep (s, rps) (s', <[i := RYield b]> rps)
| ps_sleep me i chan a s rps b s' :
    runs me i 1 s → lock_of (LkAddr a) s = held me →
    (let! x := sleep me chan (LkAddr a) in scheduler_return me i;; ret x) s = Ret b s' →
    pstep (s, rps) (s', <[i := RSleep a b]> rps)
| ps_wait me i addr s rps r s' :
    runs me i 0 s → wait_turn_section me i addr (wait kend me addr) s = Ret r s' →
    pstep (s, rps) (s', match r with inl _ => rps | inr b => <[i := RWait addr b]> rps end)
| ps_fork me i s rps r s' :
    runs me i 0 s → ps_nextpid s < 2 ^ 31 - 1 → fork kend trampoline forkret_addr me s = Ret r s' →
    pstep (s, rps) (s', match list_find (λ p, p_state p = UNUSED) (ps_proc s) with
                        | Some (j, _) => <[j := RForkret]> rps | None => rps end)
| ps_exit me i status s rps b s' :
    runs me i 0 s → (let! x := exit me status in scheduler_return me i;; ret x) s = Ret b s' →
    pstep (s, rps) (s', rps)
| ps_wakeup me chan s rps s' : wakeup me chan s = Ret tt s' → is_Some (ps_cpus s !! me) → pstep (s, rps) (s', rps)
| ps_kill me pid s rps r s' : kill me pid s = Ret r s' → is_Some (ps_cpus s !! me) → pstep (s, rps) (s', rps)
| ps_grow me i n s rps r s' : runs me i 0 s → growproc kend me n s = Ret r s' → pstep (s, rps) (s', rps)
| ps_lock me i n a s rps s' :
    runs me i n s → lock_of (LkAddr a) s = initlock → lock me (LkAddr a) s = Ret tt s' → pstep (s, rps) (s', rps)
| ps_unlock me i n a s rps s' :
    runs me i n s → 0 < n → lock_of (LkAddr a) s = held me → unlock me (LkAddr a) s = Ret tt s' →
    pstep (s, rps) (s', rps).

(** ** The invariant between sections *)
Record pinv (s : st) : Prop := {
  pi_len : length (ps_proc s) = nproc;
  pi_lock : Forall (λ p, p_lock p = initlock) (ps_proc s);
  pi_pid_lock : ps_pid_lock s = initlock;
  pi_hart : hart_ok (is_running <$> ps_proc s) (ps_cpus s);
  pi_tree : tree_ok (node_of <$> ps_proc s) (ps_initproc s) (ps_nextpid s);
  pi_np : 0 < ps_nextpid s < 2 ^ 31;
}.

Lemma same_hart_cpu c c' :
  same_hart c c' → cpu_ok c' ∧ c_proc c' = c_proc c ∧ c_noff c' = c_noff c.
Proof. intros [E Hok]. split; [done |]. unfold settle in E. by injection E. Qed.

Lemma pinv_same_hart s me c c' :
  pinv s → ps_cpus s !! me = Some c → same_hart c c' →
  hart_ok (is_running <$> ps_proc s) (<[me := c']> (ps_cpus s)).
Proof.
  intros Hs Hc (Hok & Hp & Hn)%same_hart_cpu. eapply hart_ok_same; [apply Hs | done | done | done |].
  intros E. rewrite Hn. by eapply (ho_cpu _ _ (pi_hart s Hs)).
Qed.

Lemma pinv_cpu_ok s me c : pinv s → ps_cpus s !! me = Some c → cpu_ok c.
Proof. intros Hs Hc. by apply (ho_cpu _ _ (pi_hart s Hs) me c Hc). Qed.

Lemma pinv_running s me c i :
  pinv s → ps_cpus s !! me = Some c → c_proc c = Some i →
  ∃ p, ps_proc s !! i = Some p ∧ p_state p = RUNNING ∧ p_lock p = initlock.
Proof.
  intros Hs Hc Hi. pose proof (ho_on _ _ (pi_hart s Hs) me c i Hc Hi) as Hr.
  apply list_lookup_fmap_Some_1 in Hr as (p & E & Hp). exists p. split_and!; [done | |].
  - symmetry in E. by apply bool_decide_eq_true in E.
  - by apply (Forall_lookup_1 _ _ _ _ (pi_lock s Hs) Hp).
Qed.

Lemma node_at s i p : ps_proc s !! i = Some p → (node_of <$> ps_proc s) !! i = Some (node_of p).
Proof. intros Hp. by rewrite list_lookup_fmap, Hp. Qed.

Lemma pinv_unused s i p : pinv s → ps_proc s !! i = Some p → p_state p = UNUSED → p_parent p = None.
Proof.
  intros Hs Hp Hu. apply (to_unused _ _ _ (pi_tree s Hs) i (node_of p)); [by apply node_at |].
  cbn. by rewrite Hu.
Qed.

Lemma pinv_not_self s i p : pinv s → ps_proc s !! i = Some p → p_parent p ≠ Some i.
Proof. intros Hs Hp. by apply (tree_not_self _ _ _ i (node_of p) (pi_tree s Hs)), node_at. Qed.

(** A section that moves hart [me] to [c'] and entry [i] to [q]. *)
Lemma pinv_changed s s' me i c' q np :
  pinv s → changed me i c' q np s s' → p_lock q = initlock →
  hart_ok (<[i := is_running q]> (is_running <$> ps_proc s)) (<[me := c']> (ps_cpus s)) →
  tree_ok (<[i := node_of q]> (node_of <$> ps_proc s)) (ps_initproc s) np →
  0 < np < 2 ^ 31 → pinv s'.
Proof.
  intros Hs [H1 H2 H3 H4 H5 H6] Hl Hh Ht Hnp. split; rewrite ?H1, ?H2, ?H3, ?H4, ?H5.
  - rewrite length_insert. apply Hs.
  - by apply Forall_insert; [apply Hs |].
  - apply Hs.
  - by rewrite list_fmap_insert.
  - by rewrite list_fmap_insert.
  - done.
Qed.

Lemma insert_same_view {A B} (f : A → B) (l : list A) i x y :
  l !! i = Some x → f y = f x → <[i := f y]> (f <$> l) = f <$> l.
Proof. intros Hx E. apply list_insert_id. by rewrite list_lookup_fmap, Hx, E. Qed.

(** The entry keeps its place in both views. *)
Lemma pinv_soft s s' me i c c' x q :
  pinv s → changed me i c' q (ps_nextpid s) s s' → ps_proc s !! i = Some x → ps_cpus s !! me = Some c →
  p_lock q = initlock → node_of q = node_of x → is_running q = is_running x → same_hart c c' → pinv s'.
Proof.
  intros Hs Hch Hx Hc Hl Hn Hr Hh. eapply pinv_changed; try done; [| | apply Hs].
  - rewrite (insert_same_view is_running _ _ x) by done. by eapply pinv_same_hart.
  - rewrite (insert_same_view node_of _ _ x) by done. apply Hs.
Qed.

(** The process leaves the hart. *)
Lemma pinv_stop s s' me i c b e x q :
  pinv s → changed me i (Cpu None 0 b e) q (ps_nextpid s) s s' → ps_proc s !! i = Some x →
  ps_cpus s !! me = Some c → c_proc c = Some i →
  p_lock q = initlock → node_of q = node_of x → is_running q = false → pinv s'.
Proof.
  intros Hs Hch Hx Hc Hi Hl Hn Hr. eapply pinv_changed; try done; [| | apply Hs].
  - rewrite Hr. by eapply hart_ok_stop; [apply Hs | |].
  - rewrite (insert_same_view node_of _ _ x) by done. apply Hs.
Qed.

(** The process starts on the hart. *)
Lemma pinv_start s s' me i c c' x q :
  pinv s → changed me i c' q (ps_nextpid s) s s' → ps_proc s !! i = Some x →
  ps_cpus s !! me = Some c → c_proc c = None → p_state x = RUNNABLE → cpu_ok c' → c_proc c' = Some i →
  p_lock q = initlock → node_of q = node_of x → is_running q = true → pinv s'.
Proof.
  intros Hs Hch Hx Hc Hi Hxr Hok Hi' Hl Hn Hr. eapply pinv_changed; try done; [| | apply Hs].
  - rewrite Hr. eapply hart_ok_start; try done; [apply Hs |]. rewrite list_lookup_fmap, Hx. cbn.
    unfold is_running. by rewrite Hxr.
  - rewrite (insert_same_view node_of _ _ x) by done. apply Hs.
Qed.

(** ** Every section keeps the invariant *)
Lemma pinv_put_lock s a k : pinv s → pinv (put_lock (LkAddr a) k s).
Proof. by intros [H1 H2 H3 H4 H5 H6]. Qed.

Lemma runs_cpu me i s :
  pinv s → runs me i 0 s →
  ∃ b e p, ps_cpus s !! me = Some (Cpu (Some i) 0 b e) ∧ ps_proc s !! i = Some p ∧
    p_state p = RUNNING ∧ p_lock p = initlock.
Proof.
  intros Hs ([q n b e] & Hc & Hi & Hn). cbn in *. subst.
  destruct (pinv_running s me _ i Hs Hc eq_refl) as (p & ? & ? & ?). by exists b, e, p.
Qed.

Lemma runs_locked me i n s :
  pinv s → runs me i n s → 0 < n →
  ∃ b p, ps_cpus s !! me = Some (Cpu (Some i) n b false) ∧ ps_proc s !! i = Some p ∧
    p_state p = RUNNING ∧ p_lock p = initlock.
Proof.
  intros Hs ([q m b e] & Hc & Hi & Hn) Hpos. cbn in *. subst.
  destruct (pinv_running s me _ i Hs Hc eq_refl) as (p & ? & ? & ?).
  pose proof (pinv_cpu_ok s me _ Hs Hc) as [_ He]. cbn in He. rewrite He in Hc by done. by exists b, p.
Qed.

Lemma node_of_alive (x y : procstate) p :
  kind_of x = kind_of y → p_state p = x → node_of (set_state y p) = node_of p.
Proof. intros E <-. unfold node_of. cbn. by rewrite E. Qed.

Lemma pinv_yield me i s b s' :
  pinv s → runs me i 0 s → (let! x := yield me in scheduler_return me i;; ret x) s = Ret b s' → pinv s'.
Proof.
  intros Hs (b0 & e & p & Hc & Hp & Hr & Hl)%runs_cpu; [| done]. rewrite (yield_section me i p b0 e s Hc Hp Hl).
  intros [<- <-]%Ret_inj. eapply (pinv_stop s _ me i); [done | by split | done | done | done | done | | done].
  by apply (node_of_alive RUNNING).
Qed.

Lemma pinv_sleep me i chan a s b s' :
  pinv s → runs me i 1 s → lock_of (LkAddr a) s = held me →
  (let! x := sleep me chan (LkAddr a) in scheduler_return me i;; ret x) s = Ret b s' → pinv s'.
Proof.
  intros Hs (b0 & p & Hc & Hp & Hr & Hl)%runs_locked Ha; [| done | done].
  rewrite (sleep_section me i p b0 chan a s Hc Hp Hl Ha). intros [<- <-]%Ret_inj. apply pinv_put_lock.
  eapply (pinv_stop s _ me i); [done | by split | done | done | done | done | | done].
  unfold node_of. cbn. by rewrite Hr.
Qed.

Lemma wake_views chan p : node_of (wake chan p) = node_of p ∧ is_running (wake chan p) = is_running p.
Proof. unfold wake. case_decide as Hd; [| done]. destruct Hd as [Hd _]. unfold node_of, is_running. cbn. by rewrite Hd. Qed.

Lemma pinv_wakeup me chan s s' :
  pinv s → is_Some (ps_cpus s !! me) → wakeup me chan s = Ret tt s' → pinv s'.
Proof.
  intros Hs [c Hc]. destruct (wakeup_eq me chan c s) as (c' & Hc' & E);
    [apply Hs | done | by eapply pinv_cpu_ok | apply Hs |].
  rewrite E. intros [_ <-]%Ret_inj. split; cbn; try apply Hs.
  - rewrite length_fmap. apply Hs.
  - apply Forall_fmap. eapply Forall_impl; [apply Hs |]. intros p Hp. cbn. by rewrite wake_lock.
  - rewrite <- list_fmap_compose. erewrite list_fmap_ext; [by eapply pinv_same_hart |].
    intros _ p _. apply wake_views.
  - rewrite <- list_fmap_compose. erewrite list_fmap_ext; [apply Hs |]. intros _ p _. apply wake_views.
Qed.

Lemma pinv_kill me pid s r s' :
  pinv s → is_Some (ps_cpus s !! me) → kill me pid s = Ret r s' → pinv s'.
Proof.
  intros Hs [c Hc]. pose proof (pinv_cpu_ok s me c Hs Hc) as Hok.
  destruct (kill_eq me pid c s) as (c' & Hc' & E); [apply Hs | apply Hs | done | done |]. rewrite E.
  destruct (list_find _ _) as [[j p]|] eqn:Ef;
    intros [<- <-]%Ret_inj.
  - apply list_find_Some in Ef as (Hp & _ & _). pose proof (Forall_lookup_1 _ _ _ _ (pi_lock s Hs) Hp) as Hl.
    eapply (pinv_soft s _ me j c c' p); try done; unfold killed_proc, node_of, is_running;
      case_decide as Hd; cbn; rewrite ?Hd; done.
  - destruct (lookup_lt_is_Some_2 (ps_proc s) 0) as [p Hp]; [rewrite (pi_len s Hs); by vm_compute; lia |].
    eapply (pinv_soft s _ me 0 c c' p); try done; [| by apply (Forall_lookup_1 _ _ _ _ (pi_lock s Hs) Hp)].
    split; cbn; try done. by rewrite list_insert_id.
Qed.

Lemma pinv_fork me i s r s' :
  pinv s → runs me i 0 s → ps_nextpid s < 2 ^ 31 - 1 → fork kend trampoline forkret_addr me s = Ret r s' → pinv s'.
Proof.
  intros Hs (b & e & p & Hc & Hp & Hr & _)%runs_cpu Hnp Hf; [| done].
  pose proof (pi_np s Hs) as Hpos.
  assert (s32 (ps_nextpid s + 1) = ps_nextpid s + 1) as Es by (apply s32_small; lia).
  pose proof (fork_wlp kend trampoline forkret_addr me i _ s (pi_lock s Hs) (pi_len s Hs)
    (λ i p, pinv_unused s i p Hs) Hc (pinv_cpu_ok s me _ Hs Hc) eq_refl (pi_pid_lock s Hs)) as Hw.
  eapply wlp_run in Hw; [| exact Hf]. destruct Hw as (c' & j & x & q & np & Hc' & Hx & Hch & Hcase).
  pose proof (Forall_lookup_1 _ _ _ _ (pi_lock s Hs) Hx) as Hl. cbn in Hl.
  destruct Hcase as [(_ & -> & ->)|[(_ & Hxu & (Hq1 & Hq2 & Hq3) & ->)|(_ & Hxu & Hq1 & Hq2 & Hq3 & Hq4 & _ & ->)]].
  - by eapply (pinv_soft s s' me j _ c' q).
  - eapply pinv_changed; try done; [| | lia].
    + rewrite (insert_same_view is_running _ _ x); [by eapply pinv_same_hart | done |].
      unfold is_running. by rewrite Hxu, Hq2.
    + eapply tree_spare; [apply Hs | by apply node_at | cbn; by rewrite Hxu | cbn; by rewrite Hq2 | done | lia].
  - eapply pinv_changed; try done; [| | lia].
    + rewrite (insert_same_view is_running _ _ x); [by eapply pinv_same_hart | done |].
      unfold is_running. by rewrite Hxu, Hq2.
    + unfold node_of at 1. rewrite Hq2, Hq3, Hq4, Es. cbn.
      eapply tree_fork; [apply Hs | by apply node_at | cbn; by rewrite Hxu | by apply node_at | cbn; by rewrite Hr | lia].
Qed.

(** [wait], from a state where [p] runs with its lock free. *)
Lemma pinv_waited me p x b0 e0 b s r s' :
  pinv s → ps_cpus s !! me = Some (Cpu (Some p) 0 b0 e0) → e0 = b → ps_proc s !! p = Some x →
  waited me p x b s r s' → pinv s'.
Proof.
  intros Hs Hc -> Hx. destruct (pinv_running s me _ p Hs Hc eq_refl) as (x' & Hx' & Hr & Hl). simplify_eq.
  assert (same_hart (Cpu (Some p) 0 b0 b) (Cpu (Some p) 0 b b)) as Hh.
  { split; [done |]. split; cbn; lia. }
  assert (set_plock initlock x = x) as Ex by (rewrite <- Hl; apply set_plock_id).
  destruct r as [v|b']; cbn.
  - unfold reaped. rewrite Ex. intros [[_ Hch]|(j & q & s1 & Hj & Hq & Hqp & Hqz & _ & H1 & H2)].
    + by eapply (pinv_soft s s' me p _ _ x).
    + assert (pinv s1) as Hs1.
      { eapply (pinv_changed s s1 me j); [done | done | | | | apply Hs].
        - by apply (Forall_lookup_1 _ _ _ _ (pi_lock s Hs) Hq).
        - rewrite (insert_same_view is_running _ _ q); [| done | unfold is_running; by rewrite Hqz].
          eapply hart_ok_same; [apply Hs | done | split; cbn; [lia | done] | done | done].
        - eapply tree_reap; [apply Hs | by apply node_at | cbn; by rewrite Hqz | done | done]. }
      pose proof (lookup_lt_Some _ _ _ Hc). rewrite <- (ch_nextpid _ _ _ _ _ _ _ H1) in H2.
      eapply (pinv_changed s1 s' me p); [done | done | done | | | apply Hs1].
      * rewrite (insert_same_view is_running _ _ x); [| by rewrite (ch_proc _ _ _ _ _ _ _ H1), list_lookup_insert_ne | done].
        eapply hart_ok_same; [apply Hs1 | | split; cbn; lia | | done].
        { rewrite (ch_cpus _ _ _ _ _ _ _ H1). by apply list_lookup_insert_eq. }
        done.
      * rewrite (insert_same_view node_of _ _ x); [apply Hs1 | by rewrite (ch_proc _ _ _ _ _ _ _ H1), list_lookup_insert_ne | done].
  - intros (_ & Hch & _). eapply (pinv_stop s s' me p); try done. unfold node_of. cbn. by rewrite Hr.
Qed.

Lemma pinv_wait me i addr s r s' :
  pinv s → runs me i 0 s → wait_turn_section me i addr (wait kend me addr) s = Ret r s' → pinv s'.
Proof.
  intros Hs (b & e & p & Hc & Hp & Hr & Hl)%runs_cpu Hw; [| done].
  pose proof (wait_section_wlp kend me i p b e addr s Hc Hp (pi_lock s Hs) (pinv_not_self s i p Hs Hp) (pi_len s Hs)) as H1.
  eapply wlp_run in H1; [| exact Hw]. by eapply (pinv_waited me i p b e).
Qed.

(** *** [exit] *)
Lemma close_files_wlp me c k fd p q s :
  ps_proc s !! p = Some q → ps_cpus s !! me = Some c →
  wlp (close_files k fd p) (λ _ s', ∃ l, changed me p c (set_ofile l q) (ps_nextpid s) s s') s.
Proof.
  revert fd q s. induction k as [|k IH]; intros fd q s Hq Hc; cbn [close_files].
  - exists (p_ofile q). destruct q. by apply changed_refl.
  - pose proof (lookup_lt_Some _ _ _ Hq). apply wlp_bind, wlp_gets, wlp_bind. destruct (p_ofile _ !!! fd) as [f|].
    + apply wlp_bind, wlp_zoom. intros g fs. eapply wlp_eq; [by apply upd_proc_eq |].
      eapply wlp_mono; [eapply IH; [cbn; by rewrite list_lookup_insert_eq | done] |]. intros _ s' [l Hs']. exists l.
      eapply changed_trans; [| exact Hs']. split; cbn; try done. by rewrite list_insert_id.
    + by apply IH.
Qed.

Lemma exit_files_wlp me c p q s :
  ps_proc s !! p = Some q → ps_cpus s !! me = Some c →
  wlp (exit_files p) (λ _ s', ∃ l, changed me p c (set_cwd None (set_ofile l q)) (ps_nextpid s) s s') s.
Proof.
  intros Hq Hc. pose proof (lookup_lt_Some _ _ _ Hq). pose proof (lookup_lt_Some _ _ _ Hc).
  unfold exit_files. apply wlp_bind.
  eapply wlp_mono; [by apply (close_files_wlp me c) |]. intros _ s1 [l Hch].
  assert (ps_proc s1 !! p = Some (set_ofile l q)) as Hq1
    by (rewrite (ch_proc _ _ _ _ _ _ _ Hch); by apply list_lookup_insert_eq).
  assert (ps_cpus s1 !! me = Some c) as Hc1
    by (rewrite (ch_cpus _ _ _ _ _ _ _ Hch); by apply list_lookup_insert_eq).
  apply wlp_bind, wlp_zoom. intros _ f1. apply wlp_bind, wlp_gets, wlp_bind.
  destruct (p_cwd _); [| done]. apply wlp_ret, wlp_bind, wlp_zoom. intros _ f2.
  apply wlp_bind, wlp_zoom. intros _ f3. eapply wlp_eq; [by apply upd_proc_eq |]. exists l.
  eapply changed_trans; [exact Hch |]. rewrite <- (ch_nextpid _ _ _ _ _ _ _ Hch).
  split; cbn; try done. by rewrite list_insert_id.
Qed.

Lemma exit_view_lock p parent init status i q : p_lock (exit_view p parent init status i q) = p_lock q.
Proof. unfold exit_view, adopt, wake. by repeat (case_decide; cbn). Qed.

Lemma exit_view_node p parent init status i q :
  node_of (exit_view p parent init status i q) = exit_node p init i (node_of q).
Proof.
  unfold exit_view, exit_node, adopt, node_of. cbn.
  assert (∀ chan y, p_parent (wake chan y) = p_parent y ∧ p_pid (wake chan y) = p_pid y ∧
    kind_of (p_state (wake chan y)) = kind_of (p_state y)) as Hw.
  { intros chan y. unfold wake. case_decide as Hd; [| done]. cbn. destruct Hd as [-> _]. done. }
  repeat (case_decide; cbn); rewrite ?(proj1 (Hw _ _)), ?(proj1 (proj2 (Hw _ _))), ?(proj2 (proj2 (Hw _ _))) in *;
    cbn in *; rewrite ?(proj1 (Hw _ _)), ?(proj1 (proj2 (Hw _ _))), ?(proj2 (proj2 (Hw _ _))) in *; congruence || done.
Qed.

(** What the invariant gives [exit]: the parent, init, and the places of the
    three in the table. *)
Lemma pinv_family s p x :
  pinv s → ps_proc s !! p = Some x → p_state x = RUNNING → ps_initproc s ≠ Some p →
  ∃ parent y init z, p_parent x = Some parent ∧ ps_proc s !! parent = Some y ∧ parent ≠ p ∧
    p_parent y ≠ Some p ∧ ps_initproc s = Some init ∧ ps_proc s !! init = Some z ∧ init ≠ p.
Proof.
  intros Hs Hx Hr Hi. pose proof (pi_tree s Hs) as Ht.
  destruct (to_init _ _ _ Ht) as (k & z & Hk & Hz & _ & _).
  destruct (to_tree _ _ _ Ht p (node_of x) (node_at _ _ _ Hx)) as (j & y & Hj & Hy & Hya & Hlt);
    [cbn; by rewrite Hr | done |].
  apply list_lookup_fmap_Some_1 in Hz as (z' & -> & Hz). apply list_lookup_fmap_Some_1 in Hy as (y' & -> & Hy).
  exists j, y', k, z'. split_and!; try done.
  - intros ->. simplify_eq. lia.
  - intros Hp. destruct (tree_parent _ _ _ j (node_of y') p Ht (node_at _ _ _ Hy) Hp) as (_ & _ & w & Hw & _ & Hlt').
    rewrite (node_at _ _ _ Hx) in Hw. simplify_eq. cbn in *. lia.
  - congruence.
Qed.

Lemma exit_leave_section me p x b e status s :
  pinv s → ps_cpus s !! me = Some (Cpu (Some p) 0 b e) → ps_proc s !! p = Some x → ps_initproc s ≠ Some p →
  ∃ parent init, p_parent x = Some parent ∧ ps_initproc s = Some init ∧ init ≠ p ∧
  (let! r := exit_leave me p status in scheduler_return me p;; ret r) s =
  Ret e (put_hart me (Cpu None 0 e e) (put_procs (imap (exit_view p parent init status) (ps_proc s)) s)).
Proof.
  intros Hs Hc Hx Hi. destruct (pinv_running s me _ p Hs Hc eq_refl) as (x' & Hx' & Hr & _). simplify_eq.
  destruct (pinv_family s p x Hs Hx Hr Hi) as (parent & y & init & z & Hpx & Hy & Hne & Hpy & Hin & Hz & Hnp).
  exists parent, init. split_and!; [done | done | done |].
  eapply (exit_section me p x parent y init z b e); try done; apply Hs.
Qed.

Lemma pinv_exit_leave me p x b e parent init status s :
  pinv s → ps_cpus s !! me = Some (Cpu (Some p) 0 b e) → ps_proc s !! p = Some x →
  ps_initproc s = Some init → init ≠ p →
  pinv (put_hart me (Cpu None 0 e e) (put_procs (imap (exit_view p parent init status) (ps_proc s)) s)).
Proof.
  intros Hs Hc Hx Hi Hnp. destruct (pinv_running s me _ p Hs Hc eq_refl) as (x' & Hx' & Hr & _). simplify_eq.
  split; cbn; try apply Hs.
  - rewrite length_imap. apply Hs.
  - apply Forall_lookup_2. intros j q Hq. rewrite list_lookup_imap in Hq.
    destruct (ps_proc s !! j) as [w|] eqn:Hw; [| done]. injection Hq as <-.
    rewrite exit_view_lock. by apply (Forall_lookup_1 _ _ _ _ (pi_lock s Hs) Hw).
  - assert (is_running <$> imap (exit_view p parent init status) (ps_proc s) =
      <[p := false]> (is_running <$> ps_proc s)) as ->; [| by eapply hart_ok_stop; [apply Hs | |]].
    apply list_eq. intros j. rewrite list_lookup_fmap, list_lookup_imap.
    pose proof (lookup_lt_Some _ _ _ Hx). destruct (decide (j = p)) as [->|Hj].
    + rewrite list_lookup_insert_eq by (by rewrite length_fmap). rewrite Hx. cbn. f_equal.
      unfold exit_view. by rewrite (decide_True (P := p = p)).
    + rewrite list_lookup_insert_ne, list_lookup_fmap by done. destruct (ps_proc s !! j) as [w|]; [| done]. cbn. f_equal.
      unfold exit_view. rewrite (decide_False (P := j = p)) by done. unfold adopt.
      repeat (case_decide; cbn); rewrite ?(proj2 (wake_views _ _)); try done; unfold is_running; cbn;
        pose proof (proj2 (wake_views (ProcChan init) w)) as E; unfold is_running in E; done.
  - rewrite Hi.
    assert (node_of <$> imap (exit_view p parent init status) (ps_proc s) =
      imap (exit_node p init) (node_of <$> ps_proc s)) as ->.
    { rewrite fmap_imap, imap_fmap. apply imap_ext. intros j q _. apply exit_view_node. }
    eapply tree_exit; [rewrite <- Hi; apply Hs | by apply node_at | cbn; by rewrite Hr | done].
Qed.

Lemma pinv_exit me i status s b s' :
  pinv s → runs me i 0 s → (let! x := exit me status in scheduler_return me i;; ret x) s = Ret b s' → pinv s'.
Proof.
  intros Hs (b0 & e & x & Hc & Hx & Hr & Hl)%runs_cpu Hex; [| done]. pose proof (lookup_lt_Some _ _ _ Hc).
  pose proof (lookup_lt_Some _ _ _ Hx).
  assert (wlp (let! x := exit me status in scheduler_return me i;; ret x) (λ _, pinv) s) as Hw;
    [| by eapply wlp_run in Hw].
  unfold exit. apply wlp_bind, wlp_bind. eapply wlp_eq; [by apply (curproc_eq me _ i s Hc) |].
  apply wlp_bind, wlp_gets. cbn [ps_initproc put_hart put_cpus]. case_decide as Hi; [done |]. apply wlp_bind.
  eapply wlp_mono; [apply (exit_files_wlp me (Cpu (Some i) 0 e e) i x); [done | by apply list_lookup_insert_eq] |].
  intros _ s1 [l Hch].
  assert (changed me i (Cpu (Some i) 0 e e) (set_cwd None (set_ofile l x)) (ps_nextpid s) s s1) as Hch1.
  { destruct Hch as [G1 G2 G3 G4 G5 G6]. split; try done. rewrite G2. cbn. by rewrite list_insert_insert_eq. }
  assert (pinv s1) as Hs1.
  { by eapply (pinv_soft s s1 me i _ _ x). }
  assert (ps_cpus s1 !! me = Some (Cpu (Some i) 0 e e)) as Hc1
    by (rewrite (ch_cpus _ _ _ _ _ _ _ Hch1); by apply list_lookup_insert_eq).
  assert (ps_proc s1 !! i = Some (set_cwd None (set_ofile l x))) as Hx1
    by (rewrite (ch_proc _ _ _ _ _ _ _ Hch1); by apply list_lookup_insert_eq).
  destruct (exit_leave_section me i _ e e status s1 Hs1 Hc1 Hx1) as (parent & init & _ & Hin & Hne & E).
  { by rewrite (ch_init _ _ _ _ _ _ _ Hch1). }
  assert (wlp (let! r := exit_leave me i status in scheduler_return me i;; ret r) (λ _, pinv) s1) as Hw.
  { eapply wlp_eq; [exact E |]. by eapply pinv_exit_leave. }
  unfold wlp, bind in Hw |- *. by destruct (exit_leave me i status s1).
Qed.

(** *** The scheduler *)
Lemma picked me i p b e s :
  pinv s → ps_cpus s !! me = Some (Cpu None 0 b e) → ps_proc s !! i = Some p → p_state p = RUNNABLE →
  ∀ c' q, cpu_ok c' → c_proc c' = Some i → p_lock q = initlock → node_of q = node_of p → p_state q = RUNNING →
  ∀ s', changed me i c' q (ps_nextpid s) s s' → pinv s'.
Proof.
  intros Hs Hc Hp Hr c' q Hok Hi Hl Hn Hq s' Hch.
  eapply (pinv_start s s' me i); try done. unfold is_running. by rewrite Hq.
Qed.

Lemma lock_addr_wlp me a c Q s :
  ps_cpus s !! me = Some c → Q tt (put_lock (LkAddr a) (held me) (put_hart me (pushed c) s)) →
  wlp (lock me (LkAddr a)) Q s.
Proof.
  intros Hc HQ. unfold wlp, lock, lockop, zoom. rewrite (cpu_at_eq _ _ _ Hc), acquire_eq.
  rewrite push_off_pushed. cbn. destruct (holding _ _); [done |]. cbn. by destruct (lk_locked _).
Qed.

(** The state when [swtch] enters process [i], whose entry was [p]. *)
Definition switched (me i : nat) (p : proc) (e : bool) (s : st) : st :=
  put_hart me (Cpu (Some i) 1 e false) (put_proc i (set_plock (held me) (set_state RUNNING p)) s).

Section Resume.
Context (me i : nat) (p : proc) (b e : bool) (s : st).
Context (Hs : pinv s) (Hc : ps_cpus s !! me = Some (Cpu None 0 b e)) (Hp : ps_proc s !! i = Some p)
  (Hr : p_state p = RUNNABLE).
Notation s1 := (switched me i p e s).

Lemma switched_cpu : ps_cpus s1 !! me = Some (Cpu (Some i) 1 e false).
Proof using Hc. apply list_lookup_insert_eq. by eapply lookup_lt_Some. Qed.
Lemma switched_proc : ps_proc s1 !! i = Some (set_plock (held me) (set_state RUNNING p)).
Proof using Hp. apply list_lookup_insert_eq. by eapply lookup_lt_Some. Qed.
Lemma switched_lock : p_lock p = initlock.
Proof using Hs Hp. exact (Forall_lookup_1 _ _ _ _ (pi_lock s Hs) Hp). Qed.
Lemma switched_node : node_of (set_state RUNNING p) = node_of p.
Proof using Hr. by apply (node_of_alive RUNNABLE). Qed.

Lemma resume_forkret : wlp (resume me i RForkret) (λ _, pinv) s1.
Proof using Hs Hc Hp Hr.
  pose proof switched_cpu as Hc1. pose proof switched_proc as Hp1. pose proof switched_lock as Hl.
  cbn [resume]. unfold forkret. apply wlp_bind, wlp_bind. eapply wlp_eq; [by apply (curproc_eq me _ i s1 Hc1) |].
  rewrite put_hart_same by done. apply wlp_bind.
  eapply wlp_eq; [by apply (unlock_self me i _ e s1 Hc1 Hp1) |]. rewrite relock_id by done.
  set (s2 := put_hart me _ _).
  assert (∀ s3, ps_proc s3 = ps_proc s2 → ps_cpus s3 = ps_cpus s2 → ps_pid_lock s3 = ps_pid_lock s2 →
    ps_nextpid s3 = ps_nextpid s2 → ps_initproc s3 = ps_initproc s2 → ps_locks s3 = ps_locks s2 → pinv s3) as Hfin.
  { intros s3 E1 E2 E3 E4 E5 E6.
    eapply (picked me i p b e s Hs Hc Hp Hr (Cpu (Some i) 0 e e) (set_state RUNNING p)); try done.
    - apply switched_node.
    - subst s2. split; [rewrite E1 | rewrite E2 | rewrite E3 | rewrite E4 | rewrite E5 | rewrite E6]; try reflexivity;
        cbn; by rewrite list_insert_insert_eq. }
  apply wlp_bind, wlp_gets. destruct (ps_first s2); [| by apply wlp_ret, wlp_ret, Hfin].
  apply wlp_bind, wlp_modify, wlp_zoom. intros _ f. by apply wlp_ret, Hfin.
Qed.

Lemma resume_yield b' : wlp (resume me i (RYield b')) (λ _, pinv) s1.
Proof using Hs Hc Hp Hr.
  pose proof switched_cpu as Hc1. pose proof switched_proc as Hp1. pose proof switched_lock as Hl.
  pose proof (lookup_lt_Some _ _ _ Hc1).
  cbn [resume]. unfold yield_return, sched_return. apply wlp_bind, wlp_bind. eapply wlp_eq; [by apply cpuop_modify |].
  eapply wlp_eq; [apply (unlock_self me i (set_plock (held me) (set_state RUNNING p)) b');
    [by apply list_lookup_insert_eq | done | done] |].
  apply wlp_ret. rewrite relock_id by done.
  eapply (picked me i p b e s Hs Hc Hp Hr (Cpu (Some i) 0 b' b') (set_state RUNNING p)); try done;
    [apply switched_node |].
  split; try reflexivity; cbn; by rewrite !list_insert_insert_eq.
Qed.

Lemma resume_sleep a b' : wlp (resume me i (RSleep a b')) (λ _, pinv) s1.
Proof using Hs Hc Hp Hr.
  pose proof switched_cpu as Hc1. pose proof switched_proc as Hp1. pose proof switched_lock as Hl.
  pose proof (lookup_lt_Some _ _ _ Hc1). pose proof (lookup_lt_Some _ _ _ Hp1).
  cbn [resume]. unfold sleep_return, sched_return. apply wlp_bind, wlp_bind. eapply wlp_eq; [by apply cpuop_modify |].
  apply wlp_bind. eapply wlp_eq; [by apply upd_proc_eq |]. rewrite decide_True by done. apply wlp_bind.
  eapply wlp_eq; [apply (unlock_self me i (set_chan None (set_plock (held me) (set_state RUNNING p))) b');
    [by apply list_lookup_insert_eq | by apply list_lookup_insert_eq | done] |].
  eapply lock_addr_wlp; [apply list_lookup_insert_eq; cbn; rewrite !length_insert; by eapply lookup_lt_Some |].
  apply wlp_ret, pinv_put_lock. rewrite (set_plock_restore (set_chan None)) by done.
  eapply (picked me i p b e s Hs Hc Hp Hr (Cpu (Some i) 1 b' false) (set_chan None (set_state RUNNING p))); try done;
    [apply switched_node |].
  split; try reflexivity; cbn; by rewrite !list_insert_insert_eq.
Qed.

Lemma wait_return_turn addr b' :
  wait_return kend me i addr b' s1 =
  wait_turn kend me i addr
    (put_hart me (Cpu (Some i) 1 b' false) (put_proc i (set_plock (held me) (set_chan None (set_state RUNNING p))) s)).
Proof using Hc Hp.
  pose proof switched_cpu as Hc1. pose proof switched_proc as Hp1.
  unfold wait_return, sleep_return, sched_return, bind.
  erewrite cpuop_modify by done. erewrite upd_proc_eq by done. rewrite decide_False by tauto.
  unfold ret at 1, switched. f_equal. by rewrite !put_proc_hart, put_proc_twice, put_hart_twice.
Qed.

Lemma resume_wait addr b' : wlp (resume me i (RWait addr b')) (λ _, pinv) s1.
Proof using Hs Hc Hp Hr.
  pose proof switched_lock as Hl. pose proof (lookup_lt_Some _ _ _ Hc). pose proof (lookup_lt_Some _ _ _ Hp).
  set (x := set_chan None (set_state RUNNING p)).
  set (s2 := put_hart me (Cpu (Some i) 0 b' b') (put_proc i x s)).
  assert (pinv s2) as Hs2.
  { eapply (picked me i p b e s Hs Hc Hp Hr (Cpu (Some i) 0 b' b') x); try done. apply switched_node. }
  cbn [resume]. apply wlp_bind. eapply wlp_mono.
  2:{ intros a s4 Hs4. apply wlp_ret. exact Hs4. }
  assert (wlp (wait_turn_section me i addr (wait_turn kend me i addr)) (λ _, pinv)
    (put_hart me (Cpu (Some i) 1 b' false) (put_proc i (set_plock (held me) x) s))) as Hw3.
  { eapply wlp_mono; [apply (wait_turn_wlp kend me i (set_plock (held me) x) b') |].
    - by apply list_lookup_insert_eq.
    - by apply list_lookup_insert_eq.
    - done.
    - by apply (pinv_not_self s i p).
    - cbn. intros j q Hj. rewrite list_lookup_insert_ne by done. by apply (Forall_lookup_1 _ _ _ _ (pi_lock s Hs)).
    - cbn. rewrite length_insert. apply Hs.
    - intros r s4 Hw4. eapply (pinv_waited me i x b' b' b' s2); try done; [by apply list_lookup_insert_eq .. |].
      eapply waited_lock; [by apply list_lookup_insert_eq | done | | exact Hw4].
      split; try reflexivity; cbn; by rewrite !list_insert_insert_eq. }
  revert Hw3. unfold wlp, wait_turn_section, bind. by rewrite wait_return_turn.
Qed.
End Resume.

Lemma pinv_dispatch me i rp c s o s' :
  pinv s → ps_cpus s !! me = Some c → c_proc c = None → dispatch me i rp s = Ret o s' →
  (i < nproc)%nat → pinv s'.
Proof.
  intros Hs Hc Hidle Hd Hi. pose proof (ho_cpu _ _ (pi_hart s Hs) me c Hc) as [Hok Hn].
  specialize (Hn Hidle). destruct c as [q n b e]. cbn in Hidle, Hn. subst q n.
  destruct (lookup_lt_is_Some_2 (ps_proc s) i) as [p Hp]; [by rewrite (pi_len s Hs) |].
  pose proof (Forall_lookup_1 _ _ _ _ (pi_lock s Hs) Hp) as Hl. cbn in Hl.
  assert (wlp (dispatch me i rp) (λ _, pinv) s) as Hw; [| by eapply wlp_run in Hw]. clear Hd.
  unfold dispatch. apply wlp_bind. destruct (decide (p_state p = RUNNABLE)) as [Hr|Hr].
  - eapply wlp_eq; [by apply (scheduler_pick_eq me i p b e) |].
    destruct rp; eauto using resume_forkret, resume_yield, resume_sleep, resume_wait.
  - eapply wlp_eq; [by apply (scheduler_pick_no me i p _ s Hc) |]. apply wlp_ret.
    eapply (pinv_soft s _ me i _ (settle _) p); try done; [| by apply same_hart_settle].
    split; cbn; try done. by rewrite list_insert_id.
Qed.

(** *** Memory and other locks *)
Lemma pinv_grow me i n s r s' : pinv s → runs me i 0 s → growproc kend me n s = Ret r s' → pinv s'.
Proof.
  intros Hs (b & e & p & Hc & Hp & Hr & Hl)%runs_cpu Hg; [| done]. pose proof (lookup_lt_Some _ _ _ Hc).
  assert (wlp (growproc kend me n) (λ _, pinv) s) as Hw; [| by eapply wlp_run in Hw]. clear Hg.
  assert (∀ m sz, pinv (put_proc i (set_sz sz p) (put_pmem m (put_hart me (Cpu (Some i) 0 e e) s)))) as Hfin.
  { intros m sz. by eapply (pinv_soft s _ me i _ (Cpu (Some i) 0 e e) p). }
  assert (∀ m, pinv (put_pmem m (put_hart me (Cpu (Some i) 0 e e) s))) as Hfin'.
  { intros m. specialize (Hfin m (p_sz p)). rewrite put_proc_same in Hfin; [done |]. cbn. rewrite Hp. by destruct p. }
  unfold growproc. apply wlp_bind. eapply wlp_eq; [by apply (curproc_eq me _ i s Hc) |].
  apply wlp_bind, wlp_gets. erewrite proc_at_eq by done.
  repeat case_decide; [| | specialize (Hfin (ps_mem s))].
  - apply wlp_bind, wlp_zoom. intros r' m. case_decide; [apply wlp_ret, Hfin' |].
    apply wlp_bind. eapply wlp_eq; [by apply upd_proc_eq |]. apply wlp_ret, Hfin.
  - apply wlp_bind, wlp_zoom. intros r' m. apply wlp_bind. eapply wlp_eq; [by apply upd_proc_eq |].
    apply wlp_ret, Hfin.
  - apply wlp_bind. eapply wlp_eq; [by apply upd_proc_eq |]. apply wlp_ret. destruct s. apply Hfin.
Qed.

Lemma pinv_lock_addr me i n a s s' :
  pinv s → runs me i n s → lock_of (LkAddr a) s = initlock → lock me (LkAddr a) s = Ret tt s' → pinv s'.
Proof.
  intros Hs (c & Hc & Hi & Hn) Hl. rewrite (lock_addr me a c s Hc Hl). intros [_ <-]%Ret_inj.
  apply pinv_put_lock. destruct (pinv_cpu_ok s me c Hs Hc) as [Hpos _].
  split; cbn; try apply Hs. eapply hart_ok_same; [apply Hs | done | split; cbn; [lia | done] | done | congruence].
Qed.

Lemma pinv_unlock_addr me i n a s s' :
  pinv s → runs me i n s → 0 < n → lock_of (LkAddr a) s = held me → unlock me (LkAddr a) s = Ret tt s' → pinv s'.
Proof.
  intros Hs Hruns Hn Ha. destruct (runs_locked _ _ _ _ Hs Hruns Hn) as (b & p & Hc & Hp & Hr & Hl).
  rewrite (unlock_addr me a (Some i) n b s Hc Ha Hn). intros [_ <-]%Ret_inj.
  apply pinv_put_lock. split; cbn; try apply Hs.
  eapply hart_ok_same; [apply Hs | done | split; cbn; [lia |] | done | done].
  intros Hpos. by rewrite decide_False by lia.
Qed.

Lemma pstep_pinv s rps s' rps' : pstep (s, rps) (s', rps') → length rps = nproc → pinv s → pinv s'.
Proof.
  intros Hst Hn Hs. inversion Hst; subst.
  - eapply pinv_dispatch; try done. rewrite <- Hn. by eapply lookup_lt_Some.
  - by eapply pinv_yield.
  - by eapply pinv_sleep.
  - by eapply pinv_wait.
  - by eapply pinv_fork.
  - by eapply pinv_exit.
  - by eapply pinv_wakeup.
  - by eapply pinv_kill.
  - by eapply pinv_grow.
  - by eapply pinv_lock_addr.
  - by eapply pinv_unlock_addr.
Qed.

Lemma pstep_length s rps s' rps' : pstep (s, rps) (s', rps') → length rps' = length rps.
Proof. intros Hst. inversion Hst; subst; repeat case_match; by rewrite ?length_insert. Qed.
End Steps.
