(* ===== verification/ProcTheorems.v ===== *)
(** * Theorems about processes *)
From S2P Require Import Prelude Params Riscv Kalloc Vm Spinlock Proc ProcInv ProcProofs ProcSteps.

Section Theorems.
Context {F : Type} `{FileOps F} (kend trampoline forkret_addr : Z).
Notation st := (pst F).
Implicit Types s : st.

(** ** The invariant *)

(** Before [userinit]: no process, no lock held, harts idle. *)
Record unbooted (s : st) : Prop := {
  ub_len : length (ps_proc s) = nproc;
  ub_proc : Forall spare (ps_proc s);
  ub_cpus : Forall (λ c, c_proc c = None ∧ c_noff c = 0) (ps_cpus s);
  ub_pid : ps_pid_lock s = initlock ∧ ps_nextpid s = 1;
}.

Lemma unbooted_unused s i p : unbooted s → ps_proc s !! i = Some p → spare p.
Proof. intros Hs Hp. by apply (Forall_lookup_1 _ _ _ _ (ub_proc s Hs) Hp). Qed.

Lemma userinit_views s i q c me s' (x : proc) :
  unbooted s → ps_cpus s !! me = Some c → ps_proc s !! i = Some x →
  p_lock q = initlock → p_state q = RUNNABLE → p_parent q = None → p_pid q = 1 →
  ps_proc s' = <[i := q]> (ps_proc s) → (∃ c', same_hart c c' ∧ ps_cpus s' = <[me := c']> (ps_cpus s)) →
  ps_pid_lock s' = initlock → ps_nextpid s' = 2 → ps_initproc s' = Some i → pinv s'.
Proof.
  intros Hs Hc Hx Hl Hst Hpar Hpid E1 (c' & Hh & E2) E3 E4 E5. pose proof (lookup_lt_Some _ _ _ Hx).
  apply same_hart_cpu in Hh as (Hok & Hcp & Hcn).
  destruct (Forall_lookup_1 _ _ _ _ (ub_cpus s Hs) Hc) as [Hc1 Hc2].
  assert (∀ k d, ps_cpus s' !! k = Some d → cpu_ok d ∧ c_proc d = None ∧ c_noff d = 0) as Hcpu.
  { rewrite E2. intros k d [(<- & <- & _)|[_ Hd]]%list_lookup_insert_Some; [by rewrite Hcp, Hcn |].
    destruct (Forall_lookup_1 _ _ _ _ (ub_cpus s Hs) Hd) as [Hd1 Hd2]. split_and!; [| done | done].
    split; lia. }
  assert (∀ k w, (node_of <$> ps_proc s') !! k = Some w → n_kind w ≠ KUnused → k = i ∧ w = Node KAlive None 1) as Hn.
  { rewrite E1, list_fmap_insert. intros k w [(<- & <- & _)|[_ Hw]]%list_lookup_insert_Some Hu.
    - unfold node_of. by rewrite Hst, Hpar, Hpid.
    - apply list_lookup_fmap_Some_1 in Hw as (y & -> & Hy).
      destruct (unbooted_unused s k y Hs Hy) as (_ & Hyu & _). cbn in Hu. by rewrite Hyu in Hu. }
  split.
  - rewrite E1, length_insert. apply Hs.
  - rewrite E1. apply Forall_insert; [| done]. eapply Forall_impl; [apply Hs |]. by intros y (? & _).
  - done.
  - split.
    + intros k d Hd. destruct (Hcpu k d Hd) as (? & ? & ?). done.
    + intros k d j Hd Hj. destruct (Hcpu k d Hd) as (_ & ? & _). congruence.
    + intros j. rewrite E1, list_fmap_insert. intros [(_ & Hr & _)|[_ Hr]]%list_lookup_insert_Some.
      * unfold is_running in Hr. by rewrite Hst in Hr.
      * apply list_lookup_fmap_Some_1 in Hr as (y & Hr & Hy).
        destruct (unbooted_unused s j y Hs Hy) as (_ & Hyu & _). unfold is_running in Hr. by rewrite Hyu in Hr.
    + intros k k' d d' j Hd _ Hj _. destruct (Hcpu k d Hd) as (_ & ? & _). congruence.
  - rewrite E4, E5. split.
    + intros k w Hw Hu. destruct (Hn k w Hw Hu) as [_ ->]. cbn. lia.
    + intros k k' w w' Hw Hw' Hu Hu' _. destruct (Hn k w Hw Hu), (Hn k' w' Hw' Hu'). congruence.
    + intros k w Hw Hu. rewrite E1, list_fmap_insert in Hw.
      apply list_lookup_insert_Some in Hw as [(_ & <- & _)|[_ Hw]]; [done |].
      apply list_lookup_fmap_Some_1 in Hw as (y & -> & Hy). by destruct (unbooted_unused s k y Hs Hy) as (_ & _ & ?).
    + exists i, (node_of q). rewrite E1, list_fmap_insert, list_lookup_insert_eq by (by rewrite length_fmap).
      split_and!; [done | done | cbn; by rewrite Hst | done].
    + intros k w Hw Hu Hk. destruct (Hn k w Hw Hu) as [-> _]. done.
  - lia.
Qed.

(** [userinit] establishes the invariant. *)
Lemma userinit_pinv me c s :
  unbooted s → ps_cpus s !! me = Some c → cpu_ok c →
  wlp (userinit kend trampoline forkret_addr me) (λ _, pinv) s.
Proof.
  intros Hs Hc Hok. pose proof (ub_pid s Hs) as [Hpl Hnp]. pose proof (lookup_lt_Some _ _ _ Hc).
  unfold userinit. apply wlp_bind. eapply wlp_mono.
  { apply (allocproc_wlp kend trampoline forkret_addr me c); [| apply Hs | | done | done | done].
    - eapply Forall_impl; [apply Hs |]. by intros y (? & _).
    - intros i p Hp _. by apply (unbooted_unused s i p). }
  intros [i|] s1; cbv beta iota.
  2:{ intros _. apply wlp_bind, wlp_modify, wlp_bind. done. }
  intros (c' & p & q & Hc' & Hp & _ & (Hql & Hqs & Hqp & Hqpid) & _ & [G1 G2 G3 G4 G5 G6]).
  pose proof (lookup_lt_Some _ _ _ Hp).
  assert (ps_proc s1 !! i = Some q) as Hq1 by (rewrite G1; by apply list_lookup_insert_eq).
  assert (ps_cpus s1 !! me = Some (pushed c')) as Hc1 by (rewrite G2; by apply list_lookup_insert_eq).
  pose proof (lookup_lt_Some _ _ _ Hq1).
  apply wlp_bind, wlp_modify, wlp_bind, wlp_ret, wlp_bind, wlp_gets, wlp_bind, wlp_zoom. intros _ m1.
  apply wlp_bind. eapply wlp_eq; [by apply upd_proc_eq |].
  apply wlp_bind, wlp_zoom. intros _ m2. apply wlp_bind, wlp_zoom. intros _ m3.
  apply wlp_bind. eapply wlp_eq; [apply upd_proc_eq; cbn; by rewrite list_lookup_insert_eq |].
  apply wlp_bind, wlp_zoom. intros cwd f1.
  apply wlp_bind. eapply wlp_eq; [apply upd_proc_eq; cbn; by rewrite list_lookup_insert_eq by (by rewrite length_insert) |].
  apply wlp_bind. eapply wlp_eq; [apply upd_proc_eq; cbn; by rewrite list_lookup_insert_eq by (by rewrite !length_insert) |].
  eapply wlp_eq.
  { eapply (unlock_pushed me i _ c'); [cbn; by rewrite list_lookup_insert_eq by (by rewrite !length_insert) | done | done | apply Hc']. }
  match goal with |- pinv (put_hart _ _ (put_proc _ ?q' _)) => apply (userinit_views s i q' c me _ p) end;
    try done; cbn.
  - by rewrite Hqpid, Hnp.
  - rewrite !list_insert_insert_eq, G1. by rewrite list_insert_insert_eq.
  - exists (settle c'). split; [eapply same_hart_trans; [done | apply same_hart_settle, Hc'] |].
    by rewrite G2, list_insert_insert_eq.
  - by rewrite G3.
  - by rewrite G4, Hnp.
Qed.

(** C5: the process table stays consistent under every sequence of
    sections, on any number of harts: a process that runs does so on exactly
    one hart; used entries have distinct positive pids; every process but
    init has a parent that is alive and older, so no process is orphaned
    and the parents form a tree; between sections no process lock is held,
    and a hart without a process holds no lock at all. *)
Theorem proc_table_invariant s0 rps0 s rps :
  pinv s0 → length rps0 = nproc → rtc (pstep kend trampoline forkret_addr) (s0, rps0) (s, rps) →
  (∀ me me' c c' i, ps_cpus s !! me = Some c → ps_cpus s !! me' = Some c' →
     c_proc c = Some i → c_proc c' = Some i → me = me') ∧
  (∀ i p, ps_proc s !! i = Some p →
     (p_state p = RUNNING ↔ ∃ me c, ps_cpus s !! me = Some c ∧ c_proc c = Some i)) ∧
  (∀ i j p q, ps_proc s !! i = Some p → ps_proc s !! j = Some q → p_state p ≠ UNUSED → p_state q ≠ UNUSED →
     0 < p_pid p ∧ (p_pid p = p_pid q → i = j)) ∧
  (∀ i p, ps_proc s !! i = Some p → p_state p ≠ UNUSED → ps_initproc s ≠ Some i →
     ∃ j q, p_parent p = Some j ∧ ps_proc s !! j = Some q ∧ p_state q ≠ UNUSED ∧ p_state q ≠ ZOMBIE ∧ p_pid q < p_pid p) ∧
  (∀ i p, ps_proc s !! i = Some p → p_lock p = initlock) ∧
  (∀ me c, ps_cpus s !! me = Some c → c_proc c = None → c_noff c = 0).
Proof.
  intros H0 Hn Hr. assert (pinv s) as Hs.
  { remember (s0, rps0) as a eqn:Ea. remember (s, rps) as z eqn:Ez. revert s0 rps0 H0 Hn Ea.
    induction Hr as [|a [s1 rps1] z Hst Hr IH]; intros s0 rps0 H0 Hn ->; [by simplify_eq |].
    eapply IH; [done | by eapply pstep_pinv | | done]. by rewrite (pstep_length _ _ _ _ _ _ _ Hst). }
  assert (∀ x, p_state x ≠ UNUSED → n_kind (node_of x) ≠ KUnused) as Hu by (intros x; cbn; by destruct (p_state x)).
  pose proof (pi_hart s Hs) as Hh. pose proof (pi_tree s Hs) as Ht. split_and!.
  - apply (ho_one _ _ Hh).
  - intros i p Hp. split.
    + intros Hr'. apply (ho_running _ _ Hh). rewrite list_lookup_fmap, Hp. cbn. unfold is_running. by rewrite Hr'.
    + intros (me & c & Hc & Hi). destruct (pinv_running s me c i Hs Hc Hi) as (p' & ? & ? & _). by simplify_eq.
  - intros i j p q Hp Hq Hpu Hqu. apply Hu in Hpu, Hqu. split.
    + by apply (to_pid _ _ _ Ht i (node_of p)); [apply node_at |].
    + intros E. by apply (to_uniq _ _ _ Ht i j (node_of p) (node_of q)); [apply node_at | apply node_at | | |].
  - intros i p Hp Hpu Hi. destruct (to_tree _ _ _ Ht i (node_of p)) as (j & y & Hj & Hy & Hk & Hlt);
      [by apply node_at | by apply Hu | done |].
    apply list_lookup_fmap_Some_1 in Hy as (q & -> & Hq). exists j, q. cbn in *.
    by destruct (p_state q).
  - intros i p Hp. by apply (Forall_lookup_1 _ _ _ _ (pi_lock s Hs) Hp).
  - intros me c Hc. apply (ho_cpu _ _ Hh me c Hc).
Qed.

(** ** Sleeping and waking *)

(** [wakeup(chan)] returns and makes runnable exactly the processes that
    sleep on [chan]; no other entry changes, and the hart is left as it was. *)
Theorem wakeup_exact me chan c s :
  pinv s → ps_cpus s !! me = Some c →
  wp (wakeup me chan) (λ _ s',
    (∀ i p, ps_proc s !! i = Some p → ps_proc s' !! i = Some
       (if decide (p_state p = SLEEPING ∧ p_chan p = Some chan) then set_state RUNNABLE p else p)) ∧
    (∃ c', same_hart c c' ∧ ps_cpus s' = <[me := c']> (ps_cpus s)) ∧ ps_locks s' = ps_locks s ∧ pinv s') s.
Proof.
  intros Hs Hc. destruct (wakeup_eq me chan c s) as (c' & Hc' & E);
    [apply Hs | done | by eapply pinv_cpu_ok | apply Hs |].
  eapply wp_intro; [exact E |]. split_and!; cbn.
  - intros i p Hp. by rewrite list_lookup_fmap, Hp.
  - by exists c'.
  - done.
  - by eapply (pinv_wakeup me chan s).
Qed.

(** ** [exit] and [wait] *)

(** C19: [exit] ends in order: past the file system it neither panics nor
    deadlocks; the process is a zombie that keeps its pid, parent and exit
    status; its children belong to init; its parent and init, if asleep in
    [wait], are runnable; no other entry changes; the hart is idle. *)
Theorem exit_orderly me p x b e status s :
  pinv s → ps_cpus s !! me = Some (Cpu (Some p) 0 b e) → ps_proc s !! p = Some x → ps_initproc s ≠ Some p →
  ∃ parent init s', p_parent x = Some parent ∧ ps_initproc s = Some init ∧
  (let! r := exit_leave me p status in scheduler_return me p;; ret r) s = Ret e s' ∧ pinv s' ∧
  (∃ x', ps_proc s' !! p = Some x' ∧ p_state x' = ZOMBIE ∧ p_xstate x' = status ∧ p_pid x' = p_pid x ∧
     p_parent x' = Some parent) ∧
  (∀ i q, ps_proc s !! i = Some q → i ≠ p →
     let q1 := if decide (p_parent q = Some p) then set_parent (Some init) q else q in
     ps_proc s' !! i = Some (if decide ((i = parent ∨ i = init) ∧ p_state q = SLEEPING ∧ p_chan q = Some (ProcChan i))
                             then set_state RUNNABLE q1 else q1)) ∧
  ps_cpus s' = <[me := Cpu None 0 e e]> (ps_cpus s).
Proof.
  intros Hs Hc Hx Hi.
  destruct (exit_leave_section me p x b e status s Hs Hc Hx Hi) as (parent & init & Hp & Hin & Hne & E).
  assert (parent ≠ p) as Hpp by (intros ->; by apply (pinv_not_self s p x Hs Hx)).
  exists parent, init. eexists. split_and!; [done | done | exact E | by eapply pinv_exit_leave | | | done].
  - cbn. rewrite list_lookup_imap, Hx. eexists. split; [reflexivity |]. unfold exit_view, adopt.
    rewrite (decide_False (P := p = init)), (decide_False (P := p_parent x = Some p)),
      (decide_False (P := p = parent)) by congruence. by rewrite decide_True.
  - intros i q Hq Hip. cbn. rewrite list_lookup_imap, Hq. cbn. f_equal.
    unfold exit_view. rewrite (decide_False (P := i = p)) by done. fold (adopt p (Some init) q).
    unfold wake. destruct (decide (i = init)) as [E1|E1], (decide (i = parent)) as [E2|E2];
      rewrite <- ?E1, <- ?E2; unfold adopt; repeat (case_decide; cbn in *); naive_solver.
Qed.

Lemma put_pmem_hart me c m s : put_pmem m (put_hart me c s) = put_hart me c (put_pmem m s).
Proof. done. Qed.
Lemma put_pmem_proc i q m s : put_pmem m (put_proc i q s) = put_proc i q (put_pmem m s).
Proof. done. Qed.

Section Wait.
Context (me p : nat) (x : proc) (b : bool) (s : st).
Context (Hc : ps_cpus s !! me = Some (Cpu (Some p) 1 b false)) (Hx : ps_proc s !! p = Some x)
  (Hlx : p_lock x = held me) (Hpx : p_parent x ≠ Some p)
  (Hl : ∀ j q, j ≠ p → ps_proc s !! j = Some q → p_lock q = initlock).

Lemma wait_scan_skip addr k i hk q :
  ps_proc s !! i = Some q → ¬ (p_parent q = Some p ∧ p_state q = ZOMBIE) →
  wait_scan kend me p addr (S k) i hk s = wait_scan kend me p addr k (i + 1) (hk || child_of p q) s.
Proof using Hc Hx Hlx Hpx Hl.
  intros Hq Hn. pose proof (lookup_lt_Some _ _ _ Hq). pose proof (lookup_lt_Some _ _ _ Hc).
  cbn [wait_scan]. unfold bind at 1, gets at 1. rewrite (proc_at_eq _ _ _ Hq). unfold child_of. case_decide as Hpq.
  2:{ by rewrite bool_decide_false, orb_false_r by done. }
  rewrite bool_decide_true, orb_true_r by done.
  assert (i ≠ p) as Hip by congruence. pose proof (Hl i q Hip Hq) as Hlq.
  pose proof (locked_section_id me i q _ s Hq Hlq Hc ltac:(by split)) as E. revert E.
  unfold bind. rewrite (lock_proc me i q _ s Hq Hlq Hc). unfold gets.
  erewrite proc_at_eq by (cbn; by rewrite list_lookup_insert_eq). cbn [p_state set_plock].
  rewrite decide_False by tauto. intros ->. by rewrite put_proc_same, put_hart_same.
Qed.

Lemma wait_scan_none addr k i hk :
  (i + k)%nat = length (ps_proc s) →
  Forall (λ q, ¬ (p_parent q = Some p ∧ p_state q = ZOMBIE)) (drop i (ps_proc s)) →
  wait_scan kend me p addr k i hk s = Ret (inr (hk || existsb (child_of p) (drop i (ps_proc s)))) s.
Proof using Hc Hx Hlx Hpx Hl.
  revert i hk. induction k as [|k IH]; intros i hk Hi Hz.
  { rewrite drop_ge by lia. cbn. by rewrite orb_false_r. }
  destruct (lookup_lt_is_Some_2 (ps_proc s) i ltac:(lia)) as [q Hq].
  rewrite (drop_S _ q i) in * by done. apply Forall_cons in Hz as [Hz Hzs].
  rewrite (wait_scan_skip _ _ _ _ q) by done. replace (S i) with (i + 1)%nat in * by lia.
  rewrite IH by (done || lia). cbn [existsb]. by rewrite orb_assoc.
Qed.

Lemma wait_scan_found k i hk j q m :
  (i + k)%nat = length (ps_proc s) →
  list_find (λ q, p_parent q = Some p ∧ p_state q = ZOMBIE) (drop i (ps_proc s)) = Some (j, q) →
  free_mem kend q (ps_mem s) = Ret tt m →
  wait_scan kend me p 0 k i hk s = Ret (inl (p_pid q))
    (put_hart me (Cpu (Some p) 0 b b) (put_proc p (set_plock initlock x) (put_proc (i + j) (freed q) (put_pmem m s)))).
Proof using Hc Hx Hlx Hpx Hl.
  revert i hk j. induction k as [|k IH]; intros i hk j Hi Hf Hm; [by rewrite drop_ge in Hf by lia |].
  destruct (lookup_lt_is_Some_2 (ps_proc s) i ltac:(lia)) as [w Hw].
  rewrite (drop_S _ w i) in Hf by done. cbn [list_find] in Hf. case_decide as Hz.
  - injection Hf as <- <-. rewrite Nat.add_0_r. destruct Hz as [Hzp Hzz].
    pose proof (lookup_lt_Some _ _ _ Hw). pose proof (lookup_lt_Some _ _ _ Hc). pose proof (lookup_lt_Some _ _ _ Hx).
    assert (i ≠ p) as Hip by congruence. pose proof (Hl i w Hip Hw) as Hlw.
    cbn [wait_scan]. unfold bind, gets. rewrite (proc_at_eq _ _ _ Hw), decide_True by done.
    rewrite (lock_proc me i w _ s Hw Hlw Hc).
    erewrite (proc_at_eq i) by (cbn; by rewrite list_lookup_insert_eq). cbn [p_state set_plock].
    rewrite decide_True by done. unfold ret at 1. rewrite !decide_False by lia.
    unfold freeproc, bind, gets. erewrite (proc_at_eq i) by (cbn; by rewrite list_lookup_insert_eq).
    unfold memop, zoom. cbn [ps_mem put_hart put_proc put_procs put_cpus].
    change (free_mem kend (set_plock (held me) w)) with (free_mem kend w). rewrite Hm.
    erewrite upd_proc_eq by (cbn; by rewrite list_lookup_insert_eq).
    erewrite (unlock_pushed me i _ (Cpu (Some p) 1 b false));
      [| cbn; by rewrite list_lookup_insert_eq by (by rewrite length_insert) | done
       | cbn; by rewrite list_lookup_insert_eq | by split].
    erewrite (unlock_self me p x b);
      [| cbn; by rewrite list_lookup_insert_eq by (by rewrite length_insert)
       | cbn; by rewrite !list_lookup_insert_ne by congruence | done].
    cbn [p_pid set_plock]. unfold ret. f_equal.
    rewrite (set_plock_restore freed), put_pmem_hart, put_pmem_proc by done.
    by rewrite !put_proc_hart, !put_hart_twice, !put_proc_twice.
  - destruct (list_find _ _) as [[j' q']|] eqn:Ef; [| done]. injection Hf as <- <-.
    rewrite (wait_scan_skip _ _ _ _ w) by done. replace (S i) with (i + 1)%nat in Ef by lia.
    rewrite (IH (i + 1)%nat _ j') by (done || lia). do 4 f_equal. lia.
Qed.
End Wait.

Lemma wait_enter me p x b e addr s :
  ps_cpus s !! me = Some (Cpu (Some p) 0 b e) → ps_proc s !! p = Some x → p_lock x = initlock →
  wait kend me addr s =
  wait_turn kend me p addr (put_hart me (Cpu (Some p) 1 e false) (put_proc p (set_plock (held me) x) s)).
Proof.
  intros Hc Hx Hlx. pose proof (lookup_lt_Some _ _ _ Hc).
  unfold wait, bind. rewrite (curproc_eq me _ p s Hc) by (done || by split).
  erewrite lock_proc; [| done | done | by apply list_lookup_insert_eq]. by rewrite put_proc_hart, put_hart_twice.
Qed.

(** The table as [wait] scans it: only its own entry is locked. *)
Lemma locked_table me p x s (P : proc → Prop) :
  ps_proc s !! p = Some x → (P (set_plock (held me) x) ↔ P x) →
  Forall P (<[p := set_plock (held me) x]> (ps_proc s)) ↔ Forall P (ps_proc s).
Proof.
  intros Hx HP. rewrite !Forall_lookup. pose proof (lookup_lt_Some _ _ _ Hx). split; intros Hf i q Hq.
  - destruct (decide (i = p)) as [->|Hi].
    + simplify_eq. apply HP, (Hf p). by apply list_lookup_insert_eq.
    + apply (Hf i). by rewrite list_lookup_insert_ne.
  - apply list_lookup_insert_Some in Hq as [(<- & <- & _)|[_ Hq]]; [by apply HP, (Hf p) | by eapply Hf].
Qed.

(** [wait] with no zombie child does not reap: it returns -1 when the
    caller has no child or is killed, and otherwise gives up the hart asleep
    on its own address; nothing else of the table changes. *)
Theorem wait_sleeps me p x b e addr s :
  pinv s → ps_cpus s !! me = Some (Cpu (Some p) 0 b e) → ps_proc s !! p = Some x →
  Forall (λ q, ¬ (p_parent q = Some p ∧ p_state q = ZOMBIE)) (ps_proc s) →
  wp (wait_turn_section me p addr (wait kend me addr)) (λ r s', pinv s' ∧
    if decide (Exists (λ q, p_parent q = Some p) (ps_proc s) ∧ p_killed x = 0)
    then r = inr e ∧ ps_cpus s' !! me = Some (Cpu None 0 e e) ∧
         ps_proc s' = <[p := set_state SLEEPING (set_chan (Some (ProcChan p)) x)]> (ps_proc s)
    else r = inl (-1) ∧ ps_cpus s' !! me = Some (Cpu (Some p) 0 e e) ∧ ps_proc s' = ps_proc s) s.
Proof.
  intros Hs Hc Hx Hz. pose proof (lookup_lt_Some _ _ _ Hc). pose proof (lookup_lt_Some _ _ _ Hx).
  destruct (pinv_running s me _ p Hs Hc eq_refl) as (x' & Hx' & Hr & Hlx). simplify_eq.
  set (s1 := put_hart me (Cpu (Some p) 1 e false) (put_proc p (set_plock (held me) x) s)).
  assert (ps_cpus s1 !! me = Some (Cpu (Some p) 1 e false)) as Hc1 by (by apply list_lookup_insert_eq).
  assert (ps_proc s1 !! p = Some (set_plock (held me) x)) as Hx1 by (by apply list_lookup_insert_eq).
  assert (Forall (λ q, ¬ (p_parent q = Some p ∧ p_state q = ZOMBIE)) (drop 0 (ps_proc s1))) as Hz1.
  { rewrite drop_0. cbn. by apply (locked_table me p x s (λ q, ¬ (p_parent q = Some p ∧ p_state q = ZOMBIE)) Hx). }
  assert (existsb (child_of p) (drop 0 (ps_proc s1)) = bool_decide (Exists (λ q, p_parent q = Some p) (ps_proc s))) as Ek.
  { rewrite drop_0. apply eq_bool_prop_intro. rewrite bool_decide_spec. cbn.
    destruct (existsb (child_of p) _) eqn:E; cbn; split; try done.
    - intros _. destruct (decide (Exists (λ q, p_parent q = Some p) (ps_proc s))) as [|Hn]; [done |].
      apply not_Exists_Forall in Hn; [| intros q; apply _].
      rewrite <- (locked_table me p x s (λ q, p_parent q ≠ Some p) Hx) in Hn by done.
      apply existsb_exists in E as (q & Hq & Hc'). apply bool_decide_eq_true in Hc'.
      rewrite Forall_forall in Hn. exfalso. eapply Hn; [by apply list_elem_of_In | done].
    - intros (q & Hq & Hqp)%Exists_exists. apply not_true_iff_false in E. destruct E.
      apply list_elem_of_lookup in Hq as [i Hq]. apply existsb_exists.
      destruct (decide (i = p)) as [->|Hi]; [by destruct (pinv_not_self s p q Hs Hq) |].
      exists q. split; [apply list_elem_of_In, list_elem_of_lookup; exists i; by rewrite list_lookup_insert_ne |].
      by apply bool_decide_eq_true. }
  assert (∀ r s', wait_turn_section me p addr (wait kend me addr) s = Ret r s' → pinv s') as Hinv.
  { intros r s' E. eapply (pinv_wait kend me p addr s r s' Hs); [| exact E]. by exists (Cpu (Some p) 0 b e). }
  assert (wait_turn_section me p addr (wait kend me addr) s =
    wait_turn_section me p addr (wait_turn kend me p addr) s1) as E0.
  { unfold wait_turn_section, bind at 1 3. by rewrite (wait_enter me p x b e). }
  assert (wait_scan kend me p addr nproc 0 false s1 =
    Ret (inr (bool_decide (Exists (λ q, p_parent q = Some p) (ps_proc s)))) s1) as Escan.
  { rewrite (wait_scan_none me p (set_plock (held me) x) e s1 Hc1 Hx1); [by rewrite Ek | done | | | | done].
    - by apply (pinv_not_self s p x).
    - cbn. intros j q Hj. rewrite list_lookup_insert_ne by done. by apply (Forall_lookup_1 _ _ _ _ (pi_lock s Hs)).
    - cbn. rewrite length_insert. symmetry. apply Hs. }
  assert (relock : set_plock initlock (set_plock (held me) x) = x) by (by apply relock_id).
  set (kids := Exists _ _) in *. case_decide as Hk.
  - assert (wait_turn_section me p addr (wait kend me addr) s = Ret (inr e)
      (put_hart me (Cpu None 0 e e) (put_proc p (sleeping (ProcChan p) x) s))) as E.
    { rewrite E0. unfold wait_turn_section, wait_turn, bind. rewrite Escan. unfold gets. rewrite (proc_at_eq _ _ _ Hx1).
      destruct Hk as [Hk1 Hk2]. rewrite bool_decide_true by done. rewrite decide_False by (intros [?|Hbad]; [done | by apply Hbad]).
      rewrite (sleep_self_eq me p _ e (ProcChan p) s1 Hc1 Hx1) by done. unfold ret at 1.
      erewrite scheduler_return_eq; [| exact Hc1 | apply list_lookup_insert_eq; by eapply lookup_lt_Some | done].
      unfold ret. f_equal. unfold sleeping.
      rewrite (set_plock_restore (λ y, set_state SLEEPING (set_chan (Some (ProcChan p)) y))) by done.
      subst s1. by rewrite !put_proc_hart, !put_hart_twice, !put_proc_twice. }
    eapply wp_intro; [exact E |]. split_and!; [by eapply Hinv | done | by apply list_lookup_insert_eq | done].
  - assert (wait_turn_section me p addr (wait kend me addr) s = Ret (inl (-1))
      (put_hart me (Cpu (Some p) 0 e e) (put_proc p x s))) as E.
    { rewrite E0. unfold wait_turn_section, wait_turn, bind. rewrite Escan. unfold gets. rewrite (proc_at_eq _ _ _ Hx1).
      rewrite decide_True by (cbn; destruct (decide kids); [right; tauto | left; by rewrite bool_decide_false]).
      rewrite (unlock_self me p _ e s1 Hc1 Hx1) by done. rewrite relock. unfold ret. f_equal.
      subst s1. by rewrite !put_proc_hart, !put_hart_twice, !put_proc_twice. }
    eapply wp_intro; [exact E |]. split_and!; [by eapply Hinv | done | by apply list_lookup_insert_eq |].
    cbn. by apply list_insert_id.
Qed.

(** [wait] with a zombie child returns the pid of the first one in the
    table, frees that entry and the memory it names, and changes no other. *)
Theorem wait_reaps me p x b e j q m s :
  pinv s → ps_cpus s !! me = Some (Cpu (Some p) 0 b e) → ps_proc s !! p = Some x →
  list_find (λ q, p_parent q = Some p ∧ p_state q = ZOMBIE) (ps_proc s) = Some (j, q) →
  free_mem kend q (ps_mem s) = Ret tt m →
  wp (wait_turn_section me p 0 (wait kend me 0)) (λ r s', r = inl (p_pid q) ∧ pinv s' ∧
    ps_proc s' = <[j := freed q]> (ps_proc s) ∧ ps_mem s' = m ∧ ps_files s' = ps_files s ∧
    ps_cpus s' !! me = Some (Cpu (Some p) 0 e e)) s.
Proof.
  intros Hs Hc Hx Hf Hm. pose proof (lookup_lt_Some _ _ _ Hc). pose proof (lookup_lt_Some _ _ _ Hx).
  destruct (pinv_running s me _ p Hs Hc eq_refl) as (x' & Hx' & Hr & Hlx). simplify_eq.
  set (s1 := put_hart me (Cpu (Some p) 1 e false) (put_proc p (set_plock (held me) x) s)).
  assert (ps_cpus s1 !! me = Some (Cpu (Some p) 1 e false)) as Hc1 by (by apply list_lookup_insert_eq).
  assert (ps_proc s1 !! p = Some (set_plock (held me) x)) as Hx1 by (by apply list_lookup_insert_eq).
  pose proof Hf as (Hq & [Hqp Hqz] & Hmin)%list_find_Some.
  assert (j ≠ p) as Hjp by (intros ->; simplify_eq; congruence).
  assert (list_find (λ q, p_parent q = Some p ∧ p_state q = ZOMBIE) (drop 0 (ps_proc s1)) = Some (j, q)) as Hf1.
  { rewrite drop_0. apply list_find_Some. cbn. split_and!; [by rewrite list_lookup_insert_ne | done | done |].
    intros i y [(<- & <- & _)|[_ Hy]]%list_lookup_insert_Some Hi; [| by eapply Hmin]. cbn. by intros [_ ?]; congruence. }
  assert (wait_turn_section me p 0 (wait kend me 0) s = Ret (inl (p_pid q))
    (put_hart me (Cpu (Some p) 0 e e) (put_proc p x (put_proc j (freed q) (put_pmem m s))))) as E.
  { unfold wait_turn_section, bind at 1. rewrite (wait_enter me p x b e) by done. fold s1.
    unfold wait_turn, bind at 1.
    rewrite (wait_scan_found me p (set_plock (held me) x) e s1 Hc1 Hx1 eq_refl) with (j := j) (q := q) (m := m);
      [| by apply (pinv_not_self s p x) | | | exact Hf1 | done].
    - rewrite relock_id by done. unfold ret. f_equal. subst s1.
      rewrite put_pmem_hart, put_pmem_proc, !put_proc_hart, put_hart_twice. f_equal.
      unfold put_proc, put_procs. cbn. f_equal. rewrite (list_insert_insert_ne _ j p) by done.
      by rewrite list_insert_insert_eq.
    - cbn. intros i y Hi. rewrite list_lookup_insert_ne by done. by apply (Forall_lookup_1 _ _ _ _ (pi_lock s Hs)).
    - cbn. rewrite length_insert. symmetry. apply Hs. }
  eapply wp_intro; [exact E |]. split_and!; [done | | | done | done | by apply list_lookup_insert_eq].
  - eapply (pinv_wait kend me p 0 s); [done | by exists (Cpu (Some p) 0 b e) | exact E].
  - cbn. apply list_insert_id. by rewrite list_lookup_insert_ne.
Qed.

(** [kill(0)] finds an unused entry: entries of the table that hold no
    process have pid 0, so [kill(0)] reports success and marks the first of
    them killed; [allocproc] does not clear the mark, so a process later
    created in that entry is born killed. *)
Theorem kill_zero_poisons me c i q s :
  pinv s → ps_cpus s !! me = Some c → list_find (λ p, p_pid p = 0) (ps_proc s) = Some (i, q) →
  p_state q = UNUSED ∧
  ∃ s', kill me 0 s = Ret 0 s' ∧ pinv s' ∧ ps_proc s' !! i = Some (set_killed 1 q) ∧
  ∀ me' p r s'', runs me' p 0 s' → fork kend trampoline forkret_addr me' s' = Ret r s'' → r ≠ -1 →
    ∃ j x y, ps_proc s' !! j = Some x ∧ ps_proc s'' !! j = Some y ∧ p_pid y = r ∧ p_state y = RUNNABLE ∧
      p_killed y = p_killed x.
Proof.
  intros Hs Hc Hf. pose proof Hf as (Hq & Hq0 & _)%list_find_Some.
  assert (p_state q = UNUSED) as Hu.
  { destruct (decide (p_state q = UNUSED)) as [|Hn]; [done |]. exfalso.
    assert (n_kind (node_of q) ≠ KUnused) as Hk by (cbn; by destruct (p_state q)).
    pose proof (to_pid _ _ _ (pi_tree s Hs) i (node_of q) (node_at _ _ _ Hq) Hk). cbn in *. lia. }
  split; [done |]. destruct (kill_eq me 0 c s) as (c' & Hc' & E);
    [apply Hs | apply Hs | done | by eapply pinv_cpu_ok |].
  rewrite Hf in E. eexists. split; [exact E |].
  assert (killed_proc q = set_killed 1 q) as Ek by (unfold killed_proc; by rewrite Hu).
  rewrite Ek in *. pose proof (lookup_lt_Some _ _ _ Hq).
  match goal with |- pinv ?s1 ∧ _ => assert (pinv s1) as Hs1 by (eapply (pinv_kill me 0 s); eauto) end.
  split_and!; [done | cbn; by apply list_lookup_insert_eq |].
  intros me' p r s'' (b & e & x & Hcx & Hx & Hr & _)%runs_cpu Hfk Hr1; [| done].
  pose proof (fork_wlp kend trampoline forkret_addr me' p _ _ (pi_lock _ Hs1) (pi_len _ Hs1)
    (λ i p, pinv_unused _ i p Hs1) Hcx (pinv_cpu_ok _ me' _ Hs1 Hcx) eq_refl (pi_pid_lock _ Hs1)) as Hw.
  eapply wlp_run in Hw; [| exact Hfk]. destruct Hw as (c2 & j & y & z & np & _ & Hy & Hch & [[? _]|[[? _]|Hok]]); [done | done |].
  destruct Hok as (-> & _ & _ & Hz2 & _ & Hz4 & Hz5 & _). exists j, y, z. split_and!; try done.
  rewrite (ch_proc _ _ _ _ _ _ _ Hch). apply list_lookup_insert_eq. by eapply lookup_lt_Some.
Qed.
End Theorems.

(** ** A small machine

    Init sleeps in [wait]; process 1 runs on hart 0, with a zombie child;
    process 2, its other child, runs on hart 1 and has a child; hart 2 is
    idle.  The file layer does nothing. *)
#[local] Instance no_files : FileOps unit := {
  fo_filedup f := ret f; fo_fileclose _ := ret tt; fo_idup i := ret i; fo_iput _ := ret tt;
  fo_begin_op := ret tt; fo_end_op := ret tt; fo_namei _ := ret (Some 0%nat); fo_fsinit _ := ret tt;
}.
Definition a_proc (x : procstate) (parent : option nat) (chan : option wchan) (pid : Z) : proc :=
  Proc initlock x parent chan 0 0 pid 0 0 0 0 [] [] (Some 0%nat) [].
Definition spare_proc : proc := Proc initlock UNUSED None None 0 0 0 0 0 0 0 [] [] None [].
Definition fam_head : list proc :=
  [a_proc SLEEPING None (Some (ProcChan 0)) 1; a_proc RUNNING (Some 0%nat) None 2;
   a_proc RUNNING (Some 1%nat) None 3; a_proc ZOMBIE (Some 1%nat) None 4; a_proc RUNNABLE (Some 2%nat) None 5].
Definition fam_procs : list proc := fam_head ++ replicate 59 spare_proc.
Definition fam (c0 : cpu) (locks : gmap Z spinlock) : pst unit :=
  Pst fam_procs [c0; Cpu (Some 2%nat) 0 true true; Cpu None 0 true true] initlock 6 (Some 0%nat) locks 0
    (Pmem ∅ 0) tt false.

Lemma fam_pinv c0 locks : c_proc c0 = Some 1%nat → cpu_ok c0 → pinv (fam c0 locks).
Proof.
  intros Hp Hok. split; cbn [fam ps_proc ps_cpus ps_initproc ps_nextpid ps_pid_lock]; [done | | done | | | lia].
  - apply Forall_app. split; [repeat constructor |]. by apply Forall_replicate.
  - unfold fam_procs. rewrite fmap_app, fmap_replicate.
    assert (∀ i : nat, ((is_running <$> fam_head) ++ replicate 59 (is_running spare_proc)) !! i = Some true →
      i = 1%nat ∨ i = 2%nat) as Hrun.
    { intros i [Hi|[_ [E _]%lookup_replicate]]%lookup_app_Some; [| done].
      do 5 (destruct i as [|i]; [cbn in Hi; naive_solver |]). done. }
    split.
    + intros [|[|[|me]]] c [= <-]; cbn; repeat split; try lia; try done; [apply Hok | apply Hok | by rewrite Hp].
    + intros [|[|[|me]]] c i [= <-] Hi; cbn in Hi; rewrite ?Hp in Hi; simplify_eq; done.
    + intros i [->| ->]%Hrun; [by exists 0%nat, c0 | by exists 1%nat, (Cpu (Some 2%nat) 0 true true)].
    + intros [|[|[|me]]] [|[|[|me']]] c c' i [= <-] [= <-]; cbn; rewrite ?Hp; congruence.
  - unfold fam_procs. rewrite fmap_app, fmap_replicate.
    assert (∀ (i : nat) x, ((node_of <$> fam_head) ++ replicate 59 (node_of spare_proc)) !! i = Some x →
      n_kind x ≠ KUnused → (i < 5)%nat) as Hlive.
    { intros i x [Hi|[_ [-> _]%lookup_replicate]]%lookup_app_Some; [| done].
      apply lookup_lt_Some in Hi. done. }
    split.
    + intros i x Hx Hu. pose proof (Hlive i x Hx Hu). do 5 (destruct i as [|i]; [by cbn in Hx; simplify_eq |]). lia.
    + intros i j x y Hx Hy Hu Hv. pose proof (Hlive i x Hx Hu). pose proof (Hlive j y Hy Hv).
      do 5 (destruct i as [|i]; [do 5 (destruct j as [|j]; [by cbn in Hx, Hy; simplify_eq |]); lia |]). lia.
    + intros i x [Hi|[_ [-> _]%lookup_replicate]]%lookup_app_Some; [| done].
      do 5 (destruct i as [|i]; [by injection Hi as <- |]). done.
    + by eexists 0%nat, _.
    + intros i x Hx Hu Hi. pose proof (Hlive i x Hx Hu).
      do 5 (destruct i as [|i]; [cbn in Hx; simplify_eq; try done; by eexists _, _ |]). lia.
Qed.

Definition fam0 : pst unit := fam (Cpu (Some 1%nat) 0 true true) ∅.
(** The same with process 1 holding the lock at 7, about to sleep. *)
Definition fam1 : pst unit := fam (Cpu (Some 1%nat) 1 true false) {[7 := held 0]}.

Lemma fam0_pinv : pinv fam0.
Proof. apply fam_pinv; [done |]. split; cbn; lia. Qed.
Lemma fam1_pinv : pinv fam1.
Proof. apply fam_pinv; [done |]. split; cbn; [lia | done]. Qed.

Lemma proc_table_invariant_witness :
  ∃ s rps, rtc (pstep 0 0 0) (fam0, replicate nproc RForkret) (s, rps) ∧
  ∀ me c, ps_cpus s !! me = Some c → c_proc c = None → c_noff c = 0.
Proof.
  eassert (rtc (pstep 0 0 0) (fam0, replicate nproc RForkret) (_, _)) as Hr.
  { eapply rtc_once, (ps_yield 0 0 0 0 1); [by exists (Cpu (Some 1%nat) 0 true true) |].
    apply (yield_section 0 1 (a_proc RUNNING (Some 0%nat) None 2) true true fam0); reflexivity. }
  eexists _, _. split; [exact Hr |].
  apply (proc_table_invariant 0 0 0 fam0 (replicate nproc RForkret) _ _ fam0_pinv (length_replicate _ _) Hr).
Defined.

Lemma wakeup_exact_witness :
  wp (wakeup 0 (ProcChan 0)) (λ _ s', ps_proc s' !! 0%nat = Some (a_proc RUNNABLE None (Some (ProcChan 0)) 1)) fam0.
Proof.
  eapply wp_mono; [apply (wakeup_exact 0 (ProcChan 0) (Cpu (Some 1%nat) 0 true true) fam0 fam0_pinv); reflexivity |].
  intros _ s' (Hw & _). exact (Hw 0%nat _ eq_refl).
Defined.

Lemma exit_orderly_witness :
  ∃ s', (let! r := exit_leave 0 1 3 in scheduler_return 0 1;; ret r) fam0 = Ret true s' ∧
  (∃ x', ps_proc s' !! 1%nat = Some x' ∧ p_state x' = ZOMBIE ∧ p_xstate x' = 3).
Proof.
  destruct (exit_orderly 0 1 (a_proc RUNNING (Some 0%nat) None 2) true true 3 fam0 fam0_pinv
    eq_refl eq_refl ltac:(discriminate)) as (parent & init & s' & _ & _ & E & _ & (x' & Hx & Hz & Hst & _) & _).
  exists s'. split; [exact E |]. exists x'. split; [exact Hx |]. split; [exact Hz | exact Hst].
Defined.

Lemma wait_sleeps_witness :
  wp (wait_turn_section 1 2 0 (wait 0 1 0)) (λ r s', r = inr true) fam0.
Proof.
  eapply wp_mono.
  - apply (wait_sleeps 0 1 2 (a_proc RUNNING (Some 1%nat) None 3) true true 0 fam0 fam0_pinv); [reflexivity | reflexivity |].
    apply Forall_app. split; [| apply Forall_replicate; by intros [? ?]].
    repeat constructor; by intros [? ?].
  - intros r s' [_ Hr]. rewrite decide_True in Hr; [apply Hr |].
    split; [| reflexivity]. apply Exists_app. left. do 4 right. by left.
Defined.

Lemma wait_reaps_witness : wp (wait_turn_section 0 1 0 (wait 0 0 0)) (λ r s', r = inl 4) fam0.
Proof.
  eapply wp_mono.
  - apply (wait_reaps 0 0 1 (a_proc RUNNING (Some 0%nat) None 2) true true 3 (a_proc ZOMBIE (Some 1%nat) None 4)
      (Pmem ∅ 0) fam0 fam0_pinv); reflexivity.
  - intros r s' (-> & _). reflexivity.
Defined.

Lemma kill_zero_poisons_witness :
  ∃ s', kill 0 0 fam0 = Ret 0 s' ∧ ps_proc s' !! 5%nat = Some (set_killed 1 spare_proc).
Proof.
  destruct (kill_zero_poisons 0 0 0 0 (Cpu (Some 1%nat) 0 true true) 5 spare_proc fam0 fam0_pinv eq_refl eq_refl)
    as (_ & s' & E & _ & Hp & _).
  exists s'. split; [exact E | exact Hp].
Defined.
