(* ===== verification/SleepTheorems.v ===== *)
(** * No wakeup is lost ([sleep] and [wakeup] of [kernel/proc.c])

    [sleep] of [Proc.v] is run access by access, with any steps of the other
    harts between, up to the moment the scheduler has given the process's
    lock back.  A [wakeup] started at any of these moments either finds the
    lock [lk] still held by the sleeper, or spins on the sleeper's own lock,
    or makes the sleeper runnable. *)
From S2P Require Import Prelude Params Riscv Kalloc Vm Access Spinlock Proc ProcInv ProcProofs ProcSteps ProcTheorems.

Section Sleep.
Context {F : Type} `{FileOps F}.
Notation st := (pst F).
Implicit Types s : st.

(** ** Locks other harts may hold *)

(** A lock as hart [me] may find it: free, or held by another hart. *)
Definition free_for (me : nat) (k : spinlock) : Prop := k = initlock ∨ ∃ h, h ≠ me ∧ k = held h.

Lemma holding_held me k : holding me k = bool_decide (k = held me).
Proof.
  destruct k as [[] o]; unfold holding, held; cbn; symmetry; [| by apply bool_decide_false].
  apply bool_decide_ext. naive_solver.
Qed.

Lemma lock_busy me h i p c s :
  ps_proc s !! i = Some p → p_lock p = held h → h ≠ me → ps_cpus s !! me = Some c →
  ∃ s', lock me (LkProc i) s = Wait "spin" s'.
Proof.
  intros Hp Hl Hne Hc. unfold lock, lockop, zoom. rewrite (cpu_at_eq _ _ _ Hc). cbn [lock_of].
  rewrite (proc_at_eq _ _ _ Hp), Hl, acquire_eq, push_off_pushed, holding_held.
  rewrite bool_decide_false by (unfold held; congruence). cbn. by eexists.
Qed.

(** A lock this hart does not hold is busy or becomes its own. *)
Lemma lock_cases me l c s :
  ps_cpus s !! me = Some c → lock_of l s ≠ held me →
  (∃ s', lock me l s = Wait "spin" s') ∨
  lock me l s = Ret tt (put_lock l (held me) (put_hart me (pushed c) s)).
Proof.
  intros Hc Hl. unfold lock, lockop, zoom. rewrite (cpu_at_eq _ _ _ Hc), acquire_eq, push_off_pushed.
  rewrite holding_held, bool_decide_false by done. destruct (lk_locked _); [left; by eexists | by right].
Qed.

(** A pass over the table that comes to a taken lock spins there. *)
Lemma wakeup_spins me h i p c s chan :
  ps_proc s !! i = Some p → p_lock p = held h → h ≠ me →
  (∀ j q, ps_proc s !! j = Some q → (j < i)%nat → p_lock q = initlock) →
  ps_cpus s !! me = Some c → cpu_ok c → length (ps_proc s) = nproc →
  ∃ s', wakeup me chan s = Wait "spin" s'.
Proof.
  intros Hp Hl Hne Hfree Hc Hok Hn. unfold wakeup.
  assert (∀ k lo s c, (Z.to_nat lo ≤ i < Z.to_nat lo + k)%nat → 0 <= lo →
    ps_proc s !! i = Some p → (∀ j q, ps_proc s !! j = Some q → (j < i)%nat → p_lock q = initlock) →
    ps_cpus s !! me = Some c → cpu_ok c →
    ∃ s', mfor k lo (wakeup_step me chan) s = Wait "spin" s') as Hind.
  2:{ pose proof (lookup_lt_Some _ _ _ Hp). apply (Hind nproc 0 s c); try done; lia. }
  clear Hp Hfree Hc Hok Hn s c.
  induction k as [|k IH]; intros lo s c Hk Hlo Hp Hfree Hc Hok; [lia |]. cbn [mfor]. unfold bind at 1.
  pose proof (lookup_lt_Some _ _ _ Hp).
  destruct (decide (Z.to_nat lo = i)) as [Elo|Hlt].
  - destruct (lock_busy me h i p c s Hp Hl Hne Hc) as [s' E]. exists s'.
    unfold wakeup_step, bind. by rewrite Elo, E.
  - destruct (lookup_lt_is_Some_2 (ps_proc s) (Z.to_nat lo) ltac:(lia)) as [q Hq].
    assert (wakeup_step me chan lo s = Ret tt (put_hart me (settle c) (put_proc (Z.to_nat lo) (wake chan q) s))) as E.
    { rewrite <- (Z2Nat.id lo) at 1 by done. apply wakeup_step_eq; try done. eapply Hfree; [done | lia]. }
    rewrite E. apply (IH _ _ (settle c)); [lia | lia | cbn; by rewrite list_lookup_insert_ne | | | apply Hok].
    + cbn. intros j w [(<- & <- & _)|[_ Hw]]%list_lookup_insert_Some Hj; [rewrite wake_lock |]; by eapply Hfree.
    + cbn. apply list_lookup_insert_eq. by eapply lookup_lt_Some.
Qed.

(** What [wakeup] does when other harts hold locks of the table. *)
Lemma wakeup_outcome me chan c s :
  length (ps_proc s) = nproc → ps_cpus s !! me = Some c → cpu_ok c →
  Forall (λ q, free_for me (p_lock q)) (ps_proc s) →
  (∃ s', wakeup me chan s = Wait "spin" s' ∧ ¬ Forall (λ q, p_lock q = initlock) (ps_proc s)) ∨
  (Forall (λ q, p_lock q = initlock) (ps_proc s) ∧
   ∃ c', wakeup me chan s = Ret tt (put_hart me c' (put_procs (wake chan <$> ps_proc s) s))).
Proof.
  intros Hn Hc Hok Hf. destruct (decide (Forall (λ q, p_lock q = initlock) (ps_proc s))) as [Hall|Hnot].
  { right. split; [done |]. destruct (wakeup_eq me chan c s Hall Hc Hok Hn) as (c' & _ & E). by exists c'. }
  left. destruct (list_find (λ q, p_lock q ≠ initlock) (ps_proc s)) as [[i p]|] eqn:E.
  - apply list_find_Some in E as (Hp & Hl & Hmin).
    destruct (Forall_lookup_1 _ _ _ _ Hf Hp) as [?|(h & Hne & Eh)]; [done |].
    destruct (wakeup_spins me h i p c s chan Hp Eh Hne) as [s' Es]; try done; [| by exists s'].
    intros j q Hq Hj. destruct (decide (p_lock q = initlock)) as [?|Hnq]; [done |].
    exfalso. exact (Hmin j q Hq Hj Hnq).
  - exfalso. apply Hnot. apply list_find_None in E. eapply Forall_impl; [exact E |].
    intros q Hq. cbn in Hq. destruct (decide (p_lock q = initlock)); [done | by destruct Hq].
Qed.

(** ** A process going to sleep, with other harts running *)

(** [sleep(chan, lk)] of process [i] on hart [me], and the scheduler's
    release of the process's lock after [swtch]. *)
Definition sleep_and_leave (me i : nat) (chan : wchan) (a : Z) : code st bool :=
  let* b := sleep_code me chan (LkAddr a) in
  let* _ := act (scheduler_return me i) in
  Fin b.

(** What other harts may do: everything that does not wake process [i].
    While hart [me] runs the process they neither change that hart nor take
    or give back locks in its name. *)
Record env_step (me i : nat) (a : Z) (s s' : st) : Prop := {
  es_len : length (ps_proc s') = length (ps_proc s);
  es_proc : ∀ p, ps_proc s !! i = Some p → ∃ p', ps_proc s' !! i = Some p' ∧
    p_state p' = p_state p ∧ p_chan p' = p_chan p;
  es_hart : ∀ c, ps_cpus s !! me = Some c → c_proc c = Some i →
    ps_cpus s' !! me = Some c ∧
    (lock_of (LkProc i) s' = held me ↔ lock_of (LkProc i) s = held me) ∧
    (lock_of (LkAddr a) s' = held me ↔ lock_of (LkAddr a) s = held me);
}.

Inductive sleep_step (me i : nat) (a : Z) : code st bool * st → code st bool * st → Prop :=
| ss_own c s c' s' : tick c s = Ret c' s' → sleep_step me i a (c, s) (c', s')
| ss_other c s s' : env_step me i a s s' → sleep_step me i a (c, s) (c, s').

Section Phases.
Context (me i : nat) (chan : wchan) (a : Z).

(** What is left of the code at each access. *)
Definition leave_left (b : bool) : code st bool := Act (scheduler_return me i) (λ _, Fin b).
Definition sched_left : code st bool := Act (sched me) leave_left.
Definition state_left : code st bool := Act (upd_proc i (set_state SLEEPING)) (λ _, sched_left).
Definition chan_left : code st bool := Act (upd_proc i (set_chan (Some chan))) (λ _, state_left).
Definition unlock_left : code st bool := Act (unlock me (LkAddr a)) (λ _, chan_left).
Definition lock_left : code st bool := Act (lock me (LkProc i)) (λ _, unlock_left).

(** Process [i] on hart [me], [n] locks deep, with or without its own lock
    ([lp]) and [lk] ([la]). *)
Definition going (n : Z) (lp la : bool) (P : procstate → option wchan → Prop) (s : st) : Prop :=
  length (ps_proc s) = nproc ∧
  ∃ b p, ps_cpus s !! me = Some (Cpu (Some i) n b false) ∧ ps_proc s !! i = Some p ∧
    (p_lock p = held me ↔ lp = true) ∧ (lock_of (LkAddr a) s = held me ↔ la = true) ∧
    P (p_state p) (p_chan p).

Definition asleep (x : procstate) (w : option wchan) : Prop := x = SLEEPING ∧ w = Some chan.

Inductive phase : code st bool → st → Prop :=
| ph_start s : going 1 false true (λ _ _, True) s → phase (sleep_and_leave me i chan a) s
| ph_lock s : going 1 false true (λ _ _, True) s → phase lock_left s
| ph_unlock s : going 2 true true (λ _ _, True) s → phase unlock_left s
| ph_chan s : going 1 true false (λ _ _, True) s → phase chan_left s
| ph_state s : going 1 true false (λ _ w, w = Some chan) s → phase state_left s
| ph_sched s : going 1 true false asleep s → phase sched_left s
| ph_leave s b : going 1 true false asleep s → phase (leave_left b) s
| ph_done s b p : length (ps_proc s) = nproc → ps_proc s !! i = Some p → asleep (p_state p) (p_chan p) →
    phase (Fin b) s.

Lemma going_env n lp la P s s' : going n lp la P s → env_step me i a s s' → going n lp la P s'.
Proof.
  intros (Hn & b & p & Hc & Hp & Hl & Ha & HP) [E1 E2 E3]. split; [lia |].
  destruct (E2 p Hp) as (p' & Hp' & Es & Ew). destruct (E3 _ Hc eq_refl) as (Hc' & Ep & Ea).
  cbn [lock_of] in Ep. rewrite (proc_at_eq _ _ _ Hp), (proc_at_eq _ _ _ Hp') in Ep.
  exists b, p'. rewrite Es, Ew. split_and!; [done | done | tauto | tauto | done].
Qed.

Lemma phase_env c s s' : phase c s → env_step me i a s s' → phase c s'.
Proof.
  intros Hph He. destruct Hph as [s Hg|s Hg|s Hg|s Hg|s Hg|s Hg|s b Hg|s b p Hn Hp Hs];
    try (constructor; by eapply going_env).
  destruct He as [E1 E2 _]. destruct (E2 p Hp) as (p' & Hp' & Es & Ew).
  eapply ph_done; [lia | done | by rewrite Es, Ew].
Qed.

(** A store to the process's entry, made under its lock. *)
Lemma going_upd n lp la P Q f s :
  going n lp la P s → (∀ p, p_lock (f p) = p_lock p) →
  (∀ p, P (p_state p) (p_chan p) → Q (p_state (f p)) (p_chan (f p))) →
  ∃ s', upd_proc i f s = Ret tt s' ∧ going n lp la Q s'.
Proof.
  intros (Hn & b & p & Hc & Hp & Hl & Ha & HP) Hf HQ. pose proof (lookup_lt_Some _ _ _ Hp).
  eexists. split; [by apply upd_proc_eq |]. split; [cbn; by rewrite length_insert |].
  exists b, (f p). rewrite Hf. split_and!; [done | cbn; by apply list_lookup_insert_eq | done | done | auto].
Qed.

(** The next access of the sleeper: it spins on its own lock, which another
    hart has, or goes on to the next phase. *)
Lemma phase_tick c s :
  phase c s →
  (∃ s', tick c s = Wait "spin" s') ∨ ∃ c' s', tick c s = Ret c' s' ∧ phase c' s'.
Proof.
  intros Hph. destruct Hph as [s Hg|s Hg|s Hg|s Hg|s Hg|s Hg|s b0 Hg|s b0 p Hn Hp Hs].
  - pose proof Hg as (Hn & b & p & Hc & _). right. eexists lock_left, s. split; [| by constructor].
    cbn. unfold bind. rewrite (curproc_eq me _ i s Hc) by done. rewrite put_hart_same by done.
    rewrite decide_True by done. done.
  - destruct Hg as (Hn & b & p & Hc & Hp & Hl & Ha & _). pose proof (lookup_lt_Some _ _ _ Hp).
    pose proof (lookup_lt_Some _ _ _ Hc). cbn. unfold bind.
    destruct (lock_cases me (LkProc i) _ s Hc) as [[s' E]|E].
    { cbn [lock_of]. rewrite (proc_at_eq _ _ _ Hp). intros E. by apply Hl in E. }
    + left. exists s'. by rewrite E.
    + right. rewrite E. eexists _, _. split; [done |]. constructor. split; [cbn; by rewrite length_alter |].
      exists b, (set_plock (held me) p). cbn. rewrite list_lookup_alter_eq, Hp, list_lookup_insert_eq by done.
      split_and!; done.
  - destruct Hg as (Hn & b & p & Hc & Hp & Hl & Ha & _). pose proof (lookup_lt_Some _ _ _ Hc).
    right. cbn. unfold bind. erewrite unlock_addr by (done || naive_solver).
    eexists _, _. split; [done |]. constructor. split; [done |]. exists b, p. cbn.
    rewrite list_lookup_insert_eq, lookup_insert_eq by done. cbn. by split_and!.
  - right. cbn. unfold bind.
    destruct (going_upd 1 true false _ (λ _ w, w = Some chan) (set_chan (Some chan)) s Hg) as (s' & E & Hg'); [done.. |].
    rewrite E. eexists _, _. split; [done | by constructor].
  - right. cbn. unfold bind.
    destruct (going_upd 1 true false _ asleep (set_state SLEEPING) s Hg) as (s' & E & Hg'); [done | by split |].
    rewrite E. eexists _, _. split; [done | by constructor].
  - pose proof Hg as (Hn & b & p & Hc & Hp & Hl & Ha & Hs & _). right. cbn. unfold bind.
    erewrite sched_eq; [| done | done | by apply Hl | by rewrite Hs].
    eexists _, _. split; [done | by constructor].
  - destruct Hg as (Hn & b & p & Hc & Hp & Hl & Ha & Hs). right. cbn. unfold bind.
    pose proof (lookup_lt_Some _ _ _ Hp).
    erewrite scheduler_return_eq; [| done | done | by apply Hl].
    eexists _, _. split; [done |]. eapply ph_done; cbn; [by rewrite length_insert | by apply list_lookup_insert_eq | done].
  - right. eexists _, s. split; [done | by eapply ph_done].
Qed.

Lemma phase_reached c s c' s' :
  phase c s → rtc (sleep_step me i a) (c, s) (c', s') → phase c' s'.
Proof.
  intros Hph Hr. remember (c, s) as x eqn:Ex. remember (c', s') as y eqn:Ey. revert c s Hph Ex.
  induction Hr as [x|x [c1 s1] y Hst _ IH]; intros c s Hph ->; [by simplify_eq |].
  apply (IH Ey c1 s1); [| done]. inversion Hst; subst; [| by eapply phase_env].
  destruct (phase_tick c s Hph) as [[? E]|(c2 & s2 & E & Hph')]; congruence.
Qed.

(** Between the release of [lk] and the moment it is asleep the process has
    its own lock. *)
Lemma phase_safe c s me' c' :
  phase c s → lock_of (LkAddr a) s ≠ held me ∨ (∃ b, c = Fin b) →
  ps_cpus s !! me' = Some c' → cpu_ok c' → Forall (λ q, free_for me' (p_lock q)) (ps_proc s) →
  (∃ s2, wakeup me' chan s = Wait "spin" s2 ∧ ¬ Forall (λ q, p_lock q = initlock) (ps_proc s)) ∨
  (∃ s2 p, wakeup me' chan s = Ret tt s2 ∧ ps_proc s2 !! i = Some p ∧ p_state p = RUNNABLE).
Proof.
  intros Hph Hrel Hc Hok Hf.
  assert (length (ps_proc s) = nproc ∧ ∃ p, ps_proc s !! i = Some p ∧
    (p_lock p = initlock → asleep (p_state p) (p_chan p))) as (Hn & p & Hp & Hs).
  { destruct Hph as [s Hg|s Hg|s Hg|s Hg|s Hg|s Hg|s b0 Hg|s b0 p Hn Hp Hs]; [..| by eauto];
      destruct Hg as (Hn & b & p & _ & Hp & Hl & Ha & _);
      (split; [done |]; exists p; split; [done |]; intros E);
      try (exfalso; assert (p_lock p = held me) by (by apply Hl); rewrite E in *; discriminate);
      destruct Hrel as [Hrel|[b1 E1]]; try discriminate E1; exfalso; apply Hrel; by apply Ha. }
  destruct (wakeup_outcome me' chan c' s Hn Hc Hok Hf) as [Hw|[Hall [c2 E]]]; [by left |].
  right. destruct (Hs (Forall_lookup_1 _ _ _ _ Hall Hp)) as [H1 H2].
  exists (put_hart me' c2 (put_procs (wake chan <$> ps_proc s) s)), (set_state RUNNABLE p).
  split_and!; [exact E | | done]. cbn. rewrite list_lookup_fmap, Hp. cbn. unfold wake. by rewrite decide_True.
Qed.
End Phases.

(** C18: no wakeup is lost: let a process that holds [lk] call
    [sleep(chan, lk)], and let other harts do anything between its accesses
    that does not wake it.  Then at every moment the sleeper can go on (its
    next access returns, or spins on its own lock), and as soon as it no
    longer holds [lk], a [wakeup(chan)] on any hart that holds no process's
    lock makes it runnable, or spins because a process's lock is taken; once
    it has left its hart it is asleep on [chan].  (For a lock [lk] that is not
    the process's own, as everywhere but in [wait].) *)
Theorem sleep_no_lost_wakeup me i chan a s c1 s1 :
  pinv s → runs me i 1 s → lock_of (LkAddr a) s = held me →
  rtc (sleep_step me i a) (sleep_and_leave me i chan a, s) (c1, s1) →
  ((∃ s2, tick c1 s1 = Wait "spin" s2) ∨ (∃ c2 s2, tick c1 s1 = Ret c2 s2)) ∧
  (∀ me' c', lock_of (LkAddr a) s1 ≠ held me ∨ (∃ b, c1 = Fin b) →
     ps_cpus s1 !! me' = Some c' → cpu_ok c' → Forall (λ q, free_for me' (p_lock q)) (ps_proc s1) →
     (∃ s2, wakeup me' chan s1 = Wait "spin" s2 ∧ ¬ Forall (λ q, p_lock q = initlock) (ps_proc s1)) ∨
     (∃ s2 p, wakeup me' chan s1 = Ret tt s2 ∧ ps_proc s2 !! i = Some p ∧ p_state p = RUNNABLE)) ∧
  (∀ b, c1 = Fin b → ∃ p, ps_proc s1 !! i = Some p ∧ p_state p = SLEEPING ∧ p_chan p = Some chan).
Proof.
  intros Hs (b & p & Hc & Hp & Hr & Hl)%runs_locked Ha Hst; [| done | done].
  assert (phase me i chan a c1 s1) as Hph.
  { eapply phase_reached; [| exact Hst]. constructor. split; [apply Hs |]. exists b, p.
    rewrite Hl, Ha. split_and!; done. }
  split_and!.
  - destruct (phase_tick _ _ _ _ _ _ Hph) as [?|(c2 & s2 & E & _)]; [by left | right; by eexists _, _].
  - intros me' c' Hrel. by apply (phase_safe me i chan a c1 s1).
  - intros b' ->. inversion Hph as [| | | | | | |? ? q ? Hq [H1 H2]]; subst. by exists q.
Qed.
End Sleep.

(** Another hart takes [lk] as soon as it is free. *)
Lemma env_take_lk {F} me i a h (s : pst F) :
  h ≠ me → lock_of (LkAddr a) s ≠ held me → env_step me i a s (put_lock (LkAddr a) (held h) s).
Proof.
  intros Hh Hl. split; [done | by eauto |]. intros c Hc _. split; [done |]. split; [done |].
  cbn [lock_of] in *. cbn. rewrite lookup_insert_eq. cbn. unfold held in *. naive_solver.
Qed.

(** Process 1 of [fam1] holds the lock at 7 and goes to sleep; hart 2 takes
    that lock in between. *)
Lemma sleep_no_lost_wakeup_witness :
  ∃ b s1, rtc (sleep_step 0 1 7) (sleep_and_leave 0 1 (AddrChan 9) 7, fam1) (Fin b, s1) ∧
  lock_of (LkAddr 7) s1 = held 2 ∧
  ∃ p, ps_proc s1 !! 1%nat = Some p ∧ p_state p = SLEEPING ∧ p_chan p = Some (AddrChan 9).
Proof.
  assert (∃ b s1, rtc (sleep_step 0 1 7) (sleep_and_leave 0 1 (AddrChan 9) 7, fam1) (Fin b, s1) ∧
    lock_of (LkAddr 7) s1 = held 2) as (b & s1 & Hr & Hl).
  { eexists _, _. split.
    - do 3 (eapply rtc_l; [apply ss_own; vm_compute; reflexivity |]).
      eapply rtc_l; [apply ss_other, (env_take_lk 0 1 7 2); [done | vm_compute; discriminate] |].
      do 4 (eapply rtc_l; [apply ss_own; vm_compute; reflexivity |]). apply rtc_refl.
    - vm_compute. reflexivity. }
  exists b, s1. split; [exact Hr |]. split; [exact Hl |].
  apply (sleep_no_lost_wakeup 0 1 (AddrChan 9) 7 fam1 (Fin b) s1 fam1_pinv) with (b := b).
  - exists (Cpu (Some 1%nat) 1 true false). repeat split.
  - reflexivity.
  - exact Hr.
  - reflexivity.
Defined.
