(* ===== verification/Sysfile.v ===== *)
(** * File system calls ([kernel/sysfile.c], the argument fetching of
      [kernel/syscall.c])

    One definition per system call, with its checks in the code's order.
    The raw disk calls go below the log: they use the buffer cache through
    the [RawLayer] interface.  Diagnostics by [printf] are left out. *)
From S2P Require Import Prelude Params CString Locks Bio Log BlockLayer LogLayer Fs Dir Pipe File.
Import CString.

(** The buffer cache below the log: [bget], [virtio_disk_rw], [b->valid = 1]. *)
Class RawLayer (S : Type) := {
  rl_bget : Z → Z → M S nat;
  rl_disk_rw : nat → bool → M S unit;
  rl_set_valid : nat → M S unit;
}.
#[export] Instance lst_raw : RawLayer lst := {
  rl_bget dev b := on_bio (bget dev b);
  rl_disk_rw i write := on_bio (disk_transfer i write);
  rl_set_valid i := on_bio (modify (upd_buf i (set_valid true)));
}.

Section Calls.
Context {S U D : Type} `{BlockLayer S} `{RawLayer S} `{UserMem U} `{DevSw D U}.
Notation st := (kst S U D).

(** ** Arguments *)
Definition argraw (n : Z) : M st Z :=
  if decide (0 <= n <= 5) then gets (λ s, k_args s !!! Z.to_nat n) else panic "argraw".
Definition argint (n : Z) : M st Z := let! x := argraw n in ret (s32 (u32 x)).
Definition argaddr (n : Z) : M st Z := argraw n.

(** [fetchaddr]: the word, or [None] for -1. *)
Definition fetchaddr (addr : Z) : M st (option Z) :=
  let! sz := gets k_sz in
  if decide (addr >= sz ∨ u64 (addr + 8) > sz) then ret None
  else
    let! u := gets (λ s, fs_mem (k_fs s)) in
    let '(r, bytes) := um_copyin addr 8 u in
    if decide (r ≠ 0) then ret None else ret (Some (le_dec bytes)).
(** [fetchstr]: the string in [buf], or [None] for -1. *)
Definition fetchstr (addr : Z) (max : Z) : M st (option (list Z)) :=
  gets (λ s, um_copyinstr addr (Z.to_nat max) (fs_mem (k_fs s))).
Definition argstr (n max : Z) : M st (option (list Z)) :=
  let! addr := argaddr n in fetchstr addr max.

(** ** Descriptors *)

(** The descriptor and its file, or [None] for -1. *)
Definition argfd (n : Z) : M st (option (nat * nat)) :=
  let! fd := argint n in
  if decide (fd < 0 ∨ fd >= NOFILE) then ret None
  else
    let! o := gets k_ofile in
    match o !!! Z.to_nat fd with
    | None => ret None
    | Some f => ret (Some (Z.to_nat fd, f))
    end.

Definition fdalloc (f : nat) : M st Z :=
  let! o := gets k_ofile in
  match list_find (λ x, x = None) o with
  | Some (fd, _) => modify (put_ofile (<[fd := Some f]> o));; ret (Z.of_nat fd)
  | None => ret (-1)
  end.

Definition sys_dup : M st Z :=
  let! a := argfd 0 in
  match a with
  | None => ret (-1)
  | Some (_, f) =>
      let! fd := fdalloc f in
      if decide (fd < 0) then ret (-1) else let! _ := filedup f in ret fd
  end.

(** [f->ip->perm & mode] *)
Definition file_perm (f : nat) (mode : Z) : M st bool :=
  let! x := gets (file_at f) in
  let! ip := ip_of x in
  let! i := fsop (gets (ino ip)) in
  ret (negb (Z.land (i_perm i) mode =? 0)).

Definition sys_read : M st Z :=
  let! a := argfd 0 in
  match a with
  | None => ret (-1)
  | Some (_, f) =>
      let! n := argint 2 in
      let! p := argaddr 1 in
      let! ok := file_perm f M_READ in
      if negb ok then ret (-1) else fileread f p n
  end.

Definition sys_write : M st Z :=
  let! a := argfd 0 in
  match a with
  | None => ret (-1)
  | Some (_, f) =>
      let! n := argint 2 in
      let! p := argaddr 1 in
      let! ok := file_perm f M_WRITE in
      if negb ok then ret (-1) else filewrite f p n
  end.

Definition sys_close : M st Z :=
  let! a := argfd 0 in
  match a with
  | None => ret (-1)
  | Some (fd, f) =>
      modify (λ s, put_ofile (<[fd := None]> (k_ofile s)) s);;
      fileclose f;;
      ret 0
  end.

Definition sys_fstat (pad : list Z) : M st Z :=
  let! a := argfd 0 in
  match a with
  | None => ret (-1)
  | Some (_, f) => let! p := argaddr 1 in filestat pad f p
  end.

(** ** Links *)
Definition begin_op : M st unit := fsop (bl bl_begin_op).
Definition end_op : M st unit := fsop (bl bl_end_op).
Definition ret_end (r : Z) : M st Z := end_op;; ret r.
(** [iunlockput(ip); end_op(); return -1] *)
Definition put_end (ip : nat) : M st Z := fsop (iunlockput ip);; ret_end (-1).
(** [ip->nlink += d; iupdate(ip)] *)
Definition add_nlink (ip : nat) (d : Z) : M (fst S U) unit :=
  upd_ino ip (λ x, set_nlink (s16 (i_nlink x + d)) x);; iupdate ip.

(** The [bad] label of [sys_link]. *)
Definition link_bad (ip : nat) : M st Z :=
  fsop (ilock ip);;
  fsop (add_nlink ip (-1));;
  put_end ip.

Definition sys_link : M st Z :=
  let! old := argstr 0 MAXPATH in
  match old with None => ret (-1) | Some old =>
  let! new := argstr 1 MAXPATH in
  match new with None => ret (-1) | Some new =>
  begin_op;;
  let! ip := fsop (namei old) in
  match ip with
  | None => ret_end (-1)
  | Some ip =>
      fsop (ilock ip);;
      let! x := fsop (gets (ino ip)) in
      if decide (i_type x = T_DIR) then put_end ip
      else
        fsop (add_nlink ip 1);;
        fsop (iunlock ip);;
        let! (dp, name) := fsop (nameiparent new name0) in
        match dp with
        | None => link_bad ip
        | Some dp =>
            fsop (ilock dp);;
            let! d := fsop (gets (ino dp)) in
            let! x := fsop (gets (ino ip)) in
            let! r := if decide (i_dev d ≠ i_dev x) then ret (-1) else fsop (dirlink dp name (i_inum x)) in
            if decide (r < 0) then fsop (iunlockput dp);; link_bad ip
            else
              fsop (iunlockput dp);;
              fsop (iput ip);;
              ret_end 0
        end
  end end end.

(** *** [isdirempty] *)
Fixpoint isdirempty_loop (fuel : nat) (dp : nat) (off : Z) : M (fst S U) bool :=
  match fuel with
  | O => λ _, OutOfFuel
  | Datatypes.S fuel =>
      let! x := gets (ino dp) in
      if decide (off < i_size x) then
        let! de := read_dirent dp off in
        match de with
        | None => panic "isdirempty: readi"
        | Some de => if decide (de_inum de ≠ 0) then ret false else isdirempty_loop fuel dp (off + DIRENT_SIZE)
        end
      else ret true
  end.
Definition isdirempty (dp : nat) : M (fst S U) bool :=
  let! x := gets (ino dp) in
  isdirempty_loop (Z.to_nat (i_size x / DIRENT_SIZE) + 2) dp (2 * DIRENT_SIZE).

(** [sys_unlink] after both inodes are locked. *)
Definition unlink_entry (dp ip : nat) (off : Z) : M st Z :=
  let! r := fsop (writei dp (Kernel (replicate dirent_size 0)) off DIRENT_SIZE) in
  if decide (r ≠ DIRENT_SIZE) then panic "unlink: writei"
  else
    let! x := fsop (gets (ino ip)) in
    (if decide (i_type x = T_DIR) then fsop (add_nlink dp (-1)) else ret tt);;
    fsop (iunlockput dp);;
    fsop (add_nlink ip (-1));;
    fsop (iunlockput ip);;
    ret_end 0.

Definition sys_unlink : M st Z :=
  let! path := argstr 0 MAXPATH in
  match path with None => ret (-1) | Some path =>
  begin_op;;
  let! (dp, name) := fsop (nameiparent path name0) in
  match dp with
  | None => ret_end (-1)
  | Some dp =>
      fsop (ilock dp);;
      let! c1 := fsop (namecmp name DOT) in
      let! c2 := fsop (if decide (c1 = 0) then ret 0 else namecmp name DOTDOT) in
      if decide (c1 = 0 ∨ c2 = 0) then put_end dp
      else
        let! e := fsop (dirlookup dp name) in
        match e with
        | None => put_end dp
        | Some (ip, off) =>
            fsop (ilock ip);;
            let! x := fsop (gets (ino ip)) in
            if decide (i_nlink x < 1) then panic "unlink: nlink < 1"
            else
              let! full := fsop (if decide (i_type x = T_DIR) then let! b := isdirempty ip in ret (negb b) else ret false) in
              if full : bool then fsop (iunlockput ip);; put_end dp
              else unlink_entry dp ip off
        end
  end end.

(** ** Creating files *)
Definition create_new (dp : nat) (name : list Z) (type major minor : Z) : M (fst S U) (option nat) :=
  let! d := gets (ino dp) in
  let! ip := ialloc (i_dev d) type in
  ilock ip;;
  upd_ino ip (λ x, set_nlink 1 (set_device (s16 major) (s16 minor) x));;
  iupdate ip;;
  let! x := gets (ino ip) in
  (if decide (type = T_DIR) then
     add_nlink dp 1;;
     let! r1 := dirlink ip DOT (i_inum x) in
     let! d := gets (ino dp) in
     let! r2 := if decide (r1 < 0) then ret (-1) else dirlink ip DOTDOT (i_inum d) in
     if decide (r2 < 0) then panic "create dots" else ret tt
   else ret tt);;
  let! r := dirlink dp name (i_inum x) in
  if decide (r < 0) then panic "create: dirlink"
  else iunlockput dp;; ret (Some ip).

Definition create (path : list Z) (type major minor : Z) : M (fst S U) (option nat) :=
  let! (dp, name) := nameiparent path name0 in
  match dp with
  | None => ret None
  | Some dp =>
      ilock dp;;
      let! e := dirlookup dp name in
      match e with
      | Some (ip, _) =>
          iunlockput dp;;
          ilock ip;;
          let! x := gets (ino ip) in
          if decide (type = T_FILE ∧ (i_type x = T_FILE ∨ i_type x = T_DEVICE)) then ret (Some ip)
          else iunlockput ip;; ret None
      | None => create_new dp name type major minor
      end
  end.

(** What [sys_open] stores in the new file, and the rest of the call. *)
Definition open_file_setup (f ip : nat) (omode : Z) : M st unit :=
  let! x := fsop (gets (ino ip)) in
  (if decide (i_type x = T_DEVICE)
   then upd_file f (λ y, set_fmajor (i_major x) (set_ftype FD_DEVICE y))
   else upd_file f (λ y, set_foff 0 (set_ftype FD_INODE y)));;
  upd_file f (set_fip (Some ip));;
  upd_file f (set_frw (Z.land omode O_WRONLY =? 0)
                      (negb (Z.land omode O_WRONLY =? 0) || negb (Z.land omode O_RDWR =? 0)));;
  if decide (Z.land omode O_TRUNC ≠ 0 ∧ i_type x = T_FILE) then fsop (itrunc ip) else ret tt.

Definition open_inode (ip : nat) (omode : Z) : M st Z :=
  let! x := fsop (gets (ino ip)) in
  if decide (i_type x = T_DEVICE ∧ (i_major x < 0 ∨ i_major x >= NDEV)) then put_end ip
  else
    let! f := filealloc in
    match f with
    | None => put_end ip
    | Some f =>
        let! fd := fdalloc f in
        if decide (fd < 0) then fileclose f;; put_end ip
        else
          open_file_setup f ip omode;;
          fsop (iunlock ip);;
          ret_end fd
    end.

Definition sys_open : M st Z :=
  let! path := argstr 0 MAXPATH in
  match path with None => ret (-1) | Some path =>
  let! omode := argint 1 in
  begin_op;;
  if decide (Z.land omode O_CREATE ≠ 0) then
    let! ip := fsop (create path T_FILE 0 0) in
    match ip with None => ret_end (-1) | Some ip => open_inode ip omode end
  else
    let! ip := fsop (namei path) in
    match ip with
    | None => ret_end (-1)
    | Some ip =>
        fsop (ilock ip);;
        let! x := fsop (gets (ino ip)) in
        if decide (i_type x = T_DIR ∧ omode ≠ O_RDONLY) then put_end ip
        else open_inode ip omode
    end
  end.

Definition sys_mkdir : M st Z :=
  begin_op;;
  let! path := argstr 0 MAXPATH in
  match path with None => ret_end (-1) | Some path =>
  let! ip := fsop (create path T_DIR 0 0) in
  match ip with
  | None => ret_end (-1)
  | Some ip => fsop (iunlockput ip);; ret_end 0
  end end.

Definition sys_mknod : M st Z :=
  begin_op;;
  let! path := argstr 0 MAXPATH in
  match path with None => ret_end (-1) | Some path =>
  let! major := argint 1 in
  let! minor := argint 2 in
  let! ip := fsop (create path T_DEVICE major minor) in
  match ip with
  | None => ret_end (-1)
  | Some ip => fsop (iunlockput ip);; ret_end 0
  end end.

Definition sys_chdir : M st Z :=
  begin_op;;
  let! path := argstr 0 MAXPATH in
  match path with None => ret_end (-1) | Some path =>
  let! ip := fsop (namei path) in
  match ip with
  | None => ret_end (-1)
  | Some ip =>
      fsop (ilock ip);;
      let! x := fsop (gets (ino ip)) in
      if decide (i_type x ≠ T_DIR) then put_end ip
      else
        fsop (iunlock ip);;
        let! cwd := fsop (gets fs_cwd) in
        fsop (iput cwd);;
        end_op;;
        fsop (modify (λ s, Fst (fs_bl s) (fs_sb s) (fs_icache s) ip (fs_mem s)));;
        ret 0
  end end.

Definition sys_symlink : M st Z :=
  let! target := argstr 0 MAXPATH in
  match target with None => ret (-1) | Some target =>
  let! path := argstr 1 MAXPATH in
  match path with None => ret (-1) | Some path =>
  begin_op;;
  let! ip := fsop (create path T_SYMLINK 0 0) in
  match ip with
  | None => ret_end (-1)
  | Some ip =>
      let n := Z.of_nat (length target) in
      let! r := fsop (writei ip (Kernel target) 0 n) in
      if decide (r ≠ n) then put_end ip
      else fsop (iunlockput ip);; ret_end 0
  end end end.

(** [fuel] bounds [chperm]'s recursion. *)
Definition sys_chmod (fuel : nat) : M st Z :=
  let! path := argstr 0 MAXPATH in
  match path with None => ret (-1) | Some path =>
  let! mode := argint 1 in
  let! is_add := argint 2 in
  let! recursive := argint 3 in
  fsop (chperm fuel path mode (negb (is_add =? 0)) (negb (recursive =? 0)))
  end.

(** ** Pipes *)
Definition clear_fd (fd : Z) : M st unit := modify (λ s, put_ofile (<[Z.to_nat fd := None]> (k_ofile s)) s).

Definition sys_pipe : M st Z :=
  let! fdarray := argaddr 0 in
  let! p := pipealloc in
  match p with
  | None => ret (-1)
  | Some (rf, wf) =>
      let! fd0 := fdalloc rf in
      let! fd1 := if decide (fd0 < 0) then ret (-1) else fdalloc wf in
      if decide (fd0 < 0 ∨ fd1 < 0) then
        (if decide (fd0 >= 0) then clear_fd fd0 else ret tt);;
        fileclose rf;;
        fileclose wf;;
        ret (-1)
      else
        let! r0 := copy_to_user fdarray (le_enc 4 fd0) in
        let! r1 := if decide (r0 < 0) then ret (-1) else copy_to_user (u64 (fdarray + 4)) (le_enc 4 fd1) in
        if decide (r0 < 0 ∨ r1 < 0) then
          clear_fd fd0;;
          clear_fd fd1;;
          fileclose rf;;
          fileclose wf;;
          ret (-1)
        else ret 0
  end.

(** ** The argument vector of [sys_exec] *)
(** Free the pages of the strings fetched so far. *)
Definition free_argv (argv : list (Z * list Z)) : M st unit :=
  modify (λ s, put_pages (reverse (argv.*1) ++ k_pages s) s).
(** [argv[i..]]: page and string of each argument, or [None] after the
    [bad] label. *)
Fixpoint fetch_argv (k : nat) (uargv : Z) (argv : list (Z * list Z)) : M st (option (list (Z * list Z))) :=
  match k with
  | O => free_argv argv;; ret None
  | Datatypes.S k =>
      let! uarg := fetchaddr (u64 (uargv + 8 * Z.of_nat (length argv))) in
      match uarg with
      | None => free_argv argv;; ret None
      | Some uarg =>
          if decide (uarg = 0) then ret (Some argv)
          else
            let! page := pipe_page in
            if decide (page = 0) then free_argv argv;; ret None
            else
              let! str := fetchstr uarg 4096 in
              match str with
              | None => free_argv (argv ++ [(page, [])]);; ret None
              | Some str => fetch_argv k uargv (argv ++ [(page, str)])
              end
      end
  end.

(** [exec] itself is an argument: it works on the process's image, which is
    not part of this state (see [Exec.v]). *)
Definition sys_exec (exec : list Z → list (list Z) → M st Z) : M st Z :=
  let! path := argstr 0 MAXPATH in
  match path with None => ret (-1) | Some path =>
  let! uargv := argaddr 1 in
  let! r := fetch_argv MAXARG uargv [] in
  match r with
  | None => ret (-1)
  | Some argv =>
      let! r := exec path (argv.*2) in
      free_argv argv;;
      ret r
  end
  end.

(** ** The disk behind the log's back *)
Definition rawop {A} (m : M S A) : M st A := fsop (bl m).

Definition sys_raw_read : M st Z :=
  let! pbn := argint 0 in
  let! user_buf_addr := argaddr 1 in
  if decide (pbn < 0 ∨ pbn >= FSSIZE) then ret (-1)
  else
    let! b := rawop (rl_bget ROOTDEV pbn) in
    rawop (rl_disk_rw b false);;
    let! d := fsop (buf_data b) in
    let! r := copy_to_user user_buf_addr d in
    fsop (brelse b);;
    ret (if decide (r < 0) then -1 else 0).

Definition sys_get_disk_lbn : M st Z :=
  let! a := argfd 0 in
  match a with
  | None => ret (-1)
  | Some (_, f) =>
      let! file_lbn := argint 1 in
      let! x := gets (file_at f) in
      if negb (f_readable x) then ret (-1)
      else
        let! ip := ip_of x in
        fsop (ilock ip);;
        let! disk_lbn := fsop (bmap ip (u32 file_lbn)) in
        fsop (iunlock ip);;
        ret disk_lbn
  end.

Definition sys_raw_write : M st Z :=
  let! pbn := argint 0 in
  let! user_buf_addr := argaddr 1 in
  if decide (pbn < 0 ∨ pbn >= FSSIZE) then ret (-1)
  else
    let! b := rawop (rl_bget ROOTDEV pbn) in
    let! u := gets (λ s, fs_mem (k_fs s)) in
    let! d := fsop (buf_data b) in
    let '(r, bytes) := um_copyin user_buf_addr bsize u in
    fsop (set_data b (splice 0 bytes d));;
    if decide (r < 0) then fsop (brelse b);; ret (-1)
    else
      rawop (rl_set_valid b);;
      rawop (rl_disk_rw b true);;
      fsop (brelse b);;
      ret 0.
End Calls.
