(* ===== verification/FileTable.v ===== *)
(** * Descriptors and reference counts

    What the system calls do to the descriptors of a process and to the
    reference counts of the file table.  Everything else of a call keeps
    that view of the state ([quietly]). *)
From S2P Require Import Prelude Params CString Locks BlockLayer Fs Dir Image Pipe File Sysfile.

Create HintDb fview.

Section View.
Context {S U D : Type} `{BlockLayer S} `{RawLayer S} `{UserMem U} `{DevSw D U}.
Notation st := (kst S U D).
Implicit Types s : st.

(** The reference counts and the descriptors. *)
Definition view (s : st) : list Z * list (option nat) := (f_ref <$> k_ftable s, k_ofile s).

Definition quietly {A} (m : M st A) : Prop := ∀ s, wlp m (λ _ s', view s' = view s) s.

Lemma quietly_ret {A} (a : A) : quietly (ret a).
Proof. by intros s. Qed.
Lemma quietly_gets {A} (f : st → A) : quietly (gets f).
Proof. by intros s. Qed.
Lemma quietly_panic {A} msg : quietly (A := A) (panic msg).
Proof. by intros s. Qed.
Lemma quietly_bind {A B} (m : M st A) (k : A → M st B) :
  quietly m → (∀ a, quietly (k a)) → quietly (bind m k).
Proof.
  intros Hm Hk s. apply wlp_bind. eapply wlp_mono; [apply Hm |]. intros a s1 E1.
  eapply wlp_mono; [apply Hk |]. intros b s2 E2. cbn in *. congruence.
Qed.
Lemma quietly_fsop {A} (m : M (fst S U) A) : quietly (fsop m).
Proof. intros s. apply wlp_zoom. done. Qed.
Lemma quietly_oob {A} (o : option A) : quietly (some_or_oob o).
Proof. destruct o; by intros s. Qed.
Lemma quietly_modify (f : st → st) : (∀ s, view (f s) = view s) → quietly (modify f).
Proof. intros Hf s. apply wlp_modify, Hf. Qed.
Lemma quietly_upd_file f g : (∀ x, f_ref (g x) = f_ref x) → quietly (upd_file f g).
Proof.
  intros Hg. apply quietly_modify. intros s. unfold view, put_ftable. cbn. f_equal.
  apply list_eq. intros i. rewrite !list_lookup_fmap. destruct (decide (i = f)) as [->|Hi].
  - rewrite list_lookup_alter_eq. destruct (k_ftable s !! f); [cbn; by rewrite Hg | done].
  - by rewrite list_lookup_alter_ne.
Qed.
Lemma quietly_copy addr data : quietly (copy_to_user addr data).
Proof. intros s. unfold wlp, copy_to_user. by destruct (um_copyout _ _ _). Qed.
Lemma quietly_pipe pi op : quietly (pipe_section pi op).
Proof.
  intros s. unfold wlp, pipe_section. destruct (k_pipes s !! pi); [| done].
  destruct (op _ _) as [[o q] u]. by destruct o.
Qed.
Lemma quietly_dev op addr n : quietly (dev_call op addr n).
Proof. intros s. apply wlp_zoom. by intros a [d u]. Qed.
Lemma quietly_close_pipe pi w : quietly (close_pipe pi w).
Proof.
  intros s. unfold close_pipe. apply wlp_bind, wlp_gets. destruct (k_pipes s !! pi); [| done].
  destruct (pipeclose w _) as [[q c] []]; by apply wlp_modify.
Qed.
End View.

#[export] Hint Resolve quietly_ret quietly_gets quietly_panic quietly_fsop quietly_oob quietly_upd_file
  quietly_copy quietly_pipe quietly_dev quietly_close_pipe : fview.
#[export] Hint Extern 1 (quietly oob) => apply quietly_panic : fview.

(** Walk through a computation that keeps the view. *)
Ltac quiet_step :=
  lazymatch goal with
  | |- quietly (bind _ _) => apply quietly_bind; [| intros ?]
  | |- quietly (match ?x with _ => _ end) => destruct x
  | |- quietly _ => first [solve [eauto with fview] | progress cbv beta zeta]
  end.
Ltac quiet_all := repeat quiet_step.

Section Calls.
Context {S U D : Type} `{BlockLayer S} `{RawLayer S} `{UserMem U} `{DevSw D U}.
Notation st := (kst S U D).
Implicit Types s : st.

Lemma quietly_argint n : quietly (D := D) (U := U) (S := S) (argint n).
Proof. unfold argint, argraw. quiet_all. Qed.
Lemma quietly_argaddr n : quietly (D := D) (U := U) (S := S) (argaddr n).
Proof. unfold argaddr, argraw. quiet_all. Qed.
Lemma quietly_ip x : quietly (D := D) (U := U) (S := S) (ip_of x).
Proof. unfold ip_of. quiet_all. Qed.
Hint Resolve quietly_argint quietly_argaddr quietly_ip : fview.
Lemma quietly_argfd n : quietly (D := D) (U := U) (S := S) (argfd n).
Proof. unfold argfd. quiet_all. Qed.
Lemma quietly_perm f mode : quietly (D := D) (U := U) (S := S) (file_perm f mode).
Proof. unfold file_perm. quiet_all. Qed.
Hint Resolve quietly_argfd quietly_perm : fview.

Lemma quietly_filewrite_loop k f ip addr n i : quietly (D := D) (U := U) (S := S) (filewrite_loop k f ip addr n i).
Proof. revert i. induction k as [|k IH]; intros i; cbn [filewrite_loop]; case_decide; quiet_all; by intros s. Qed.
Hint Resolve quietly_filewrite_loop : fview.

Lemma quietly_fileread f addr n : quietly (D := D) (U := U) (S := S) (fileread f addr n).
Proof. unfold fileread. quiet_all. Qed.
Lemma quietly_filewrite f addr n : quietly (D := D) (U := U) (S := S) (filewrite f addr n).
Proof. unfold filewrite. quiet_all. Qed.
Lemma quietly_filestat pad f addr : quietly (D := D) (U := U) (S := S) (filestat pad f addr).
Proof. unfold filestat. quiet_all. Qed.
Hint Resolve quietly_fileread quietly_filewrite quietly_filestat : fview.

Lemma quietly_read : quietly (D := D) (U := U) (S := S) sys_read.
Proof. unfold sys_read. quiet_all. Qed.
Lemma quietly_write : quietly (D := D) (U := U) (S := S) sys_write.
Proof. unfold sys_write. quiet_all. Qed.
Lemma quietly_fstat pad : quietly (D := D) (U := U) (S := S) (sys_fstat pad).
Proof. unfold sys_fstat. quiet_all. Qed.
End Calls.
#[export] Hint Resolve quietly_argint quietly_argaddr quietly_ip quietly_argfd quietly_perm : fview.

(** ** Counting descriptors *)
Definition refs_to (f : nat) (o : list (option nat)) : Z := Z.of_nat (length (filter (λ x, x = Some f) o)).
Definition one_if (P : Prop) `{Decision P} : Z := if decide P then 1 else 0.

Lemma refs_to_insert f o fd x y :
  o !! fd = Some x → refs_to f (<[fd := y]> o) = refs_to f o - one_if (x = Some f) + one_if (y = Some f).
Proof.
  intros Hx. unfold refs_to, one_if. rewrite <- (take_drop_middle o fd x) at 2 by done.
  rewrite insert_take_drop by (by eapply lookup_lt_Some).
  rewrite !filter_app, !filter_cons. repeat case_decide; rewrite !length_app; cbn; lia.
Qed.

Lemma refs_to_pos f o fd : o !! fd = Some (Some f) → 0 < refs_to f o.
Proof.
  intros Hfd. unfold refs_to. destruct (filter _ o) as [|y l] eqn:E; [| cbn; lia]. exfalso.
  assert (Some f ∈ filter (λ x, x = Some f) o) as Hin by (apply list_elem_of_filter; split; [done |]; by eapply list_elem_of_lookup_2).
  rewrite E in Hin. by apply not_elem_of_nil in Hin.
Qed.

Lemma refs_to_nonneg f o : 0 <= refs_to f o.
Proof. unfold refs_to. lia. Qed.

(** [ext f] references to file [f] are held by other processes; the others
    are the descriptors of this one. *)
Record counted (ext : nat → Z) (v : list Z * list (option nat)) : Prop := {
  ct_nfile : length v.1 = nfile;
  ct_nofile : length v.2 = nofile;
  ct_ext : ∀ f, 0 <= ext f;
  ct_ref : ∀ f r, v.1 !! f = Some r → r = ext f + refs_to f v.2;
  ct_fd : ∀ fd f, v.2 !! fd = Some (Some f) → (f < nfile)%nat;
}.

(** A descriptor takes over a reference: the count of [g] goes to [r]. *)
Lemma counted_set ext v fd x y g r r0 :
  counted ext v → v.2 !! fd = Some x → v.1 !! g = Some r0 →
  (y = None ∨ y = Some g) → (x = None ∨ x = Some g) →
  r = r0 - one_if (x = Some g) + one_if (y = Some g) →
  counted ext (<[g := r]> v.1, <[fd := y]> v.2).
Proof.
  intros [H1 H2 H3 H4 H5] Hx Hg Hy Hxg ->. pose proof (lookup_lt_Some _ _ _ Hg).
  split; cbn; rewrite ?length_insert; try done.
  - intros f r [(<- & <- & _)|[Hf Hr]]%list_lookup_insert_Some.
    + rewrite (refs_to_insert _ _ _ x) by done. rewrite (H4 g r0 Hg). lia.
    + rewrite (refs_to_insert _ _ _ x) by done. rewrite (H4 f r Hr). unfold one_if.
      rewrite !decide_False; [lia | naive_solver | naive_solver].
  - intros fd' f [(<- & -> & _)|[_ Hf]]%list_lookup_insert_Some; [| by eapply H5].
    destruct Hy as [|[= ->]]; [done |]. lia.
Qed.

Section Counts.
Context {S U D : Type} `{BlockLayer S} `{RawLayer S} `{UserMem U} `{DevSw D U}.
Notation st := (kst S U D).
Implicit Types s : st.

Lemma refs_at s f r : (view s).1 !! f = Some r → ∃ x, k_ftable s !! f = Some x ∧ f_ref x = r ∧ file_at f s = x.
Proof.
  intros (x & -> & Hx)%list_lookup_fmap_Some_1. exists x. split_and!; [done | done |].
  by apply list_lookup_total_correct.
Qed.

Lemma view_upd_ref s f x g r :
  k_ftable s !! f = Some x → (f_ref (g x) = r) →
  view (put_ftable (alter g f (k_ftable s)) s) = (<[f := r]> (view s).1, (view s).2).
Proof.
  intros Hx <-. unfold view. cbn. by rewrite (alter_to_insert g f _ x), list_fmap_insert.
Qed.

(** A free file of the table, referenced once. *)
Lemma filealloc_view s :
  wp filealloc (λ r s', match r with
    | None => s' = s ∧ Forall (λ x, x ≠ 0) (view s).1
    | Some f => (view s).1 !! f = Some 0 ∧ view s' = (<[f := 1]> (view s).1, (view s).2)
    end) s.
Proof.
  unfold filealloc. apply wp_bind, wp_gets. destruct (list_find _ _) as [[f x]|] eqn:E.
  - apply list_find_Some in E as (Hx & Hr & _). apply wp_bind, wp_modify, wp_ret. split.
    + cbn. by rewrite list_lookup_fmap, Hx, <- Hr.
    + by apply (view_upd_ref s f x).
  - apply wp_ret. split; [done |]. cbn. apply Forall_fmap. by apply list_find_None in E.
Qed.

Lemma filedup_view s f r :
  (view s).1 !! f = Some r → 1 <= r →
  wp (filedup f) (λ g s', g = f ∧ view s' = (<[f := r + 1]> (view s).1, (view s).2)) s.
Proof.
  intros (x & Hx & Hr & Hf)%refs_at Hpos. unfold filedup. apply wp_bind, wp_gets. rewrite Hf.
  rewrite decide_False by lia. apply wp_bind, wp_modify, wp_ret. split; [done |].
  apply (view_upd_ref s f x); [done | by rewrite Hr].
Qed.

Lemma fileclose_view s f r :
  (view s).1 !! f = Some r → 1 <= r →
  wlp (fileclose f) (λ _ s', view s' = (<[f := r - 1]> (view s).1, (view s).2)) s.
Proof.
  intros (x & Hx & Hr & Hf)%refs_at Hpos. pose proof (lookup_lt_Some _ _ _ Hx).
  unfold fileclose. apply wlp_bind, wlp_gets. rewrite Hf, decide_False by lia.
  apply wlp_bind, wlp_modify. set (s1 := put_ftable _ s).
  assert (view s1 = (<[f := r - 1]> (view s).1, (view s).2)) as E1
    by (apply (view_upd_ref s f x); [done | by rewrite Hr]).
  case_decide as Hd; [done |]. apply wlp_bind, wlp_modify. set (s2 := put_ftable _ s1).
  assert (view s2 = (<[f := r - 1]> (view s).1, (view s).2)) as E2.
  { assert (k_ftable s1 !! f = Some (set_fref (f_ref x - 1) x)) as Hx1.
    { cbn. by rewrite list_lookup_alter_eq, Hx. }
    unfold s2. rewrite (view_upd_ref s1 f _ _ 0 Hx1) by done. rewrite E1. cbn. rewrite list_insert_insert_eq.
    by replace (r - 1) with 0 by lia. }
  rewrite <- E2. destruct (f_type x); [done | apply quietly_close_pipe | |].
  all: match goal with |- wlp ?m _ _ => assert (quietly m) as Hq by quiet_all end; apply Hq.
Qed.

Lemma fdalloc_view s f :
  wp (fdalloc f) (λ r s', (r = -1 ∧ s' = s ∧ Forall (λ x, x ≠ None) (view s).2) ∨
    ∃ fd : nat, r = Z.of_nat fd ∧ (view s).2 !! fd = Some None ∧
      (∀ k x, (k < fd)%nat → (view s).2 !! k = Some x → x ≠ None) ∧
      s' = put_ofile (<[fd := Some f]> (k_ofile s)) s) s.
Proof.
  unfold fdalloc. apply wp_bind, wp_gets. destruct (list_find _ _) as [[fd x]|] eqn:E.
  - apply list_find_Some in E as (Hx & -> & Hmin). apply wp_bind, wp_modify, wp_ret. right. exists fd.
    split_and!; try done. intros k x Hk Hkx. by eapply Hmin.
  - apply wp_ret. left. split_and!; [done | done |]. by apply list_find_None in E.
Qed.

Lemma quiet_then {A} (m : M st A) (Q : A → st → Prop) s :
  quietly m → (∀ a s', view s' = view s → Q a s') → wlp m Q s.
Proof. intros Hm HQ. eapply wlp_mono; [apply Hm |]. exact HQ. Qed.

Lemma insert_back (l : list Z) f r r' : l !! f = Some r → <[f := r]> (<[f := r']> l) = l.
Proof. intros Hr. rewrite list_insert_insert_eq. by apply list_insert_id. Qed.

(** [pipealloc] takes two free files, or leaves the counts alone. *)
Lemma pipealloc_view s :
  wlp pipealloc (λ r s', match r with
    | None => view s' = view s
    | Some (a, b) => a ≠ b ∧ (view s).1 !! a = Some 0 ∧ (view s).1 !! b = Some 0 ∧
        view s' = (<[b := 1]> (<[a := 1]> (view s).1), (view s).2)
    end) s.
Proof.
  unfold pipealloc. apply wlp_bind. eapply wlp_mono; [apply wp_wlp, filealloc_view |].
  intros [a|] s1; [| intros [-> _]; by do 3 apply wlp_bind, wlp_ret]. intros [Ha E1].
  pose proof (lookup_lt_Some _ _ _ Ha) as Hlt.
  apply wlp_bind. eapply wlp_mono; [apply wp_wlp, filealloc_view |]. intros [b|] s2.
  2:{ intros [-> _]. apply wlp_bind. cbn [close_opt]. eapply wlp_mono.
    { apply (fileclose_view s1 a 1); [rewrite E1; by apply list_lookup_insert_eq | lia]. }
    intros [] s3 E3. apply wlp_bind, wlp_ret, wlp_ret. rewrite E3, E1. cbn. by rewrite insert_back. }
  intros [Hb E2]. rewrite E1 in Hb. cbn in Hb.
  apply list_lookup_insert_Some in Hb as [(? & ? & _)|[Hab Hb]]; [done |].
  assert (view s2 = (<[b := 1]> (<[a := 1]> (view s).1), (view s).2)) as Ev by (by rewrite E2, E1).
  apply wlp_bind. apply quiet_then; [unfold pipe_page; quiet_all; by apply quietly_modify |]. intros pi s3 E3.
  case_decide as Hpi.
  - apply wlp_bind. eapply wlp_mono.
    { apply (fileclose_view s3 a 1); [| lia]. rewrite E3, Ev. cbn. rewrite list_lookup_insert_ne by done.
      by apply list_lookup_insert_eq. }
    intros [] s4 E4. apply wlp_bind. pose proof (lookup_lt_Some _ _ _ Hb). eapply wlp_mono.
    { apply (fileclose_view s4 b 1); [| lia]. rewrite E4, E3, Ev. cbn.
      rewrite list_lookup_insert_ne by done. apply list_lookup_insert_eq. by rewrite length_insert. }
    intros [] s5 E5. apply wlp_ret. rewrite E5, E4, E3, Ev. cbn.
    rewrite (list_insert_insert_ne _ a b) by done. rewrite (insert_back _ a) by done. by rewrite insert_back.
  - apply wlp_bind, wlp_modify. apply wlp_bind, quiet_then; [by apply quietly_upd_file |]. intros [] s4 E4.
    apply wlp_bind, quiet_then; [by apply quietly_upd_file |]. intros [] s5 E5. apply wlp_ret.
    split_and!; [done | done | done |]. rewrite E5, E4. by rewrite <- Ev, <- E3.
Qed.

(** ** The calls *)
Lemma counted_pos ext v fd f :
  counted ext v → v.2 !! fd = Some (Some f) → ∃ r, v.1 !! f = Some r ∧ 1 <= r.
Proof.
  intros Hv Hfd. pose proof (ct_fd _ _ Hv fd f Hfd) as Hlt.
  destruct (lookup_lt_is_Some_2 v.1 f) as [r Hr]; [by rewrite (ct_nfile _ _ Hv) |]. exists r. split; [done |].
  rewrite (ct_ref _ _ Hv f r Hr). pose proof (ct_ext _ _ Hv f). pose proof (refs_to_pos f v.2 fd Hfd). lia.
Qed.

(** The descriptor argument of a call, and its file. *)
Definition fd_arg (n : Z) (s : st) : option (nat * nat) :=
  let fd := s32 (u32 (k_args s !!! Z.to_nat n)) in
  if decide (fd < 0 ∨ fd >= NOFILE) then None
  else match k_ofile s !! Z.to_nat fd with Some (Some f) => Some (Z.to_nat fd, f) | _ => None end.

Lemma argfd_eq ext n s : 0 <= n <= 5 → counted ext (view s) → argfd n s = Ret (fd_arg n s) s.
Proof.
  intros Hn Hv. unfold argfd, argint, argraw, fd_arg, bind. rewrite decide_True by done. unfold gets, ret.
  case_decide as Hd; [done |]. assert (Z.to_nat (s32 (u32 (k_args s !!! Z.to_nat n))) < nofile)%nat as Hlt.
  { unfold nofile, NOFILE in *. lia. }
  rewrite <- (ct_nofile _ _ Hv) in Hlt. cbn in Hlt. apply lookup_lt_is_Some_2 in Hlt as [x Hx].
  rewrite Hx. rewrite (list_lookup_total_correct _ _ _ Hx). by destruct x.
Qed.

Lemma fd_arg_open n s fd f : fd_arg n s = Some (fd, f) → (view s).2 !! fd = Some (Some f).
Proof.
  unfold fd_arg. case_decide; [done |]. destruct (k_ofile s !! _) as [[g|]|] eqn:E; intros; simplify_eq. done.
Qed.

(** [dup] returns, and installs the file at the lowest free descriptor
    with one more reference; with no descriptor free, or a bad argument, it
    returns -1 and changes nothing. *)
Theorem sys_dup_correct ext s :
  counted ext (view s) →
  wp sys_dup (λ r s', counted ext (view s') ∧
    match fd_arg 0 s, list_find (λ x, x = None) (k_ofile s) with
    | Some (_, f), Some (fd, _) => r = Z.of_nat fd ∧ k_ofile s' = <[fd := Some f]> (k_ofile s) ∧
        ∃ c, (view s).1 !! f = Some c ∧ (view s').1 = <[f := c + 1]> (view s).1
    | _, _ => r = -1 ∧ s' = s
    end) s.
Proof.
  intros Hv. unfold sys_dup. apply wp_bind. eapply wp_intro; [by apply (argfd_eq ext) |].
  destruct (fd_arg 0 s) as [[fd0 f]|] eqn:Ea; [| by apply wp_ret]. apply fd_arg_open in Ea.
  destruct (counted_pos ext _ fd0 f Hv Ea) as (c & Hc & Hpos).
  apply wp_bind. unfold fdalloc. apply wp_bind, wp_gets. destruct (list_find _ _) as [[fd x]|] eqn:E.
  - apply list_find_Some in E as (Hx & -> & _). apply wp_bind, wp_modify, wp_ret.
    rewrite decide_False by lia. apply wp_bind. eapply wp_mono; [by apply (filedup_view _ f c) |].
    intros g s' [-> E']. apply wp_ret. split_and!; [| done | by injection E' | exists c; split; [done | by rewrite E']].
    rewrite E'. cbn. eapply (counted_set ext (view s)); [done | done | done | by right | by left |].
    unfold one_if. rewrite decide_False, decide_True by done. lia.
  - apply wp_ret. rewrite decide_True by lia. by apply wp_ret.
Qed.

(** [close] takes the descriptor and its reference away. *)
Lemma sys_close_counted ext s :
  counted ext (view s) → wlp sys_close (λ _ s', counted ext (view s')) s.
Proof.
  intros Hv. unfold sys_close. apply wlp_bind. eapply wp_wlp, wp_intro; [by apply (argfd_eq ext) |].
  destruct (fd_arg 0 s) as [[fd f]|] eqn:Ea; [| by apply wlp_ret]. apply fd_arg_open in Ea.
  destruct (counted_pos ext _ fd f Hv Ea) as (c & Hc & Hpos).
  apply wlp_bind, wlp_modify, wlp_bind. eapply wlp_mono; [by apply (fileclose_view _ f c) |].
  intros [] s' E'. apply wlp_ret. rewrite E'. cbn.
  eapply (counted_set ext (view s)); [done | done | done | by left | by right |].
  unfold one_if. rewrite decide_True, decide_False by done. lia.
Qed.

Lemma quietly_put_end ip : quietly (D := D) (U := U) (S := S) (put_end ip).
Proof. unfold put_end, ret_end, end_op. quiet_all. Qed.

Lemma open_inode_counted ext ip omode s :
  counted ext (view s) → wlp (open_inode ip omode) (λ _ s', counted ext (view s')) s.
Proof.
  intros Hv. unfold open_inode. apply wlp_bind, quiet_then; [apply quietly_fsop |]. intros x s1 E1.
  case_decide. { apply quiet_then; [apply quietly_put_end |]. intros r s2 E2. by rewrite E2, E1. }
  apply wlp_bind. eapply wlp_mono; [apply wp_wlp, filealloc_view |]. intros [f|] s2.
  2:{ intros [-> _]. apply quiet_then; [apply quietly_put_end |]. intros r s2 E2. by rewrite E2, E1. }
  rewrite E1. intros [Hf E2]. pose proof (lookup_lt_Some _ _ _ Hf).
  apply wlp_bind. eapply wlp_mono; [apply wp_wlp, fdalloc_view |].
  intros r s3 [(-> & -> & _)|(fd & -> & Hfd & _ & ->)]; rewrite ?E2 in *.
  - rewrite decide_True by lia. apply wlp_bind. eapply wlp_mono.
    { apply (fileclose_view s2 f 1); [rewrite E2; by apply list_lookup_insert_eq | lia]. }
    intros [] s3 E3. apply quiet_then; [apply quietly_put_end |]. intros r s4 E4.
    rewrite E4, E3, E2. cbn [Datatypes.fst Datatypes.snd]. change (1 - 1) with 0. rewrite insert_back by done.
    by destruct (view s).
  - rewrite decide_False by lia. apply quiet_then.
    { unfold open_file_setup, ret_end, end_op. quiet_all. }
    intros r s4 E4. rewrite E4. injection E2 as E2a E2b. unfold view. cbn. rewrite E2a, E2b.
    eapply (counted_set ext (view s)); [done | exact Hfd | done | by right | by left |].
    unfold one_if. rewrite decide_False, decide_True by done. lia.
Qed.

Lemma sys_open_counted ext s : counted ext (view s) → wlp sys_open (λ _ s', counted ext (view s')) s.
Proof.
  intros Hv. unfold sys_open. apply wlp_bind, quiet_then.
  { unfold argstr, fetchstr. quiet_all. }
  intros [path|] s1 E1; [| apply wlp_ret; by rewrite E1].
  apply wlp_bind, quiet_then; [apply quietly_argint |]. intros omode s2 E2.
  apply wlp_bind, quiet_then; [apply quietly_fsop |]. intros [] s3 E3. case_decide.
  - apply wlp_bind, quiet_then; [apply quietly_fsop |]. intros [ip|] s4 E4.
    + apply open_inode_counted. by rewrite E4, E3, E2, E1.
    + apply quiet_then; [unfold ret_end, end_op; quiet_all |]. intros r s5 E5. by rewrite E5, E4, E3, E2, E1.
  - apply wlp_bind, quiet_then; [apply quietly_fsop |]. intros [ip|] s4 E4.
    2:{ apply quiet_then; [unfold ret_end, end_op; quiet_all |]. intros r s5 E5. by rewrite E5, E4, E3, E2, E1. }
    apply wlp_bind, quiet_then; [apply quietly_fsop |]. intros [] s5 E5.
    apply wlp_bind, quiet_then; [apply quietly_fsop |]. intros x s6 E6. case_decide.
    + apply quiet_then; [apply quietly_put_end |]. intros r s7 E7. by rewrite E7, E6, E5, E4, E3, E2, E1.
    + apply open_inode_counted. by rewrite E6, E5, E4, E3, E2, E1.
Qed.

(** Closing the two files of a pipe that nobody refers to. *)
Lemma close_both R O a b (Q : Z → st → Prop) (r : Z) s :
  view s = (<[b := 1]> (<[a := 1]> R), O) → a ≠ b → R !! a = Some 0 → R !! b = Some 0 →
  (∀ s', view s' = (R, O) → Q r s') → wlp (fileclose a;; fileclose b;; ret r) Q s.
Proof.
  intros E Hab Ha Hb HQ. pose proof (lookup_lt_Some _ _ _ Ha). pose proof (lookup_lt_Some _ _ _ Hb).
  apply wlp_bind. eapply wlp_mono.
  { apply (fileclose_view s a 1); [| lia]. rewrite E. cbn. rewrite list_lookup_insert_ne by done.
    by apply list_lookup_insert_eq. }
  intros [] s1 E1. apply wlp_bind. eapply wlp_mono.
  { apply (fileclose_view s1 b 1); [| lia]. rewrite E1, E. cbn. rewrite list_lookup_insert_ne by done.
    apply list_lookup_insert_eq. by rewrite length_insert. }
  intros [] s2 E2. apply wlp_ret, HQ. rewrite E2, E1, E. cbn.
  rewrite (list_insert_insert_ne _ a b) by done. rewrite (insert_back _ a) by done. by rewrite insert_back.
Qed.

Lemma view_put_ofile o s : view (put_ofile o s) = ((view s).1, o).
Proof. done. Qed.

Lemma sys_pipe_counted ext s : counted ext (view s) → wlp sys_pipe (λ _ s', counted ext (view s')) s.
Proof.
  intros Hv. unfold sys_pipe. apply wlp_bind, quiet_then; [apply quietly_argaddr |]. intros fdarray s1 E1.
  apply wlp_bind. eapply wlp_mono; [apply pipealloc_view |].
  intros [[a b]|] s2; [| intros E2; apply wlp_ret; by rewrite E2, E1]. rewrite E1. clear s1 E1.
  intros (Hab & Ha & Hb & E2). destruct (view s) as [R O] eqn:Ev. cbn in Ha, Hb, E2.
  apply wlp_bind. eapply wlp_mono; [apply wp_wlp, fdalloc_view |]. rewrite E2. cbn [Datatypes.fst Datatypes.snd].
  intros fd0 s3 [(-> & -> & _)|(fd0' & -> & H3 & _ & ->)].
  { rewrite (decide_True (P := -1 < 0)) by lia. apply wlp_bind, wlp_ret. rewrite decide_True by lia.
    apply wlp_bind. rewrite decide_False by lia. apply wlp_ret. eapply close_both; try done.
    intros s' ->. done. }
  rewrite (decide_False (P := Z.of_nat fd0' < 0)) by lia. set (s3 := put_ofile _ s2).
  assert (k_ofile s2 = O) as Eo by (by injection E2).
  assert (view s3 = (<[b := 1]> (<[a := 1]> R), <[fd0' := Some a]> O)) as E3.
  { unfold s3. by rewrite view_put_ofile, E2, Eo. }
  apply wlp_bind. eapply wlp_mono; [apply wp_wlp, fdalloc_view |]. rewrite E3. cbn [Datatypes.fst Datatypes.snd].
  intros fd1 s4 [(-> & -> & _)|(fd1' & -> & H4 & _ & ->)].
  { rewrite decide_True by lia. apply wlp_bind. rewrite decide_True by lia. apply wlp_modify.
    eapply (close_both R O a b); [| done | done | done |].
    - rewrite view_put_ofile, E3. cbn [Datatypes.fst]. f_equal. rewrite Nat2Z.id. cbn [s3 k_ofile put_ofile].
      rewrite Eo, list_insert_insert_eq. by apply list_insert_id.
    - intros s' ->. done. }
  rewrite decide_False by lia. set (s4 := put_ofile _ s3).
  assert (view s4 = (<[b := 1]> (<[a := 1]> R), <[fd1' := Some b]> (<[fd0' := Some a]> O))) as E4.
  { unfold s4. rewrite view_put_ofile, E3. cbn [s3 k_ofile put_ofile Datatypes.fst]. by rewrite Eo. }
  assert (O !! fd1' = Some None ∧ fd0' ≠ fd1') as [H4' Hne].
  { apply list_lookup_insert_Some in H4 as [(_ & ? & _)|[? ?]]; done. }
  apply wlp_bind, quiet_then; [apply quietly_copy |]. intros r0 s5 E5.
  apply wlp_bind, quiet_then; [case_decide; [apply quietly_ret | apply quietly_copy] |]. intros r1 s6 E6.
  case_decide.
  - apply wlp_bind, wlp_modify, wlp_bind, wlp_modify. eapply (close_both R O a b); [| done | done | done |].
    + rewrite !view_put_ofile. assert (k_ofile s6 = <[fd1' := Some b]> (<[fd0' := Some a]> O)) as Eo6.
      { assert (view s6 = view s4) as E by congruence. rewrite E4 in E. by injection E. }
      rewrite E6, E5, E4. cbn [Datatypes.fst k_ofile put_ofile]. rewrite Eo6, !Nat2Z.id. f_equal.
      rewrite (list_insert_insert_ne _ fd0' fd1') by done. rewrite !list_insert_insert_eq.
      by rewrite (list_insert_id _ fd0'), (list_insert_id _ fd1').
    + intros s' ->. done.
  - apply wlp_ret. rewrite E6, E5, E4.
    eapply (counted_set ext (<[a := 1]> R, <[fd0' := Some a]> O) fd1' None (Some b) b 1 0).
    + eapply (counted_set ext (R, O) fd0' None (Some a) a 1 0); try done; [by right | by left |].
      unfold one_if. rewrite decide_False, decide_True by done. lia.
    + done.
    + exact (eq_trans (list_lookup_insert_ne R a b 1 Hab) Hb).
    + by right.
    + by left.
    + unfold one_if. rewrite decide_False, decide_True by done. lia.
Qed.

(** ** Any sequence of calls *)
Definition set_args (a : list Z) (s : st) : st :=
  Kst (k_fs s) (k_ftable s) (k_ofile s) (k_pipes s) (k_pages s) (k_dev s) a (k_sz s) (k_killed s).

(** A call of the process, with any arguments. *)
Inductive fcall : st → st → Prop :=
| fc_dup a s r s' : sys_dup (set_args a s) = Ret r s' → fcall s s'
| fc_close a s r s' : sys_close (set_args a s) = Ret r s' → fcall s s'
| fc_open a s r s' : sys_open (set_args a s) = Ret r s' → fcall s s'
| fc_pipe a s r s' : sys_pipe (set_args a s) = Ret r s' → fcall s s'
| fc_read a s r s' : sys_read (set_args a s) = Ret r s' → fcall s s'
| fc_write a s r s' : sys_write (set_args a s) = Ret r s' → fcall s s'
| fc_fstat a pad s r s' : sys_fstat pad (set_args a s) = Ret r s' → fcall s s'.

Lemma fcall_counted ext s s' : fcall s s' → counted ext (view s) → counted ext (view s').
Proof.
  assert (∀ A (m : M st A) a s r s', quietly m → m (set_args a s) = Ret r s' → counted ext (view s) → counted ext (view s')) as Hq.
  { intros A m a s0 r s1 Hm E Hv. pose proof (wlp_run _ _ _ _ _ (Hm _) E) as E1. cbn in E1. by rewrite E1. }
  intros Hc Hv. destruct Hc as [a s r s' E|a s r s' E|a s r s' E|a s r s' E|a s r s' E|a s r s' E|a pad s r s' E].
  - pose proof (sys_dup_correct ext (set_args a s) Hv) as Hw. apply wp_wlp in Hw.
    by destruct (wlp_run _ _ _ _ _ Hw E).
  - exact (wlp_run _ _ _ _ _ (sys_close_counted ext (set_args a s) Hv) E).
  - exact (wlp_run _ _ _ _ _ (sys_open_counted ext (set_args a s) Hv) E).
  - exact (wlp_run _ _ _ _ _ (sys_pipe_counted ext (set_args a s) Hv) E).
  - eapply Hq; [apply quietly_read | exact E | done].
  - eapply Hq; [apply quietly_write | exact E | done].
  - eapply Hq; [apply (quietly_fstat pad) | exact E | done].
Qed.

(** C22: reference counts are exact: after any sequence of calls, with any
    arguments and on every error path, the count of each file of the table is
    the number of descriptors that name it, here and in other processes; a
    file that a descriptor names is never free, so [filedup] and
    [fileclose] do not panic and [filealloc] never hands it out. *)
Theorem file_refs_exact ext s0 s :
  counted ext (view s0) → rtc fcall s0 s →
  (∀ f x, k_ftable s !! f = Some x → f_ref x = ext f + refs_to f (k_ofile s)) ∧
  (∀ fd f, k_ofile s !! fd = Some (Some f) → ∃ x, k_ftable s !! f = Some x ∧ 1 <= f_ref x) ∧
  (∀ r s', filealloc s = Ret (Some r) s' → refs_to r (k_ofile s) = 0).
Proof.
  intros Hv0 Hr. assert (counted ext (view s)) as Hv by (induction Hr; eauto using fcall_counted). split_and!.
  - intros f x Hx. apply (ct_ref _ _ Hv). cbn. by rewrite list_lookup_fmap, Hx.
  - intros fd f Hfd. destruct (counted_pos ext _ fd f Hv Hfd) as (r & (x & Hx & <- & _)%refs_at & Hpos). by exists x.
  - intros r s' E. pose proof (filealloc_view s) as Hw. unfold wp in Hw. rewrite E in Hw. destruct Hw as [Hz _].
    pose proof (ct_ref _ _ Hv r 0 Hz) as Hs. pose proof (ct_ext _ _ Hv r). pose proof (refs_to_nonneg r (view s).2).
    cbn in *. lia.
Qed.

(** closing what [dup] returned undoes it: the descriptors and the file
    table are as before, for a file of any type, and [close] returns 0. *)
Theorem dup_close_roundtrip ext s fd0 f fd r s1 :
  counted ext (view s) → fd_arg 0 s = Some (fd0, f) → sys_dup s = Ret r s1 → r = Z.of_nat fd →
  wp sys_close (λ r' s2, r' = 0 ∧ k_ofile s2 = k_ofile s ∧ k_ftable s2 = k_ftable s ∧ k_fs s2 = k_fs s ∧
    k_pipes s2 = k_pipes s) (set_args [r] s1).
Proof.
  intros Hv Ha Ed ->. pose proof (sys_dup_correct ext s Hv) as Hw. unfold wp in Hw. rewrite Ed in Hw.
  destruct Hw as [Hv1 _]. pose proof (fd_arg_open _ _ _ _ Ha) as Hfd0.
  destruct (counted_pos ext _ fd0 f Hv Hfd0) as (c & (x & Hx & Hc & Hf)%refs_at & Hpos).
  assert (∃ k : nat, k_ofile s !! k = Some None ∧ Z.of_nat fd = Z.of_nat k ∧
    s1 = put_ftable (<[f := set_fref (c + 1) x]> (k_ftable s)) (put_ofile (<[k := Some f]> (k_ofile s)) s))
    as (k & Hk & Ek & ->).
  { revert Ed. unfold sys_dup, bind. rewrite (argfd_eq ext), Ha by done. unfold fdalloc, bind, gets.
    destruct (list_find _ _) as [[k y]|] eqn:El; cbn [modify ret]; [| by rewrite decide_True by lia; intros [= ? ?]; lia].
    apply list_find_Some in El as (Hy & -> & _). rewrite decide_False by lia.
    unfold filedup, bind, gets. change (file_at f (put_ofile _ s)) with (file_at f s). rewrite Hf, decide_False by lia.
    unfold upd_file, modify, ret. intros E. exists k. split; [done |].
    assert (Z.of_nat k = Z.of_nat fd) by congruence. split; [done |].
    cbn [k_ftable put_ofile] in E. rewrite (alter_to_insert _ f _ x), Hc in E by done. congruence. }
  apply Nat2Z.inj in Ek as <-. pose proof (lookup_lt_Some _ _ _ Hk) as Hlt. pose proof (lookup_lt_Some _ _ _ Hx) as Hltf.
  assert (fd < 16)%nat as H16 by (rewrite (ct_nofile _ _ Hv : length (k_ofile s) = nofile) in Hlt; exact Hlt).
  set (s1 := set_args _ _).
  assert (fd_arg 0 s1 = Some (fd, f)) as Ea.
  { unfold fd_arg. change (k_args s1 !!! Z.to_nat 0) with (Z.of_nat fd).
    rewrite u32_small, s32_small by lia. rewrite decide_False by (unfold NOFILE; lia).
    cbn [s1 k_ofile set_args put_ftable put_ofile]. rewrite Nat2Z.id. by rewrite list_lookup_insert_eq. }
  assert (k_ftable s1 !! f = Some (set_fref (c + 1) x)) as Hx1 by (by apply list_lookup_insert_eq).
  unfold sys_close. apply wp_bind. eapply wp_intro; [by apply (argfd_eq ext) |]. rewrite Ea.
  apply wp_bind, wp_modify, wp_bind. unfold fileclose. apply wp_bind, wp_gets.
  change (file_at f _) with (k_ftable s1 !!! f). rewrite (list_lookup_total_correct _ _ _ Hx1).
  rewrite decide_False by (cbn; lia). apply wp_bind, wp_modify. rewrite decide_True by (cbn; lia).
  apply wp_ret, wp_ret. split_and!; try done.
  - cbn. rewrite list_insert_insert_eq. by apply list_insert_id.
  - cbn. rewrite (alter_to_insert _ f _ _ Hx1). cbn. rewrite list_insert_insert_eq. apply list_insert_id.
    rewrite Hx. f_equal. rewrite <- Hc. replace (f_ref x + 1 - 1) with (f_ref x) by lia. by destruct x.
Qed.

(** C40: reading or writing a pipe through a descriptor whose file never had
    an inode faults: the permission test dereferences [f->ip] before
    the type of the file is looked at. *)
Theorem pipe_descriptor_faults ext s fd f x :
  counted ext (view s) → fd_arg 0 s = Some (fd, f) → k_ftable s !! f = Some x → f_type x = FD_PIPE → f_ip x = None →
  (∃ msg, sys_read s = Panic msg) ∧ ∃ msg, sys_write s = Panic msg.
Proof.
  intros Hv Ha Hx _ Hip.
  assert (∀ mode, file_perm f mode s = Panic "out-of-bounds access") as Hp.
  { intros mode. unfold file_perm, bind at 1, gets at 1. unfold file_at at 1.
    rewrite (list_lookup_total_correct _ _ _ Hx). unfold ip_of. by rewrite Hip. }
  assert (argint 2 s = Ret (s32 (u32 (k_args s !!! 2%nat))) s) as E2 by reflexivity.
  assert (argaddr 1 s = Ret (k_args s !!! 1%nat) s) as E1 by reflexivity.
  unfold sys_read, sys_write, bind. rewrite !(argfd_eq ext 0 s), Ha by done.
  rewrite E2, E1, !Hp. split; by eexists.
Qed.
End Counts.

(** ** A table with one open descriptor: the read end of a pipe *)
#[local] Instance no_dev : DevSw unit (list Z) := { devsw_read _ := None; devsw_write _ := None }.
Definition pipe_file : file := File FD_PIPE 1 true false 4096 None 0 0.
Definition tab : kst memst (list Z) unit :=
  Kst (fs64 1) (pipe_file :: replicate 99 file0) (Some 0%nat :: replicate 15 None) ∅ [] tt [0; 0; 0] 0 false.

Lemma tab_counted : counted (λ _, 0) (view tab).
Proof.
  split; cbn [view tab k_ftable k_ofile Datatypes.fst Datatypes.snd]; [done | done | done | |].
  - intros f r Hr. rewrite fmap_cons, fmap_replicate in Hr. destruct f as [|f].
    + by injection Hr as <-.
    + cbn [lookup list_lookup] in Hr. apply lookup_replicate in Hr as [-> _].
      unfold refs_to. rewrite filter_cons, decide_False by done.
      by vm_compute.
  - intros [|fd] f Hf; [injection Hf as <-; by vm_compute; lia |].
    cbn [lookup list_lookup] in Hf. apply lookup_replicate in Hf as [? _]. done.
Qed.

Lemma sys_dup_correct_witness : wp sys_dup (λ r s', r = 1 ∧ counted (λ _, 0) (view s')) tab.
Proof.
  eapply wp_mono; [apply (sys_dup_correct (λ _, 0) tab tab_counted) |].
  intros r s' [Hv Hr]. cbn in Hr. destruct Hr as [-> _]. split; [reflexivity | exact Hv].
Defined.

Lemma file_refs_exact_witness :
  ∃ s, rtc fcall tab s ∧ ∀ f x, k_ftable s !! f = Some x → f_ref x = 0 + refs_to f (k_ofile s).
Proof.
  eassert (rtc fcall tab _) as Hr.
  { eapply rtc_once, (fc_dup [0; 0; 0]). reflexivity. }
  eexists. split; [exact Hr |]. apply (file_refs_exact (λ _, 0) tab _ tab_counted Hr).
Defined.

Lemma dup_close_roundtrip_witness :
  wp sys_close (λ r' s2, r' = 0 ∧ k_ofile s2 = k_ofile tab) (set_args [1] (final sys_dup tab)).
Proof.
  eapply wp_mono; [apply (dup_close_roundtrip (λ _, 0) tab 0 0 1 1 (final sys_dup tab) tab_counted); reflexivity |].
  intros r s2 (-> & E & _). split; [reflexivity | exact E].
Defined.

Lemma pipe_descriptor_faults_witness : ∃ msg, sys_read tab = Panic msg.
Proof. apply (pipe_descriptor_faults (λ _, 0) tab 0 0 pipe_file tab_counted); reflexivity. Defined.
