(* ===== verification/Ring.v ===== *)
(** * Circular buffers

    [ring buf r q]: the circular buffer [buf] holds the queue [q] from index
    [r] on.  Indices are taken modulo the size of the buffer, so they may
    run freely (and wrap around at a multiple of it) as the console's do, or
    be kept below it as the serial port's are. *)
From S2P Require Import Prelude.

Section Ring.
Context {A : Type} `{!Inhabited A}.
Implicit Types (buf q : list A) (r : Z).

Definition ring_ix (buf : list A) (i : Z) : nat := Z.to_nat (i mod Z.of_nat (length buf)).
Definition ring buf r q : Prop :=
  (0 < length buf)%nat ∧ (length q ≤ length buf)%nat
  ∧ ∀ (j : nat) x, q !! j = Some x → buf !! ring_ix buf (r + Z.of_nat j) = Some x.

Lemma ring_ix_lt buf i : (0 < length buf)%nat → (ring_ix buf i < length buf)%nat.
Proof.
  intros Hb. unfold ring_ix. pose proof (Z.mod_pos_bound i (Z.of_nat (length buf))). lia.
Qed.

Lemma ring_ix_inj buf r (i j : nat) :
  (i < length buf)%nat → (j < length buf)%nat →
  ring_ix buf (r + Z.of_nat i) = ring_ix buf (r + Z.of_nat j) → i = j.
Proof.
  intros Hi Hj E. unfold ring_ix in E. set (N := Z.of_nat (length buf)) in *.
  assert (0 < N) by lia.
  pose proof (Z.mod_pos_bound (r + Z.of_nat i) N). pose proof (Z.mod_pos_bound (r + Z.of_nat j) N).
  assert (E' : (r + Z.of_nat i) mod N = (r + Z.of_nat j) mod N) by lia.
  pose proof (Z.div_mod (r + Z.of_nat i) N ltac:(lia)) as Hdi.
  pose proof (Z.div_mod (r + Z.of_nat j) N ltac:(lia)) as Hdj.
  set (a := (r + Z.of_nat i) / N) in *. set (b := (r + Z.of_nat j) / N) in *.
  assert (Z.of_nat i - Z.of_nat j = N * (a - b)) by lia.
  assert (a - b = 0) by nia. lia.
Qed.

Lemma ring_congr buf r r' q :
  r mod Z.of_nat (length buf) = r' mod Z.of_nat (length buf) → ring buf r q → ring buf r' q.
Proof.
  intros E (Hb & Hq & Hl). split_and!; [done.. |]. intros j x Hx. rewrite <- (Hl j x Hx).
  unfold ring_ix. by rewrite <- (Zplus_mod_idemp_l r'), <- E, Zplus_mod_idemp_l.
Qed.

Lemma ring_nil buf r : (0 < length buf)%nat → ring buf r [].
Proof. intros Hb. split_and!; [done | cbn; lia | done]. Qed.

Lemma ring_push buf r q x :
  ring buf r q → (length q < length buf)%nat →
  ring (<[ring_ix buf (r + Z.of_nat (length q)) := x]> buf) r (q ++ [x]).
Proof.
  intros (Hb & Hq & Hl) Hlt. unfold ring, ring_ix. rewrite !length_insert.
  split_and!; [done | rewrite length_app; cbn; lia |].
  intros j y Hy. destruct (decide (j < length q)%nat) as [Hj|Hj].
  - rewrite lookup_app_l in Hy by done. rewrite list_lookup_insert_ne; [by apply Hl |].
    intros E. apply ring_ix_inj in E; lia.
  - rewrite lookup_app_r in Hy by lia. apply list_lookup_singleton_Some in Hy as [Hj0 ->].
    replace j with (length q) by lia. apply list_lookup_insert_eq. by apply ring_ix_lt.
Qed.

Lemma ring_pop buf r x q : ring buf r (x :: q) → buf !!! ring_ix buf r = x ∧ ring buf (r + 1) q.
Proof.
  intros (Hb & Hq & Hl). split.
  - apply list_lookup_total_correct. rewrite <- (Hl 0%nat x); [| done]. f_equal. f_equal. lia.
  - split_and!; [done | cbn in Hq; lia |]. intros j y Hy. rewrite <- (Hl (Datatypes.S j) y); [| done].
    f_equal. f_equal. lia.
Qed.

Lemma ring_take buf r q q' : ring buf r (q ++ q') → ring buf r q.
Proof.
  intros (Hb & Hq & Hl). rewrite length_app in Hq. split_and!; [done | lia |]. intros j x Hx.
  apply Hl. by apply lookup_app_l_Some.
Qed.

Lemma ring_last buf r q x : ring buf r (q ++ [x]) → buf !!! ring_ix buf (r + Z.of_nat (length q)) = x.
Proof.
  intros (Hb & Hq & Hl). apply list_lookup_total_correct, Hl.
  by rewrite lookup_app_r, Nat.sub_diag by lia.
Qed.
End Ring.

#[export] Hint Resolve ring_take : xv6.
