(* ===== verification/Console.v ===== *)
(** * The console and its serial port ([kernel/console.c], [kernel/uart.c])

    The handlers run on the process machine of [Proc.v]: they take and give
    back [cons.lock] and [uart_tx_lock], sleep and wake processes.  The
    serial port answers reads of its status register from a list fixed in
    advance ([u_idle]), whatever it contains; [u_wire] is every byte that
    was stored in the transmit register, [u_rx] what has arrived and was not
    read yet. *)
From S2P Require Import Prelude Params CString Locks BlockLayer Fs Dir Image UserMem Pipe Riscv Kalloc Vm Spinlock File Proc.

(** ** State *)
Definition BACKSPACE : Z := 256.
Definition Ctrl (x : Z) : Z := x - 64.
Definition key_D : Z := Ctrl 68.
Definition key_H : Z := Ctrl 72.
Definition key_P : Z := Ctrl 80.
Definition key_U : Z := Ctrl 85.
Definition key_del : Z := 127.
Definition key_cr : Z := 13.
Definition key_nl : Z := 10.
Definition INPUT_BUF : Z := 128.
Definition UART_TX_BUF_SIZE : Z := 32.

(** [cons] without its lock. *)
Record cons := Cons { c_buf : list Z; c_r : Z; c_w : Z; c_e : Z }.

(** [uart_tx_buf], [uart_tx_w], [uart_tx_r], [panicked] and the port. *)
Record uart := Uart {
  u_buf : list Z; u_w : Z; u_r : Z; u_panicked : bool;
  u_idle : list bool; u_rx : list Z; u_wire : list Z;
}.

Record kcon (F U : Type) := Kcon { kc_p : pst F; kc_cons : cons; kc_uart : uart; kc_mem : U }.
Arguments Kcon {F U}.
Arguments kc_p {F U}.
Arguments kc_cons {F U}.
Arguments kc_uart {F U}.
Arguments kc_mem {F U}.

Definition cons_lock : lockref := LkAddr 3.
Definition uart_tx_lock : lockref := LkAddr 4.
Definition cons_r_chan : wchan := AddrChan 5.
Definition uart_r_chan : wchan := AddrChan 6.

(** ** The port *)
(** [ReadReg(LSR) & LSR_TX_IDLE] *)
Definition lsr_tx_idle : M uart bool := λ u,
  Ret (default false (head (u_idle u)))
      (Uart (u_buf u) (u_w u) (u_r u) (u_panicked u) (tail (u_idle u)) (u_rx u) (u_wire u)).
(** [WriteReg(THR, c)] *)
Definition write_thr (c : Z) : M uart unit :=
  modify (λ u, Uart (u_buf u) (u_w u) (u_r u) (u_panicked u) (u_idle u) (u_rx u) (u_wire u ++ [u8 c])).
Definition uartgetc : M uart Z := λ u,
  match u_rx u with
  | c :: rx => Ret c (Uart (u_buf u) (u_w u) (u_r u) (u_panicked u) (u_idle u) rx (u_wire u))
  | [] => Ret (-1) u
  end.
(** [while ((ReadReg(LSR) & LSR_TX_IDLE) == 0);] *)
Fixpoint wait_idle (k : nat) : M uart unit :=
  match k with
  | O => λ _, OutOfFuel
  | Datatypes.S k => let! b := lsr_tx_idle in if b : bool then ret tt else wait_idle k
  end.
(** [uart_tx_buf[uart_tx_w] = c; uart_tx_w = (uart_tx_w + 1) % UART_TX_BUF_SIZE] *)
Definition tx_put (c : Z) (u : uart) : uart :=
  Uart (<[Z.to_nat (u_w u) := u8 c]> (u_buf u)) ((u_w u + 1) mod UART_TX_BUF_SIZE) (u_r u) (u_panicked u)
    (u_idle u) (u_rx u) (u_wire u).
Definition tx_full (u : uart) : bool := bool_decide ((u_w u + 1) mod UART_TX_BUF_SIZE = u_r u).
Definition tx_empty (u : uart) : bool := bool_decide (u_w u = u_r u).
(** [c = uart_tx_buf[uart_tx_r]; uart_tx_r = (uart_tx_r + 1) % UART_TX_BUF_SIZE] *)
Definition tx_get : M uart Z := λ u,
  Ret (u_buf u !!! Z.to_nat (u_r u))
      (Uart (u_buf u) (u_w u) ((u_r u + 1) mod UART_TX_BUF_SIZE) (u_panicked u) (u_idle u) (u_rx u) (u_wire u)).

(** ** The line buffer *)
(** [buf[i % INPUT_BUF]] *)
Definition cons_at (k : cons) (i : Z) : Z := c_buf k !!! Z.to_nat (i mod INPUT_BUF).
(** [cons.buf[cons.e++ % INPUT_BUF] = c] *)
Definition cons_put (c : Z) (k : cons) : cons :=
  Cons (<[Z.to_nat (c_e k mod INPUT_BUF) := u8 c]> (c_buf k)) (c_r k) (c_w k) (u32 (c_e k + 1)).
Definition set_e (e : Z) (k : cons) : cons := Cons (c_buf k) (c_r k) (c_w k) e.
Definition set_w (w : Z) (k : cons) : cons := Cons (c_buf k) (c_r k) w (c_e k).
Definition set_r (r : Z) (k : cons) : cons := Cons (c_buf k) r (c_w k) (c_e k).

Section Ops.
Context {F U : Type} `{FileOps F} `{UserMem U}.
Notation st := (kcon F U).

Definition pop {A} (m : M (pst F) A) : M st A :=
  zoom kc_p (λ p s, Kcon p (kc_cons s) (kc_uart s) (kc_mem s)) m.
Definition uop {A} (m : M uart A) : M st A :=
  zoom kc_uart (λ u s, Kcon (kc_p s) (kc_cons s) u (kc_mem s)) m.
Definition conop {A} (m : M cons A) : M st A :=
  zoom kc_cons (λ k s, Kcon (kc_p s) k (kc_uart s) (kc_mem s)) m.

(** [for (;;);] *)
Definition spin {A} : M st A := λ _, OutOfFuel.

(** *** [uart.c] *)
Definition uartputc_sync (me : nat) (c : Z) : M st unit :=
  pop (cpuop me push_off);;
  let! u := gets kc_uart in
  if u_panicked u then spin
  else
    uop (wait_idle (length (u_idle u)));;
    uop (write_thr c);;
    pop (cpuop me pop_off).

Fixpoint uartstart_loop (fuel : nat) (me : nat) : M st unit :=
  match fuel with
  | O => λ _, OutOfFuel
  | Datatypes.S fuel =>
      let! u := gets kc_uart in
      if tx_empty u then ret tt
      else
        let! idle := uop lsr_tx_idle in
        if negb idle then ret tt
        else
          let! c := uop tx_get in
          pop (wakeup me uart_r_chan);;
          uop (write_thr c);;
          uartstart_loop fuel me
  end.
Definition uartstart (me : nat) : M st unit := uartstart_loop (Z.to_nat UART_TX_BUF_SIZE) me.

(** The loop of [uartputc], with [uart_tx_lock] held: it returns, or sleeps
    with the [intena] that [sched] saved. *)
Definition uartputc_turn (me : nat) (c : Z) : M st (unit + bool) :=
  let! u := gets kc_uart in
  if tx_full u then let! b := pop (sleep me uart_r_chan uart_tx_lock) in ret (inr b)
  else
    uop (modify (tx_put c));;
    uartstart me;;
    pop (unlock me uart_tx_lock);;
    ret (inl tt).
Definition uartputc (me : nat) (c : Z) : M st (unit + bool) :=
  pop (lock me uart_tx_lock);;
  let! u := gets kc_uart in
  if u_panicked u then spin else uartputc_turn me c.
Definition uartputc_return (me i : nat) (c : Z) (intena : bool) : M st (unit + bool) :=
  pop (sleep_return me i uart_tx_lock intena);;
  uartputc_turn me c.

(** *** [console.c] *)
Definition consputc (me : nat) (c : Z) : M st unit :=
  if decide (c = BACKSPACE) then
    uartputc_sync me 8;; uartputc_sync me 32;; uartputc_sync me 8
  else uartputc_sync me c.

(** The loop of [consolewrite] from byte [i] on: the result, or where it
    sleeps. *)
Fixpoint consolewrite_loop (k : nat) (me : nat) (src i : Z) : M st (Z + Z * bool) :=
  match k with
  | O => pop (unlock me cons_lock);; ret (inl i)
  | Datatypes.S k =>
      let! (r, bytes) := gets (λ s, um_copyin (u64 (src + i)) 1 (kc_mem s)) in
      if decide (r = -1) then pop (unlock me cons_lock);; ret (inl i)
      else
        let! o := uartputc me (default 0 (head bytes)) in
        match o with
        | inr b => ret (inr (i, b))
        | inl _ => consolewrite_loop k me src (i + 1)
        end
  end.
Definition consolewrite (me : nat) (src n : Z) : M st (Z + Z * bool) :=
  pop (lock me cons_lock);;
  consolewrite_loop (Z.to_nat n) me src 0.

(** The loop of [consoleread], with [cons.lock] held: the result, or the
    [dst], [n] and [intena] it sleeps with.  [n] is an [int], [target] an
    [uint]. *)
Fixpoint consoleread_loop (k : nat) (me : nat) (target dst n : Z) : M st (Z + Z * Z * bool) :=
  let finish n := pop (unlock me cons_lock);; ret (inl (s32 (target - n))) in
  match k with
  | O => finish n
  | Datatypes.S k =>
      let! con := gets kc_cons in
      if decide (c_r con = c_w con) then
        let! i := pop (curproc me) in
        let! p := gets (λ s, proc_at i (kc_p s)) in
        if decide (p_killed p ≠ 0) then pop (unlock me cons_lock);; ret (inl (-1))
        else let! b := pop (sleep me cons_r_chan cons_lock) in ret (inr (dst, n, b))
      else
        let c := cons_at con (c_r con) in
        conop (modify (set_r (u32 (c_r con + 1))));;
        if decide (c = key_D) then
          (if decide (u32 n < target) then conop (modify (λ k, set_r (u32 (c_r k - 1)) k)) else ret tt);;
          finish n
        else
          let! u := gets kc_mem in
          let '(r, u) := um_copyout dst [c] u in
          modify (λ s, Kcon (kc_p s) (kc_cons s) (kc_uart s) u);;
          if decide (r = -1) then finish n
          else if decide (c = key_nl) then finish (n - 1)
          else consoleread_loop k me target (u64 (dst + 1)) (n - 1)
  end.
Definition consoleread (me : nat) (dst n : Z) : M st (Z + Z * Z * bool) :=
  pop (lock me cons_lock);;
  consoleread_loop (Z.to_nat n) me (u32 n) dst n.
(** [consoleread] when its [sleep] returns, to the test that put it there. *)
Definition consoleread_return (me i : nat) (target dst n : Z) (intena : bool) : M st (Z + Z * Z * bool) :=
  pop (sleep_return me i cons_lock intena);;
  consoleread_loop (Z.to_nat n) me target dst n.

(** [case C('U')] *)
Fixpoint kill_line (k : nat) (me : nat) : M st unit :=
  match k with
  | O => ret tt
  | Datatypes.S k =>
      let! con := gets kc_cons in
      if decide (c_e con ≠ c_w con ∧ cons_at con (u32 (c_e con - 1)) ≠ key_nl) then
        conop (modify (set_e (u32 (c_e con - 1))));;
        consputc me BACKSPACE;;
        kill_line k me
      else ret tt
  end.

(** The [switch] of the handler; [procdump] only prints. *)
Definition consoleintr_switch (me : nat) (c : Z) : M st unit :=
  let! con := gets kc_cons in
  if decide (c = key_P) then ret tt
  else if decide (c = key_U) then kill_line (Z.to_nat (u32 (c_e con - c_w con))) me
  else if decide (c = key_H ∨ c = key_del) then
    if decide (c_e con ≠ c_w con) then
      conop (modify (set_e (u32 (c_e con - 1))));;
      consputc me BACKSPACE
    else ret tt
  else if decide (c ≠ 0 ∧ u32 (c_e con - c_r con) < INPUT_BUF) then
    let c := if decide (c = key_cr) then key_nl else c in
    consputc me c;;
    conop (modify (cons_put c));;
    let! con := gets kc_cons in
    if decide (c = key_nl ∨ c = key_D ∨ c_e con = u32 (c_r con + INPUT_BUF)) then
      conop (modify (set_w (c_e con)));;
      pop (wakeup me cons_r_chan)
    else ret tt
  else ret tt.
Definition consoleintr (me : nat) (c : Z) : M st unit :=
  pop (lock me cons_lock);;
  consoleintr_switch me c;;
  pop (unlock me cons_lock).

(** The interrupt of the port: [k] bytes have arrived. *)
Fixpoint uartintr_input (k : nat) (me : nat) : M st unit :=
  match k with
  | O => ret tt
  | Datatypes.S k =>
      let! c := uop uartgetc in
      if decide (c = -1) then ret tt else consoleintr me c;; uartintr_input k me
  end.
Definition uartintr (me : nat) : M st unit :=
  let! u := gets kc_uart in
  uartintr_input (length (u_rx u)) me;;
  pop (lock me uart_tx_lock);;
  uartstart me;;
  pop (unlock me uart_tx_lock).
End Ops.
