(* ===== verification/ConsoleTheorems.v ===== *)
(** * The console: theorems

    [tty] is what the console promises: a queue of finished input and the
    line being edited.  [consoleintr] implements a key stroke, [consoleread]
    a read of up to one line; both run on the process machine, give their
    lock back and wake or put to sleep the right process. *)
From S2P Require Import Prelude Params CString Locks BlockLayer Fs Dir Image UserMem Pipe Riscv Kalloc Vm Spinlock File Proc ProcInv ProcProofs ProcSteps ProcTheorems Ring Console.

(** ** The line discipline *)
Record tty := Tty { t_done : list Z; t_line : list Z }.

Definition tty_size (t : tty) : nat := length (t_done t) + length (t_line t).
Definition input_buf : nat := 128.
Definition cooked (c : Z) : Z := if decide (c = key_cr) then key_nl else c.
(** A key that is neither a command nor dropped. *)
Definition is_text (c : Z) (t : tty) : Prop :=
  c ≠ key_P ∧ c ≠ key_U ∧ c ≠ key_H ∧ c ≠ key_del ∧ c ≠ 0 ∧ (tty_size t < input_buf)%nat.
#[export] Instance is_text_dec c t : Decision (is_text c t) := _.
Definition commits (c : Z) (t : tty) : Prop :=
  is_text c t ∧ (cooked c = key_nl ∨ cooked c = key_D ∨ (tty_size t + 1)%nat = input_buf).
#[export] Instance commits_dec c t : Decision (commits c t) := _.

Definition tty_key (c : Z) (t : tty) : tty :=
  if decide (c = key_U) then Tty (t_done t) []
  else if decide (c = key_H ∨ c = key_del) then Tty (t_done t) (take (length (t_line t) - 1) (t_line t))
  else if decide (is_text c t) then
    let line := t_line t ++ [cooked c] in
    if decide (commits c t) then Tty (t_done t ++ line) [] else Tty (t_done t) line
  else t.

Definition erase : list Z := [8; 32; 8].
Definition tty_echo (c : Z) (t : tty) : list Z :=
  if decide (c = key_U) then concat (replicate (length (t_line t)) erase)
  else if decide (c = key_H ∨ c = key_del) then (if decide (t_line t = []) then [] else erase)
  else if decide (is_text c t) then [cooked c] else [].

(** A read of up to [n] bytes: what it delivers, what it leaves, and whether
    it ran out of input.  [got] says that it has delivered something. *)
Fixpoint tty_read (n : nat) (got : bool) (l : list Z) : list Z * list Z * bool :=
  match n, l with
  | O, _ => ([], l, false)
  | _, [] => ([], [], true)
  | Datatypes.S n, c :: l =>
      if decide (c = key_D) then ([], (if got then c :: l else l), false)
      else if decide (c = key_nl) then ([c], l, false)
      else let '(d, r, b) := tty_read n true l in (c :: d, r, b)
  end.

Lemma tty_read_length n got l d r b : tty_read n got l = (d, r, b) → (length d ≤ n)%nat.
Proof.
  revert got l d r b. induction n as [|n IH]; intros got l d r b; cbn [tty_read].
  { intros E. by simplify_eq. }
  destruct l as [|c l]; [intros E; simplify_eq; cbn; lia |].
  repeat case_decide; [intros E; simplify_eq; cbn; lia.. |].
  destruct (tty_read n true l) as [[d' r'] b'] eqn:E'. intros E. simplify_eq.
  apply IH in E'. cbn. lia.
Qed.

(** A finished line is read whole, without touching what follows it. *)
Lemma tty_read_line line rest n got :
  key_D ∉ line → key_nl ∉ line → (length line < n)%nat →
  tty_read n got (line ++ key_nl :: rest) = (line ++ [key_nl], rest, false).
Proof.
  revert n got. induction line as [|c line IH]; intros n got HD Hn Hl; (destruct n as [|n]; [cbn in Hl; lia |]).
  - done.
  - apply not_elem_of_cons in HD as [? ?]. apply not_elem_of_cons in Hn as [? ?].
    cbn [app tty_read]. rewrite !decide_False by done. cbn in Hl. by rewrite IH by (done || lia).
Qed.

(** ** Representation *)
Record tty_rep (k : cons) (t : tty) : Prop := {
  tr_ring : ring (c_buf k) (c_r k) (t_done t ++ t_line t);
  tr_size : length (c_buf k) = input_buf;
  tr_r : 0 <= c_r k < 2 ^ 32;
  tr_w : c_w k = u32 (c_r k + Z.of_nat (length (t_done t)));
  tr_e : c_e k = u32 (c_r k + Z.of_nat (tty_size t));
  tr_line : key_nl ∉ t_line t;
}.

Lemma u32_mod a : u32 a mod INPUT_BUF = a mod INPUT_BUF.
Proof.
  unfold u32, INPUT_BUF. rewrite <- Znumtheory.Zmod_div_mod; [done | lia | lia |]. by exists (2 ^ 25).
Qed.
(** Indices wrap around at a multiple of the size of the buffer. *)
Lemma u32_ix (buf : list Z) a : length buf = input_buf → Z.to_nat (u32 a mod INPUT_BUF) = ring_ix buf a.
Proof. intros Hl. unfold ring_ix. by rewrite Hl, u32_mod. Qed.

Lemma u32_diff a m n : 0 <= n <= m → m - n < 2 ^ 32 → u32 (u32 (a + m) - u32 (a + n)) = m - n.
Proof.
  intros Hm Hd. unfold u32. rewrite <- Zminus_mod. replace (a + m - (a + n)) with (m - n) by lia.
  apply Z.mod_small. lia.
Qed.

Lemma tty_rep_size k t : tty_rep k t → (tty_size t ≤ input_buf)%nat.
Proof.
  intros Hk. destruct (tr_ring _ _ Hk) as (_ & Hq & _). rewrite (tr_size _ _ Hk), length_app in Hq. done.
Qed.

Section Rep.
Variables (k : cons) (t : tty).
Hypothesis Hk : tty_rep k t.

Lemma tty_full : u32 (c_e k - c_r k) < INPUT_BUF ↔ (tty_size t < input_buf)%nat.
Proof.
  pose proof (tty_rep_size _ _ Hk) as Hs. rewrite (tr_e _ _ Hk).
  assert (E : u32 (u32 (c_r k + Z.of_nat (tty_size t)) - c_r k) = Z.of_nat (tty_size t)).
  { rewrite <- (u32_small (c_r k)) at 2 by apply (tr_r _ _ Hk). rewrite <- (Z.add_0_r (c_r k)) at 2.
    unfold input_buf in Hs. rewrite u32_diff; lia. }
  rewrite E. unfold INPUT_BUF, input_buf. lia.
Qed.

Lemma tty_line_length : u32 (c_e k - c_w k) = Z.of_nat (length (t_line t)).
Proof.
  pose proof (tty_rep_size _ _ Hk) as Hs. unfold tty_size, input_buf in *.
  rewrite (tr_e _ _ Hk), (tr_w _ _ Hk), u32_diff; unfold tty_size; lia.
Qed.

Lemma tty_line_empty : c_e k = c_w k ↔ t_line t = [].
Proof.
  split; intros E.
  - pose proof tty_line_length as Hl. rewrite E, Z.sub_diag in Hl. destruct (t_line t); [done |].
    change (u32 0) with 0 in Hl. cbn in Hl. lia.
  - rewrite (tr_e _ _ Hk), (tr_w _ _ Hk). unfold tty_size. rewrite E. cbn. by rewrite Nat.add_0_r.
Qed.

Lemma tty_done_empty : c_r k = c_w k ↔ t_done t = [].
Proof.
  pose proof (tty_rep_size _ _ Hk) as Hs. unfold tty_size, input_buf in *.
  pose proof (tr_r _ _ Hk) as Hr. rewrite (tr_w _ _ Hk). split; intros E.
  - rewrite <- (u32_small (c_r k)) in E at 1 by done. rewrite <- (Z.add_0_r (c_r k)) in E at 1.
    apply u32_add_inj in E; [| lia | lia]. by destruct (t_done t).
  - rewrite E. cbn. rewrite Z.add_0_r. by rewrite u32_small.
Qed.

(** The slot before the edit index holds the last character of the line. *)
Lemma tty_last l x : t_line t = l ++ [x] → cons_at k (u32 (c_e k - 1)) = x.
Proof.
  intros El. pose proof (tr_ring _ _ Hk) as Hring. rewrite El, app_assoc in Hring.
  apply ring_last in Hring. rewrite <- Hring. unfold cons_at. rewrite (tr_e _ _ Hk).
  f_equal. rewrite <- (u32_ix (c_buf k)) by apply (tr_size _ _ Hk). f_equal. f_equal.
  unfold u32. rewrite Zminus_mod_idemp_l. f_equal. unfold tty_size. rewrite El, !length_app. cbn. lia.
Qed.

Lemma cons_put_ring c :
  (tty_size t < input_buf)%nat → 0 <= c < 256 →
  ring (c_buf (cons_put c k)) (c_r k) (t_done t ++ t_line t ++ [c]) ∧ length (c_buf (cons_put c k)) = input_buf
  ∧ c_e (cons_put c k) = u32 (c_r k + Z.of_nat (tty_size t + 1)).
Proof.
  intros Hs Hc. unfold cons_put. cbn [c_buf c_e]. rewrite length_insert, (tr_e _ _ Hk).
  rewrite (u32_ix (c_buf k)) by apply (tr_size _ _ Hk). split_and!; [| apply (tr_size _ _ Hk) |].
  - replace (u8 c) with c by (symmetry; apply Z.mod_small; lia). rewrite app_assoc.
    unfold tty_size. rewrite <- length_app. apply ring_push; [apply (tr_ring _ _ Hk) |].
    rewrite length_app, (tr_size _ _ Hk). done.
  - unfold u32. rewrite Zplus_mod_idemp_l. f_equal. lia.
Qed.

Lemma rep_put c :
  (tty_size t < input_buf)%nat → 0 <= c < 256 → c ≠ key_nl →
  tty_rep (cons_put c k) (Tty (t_done t) (t_line t ++ [c])).
Proof.
  intros Hs Hc Hn. destruct (cons_put_ring c Hs Hc) as (Hr & Hl & He).
  split; cbn [t_done t_line]; [done | done | apply (tr_r _ _ Hk) | apply (tr_w _ _ Hk) | |].
  - rewrite He. do 3 f_equal. unfold tty_size. cbn. rewrite length_app. cbn. lia.
  - pose proof (tr_line _ _ Hk). set_solver.
Qed.

Lemma rep_commit c :
  (tty_size t < input_buf)%nat → 0 <= c < 256 →
  tty_rep (set_w (c_e (cons_put c k)) (cons_put c k)) (Tty (t_done t ++ t_line t ++ [c]) []).
Proof.
  intros Hs Hc. destruct (cons_put_ring c Hs Hc) as (Hr & Hl & He).
  assert (E : (length (t_done t ++ t_line t ++ [c]) = tty_size t + 1)%nat).
  { unfold tty_size. rewrite !length_app. cbn. lia. }
  split; cbn [t_done t_line].
  - by rewrite app_nil_r.
  - done.
  - apply (tr_r _ _ Hk).
  - cbn [c_w c_r set_w]. by rewrite He, E.
  - cbn [c_e c_r set_w]. rewrite He. unfold tty_size at 2. cbn [t_done t_line length]. by rewrite E, Nat.add_0_r.
  - apply not_elem_of_nil.
Qed.

Lemma rep_erase l x : t_line t = l ++ [x] → tty_rep (set_e (u32 (c_e k - 1)) k) (Tty (t_done t) l).
Proof.
  intros El. split; cbn [t_done t_line].
  - apply (ring_take _ _ _ [x]). rewrite <- app_assoc, <- El. apply (tr_ring _ _ Hk).
  - apply (tr_size _ _ Hk).
  - apply (tr_r _ _ Hk).
  - apply (tr_w _ _ Hk).
  - cbn [c_e c_r set_e]. rewrite (tr_e _ _ Hk). unfold u32. rewrite Zminus_mod_idemp_l. f_equal.
    unfold tty_size. cbn [t_done t_line]. rewrite El, length_app. cbn. lia.
  - pose proof (tr_line _ _ Hk) as Hn. rewrite El in Hn. set_solver.
Qed.

Lemma rep_read c d :
  t_done t = c :: d →
  cons_at k (c_r k) = c ∧ tty_rep (set_r (u32 (c_r k + 1)) k) (Tty d (t_line t)).
Proof.
  intros Ed. pose proof (tr_ring _ _ Hk) as Hring. rewrite Ed in Hring. cbn [app] in Hring.
  apply ring_pop in Hring as [Hc Hring]. split.
  - rewrite <- Hc. unfold cons_at, ring_ix. by rewrite (tr_size _ _ Hk).
  - pose proof (tr_w _ _ Hk) as Hw. pose proof (tr_e _ _ Hk) as He. unfold tty_size in He. rewrite Ed in Hw, He.
    split; cbn [t_done t_line c_w c_e c_r c_buf set_r].
    + eapply ring_congr; [| apply Hring]. rewrite (tr_size _ _ Hk). symmetry. apply u32_mod.
    + apply (tr_size _ _ Hk).
    + apply u32_range.
    + rewrite Hw. unfold u32. rewrite Zplus_mod_idemp_l. f_equal. cbn. lia.
    + rewrite He. unfold u32, tty_size. rewrite Zplus_mod_idemp_l. f_equal. cbn. lia.
    + apply (tr_line _ _ Hk).
Qed.

(** [cons.r--] after a read gives the character back. *)
Lemma unread : let k' := set_r (u32 (c_r k + 1)) k in set_r (u32 (c_r k' - 1)) k' = k.
Proof.
  pose proof (tr_r _ _ Hk) as Hr. cbn. replace (u32 (u32 (c_r k + 1) - 1)) with (c_r k); [by destruct k |].
  unfold u32. rewrite Zminus_mod_idemp_l. rewrite Z.mod_small; lia.
Qed.
End Rep.

(** ** Output by polling *)
Definition nready (u : uart) : nat := length (filter (λ b : bool, b = true) (u_idle u)).
(** The port has sent [bs]; it still answers "idle" often enough. *)
Record sends (bs : list Z) (u u' : uart) : Prop := {
  sd_wire : u_wire u' = u_wire u ++ bs;
  sd_ready : (nready u ≤ nready u' + length bs)%nat;
  sd_panicked : u_panicked u' = u_panicked u;
  sd_rest : u_buf u' = u_buf u ∧ u_w u' = u_w u ∧ u_r u' = u_r u ∧ u_rx u' = u_rx u;
}.

Lemma sends_nil u : sends [] u u.
Proof. split; [by rewrite app_nil_r | cbn; lia | done | done]. Qed.
Lemma sends_trans bs bs' u u' u'' : sends bs u u' → sends bs' u' u'' → sends (bs ++ bs') u u''.
Proof.
  intros [Hw Hn Hp (? & ? & ? & ?)] [Hw' Hn' Hp' (? & ? & ? & ?)]. split.
  - by rewrite Hw', Hw, app_assoc.
  - rewrite length_app. lia.
  - congruence.
  - split_and!; congruence.
Qed.

Lemma sends_panicked bs u u' : sends bs u u' → u_panicked u = false → u_panicked u' = false.
Proof. intros [_ _ -> _]. done. Qed.

Definition with_idle (l : list bool) (u : uart) : uart :=
  Uart (u_buf u) (u_w u) (u_r u) (u_panicked u) l (u_rx u) (u_wire u).

Lemma wait_idle_eq u :
  (0 < nready u)%nat →
  ∃ l, wait_idle (length (u_idle u)) u = Ret tt (with_idle l u)
    ∧ (nready u ≤ length (filter (λ b : bool, b = true) l) + 1)%nat.
Proof.
  destruct u as [buf w r p idle rx wire]. unfold nready. cbn [u_idle].
  induction idle as [|[] idle IH]; cbn [length wait_idle]; intros Hn; [cbn in Hn; lia | |];
    unfold bind; cbn [lsr_tx_idle u_idle head default tail].
  - exists idle. split; [done |]. rewrite filter_cons_True by done. cbn. lia.
  - rewrite filter_cons_False in * by done. destruct (IH Hn) as (l & Hl & Hb). exists l. split; [| done].
    unfold with_idle in Hl |- *. cbn in Hl |- *. done.
Qed.

Section Machine.
Context {F U : Type} `{FileOps F} `{UserMem U}.
Notation st := (kcon F U).
Implicit Types s : st.

Definition put_uart (u : uart) s : st := Kcon (kc_p s) (kc_cons s) u (kc_mem s).
Definition put_cons (k : cons) s : st := Kcon (kc_p s) k (kc_uart s) (kc_mem s).

(** Hart [me] runs with interrupts off. *)
Definition masked (me : nat) (c : cpu) s : Prop :=
  ps_cpus (kc_p s) !! me = Some c ∧ 0 < c_noff c ∧ c_sie c = false.

Lemma settle_masked c : 0 < c_noff c → settle c = c.
Proof. intros Hn. destruct c as [p n b e]. unfold settle. cbn in *. by rewrite decide_False by lia. Qed.

Lemma curproc_masked me hart i s :
  masked me hart s → c_proc hart = Some i → curproc me (kc_p s) = Ret i (kc_p s).
Proof.
  intros (Hc & Hn & He) Hi. rewrite (curproc_eq me hart i); [| done | by split; [lia |] | done].
  by rewrite settle_masked, put_hart_same.
Qed.

Lemma uartputc_sync_eq me hart c s :
  masked me hart s → u_panicked (kc_uart s) = false → (0 < nready (kc_uart s))%nat →
  ∃ u, sends [u8 c] (kc_uart s) u ∧ uartputc_sync me c s = Ret tt (put_uart u s).
Proof.
  intros (Hc & Hn & He) Hp Hr. destruct (wait_idle_eq _ Hr) as (l & Hw & Hl).
  pose proof (lookup_lt_Some _ _ _ Hc) as Hlt. destruct s as [ps k u mem]. cbn [kc_p kc_uart] in *.
  eexists. split; [| unfold uartputc_sync, bind, pop, uop, cpuop, zoom; cbn [kc_p kc_uart kc_cons kc_mem];
    rewrite (cpu_at_eq _ _ _ Hc), push_off_pushed; cbn [kc_p kc_uart kc_cons kc_mem gets];
    rewrite Hp; cbn [kc_p kc_uart kc_cons kc_mem]; rewrite Hw; cbn [kc_p kc_uart kc_cons kc_mem write_thr modify]].
  2: { fold (put_hart me (pushed hart) ps). rewrite (cpu_at_eq me (pushed hart)).
    2: { cbn. by apply list_lookup_insert_eq. }
    rewrite pop_pushed by (split; [lia | done]).
    fold (put_hart me (settle hart) (put_hart me (pushed hart) ps)). rewrite put_hart_twice, settle_masked by done.
    rewrite put_hart_same by done. done. }
  split; [done | | done | done]. unfold nready at 2. cbn [u_idle with_idle length]. done.
Qed.

Definition echo (c : Z) : list Z := if decide (c = BACKSPACE) then erase else [u8 c].

Lemma consputc_eq me hart c s :
  masked me hart s → u_panicked (kc_uart s) = false → (length (echo c) ≤ nready (kc_uart s))%nat →
  ∃ u, sends (echo c) (kc_uart s) u ∧ consputc me c s = Ret tt (put_uart u s).
Proof.
  intros Hm Hp Hn. unfold consputc, echo in *. case_decide.
  2: { eapply uartputc_sync_eq; [done.. |]. cbn in Hn. lia. }
  cbn [length erase] in Hn.
  destruct (uartputc_sync_eq me hart 8 s) as (u1 & Hs1 & E1); [done | done | lia |].
  destruct (uartputc_sync_eq me hart 32 (put_uart u1 s)) as (u2 & Hs2 & E2);
    [done | cbn; by rewrite (sd_panicked _ _ _ Hs1) | cbn; pose proof (sd_ready _ _ _ Hs1) as Hr; cbn in Hr; lia |].
  destruct (uartputc_sync_eq me hart 8 (put_uart u2 (put_uart u1 s))) as (u3 & Hs3 & E3);
    [done | eapply sends_panicked, sends_panicked, Hp; done |
     cbn; pose proof (sd_ready _ _ _ Hs1) as Hr; pose proof (sd_ready _ _ _ Hs2) as Hr2; cbn in Hr, Hr2; lia |].
  exists u3. unfold bind. rewrite E1, E2, E3. split; [| done].
  change erase with ([u8 8] ++ [u8 32] ++ [u8 8]). eauto using sends_trans.
Qed.

Lemma kill_line_eq me hart l : ∀ d s,
  masked me hart s → u_panicked (kc_uart s) = false → tty_rep (kc_cons s) (Tty d l) →
  (3 * length l ≤ nready (kc_uart s))%nat →
  ∃ u k, sends (concat (replicate (length l) erase)) (kc_uart s) u ∧ tty_rep k (Tty d [])
    ∧ kill_line (length l) me s = Ret tt (put_uart u (put_cons k s)).
Proof.
  induction l as [|x l IH] using rev_ind; intros d s Hm Hp Hk Hn.
  { exists (kc_uart s), (kc_cons s). split_and!; [apply sends_nil | done |]. by destruct s. }
  rewrite length_app, Nat.add_1_r in *. cbn [length replicate concat kill_line].
  unfold bind at 1. cbn [gets]. rewrite decide_True.
  2: { split.
    - rewrite (tty_line_empty _ _ Hk). cbn. by destruct l.
    - erewrite tty_last by done. intros ->. apply (tr_line _ _ Hk). cbn. set_solver. }
  pose proof (rep_erase _ _ Hk l x eq_refl) as Hk'. cbn [t_done] in Hk'.
  set (k' := set_e _ _) in *.
  destruct (consputc_eq me hart BACKSPACE (put_cons k' s)) as (u1 & Hs1 & E1); [done | done | |].
  { change (length (echo BACKSPACE)) with 3%nat. cbn [kc_uart put_cons]. lia. }
  change (echo BACKSPACE) with erase in Hs1.
  destruct (IH d (put_uart u1 (put_cons k' s))) as (u2 & k2 & Hs2 & Hk2 & E2).
  { done. }
  { cbn. by rewrite (sd_panicked _ _ _ Hs1). }
  { done. }
  { pose proof (sd_ready _ _ _ Hs1) as Hr. change (length erase) with 3%nat in Hr. cbn [kc_uart put_cons put_uart] in *. lia. }
  exists u2, k2. split_and!; [by eapply sends_trans | done |].
  unfold bind at 1. unfold conop, zoom. cbn [modify]. fold k' (put_cons k' s).
  unfold bind. by rewrite E1, E2.
Qed.

Lemma wakeup_masked me hart ch s :
  masked me hart s → Forall (λ p, p_lock p = initlock) (ps_proc (kc_p s)) →
  length (ps_proc (kc_p s)) = nproc →
  wakeup me ch (kc_p s) = Ret tt (put_procs (wake ch <$> ps_proc (kc_p s)) (kc_p s)).
Proof.
  intros (Hc & Hn & He) Hf Hl. destruct (wakeup_eq me ch hart (kc_p s)) as (c' & Hsame & E); [done | done | split; [lia | done] | done |].
  destruct hart as [q n b e]. cbn in Hn, He. subst e. apply same_hart_locked in Hsame as ->; [| done].
  rewrite E, put_hart_same; [done |]. done.
Qed.

Definition key_procs (c : Z) (t : tty) (ps : list proc) : list proc :=
  if decide (commits c t) then wake cons_r_chan <$> ps else ps.

Lemma no_commit c t : ¬ is_text c t → ∀ ps, key_procs c t ps = ps.
Proof. intros Ht ps. unfold key_procs. rewrite decide_False; [done |]. by intros [? _]. Qed.

Lemma put_procs_id s : Kcon (put_procs (ps_proc (kc_p s)) (kc_p s)) (kc_cons s) (kc_uart s) (kc_mem s) = s.
Proof. by destruct s as [[] ? ? ?]. Qed.

(** A text key: echoed, stored, and the line handed over when it is done. *)
Lemma text_body me hart c s t :
  masked me hart s → u_panicked (kc_uart s) = false → (1 ≤ nready (kc_uart s))%nat →
  tty_rep (kc_cons s) t → 0 <= c < 256 → is_text c t →
  Forall (λ p, p_lock p = initlock) (ps_proc (kc_p s)) → length (ps_proc (kc_p s)) = nproc →
  ∃ u k, sends [cooked c] (kc_uart s) u ∧ tty_rep k (tty_key c t)
    ∧ consoleintr_switch me c s = Ret tt (Kcon (put_procs (key_procs c t (ps_proc (kc_p s))) (kc_p s)) k u (kc_mem s)).
Proof.
  intros Hm Hp Hn Hk Hc Htext Hf Hl. pose proof Htext as (H0P & H0U & H0H & H0d & Hc0 & Hs).
  assert (Hcc : 0 <= cooked c < 256) by (unfold cooked, key_nl; case_decide; lia).
  assert (Hecho : echo (cooked c) = [cooked c]).
  { unfold echo. rewrite decide_False by (unfold BACKSPACE; lia). f_equal. apply Z.mod_small. lia. }
  destruct (consputc_eq me hart (cooked c) s) as (u & Hu & Eu); [done.. | by rewrite Hecho |].
  rewrite Hecho in Hu. exists u. unfold consoleintr_switch, bind at 1. cbn [gets].
  rewrite (decide_False (P := c = key_P)) by done. rewrite (decide_False (P := c = key_U)) by done.
  rewrite (decide_False (P := c = key_H ∨ _)) by tauto.
  rewrite decide_True by (by rewrite (tty_full _ _ Hk)).
  fold (cooked c). unfold bind at 1. rewrite Eu. unfold bind, conop, zoom. cbn [modify gets kc_p kc_cons kc_uart kc_mem put_uart].
  unfold tty_key, key_procs. rewrite (decide_False (P := c = key_U)) by done.
  rewrite (decide_False (P := c = key_H ∨ _)) by tauto. rewrite (decide_True (P := is_text c t)) by done.
  pose proof (cons_put_ring _ _ Hk _ Hs Hcc) as (_ & _ & He).
  assert (Hiff : commits c t ↔ cooked c = key_nl ∨ cooked c = key_D
    ∨ c_e (cons_put (cooked c) (kc_cons s)) = u32 (c_r (cons_put (cooked c) (kc_cons s)) + INPUT_BUF)).
  { unfold commits. rewrite He. cbn [c_r cons_put]. change INPUT_BUF with (Z.of_nat input_buf).
    pose proof (tr_r _ _ Hk). unfold input_buf in *. split.
    - intros (_ & [?|[?|E]]); [tauto.. |]. right; right. do 2 f_equal. lia.
    - intros [?|[?|E]]; [tauto.. |]. split; [done |]. right; right. apply u32_add_inj in E; lia. }
  destruct (decide (commits c t)) as [Hcm|Hcm].
  - rewrite decide_True by tauto. pose proof (rep_commit _ _ Hk _ Hs Hcc) as Hrep.
    eexists. split_and!; [done | apply Hrep |]. unfold pop, zoom. cbn [kc_p kc_cons kc_uart kc_mem].
    by rewrite (wakeup_masked me hart).
  - rewrite decide_False by tauto. eexists. split_and!; [done | apply (rep_put _ _ Hk); [done | done | tauto] |].
    cbn [ret]. by destruct s as [[] ? ? ?].
Qed.

Lemma switch_spec me hart c s t :
  masked me hart s → u_panicked (kc_uart s) = false → (384 ≤ nready (kc_uart s))%nat →
  tty_rep (kc_cons s) t → 0 <= c < 256 →
  Forall (λ p, p_lock p = initlock) (ps_proc (kc_p s)) → length (ps_proc (kc_p s)) = nproc →
  ∃ u k, sends (tty_echo c t) (kc_uart s) u ∧ tty_rep k (tty_key c t)
    ∧ consoleintr_switch me c s = Ret tt (Kcon (put_procs (key_procs c t (ps_proc (kc_p s))) (kc_p s)) k u (kc_mem s)).
Proof.
  intros Hm Hp Hn Hk Hc Hf Hl. destruct (decide (is_text c t)) as [Htext|Htext].
  { unfold tty_echo. pose proof Htext as (? & ? & ? & ? & ? & ?).
    rewrite decide_False, decide_False, decide_True by tauto. eapply text_body; try done. lia. }
  rewrite (no_commit _ _ Htext). unfold consoleintr_switch, bind at 1. cbn [gets]. unfold tty_key, tty_echo.
  rewrite !(decide_False (P := is_text c t)) by done.
  destruct (decide (c = key_U)) as [->|HU].
  { rewrite decide_False by done. rewrite (tty_line_length _ _ Hk), Nat2Z.id.
    pose proof (tty_rep_size _ _ Hk) as Hs. unfold tty_size, input_buf in Hs. destruct t as [d l]. cbn in *.
    destruct (kill_line_eq me hart l d s) as (u & k & Hu & Hrep & E); [done.. | lia |].
    exists u, k. split_and!; [done.. |]. rewrite E. by destruct s as [[] ? ? ?]. }
  destruct (decide (c = key_H ∨ c = key_del)) as [HH|HH].
  { rewrite (decide_False (P := c = key_P)) by (destruct HH as [-> | ->]; done).
    destruct (decide (t_line t = [])) as [El|El].
    - rewrite decide_False by (rewrite (tty_line_empty _ _ Hk); tauto).
      exists (kc_uart s), (kc_cons s). split_and!; [apply sends_nil | | by rewrite put_procs_id].
      rewrite El. cbn. destruct t; cbn in *. by subst.
    - rewrite decide_True by (by rewrite (tty_line_empty _ _ Hk)).
      destruct (t_line t) as [|x l _] eqn:Et using rev_ind; [done |].
      pose proof (rep_erase _ _ Hk _ _ Et) as Hrep. set (k' := set_e _ _) in *.
      destruct (consputc_eq me hart BACKSPACE (put_cons k' s)) as (u & Hu & E); [done | done | |].
      { change (length (echo BACKSPACE)) with 3%nat. cbn [kc_uart put_cons]. lia. }
      exists u, k'. split_and!; [done | |].
      + rewrite length_app, Nat.add_sub, take_app_length. done.
      + unfold bind, conop, zoom. cbn [modify]. fold k' (put_cons k' s). rewrite E. by destruct s as [[] ? ? ?]. }
  exists (kc_uart s), (kc_cons s). split_and!; [apply sends_nil | done |]. rewrite put_procs_id.
  case_decide as HP; [done |]. rewrite decide_False; [done |]. rewrite (tty_full _ _ Hk).
  intros [? ?]. apply Htext. unfold is_text. tauto.
Qed.

(** Between handlers: the hart is outside every lock of the console, no
    process lock is held and the port works. *)
Record ready (me : nat) (hart : cpu) s : Prop := {
  rd_hart : ps_cpus (kc_p s) !! me = Some hart;
  rd_ok : cpu_ok hart;
  rd_cons : lock_of cons_lock (kc_p s) = initlock;
  rd_uart : lock_of uart_tx_lock (kc_p s) = initlock;
  rd_procs : Forall (λ p, p_lock p = initlock) (ps_proc (kc_p s));
  rd_table : length (ps_proc (kc_p s)) = nproc;
  rd_panicked : u_panicked (kc_uart s) = false;
}.

Lemma unlock_addr_pushed me a c (p : pst F) :
  ps_cpus p !! me = Some (pushed c) → cpu_ok c → lock_of (LkAddr a) p = held me →
  unlock me (LkAddr a) p = Ret tt (put_lock (LkAddr a) initlock (put_hart me (settle c) p)).
Proof.
  intros Hc Hok Hl. unfold unlock, lockop, zoom. by rewrite (cpu_at_eq _ _ _ Hc), Hl, release_pushed.
Qed.

Lemma wake_unlocked ch (l : list proc) :
  Forall (λ p, p_lock p = initlock) l → Forall (λ p, p_lock p = initlock) (wake ch <$> l).
Proof. intros Hf. apply Forall_fmap. eapply Forall_impl; [done |]. intros p Hp. cbn. by rewrite wake_lock. Qed.

Lemma key_procs_ok c t (l : list proc) :
  Forall (λ p, p_lock p = initlock) l →
  Forall (λ p, p_lock p = initlock) (key_procs c t l) ∧ length (key_procs c t l) = length l.
Proof.
  intros Hf. unfold key_procs. case_decide; [| done]. rewrite length_fmap. split; [| done].
  by apply wake_unlocked.
Qed.

(** What an interrupt handler leaves of the process machine: the hart [c] as
    it was, some sleeping processes awake, every lock as before, and the
    memory untouched. *)
Definition woken (p p' : proc) : Prop := p' = p ∨ (p_state p = SLEEPING ∧ p' = set_state RUNNABLE p).
Record handled (me : nat) (c : cpu) (p p' : pst F) : Prop := {
  hd_cpus : ∃ c', same_hart c c' ∧ ps_cpus p' = <[me := c']> (ps_cpus p);
  hd_procs : Forall2 woken (ps_proc p) (ps_proc p');
  hd_locks : ∀ a, lock_of (LkAddr a) p' = lock_of (LkAddr a) p;
  hd_mem : ps_mem p' = ps_mem p;
}.

Lemma woken_refl (l : list proc) : Forall2 woken l l.
Proof. apply Forall_Forall2_diag, Forall_forall. intros p _. by left. Qed.
Lemma woken_wake ch (l : list proc) : Forall2 woken l (wake ch <$> l).
Proof.
  apply Forall2_fmap_r, Forall_Forall2_diag, Forall_forall. intros p _. cbn. unfold wake.
  case_decide as Hp; [right; tauto | by left].
Qed.
Lemma woken_trans (l1 l2 l3 : list proc) : Forall2 woken l1 l2 → Forall2 woken l2 l3 → Forall2 woken l1 l3.
Proof.
  intros H1. revert l3. induction H1 as [|x y l1 l2 Hxy H1 IH]; intros l3 H2; inversion_clear H2 as [|? z ? ? Hyz]; constructor; [| by apply IH].
  destruct Hxy as [->|[Hx ->]]; [done |]. destruct Hyz as [->|[Hy ->]]; [by right | by destruct (x)].
Qed.

Lemma handled_refl me c (p : pst F) : ps_cpus p !! me = Some c → cpu_ok c → handled me c p p.
Proof.
  intros Hc Hok. split; [| apply woken_refl | done | done].
  exists c. split; [by apply same_hart_refl |]. by rewrite list_insert_id.
Qed.
Lemma handled_trans me c c' (p1 p2 p3 : pst F) :
  handled me c p1 p2 → same_hart c c' → ps_cpus p2 !! me = Some c' → handled me c' p2 p3 → handled me c p1 p3.
Proof.
  intros [(d & Hd & E) W1 L1 M1] Hc Hp [(d' & Hd' & E') W2 L2 M2]. split.
  - exists d'. split; [by eapply same_hart_trans |]. by rewrite E', E, list_insert_insert_eq.
  - by eapply woken_trans.
  - intros a. by rewrite L2, L1.
  - congruence.
Qed.

(** Under a lock that was free, a handler that wakes processes. *)
Lemma handled_locked me a c (p : pst F) l :
  ps_cpus p !! me = Some c → cpu_ok c → lock_of (LkAddr a) p = initlock → Forall2 woken (ps_proc p) l →
  handled me c p (put_lock (LkAddr a) initlock (put_hart me (settle c)
    (put_procs l (put_lock (LkAddr a) (held me) (put_hart me (pushed c) p))))).
Proof.
  intros Hc Hok Hl Hw. split; cbn.
  - exists (settle c). split; [by apply same_hart_settle |]. by rewrite list_insert_insert_eq.
  - done.
  - intros b. cbn in Hl. destruct (decide (b = a)) as [->|Hne]; [by rewrite lookup_insert_eq |].
    by rewrite !lookup_insert_ne by done.
  - done.
Qed.

(** The interrupt handler of the console implements the line
    discipline: it finishes, the input buffer represents the queue and the
    line that the key leaves (text, erase, kill, newline, end of file, a full
    buffer), the key is echoed, sleeping readers are woken exactly when input
    became available, and the lock is free again. *)
Lemma consoleintr_key me hart c s t :
  ready me hart s → (384 ≤ nready (kc_uart s))%nat → tty_rep (kc_cons s) t → 0 <= c < 256 →
  ∃ s', consoleintr me c s = Ret tt s' ∧ ready me (settle hart) s'
    ∧ tty_rep (kc_cons s') (tty_key c t) ∧ sends (tty_echo c t) (kc_uart s) (kc_uart s')
    ∧ ps_proc (kc_p s') = key_procs c t (ps_proc (kc_p s)) ∧ kc_mem s' = kc_mem s
    ∧ handled me hart (kc_p s) (kc_p s').
Proof.
  intros Hrd Hn Hk Hc. pose proof (rd_hart _ _ _ Hrd) as Hh. pose proof (lookup_lt_Some _ _ _ Hh) as Hlt.
  pose proof (rd_ok _ _ _ Hrd) as Hok.
  pose (s1 := Kcon (put_lock cons_lock (held me) (put_hart me (pushed hart) (kc_p s)))
    (kc_cons s) (kc_uart s) (kc_mem s)).
  assert (Hm : masked me (pushed hart) s1).
  { split_and!; [by apply list_lookup_insert_eq | destruct Hok; cbn; lia | done]. }
  destruct (switch_spec me (pushed hart) c s1 t) as (u & k & Hu & Hrep & E); [done | apply Hrd | done.. | apply Hrd | apply Hrd |].
  destruct (key_procs_ok c t (ps_proc (kc_p s)) (rd_procs _ _ _ Hrd)) as [Hf Hl].
  eexists. split.
  { pose proof (lock_addr me 3 hart (kc_p s) Hh (rd_cons _ _ _ Hrd) : lock me cons_lock _ = _) as El.
    unfold consoleintr, bind, pop, zoom. rewrite El. fold cons_lock s1. rewrite E.
    cbn [kc_p kc_cons kc_uart kc_mem]. unfold cons_lock at 1.
    rewrite (unlock_addr_pushed me 3 hart); [done | by apply list_lookup_insert_eq | done |].
    cbn. by rewrite lookup_insert_eq. }
  cbn [kc_p kc_cons kc_uart kc_mem]. split_and!; [| done | done | done | done |].
  2:{ apply (handled_locked me 3 hart (kc_p s)); [done | done | apply Hrd |].
      unfold key_procs. case_decide; [apply woken_wake | apply woken_refl]. }
  split; cbn [kc_p kc_cons kc_uart kc_mem].
  - cbn. rewrite list_insert_insert_eq. by apply list_lookup_insert_eq.
  - apply (same_hart_settle hart Hok).
  - cbn. by rewrite lookup_insert_eq.
  - cbn. rewrite !lookup_insert_ne by done. apply (rd_uart _ _ _ Hrd).
  - done.
  - rewrite <- (rd_table _ _ _ Hrd). apply Hl.
  - eapply sends_panicked; [done | apply Hrd].
Qed.

(** *** Sleeping with a second lock held *)
Lemma sched_locks me i p n b (q : pst F) :
  ps_cpus q !! me = Some (Cpu (Some i) n b false) → 1 < n → ps_proc q !! i = Some p → p_lock p = held me →
  sched me q = Panic "sched locks".
Proof.
  intros Hc Hn Hp Hl. unfold sched, bind. rewrite (curproc_eq me _ i q Hc); [| split; cbn; [lia | done] | done].
  rewrite settle_masked, put_hart_same by (done || (cbn; lia)). cbn. erewrite proc_at_eq, cpu_at_eq by done. rewrite Hl.
  unfold holding. cbn. rewrite bool_decide_true by done. cbn. by rewrite decide_True by lia.
Qed.

Lemma sleep_nested me i p n b chan a (q : pst F) :
  ps_cpus q !! me = Some (Cpu (Some i) n b false) → 1 < n → ps_proc q !! i = Some p → p_lock p = initlock →
  lock_of (LkAddr a) q = held me →
  sleep me chan (LkAddr a) q = Panic "sched locks".
Proof.
  intros Hc Hn Hp Hl Ha. pose proof (lookup_lt_Some _ _ _ Hc). pose proof (lookup_lt_Some _ _ _ Hp).
  rewrite sleep_eq. unfold bind. rewrite (curproc_eq me _ i q Hc); [| split; cbn; [lia | done] | done].
  rewrite settle_masked, put_hart_same by (done || (cbn; lia)).
  rewrite decide_True by done. rewrite (lock_proc me i p _ q Hp Hl Hc).
  erewrite unlock_addr; [| cbn; rewrite list_lookup_insert_eq by done; reflexivity | done | cbn; lia].
  erewrite upd_proc_eq by (cbn; by rewrite list_lookup_insert_eq).
  erewrite upd_proc_eq by (cbn; by rewrite list_lookup_insert_eq by (by rewrite length_insert)).
  erewrite (sched_locks me i); [done | | | |].
  - cbn. rewrite !(decide_False (P := n = 0)), !(decide_False (P := n + 1 - 1 = 0)) by lia.
    by rewrite list_lookup_insert_eq by (by rewrite length_insert).
  - lia.
  - cbn. by rewrite list_lookup_insert_eq by (by rewrite !length_insert).
  - done.
Qed.

(** C39: A write to the console that finds the transmit buffer full stops the
    machine: [uartputc] sleeps while [consolewrite] holds [cons.lock], and
    [sched] panics because the hart holds a second lock. *)
Theorem consolewrite_full_panics me i p b e src n x s :
  ready me (Cpu (Some i) 0 b e) s → ps_proc (kc_p s) !! i = Some p → tx_full (kc_uart s) = true →
  0 < n → um_copyin (u64 src) 1 (kc_mem s) = (0, [x]) →
  consolewrite me src n s = Panic "sched locks".
Proof.
  intros Hrd Hp Hfull Hn Hx. pose proof (rd_hart _ _ _ Hrd) as Hh. pose proof (lookup_lt_Some _ _ _ Hh) as Hlt.
  unfold consolewrite, bind, pop at 1, zoom.
  rewrite (lock_addr me 3 _ (kc_p s) Hh (rd_cons _ _ _ Hrd) : lock me cons_lock _ = _).
  destruct (Z.to_nat n) as [|k] eqn:En; [lia |]. cbn [consolewrite_loop].
  unfold bind at 1. cbn [gets kc_mem]. rewrite Z.add_0_r, Hx. rewrite decide_False by done.
  unfold uartputc, bind, pop at 1, zoom. cbn [kc_p kc_cons kc_uart kc_mem].
  erewrite (lock_addr me 4 _ _ : _ → _ → lock me uart_tx_lock _ = _).
  2: { cbn. by rewrite list_lookup_insert_eq. }
  2: { cbn. rewrite lookup_insert_ne by done. apply (rd_uart _ _ _ Hrd). }
  cbn [gets kc_p kc_cons kc_uart kc_mem]. rewrite (rd_panicked _ _ _ Hrd).
  unfold uartputc_turn, bind, pop, zoom. cbn [gets kc_p kc_cons kc_uart kc_mem]. rewrite Hfull.
  unfold uart_tx_lock at 1. erewrite (sleep_nested me i p 2 e); [done | | lia | exact Hp | |].
  - cbn. rewrite list_lookup_insert_eq by (by rewrite length_insert). done.
  - exact (Forall_lookup_1 _ _ _ _ (rd_procs _ _ _ Hrd) Hp).
  - cbn. by rewrite lookup_insert_eq.
Qed.
End Machine.

(** ** Reading *)
Section Reading.
Context {F U : Type} `{FileOps F} `{UserMemOk U}.
Notation st := (kcon F U).
Implicit Types s : st.

(** [u'] is the memory [u] with [d] stored at [dst]. *)
Definition stored (u : U) (dst : Z) (d : list Z) (u' : U) : Prop :=
  um_wf u' ∧ ∀ a, um_byte u' a = (if decide (dst <= a < dst + Z.of_nat (length d))
                                  then d !! Z.to_nat (a - dst) else um_byte u a).

Lemma stored_nil u dst : um_wf u → stored u dst [] u.
Proof. intros Hw. split; [done |]. intros a. rewrite decide_False; [done | cbn; lia]. Qed.

Lemma stored_cons u u1 u2 dst c d :
  stored u dst [c] u1 → stored u1 (dst + 1) d u2 → stored u dst (c :: d) u2.
Proof.
  intros [_ Hs1] [Hw Hs2]. split; [done |]. intros a. rewrite Hs2, Hs1. cbn [length].
  repeat case_decide; try lia; try done.
  - replace (Z.to_nat (a - dst)) with (Datatypes.S (Z.to_nat (a - (dst + 1)))) by lia. done.
  - replace (a - dst) with 0 by lia. done.
Qed.

(** How the loop ends: by returning, or at the test for input. *)
Definition read_end (me : nat) (target dst n : Z) (d : nat) (blocked killed : bool) : M st (Z + Z * Z * bool) :=
  if blocked then
    if killed then pop (unlock me cons_lock);; ret (inl (-1))
    else let! b := pop (sleep me cons_r_chan cons_lock) in ret (inr (dst + Z.of_nat d, n - Z.of_nat d, b))
  else pop (unlock me cons_lock);; ret (inl (s32 (target - (n - Z.of_nat d)))).

Lemma read_end_step me target dst n d blocked killed :
  read_end me target (dst + 1) (n - 1) d blocked killed = read_end me target dst n (Datatypes.S d) blocked killed.
Proof.
  unfold read_end. replace (n - Z.of_nat (Datatypes.S d)) with (n - 1 - Z.of_nat d) by lia.
  by replace (dst + Z.of_nat (Datatypes.S d)) with (dst + 1 + Z.of_nat d) by lia.
Qed.

Lemma consoleread_loop_eq me hart i p target (k : nat) : ∀ dst s t,
  masked me hart s → c_proc hart = Some i → ps_proc (kc_p s) !! i = Some p →
  tty_rep (kc_cons s) t → um_wf (kc_mem s) → 0 <= dst → accessible (kc_mem s) dst (Z.of_nat k) →
  Z.of_nat k <= target < 2 ^ 31 →
  let '(d, r, blocked) := tty_read k (bool_decide (Z.of_nat k < target)) (t_done t) in
  ∃ con u, tty_rep con (Tty r (t_line t)) ∧ stored (kc_mem s) dst d u
    ∧ consoleread_loop k me target dst (Z.of_nat k) s
      = read_end me target dst (Z.of_nat k) (length d) blocked (bool_decide (p_killed p ≠ 0))
          (Kcon (kc_p s) con (kc_uart s) u).
Proof.
  induction k as [|k IH]; intros dst s t Hm Hi Hp Hk Hw Hd Ha Ht.
  { cbn [tty_read]. exists (kc_cons s), (kc_mem s). split_and!; [by destruct t | by apply stored_nil |].
    by destruct s. }
  cbn [consoleread_loop]. unfold bind at 1. cbn [gets]. destruct (t_done t) as [|c l] eqn:Ed.
  { cbn [tty_read]. rewrite decide_True by (by apply (tty_done_empty _ _ Hk)).
    exists (kc_cons s), (kc_mem s). split_and!; [rewrite <- Ed; by destruct t | by apply stored_nil |].
    unfold bind at 1, pop at 1, zoom. rewrite (curproc_masked me hart i) by done.
    unfold bind at 1. cbn [gets kc_p].
    rewrite (proc_at_eq _ _ _ Hp). unfold read_end. rewrite Z.add_0_r, Z.sub_0_r.
    clear IH. destruct (decide (p_killed p ≠ 0)); by case_bool_decide. }
  rewrite decide_False by (by rewrite (tty_done_empty _ _ Hk), Ed).
  destruct (rep_read _ _ Hk c l Ed) as [-> Hk1]. unfold bind at 1, conop at 1, zoom. cbn [modify].
  cbn [tty_read]. destruct (decide (c = key_D)) as [->|HcD].
  { eexists _, (kc_mem s). split_and!; [| by apply stored_nil |].
    2: { unfold read_end. rewrite Z.sub_0_r. unfold bind at 1. rewrite u32_small by lia.
      instantiate (1 := if bool_decide (Z.of_nat (Datatypes.S k) < target) then kc_cons s
        else set_r (u32 (c_r (kc_cons s) + 1)) (kc_cons s)).
      clear IH. destruct (decide (Z.of_nat (Datatypes.S k) < target)); case_bool_decide; [| done | done | done].
      unfold conop, zoom. cbn [modify]. cbn [kc_cons]. by rewrite (unread _ _ Hk). }
    clear IH. case_bool_decide; [| done]. cbn. rewrite <- Ed. destruct t. apply Hk. }
  unfold bind at 1. cbn [gets kc_mem].
  destruct (um_copyout_ok (kc_mem s) dst [c]) as (u1 & Eu & Hw1 & Hb1); [done | done | |].
  { intros [|j] Hj; [| cbn in Hj; lia]. apply Ha. lia. }
  rewrite Eu. unfold bind at 1. cbn [modify]. rewrite (decide_False (P := 0 = -1)) by done.
  assert (Hst : stored (kc_mem s) dst [c] u1) by done.
  destruct (decide (c = key_nl)) as [->|Hnl].
  { eexists _, u1. split_and!; [apply Hk1 | done |]. unfold read_end. cbn [length].
    by replace (Z.of_nat (Datatypes.S k) - Z.of_nat 1) with (Z.of_nat (Datatypes.S k) - 1) by lia. }
  assert (Hd1 : u64 (dst + 1) = dst + 1).
  { destruct (Ha 0 ltac:(lia)) as [x Hx]. apply um_byte_range in Hx; [| done]. apply Z.mod_small. lia. }
  rewrite Hd1. replace (Z.of_nat (Datatypes.S k) - 1) with (Z.of_nat k) by lia.
  pose (s1 := Kcon (kc_p s) (set_r (u32 (c_r (kc_cons s) + 1)) (kc_cons s)) (kc_uart s) u1).
  specialize (IH (dst + 1) s1 (Tty l (t_line t)) Hm Hi Hp Hk1 Hw1 ltac:(lia)).
  rewrite bool_decide_true in IH by lia. cbn [t_done t_line] in IH.
  destruct (tty_read k true l) as [[d r] blocked]. destruct IH as (con & u & Hrep & Hs & E).
  - intros j Hj. cbn [kc_mem s1]. rewrite Hb1. case_decide; [cbn in *; lia |].
    replace (dst + 1 + j) with (dst + (1 + j)) by lia. apply Ha. lia.
  - lia.
  - exists con, u. split_and!; [done | by eapply stored_cons |]. cbn [length]. rewrite <- read_end_step.
    replace (Z.of_nat (Datatypes.S k) - 1) with (Z.of_nat k) by lia. apply E.
Qed.

(** A read from the console delivers up to one line: the bytes before
    the first newline (and it), end-of-file mark or the end of the request,
    taken off the queue and stored at [dst]; an end-of-file mark after some
    bytes stays for the next read.  When the queue runs out before that, the
    process sleeps on the console with the lock released, or returns -1 when
    it was killed. *)
Lemma consoleread_line me i p b e dst (n : nat) s t d r blocked :
  ready me (Cpu (Some i) 0 b e) s → ps_proc (kc_p s) !! i = Some p → tty_rep (kc_cons s) t →
  um_wf (kc_mem s) → 0 <= dst → accessible (kc_mem s) dst (Z.of_nat n) → Z.of_nat n < 2 ^ 31 →
  tty_read n false (t_done t) = (d, r, blocked) →
  ∃ s', tty_rep (kc_cons s') (Tty r (t_line t)) ∧ stored (kc_mem s) dst d (kc_mem s')
    ∧ lock_of cons_lock (kc_p s') = initlock ∧ kc_uart s' = kc_uart s
    ∧ if blocked && bool_decide (p_killed p = 0)
      then (let! x := consoleread me dst (Z.of_nat n) in pop (scheduler_return me i);; ret x) s
             = Ret (inr (dst + Z.of_nat (length d), Z.of_nat n - Z.of_nat (length d), e)) s'
           ∧ ps_proc (kc_p s') = <[i := set_state SLEEPING (set_chan (Some cons_r_chan) p)]> (ps_proc (kc_p s))
      else consoleread me dst (Z.of_nat n) s
             = Ret (inl (if blocked then -1 else Z.of_nat (length d))) s'
           ∧ ready me (Cpu (Some i) 0 e e) s' ∧ ps_proc (kc_p s') = ps_proc (kc_p s).
Proof.
  intros Hrd Hp Hk Hw Hd Ha Hn Hr. pose proof (rd_hart _ _ _ Hrd) as Hh. pose proof (lookup_lt_Some _ _ _ Hh) as Hlt.
  pose (s1 := Kcon (put_lock cons_lock (held me) (put_hart me (pushed (Cpu (Some i) 0 b e)) (kc_p s)))
    (kc_cons s) (kc_uart s) (kc_mem s)).
  assert (Hm : masked me (Cpu (Some i) 1 e false) s1) by (split_and!; [by apply list_lookup_insert_eq | done..]).
  pose proof (consoleread_loop_eq me _ i p (Z.of_nat n) n dst s1 t Hm eq_refl Hp Hk Hw Hd Ha ltac:(lia)) as Hloop.
  rewrite bool_decide_false, Hr in Hloop by lia. destruct Hloop as (con & u & Hrep & Hs & E).
  assert (Erun : consoleread me dst (Z.of_nat n) s
    = read_end me (Z.of_nat n) dst (Z.of_nat n) (length d) blocked (bool_decide (p_killed p ≠ 0))
        (Kcon (kc_p s1) con (kc_uart s) u)).
  { unfold consoleread, bind, pop, zoom.
    rewrite (lock_addr me 3 _ (kc_p s) Hh (rd_cons _ _ _ Hrd) : lock me cons_lock _ = _).
    fold cons_lock s1. rewrite Nat2Z.id, u32_small by lia. apply E. }
  assert (Hul : unlock me cons_lock (kc_p s1)
    = Ret tt (put_lock cons_lock initlock (put_hart me (Cpu (Some i) 0 e e) (kc_p s1)))).
  { apply (unlock_addr me 3 (Some i) 1 e); [by apply list_lookup_insert_eq | cbn; by rewrite lookup_insert_eq | done]. }
  assert (Hunlocked : ready me (Cpu (Some i) 0 e e) (Kcon (put_lock cons_lock initlock
    (put_hart me (Cpu (Some i) 0 e e) (kc_p s1))) con (kc_uart s) u)).
  { split; try apply Hrd.
    - cbn. rewrite list_insert_insert_eq. by apply list_lookup_insert_eq.
    - cbn. by rewrite lookup_insert_eq.
    - cbn. rewrite !lookup_insert_ne by done. apply (rd_uart _ _ _ Hrd). }
  destruct (blocked && bool_decide (p_killed p = 0)) eqn:Eb.
  - apply andb_true_iff in Eb as [-> Ek%bool_decide_eq_true].
    assert (Hsl : (let! x := sleep me cons_r_chan cons_lock in scheduler_return me i;; ret x) (kc_p s1)
      = Ret e (put_lock cons_lock initlock (put_hart me (Cpu None 0 e e)
          (put_proc i (set_state SLEEPING (set_chan (Some cons_r_chan) p)) (kc_p s1))))).
    { apply (sleep_section me i p e cons_r_chan 3); [by apply list_lookup_insert_eq | done | | cbn; by rewrite lookup_insert_eq].
      exact (Forall_lookup_1 _ _ _ _ (rd_procs _ _ _ Hrd) Hp). }
    exists (Kcon (put_lock cons_lock initlock (put_hart me (Cpu None 0 e e)
      (put_proc i (set_state SLEEPING (set_chan (Some cons_r_chan) p)) (kc_p s1)))) con (kc_uart s) u).
    split_and!; [apply Hrep | apply Hs | cbn; by rewrite lookup_insert_eq | done | | done].
    { unfold bind at 1. rewrite Erun. unfold read_end. rewrite bool_decide_false by (intros Hx; by apply Hx).
      unfold bind, pop, zoom in Hsl |- *. cbn [kc_p].
      destruct (sleep me cons_r_chan cons_lock (kc_p s1)) as [x q| | |]; [| discriminate Hsl..].
      cbn [kc_p kc_cons kc_uart kc_mem ret].
      destruct (scheduler_return me i q) as [[] q'| | |]; [| discriminate Hsl..].
      cbn [ret] in Hsl. injection Hsl as -> ->. reflexivity. }
  - eexists (Kcon _ con (kc_uart s) u).
    split_and!; [apply Hrep | apply Hs | apply (rd_cons _ _ _ Hunlocked) | done | | apply Hunlocked | done].
    { rewrite Erun. unfold read_end. destruct blocked; cbn in Eb.
      - apply bool_decide_eq_false in Eb. rewrite bool_decide_true by done.
        unfold bind, pop, zoom. cbn [kc_p]. by rewrite Hul.
      - unfold bind, pop, zoom. cbn [kc_p]. rewrite Hul. cbn [ret kc_p kc_cons kc_uart kc_mem].
        do 2 f_equal. rewrite s32_small; [lia |].
        replace (Z.of_nat n - (Z.of_nat n - Z.of_nat (length d))) with (Z.of_nat (length d)) by lia.
        pose proof (tty_read_length _ _ _ _ _ _ Hr). lia. }
Qed.

(** Keys arriving one by one. *)
Fixpoint type_keys (me : nat) (keys : list Z) : M st unit :=
  match keys with
  | [] => ret tt
  | c :: keys => consoleintr me c;; type_keys me keys
  end.
Definition tty_keys (keys : list Z) (t : tty) : tty := foldl (λ t c, tty_key c t) t keys.

Lemma tty_echo_length c t k : tty_rep k t → (length (tty_echo c t) ≤ 384)%nat.
Proof.
  intros Hk%tty_rep_size. unfold tty_size, input_buf in Hk. unfold tty_echo. repeat case_decide; cbn; try lia.
  assert (∀ n, length (concat (replicate n erase)) = (3 * n)%nat) as ->; [| lia].
  induction n as [|n IH]; [done |]. cbn [replicate concat]. rewrite length_app, IH. cbn. lia.
Qed.

Lemma type_keys_spec me keys : ∀ hart s t,
  ready me hart s → Forall is_byte keys → (384 * length keys ≤ nready (kc_uart s))%nat → tty_rep (kc_cons s) t →
  ∃ hart' s', type_keys me keys s = Ret tt s' ∧ same_hart hart hart' ∧ ready me hart' s'
    ∧ tty_rep (kc_cons s') (tty_keys keys t) ∧ kc_mem s' = kc_mem s
    ∧ (∀ i p, ps_proc (kc_p s) !! i = Some p → p_state p ≠ SLEEPING → ps_proc (kc_p s') !! i = Some p).
Proof.
  induction keys as [|c keys IH]; intros hart s t Hrd Hkeys Hn Hk.
  { exists hart, s. split_and!; [done | apply same_hart_refl, Hrd | done..]. }
  apply Forall_cons in Hkeys as [Hc Hkeys]. cbn [length] in Hn.
  destruct (consoleintr_key me hart c s t) as (s1 & E1 & Hrd1 & Hk1 & Hs1 & Hp1 & Hm1 & _); [done | lia | done | done |].
  pose proof (sd_ready _ _ _ Hs1). pose proof (tty_echo_length c t _ Hk).
  destruct (IH (settle hart) s1 (tty_key c t)) as (h2 & s2 & E2 & Hh2 & Hrd2 & Hk2 & Hm2 & Hp2); [done | done | lia | done |].
  exists h2, s2. split_and!; [| | done | done | congruence |].
  - cbn [type_keys]. unfold bind. by rewrite E1.
  - eapply same_hart_trans; [| done]. apply same_hart_settle, Hrd.
  - intros i p Hp Hst. apply Hp2; [| done]. rewrite Hp1. unfold key_procs. case_decide; [| done].
    rewrite list_lookup_fmap, Hp. cbn. f_equal. unfold wake. by rewrite decide_False by tauto.
Qed.

(** C11: The console refines its line discipline.  After any key strokes
    (text, erase, kill, newline, end of file, more than fit), a read delivers
    up to one line of what the discipline has finished: the bytes before the
    first newline (and it), before an end-of-file mark, or the number asked
    for; they are stored at [dst] and taken off the queue.  When the input
    runs out before that, the process sleeps on the console with the lock
    released, or returns -1 when it was killed. *)
Theorem console_session me keys i p b e dst (n : nat) s t d r blocked :
  ready me (Cpu (Some i) 0 b e) s → ps_proc (kc_p s) !! i = Some p → p_state p ≠ SLEEPING →
  tty_rep (kc_cons s) t → Forall is_byte keys → (384 * length keys ≤ nready (kc_uart s))%nat →
  um_wf (kc_mem s) → 0 <= dst → accessible (kc_mem s) dst (Z.of_nat n) → Z.of_nat n < 2 ^ 31 →
  tty_read n false (t_done (tty_keys keys t)) = (d, r, blocked) →
  ∃ s', tty_rep (kc_cons s') (Tty r (t_line (tty_keys keys t))) ∧ stored (kc_mem s) dst d (kc_mem s')
    ∧ lock_of cons_lock (kc_p s') = initlock
    ∧ if blocked && bool_decide (p_killed p = 0)
      then (type_keys me keys;; let! x := consoleread me dst (Z.of_nat n) in pop (scheduler_return me i);; ret x) s
             = Ret (inr (dst + Z.of_nat (length d), Z.of_nat n - Z.of_nat (length d), e)) s'
           ∧ ps_proc (kc_p s') !! i = Some (set_state SLEEPING (set_chan (Some cons_r_chan) p))
      else (type_keys me keys;; consoleread me dst (Z.of_nat n)) s
             = Ret (inl (if blocked then -1 else Z.of_nat (length d))) s'
           ∧ ready me (Cpu (Some i) 0 e e) s' ∧ ps_proc (kc_p s') !! i = Some p.
Proof.
  intros Hrd Hp Hst Hk Hkeys Hn Hw Hd Ha Hlt Hr.
  destruct (type_keys_spec me keys _ s t Hrd Hkeys Hn Hk) as (h1 & s1 & E1 & Hh & Hrd1 & Hk1 & Hm1 & Hp1).
  apply same_hart_free in Hh as [b' ->]. specialize (Hp1 i p Hp Hst).
  destruct (consoleread_line me i p b' e dst n s1 (tty_keys keys t) d r blocked) as (s2 & Hk2 & Hs2 & Hl2 & _ & Hres);
    rewrite ?Hm1; try done.
  exists s2. rewrite <- Hm1. split_and!; [done.. |]. destruct (_ && _); destruct Hres as [Hrun Hrest]; (split; [unfold bind at 1; by rewrite E1 |]).
  - rewrite Hrest. apply list_lookup_insert_eq. by eapply lookup_lt_Some.
  - destruct Hrest as [? ->]. done.
Qed.
End Reading.

(** ** Buffered output *)
Record tx_rep (u : uart) (q : list Z) : Prop := {
  tx_ring : ring (u_buf u) (u_r u) q;
  tx_size : length (u_buf u) = 32%nat;
  tx_room : (length q < 32)%nat;
  tx_r : 0 <= u_r u < 32;
  tx_w : u_w u = (u_r u + Z.of_nat (length q)) mod 32;
}.

Lemma mod32_inj r a b : 0 <= a < 32 → 0 <= b < 32 → (r + a) mod 32 = (r + b) mod 32 → a = b.
Proof.
  intros Ha Hb E. pose proof (Z.div_mod (r + a) 32 ltac:(lia)). pose proof (Z.div_mod (r + b) 32 ltac:(lia)). lia.
Qed.

Lemma tx_empty_iff u q : tx_rep u q → tx_empty u = bool_decide (q = []).
Proof.
  intros Hu. pose proof (tx_r _ _ Hu). pose proof (tx_room _ _ Hu). unfold tx_empty. rewrite (tx_w _ _ Hu).
  apply bool_decide_ext. split; intros E.
  - rewrite <- (Z.mod_small (u_r u) 32) in E at 2 by done. rewrite <- (Z.add_0_r (u_r u)) in E at 2.
    apply mod32_inj in E; [| lia | lia]. by destruct q.
  - subst q. rewrite Z.add_0_r. by apply Z.mod_small.
Qed.

Lemma tx_full_iff u q : tx_rep u q → tx_full u = bool_decide (length q = 31%nat).
Proof.
  intros Hu. pose proof (tx_r _ _ Hu). pose proof (tx_room _ _ Hu). unfold tx_full, UART_TX_BUF_SIZE.
  rewrite (tx_w _ _ Hu), Zplus_mod_idemp_l. apply bool_decide_ext. split; intros E.
  - pose proof (Z.div_mod (u_r u + Z.of_nat (length q) + 1) 32 ltac:(lia)). lia.
  - rewrite E. replace (u_r u + Z.of_nat 31 + 1) with (u_r u + 1 * 32) by lia.
    rewrite Z_mod_plus_full. by apply Z.mod_small.
Qed.

Lemma tx_put_rep u q c :
  tx_rep u q → (length q < 31)%nat → 0 <= c < 256 → tx_rep (tx_put c u) (q ++ [c]).
Proof.
  intros Hu Hq Hc. pose proof (tx_size _ _ Hu) as Hs. unfold tx_put.
  replace (u8 c) with c by (symmetry; apply Z.mod_small; lia).
  assert (Eix : Z.to_nat (u_w u) = ring_ix (u_buf u) (u_r u + Z.of_nat (length q))).
  { rewrite (tx_w _ _ Hu). unfold ring_ix. by rewrite Hs. }
  split; cbn [u_buf u_w u_r].
  - rewrite Eix. apply ring_push; [apply (tx_ring _ _ Hu) | lia].
  - by rewrite length_insert.
  - rewrite length_app. cbn. lia.
  - apply (tx_r _ _ Hu).
  - rewrite (tx_w _ _ Hu). unfold UART_TX_BUF_SIZE. rewrite Zplus_mod_idemp_l, length_app. f_equal. cbn. lia.
Qed.

Lemma tx_get_rep u c q :
  tx_rep u (c :: q) → ∃ u', tx_get u = Ret c u' ∧ tx_rep u' q ∧ u_idle u' = u_idle u ∧ u_rx u' = u_rx u
    ∧ u_wire u' = u_wire u ∧ u_panicked u' = u_panicked u.
Proof.
  intros Hu. pose proof (tx_size _ _ Hu) as Hs. pose proof (tx_r _ _ Hu) as Hr.
  destruct (ring_pop _ _ _ _ (tx_ring _ _ Hu)) as [Hc Hring]. eexists. split.
  - unfold tx_get. unfold ring_ix in Hc. rewrite Hs, Z.mod_small in Hc by done. rewrite Hc. reflexivity.
  - split_and!; [| done..]. split; cbn [u_buf u_w u_r].
    + eapply ring_congr; [| apply Hring]. rewrite Hs. symmetry. apply Z.mod_mod. lia.
    + done.
    + pose proof (tx_room _ _ Hu) as Hq. cbn in Hq. lia.
    + apply Z.mod_pos_bound. done.
    + rewrite (tx_w _ _ Hu). unfold UART_TX_BUF_SIZE. rewrite Zplus_mod_idemp_l. f_equal. cbn [length]. lia.
Qed.

Section Output.
Context {F U : Type} `{FileOps F} `{UserMemOk U}.
Notation st := (kcon F U).
Implicit Types s : st.

(** What [uartstart] leaves: it has sent the first [k] bytes of the queue,
    and stopped at its end or at a port that is busy. *)
Record sent (k : nat) (q : list Z) (u u' : uart) : Prop := {
  se_wire : u_wire u' = u_wire u ++ take k q;
  se_rep : tx_rep u' (drop k q);
  se_k : (k ≤ length q)%nat;
  se_idle : ∃ j, (j ≤ k + 1)%nat ∧ u_idle u' = drop j (u_idle u);
  se_stop : k = length q ∨ default false (head (drop k (u_idle u))) = false;
  se_port : u_rx u' = u_rx u ∧ u_panicked u' = u_panicked u;
}.
Definition sent_procs (k : nat) (p : pst F) : pst F :=
  if decide (k = 0%nat) then p else put_procs (wake uart_r_chan <$> ps_proc p) p.

Lemma wake_idem ch p : wake ch (wake ch p) = wake ch p.
Proof. unfold wake. repeat (case_decide; cbn in *); naive_solver. Qed.

Lemma uartstart_spec me hart fuel q : ∀ s,
  masked me hart s → Forall (λ p, p_lock p = initlock) (ps_proc (kc_p s)) → length (ps_proc (kc_p s)) = nproc →
  tx_rep (kc_uart s) q → Forall is_byte q → (length q < fuel)%nat →
  ∃ k u, sent k q (kc_uart s) u
    ∧ uartstart_loop fuel me s = Ret tt (Kcon (sent_procs k (kc_p s)) (kc_cons s) u (kc_mem s)).
Proof.
  induction fuel as [|fuel IH] in q |-*; intros s Hm Hf Hl Hq Hb Hfuel; [lia |].
  cbn [uartstart_loop]. unfold bind at 1. cbn [gets]. rewrite (tx_empty_iff _ _ Hq). case_bool_decide as Eq.
  { subst q. exists 0%nat, (kc_uart s). split; [| by destruct s].
    split; try done; [by rewrite app_nil_r | exists 0%nat; split; [lia | done] | by left]. }
  destruct q as [|c q]; [done |]. apply Forall_cons in Hb as [Hc Hb].
  unfold bind at 1, uop at 1, zoom. cbn [lsr_tx_idle].
  pose (u1 := Uart (u_buf (kc_uart s)) (u_w (kc_uart s)) (u_r (kc_uart s)) (u_panicked (kc_uart s))
    (tail (u_idle (kc_uart s))) (u_rx (kc_uart s)) (u_wire (kc_uart s))). fold u1.
  assert (Hu1 : tx_rep u1 (c :: q)) by (destruct Hq; by split).
  destruct (default false (head (u_idle (kc_uart s)))) eqn:Ei; cbn [negb].
  2: { exists 0%nat, u1. split; [| done].
    split; try done; [by rewrite app_nil_r | cbn; lia | | by right].
    exists 1%nat. split; [lia |]. cbn. by destruct (u_idle (kc_uart s)). }
  destruct (u_idle (kc_uart s)) as [|[] idle] eqn:Eidle; [done | | done].
  destruct (tx_get_rep u1 c q Hu1) as (u2 & E2 & Hu2 & Hi2 & Hrx2 & Hw2 & Hp2).
  unfold bind at 1, uop at 1, zoom. cbn [kc_uart]. rewrite E2.
  unfold bind at 1, pop, zoom. cbn [kc_p kc_cons kc_uart kc_mem].
  rewrite (wakeup_masked me hart uart_r_chan s) by done.
  unfold bind at 1, uop at 1, zoom. cbn [kc_p kc_cons kc_uart kc_mem write_thr modify].
  set (u3 := Uart _ _ _ _ _ _ _). set (s3 := Kcon _ _ _ _).
  assert (Hu3 : tx_rep u3 q) by (destruct Hu2; by split).
  destruct (IH q s3) as (k & u & [Hwire Hrep Hk (j & Hj & Hidle) Hstop (Hrx & Hpan)] & E).
  - done.
  - by apply wake_unlocked.
  - cbn. by rewrite length_fmap.
  - done.
  - done.
  - cbn in Hfuel. lia.
  - exists (Datatypes.S k), u. cbn [kc_uart s3] in *.
    assert (Ei3 : u_idle u3 = idle) by (cbn [u3 u_idle]; rewrite Hi2; cbn [u1 u_idle]; by rewrite ?Eidle).
    rewrite Ei3 in *. split; [split |].
    + rewrite Hwire. cbn [u3 u_wire take]. rewrite Hw2. cbn [u1 u_wire]. rewrite <- app_assoc.
      do 2 f_equal. replace (u8 c) with c; [done |]. symmetry. by apply Z.mod_small.
    + done.
    + cbn. lia.
    + exists (Datatypes.S j). split; [lia |]. by rewrite Hidle, Eidle.
    + rewrite Eidle. cbn [length drop]. destruct Hstop; [left; congruence | by right].
    + rewrite Hrx, Hpan. cbn [u3 u_rx u_panicked]. by rewrite Hrx2, Hp2.
    + rewrite E. unfold sent_procs. cbn [kc_p s3 decide]. rewrite (decide_False (P := Datatypes.S k = 0%nat)) by lia.
      case_decide; [done |]. unfold put_procs. cbn.
      by rewrite <- list_fmap_compose, (list_fmap_ext _ (wake uart_r_chan) _ (λ _ p _, wake_idem _ p)).
Qed.

(** The state of a hart that is inside [cons.lock]. *)
Record writing (me : nat) (hart : cpu) s : Prop := {
  wr_hart : masked me hart s;
  wr_cons : lock_of cons_lock (kc_p s) = held me;
  wr_uart : lock_of uart_tx_lock (kc_p s) = initlock;
  wr_procs : Forall (λ p, p_lock p = initlock) (ps_proc (kc_p s));
  wr_table : length (ps_proc (kc_p s)) = nproc;
  wr_panicked : u_panicked (kc_uart s) = false;
}.

Lemma sent_procs_ok k (p : pst F) :
  Forall (λ p, p_lock p = initlock) (ps_proc p) →
  Forall (λ p, p_lock p = initlock) (ps_proc (sent_procs k p)) ∧ length (ps_proc (sent_procs k p)) = length (ps_proc p)
  ∧ ps_cpus (sent_procs k p) = ps_cpus p ∧ ps_locks (sent_procs k p) = ps_locks p.
Proof.
  intros Hf. unfold sent_procs. case_decide; [done |]. cbn. rewrite length_fmap. split_and!; [| done..].
  by apply wake_unlocked.
Qed.

Lemma uartputc_spec me hart c q s :
  writing me hart s → tx_rep (kc_uart s) q → Forall is_byte q → (length q < 31)%nat → is_byte c →
  ∃ k u s', uartputc me c s = Ret (inl tt) s' ∧ sent k (q ++ [c]) (tx_put c (kc_uart s)) u
    ∧ kc_uart s' = u ∧ kc_mem s' = kc_mem s ∧ kc_cons s' = kc_cons s ∧ writing me hart s'.
Proof.
  intros Hw Hq Hb Hl Hc. destruct (wr_hart _ _ _ Hw) as (Hh & Hn & He). pose proof (lookup_lt_Some _ _ _ Hh) as Hlt.
  pose (s1 := Kcon (put_lock uart_tx_lock (held me) (put_hart me (pushed hart) (kc_p s)))
    (kc_cons s) (tx_put c (kc_uart s)) (kc_mem s)).
  destruct (uartstart_spec me (pushed hart) 32 (q ++ [c]) s1) as (k & u & Hsent & E).
  { split_and!; [by apply list_lookup_insert_eq | cbn; lia | done]. }
  { apply (wr_procs _ _ _ Hw). }
  { apply (wr_table _ _ _ Hw). }
  { by apply tx_put_rep. }
  { apply Forall_app_2; [done | by constructor]. }
  { rewrite length_app. cbn. lia. }
  destruct (sent_procs_ok k (kc_p s1) (wr_procs _ _ _ Hw)) as (Hf & Hlen & Hcpus & Hlocks).
  exists k, u. eexists. split_and!; [| done |..].
  { unfold uartputc, bind at 1, pop, zoom.
    rewrite (lock_addr me 4 _ (kc_p s) Hh (wr_uart _ _ _ Hw) : lock me uart_tx_lock _ = _). fold uart_tx_lock.
    unfold bind at 1. cbn [gets kc_uart]. rewrite (wr_panicked _ _ _ Hw).
    unfold uartputc_turn, bind at 1. cbn [gets kc_uart].
    rewrite (tx_full_iff _ _ Hq), bool_decide_false by lia.
    unfold bind, uop, pop, zoom. cbn [modify kc_p kc_cons kc_uart kc_mem]. fold s1.
    unfold uartstart. change (Z.to_nat UART_TX_BUF_SIZE) with 32%nat. rewrite E. cbn [kc_p kc_cons kc_uart kc_mem].
    rewrite (unlock_addr_pushed me 4 hart (sent_procs k (kc_p s1)) : _ → _ → _ → unlock me uart_tx_lock _ = _); [reflexivity | | by split; [lia |] |].
    - rewrite Hcpus. by apply list_lookup_insert_eq.
    - unfold lock_of. rewrite Hlocks. cbn. by rewrite lookup_insert_eq. }
  1-3: done.
  split; cbn [kc_p kc_cons kc_uart kc_mem].
  - split_and!; [| done | done].
    change (<[me := settle hart]> (ps_cpus (sent_procs k (kc_p s1))) !! me = Some hart).
    rewrite Hcpus, settle_masked by done. apply list_lookup_insert_eq. cbn. by rewrite length_insert.
  - change (default initlock (<[4 := initlock]> (ps_locks (sent_procs k (kc_p s1))) !! 3) = held me).
    rewrite lookup_insert_ne, Hlocks by done. cbn. rewrite lookup_insert_ne by done. apply (wr_cons _ _ _ Hw).
  - cbn. by rewrite lookup_insert_eq.
  - done.
  - rewrite <- (wr_table _ _ _ Hw). apply Hlen.
  - destruct (se_port _ _ _ _ Hsent) as [_ ->]. apply (wr_panicked _ _ _ Hw).
Qed.

(** With a port that is always idle the queue is empty between bytes. *)
Lemma consolewrite_loop_spec me hart src bs : ∀ i s m,
  writing me hart s → tx_rep (kc_uart s) [] → u_idle (kc_uart s) = replicate m true →
  (2 * length bs ≤ m)%nat → Forall is_byte bs → um_wf (kc_mem s) → 0 <= src + i →
  holds (kc_mem s) (src + i) bs →
  ∃ s', consolewrite_loop (length bs) me src i s = (pop (unlock me cons_lock);; ret (inl (i + Z.of_nat (length bs)))) s'
    ∧ writing me hart s' ∧ u_wire (kc_uart s') = u_wire (kc_uart s) ++ bs.
Proof.
  induction bs as [|x bs IH]; intros i s m Hw Hq Hi Hm Hb Hwf Hsrc Hh.
  { exists s. cbn [length consolewrite_loop]. rewrite Z.add_0_r, app_nil_r. done. }
  apply Forall_cons in Hb as [Hx Hb]. cbn [length consolewrite_loop].
  destruct (holds_u64 _ _ _ _ Hwf Hh) as [Hbyte Hu64].
  unfold bind at 1. cbn [gets]. rewrite Hu64.
  assert (um_copyin (src + i) 1 (kc_mem s) = (0, [x])) as ->.
  { apply (um_copyin_ok _ _ [x]); [done | done |]. intros [|j] y Hy; [| done].
    cbn in Hy. simplify_eq. rewrite Z.add_0_r. by rewrite <- Hu64. }
  rewrite decide_False by done. change (default 0 (head [x])) with x.
  destruct (uartputc_spec me hart x [] s) as (k & u & s1 & E1 & Hsent & Hu & Hmem & Hcon & Hw1);
    [done | done | constructor | cbn; lia | done |].
  unfold bind at 1. rewrite E1.
  destruct (se_idle _ _ _ _ Hsent) as (j & Hj & Hidle). pose proof (se_k _ _ _ _ Hsent) as Hk. cbn in Hk.
  cbn [tx_put u_idle] in Hidle. rewrite Hi, drop_replicate in Hidle.
  assert (k = 1%nat) as ->.
  { destruct (se_stop _ _ _ _ Hsent) as [-> | Hs]; [done |]. cbn [tx_put u_idle] in Hs. rewrite Hi, drop_replicate in Hs.
    destruct (m - k)%nat eqn:Emk; [cbn in Hm; lia | done]. }
  destruct (IH (i + 1) s1 (m - j)%nat) as (s' & E' & Hw' & Hwire').
  - done.
  - rewrite Hu. apply (se_rep _ _ _ _ Hsent).
  - by rewrite Hu.
  - cbn in Hm. lia.
  - done.
  - by rewrite Hmem.
  - lia.
  - rewrite Hmem, Z.add_assoc. by apply holds_tail with x.
  - exists s'. split_and!; [| done |].
    + rewrite E'. by replace (i + 1 + Z.of_nat (length bs)) with (i + Z.of_nat (Datatypes.S (length bs))) by lia.
    + rewrite Hwire', Hu, (se_wire _ _ _ _ Hsent). cbn. by rewrite <- app_assoc.
Qed.

(** With a port that keeps up, [consolewrite] sends the bytes of the
    process's buffer, in order and completely, returns their number and
    gives both locks back. *)
Theorem consolewrite_sends me i b e src bs s m :
  ready me (Cpu (Some i) 0 b e) s → tx_rep (kc_uart s) [] → u_idle (kc_uart s) = replicate m true →
  (2 * length bs ≤ m)%nat → Forall is_byte bs → um_wf (kc_mem s) → 0 <= src → holds (kc_mem s) src bs →
  ∃ s', consolewrite me src (Z.of_nat (length bs)) s = Ret (inl (Z.of_nat (length bs))) s'
    ∧ u_wire (kc_uart s') = u_wire (kc_uart s) ++ bs ∧ ready me (Cpu (Some i) 0 e e) s'.
Proof.
  intros Hrd Hq Hi Hm Hb Hwf Hsrc Hh. pose proof (rd_hart _ _ _ Hrd) as Hc. pose proof (lookup_lt_Some _ _ _ Hc) as Hlt.
  pose (s1 := Kcon (put_lock cons_lock (held me) (put_hart me (Cpu (Some i) 1 e false) (kc_p s)))
    (kc_cons s) (kc_uart s) (kc_mem s)).
  assert (Hw1 : writing me (Cpu (Some i) 1 e false) s1).
  { split; try apply Hrd.
    - split_and!; [by apply list_lookup_insert_eq | done | done].
    - cbn. by rewrite lookup_insert_eq.
    - cbn. rewrite lookup_insert_ne by done. apply (rd_uart _ _ _ Hrd). }
  destruct (consolewrite_loop_spec me (Cpu (Some i) 1 e false) src bs 0 s1 m) as (s2 & E2 & Hw2 & Hwire); try done.
  { lia. }
  { by rewrite Z.add_0_r. }
  destruct (wr_hart _ _ _ Hw2) as (Hh2 & _ & _). pose proof (lookup_lt_Some _ _ _ Hh2) as Hlt2.
  eexists. split.
  { unfold consolewrite, bind, pop, zoom.
    rewrite (lock_addr me 3 _ (kc_p s) Hc (rd_cons _ _ _ Hrd) : lock me cons_lock _ = _). fold cons_lock.
    change (Kcon _ _ _ _) with s1. rewrite Nat2Z.id, E2. unfold bind, pop, zoom.
    rewrite (unlock_addr me 3 (Some i) 1 e (kc_p s2) Hh2 (wr_cons _ _ _ Hw2) eq_refl : unlock me cons_lock _ = _).
    reflexivity. }
  split; [done |]. split; try apply Hw2.
  - by apply list_lookup_insert_eq.
  - by split; cbn; [| lia].
  - cbn. by rewrite lookup_insert_eq.
  - cbn. rewrite lookup_insert_ne by done. apply (wr_uart _ _ _ Hw2).
Qed.
End Output.

(** ** A session: "hj", backspace, "i", return; then a read of ten bytes *)
Module Session.
#[local] Instance no_files : FileOps unit := {
  fo_filedup f := ret f; fo_fileclose _ := ret tt; fo_idup i := ret i; fo_iput _ := ret tt;
  fo_begin_op := ret tt; fo_end_op := ret tt; fo_namei _ := ret (Some 0%nat); fo_fsinit _ := ret tt;
}.
Definition port (w r : Z) : uart := Uart (replicate 32 0) w r false (replicate 2000 true) [] [].
Definition con0 (u : uart) : kcon unit (list Z) := Kcon fam0 (Cons (replicate 128 0) 0 0 0) u (replicate 16 65).
Definition keys0 : list Z := [104; 106; key_H; 105; key_cr].

Lemma con0_ready w r : ready 0 (Cpu (Some 1%nat) 0 true true) (con0 (port w r)).
Proof.
  split; try reflexivity; [split; cbn; [done | lia] |].
  apply Forall_app. split; [repeat constructor |]. by apply Forall_replicate.
Qed.

Lemma con0_rep u : tty_rep (kc_cons (con0 u)) (Tty [] []).
Proof.
  split; cbn [t_done t_line app kc_cons con0 c_buf c_r c_w c_e]; try done; [| set_solver].
  apply ring_nil. rewrite length_replicate. lia.
Qed.

Lemma console_session_witness :
  ∃ s', (type_keys 0 keys0;; consoleread 0 4 10) (con0 (port 0 0)) = Ret (inl 3) s'
    ∧ stored (replicate 16 65) 4 [104; 105; 10] (kc_mem s') ∧ tty_rep (kc_cons s') (Tty [] []).
Proof.
  destruct (console_session 0 keys0 1 (a_proc RUNNING (Some 0%nat) None 2) true true 4 10 (con0 (port 0 0))
    (Tty [] []) [104; 105; 10] [] false) as (s' & Hk & Hs & _ & Hrun & _ & _).
  - apply con0_ready.
  - reflexivity.
  - done.
  - apply con0_rep.
  - repeat constructor; done.
  - apply Nat.leb_le. vm_compute. reflexivity.
  - cbn. done.
  - lia.
  - intros k Hk. cbn. rewrite decide_True by lia. apply lookup_lt_is_Some. cbn [length]. lia.
  - lia.
  - reflexivity.
  - exists s'. split_and!; [exact Hrun | exact Hs | exact Hk].
Defined.

Lemma consolewrite_sends_witness :
  ∃ s', consolewrite 0 2 3 (con0 (port 0 0)) = Ret (inl 3) s' ∧ u_wire (kc_uart s') = [65; 65; 65].
Proof.
  destruct (consolewrite_sends 0 1 true true 2 [65; 65; 65] (con0 (port 0 0)) 2000) as (s' & E & Hw & _).
  - apply con0_ready.
  - split; cbn [u_buf u_r u_w port kc_uart con0]; try done; [| cbn; lia].
    apply ring_nil. rewrite length_replicate. lia.
  - done.
  - cbn. lia.
  - repeat constructor; done.
  - cbn. done.
  - lia.
  - intros [|[|[|k]]] x Hx; cbn in Hx; simplify_eq; done.
  - exists s'. split; [exact E | exact Hw].
Defined.

Lemma consolewrite_full_panics_witness : consolewrite 0 0 5 (con0 (port 31 0)) = Panic "sched locks".
Proof.
  apply (consolewrite_full_panics 0 1 (a_proc RUNNING (Some 0%nat) None 2) true true 0 5 65).
  - apply con0_ready.
  - reflexivity.
  - reflexivity.
  - lia.
  - reflexivity.
Defined.
End Session.
