(* ===== verification/Virtio.v ===== *)
(** * The disk driver ([kernel/virtio_disk.c], [kernel/virtio.h])

    The descriptors, the two rings and the driver's book-keeping.  Each
    function runs with [vdisk_lock] held, up to where it sleeps or returns;
    [wakeup] is recorded in [v_woken], and the register that acknowledges
    an interrupt is left out.  The device is not part of the
    sources: it is a parameter, bound by what the virtio specification says
    of block requests ([served]): it takes requests from the available ring,
    has any number of them in work, finishes them in any order, and may
    report an error for any of them.  A descriptor's address is named by what
    it points to: the request header on the stack of the sleeping process,
    the data of a buffer, or a status byte. *)
From S2P Require Import Prelude Params Locks Bio Ring.

Definition NUM : Z := 8.
Definition num : nat := 8.
Definition VRING_DESC_F_NEXT : Z := 1.
Definition VRING_DESC_F_WRITE : Z := 2.
Definition VIRTIO_BLK_T_IN : Z := 0.
Definition VIRTIO_BLK_T_OUT : Z := 1.

(** [struct virtio_blk_outhdr] *)
Record outhdr := OutHdr { h_type : Z; h_reserved : Z; h_sector : Z }.
Inductive daddr := Null | HdrAt (h : outhdr) | DataOf (b : nat) | StatusOf (i : nat).
(** [struct VRingDesc] *)
Record vring_desc := Desc { d_addr : daddr; d_len : Z; d_flags : Z; d_next : Z }.
#[export] Instance vring_desc_inhabited : Inhabited vring_desc := populate (Desc Null 0 0 0).

(** The channels [wakeup] is called on: [&disk.free[0]] and a buffer. *)
Inductive vchan := WFree | WBuf (b : nat).

(** [struct disk], the buffers, the disk itself, and the device's own state:
    how far it has read the available ring, and the requests in work. *)
Record vst := Vst {
  v_desc : list vring_desc;
  v_avail_idx : Z;                       (* avail[1] *)
  v_avail : list Z;                      (* avail[2..] *)
  v_used_id : Z;                         (* used->id *)
  v_used : list Z;                       (* used->elems[].id *)
  v_free : list bool;
  v_used_idx : Z;
  v_info : list (option nat * Z);        (* b, status *)
  v_bufs : list buf;
  v_disk : gmap Z block;
  v_dev : Z * list nat;
  v_woken : list vchan;
}.

Definition v_seen (s : vst) : Z := (v_dev s).1.
Definition v_flight (s : vst) : list nat := (v_dev s).2.

Definition put_desc (x : list vring_desc) (s : vst) : vst :=
  Vst x (v_avail_idx s) (v_avail s) (v_used_id s) (v_used s) (v_free s) (v_used_idx s) (v_info s) (v_bufs s) (v_disk s) (v_dev s) (v_woken s).
Definition put_avail (i : Z) (x : list Z) (s : vst) : vst :=
  Vst (v_desc s) i x (v_used_id s) (v_used s) (v_free s) (v_used_idx s) (v_info s) (v_bufs s) (v_disk s) (v_dev s) (v_woken s).
Definition put_free (x : list bool) (s : vst) : vst :=
  Vst (v_desc s) (v_avail_idx s) (v_avail s) (v_used_id s) (v_used s) x (v_used_idx s) (v_info s) (v_bufs s) (v_disk s) (v_dev s) (v_woken s).
Definition put_used_idx (x : Z) (s : vst) : vst :=
  Vst (v_desc s) (v_avail_idx s) (v_avail s) (v_used_id s) (v_used s) (v_free s) x (v_info s) (v_bufs s) (v_disk s) (v_dev s) (v_woken s).
Definition put_info (x : list (option nat * Z)) (s : vst) : vst :=
  Vst (v_desc s) (v_avail_idx s) (v_avail s) (v_used_id s) (v_used s) (v_free s) (v_used_idx s) x (v_bufs s) (v_disk s) (v_dev s) (v_woken s).
Definition put_bufs (x : list buf) (s : vst) : vst :=
  Vst (v_desc s) (v_avail_idx s) (v_avail s) (v_used_id s) (v_used s) (v_free s) (v_used_idx s) (v_info s) x (v_disk s) (v_dev s) (v_woken s).
Definition add_woken (x : vchan) (s : vst) : vst :=
  Vst (v_desc s) (v_avail_idx s) (v_avail s) (v_used_id s) (v_used s) (v_free s) (v_used_idx s) (v_info s) (v_bufs s) (v_disk s) (v_dev s) (v_woken s ++ [x]).

Definition set_disk (x : bool) (b : buf) : buf :=
  Buf (b_valid b) x (b_dev b) (b_blockno b) (b_lock b) (b_refcnt b) (b_prev b) (b_next b) (b_data b).

(** ** Descriptors *)
Fixpoint find_desc (k i : nat) : M vst Z :=
  match k with
  | O => ret (-1)
  | S k =>
      let! free := gets v_free in
      if (free !!! i : bool) then modify (put_free (<[i := false]> free));; ret (Z.of_nat i)
      else find_desc k (i + 1)
  end.
Definition alloc_desc : M vst Z := find_desc num 0.

Definition free_desc (i : Z) : M vst unit :=
  if decide (i >= NUM) then panic "virtio_disk_intr 1"
  else
    let i := Z.to_nat i in
    let! s := gets id in
    if (v_free s !!! i : bool) then panic "virtio_disk_intr 2"
    else
      let d := v_desc s !!! i in
      modify (put_desc (<[i := Desc Null (d_len d) (d_flags d) (d_next d)]> (v_desc s)));;
      modify (put_free (<[i := true]> (v_free s)));;
      modify (add_woken WFree).

(** [fuel] bounds the length of the chain. *)
Fixpoint free_chain (fuel : nat) (i : Z) : M vst unit :=
  match fuel with
  | O => λ _, OutOfFuel
  | S fuel =>
      free_desc i;;
      let! s := gets id in
      let d := v_desc s !!! Z.to_nat i in
      if decide (Z.land (d_flags d) VRING_DESC_F_NEXT ≠ 0) then free_chain fuel (d_next d) else ret tt
  end.

(** The three indices, or nothing allocated. *)
Definition alloc3_desc : M vst (option (Z * Z * Z)) :=
  let! i0 := alloc_desc in
  if decide (i0 < 0) then ret None
  else
    let! i1 := alloc_desc in
    if decide (i1 < 0) then free_desc i0;; ret None
    else
      let! i2 := alloc_desc in
      if decide (i2 < 0) then free_desc i0;; free_desc i1;; ret None
      else ret (Some (i0, i1, i2)).

(** ** A request *)
Definition upd_desc (i : Z) (d : vring_desc) : M vst unit :=
  modify (λ s, put_desc (<[Z.to_nat i := d]> (v_desc s)) s).
Definition upd_info (i : Z) (f : option nat * Z → option nat * Z) : M vst unit :=
  modify (λ s, put_info (alter f (Z.to_nat i) (v_info s)) s).
Definition upd_buf (b : nat) (f : buf → buf) : M vst unit :=
  modify (λ s, put_bufs (alter f b (v_bufs s)) s).

(** [virtio_disk_rw] from the test for descriptors to [sleep(b, ...)];
    [None]: it sleeps on [&disk.free[0]] and will try again. *)
Definition virtio_disk_rw (b : nat) (write : bool) : M vst (option Z) :=
  let! bf := gets (λ s, v_bufs s !!! b) in
  let sector := u32 (b_blockno bf * (BSIZE / 512)) in
  let! r := alloc3_desc in
  match r with
  | None => ret None
  | Some (i0, i1, i2) =>
      let buf0 := OutHdr (if write then VIRTIO_BLK_T_OUT else VIRTIO_BLK_T_IN) 0 sector in
      upd_desc i0 (Desc (HdrAt buf0) 16 VRING_DESC_F_NEXT i1);;
      upd_desc i1 (Desc (DataOf b) BSIZE
                     (Z.lor (if write then 0 else VRING_DESC_F_WRITE) VRING_DESC_F_NEXT) i2);;
      upd_info i0 (λ x, (x.1, 0));;
      upd_desc i2 (Desc (StatusOf (Z.to_nat i0)) 1 VRING_DESC_F_WRITE 0);;
      upd_buf b (set_disk true);;
      upd_info i0 (λ x, (Some b, x.2));;
      modify (λ s, put_avail (u16 (v_avail_idx s + 1))
                     (<[Z.to_nat (v_avail_idx s mod NUM) := i0]> (v_avail s)) s);;
      ret (Some i0)
  end.
(** When [sleep(b, ...)] returns: true when the request is over. *)
Definition virtio_disk_rw_return (b : nat) (i0 : Z) : M vst bool :=
  let! bf := gets (λ s, v_bufs s !!! b) in
  if b_disk bf then ret false
  else
    upd_info i0 (λ x, (None, x.2));;
    free_chain num i0;;
    ret true.

(** ** The interrupt

    One turn of the handler's loop up to [wakeup]: the buffer whose request
    is over, [None] when the used ring is empty; and from there on. *)
Definition intr_head : M vst (option nat) :=
  let! s := gets id in
  if decide (v_used_idx s mod NUM ≠ v_used_id s mod NUM) then
    let id := v_used s !!! Z.to_nat (v_used_idx s) in
    let info := v_info s !!! Z.to_nat id in
    if decide (info.2 ≠ 0) then panic "virtio_disk_intr status"
    else
      match info.1 with
      | None => panic "null dereference"
      | Some b => upd_buf b (set_disk false);; ret (Some b)
      end
  else ret None.
Definition intr_next : M vst unit := modify (λ s, put_used_idx ((v_used_idx s + 1) mod NUM) s).
Fixpoint intr_loop (fuel : nat) : M vst unit :=
  match fuel with
  | O => λ _, OutOfFuel
  | S fuel =>
      let! r := intr_head in
      match r with
      | None => ret tt
      | Some b =>
          modify (add_woken (WBuf b));;
          intr_next;;
          intr_loop fuel
      end
  end.
Definition virtio_disk_intr : M vst unit := intr_loop num.

(** ** Initialisation

    The registers the driver reads; the writes it makes are returned as
    (offset, value) pairs, in order.  [pfn] is [disk.pages >> PGSHIFT]. *)
Record mmio := Mmio {
  r_magic : Z; r_version : Z; r_device_id : Z; r_vendor_id : Z; r_device_features : Z; r_queue_num_max : Z;
}.
Definition feature_off (features bit : Z) : Z := Z.land features (Z.lnot (Z.shiftl 1 bit)).
Definition driver_features (features : Z) : Z := foldl feature_off features [5; 7; 11; 12; 27; 29; 28].
Definition virtio_disk_init (r : mmio) (pfn : Z) : M vst (list (Z * Z)) :=
  if decide (r_magic r ≠ 0x74726976 ∨ r_version r ≠ 1 ∨ r_device_id r ≠ 2 ∨ r_vendor_id r ≠ 0x554d4551)
  then panic "could not find virtio disk"
  else
    let status1 := Z.lor 0 1 in
    let status2 := Z.lor status1 2 in
    let status3 := Z.lor status2 8 in
    let status4 := Z.lor status3 4 in
    let w := [(0x070, status1); (0x070, status2); (0x020, u32 (driver_features (r_device_features r)));
              (0x070, status3); (0x070, status4); (0x028, 4096); (0x030, 0)] in
    if decide (r_queue_num_max r = 0) then panic "virtio disk has no queue 0"
    else if decide (r_queue_num_max r < NUM) then panic "virtio disk max queue too short"
    else
      modify (λ s, Vst (replicate num (Desc Null 0 0 0)) 0 (replicate num 0) 0 (replicate num 0)
                     (replicate num true) (v_used_idx s) (v_info s) (v_bufs s) (v_disk s) (v_dev s) (v_woken s));;
      ret (w ++ [(0x038, NUM); (0x040, pfn)]).

(** ** The device

    A request of three descriptors at [i], as the specification lays it out. *)
Definition request_at (s : vst) (i : nat) (h : outhdr) (b m : nat) : Prop :=
  ∃ d0 d1 d2, v_desc s !! i = Some d0 ∧ d_addr d0 = HdrAt h ∧ d_len d0 = 16 ∧ d_flags d0 = VRING_DESC_F_NEXT
    ∧ v_desc s !! Z.to_nat (d_next d0) = Some d1 ∧ d_addr d1 = DataOf b ∧ d_len d1 = BSIZE
    ∧ d_flags d1 = Z.lor (if decide (h_type h = VIRTIO_BLK_T_IN) then VRING_DESC_F_WRITE else 0) VRING_DESC_F_NEXT
    ∧ v_desc s !! Z.to_nat (d_next d1) = Some d2 ∧ d_addr d2 = StatusOf m ∧ d_len d2 = 1
    ∧ d_flags d2 = VRING_DESC_F_WRITE.
(** The transfer, of block [sector / 2] to or from the buffer.  If the status
    [st] is an error, the target ends with any contents [d]. *)
Definition transfer (h : outhdr) (b : nat) (st : Z) (d : block) (s : vst) : list buf * gmap Z block :=
  if decide (h_type h = VIRTIO_BLK_T_OUT)
  then (v_bufs s, <[h_sector h / 2 := if decide (st = 0) then b_data (v_bufs s !!! b) else d]> (v_disk s))
  else (alter (set_data (if decide (st = 0) then default zero_block (v_disk s !! (h_sector h / 2)) else d)) b (v_bufs s),
        v_disk s).
(** Request [i] is over with status [st], and on the used ring; [fl] are
    the requests still in work. *)
Definition complete (i : nat) (h : outhdr) (b m : nat) (st : Z) (d : block) (fl : list nat) (s : vst) : vst :=
  Vst (v_desc s) (v_avail_idx s) (v_avail s) (u16 (v_used_id s + 1))
    (<[Z.to_nat (v_used_id s mod NUM) := Z.of_nat i]> (v_used s)) (v_free s) (v_used_idx s)
    (alter (λ x, (x.1, st)) m (v_info s)) (transfer h b st d s).1 (transfer h b st d s).2 (v_seen s, fl) (v_woken s).
(** The next request of the available ring is taken into work. *)
Definition fetch (i : nat) (s : vst) : vst :=
  Vst (v_desc s) (v_avail_idx s) (v_avail s) (v_used_id s) (v_used s) (v_free s) (v_used_idx s) (v_info s)
    (v_bufs s) (v_disk s) (u16 (v_seen s + 1), v_flight s ++ [i]) (v_woken s).

(** What the device may do: take the next request of the available ring, of
    which there must be one; or finish any request it has in work, and if
    that one is well formed, do what it asks or report an error. *)
Definition served (s s' : vst) : Prop :=
  (v_seen s ≠ v_avail_idx s ∧
   ∀ i, v_avail s !! Z.to_nat (v_seen s mod NUM) = Some (Z.of_nat i) → s' = fetch i s) ∨
  (∃ i fl1 fl2, v_flight s = fl1 ++ i :: fl2 ∧
   ∀ h b m, request_at s i h b m → (h_type h = VIRTIO_BLK_T_IN ∨ h_type h = VIRTIO_BLK_T_OUT) →
     ∃ st d, s' = complete i h b m st d (fl1 ++ fl2) s).
