(* ===== verification/VirtioTheorems.v ===== *)
(** * The disk driver: theorems

    Any number of [virtio_disk_rw] calls sleep with their requests in the
    device; the device and the interrupt handler run at any time.  The
    invariant splits the requests into those the device has not finished
    ([Q]: not taken yet, or in work), those it has finished, in any order and
    with any status, and the handler has not seen ([V]), and those whose
    caller may go on ([D]). *)
From S2P Require Import Prelude Params Locks Bio Ring Virtio.

Arguments num : simpl never.

(** A sleeping [virtio_disk_rw]: its local variables, and the block and the
    data of the buffer when it was called. *)
Record req := Req {
  q_i0 : nat; q_i1 : nat; q_i2 : nat; q_buf : nat; q_write : bool; q_blk : Z; q_data : block;
}.
Definition slots (r : req) : list nat := [q_i0 r; q_i1 r; q_i2 r].
Definition hdr (r : req) : outhdr :=
  OutHdr (if q_write r then VIRTIO_BLK_T_OUT else VIRTIO_BLK_T_IN) 0 (2 * q_blk r).

Record req_ok (s : vst) (r : req) : Prop := {
  ro_blk : 0 <= q_blk r < 2 ^ 31 ∧ is_Some (v_disk s !! q_blk r);
  ro_d0 : v_desc s !! q_i0 r = Some (Desc (HdrAt (hdr r)) 16 VRING_DESC_F_NEXT (Z.of_nat (q_i1 r)));
  ro_d1 : v_desc s !! q_i1 r = Some (Desc (DataOf (q_buf r)) BSIZE
            (Z.lor (if q_write r then 0 else VRING_DESC_F_WRITE) VRING_DESC_F_NEXT) (Z.of_nat (q_i2 r)));
  ro_d2 : v_desc s !! q_i2 r = Some (Desc (StatusOf (q_i0 r)) 1 VRING_DESC_F_WRITE 0);
  ro_info : ∃ st, v_info s !! q_i0 r = Some (Some (q_buf r), st);
  ro_buf : ∃ bf, v_bufs s !! q_buf r = Some bf ∧ b_blockno bf = q_blk r
             ∧ (q_write r = true → b_data bf = q_data r);
}.
Definition owned (own : bool) (s : vst) (r : req) : Prop := b_disk (v_bufs s !!! q_buf r) = own.
(** The disk and the buffer agree. *)
Definition moved (s : vst) (r : req) : Prop := v_disk s !! q_blk r = Some (b_data (v_bufs s !!! q_buf r)).
(** The status byte; a request that ended without an error has moved. *)
Definition status (s : vst) (r : req) : Z := (v_info s !!! q_i0 r).2.
Definition ended (s : vst) (r : req) : Prop := status s r = 0 → moved s r.

Definition all_slots (rs : list req) : list nat := rs ≫= slots.
Definition heads (rs : list req) : list Z := (λ r, Z.of_nat (q_i0 r)) <$> rs.

(** The requests [Q] are on the available ring or in work. *)
Definition dev_ok (Q : list req) (s : vst) : Prop :=
  ∃ U F, Q ≡ₚ U ++ F ∧ ring (v_avail s) (v_seen s) (heads U) ∧ v_flight s = q_i0 <$> F ∧
    0 <= v_seen s < 2 ^ 16 ∧ v_avail_idx s = u16 (v_seen s + Z.of_nat (length U)).

Record vinv (Q V D : list req) (s : vst) : Prop := {
  vi_desc : length (v_desc s) = num; vi_avail_len : length (v_avail s) = num;
  vi_used_len : length (v_used s) = num; vi_free_len : length (v_free s) = num;
  vi_info_len : length (v_info s) = num;
  vi_ok : Forall (req_ok s) (Q ++ V ++ D);
  vi_slots : NoDup (all_slots (Q ++ V ++ D));
  vi_free : ∀ i, (i < num)%nat → v_free s !! i = Some (bool_decide (i ∉ all_slots (Q ++ V ++ D)));
  vi_bufs : NoDup (q_buf <$> Q ++ V ++ D);
  vi_blks : NoDup (q_blk <$> Q ++ V ++ D);
  vi_dev : dev_ok Q s;
  vi_used : ring (v_used s) (v_used_idx s) (heads V);
  vi_uidx : 0 <= v_used_idx s < NUM ∧ v_used_id s mod NUM = (v_used_idx s + Z.of_nat (length V)) mod NUM;
  vi_busy : Forall (owned true s) (Q ++ V);
  vi_over : Forall (owned false s) D;
  vi_clean : Forall (λ r, status s r = 0) D;
  vi_ended : Forall (ended s) (V ++ D);
}.

(** ** Descriptors *)
Lemma find_desc_spec k : ∀ i s,
  (i + k)%nat = length (v_free s) →
  (∃ j, (i ≤ j)%nat ∧ v_free s !! j = Some true
     ∧ find_desc k i s = Ret (Z.of_nat j) (put_free (<[j := false]> (v_free s)) s))
  ∨ ((∀ j, (i ≤ j)%nat → v_free s !! j ≠ Some true) ∧ find_desc k i s = Ret (-1) s).
Proof.
  induction k as [|k IH]; intros i s Hl.
  - right. split; [| done]. intros j Hj E. apply lookup_lt_Some in E. lia.
  - destruct (lookup_lt_is_Some_2 (v_free s) i) as [f Hf]; [lia |].
    assert (E0 : find_desc (S k) i s
      = if f then Ret (Z.of_nat i) (put_free (<[i := false]> (v_free s)) s) else find_desc k (i + 1) s).
    { cbn [find_desc]. unfold bind. cbn [gets]. rewrite (list_lookup_total_correct _ _ _ Hf). by destruct f. }
    rewrite E0. destruct f; [left; exists i; by split_and!; [lia | |] |].
    destruct (IH (i + 1)%nat s) as [(j & Hj & Hfj & E) | [Hn E]]; [lia | left | right].
    + exists j. split_and!; [lia | done | done].
    + split; [| done]. intros j Hj. destruct (decide (j = i)) as [->|]; [congruence |]. apply Hn. lia.
Qed.

Lemma alloc_desc_spec s :
  length (v_free s) = num →
  (∃ j, v_free s !! j = Some true ∧ alloc_desc s = Ret (Z.of_nat j) (put_free (<[j := false]> (v_free s)) s))
  ∨ ((∀ j, v_free s !! j ≠ Some true) ∧ alloc_desc s = Ret (-1) s).
Proof.
  intros Hl. destruct (find_desc_spec num 0 s) as [(j & _ & H)|[Hn E]]; [done | left; by exists j | right].
  split; [| done]. intros j. apply Hn. lia.
Qed.

Definition nulled (i : nat) (s : vst) : vst :=
  let d := v_desc s !!! i in put_desc (<[i := Desc Null (d_len d) (d_flags d) (d_next d)]> (v_desc s)) s.

Lemma free_desc_eq i s :
  (i < num)%nat → v_free s !! i = Some false →
  free_desc (Z.of_nat i) s = Ret tt (add_woken WFree (put_free (<[i := true]> (v_free s)) (nulled i s))).
Proof.
  intros Hi Hf. unfold free_desc, bind. rewrite decide_False by (unfold NUM, num in *; lia).
  cbn [gets id]. rewrite Nat2Z.id, (list_lookup_total_correct _ _ _ Hf). done.
Qed.

(** What the failing paths of [alloc3_desc] change: addresses of free
    descriptors. *)
Record quiet (s s' : vst) : Prop := {
  qt_free : v_free s' = v_free s;
  qt_desc : length (v_desc s') = length (v_desc s)
            ∧ ∀ i, v_free s !! i ≠ Some true → v_desc s' !! i = v_desc s !! i;
  qt_rest : ∃ ds w, s' = Vst ds (v_avail_idx s) (v_avail s) (v_used_id s) (v_used s) (v_free s) (v_used_idx s)
    (v_info s) (v_bufs s) (v_disk s) (v_dev s) w;
}.

Definition taken (l : list nat) (s : vst) : vst := put_free (foldl (λ f i, <[i := false]> f) (v_free s) l) s.

Definition alloc3_post (s : vst) (r : option (Z * Z * Z)) (s' : vst) : Prop :=
  match r with
  | None => quiet s s'
  | Some r => ∃ i0 i1 i2, r = (Z.of_nat i0, Z.of_nat i1, Z.of_nat i2) ∧ s' = taken [i0; i1; i2] s
      ∧ NoDup [i0; i1; i2] ∧ v_free s !! i0 = Some true ∧ v_free s !! i1 = Some true ∧ v_free s !! i2 = Some true
  end.

Lemma alloc3_spec s : length (v_free s) = num → wp alloc3_desc (alloc3_post s) s.
Proof.
  intros Hl. unfold alloc3_desc. apply wp_bind.
  destruct (alloc_desc_spec s Hl) as [(i0 & H0 & E0) | [_ E0]]; (eapply wp_intro; [exact E0 |]).
  2: { rewrite decide_True by lia. apply wp_ret. split; [done | done |]. exists (v_desc s), (v_woken s). by destruct s. }
  rewrite decide_False by lia. apply wp_bind.
  pose proof (lookup_lt_Some _ _ _ H0) as L0. rewrite Hl in L0.
  set (s1 := put_free _ s). assert (Hl1 : length (v_free s1) = num) by (cbn; by rewrite length_insert).
  destruct (alloc_desc_spec s1 Hl1) as [(i1 & H1 & E1) | [_ E1]]; (eapply wp_intro; [exact E1 |]).
  2: { rewrite decide_True by lia. apply wp_bind.
    eapply wp_intro; [apply free_desc_eq; [done | cbn; by rewrite list_lookup_insert_eq by lia] |].
    apply wp_ret. cbn. rewrite list_insert_insert_eq, (list_insert_id _ _ _ H0). split; cbn.
    - done.
    - rewrite length_insert. split; [done |]. intros i Hi. by rewrite list_lookup_insert_ne by congruence.
    - by eexists _, _. }
  rewrite decide_False by lia. apply wp_bind.
  cbn in H1. assert (Hne : i1 ≠ i0).
  { intros ->. rewrite list_lookup_insert_eq in H1 by lia. done. }
  rewrite list_lookup_insert_ne in H1 by done. pose proof (lookup_lt_Some _ _ _ H1) as L1. rewrite Hl in L1.
  set (s2 := put_free _ s1). assert (Hl2 : length (v_free s2) = num) by (cbn; by rewrite !length_insert).
  destruct (alloc_desc_spec s2 Hl2) as [(i2 & H2 & E2) | [_ E2]]; (eapply wp_intro; [exact E2 |]).
  2: { rewrite decide_True by lia. apply wp_bind.
    eapply wp_intro; [apply free_desc_eq; [done |] |].
    { cbn. rewrite list_lookup_insert_ne, list_lookup_insert_eq by (done || lia). done. }
    apply wp_bind. eapply wp_intro; [apply free_desc_eq; [done |] |].
    { cbn. rewrite list_lookup_insert_ne by done. apply list_lookup_insert_eq. rewrite length_insert. lia. }
    assert (Ef : <[i1 := true]> (<[i0 := true]> (<[i1 := false]> (<[i0 := false]> (v_free s)))) = v_free s).
    { rewrite (list_insert_insert_ne _ i0 i1 true false), !list_insert_insert_eq by done.
      rewrite (list_insert_id _ i0), list_insert_id by done. done. }
    apply wp_ret. cbn. rewrite Ef. split; cbn.
    - done.
    - rewrite !length_insert. split; [done |]. intros i Hi. by rewrite !list_lookup_insert_ne by congruence.
    - by eexists _, _. }
  rewrite decide_False by lia. apply wp_ret. cbn in H2.
  assert (Hne1 : i2 ≠ i1).
  { intros ->. rewrite list_lookup_insert_eq in H2 by (rewrite length_insert; lia). done. }
  assert (Hne0 : i2 ≠ i0).
  { intros ->. rewrite list_lookup_insert_ne, list_lookup_insert_eq in H2 by (done || lia). done. }
  rewrite !list_lookup_insert_ne in H2 by done.
  exists i0, i1, i2. split_and!; [done | done | | done..]. repeat constructor; set_solver.
Qed.

(** ** Frame lemmas: a request is untouched by changes elsewhere *)
Lemma req_ok_frame s s' r :
  req_ok s r → (∀ i, i ∈ slots r → v_desc s' !! i = v_desc s !! i) →
  v_info s' !! q_i0 r = v_info s !! q_i0 r → v_bufs s' !! q_buf r = v_bufs s !! q_buf r →
  (is_Some (v_disk s !! q_blk r) → is_Some (v_disk s' !! q_blk r)) → req_ok s' r.
Proof.
  intros [[Hb Hd] H0 H1 H2 Hi Hbuf] Hdesc Hinfo Hbufs Hdisk.
  split; [by auto | rewrite Hdesc; [done | set_solver] | rewrite Hdesc; [done | set_solver]
    | rewrite Hdesc; [done | set_solver] | by rewrite Hinfo | by rewrite Hbufs].
Qed.

Lemma lookup_total_ext {A} `{!Inhabited A} (l l' : list A) i : l' !! i = l !! i → l' !!! i = l !!! i.
Proof. intros E. rewrite !list_lookup_total_alt. by rewrite E. Qed.

Lemma owned_frame own s s' r : owned own s r → v_bufs s' !! q_buf r = v_bufs s !! q_buf r → owned own s' r.
Proof. intros Ho E. unfold owned. by rewrite (lookup_total_ext _ _ _ E). Qed.

Lemma moved_frame s s' r :
  moved s r → v_bufs s' !! q_buf r = v_bufs s !! q_buf r → v_disk s' !! q_blk r = v_disk s !! q_blk r → moved s' r.
Proof. intros Hm E Ed. unfold moved. by rewrite Ed, (lookup_total_ext _ _ _ E). Qed.

Lemma status_frame s s' r : v_info s' !! q_i0 r = v_info s !! q_i0 r → status s' r = status s r.
Proof. intros E. unfold status. by rewrite (lookup_total_ext _ _ _ E). Qed.

Lemma ended_frame s s' r :
  ended s r → v_info s' !! q_i0 r = v_info s !! q_i0 r → v_bufs s' !! q_buf r = v_bufs s !! q_buf r →
  v_disk s' !! q_blk r = v_disk s !! q_blk r → ended s' r.
Proof.
  intros He Ei Eb Ed Hs. rewrite (status_frame _ _ _ Ei) in Hs. eapply moved_frame; [by apply He | done | done].
Qed.

Section Inv.
Context {Q V D : list req} {s : vst}.
Hypothesis Hinv : vinv Q V D s.
Notation rs := (Q ++ V ++ D).

Lemma slot_lt i : i ∈ all_slots rs → (i < num)%nat.
Proof.
  intros (r & Hi & Hr)%list_elem_of_bind.
  pose proof (proj1 (Forall_forall _ _) (vi_ok _ _ _ _ Hinv) r Hr) as Hok.
  rewrite <- (vi_desc _ _ _ _ Hinv). unfold slots in Hi.
  apply elem_of_cons in Hi as [->|Hi]; [eapply lookup_lt_Some, (ro_d0 _ _ Hok) |].
  apply elem_of_cons in Hi as [->|Hi]; [eapply lookup_lt_Some, (ro_d1 _ _ Hok) |].
  apply list_elem_of_singleton in Hi as ->. eapply lookup_lt_Some, (ro_d2 _ _ Hok).
Qed.

(** Three descriptors each: at most two requests at a time. *)
Lemma few_requests : (length rs ≤ 2)%nat.
Proof.
  pose proof (length_le_of_NoDup_subset _ num (vi_slots _ _ _ _ Hinv) slot_lt) as Hl.
  assert (E : ∀ l, length (all_slots l) = (3 * length l)%nat).
  { intros l. induction l as [|r l IH]; [done |]. unfold all_slots in *. cbn [mbind list_bind]. rewrite length_app, IH.
    cbn. lia. }
  rewrite E in Hl. unfold num in Hl. lia.
Qed.

Lemma free_slot i : v_free s !! i = Some true → i ∉ all_slots rs ∧ (i < num)%nat.
Proof.
  intros Hf. pose proof (lookup_lt_Some _ _ _ Hf) as Hi. rewrite (vi_free_len _ _ _ _ Hinv) in Hi.
  split; [| done]. rewrite (vi_free _ _ _ _ Hinv i Hi) in Hf. injection Hf as Hf.
  by apply bool_decide_eq_true in Hf.
Qed.

Lemma slot_taken i : i ∈ all_slots rs → v_free s !! i = Some false.
Proof.
  intros Hi. rewrite (vi_free _ _ _ _ Hinv i (slot_lt i Hi)), bool_decide_false; [done |]. by intros ?.
Qed.
End Inv.

Lemma slots_in r rs i : r ∈ rs → i ∈ slots r → i ∈ all_slots rs.
Proof. intros Hr Hi. apply list_elem_of_bind. eauto. Qed.
Lemma head_in r rs : r ∈ rs → q_i0 r ∈ all_slots rs.
Proof. intros Hr. eapply slots_in; [done |]. set_solver. Qed.
Lemma all_slots_perm rs rs' : rs ≡ₚ rs' → all_slots rs ≡ₚ all_slots rs'.
Proof. intros E. unfold all_slots. by rewrite E. Qed.

Lemma all_slots_cons r rs : all_slots (r :: rs) = q_i0 r :: q_i1 r :: q_i2 r :: all_slots rs.
Proof. done. Qed.

(** The failed attempt to get descriptors leaves the invariant. *)
Lemma vinv_quiet Q V D s s' : vinv Q V D s → quiet s s' → vinv Q V D s'.
Proof.
  intros Hinv [Hf [Hlen Hdesc] (ds & w & ->)]. pose proof Hinv as [? ? ? ? ? Hok ? ? ? ? ? ? ? ? ? ? ?].
  split; cbn [v_desc v_avail v_used v_free v_info v_seen v_avail_idx v_used_idx v_used_id]; try done.
  - cbn in Hlen. by rewrite Hlen.
  - apply Forall_forall. intros r Hr. pose proof (proj1 (Forall_forall _ _) Hok r Hr) as Hr'.
    eapply req_ok_frame; [done | | done | done | done].
    intros i Hi. apply Hdesc. rewrite (slot_taken Hinv i); [done |]. by eapply slots_in.
Qed.

(** What the caller of [virtio_disk_rw] guarantees: it has the buffer to
    itself, and the cache keeps one buffer per block. *)
Record may_start (rs : list req) (s : vst) (b : nat) (bf : buf) : Prop := {
  ms_buf : v_bufs s !! b = Some bf;
  ms_blk : 0 <= b_blockno bf < 2 ^ 31 ∧ is_Some (v_disk s !! b_blockno bf);
  ms_idle : b ∉ q_buf <$> rs;
  ms_block : b_blockno bf ∉ q_blk <$> rs;
}.

Definition rw_post (Q V D : list req) (s : vst) (b : nat) (w : bool) (bf : buf) (o : option Z) (s' : vst) : Prop :=
  match o with
  | None => vinv Q V D s' ∧ v_bufs s' = v_bufs s
  | Some i0 => ∃ r, i0 = Z.of_nat (q_i0 r) ∧ q_buf r = b ∧ q_write r = w ∧ q_blk r = b_blockno bf
      ∧ q_data r = b_data bf ∧ vinv (Q ++ [r]) V D s'
  end ∧ v_disk s' = v_disk s.

Lemma u32_sector blk : 0 <= blk < 2 ^ 31 → u32 (blk * (BSIZE / 512)) = 2 * blk.
Proof. intros Hb. change (BSIZE / 512) with 2. rewrite u32_small; lia. Qed.

Lemma avail_push Q V D s r v' :
  vinv Q V D s → (length Q < num)%nat →
  v_avail v' = <[Z.to_nat (v_avail_idx s mod NUM) := Z.of_nat (q_i0 r)]> (v_avail s) →
  v_avail_idx v' = u16 (v_avail_idx s + 1) → v_dev v' = v_dev s → dev_ok (Q ++ [r]) v'.
Proof.
  intros Hinv Hl Ea Ei Ed. destruct (vi_dev _ _ _ _ Hinv) as (U & F & Hp & Hr & Hf & Hs & Eidx).
  exists (U ++ [r]), F. unfold v_seen, v_flight in *. rewrite Ea, Ei, Ed.
  pose proof (Permutation_length Hp) as Hlen. rewrite length_app in Hlen. split_and!; try done; try apply Hs.
  - rewrite Hp. rewrite <- app_assoc, (Permutation_app_comm F [r]). by rewrite <- app_assoc.
  - assert (E : Z.to_nat (v_avail_idx s mod NUM) = ring_ix (v_avail s) ((v_dev s).1 + Z.of_nat (length (heads U)))).
    { unfold ring_ix, heads. rewrite (vi_avail_len _ _ _ _ Hinv), length_fmap, Eidx. f_equal. unfold u16, NUM.
      change (Z.of_nat num) with 8. rewrite <- Znumtheory.Zmod_div_mod; [done | lia | lia |]. by exists (2 ^ 13). }
    rewrite E. unfold heads. rewrite fmap_app. apply ring_push; [done |].
    rewrite length_fmap, (vi_avail_len _ _ _ _ Hinv). lia.
  - rewrite Eidx, length_app. unfold u16. rewrite Zplus_mod_idemp_l. f_equal. cbn. lia.
Qed.

Lemma rw_submits Q V D s b w bf i0 i1 i2 :
  vinv Q V D s → may_start (Q ++ V ++ D) s b bf → NoDup [i0; i1; i2] →
  v_free s !! i0 = Some true → v_free s !! i1 = Some true → v_free s !! i2 = Some true →
  let r := Req i0 i1 i2 b w (b_blockno bf) (b_data bf) in
  vinv (Q ++ [r]) V D (Vst
    (<[i2 := Desc (StatusOf i0) 1 VRING_DESC_F_WRITE 0]>
      (<[i1 := Desc (DataOf b) BSIZE (Z.lor (if w then 0 else VRING_DESC_F_WRITE) VRING_DESC_F_NEXT) (Z.of_nat i2)]>
        (<[i0 := Desc (HdrAt (hdr r)) 16 VRING_DESC_F_NEXT (Z.of_nat i1)]> (v_desc s))))
    (u16 (v_avail_idx s + 1)) (<[Z.to_nat (v_avail_idx s mod NUM) := Z.of_nat i0]> (v_avail s))
    (v_used_id s) (v_used s) (v_free (taken [i0; i1; i2] s)) (v_used_idx s)
    (<[i0 := (Some b, 0)]> (v_info s)) (<[b := set_disk true bf]> (v_bufs s)) (v_disk s) (v_dev s) (v_woken s)).
Proof.
  intros Hinv Hms Hnd F0 F1 F2 r. pose proof Hms as [Hbuf [Hblk Hdisk] Hidle Hblock].
  destruct (free_slot Hinv i0 F0) as [S0 L0]. destruct (free_slot Hinv i1 F1) as [S1 L1].
  destruct (free_slot Hinv i2 F2) as [S2 L2].
  assert (N01 : i0 ≠ i1 ∧ i0 ≠ i2 ∧ i1 ≠ i2).
  { clear -Hnd. apply NoDup_cons in Hnd as [N0 Hnd]. apply NoDup_cons in Hnd as [N1 _]. set_solver. }
  destruct N01 as (N01 & N02 & N12).
  assert (Hperm : (Q ++ [r]) ++ V ++ D ≡ₚ r :: Q ++ V ++ D).
  { rewrite <- app_assoc. cbn. symmetry. apply Permutation_middle. }
  pose proof (few_requests Hinv) as Hfew. rewrite length_app in Hfew.
  pose proof (lookup_lt_Some _ _ _ Hbuf) as Lb.
  assert (Hother : ∀ r', r' ∈ Q ++ V ++ D → q_buf r' ≠ b).
  { intros r' Hr' E. apply Hidle, list_elem_of_fmap. eauto. }
  assert (Hbufs : ∀ r', r' ∈ Q ++ V ++ D → <[b := set_disk true bf]> (v_bufs s) !! q_buf r' = v_bufs s !! q_buf r').
  { intros r' Hr'. apply list_lookup_insert_ne. specialize (Hother r' Hr'). congruence. }
  assert (Hinfo : ∀ r', r' ∈ Q ++ V ++ D → <[i0 := (Some b, 0)]> (v_info s) !! q_i0 r' = v_info s !! q_i0 r').
  { intros r' Hr'. apply list_lookup_insert_ne. intros ->. by apply S0, head_in. }
  split; cbn [v_desc v_avail v_used v_free v_info v_dev v_avail_idx v_used_idx v_used_id];
    rewrite ?length_insert; try apply Hinv.
  - unfold taken. cbn. by rewrite !length_insert, (vi_free_len _ _ _ _ Hinv).
  - rewrite Hperm. constructor.
    + split; cbn [v_desc v_info v_bufs v_disk q_i0 q_i1 q_i2 q_buf q_blk q_write q_data r].
      * done.
      * rewrite !list_lookup_insert_ne by congruence. apply list_lookup_insert_eq. by rewrite (vi_desc _ _ _ _ Hinv).
      * rewrite list_lookup_insert_ne by congruence. apply list_lookup_insert_eq. by rewrite length_insert, (vi_desc _ _ _ _ Hinv).
      * apply list_lookup_insert_eq. by rewrite !length_insert, (vi_desc _ _ _ _ Hinv).
      * exists 0. apply list_lookup_insert_eq. by rewrite (vi_info_len _ _ _ _ Hinv).
      * exists (set_disk true bf). split_and!; [by apply list_lookup_insert_eq | done | done].
    + apply Forall_forall. intros r' Hr'. pose proof (proj1 (Forall_forall _ _) (vi_ok _ _ _ _ Hinv) r' Hr') as Hok.
      eapply req_ok_frame; [done | | | by apply Hbufs | done]; cbn.
      * intros i Hi. assert (Hin : i ∈ all_slots (Q ++ V ++ D)) by (by eapply slots_in).
        rewrite !list_lookup_insert_ne; [done | ..]; intros <-; done.
      * by apply Hinfo.
  - rewrite (all_slots_perm _ _ Hperm), all_slots_cons. cbn [q_i0 q_i1 q_i2 r].
    rewrite !NoDup_cons, !not_elem_of_cons. split_and!; [done.. | apply Hinv].
  - intros i Hi. unfold taken. cbn [v_free put_free]. rewrite lookup_foldl_insert, (vi_free _ _ _ _ Hinv i Hi).
    assert (Hiff : i ∈ all_slots ((Q ++ [r]) ++ V ++ D) ↔ i ∈ [i0; i1; i2] ∨ i ∈ all_slots (Q ++ V ++ D)).
    { rewrite (all_slots_perm _ _ Hperm), all_slots_cons, !elem_of_cons, elem_of_nil. cbn. tauto. }
    case_decide as Hin; cbn; f_equal; [symmetry; apply bool_decide_eq_false | apply bool_decide_ext]; rewrite Hiff; tauto.
  - rewrite Hperm. cbn. constructor; [done | apply Hinv].
  - rewrite Hperm. cbn. constructor; [done | apply Hinv].
  - by apply (avail_push Q V D s); [| unfold num; lia | ..].
  - apply Forall_forall. intros r' Hr'. rewrite <- app_assoc in Hr'. cbn in Hr'.
    assert (r' = r ∨ r' ∈ Q ++ V) as [->|Hin] by (clear -Hr'; set_solver).
    + unfold owned. cbn. by rewrite (list_lookup_total_insert_eq _ _ _ Lb).
    + eapply owned_frame; [| apply Hbufs; clear -Hin; set_solver]. by apply (proj1 (Forall_forall _ _) (vi_busy _ _ _ _ Hinv)).
  - apply Forall_forall. intros r' Hr'. eapply owned_frame; [| apply Hbufs; clear -Hr'; set_solver].
    by apply (proj1 (Forall_forall _ _) (vi_over _ _ _ _ Hinv)).
  - apply Forall_forall. intros r' Hr'. rewrite (status_frame s); [by apply (proj1 (Forall_forall _ _) (vi_clean _ _ _ _ Hinv)) |].
    apply Hinfo. clear -Hr'. set_solver.
  - apply Forall_forall. intros r' Hr'. assert (Hin : r' ∈ Q ++ V ++ D) by (clear -Hr'; set_solver).
    eapply ended_frame; [| by apply Hinfo | by apply Hbufs | done].
    by apply (proj1 (Forall_forall _ _) (vi_ended _ _ _ _ Hinv)).
Qed.

Lemma rw_spec Q V D s b w bf :
  vinv Q V D s → may_start (Q ++ V ++ D) s b bf →
  wp (virtio_disk_rw b w) (rw_post Q V D s b w bf) s.
Proof.
  intros Hinv Hms. pose proof (ms_buf _ _ _ _ Hms) as Hbuf. unfold virtio_disk_rw.
  apply wp_bind, wp_gets. rewrite (list_lookup_total_correct _ _ _ Hbuf).
  wp_call (alloc3_spec s (vi_free_len _ _ _ _ Hinv)). intros [r|] s' Hr.
  2: { apply wp_ret. pose proof Hr as [_ _ (ds & wk & ->)]. split; [split; [by eapply vinv_quiet | done] | done]. }
  destruct Hr as (i0 & i1 & i2 & -> & -> & Hnd & F0 & F1 & F2).
  rewrite u32_sector by apply (ms_blk _ _ _ _ Hms).
  repeat (apply wp_bind, wp_modify). apply wp_ret. split; [| done].
  exists (Req i0 i1 i2 b w (b_blockno bf) (b_data bf)). split_and!; [done.. |].
  pose proof (rw_submits Q V D s b w bf i0 i1 i2 Hinv Hms Hnd F0 F1 F2) as Hpost.
  cbn -[foldl] in Hpost |- *. rewrite !Nat2Z.id. destruct (free_slot Hinv i0 F0) as [_ L0].
  destruct (lookup_lt_is_Some_2 (v_info s) i0) as [x Hx]; [by rewrite (vi_info_len _ _ _ _ Hinv) |].
  rewrite (alter_to_insert _ i0 (v_info s) x Hx).
  erewrite (alter_to_insert _ i0); [| apply list_lookup_insert_eq; by rewrite (vi_info_len _ _ _ _ Hinv)].
  rewrite list_insert_insert_eq, (alter_to_insert _ b _ _ Hbuf). exact Hpost.
Qed.

(** ** The device *)
Lemma request_of s r : req_ok s r → request_at s (q_i0 r) (hdr r) (q_buf r) (q_i0 r).
Proof.
  intros [_ H0 H1 H2 _ _]. eexists _, _, _. split; [exact H0 |]. cbn [d_next d_addr d_len d_flags].
  rewrite Nat2Z.id. split_and!; [done | done | done | exact H1 |..]; cbn [d_next d_addr d_len d_flags]; [done | done | | ..].
  - unfold hdr. by destruct (q_write r).
  - rewrite Nat2Z.id. exact H2.
  - done.
  - done.
  - done.
Qed.

Lemma transfer_spec r s bf st x :
  req_ok s r → v_bufs s !! q_buf r = Some bf →
  ∃ d e, transfer (hdr r) (q_buf r) st x s = (<[q_buf r := set_data e bf]> (v_bufs s), <[q_blk r := d]> (v_disk s))
    ∧ (q_write r = true → e = b_data bf) ∧ (st = 0 → d = e).
Proof.
  intros Hok Hbf. unfold transfer. cbn [hdr h_type h_sector].
  replace (2 * q_blk r / 2) with (q_blk r) by (rewrite Z.mul_comm, Z.div_mul; lia).
  destruct (q_write r).
  - rewrite decide_True by done. rewrite (list_lookup_total_correct _ _ _ Hbf).
    exists (if decide (st = 0) then b_data bf else x), (b_data bf). split_and!; [| done | intros ->; by rewrite decide_True].
    f_equal. symmetry. apply list_insert_id. by destruct bf.
  - rewrite decide_False by done. destruct (ro_blk _ _ Hok) as [_ [d Hd]]. rewrite Hd. cbn.
    exists d, (if decide (st = 0) then d else x). split_and!; [| done | intros ->; by rewrite decide_True].
    rewrite (alter_to_insert _ _ _ _ Hbf). f_equal. symmetry. by apply insert_id.
Qed.

Lemma u16_ne a n : 0 <= a < 2 ^ 16 → a ≠ u16 (a + n) → n ≠ 0.
Proof. intros Ha Hne ->. apply Hne. rewrite Z.add_0_r. unfold u16. by rewrite Z.mod_small. Qed.

Lemma NoDup_fmap_ne {A B} (f : A → B) l x y : NoDup (f <$> x :: l) → y ∈ l → f y ≠ f x.
Proof.
  cbn. intros [Hx _]%NoDup_cons Hy E. apply Hx. rewrite <- E. apply list_elem_of_fmap. eauto.
Qed.

(** The device's own state may change. *)
Lemma vinv_dev Q V D s dv :
  let s' := Vst (v_desc s) (v_avail_idx s) (v_avail s) (v_used_id s) (v_used s) (v_free s) (v_used_idx s) (v_info s)
    (v_bufs s) (v_disk s) dv (v_woken s) in
  vinv Q V D s → dev_ok Q s' → vinv Q V D s'.
Proof.
  intros s' [? ? ? ? ? Hok ? ? ? ? ? ? ? ? ? ? ?] Hd. split; try done.
  eapply Forall_impl; [exact Hok |]. intros r Hr. by eapply req_ok_frame.
Qed.

(** The order of the unfinished requests does not matter. *)
Lemma vinv_perm Q Q' V D s : Q ≡ₚ Q' → vinv Q V D s → vinv Q' V D s.
Proof.
  intros Hp [? ? ? ? ? Hok Hsl Hfr Hb Hk (U & F & HU & Hrest) ? ? Hbusy ? ? ?].
  split; try done; rewrite <- ?Hp; try done.
  - by rewrite <- (all_slots_perm _ _ (Permutation_app_tail (V ++ D) Hp)).
  - intros i Hi. rewrite Hfr by done. f_equal. apply bool_decide_ext.
    by rewrite (all_slots_perm _ _ (Permutation_app_tail (V ++ D) Hp)).
  - exists U, F. by rewrite <- Hp.
Qed.

(** The device takes the next request. *)
Lemma fetch_spec Q V D s s' :
  vinv Q V D s → v_seen s ≠ v_avail_idx s →
  (∀ i, v_avail s !! Z.to_nat (v_seen s mod NUM) = Some (Z.of_nat i) → s' = fetch i s) → vinv Q V D s'.
Proof.
  intros Hinv Hne Hserve. destruct (vi_dev _ _ _ _ Hinv) as (U & F & Hp & Hr & Hf & Hs & Eidx).
  rewrite Eidx in Hne. apply u16_ne in Hne; [| done]. destruct U as [|r U]; [done |].
  destruct (ring_pop _ _ _ _ Hr) as [_ Hring]. destruct Hr as (_ & _ & Hhead). specialize (Hhead 0%nat _ eq_refl).
  unfold ring_ix in Hhead. rewrite Z.add_0_r, (vi_avail_len _ _ _ _ Hinv) in Hhead. rewrite (Hserve _ Hhead).
  apply vinv_dev; [done |]. exists U, (F ++ [r]). unfold v_seen, v_flight in *. cbn [v_dev v_avail v_avail_idx Datatypes.fst Datatypes.snd].
  split_and!.
  - rewrite Hp. cbn. rewrite (app_assoc U F [r]). apply Permutation_cons_append.
  - eapply ring_congr; [| exact Hring]. rewrite (vi_avail_len _ _ _ _ Hinv). unfold u16. change (Z.of_nat num) with 8.
    rewrite <- Znumtheory.Zmod_div_mod; [done | lia | lia |]. by exists (2 ^ 13).
  - by rewrite Hf, fmap_app.
  - apply Z.mod_pos_bound. lia.
  - apply Z.mod_pos_bound. lia.
  - rewrite Eidx. unfold u16. rewrite Zplus_mod_idemp_l. f_equal. cbn. lia.
Qed.

(** The device finishes a request it has in work. *)
Lemma complete_spec r Q V D s st x U F :
  vinv (r :: Q) V D s → Q ≡ₚ U ++ F → ring (v_avail s) (v_seen s) (heads U) →
  0 <= v_seen s < 2 ^ 16 → v_avail_idx s = u16 (v_seen s + Z.of_nat (length U)) →
  vinv Q (V ++ [r]) D (complete (q_i0 r) (hdr r) (q_buf r) (q_i0 r) st x (q_i0 <$> F) s).
Proof.
  intros Hinv HU Hr Hs Eidx.
  pose proof (vi_ok _ _ _ _ Hinv) as Hall. cbn in Hall. apply Forall_cons in Hall as [Hok Hoks].
  destruct (ro_buf _ _ Hok) as (bf & Hbf & Hblk & Hdata). pose proof (lookup_lt_Some _ _ _ Hbf) as Lb.
  destruct (ro_info _ _ Hok) as [st0 Hi0]. pose proof (lookup_lt_Some _ _ _ Hi0) as Li.
  destruct (transfer_spec r s bf st x Hok Hbf) as (d & e & Et & Hd & Hst). unfold complete. rewrite Et. cbn [fst snd].
  rewrite (alter_to_insert _ _ _ _ Hi0). cbn [Datatypes.fst].
  assert (Hperm : Q ++ (V ++ [r]) ++ D ≡ₚ r :: Q ++ V ++ D).
  { rewrite <- app_assoc. cbn. rewrite (app_assoc Q V (r :: D)), (app_assoc Q V D). symmetry. apply Permutation_middle. }
  pose proof (vi_bufs _ _ _ _ Hinv) as Nbuf. pose proof (vi_blks _ _ _ _ Hinv) as Nblk. cbn [app] in Nbuf, Nblk.
  pose proof (vi_slots _ _ _ _ Hinv) as Nsl. cbn [app] in Nsl. rewrite all_slots_cons in Nsl.
  assert (Hbufs : ∀ r', r' ∈ Q ++ V ++ D → <[q_buf r := set_data e bf]> (v_bufs s) !! q_buf r' = v_bufs s !! q_buf r').
  { intros r' Hr'. apply list_lookup_insert_ne. pose proof (NoDup_fmap_ne _ _ _ _ Nbuf Hr'). congruence. }
  assert (Hdisk : ∀ r', r' ∈ Q ++ V ++ D → <[q_blk r := d]> (v_disk s) !! q_blk r' = v_disk s !! q_blk r').
  { intros r' Hr'. apply lookup_insert_ne. pose proof (NoDup_fmap_ne _ _ _ _ Nblk Hr'). congruence. }
  assert (Hinfo : ∀ r', r' ∈ Q ++ V ++ D → <[q_i0 r := (Some (q_buf r), st)]> (v_info s) !! q_i0 r' = v_info s !! q_i0 r').
  { intros r' Hr'. apply list_lookup_insert_ne. intros E. apply NoDup_cons in Nsl as [Nsl _]. apply Nsl.
    rewrite E. apply elem_of_cons. right. apply elem_of_cons. right. by apply head_in. }
  pose proof (few_requests Hinv) as Hfew. cbn in Hfew. rewrite !length_app in Hfew.
  destruct (vi_uidx _ _ _ _ Hinv) as [Hu Eu].
  split; cbn [v_desc v_avail v_used v_free v_info v_dev v_avail_idx v_used_idx v_used_id];
    rewrite ?length_insert; try apply Hinv.
  - rewrite Hperm. constructor.
    + destruct Hok as [[Hb _] ? ? ? ? _]. split; try done; cbn [v_disk v_bufs v_info].
      * rewrite lookup_insert_eq. eauto.
      * exists st. by rewrite list_lookup_insert_eq.
      * exists (set_data e bf). split_and!; [by apply list_lookup_insert_eq | done |].
        intros Hw. cbn. rewrite Hd by done. auto.
    + apply Forall_forall. intros r' Hr'. pose proof (proj1 (Forall_forall _ _) Hoks r' Hr') as Hok'.
      eapply req_ok_frame; [done | done | by apply Hinfo | by apply Hbufs |]. intros Hsm. cbn. by rewrite Hdisk.
  - rewrite (all_slots_perm _ _ Hperm). apply Hinv.
  - intros i Hi. rewrite (vi_free _ _ _ _ Hinv i Hi). f_equal. apply bool_decide_ext.
    by rewrite (all_slots_perm _ _ Hperm).
  - rewrite Hperm. done.
  - rewrite Hperm. done.
  - exists U, F. done.
  - unfold heads. rewrite fmap_app. cbn. fold (heads V).
    assert (E : Z.to_nat (v_used_id s mod NUM) = ring_ix (v_used s) (v_used_idx s + Z.of_nat (length (heads V)))).
    { unfold ring_ix, heads. by rewrite (vi_used_len _ _ _ _ Hinv), length_fmap, Eu. }
    rewrite E. apply ring_push; [apply Hinv |]. unfold heads. rewrite length_fmap, (vi_used_len _ _ _ _ Hinv).
    unfold num. lia.
  - split; [done |]. unfold u16. unfold NUM in *. rewrite <- Znumtheory.Zmod_div_mod; [| lia | lia | by exists (2 ^ 13)].
    rewrite <- Zplus_mod_idemp_l, Eu, Zplus_mod_idemp_l, length_app. f_equal. cbn. lia.
  - apply Forall_forall. intros r' Hr'. pose proof (vi_busy _ _ _ _ Hinv) as Hbusy. cbn in Hbusy.
    apply Forall_cons in Hbusy as [Hb Hbusy].
    assert (r' = r ∨ r' ∈ Q ++ V) as [->|Hin] by (clear -Hr'; set_solver).
    + unfold owned in *. cbn. rewrite (list_lookup_total_insert_eq _ _ _ Lb). cbn.
      by rewrite (list_lookup_total_correct _ _ _ Hbf) in Hb.
    + eapply owned_frame; [| apply Hbufs; clear -Hin; set_solver]. by apply (proj1 (Forall_forall _ _) Hbusy).
  - apply Forall_forall. intros r' Hr'. eapply owned_frame; [| apply Hbufs; clear -Hr'; set_solver].
    by apply (proj1 (Forall_forall _ _) (vi_over _ _ _ _ Hinv)).
  - apply Forall_forall. intros r' Hr'. rewrite (status_frame s); [by apply (proj1 (Forall_forall _ _) (vi_clean _ _ _ _ Hinv)) |].
    apply Hinfo. clear -Hr'. set_solver.
  - apply Forall_forall. intros r' Hr'. assert (r' = r ∨ r' ∈ V ++ D) as [->|Hin] by (clear -Hr'; set_solver).
    + unfold ended, status, moved. cbn. rewrite (list_lookup_total_insert_eq _ _ _ Li). cbn. intros ->.
      rewrite lookup_insert_eq, (list_lookup_total_insert_eq _ _ _ Lb), Hst by done. done.
    + assert (r' ∈ Q ++ V ++ D) by (clear -Hin; set_solver).
      eapply ended_frame; [| by apply Hinfo | by apply Hbufs | by apply Hdisk].
      by apply (proj1 (Forall_forall _ _) (vi_ended _ _ _ _ Hinv)).
Qed.

Lemma device_spec Q V D s s' :
  vinv Q V D s → served s s' →
  vinv Q V D s' ∨ ∃ r Q', Q ≡ₚ r :: Q' ∧ vinv Q' (V ++ [r]) D s'.
Proof.
  intros Hinv [[Hne Hf] | (i & fl1 & fl2 & Hfl & Hc)]; [left; by eapply fetch_spec | right].
  destruct (vi_dev _ _ _ _ Hinv) as (U & F & Hp & Hr & Hf & Hs & Eidx). rewrite Hfl in Hf. symmetry in Hf.
  apply fmap_app_inv in Hf as (F1 & F2 & E1 & E2 & ->). destruct F2 as [|r F2]; [done |]. cbn in E2. injection E2 as -> E2.
  assert (HQ : Q ≡ₚ r :: U ++ F1 ++ F2).
  { rewrite Hp. rewrite (app_assoc U F1 (r :: F2)), (app_assoc U F1 F2). symmetry. apply Permutation_middle. }
  exists r, (U ++ F1 ++ F2). split; [done |]. apply (vinv_perm _ _ _ _ _ HQ) in Hinv.
  pose proof (vi_ok _ _ _ _ Hinv) as Hall. cbn in Hall. apply Forall_cons in Hall as [Hok _].
  destruct (Hc _ _ _ (request_of _ _ Hok)) as (st & x & ->); [cbn; destruct (q_write r); tauto |].
  rewrite E1, E2, <- fmap_app. by apply (complete_spec r _ V D s st x U (F1 ++ F2)).
Qed.

(** ** The interrupt handler *)
Lemma mod8_ne a n : 0 <= a < NUM → 0 < n < NUM → a mod NUM ≠ (a + n) mod NUM.
Proof.
  unfold NUM. intros Ha Hn E. rewrite (Z.mod_small a) in E by lia.
  pose proof (Z.div_mod (a + n) 8 ltac:(lia)). lia.
Qed.

(** One completed request: its buffer is given back, its caller woken. *)
Definition seen_one (r : req) (s : vst) : vst :=
  put_used_idx ((v_used_idx s + 1) mod NUM) (add_woken (WBuf (q_buf r)) (put_bufs (alter (set_disk false) (q_buf r) (v_bufs s)) s)).

Lemma seen_one_inv Q V D s r :
  vinv Q (r :: V) D s → status s r = 0 → vinv Q V (D ++ [r]) (seen_one r s).
Proof.
  intros Hinv Hst. assert (Hr : r ∈ Q ++ (r :: V) ++ D) by (clear; set_solver).
  pose proof (proj1 (Forall_forall _ _) (vi_ok _ _ _ _ Hinv) r Hr) as Hok.
  destruct (ro_buf _ _ Hok) as (bf & Hbf & Hblk & Hdata). pose proof (lookup_lt_Some _ _ _ Hbf) as Lb.
  unfold seen_one. rewrite (alter_to_insert _ _ _ _ Hbf).
  assert (Hperm : Q ++ V ++ D ++ [r] ≡ₚ Q ++ (r :: V) ++ D).
  { cbn. rewrite (app_assoc V D [r]), (Permutation_app_comm (V ++ D) [r]). done. }
  assert (Hperm' : Q ++ (r :: V) ++ D ≡ₚ r :: Q ++ V ++ D) by (symmetry; apply Permutation_middle).
  pose proof (vi_bufs _ _ _ _ Hinv) as Nbuf. rewrite Hperm' in Nbuf.
  assert (Hbufs : ∀ r', r' ∈ Q ++ V ++ D → <[q_buf r := set_disk false bf]> (v_bufs s) !! q_buf r' = v_bufs s !! q_buf r').
  { intros r' Hr'. apply list_lookup_insert_ne. pose proof (NoDup_fmap_ne _ _ _ _ Nbuf Hr'). congruence. }
  destruct (ring_pop _ _ _ _ (vi_used _ _ _ _ Hinv)) as [_ Hring]. destruct (vi_uidx _ _ _ _ Hinv) as [Hu Eu].
  assert (Hbusy : Forall (owned true s) (r :: Q ++ V)).
  { rewrite (Permutation_middle Q V r). apply Hinv. } apply Forall_cons in Hbusy as [_ Hbusy].
  pose proof (vi_ended _ _ _ _ Hinv) as Hmoved. cbn in Hmoved. apply Forall_cons in Hmoved as [Hmr Hmoved].
  split; cbn [v_desc v_avail v_used v_free v_info v_dev v_avail_idx v_used_idx v_used_id put_used_idx add_woken put_bufs];
    try apply Hinv.
  - rewrite Hperm, Hperm'. pose proof (vi_ok _ _ _ _ Hinv) as Hall. rewrite Hperm' in Hall.
    apply Forall_cons in Hall as [_ Hall]. constructor.
    + destruct Hok. split; try done. cbn. exists (set_disk false bf).
      split_and!; [by apply list_lookup_insert_eq | done | done].
    + apply Forall_forall. intros r' Hr'. pose proof (proj1 (Forall_forall _ _) Hall r' Hr') as Hok'.
      eapply req_ok_frame; [done | done | done | by apply Hbufs | done].
  - rewrite (all_slots_perm _ _ Hperm). apply Hinv.
  - intros i Hi. rewrite (vi_free _ _ _ _ Hinv i Hi). f_equal. apply bool_decide_ext.
    by rewrite (all_slots_perm _ _ Hperm).
  - rewrite Hperm. apply Hinv.
  - rewrite Hperm. apply Hinv.
  - eapply ring_congr; [| exact Hring]. rewrite (vi_used_len _ _ _ _ Hinv). symmetry. apply Z.mod_mod. done.
  - split; [by apply Z.mod_pos_bound |]. rewrite Eu, Zplus_mod_idemp_l. f_equal. cbn. lia.
  - apply Forall_forall. intros r' Hr'. eapply owned_frame; [| apply Hbufs; clear -Hr'; set_solver].
    by apply (proj1 (Forall_forall _ _) Hbusy).
  - apply Forall_app. split.
    + apply Forall_forall. intros r' Hr'. eapply owned_frame; [| apply Hbufs; clear -Hr'; set_solver].
      by apply (proj1 (Forall_forall _ _) (vi_over _ _ _ _ Hinv)).
    + constructor; [| constructor]. unfold owned. cbn. by rewrite (list_lookup_total_insert_eq _ _ _ Lb).
  - apply Forall_app. split; [apply Hinv |]. by constructor.
  - rewrite app_assoc. apply Forall_app. split.
    + apply Forall_forall. intros r' Hr'. eapply (ended_frame s); [| done | apply Hbufs; clear -Hr'; set_solver | done].
      by apply (proj1 (Forall_forall _ _) Hmoved).
    + constructor; [| constructor]. intros _. specialize (Hmr Hst). unfold moved in *. cbn.
      rewrite (list_lookup_total_insert_eq _ _ _ Lb). by rewrite (list_lookup_total_correct _ _ _ Hbf) in Hmr.
Qed.

(** One turn of the handler's loop. *)
Lemma intr_head_spec Q V D s :
  vinv Q V D s → intr_head s = match V with
    | [] => Ret None s
    | r :: _ => if decide (status s r = 0) then Ret (Some (q_buf r)) (put_bufs (alter (set_disk false) (q_buf r) (v_bufs s)) s)
                else Panic "virtio_disk_intr status"
    end.
Proof.
  intros Hinv. destruct (vi_uidx _ _ _ _ Hinv) as [Hu Eu]. unfold intr_head, bind at 1. cbn [gets id].
  destruct V as [|r V].
  - rewrite Eu. cbn. by rewrite Z.add_0_r, decide_False by tauto.
  - pose proof (few_requests Hinv) as Hfew. rewrite !length_app in Hfew. cbn in Hfew.
    rewrite decide_True by (rewrite Eu; apply mod8_ne; unfold NUM in *; cbn; lia).
    destruct (ring_pop _ _ _ _ (vi_used _ _ _ _ Hinv)) as [Hid _].
    unfold ring_ix in Hid. rewrite (vi_used_len _ _ _ _ Hinv), Z.mod_small in Hid by done. rewrite Hid, Nat2Z.id.
    assert (Hr : r ∈ Q ++ (r :: V) ++ D) by (clear; set_solver).
    pose proof (proj1 (Forall_forall _ _) (vi_ok _ _ _ _ Hinv) r Hr) as Hok. destruct (ro_info _ _ Hok) as [st Hi].
    unfold status. rewrite (list_lookup_total_correct _ _ _ Hi). cbn [Datatypes.fst Datatypes.snd].
    destruct (decide (st = 0)) as [->|Hne]; [by rewrite decide_False by tauto | by rewrite decide_True].
Qed.

Lemma intr_loop_step Q V D fuel s :
  vinv Q V D s → intr_loop (S fuel) s = match V with
    | [] => Ret tt s
    | r :: _ => if decide (status s r = 0) then intr_loop fuel (seen_one r s) else Panic "virtio_disk_intr status"
    end.
Proof.
  intros Hinv. cbn [intr_loop]. unfold bind at 1. rewrite (intr_head_spec _ _ _ _ Hinv).
  destruct V; [done |]. by case_decide.
Qed.

(** The handler goes through the finished requests up to the first one that
    ended in error, which makes it panic. *)
Lemma intr_loop_spec Q V : ∀ fuel D s,
  vinv Q V D s → (length V < fuel)%nat →
  if decide (Forall (λ r, status s r = 0) V)
  then ∃ s', intr_loop fuel s = Ret tt s' ∧ vinv Q [] (D ++ V) s'
    ∧ v_woken s' = v_woken s ++ (WBuf ∘ q_buf <$> V) ∧ v_disk s' = v_disk s
  else intr_loop fuel s = Panic "virtio_disk_intr status".
Proof.
  induction V as [|r V IH]; intros fuel D s Hinv Hf; (destruct fuel as [|fuel]; [lia |]);
    rewrite (intr_loop_step _ _ _ _ _ Hinv).
  - rewrite decide_True by constructor. exists s. rewrite !app_nil_r. done.
  - cbn in Hf. destruct (decide (status s r = 0)) as [Hst|Hst].
    2:{ rewrite decide_False; [done |]. by intros [? _]%Forall_cons. }
    pose proof (IH fuel (D ++ [r]) (seen_one r s) (seen_one_inv _ _ _ _ _ Hinv Hst) ltac:(lia)) as HI.
    destruct (decide (Forall (λ x, status s x = 0) V)) as [Hall|Hall].
    + rewrite decide_True in HI by exact Hall. rewrite decide_True by (by constructor).
      destruct HI as (s' & E & Hinv' & Hw & Hd).
      exists s'. split_and!; [done | by rewrite <- app_assoc in Hinv' | | done].
      rewrite Hw. cbn. by rewrite <- app_assoc.
    + rewrite decide_False in HI by exact Hall. rewrite decide_False; [done |]. by intros [_ ?]%Forall_cons.
Qed.

Lemma intr_spec Q V D s :
  vinv Q V D s →
  if decide (Forall (λ r, status s r = 0) V)
  then ∃ s', virtio_disk_intr s = Ret tt s' ∧ vinv Q [] (D ++ V) s'
    ∧ v_woken s' = v_woken s ++ (WBuf ∘ q_buf <$> V) ∧ v_disk s' = v_disk s
  else virtio_disk_intr s = Panic "virtio_disk_intr status".
Proof.
  intros Hinv. apply intr_loop_spec; [done |].
  pose proof (few_requests Hinv) as Hf. rewrite !length_app in Hf. unfold num. lia.
Qed.

(** ** The end of a request *)
Definition freed_slot (i : nat) (s : vst) : vst :=
  add_woken WFree (put_free (<[i := true]> (v_free s)) (nulled i s)).

Lemma free_chain_step fuel i d s :
  (i < num)%nat → v_free s !! i = Some false → v_desc s !! i = Some d →
  free_chain (S fuel) (Z.of_nat i) s =
  (if decide (Z.land (d_flags d) VRING_DESC_F_NEXT ≠ 0) then free_chain fuel (d_next d) else ret tt) (freed_slot i s).
Proof.
  intros Hi Hf Hd. cbn [free_chain]. unfold bind. rewrite free_desc_eq by done. fold (freed_slot i s). cbn [gets id].
  rewrite Nat2Z.id. assert (E : v_desc (freed_slot i s) !!! i = Desc Null (d_len d) (d_flags d) (d_next d)).
  { cbn. rewrite (list_lookup_total_correct _ _ _ Hd). apply list_lookup_total_insert_eq. by eapply lookup_lt_Some. }
  by rewrite E.
Qed.

Definition released (r : req) (s : vst) : vst :=
  freed_slot (q_i2 r) (freed_slot (q_i1 r) (freed_slot (q_i0 r)
    (put_info (alter (λ x, (None, x.2)) (q_i0 r) (v_info s)) s))).

Lemma slots_distinct Q V D s r :
  vinv Q V D s → r ∈ Q ++ V ++ D →
  q_i0 r ≠ q_i1 r ∧ q_i0 r ≠ q_i2 r ∧ q_i1 r ≠ q_i2 r
  ∧ ∀ r' i, r' ∈ Q ++ V ++ D → i ∈ slots r' → i ∈ slots r → r' = r.
Proof.
  intros Hinv (l1 & l2 & E)%list_elem_of_split. pose proof (vi_slots _ _ _ _ Hinv) as Hnd. rewrite E in *.
  rewrite (all_slots_perm (l1 ++ r :: l2) (r :: l1 ++ l2)) in Hnd by (symmetry; apply Permutation_middle).
  rewrite all_slots_cons, !NoDup_cons, !not_elem_of_cons in Hnd.
  destruct Hnd as ((? & ? & N0) & (? & N1) & N2 & _). split_and!; [done.. |].
  intros r' i Hr' Hi Hir. assert (r' = r ∨ r' ∈ l1 ++ l2) as [->|Hin] by (clear -Hr'; set_solver); [done |].
  pose proof (slots_in _ _ _ Hin Hi) as Hall. exfalso. unfold slots in Hir.
  rewrite !elem_of_cons, elem_of_nil in Hir. destruct Hir as [->|[->|[->|[]]]]; done.
Qed.

Lemma return_eq Q V D1 D2 s r :
  vinv Q V (D1 ++ r :: D2) s →
  virtio_disk_rw_return (q_buf r) (Z.of_nat (q_i0 r)) s = Ret true (released r s).
Proof.
  intros Hinv. assert (Hr : r ∈ Q ++ V ++ D1 ++ r :: D2) by (clear; set_solver).
  pose proof (proj1 (Forall_forall _ _) (vi_ok _ _ _ _ Hinv) r Hr) as Hok.
  assert (Hover : owned false s r).
  { apply (proj1 (Forall_forall _ _) (vi_over _ _ _ _ Hinv)). clear; set_solver. }
  destruct (slots_distinct _ _ _ _ _ Hinv Hr) as (N01 & N02 & N12 & _).
  assert (Hslot : ∀ i, i ∈ slots r → (i < num)%nat ∧ v_free s !! i = Some false).
  { intros i Hi. pose proof (slots_in _ _ _ Hr Hi) as Hin. split; [by eapply slot_lt | by eapply slot_taken]. }
  destruct (Hslot (q_i0 r)) as [L0 F0]; [clear; set_solver |].
  destruct (Hslot (q_i1 r)) as [L1 F1]; [clear; set_solver |].
  destruct (Hslot (q_i2 r)) as [L2 F2]; [clear; set_solver |].
  unfold virtio_disk_rw_return, bind at 1. cbn [gets]. unfold owned in Hover. rewrite Hover.
  unfold bind, upd_info. cbn [modify]. rewrite Nat2Z.id. change num with 8%nat.
  erewrite free_chain_step; [| done | done | exact (ro_d0 _ _ Hok)]. rewrite decide_True by done. cbn [d_next].
  erewrite free_chain_step; [| done | cbn; by rewrite list_lookup_insert_ne by done |
    cbn; rewrite list_lookup_insert_ne by done; exact (ro_d1 _ _ Hok)].
  rewrite decide_True by (by destruct (q_write r)). cbn [d_next].
  erewrite free_chain_step; [| done | cbn; by rewrite !list_lookup_insert_ne by done |
    cbn; rewrite !list_lookup_insert_ne by done; exact (ro_d2 _ _ Hok)].
  rewrite decide_False by (cbn; tauto). done.
Qed.

Lemma released_fields r s :
  length (v_desc (released r s)) = length (v_desc s) ∧ length (v_free (released r s)) = length (v_free s)
  ∧ length (v_info (released r s)) = length (v_info s)
  ∧ (∀ i, i ∉ slots r → v_desc (released r s) !! i = v_desc s !! i ∧ v_free (released r s) !! i = v_free s !! i
       ∧ v_info (released r s) !! i = v_info s !! i)
  ∧ (∀ i, i ∈ slots r → (i < length (v_free s))%nat → v_free (released r s) !! i = Some true).
Proof.
  unfold released, slots. cbn. rewrite !length_insert, length_alter. split_and!; [done.. | |].
  - intros i Hi. rewrite !not_elem_of_cons in Hi. destruct Hi as (? & ? & ? & _).
    by rewrite !list_lookup_insert_ne, list_lookup_alter_ne by congruence.
  - intros i Hi Hl. rewrite !elem_of_cons in Hi. destruct (decide (i = q_i2 r)) as [->|].
    { apply list_lookup_insert_eq. by rewrite !length_insert. }
    rewrite list_lookup_insert_ne by congruence. destruct (decide (i = q_i1 r)) as [->|].
    { apply list_lookup_insert_eq. by rewrite !length_insert. }
    rewrite list_lookup_insert_ne by congruence. assert (i = q_i0 r) as -> by (rewrite elem_of_nil in Hi; tauto).
    by apply list_lookup_insert_eq.
Qed.

Lemma released_inv Q V D1 D2 s r : vinv Q V (D1 ++ r :: D2) s → vinv Q V (D1 ++ D2) (released r s).
Proof.
  intros Hinv. assert (Hr : r ∈ Q ++ V ++ D1 ++ r :: D2) by (clear; set_solver).
  destruct (slots_distinct _ _ _ _ _ Hinv Hr) as (N01 & N02 & N12 & Hdist).
  destruct (released_fields r s) as (Ld & Lf & Li & Hout & Hin).
  assert (Hperm : Q ++ V ++ D1 ++ r :: D2 ≡ₚ r :: Q ++ V ++ D1 ++ D2).
  { rewrite (app_assoc V D1 (r :: D2)), (app_assoc Q (V ++ D1) (r :: D2)), <- Permutation_middle.
    by rewrite <- !app_assoc. }
  pose proof (vi_slots _ _ _ _ Hinv) as Hnd. rewrite (all_slots_perm _ _ Hperm), all_slots_cons in Hnd.
  assert (Hother : ∀ r' i, r' ∈ Q ++ V ++ D1 ++ D2 → i ∈ slots r' → i ∉ slots r).
  { intros r' i Hr' Hi Hir. pose proof (slots_in _ _ _ Hr' Hi) as Hall. clear -Hnd Hall Hir. unfold slots in Hir.
    rewrite !NoDup_cons, !not_elem_of_cons in Hnd. rewrite !elem_of_cons, elem_of_nil in Hir.
    destruct Hir as [->|[->|[->|[]]]]; tauto. }
  pose proof (vi_ok _ _ _ _ Hinv) as Hall. rewrite Hperm in Hall. apply Forall_cons in Hall as [_ Hall].
  pose proof (vi_bufs _ _ _ _ Hinv) as Nbuf. rewrite Hperm in Nbuf. cbn in Nbuf. apply NoDup_cons in Nbuf as [_ Nbuf].
  pose proof (vi_blks _ _ _ _ Hinv) as Nblk. rewrite Hperm in Nblk. cbn in Nblk. apply NoDup_cons in Nblk as [_ Nblk].
  pose proof (vi_over _ _ _ _ Hinv) as Hover. pose proof (vi_ended _ _ _ _ Hinv) as Hended.
  pose proof (vi_clean _ _ _ _ Hinv) as Hclean.
  rewrite Forall_app, Forall_cons in Hover. rewrite Forall_app, Forall_cons in Hclean.
  assert (Hinfo : ∀ r', r' ∈ Q ++ V ++ D1 ++ D2 → v_info (released r s) !! q_i0 r' = v_info s !! q_i0 r').
  { intros r' Hr'. apply Hout. eapply Hother; [done |]. clear; set_solver. }
  split; rewrite ?Ld, ?Lf, ?Li; try apply Hinv; try done.
  - apply Forall_forall. intros r' Hr'. pose proof (proj1 (Forall_forall _ _) Hall r' Hr') as Hok.
    eapply req_ok_frame; [done | | | done | done].
    + intros i Hi. apply Hout. eauto.
    + by apply Hinfo.
  - rewrite !NoDup_cons in Hnd. tauto.
  - intros i Hi. destruct (decide (i ∈ slots r)) as [Hir|Hir].
    + rewrite Hin by (done || by rewrite (vi_free_len _ _ _ _ Hinv)). f_equal. symmetry. apply bool_decide_eq_true.
      intros (r' & Hi' & Hr')%list_elem_of_bind. by eapply Hother.
    + destruct (Hout i Hir) as (_ & -> & _). rewrite (vi_free _ _ _ _ Hinv i Hi). f_equal. apply bool_decide_ext.
      rewrite (all_slots_perm _ _ Hperm), all_slots_cons, !elem_of_cons. unfold slots in Hir.
      rewrite !elem_of_cons, elem_of_nil in Hir. tauto.
  - apply Forall_app. tauto.
  - apply Forall_forall. intros r' Hr'. rewrite (status_frame s) by (apply Hinfo; clear -Hr'; set_solver).
    assert (Forall (λ x, status s x = 0) (D1 ++ D2)) as Hc by (apply Forall_app; tauto).
    by apply (proj1 (Forall_forall _ _) Hc).
  - apply Forall_forall. intros r' Hr'.
    eapply (ended_frame s); [| apply Hinfo; clear -Hr'; set_solver | done | done].
    apply (proj1 (Forall_forall _ _) Hended). clear -Hr'. set_solver.
Qed.

(** ** Processes, device and interrupts in any order *)

(** A process asleep in [virtio_disk_rw], with the block and the data its
    buffer had when it called. *)
Record call := Call { c_buf : nat; c_i0 : Z; c_write : bool; c_blk : Z; c_data : block }.
Definition call_of (r : req) : call := Call (q_buf r) (Z.of_nat (q_i0 r)) (q_write r) (q_blk r) (q_data r).

(** A caller holds the buffer's lock; the cache has one buffer per block. *)
Record may_call (cs : list call) (s : vst) (b : nat) (bf : buf) : Prop := {
  mc_buf : v_bufs s !! b = Some bf;
  mc_blk : 0 <= b_blockno bf < 2 ^ 31 ∧ is_Some (v_disk s !! b_blockno bf);
  mc_idle : b ∉ c_buf <$> cs;
  mc_block : b_blockno bf ∉ c_blk <$> cs;
}.

Section Machine.
Variable device : vst → vst → Prop.
Hypothesis device_ok : ∀ s s', device s s' → served s s'.

Inductive vstep : vst * list call → vst * list call → Prop :=
| vs_submit b w bf i0 s s' cs :
    may_call cs s b bf → virtio_disk_rw b w s = Ret (Some i0) s' →
    vstep (s, cs) (s', Call b i0 w (b_blockno bf) (b_data bf) :: cs)
| vs_no_desc b w bf s s' cs :
    may_call cs s b bf → virtio_disk_rw b w s = Ret None s' → vstep (s, cs) (s', cs)
| vs_device s s' cs : device s s' → vstep (s, cs) (s', cs)
| vs_intr s s' cs : virtio_disk_intr s = Ret tt s' → vstep (s, cs) (s', cs)
| vs_recheck c s s' cs :
    c ∈ cs → virtio_disk_rw_return (c_buf c) (c_i0 c) s = Ret false s' → vstep (s, cs) (s', cs)
| vs_return c s s' cs1 cs2 :
    virtio_disk_rw_return (c_buf c) (c_i0 c) s = Ret true s' → vstep (s, cs1 ++ c :: cs2) (s', cs1 ++ cs2)
| vs_other b bf s cs :
    b ∉ c_buf <$> cs → vstep (s, cs) (put_bufs (<[b := bf]> (v_bufs s)) s, cs).

Definition vreach (s : vst) (cs : list call) : Prop :=
  ∃ Q V D, vinv Q V D s ∧ cs ≡ₚ call_of <$> (Q ++ V ++ D).

Lemma may_call_start Q V D cs s b bf :
  cs ≡ₚ call_of <$> (Q ++ V ++ D) → may_call cs s b bf → may_start (Q ++ V ++ D) s b bf.
Proof.
  intros Hp [? ? Hi Hb]. rewrite Hp in Hi, Hb. split; [done | done | |].
  - by rewrite <- list_fmap_compose in Hi.
  - by rewrite <- list_fmap_compose in Hb.
Qed.

(** A sleeping call is in one of the three stages. *)
Lemma call_stage Q V D cs s c :
  vinv Q V D s → cs ≡ₚ call_of <$> (Q ++ V ++ D) → c ∈ cs →
  ∃ r, c = call_of r ∧
    ((r ∈ Q ++ V ∧ virtio_disk_rw_return (c_buf c) (c_i0 c) s = Ret false s)
     ∨ ∃ D1 D2, D = D1 ++ r :: D2 ∧ virtio_disk_rw_return (c_buf c) (c_i0 c) s = Ret true (released r s)
       ∧ vinv Q V (D1 ++ D2) (released r s)).
Proof.
  intros Hinv Hp Hc. rewrite Hp in Hc. apply list_elem_of_fmap in Hc as (r & -> & Hr). exists r. split; [done |].
  rewrite app_assoc in Hr. apply elem_of_app in Hr as [Hr | (D1 & D2 & ->)%list_elem_of_split]; [left | right].
  - split; [done |]. pose proof (proj1 (Forall_forall _ _) (vi_busy _ _ _ _ Hinv) r Hr) as Hb.
    unfold virtio_disk_rw_return, bind. cbn [gets c_buf call_of]. unfold owned in Hb. by rewrite Hb.
  - exists D1, D2. split_and!; [done | by eapply return_eq | by apply released_inv].
Qed.

Lemma vinv_other Q V D s b bf :
  vinv Q V D s → b ∉ q_buf <$> (Q ++ V ++ D) → vinv Q V D (put_bufs (<[b := bf]> (v_bufs s)) s).
Proof.
  intros Hinv Hb.
  assert (Hbufs : ∀ r, r ∈ Q ++ V ++ D → <[b := bf]> (v_bufs s) !! q_buf r = v_bufs s !! q_buf r).
  { intros r Hr. apply list_lookup_insert_ne. intros ->. apply Hb, list_elem_of_fmap. eauto. }
  split; try apply Hinv; apply Forall_forall; intros r Hr.
  - eapply req_ok_frame; [by apply (proj1 (Forall_forall _ _) (vi_ok _ _ _ _ Hinv)) | done | done | by apply Hbufs | done].
  - eapply owned_frame; [by apply (proj1 (Forall_forall _ _) (vi_busy _ _ _ _ Hinv)) |].
    apply Hbufs. clear -Hr. set_solver.
  - eapply owned_frame; [by apply (proj1 (Forall_forall _ _) (vi_over _ _ _ _ Hinv)) |].
    apply Hbufs. clear -Hr. set_solver.
  - eapply (ended_frame s); [by apply (proj1 (Forall_forall _ _) (vi_ended _ _ _ _ Hinv)) | done | | done].
    apply Hbufs. clear -Hr. set_solver.
Qed.

Lemma vstep_reach x y : vstep x y → vreach x.1 x.2 → vreach y.1 y.2.
Proof.
  intros Hstep (Q & V & D & Hinv & Hp). destruct Hstep as [b w bf i0 s s' cs Hm E | b w bf s s' cs Hm E | s s' cs Hd
    | s s' cs E | c s s' cs Hc E | c s s' cs1 cs2 E | b bf s cs Hb]; cbn [Datatypes.fst Datatypes.snd] in *.
  - pose proof (rw_spec Q V D s b w bf Hinv (may_call_start _ _ _ _ _ _ _ Hp Hm)) as Hw. unfold wp in Hw. rewrite E in Hw.
    destruct Hw as [(r & -> & Hb & Hw & Hblk & Hdata & Hinv') _]. exists (Q ++ [r]), V, D. split; [done |].
    rewrite <- app_assoc. cbn. rewrite fmap_app. cbn. rewrite <- Permutation_middle, <- fmap_app.
    apply Permutation_cons; [| done]. unfold call_of. by rewrite Hb, Hw, Hblk, Hdata.
  - pose proof (rw_spec Q V D s b w bf Hinv (may_call_start _ _ _ _ _ _ _ Hp Hm)) as Hw. unfold wp in Hw. rewrite E in Hw.
    destruct Hw as [[Hinv' _] _]. by exists Q, V, D.
  - apply device_ok in Hd. destruct (device_spec _ _ _ _ _ Hinv Hd) as [Hinv' | (r & Q' & HQ & Hinv')];
      [by exists Q, V, D |].
    exists Q', (V ++ [r]), D. split; [done |]. rewrite Hp. apply Permutation_map. rewrite HQ, <- app_assoc. cbn.
    rewrite (app_assoc Q' V (r :: D)), (app_assoc Q' V D). apply Permutation_middle.
  - pose proof (intr_spec Q V D s Hinv) as Hw. rewrite E in Hw.
    case_decide; [| done]. destruct Hw as (s'' & [= <-] & Hinv' & _). exists Q, [], (D ++ V). split; [done |].
    rewrite Hp. apply Permutation_map. cbn. by rewrite (Permutation_app_comm V D).
  - destruct (call_stage _ _ _ _ _ _ Hinv Hp Hc) as (r & -> & [[_ E'] | (D1 & D2 & _ & E' & _)]); rewrite E' in E.
    + injection E as <-. by exists Q, V, D.
    + discriminate.
  - destruct (call_stage _ _ _ _ _ c Hinv Hp ltac:(clear; set_solver)) as (r & -> & [[_ E'] | (D1 & D2 & -> & E' & Hinv')]); rewrite E' in E.
    + discriminate.
    + injection E as <-. exists Q, V, (D1 ++ D2). split; [done |].
      apply (Permutation_cons_inv (a := call_of r)). rewrite Permutation_middle, Hp.
      rewrite (app_assoc V D1 (r :: D2)), (app_assoc Q (V ++ D1) (r :: D2)), <- (Permutation_middle _ D2 r).
      cbn. by rewrite <- !app_assoc.
  - exists Q, V, D. split; [| done]. apply vinv_other; [done |]. rewrite Hp, <- list_fmap_compose in Hb. done.
Qed.

(** The state [virtio_disk_init] leaves on a fresh machine ([disk] is in
    zeroed memory, the device has been reset). *)
Lemma init_inv r pfn s ws s' :
  v_used_idx s = 0 → v_dev s = (0, []) → length (v_info s) = num →
  virtio_disk_init r pfn s = Ret ws s' → vinv [] [] [] s'.
Proof.
  intros Hu Hs Hi. unfold virtio_disk_init. repeat case_decide; try done. unfold bind. cbn [modify ret].
  intros E. injection E as <- <-. split; cbn [v_desc v_avail v_used v_free v_info v_dev v_avail_idx v_used_idx v_used_id];
    [done.. | done | constructor | constructor | | constructor | constructor | | | |
     constructor | constructor | constructor | constructor].
  - intros i Hl. change (replicate num true !! i = Some true). by rewrite lookup_replicate_2.
  - exists [], []. unfold v_seen, v_flight. cbn. rewrite Hs. split_and!; try done. apply ring_nil. cbn. lia.
  - apply ring_nil. cbn. lia.
  - by rewrite Hu.
Qed.

Lemma vreach_rtc s0 s cs :
  vinv [] [] [] s0 → rtc vstep (s0, []) (s, cs) → vreach s cs.
Proof.
  intros Hinit Hrtc. change s with (s, cs).1. change cs with (s, cs).2 at 2. revert Hrtc.
  generalize (s, cs) as y. intros y Hrtc.
  assert (H0 : vreach (s0, [] : list call).1 (s0, [] : list call).2) by (by exists [], [], []).
  revert H0. induction Hrtc as [x | x y z Hxy _ IH]; [done |]. intros Hx. apply IH. by eapply vstep_reach.
Qed.

(** C10: Whatever the order of callers, device and interrupts, with a device
    that finishes requests in any order and may report an error for any of
    them: [virtio_disk_rw] and its return never panic; the interrupt handler
    panics only with the message "virtio_disk_intr status", and only if the
    device reported an error; and a call that comes back has done its
    transfer: the block on the disk and the buffer are equal, and for a write
    they are the data the caller handed over. *)
Theorem virtio_rw_correct r pfn s00 ws s0 s cs :
  v_used_idx s00 = 0 → v_dev s00 = (0, []) → length (v_info s00) = num →
  virtio_disk_init r pfn s00 = Ret ws s0 → rtc vstep (s0, []) (s, cs) →
  (∀ b w bf, may_call cs s b bf → ∃ o s', virtio_disk_rw b w s = Ret o s')
  ∧ ((∃ s', virtio_disk_intr s = Ret tt s') ∨
     virtio_disk_intr s = Panic "virtio_disk_intr status" ∧
     ∃ c, c ∈ cs ∧ (v_info s !!! Z.to_nat (c_i0 c)).2 ≠ 0)
  ∧ (∀ c, c ∈ cs → ∃ over s', virtio_disk_rw_return (c_buf c) (c_i0 c) s = Ret over s'
       ∧ (over = true → v_disk s' !! c_blk c = Some (b_data (v_bufs s' !!! c_buf c))
                        ∧ (c_write c = true → b_data (v_bufs s' !!! c_buf c) = c_data c))).
Proof.
  intros Hu Hs Hi Hinit Hrtc. apply init_inv in Hinit; [| done..].
  destruct (vreach_rtc _ _ _ Hinit Hrtc) as (Q & V & D & Hinv & Hp). split_and!.
  - intros b w bf Hm. destruct (wp_inv _ _ _ (rw_spec Q V D s b w bf Hinv (may_call_start _ _ _ _ _ _ _ Hp Hm)))
      as (o & s' & E & _). eauto.
  - pose proof (intr_spec Q V D s Hinv) as Hw. case_decide as Hst; [left; destruct Hw as (s' & E & _); eauto | right].
    split; [done |]. apply not_Forall_Exists in Hst; [| apply _]. apply Exists_exists in Hst as (r' & Hr' & Hne).
    exists (call_of r'). split; [rewrite Hp; apply list_elem_of_fmap; exists r'; split; [done | clear -Hr'; set_solver] |].
    cbn. by rewrite Nat2Z.id.
  - intros c Hc. destruct (call_stage _ _ _ _ _ _ Hinv Hp Hc) as (r' & -> & [[_ E] | (D1 & D2 & -> & E & _)]).
    + by exists false, s.
    + exists true, (released r' s). split; [done |]. intros _.
      assert (Hr : r' ∈ Q ++ V ++ D1 ++ r' :: D2) by (clear; set_solver).
      assert (Hm : moved s r').
      { apply (proj1 (Forall_forall _ _) (vi_ended _ _ _ _ Hinv)); [clear; set_solver |].
        apply (proj1 (Forall_forall _ _) (vi_clean _ _ _ _ Hinv)). clear; set_solver. }
      split; [exact Hm |]. destruct (ro_buf _ _ (proj1 (Forall_forall _ _) (vi_ok _ _ _ _ Hinv) r' Hr)) as (bf & Hbf & _ & Hd).
      intros Hw. change (b_data (v_bufs s !!! q_buf r') = q_data r').
      rewrite (list_lookup_total_correct _ _ _ Hbf). auto.
Qed.

(** The handler sees every completion: when it returns it leaves none on the
    used ring, and has woken each process whose buffer it hands back. *)
Lemma intr_sees_all r pfn s00 ws s0 s cs s' :
  v_used_idx s00 = 0 → v_dev s00 = (0, []) → length (v_info s00) = num →
  virtio_disk_init r pfn s00 = Ret ws s0 → rtc vstep (s0, []) (s, cs) → virtio_disk_intr s = Ret tt s' →
  ∃ bs, v_used_idx s' mod NUM = v_used_id s' mod NUM
    ∧ v_woken s' = v_woken s ++ (WBuf <$> bs)
    ∧ ∀ c, c ∈ cs → b_disk (v_bufs s !!! c_buf c) = true → b_disk (v_bufs s' !!! c_buf c) = false → c_buf c ∈ bs.
Proof.
  intros Hu Hs Hi Hinit Hrtc E. apply init_inv in Hinit; [| done..].
  destruct (vreach_rtc _ _ _ Hinit Hrtc) as (Q & V & D & Hinv & Hp).
  pose proof (intr_spec Q V D s Hinv) as Hwp. rewrite E in Hwp. case_decide; [| done].
  destruct Hwp as (? & [= <-] & Hinv' & Hw & _).
  exists (q_buf <$> V). split_and!; [| by rewrite <- list_fmap_compose |].
  { destruct (vi_uidx _ _ _ _ Hinv') as [_ ->]. cbn. by rewrite Z.add_0_r. }
  intros c Hc Hb Hb'. rewrite Hp in Hc. apply list_elem_of_fmap in Hc as (r' & -> & Hr').
  rewrite !elem_of_app in Hr'. destruct Hr' as [Hq | [Hv | Hd]].
  - pose proof (proj1 (Forall_forall _ _) (vi_busy _ _ _ _ Hinv') r') as Ho. unfold owned in Ho. cbn in Hb'.
    rewrite Ho in Hb' by (rewrite app_nil_r; done). done.
  - apply list_elem_of_fmap. eauto.
  - pose proof (proj1 (Forall_forall _ _) (vi_over _ _ _ _ Hinv) r' Hd) as Ho. unfold owned in Ho. cbn in Hb. congruence.
Qed.
End Machine.

(** ** A device that does what the specification says, and two requests *)
Definition dev_fetch (s : vst) : option vst :=
  if decide (v_seen s = v_avail_idx s) then None
  else i ← v_avail s !! Z.to_nat (v_seen s mod NUM); Some (fetch (Z.to_nat i) s).
(** The [k]-th request in work is done with status [st]. *)
Definition dev_finish (k : nat) (st : Z) (s : vst) : option vst :=
  i ← v_flight s !! k;
  d0 ← v_desc s !! i; d1 ← v_desc s !! Z.to_nat (d_next d0); d2 ← v_desc s !! Z.to_nat (d_next d1);
  match d_addr d0, d_addr d1, d_addr d2 with
  | HdrAt h, DataOf b, StatusOf m => Some (complete i h b m st zero_block (delete k (v_flight s)) s)
  | _, _, _ => None
  end.
Definition dev0 (s s' : vst) : Prop := dev_fetch s = Some s' ∨ ∃ k st, dev_finish k st s = Some s'.

Lemma dev0_ok s s' : dev0 s s' → served s s'.
Proof.
  intros [Hf | (k & st & Hf)].
  - left. unfold dev_fetch in Hf. case_decide as Hne; [done |]. split; [done |]. intros i Hi. rewrite Hi in Hf.
    cbn in Hf. rewrite Nat2Z.id in Hf. by injection Hf as <-.
  - right. unfold dev_finish in Hf. destruct (v_flight s !! k) as [i|] eqn:Hk; [| done]. cbn in Hf.
    exists i, (take k (v_flight s)), (drop (S k) (v_flight s)). split; [by rewrite take_drop_middle |].
    intros h b m (d0 & d1 & d2 & E0 & A0 & _ & _ & E1 & A1 & _ & _ & E2 & A2 & _) _.
    rewrite E0 in Hf. cbn in Hf. rewrite E1 in Hf. cbn in Hf. rewrite E2 in Hf. cbn in Hf. rewrite A0, A1, A2 in Hf.
    injection Hf as <-. exists st, zero_block. by rewrite delete_take_drop.
Qed.

Definition disk_buf (blk : Z) (d : block) : buf := Buf true false 1 blk initsleeplock 1 0 0 d.
Definition fill (x : Z) : block := replicate (Z.to_nat BSIZE) x.
Definition vs_fresh : vst :=
  Vst [] 0 [] 0 [] [] 0 (replicate num (None, 0)) [disk_buf 5 (fill 7); disk_buf 6 (fill 8)]
    (<[5 := fill 0]> (<[6 := fill 1]> ∅)) (0, []) [].
Definition good_mmio : mmio := Mmio 0x74726976 1 2 0x554d4551 0xffffffff 1024.
Definition vs_init : vst := final (virtio_disk_init good_mmio 0) vs_fresh.
(** A write of block 5 and a read of block 6, both in work; the device
    finishes the read first. *)
Definition vs_sent0 : vst := final (virtio_disk_rw 0 true) vs_init.
Definition vs_sent1 : vst := final (virtio_disk_rw 1 false) vs_sent0.
Definition vs_taken0 : vst := default vs_sent1 (dev_fetch vs_sent1).
Definition vs_taken1 : vst := default vs_taken0 (dev_fetch vs_taken0).
Definition vs_done1 : vst := default vs_taken1 (dev_finish 1 0 vs_taken1).
Definition vs_done0 : vst := default vs_done1 (dev_finish 0 0 vs_done1).
Definition vs_seen : vst := final virtio_disk_intr vs_done0.
Definition vs_calls : list call := [Call 1 3 false 6 (fill 8); Call 0 0 true 5 (fill 7)].

Lemma sent_reach : rtc (vstep dev0) (vs_init, []) (vs_seen, vs_calls).
Proof.
  eapply rtc_l; [apply (vs_submit dev0 0 true (disk_buf 5 (fill 7)) 0 vs_init vs_sent0) |].
  { split; [reflexivity | | set_solver | set_solver]. split; [cbn; lia |]. by eexists. }
  { reflexivity. }
  eapply rtc_l; [apply (vs_submit dev0 1 false (disk_buf 6 (fill 8)) 3 vs_sent0 vs_sent1) |].
  { split; [reflexivity | | by vm_compute; set_solver | by vm_compute; set_solver]. split; [cbn; lia |]. by eexists. }
  { reflexivity. }
  eapply rtc_l; [apply (vs_device dev0 vs_sent1 vs_taken0); left; reflexivity |].
  eapply rtc_l; [apply (vs_device dev0 vs_taken0 vs_taken1); left; reflexivity |].
  eapply rtc_l; [apply (vs_device dev0 vs_taken1 vs_done1); right; exists 1%nat, 0; reflexivity |].
  eapply rtc_l; [apply (vs_device dev0 vs_done1 vs_done0); right; exists 0%nat, 0; reflexivity |].
  eapply rtc_l; [apply (vs_intr dev0 vs_done0 vs_seen); reflexivity |]. apply rtc_refl.
Qed.

Lemma virtio_rw_correct_witness :
  (∀ s s', dev0 s s' → served s s') ∧
  ∃ s', virtio_disk_rw_return 0 0 vs_seen = Ret true s' ∧ v_disk s' !! 5 = Some (fill 7).
Proof.
  split; [exact dev0_ok |].
  destruct (virtio_rw_correct dev0 dev0_ok good_mmio 0 vs_fresh _ vs_init vs_seen _ eq_refl eq_refl eq_refl eq_refl sent_reach)
    as (_ & _ & Hret).
  destruct (Hret (Call 0 0 true 5 (fill 7)) ltac:(unfold vs_calls; right; left)) as (over & s' & E & Hover).
  assert (over = true) as ->.
  { assert (Er : match virtio_disk_rw_return 0 0 vs_seen with Ret o _ => o | _ => false end = true)
      by (vm_compute; reflexivity).
    change (virtio_disk_rw_return 0 0 vs_seen = Ret over s') in E. by rewrite E in Er. }
  exists s'. split; [exact E |]. destruct (Hover eq_refl) as [Hd Hw]. change (v_disk s' !! 5 = Some (b_data (v_bufs s' !!! 0%nat))) in Hd.
  rewrite Hd. f_equal. exact (Hw eq_refl).
Defined.
