(* ===== verification/Devices.v ===== *)
(** * The device interrupt handlers ([kernel/uart.c], [kernel/virtio_disk.c])

    What [devintr] calls, on one machine: the process table, the console
    with its serial port, and the disk.  [uartintr] is that of [Console.v];
    [virtio_disk_intr] here takes [vdisk_lock] and wakes the sleeping
    processes around the two halves of the loop of [Virtio.v]. *)
From S2P Require Import Prelude Params CString Locks BlockLayer Bio Fs Dir Image UserMem Pipe Riscv Kalloc Vm Spinlock File Proc Console Virtio.

(** [cons], the port with its transmit buffer, and [disk]. *)
Record devs := Devs { d_cons : cons; d_uart : uart; d_disk : vst }.

(** [disk.vdisk_lock]; the channel of buffer [b]. *)
Definition vdisk_lock : lockref := LkAddr 7.
Definition buf_chan (b : nat) : wchan := AddrChan (16 + Z.of_nat b).

Section Handlers.
Context {F : Type} `{FileOps F}.
Notation st := (pst F * devs)%type.

Definition procs_op {A} (m : M (pst F) A) : M st A := zoom Datatypes.fst (λ p s, (p, s.2)) m.
Definition disk_op {A} (m : M vst A) : M st A :=
  zoom (λ s : st, d_disk s.2) (λ v s, (s.1, Devs (d_cons s.2) (d_uart s.2) v)) m.

Definition uart_intr (me : nat) : M st unit :=
  zoom (λ s : st, Kcon s.1 (d_cons s.2) (d_uart s.2) tt)
       (λ k s, (kc_p k, Devs (kc_cons k) (kc_uart k) (d_disk s.2))) (uartintr me).

Fixpoint disk_intr_loop (fuel : nat) (me : nat) : M st unit :=
  match fuel with
  | O => λ _, OutOfFuel
  | Datatypes.S fuel =>
      let! r := disk_op intr_head in
      match r with
      | None => ret tt
      | Some b =>
          procs_op (wakeup me (buf_chan b));;
          disk_op (modify (add_woken (WBuf b)));;
          disk_op intr_next;;
          disk_intr_loop fuel me
      end
  end.
Definition disk_intr (me : nat) : M st unit :=
  procs_op (lock me vdisk_lock);;
  disk_intr_loop num me;;
  procs_op (unlock me vdisk_lock).
End Handlers.
