(* ===== verification/DeviceTheorems.v ===== *)
(** * The device interrupt handlers: theorems

    A handler that finds its devices in order ([devices_ready]) returns,
    leaves them in order, and does to the process table no more than to wake
    sleeping processes ([handled]). *)
From S2P Require Import Prelude Params CString Locks BlockLayer Bio Fs Dir Image UserMem Pipe Riscv Kalloc Vm Spinlock File Proc ProcInv ProcProofs ProcSteps ProcTheorems Ring Console ConsoleTheorems Virtio VirtioTheorems Devices.

Section Handlers.
Context {F : Type} `{FileOps F}.
Notation st := (pst F * devs)%type.

(** ** Devices in order

    The locks of the drivers are free; the console and the transmit buffer
    represent a line and a queue, and the port says "idle" often enough to
    echo what has arrived; the disk is as the driver's invariant says and
    no finished request failed. *)
Record devices_ready (s : st) : Prop := {
  dr_cons : lock_of cons_lock s.1 = initlock;
  dr_uart : lock_of uart_tx_lock s.1 = initlock;
  dr_vdisk : lock_of vdisk_lock s.1 = initlock;
  dr_panicked : u_panicked (d_uart s.2) = false;
  dr_line : ∃ t, tty_rep (d_cons s.2) t;
  dr_queue : ∃ q, tx_rep (d_uart s.2) q ∧ Forall is_byte q;
  dr_keys : Forall is_byte (u_rx (d_uart s.2));
  dr_idle : (384 * length (u_rx (d_uart s.2)) ≤ nready (d_uart s.2))%nat;
  dr_disk : ∃ Q V D, vinv Q V D (d_disk s.2) ∧ Forall (λ r, status (d_disk s.2) r = 0) V;
}.

(** Hart [me] is outside the process locks. *)
Record unlocked (me : nat) (c : cpu) (p : pst F) : Prop := {
  ul_hart : ps_cpus p !! me = Some c;
  ul_ok : cpu_ok c;
  ul_procs : Forall (λ q, p_lock q = initlock) (ps_proc p);
  ul_table : length (ps_proc p) = nproc;
}.

Lemma woken_lock (p p' : proc) : woken p p' → p_lock p' = p_lock p.
Proof. by intros [->|[_ ->]]. Qed.

(** A handler leaves the table unlocked, on the same hart. *)
Lemma handled_unlocked me c (p p' : pst F) :
  unlocked me c p → handled me c p p' → ∃ c', same_hart c c' ∧ unlocked me c' p'.
Proof.
  intros [Hc Hok Hf Hl] [(c' & Hs & Ec) Hw _ _]. exists c'. split; [done |]. split.
  - rewrite Ec. apply list_lookup_insert_eq. by eapply lookup_lt_Some.
  - apply Hs.
  - apply Forall_lookup. intros i q Hq. destruct (Forall2_lookup_r _ _ _ _ _ Hw Hq) as (q0 & Hq0 & Hwq).
    rewrite (woken_lock _ _ Hwq). by apply (Forall_lookup_1 _ _ _ _ Hf Hq0).
  - by rewrite <- (Forall2_length _ _ _ Hw).
Qed.

(** ** The serial port *)
Lemma tx_rep_sends bs u u' q : sends bs u u' → tx_rep u q → tx_rep u' q.
Proof. intros [_ _ _ (Eb & Ew & Er & _)] [? ? ? ? ?]. split; congruence. Qed.

Definition pop_rx (rx : list Z) (u : uart) : uart :=
  Uart (u_buf u) (u_w u) (u_r u) (u_panicked u) (u_idle u) rx (u_wire u).

(** Every key that has arrived goes through the console. *)
Lemma uartintr_input_spec me rx : ∀ c (k : kcon F ()) t q,
  ready me c k → u_rx (kc_uart k) = rx → Forall is_byte rx → (384 * length rx ≤ nready (kc_uart k))%nat →
  tty_rep (kc_cons k) t → tx_rep (kc_uart k) q →
  ∃ k' c' t', uartintr_input (length rx) me k = Ret tt k' ∧ ready me c' k' ∧ same_hart c c'
    ∧ handled me c (kc_p k) (kc_p k') ∧ tty_rep (kc_cons k') t' ∧ tx_rep (kc_uart k') q ∧ u_rx (kc_uart k') = [].
Proof.
  induction rx as [|x rx IH]; intros c k t q Hr Hrx Hb Hn Ht Hq.
  { exists k, c, t. split_and!; try done; [apply same_hart_refl, Hr | apply handled_refl; apply Hr]. }
  apply Forall_cons in Hb as [Hx Hb]. cbn [length] in Hn |- *. cbn [uartintr_input].
  pose (k1 := Kcon (kc_p k) (kc_cons k) (pop_rx rx (kc_uart k)) tt).
  assert (E1 : uop uartgetc k = Ret x k1).
  { unfold uop, zoom, uartgetc. rewrite Hrx. subst k1. by destruct k as [? ? ? []]. }
  assert (Hr1 : ready me c k1) by (destruct Hr; by split).
  destruct (consoleintr_key me c x k1 t) as (k2 & E2 & Hr2 & Ht2 & Hs2 & _ & _ & Hh2).
  { done. }
  { change (nready (kc_uart k1)) with (nready (kc_uart k)). lia. }
  { done. }
  { exact Hx. }
  destruct (IH (settle c) k2 (tty_key x t) q) as (k3 & c3 & t3 & E3 & Hr3 & Hc3 & Hh3 & Ht3 & Hq3 & Hrx3).
  { done. }
  { by destruct Hs2 as [_ _ _ (_ & _ & _ & ->)]. }
  { done. }
  { pose proof (sd_ready _ _ _ Hs2) as Hsd. change (nready (kc_uart k1)) with (nready (kc_uart k)) in Hsd.
    pose proof (tty_echo_length x _ _ Ht). lia. }
  { done. }
  { eapply tx_rep_sends; [exact Hs2 |]. destruct Hq. by split. }
  exists k3, c3, t3. split_and!; try done.
  - unfold bind at 1. rewrite E1, decide_False by (unfold is_byte in Hx; lia). unfold bind. by rewrite E2, E3.
  - eapply same_hart_trans; [apply same_hart_settle, Hr | done].
  - eapply (handled_trans me c (settle c)); [exact Hh2 | apply same_hart_settle, Hr | apply Hr2 | exact Hh3].
Qed.

Lemma woken_sent k (p : pst F) : Forall2 woken (ps_proc p) (ps_proc (sent_procs k p)).
Proof. unfold sent_procs. case_decide; [apply woken_refl | apply woken_wake]. Qed.
Lemma sent_procs_eq k (p : pst F) : sent_procs k p = put_procs (ps_proc (sent_procs k p)) p.
Proof. unfold sent_procs. case_decide; by destruct p. Qed.

(** What waits in the transmit buffer goes out as long as the port is idle. *)
Lemma uartintr_output_spec me c (k : kcon F ()) q :
  ready me c k → tx_rep (kc_uart k) q → Forall is_byte q →
  ∃ n u, (pop (lock me uart_tx_lock);; uartstart me;; pop (unlock me uart_tx_lock)) k
    = Ret tt (Kcon (put_lock uart_tx_lock initlock (put_hart me (settle c)
        (put_procs (ps_proc (sent_procs n (kc_p k))) (put_lock uart_tx_lock (held me) (put_hart me (pushed c) (kc_p k))))))
        (kc_cons k) u tt) ∧ sent n q (kc_uart k) u.
Proof.
  intros Hr Hq Hb. pose proof (rd_hart _ _ _ Hr) as Hh. pose proof (lookup_lt_Some _ _ _ Hh) as Hlt.
  pose (k1 := Kcon (put_lock uart_tx_lock (held me) (put_hart me (pushed c) (kc_p k))) (kc_cons k) (kc_uart k) tt).
  destruct (uartstart_spec me (pushed c) 32 q k1) as (n & u & Hsent & E).
  { split_and!; [by apply list_lookup_insert_eq | destruct (rd_ok _ _ _ Hr); cbn; lia | done]. }
  { apply Hr. }
  { apply Hr. }
  { done. }
  { done. }
  { apply Hq. }
  exists n, u. split; [| done]. unfold bind at 1, pop at 1, zoom.
  rewrite (lock_addr me 4 c (kc_p k) Hh (rd_uart _ _ _ Hr) : lock me uart_tx_lock _ = _). fold uart_tx_lock.
  replace (kc_mem k) with tt by (by destruct (kc_mem k)). fold k1.
  unfold bind, uartstart. change (Z.to_nat UART_TX_BUF_SIZE) with 32%nat. rewrite E. unfold pop, zoom. cbn [kc_p kc_cons kc_uart kc_mem].
  rewrite sent_procs_eq. change (kc_mem k1) with tt. cbn [kc_p k1].
  rewrite (unlock_addr_pushed me 4 c _ : _ → _ → _ → unlock me uart_tx_lock _ = _).
  - do 2 f_equal. unfold sent_procs. by case_decide.
  - cbn. by apply list_lookup_insert_eq.
  - apply Hr.
  - cbn. by rewrite lookup_insert_eq.
Qed.
(** The interrupt of the serial port. *)
Lemma uart_intr_spec me c (s : st) :
  unlocked me c s.1 → devices_ready s →
  ∃ s', uart_intr me s = Ret tt s' ∧ handled me c s.1 s'.1 ∧ devices_ready s'.
Proof.
  intros Hu [Hlc Hlu Hlv Hp [t Ht] (q & Hq & Hqb) Hk Hi Hd]. destruct s as [p d]. cbn [Datatypes.fst Datatypes.snd] in *.
  pose (k := Kcon p (d_cons d) (d_uart d) tt).
  assert (Hr : ready me c k) by (destruct Hu; by split).
  destruct (uartintr_input_spec me (u_rx (d_uart d)) c k t q) as (k1 & c1 & t1 & E1 & Hr1 & Hc1 & Hh1 & Ht1 & Hq1 & Hrx1);
    try done.
  destruct (uartintr_output_spec me c1 k1 q Hr1 Hq1 Hqb) as (n & u & E2 & Hsent).
  set (k2 := Kcon _ _ _ _) in E2.
  assert (Hh : handled me c p (kc_p k2)).
  { eapply (handled_trans me c c1); [exact Hh1 | done | apply Hr1 |].
    apply (handled_locked me 4 c1 (kc_p k1)); [apply Hr1.. | apply woken_sent]. }
  exists (kc_p k2, Devs (kc_cons k2) (kc_uart k2) (d_disk d)). split_and!; [| done |].
  - unfold uart_intr, zoom, uartintr, bind at 1. cbn [Datatypes.fst Datatypes.snd gets kc_uart]. fold k.
    unfold bind at 1. by rewrite E1, E2.
  - destruct Hsent as [_ Hrep _ _ _ [Hrx Hpan]]. cbn [k2 kc_uart kc_cons] in *.
    split; cbn [Datatypes.fst Datatypes.snd d_cons d_uart d_disk];
      [by etrans; [apply (hd_locks _ _ _ _ Hh 3) |] | by etrans; [apply (hd_locks _ _ _ _ Hh 4) |] | by etrans; [apply (hd_locks _ _ _ _ Hh 7) |] | | by exists t1 | | | | done].
    + rewrite Hpan. apply Hr1.
    + exists (drop n q). split; [done | by apply Forall_drop].
    + by rewrite Hrx, Hrx1.
    + rewrite Hrx, Hrx1. cbn. lia.
Qed.

(** ** The disk *)

(** Hart [me] is inside [vdisk_lock] or another lock. *)
Lemma wakeup_inside me c ch (p : pst F) :
  unlocked me c p → 0 < c_noff c → c_sie c = false →
  wakeup me ch p = Ret tt (put_procs (wake ch <$> ps_proc p) p).
Proof.
  intros [Hc Hok Hf Hl] Hn He. destruct (wakeup_eq me ch c p) as (c' & Hsame & E); [done.. |].
  destruct c as [q n b e]. cbn in Hn, He. subst e. apply same_hart_locked in Hsame as ->; [| done].
  by rewrite E, put_hart_same.
Qed.

Lemma unlocked_wake me c ch (p : pst F) : unlocked me c p → unlocked me c (put_procs (wake ch <$> ps_proc p) p).
Proof. intros [Hc Hok Hf Hl]. split; cbn; [done | done | by apply wake_unlocked | by rewrite length_fmap]. Qed.

Definition put_disk (v : vst) (d : devs) : devs := Devs (d_cons d) (d_uart d) v.

(** The loop goes through the finished requests and wakes their callers. *)
Lemma disk_intr_loop_spec me c Q V : ∀ fuel D (p : pst F) (d : devs),
  unlocked me c p → 0 < c_noff c → c_sie c = false →
  vinv Q V D (d_disk d) → Forall (λ r, status (d_disk d) r = 0) V → (length V < fuel)%nat →
  ∃ l v, disk_intr_loop fuel me (p, d) = Ret tt (put_procs l p, put_disk v d) ∧ Forall2 woken (ps_proc p) l
    ∧ vinv Q [] (D ++ V) v.
Proof.
  induction V as [|r V IH]; intros fuel D p d Hu Hn He Hinv Hst Hf; (destruct fuel as [|fuel]; [lia |]); cbn [disk_intr_loop];
    unfold bind at 1; unfold disk_op at 1; unfold zoom at 1; cbn [Datatypes.snd Datatypes.fst]; rewrite (intr_head_spec _ _ _ _ Hinv).
  - exists (ps_proc p), (d_disk d). rewrite app_nil_r. split_and!; [| apply woken_refl | done].
    unfold put_disk. by destruct p, d.
  - apply Forall_cons in Hst as [Hr Hst]. cbn in Hf. rewrite decide_True by done.
    set (v1 := put_bufs _ _). set (p1 := put_procs (wake (buf_chan (q_buf r)) <$> ps_proc p) p).
    destruct (IH fuel (D ++ [r]) p1 (put_disk (seen_one r (d_disk d)) d)) as (l & v & E & Hl & Hv).
    { by apply unlocked_wake. }
    { done. }
    { done. }
    { by apply seen_one_inv. }
    { exact Hst. }
    { lia. }
    exists l, v. split_and!; [| | by rewrite <- app_assoc in Hv].
    + unfold bind at 1. unfold procs_op, zoom. cbn [Datatypes.fst Datatypes.snd].
      rewrite (wakeup_inside me c) by done. fold p1. unfold bind, disk_op, zoom, intr_next, modify. cbn [Datatypes.fst Datatypes.snd d_disk d_cons d_uart].
      change (disk_intr_loop fuel me (p1, put_disk (seen_one r (d_disk d)) d) = Ret tt (put_procs l p, put_disk v d)). by rewrite E.
    + eapply woken_trans; [apply woken_wake | exact Hl].
Qed.

(** The interrupt of the disk. *)
Lemma disk_intr_spec me c (s : st) :
  unlocked me c s.1 → devices_ready s →
  ∃ s', disk_intr me s = Ret tt s' ∧ handled me c s.1 s'.1 ∧ devices_ready s'.
Proof.
  intros Hu [Hlc Hlu Hlv Hp Ht Hq Hk Hi (Q & V & D & Hinv & Hst)]. destruct s as [p d]. cbn [Datatypes.fst Datatypes.snd] in *.
  pose proof (ul_hart _ _ _ Hu) as Hh. pose proof (lookup_lt_Some _ _ _ Hh) as Hlt.
  pose (p1 := put_lock vdisk_lock (held me) (put_hart me (pushed c) p)).
  destruct (disk_intr_loop_spec me (pushed c) Q V num D p1 d) as (l & v & E & Hl & Hv); try done.
  { destruct Hu as [_ Hok Hf Hl]. split; try done.
    - cbn. by apply list_lookup_insert_eq.
    - destruct Hok. split; [cbn; lia | done]. }
  { destruct (ul_ok _ _ _ Hu). cbn. lia. }
  { pose proof (few_requests Hinv) as Hfew. rewrite !length_app in Hfew. unfold num. lia. }
  set (p2 := put_lock vdisk_lock initlock (put_hart me (settle c) (put_procs l p1))).
  assert (Hhd : handled me c p p2) by (apply (handled_locked me 7 c p); [apply Hu.. | done | exact Hl]).
  exists (p2, put_disk v d). split_and!; [| done |].
  - unfold disk_intr, bind at 1. unfold procs_op at 1. unfold zoom at 1. cbn [Datatypes.fst Datatypes.snd].
    rewrite (lock_addr me 7 c p Hh Hlv : lock me vdisk_lock _ = _). fold vdisk_lock p1.
    unfold bind. rewrite E. unfold procs_op, zoom. cbn [Datatypes.fst Datatypes.snd].
    rewrite (unlock_addr_pushed me 7 c _ : _ → _ → _ → unlock me vdisk_lock _ = _); [done | | apply Hu |].
    + cbn. by apply list_lookup_insert_eq.
    + cbn. by rewrite lookup_insert_eq.
  - split; cbn [Datatypes.fst Datatypes.snd d_cons d_uart d_disk put_disk]; try done;
      [by etrans; [apply (hd_locks _ _ _ _ Hhd 3) |] | by etrans; [apply (hd_locks _ _ _ _ Hhd 4) |] | by etrans; [apply (hd_locks _ _ _ _ Hhd 7) |] |].
    exists Q, [], (D ++ V). by split.
Qed.
End Handlers.

(** ** A concrete machine

    A key has arrived at an idle port and the disk has just been set up. *)
Definition key_devs (c : Z) : devs :=
  Devs (Cons (replicate 128 0) 0 0 0) (Uart (replicate 32 0) 0 0 false (replicate 384 true) [c] []) vs_init.

Lemma vs_init_inv : vinv [] [] [] vs_init.
Proof.
  unfold vs_init, final. destruct (virtio_disk_init good_mmio 0 vs_fresh) as [ws v| | |] eqn:E; [by eapply init_inv in E | by vm_compute in E..].
Qed.

Lemma key_devs_ready {F} (p : pst F) c :
  lock_of cons_lock p = initlock → lock_of uart_tx_lock p = initlock → lock_of vdisk_lock p = initlock → is_byte c →
  devices_ready (p, key_devs c).
Proof.
  intros Hc Hu Hv Hb. split; try done.
  - exists (Tty [] []). split; try done; [by apply ring_nil; cbn; lia | by apply not_elem_of_nil].
  - exists []. split; [| done]. split; try done; [by apply ring_nil; cbn; lia | cbn; lia].
  - by constructor.
  - exists [], [], []. split; [| done]. apply vs_init_inv.
Qed.
