(* ===== verification/Grep.v ===== *)
(** * The [grep] utility ([user/grep.c], [strchr] of [user/ulib.c])

    A C string is the list of its characters before the NUL, so [re[0] ==
    '\0'] is the empty list.  The matcher is checked against a regular
    expression semantics given by languages, and the line loop, whatever
    sizes [read] returns its input in, against a plain cut into lines. *)
From S2P Require Import Prelude.

Definition ch_nl : Z := 10.
Definition ch_dollar : Z := 36.
Definition ch_star : Z := 42.
Definition ch_dot : Z := 46.
Definition ch_caret : Z := 94.

(** ** The matcher

    [matchhere] and [matchstar] call each other; the pattern shrinks in the
    one, the text in the other, so [matchstar] takes the call of [matchhere]
    on the rest of the pattern as an argument. *)
Fixpoint matchstar (here : list Z → bool) (c : Z) (text : list Z) : bool :=
  if here text then true else
  match text with
  | [] => false
  | t :: text => if (t =? c) || (c =? ch_dot) then matchstar here c text else false
  end.

Fixpoint matchhere (re text : list Z) : bool :=
  match re with
  | [] => true
  | c :: re1 =>
      let plain :=
        if (c =? ch_dollar) && (match re1 with [] => true | _ => false end)
        then match text with [] => true | _ => false end
        else match text with
             | t :: text => if (c =? ch_dot) || (c =? t) then matchhere re1 text else false
             | [] => false
             end in
      match re1 with
      | c1 :: re2 => if c1 =? ch_star then matchstar (matchhere re2) c text else plain
      | [] => plain
      end
  end.

Fixpoint match_from (re text : list Z) : bool :=
  if matchhere re text then true else
  match text with [] => false | _ :: text => match_from re text end.

Definition gmatch (re text : list Z) : bool :=
  match re with
  | c :: re1 => if c =? ch_caret then matchhere re1 text else match_from re text
  | [] => match_from re text
  end.

(** ** The reference: regular expressions and their languages *)
Inductive atom := AAny | ALit (c : Z).
Inductive item := One (a : atom) | Many (a : atom).
Record regex := Regex { rx_bol : bool; rx_items : list item; rx_eol : bool }.

Definition atom_of (c : Z) : atom := if c =? ch_dot then AAny else ALit c.
Definition accepts (a : atom) (t : Z) : Prop := match a with AAny => True | ALit c => t = c end.

Fixpoint parse_items (re : list Z) : list item * bool :=
  match re with
  | [] => ([], false)
  | c :: re1 =>
      let plain :=
        if (c =? ch_dollar) && (match re1 with [] => true | _ => false end) then ([], true)
        else let '(l, e) := parse_items re1 in (One (atom_of c) :: l, e) in
      match re1 with
      | c1 :: re2 =>
          if c1 =? ch_star then let '(l, e) := parse_items re2 in (Many (atom_of c) :: l, e)
          else plain
      | [] => plain
      end
  end.

Definition parse_regex (re : list Z) : regex :=
  match re with
  | c :: re1 =>
      if c =? ch_caret then let '(l, e) := parse_items re1 in Regex true l e
      else let '(l, e) := parse_items re in Regex false l e
  | [] => Regex false [] false
  end.

(** The strings an item, and a sequence of items, stands for. *)
Definition item_lang (i : item) (w : list Z) : Prop :=
  match i with
  | One a => ∃ t, w = [t] ∧ accepts a t
  | Many a => Forall (accepts a) w
  end.
Inductive lang : list item → list Z → Prop :=
| lang_nil : lang [] []
| lang_cons i l w1 w2 : item_lang i w1 → lang l w2 → lang (i :: l) (w1 ++ w2).

Definition anchored (eol : bool) (post : list Z) : Prop := if eol then post = [] else True.

(** [text] has a part in the language of the expression, at its beginning
    and at its end where the expression says so. *)
Definition occurs (r : regex) (text : list Z) : Prop :=
  ∃ pre w post, text = pre ++ w ++ post ∧ lang (rx_items r) w
    ∧ (if rx_bol r then pre = [] else True) ∧ anchored (rx_eol r) post.

(** *** The matcher decides the language *)
Definition prefix_in (p : list item * bool) (text : list Z) : Prop :=
  ∃ w post, text = w ++ post ∧ lang p.1 w ∧ anchored p.2 post.

Lemma accepts_of c t : accepts (atom_of c) t ↔ (c =? ch_dot) || (c =? t) = true.
Proof.
  unfold atom_of. rewrite orb_true_iff, !Z.eqb_eq.
  destruct (Z.eqb_spec c ch_dot); cbn [accepts]; naive_solver.
Qed.

Lemma prefix_in_many c l e text :
  prefix_in (Many (atom_of c) :: l, e) text ↔
  prefix_in (l, e) text
  ∨ ∃ t text', text = t :: text' ∧ accepts (atom_of c) t ∧ prefix_in (Many (atom_of c) :: l, e) text'.
Proof.
  unfold prefix_in. cbn [fst snd]. split.
  - intros (w & post & -> & Hl & Ha). inversion Hl as [|? ? w1 w2 H1 H2]; subst. cbn in H1.
    destruct H1 as [|t w1 Ht H1]; [left; eauto |].
    right. exists t, ((w1 ++ w2) ++ post). split_and!; [done.. |].
    exists (w1 ++ w2), post. split_and!; [done | by constructor | done].
  - intros [(w & post & -> & Hl & Ha) | (t & ? & -> & Ht & w & post & -> & Hl & Ha)].
    + exists w, post. split_and!; [done | | done].
      apply (lang_cons _ _ [] w); [constructor | done].
    + inversion Hl as [|? ? w1 w2 H1 H2]; subst.
      exists (t :: w1 ++ w2), post. split_and!; [done | | done].
      apply (lang_cons _ _ (t :: w1) w2); [by constructor | done].
Qed.

Lemma matchstar_spec here c l e text :
  (∀ t, here t = true ↔ prefix_in (l, e) t) →
  matchstar here c text = true ↔ prefix_in (Many (atom_of c) :: l, e) text.
Proof.
  intros Hh. induction text as [|t text IH]; rewrite prefix_in_many, <- Hh; cbn [matchstar].
  - destruct (here []); [naive_solver |]. split; [done | naive_solver].
  - destruct (here (t :: text)) eqn:E; [naive_solver |].
    rewrite (Z.eqb_sym t), orb_comm. destruct (_ || _) eqn:Ea.
    + rewrite IH. split.
      * intros Hp. right. exists t, text. rewrite accepts_of. done.
      * intros [? | (? & ? & [= <- <-] & _ & ?)]; done.
    + split; [done |]. intros [? | (? & ? & [= <- <-] & Hc & _)]; [done |].
      apply accepts_of in Hc. congruence.
Qed.

Lemma prefix_in_one c l e text :
  prefix_in (One (atom_of c) :: l, e) text ↔
  ∃ t text', text = t :: text' ∧ (c =? ch_dot) || (c =? t) = true ∧ prefix_in (l, e) text'.
Proof.
  unfold prefix_in. cbn [fst snd]. split.
  - intros (w & post & -> & Hl & Ha). inversion Hl as [|? ? w1 w2 H1 H2]; subst.
    destruct H1 as (t & -> & Ht).
    exists t, (w2 ++ post). rewrite <- accepts_of. eauto 10.
  - intros (t & ? & -> & Ht & w & post & -> & Hl & Ha). exists (t :: w), post.
    split_and!; [done | | done]. apply (lang_cons _ _ [t] w); [| done].
    exists t. by rewrite accepts_of.
Qed.

Lemma prefix_in_nil e text : prefix_in ([], e) text ↔ anchored e text.
Proof.
  unfold prefix_in. cbn [fst snd]. split.
  - intros (w & post & -> & Hl & Ha). by inversion Hl; subst.
  - intros Ha. exists [], text. split_and!; [done | constructor | done].
Qed.

Definition plain_step (c : Z) (re1 text : list Z) : bool :=
  if (c =? ch_dollar) && (match re1 with [] => true | _ => false end)
  then match text with [] => true | _ => false end
  else match text with
       | t :: text => if (c =? ch_dot) || (c =? t) then matchhere re1 text else false
       | [] => false
       end.
Definition plain_items (c : Z) (re1 : list Z) : list item * bool :=
  if (c =? ch_dollar) && (match re1 with [] => true | _ => false end) then ([], true)
  else let '(l, e) := parse_items re1 in (One (atom_of c) :: l, e).

Lemma plain_spec c re1 text :
  (∀ t, matchhere re1 t = true ↔ prefix_in (parse_items re1) t) →
  plain_step c re1 text = true ↔ prefix_in (plain_items c re1) text.
Proof.
  intros IH. unfold plain_step, plain_items. destruct (_ && _).
  - rewrite prefix_in_nil. by destruct text.
  - destruct (parse_items re1) as [l e]. rewrite prefix_in_one. destruct text as [|t text].
    + split; [done | naive_solver].
    + destruct (_ || _) eqn:Ea; [| naive_solver]. rewrite IH. naive_solver.
Qed.

Lemma matchhere_spec re : ∀ text, matchhere re text = true ↔ prefix_in (parse_items re) text.
Proof.
  induction re as [re IH] using (induction_ltof1 _ length). unfold ltof in IH. intros text.
  destruct re as [|c [|c1 re2]].
  - cbn [matchhere parse_items]. by rewrite prefix_in_nil.
  - apply (plain_spec c []), IH. cbn. lia.
  - cbn [matchhere parse_items]. destruct (c1 =? ch_star).
    + destruct (parse_items re2) as [l e] eqn:E. apply matchstar_spec. intros t.
      rewrite <- E. apply IH. cbn. lia.
    + apply (plain_spec c (c1 :: re2)), IH. cbn. lia.
Qed.

Lemma match_from_spec re text :
  match_from re text = true ↔ ∃ pre rest, text = pre ++ rest ∧ matchhere re rest = true.
Proof.
  induction text as [|t text IH]; cbn [match_from].
  - destruct (matchhere re []) eqn:E; split; [by exists [], [] | done | done |].
    intros (pre & rest & Hp & ?). destruct pre, rest; naive_solver.
  - destruct (matchhere re (t :: text)) eqn:E; [split; [by exists [], (t :: text) | done] |].
    rewrite IH. split.
    + intros (pre & rest & -> & Hm). by exists (t :: pre), rest.
    + intros ([|t' pre] & rest & Hp & Hm); cbn in Hp; [congruence |].
      injection Hp as <- ->. by exists pre, rest.
Qed.

(** C31: [match] of grep decides the language of the expression: it answers
    1 exactly when some part of the text, starting at the beginning of the
    line after [^] and reaching its end before a final [$], is a
    concatenation of strings of the items ([c], [.], [c*], [.*]). *)
Theorem gmatch_regex re text : gmatch re text = true ↔ occurs (parse_regex re) text.
Proof.
  assert (Hfree : match_from re text = true ↔
    occurs (Regex false (parse_items re).1 (parse_items re).2) text).
  { rewrite match_from_spec. setoid_rewrite matchhere_spec. unfold occurs, prefix_in. cbn.
    split; [intros (pre & ? & -> & w & post & -> & ?) | intros (pre & w & post & -> & ?)];
      naive_solver. }
  unfold gmatch, parse_regex. destruct re as [|c re1]; [done |].
  destruct (c =? ch_caret).
  - rewrite matchhere_spec. unfold occurs, prefix_in. destruct (parse_items re1) as [l e]. cbn.
    split; [intros (w & post & -> & ?); exists [], w, post | intros (? & w & post & -> & ? & -> & ?)];
      naive_solver.
  - by destruct (parse_items (c :: re1)) as [l e].
Qed.

(** ** The line loop

    [buf] is the 1024-byte buffer.  [None] is an access outside of it (or a
    loop that outlives its fuel); the theorem shows that neither happens. *)
Definition BUFSZ : nat := 1024.

(** [strchr(s, c)]: the offset of the first [c] before the NUL. *)
Fixpoint strchr (s : list Z) (c : Z) : option (option nat) :=
  match s with
  | [] => None
  | x :: s =>
      if x =? 0 then Some None else
      if x =? c then Some (Some 0%nat) else
      match strchr s c with
      | Some (Some k) => Some (Some (k + 1)%nat)
      | r => r
      end
  end.

(** [while ((q = strchr(p, '\n')) != 0)]: the buffer, [p - buf] and what was
    written to standard output. *)
Fixpoint grep_lines (fuel : nat) (pattern buf : list Z) (p : nat) (out : list Z) :
    option (list Z * nat * list Z) :=
  match fuel with
  | O => None
  | S fuel =>
      match strchr (drop p buf) ch_nl with
      | None => None
      | Some None => Some (buf, p, out)
      | Some (Some k) =>
          let q := (p + k)%nat in
          let buf := <[q := 0]> buf in
          if gmatch pattern (cstr (drop p buf)) then
            let buf := <[q := ch_nl]> buf in
            grep_lines fuel pattern buf (q + 1) (out ++ slice p (q + 1 - p) buf)
          else grep_lines fuel pattern buf (q + 1) out
      end
  end.

Section Grep.

(** How much of the rest of its input [read(fd, buf, max)] returns. *)
Variable read_size : nat → list Z → nat.

Fixpoint grep_loop (fuel : nat) (pattern buf : list Z) (m : nat) (input out : list Z) :
    option (list Z) :=
  match fuel with
  | O => None
  | S fuel =>
      let n := read_size (BUFSZ - m - 1) input in
      if (n =? 0)%nat then Some out else
      let buf := splice m (take n input) buf in
      let m := (m + n)%nat in
      let buf := <[m := 0]> buf in
      match grep_lines (BUFSZ + 1) pattern buf 0 out with
      | None => None
      | Some (buf, p, out) =>
          let m := if (0 <? m)%nat then (m - p)%nat else m in
          let buf := splice 0 (slice p m buf) buf in
          grep_loop fuel pattern buf m (drop n input) out
      end
  end.

Definition grep (pattern buf input out : list Z) : option (list Z) :=
  grep_loop (length input + 1) pattern buf 0 input out.
End Grep.

(** What [read] promises: at most what was asked for and what is there,
    and something unless one of them is nothing. *)
Definition read_ok (read_size : nat → list Z → nat) : Prop :=
  ∀ max input, (read_size max input ≤ max)%nat ∧ (read_size max input ≤ length input)%nat
    ∧ (max ≠ 0%nat → input ≠ [] → read_size max input ≠ 0%nat).

(** *** The reference: cut the whole input into lines *)
Fixpoint lines (cur input : list Z) : list (list Z) :=
  match input with
  | [] => []
  | c :: input => if c =? ch_nl then cur :: lines [] input else lines (cur ++ [c]) input
  end.
(** What follows the last newline. *)
Fixpoint unfinished (cur input : list Z) : list Z :=
  match input with
  | [] => cur
  | c :: input => if c =? ch_nl then unfinished [] input else unfinished (cur ++ [c]) input
  end.

Fixpoint take_while {A} (f : A → bool) (l : list A) : list A :=
  match l with [] => [] | x :: l => if f x then x :: take_while f l else [] end.

Definition fits (l : list Z) : bool := (length l <=? BUFSZ - 2)%nat.
Definition emit (pattern l : list Z) : list Z := if gmatch pattern l then l ++ [ch_nl] else [].

Lemma lines_app cur a b : lines cur (a ++ b) = lines cur a ++ lines (unfinished cur a) b.
Proof.
  revert cur. induction a as [|c a IH]; intros cur; [done |]. cbn.
  destruct (c =? ch_nl); [by rewrite IH | apply IH].
Qed.

Lemma lines_plain cur a : ch_nl ∉ a → lines cur a = [] ∧ unfinished cur a = cur ++ a.
Proof.
  revert cur. induction a as [|c a IH]; intros cur Hn; cbn; [by rewrite app_nil_r |].
  apply not_elem_of_cons in Hn as [Hc Hn].
  destruct (Z.eqb_spec c ch_nl); [done |]. destruct (IH (cur ++ [c]) Hn) as [-> ->].
  by rewrite <- app_assoc.
Qed.

Lemma lines_long cur input l ls : lines cur input = l :: ls → (length cur ≤ length l)%nat.
Proof.
  revert cur. induction input as [|c input IH]; intros cur; cbn; [done |].
  destruct (c =? ch_nl); [by intros [= -> _] |]. intros E. apply IH in E.
  rewrite length_app in E. cbn in E. lia.
Qed.

Lemma unfinished_app cur a b : unfinished cur (a ++ b) = unfinished (unfinished cur a) b.
Proof.
  revert cur. induction a as [|c a IH]; intros cur; [done |]. cbn.
  destruct (c =? ch_nl); apply IH.
Qed.

Lemma unfinished_no_nl cur a : ch_nl ∉ cur → ch_nl ∉ unfinished cur a.
Proof.
  revert cur. induction a as [|c a IH]; intros cur Hn; [done |]. cbn.
  destruct (Z.eqb_spec c ch_nl); apply IH; set_solver.
Qed.

Lemma take_while_app {A} (f : A → bool) a b :
  Forall (λ x, f x = true) a → take_while f (a ++ b) = a ++ take_while f b.
Proof. induction 1 as [|x a Hx _ IH]; [done |]. cbn. by rewrite Hx, IH. Qed.

(** *** The buffer holds a string *)
Lemma unfinished_text cur a : plain_text cur → plain_text a → plain_text (unfinished cur a).
Proof.
  intros Hc Ha. revert cur Hc. induction Ha as [|c a Hc _ IH]; intros cur Hcur; [done |]. cbn.
  destruct (c =? ch_nl); apply IH; [constructor | by apply Forall_app_2; [| constructor]].
Qed.

Lemma strchr_none l r : plain_text l → ch_nl ∉ l → strchr (l ++ 0 :: r) ch_nl = Some None.
Proof.
  induction 1 as [|x l Hx _ IH]; intros Hn; [done |]. apply not_elem_of_cons in Hn as [Hc Hn].
  cbn. rewrite (proj2 (Z.eqb_neq x 0)), (proj2 (Z.eqb_neq x ch_nl)) by done. by rewrite IH.
Qed.

Lemma strchr_some l r :
  plain_text l → ch_nl ∉ l → strchr (l ++ ch_nl :: r) ch_nl = Some (Some (length l)).
Proof.
  induction 1 as [|x l Hx _ IH]; intros Hn; [done |]. apply not_elem_of_cons in Hn as [Hc Hn].
  cbn. rewrite (proj2 (Z.eqb_neq x 0)), (proj2 (Z.eqb_neq x ch_nl)) by done.
  rewrite IH by done. by rewrite Nat.add_1_r.
Qed.

Lemma first_nl (t : list Z) : ch_nl ∉ t ∨ ∃ a b, t = a ++ ch_nl :: b ∧ ch_nl ∉ a.
Proof.
  destruct (decide (ch_nl ∈ t)) as [Hin|]; [right | by left].
  apply list_elem_of_split_l in Hin as (a & b & -> & ?). eauto.
Qed.

Lemma lines_cut a b : ch_nl ∉ a → lines [] (a ++ ch_nl :: b) = a :: lines [] b
  ∧ unfinished [] (a ++ ch_nl :: b) = unfinished [] b.
Proof.
  intros Hn. rewrite lines_app. destruct (lines_plain [] a Hn) as [-> ->]. split; [done |].
  clear -Hn. assert (∀ cur, unfinished cur (a ++ ch_nl :: b) = unfinished [] b); [| done].
  induction a as [|c a IH]; intros cur; [done |]. apply not_elem_of_cons in Hn as [Hc Hn].
  cbn. destruct (Z.eqb_spec c ch_nl); [done | auto].
Qed.

Lemma drop_insert_at {A} (l a b : list A) (p : nat) x y :
  drop p l = a ++ x :: b →
  drop p (<[(p + length a)%nat := y]> l) = a ++ y :: b
  ∧ drop (p + length a + 1) (<[(p + length a)%nat := y]> l) = b.
Proof.
  intros Hd. rewrite drop_insert_ge by lia.
  replace (p + length a - p)%nat with (length a) by lia. split.
  - rewrite Hd, insert_app_r_alt, Nat.sub_diag by lia. done.
  - rewrite drop_insert_lt by lia.
    rewrite <- !drop_drop, Hd, drop_app_length. done.
Qed.

(** The inner loop prints the matching complete lines of the text and stops
    at the part after the last newline. *)
Lemma grep_lines_spec pattern (t : list Z) : ∀ fuel buf p out rest,
  plain_text t → drop p buf = t ++ 0 :: rest → (length t < fuel)%nat →
  ∃ buf', grep_lines fuel pattern buf p out
    = Some (buf', (p + (length t - length (unfinished [] t)))%nat, out ++ concat (emit pattern <$> lines [] t))
    ∧ length buf' = length buf
    ∧ drop (p + (length t - length (unfinished [] t))) buf' = unfinished [] t ++ 0 :: rest
    ∧ (length (unfinished [] t) ≤ length t)%nat.
Proof.
  induction t as [t IH] using (induction_ltof1 _ length). unfold ltof in IH.
  intros fuel buf p out rest Ht Hd Hf. destruct fuel as [|fuel]; [lia |]. cbn [grep_lines].
  rewrite Hd. destruct (first_nl t) as [Hn | (a & b & -> & Hn)].
  { rewrite strchr_none by done. destruct (lines_plain [] t Hn) as [-> ->]. cbn [app].
    rewrite Nat.sub_diag, Nat.add_0_r. exists buf. cbn. by rewrite app_nil_r. }
  destruct (lines_cut a b Hn) as [-> ->]. apply Forall_app in Ht as [Ha Hb].
  apply Forall_cons in Hb as [_ Hb]. rewrite length_app in *. cbn [length] in *.
  rewrite <- app_assoc in *. cbn [app] in *. rewrite strchr_some by done.
  destruct (drop_insert_at _ _ _ _ _ 0 Hd) as [Hd0 Hq0]. rewrite Hd0, cstr_app by done.
  assert (Hle : (length (unfinished [] b) ≤ length b)%nat).
  { destruct (IH b ltac:(lia) (S (length b)) (b ++ 0 :: rest) 0%nat [] rest Hb eq_refl ltac:(lia))
      as (? & _ & _ & _ & ?). done. }
  replace (p + (length a + S (length b) - length (unfinished [] b)))%nat
    with ((p + length a + 1) + (length b - length (unfinished [] b)))%nat by lia.
  cbn [fmap list_fmap concat]. unfold emit at 1. destruct (gmatch pattern a).
  - destruct (drop_insert_at _ _ _ _ _ ch_nl Hd0) as [Hd1 Hq1].
    edestruct (IH b ltac:(lia) fuel _ _ (out ++ slice p (p + length a + 1 - p)
      (<[(p + length a)%nat:=ch_nl]> (<[(p + length a)%nat:=0]> buf))) rest Hb Hq1 ltac:(lia))
      as (buf' & -> & Hl & Hd' & _).
    exists buf'. rewrite !length_insert in Hl. split_and!; [| done.. | lia].
    do 2 f_equal. rewrite <- app_assoc. do 2 f_equal. unfold slice. rewrite Hd1.
    replace (p + length a + 1 - p)%nat with (length (a ++ [ch_nl])) by (rewrite length_app; cbn; lia).
    rewrite (app_assoc a [ch_nl] (b ++ 0 :: rest) : a ++ ch_nl :: b ++ 0 :: rest = _).
    by rewrite take_app_length.
  - edestruct (IH b ltac:(lia) fuel _ _ out rest Hb Hq0 ltac:(lia)) as (buf' & -> & Hl & Hd' & _).
    exists buf'. rewrite length_insert in Hl. split_and!; [done.. | lia].
Qed.

Lemma lines_fit cur a : (length cur + length a < BUFSZ)%nat → Forall (λ l, fits l = true) (lines cur a).
Proof.
  revert cur. induction a as [|c a IH]; intros cur Hl; cbn in *; [constructor |].
  destruct (c =? ch_nl).
  - constructor; [apply Nat.leb_le; lia | apply IH; cbn; lia].
  - apply IH. rewrite length_app. cbn. lia.
Qed.

Lemma lines_full cur input : (length cur = BUFSZ - 1)%nat → take_while fits (lines cur input) = [].
Proof.
  intros Hc. destruct (lines cur input) as [|l ls] eqn:E; [done |]. apply lines_long in E.
  cbn. unfold fits. rewrite (proj2 (Nat.leb_gt _ _)); [done | unfold BUFSZ in *; lia].
Qed.

Lemma splice_string cur new (buf : list Z) :
  take (length cur) buf = cur → (length cur + length new < length buf)%nat →
  ∃ rest, <[(length cur + length new)%nat := 0]> (splice (length cur) new buf) = (cur ++ new) ++ 0 :: rest
    ∧ length ((cur ++ new) ++ 0 :: rest) = length buf.
Proof.
  intros Ht Hl. unfold splice. rewrite Ht, app_assoc.
  destruct (drop (length cur + length new) buf) as [|x rest] eqn:E.
  { apply (f_equal length) in E. rewrite length_drop in E. cbn in E. lia. }
  exists rest. rewrite <- length_app. rewrite insert_app_r_alt, Nat.sub_diag by lia.
  split; [done |]. apply (f_equal length) in E. rewrite length_drop in E.
  rewrite !length_app. cbn in *. lia.
Qed.

Section GrepProofs.
Variable read_size : nat → list Z → nat.
Hypothesis read_size_ok : read_ok read_size.

Lemma grep_loop_spec pattern input : ∀ fuel buf cur out,
  plain_text cur → plain_text input → ch_nl ∉ cur → length buf = BUFSZ →
  take (length cur) buf = cur → (length cur < BUFSZ)%nat → (length input < fuel)%nat →
  grep_loop read_size fuel pattern buf (length cur) input out
    = Some (out ++ concat (emit pattern <$> take_while fits (lines cur input))).
Proof.
  induction input as [input IH] using (induction_ltof1 _ length). unfold ltof in IH.
  intros fuel buf cur out Hcur Hin Hn Hb Ht Hlc Hf. destruct fuel as [|fuel]; [lia |].
  cbn [grep_loop]. destruct (read_size_ok (BUFSZ - length cur - 1)%nat input) as (Hr1 & Hr2 & Hr3).
  set (n := read_size _ input) in *. destruct (Nat.eqb_spec n 0) as [E|E].
  { destruct (decide (length cur = (BUFSZ - 1)%nat)) as [Hfull|]; [rewrite lines_full by done |].
    { cbn. by rewrite app_nil_r. }
    destruct input as [|c input]; [cbn; by rewrite app_nil_r |].
    exfalso. apply Hr3; [lia | done | done]. }
  assert (Hn' : length (take n input) = n) by (rewrite length_take; lia).
  destruct (splice_string cur (take n input) buf Ht) as (rest & Hs & Hsl);
    [rewrite Hn', Hb; lia |].
  rewrite Hn' in Hs. rewrite Hs. rewrite <- (take_drop n input) in Hin.
  apply Forall_app in Hin as [Hin1 Hin2].
  destruct (grep_lines_spec pattern (cur ++ take n input) (BUFSZ + 1) ((cur ++ take n input) ++ 0 :: rest)
    0 out rest) as (buf' & -> & Hl' & Hd' & Hle).
  { by apply Forall_app. }
  { by rewrite drop_0. }
  { rewrite length_app, Hn'. unfold BUFSZ in *. lia. }
  rewrite (proj2 (Nat.ltb_lt 0 (length cur + n))) by lia.
  assert (Hleft : unfinished [] (cur ++ take n input) = unfinished cur (take n input)).
  { rewrite unfinished_app. by destruct (lines_plain [] cur Hn) as [_ ->]. }
  assert (Hlines : lines [] (cur ++ take n input) = lines cur (take n input)).
  { rewrite lines_app. destruct (lines_plain [] cur Hn) as [-> ->]. done. }
  rewrite Hlines. rewrite Hleft in *. set (cur' := unfinished cur (take n input)) in *.
  rewrite length_app, Hn' in *. cbn [Nat.add] in *.
  replace (length cur + n - (length cur + n - length cur'))%nat with (length cur') by lia.
  unfold slice. rewrite Hd', take_app_length.
  rewrite (IH (drop n input)); rewrite ?length_drop; try done; try lia.
  - rewrite <- app_assoc, <- concat_app, <- fmap_app. do 4 f_equal.
    rewrite <- (take_drop n input) at 3. rewrite lines_app, take_while_app; [done |].
    apply lines_fit. rewrite Hn'. lia.
  - by apply unfinished_text.
  - by apply unfinished_no_nl.
  - rewrite splice_length; [lia |]. rewrite Hl', Hsl. lia.
  - unfold splice. rewrite take_0. cbn [app]. apply take_app_length.
Qed.
End GrepProofs.

(** C32: However its input arrives, [grep] writes exactly the matching lines
    of it, in order, up to the first line that does not fit in the buffer:
    the output is that of a matcher over the input cut at the newlines.
    There is no access outside the buffer, and the loop ends. *)
Theorem grep_prints_matches read_size pattern buf input out :
  read_ok read_size → plain_text input → length buf = BUFSZ →
  grep read_size pattern buf input out
    = Some (out ++ concat (emit pattern <$> take_while fits (lines [] input))).
Proof.
  intros Hr Hi Hb. apply (grep_loop_spec read_size Hr pattern input _ buf []); try done; cbn; try lia.
  - constructor.
  - apply not_elem_of_nil.
  - unfold BUFSZ. lia.
Qed.

(** *** Examples *)

(** [read] that never returns more than seven bytes. *)
Definition read7 (max : nat) (input : list Z) : nat := Nat.min (Nat.min max 7) (length input).

Lemma read7_ok : read_ok read7.
Proof.
  intros max input. unfold read7. split_and!; [lia.. |]. intros Hm Hi.
  destruct input; [done |]. cbn. lia.
Qed.

Definition abc_input : list Z := text_codes "abc" ++ [10] ++ text_codes "xb" ++ [10] ++ text_codes "aXXc tail".

Lemma grep_prints_matches_witness :
  read_ok read7 ∧ plain_text abc_input
  ∧ grep read7 (text_codes "^a.*c$") (replicate BUFSZ 0) abc_input [] = Some (text_codes "abc" ++ [10]).
Proof.
  assert (Hp : plain_text abc_input) by (unfold plain_text, abc_input; vm_compute; repeat constructor; done).
  split_and!; [apply read7_ok | done |].
  rewrite grep_prints_matches; [vm_compute; reflexivity | apply read7_ok | done |].
  by rewrite length_replicate.
Defined.

(** A line longer than the buffer ends the search: what follows it is lost. *)
Example grep_long_line :
  grep read7 (text_codes "ok") (replicate BUFSZ 0)
    (text_codes "ok 1" ++ [10] ++ replicate 1023 ch_dot ++ [10] ++ text_codes "ok 2" ++ [10]) []
  = Some (text_codes "ok 1" ++ [10]).
Proof. vm_compute. reflexivity. Qed.
