(* ===== verification/Sh.v ===== *)
(** * The shell's parser ([user/sh.c])

    The line is a list of characters, [*ps] the part of it that is left, so
    a null character at [*s] is the empty list.  A word is a pair of
    positions ([q], [eq]); [nulterminate] later stores a null character at
    [eq].  [parseexec] goes on filling the [execcmd] it has already wrapped
    in redirections: the command is put together from the two lists when the
    loop ends.  [malloc] is taken to succeed. *)
From S2P Require Import Prelude Params.

Definition MAXARGS : nat := 10.
Definition whitespace : list Z := [32; 9; 13; 10; 11].
(** [< | > & ; ( )] *)
Definition symbols : list Z := [60; 124; 62; 38; 59; 40; 41].
Definition is_ws (c : Z) : bool := bool_decide (c ∈ whitespace).
Definition is_sym (c : Z) : bool := bool_decide (c ∈ symbols).
Definition is_wordch (c : Z) : bool := negb (is_ws c) && negb (is_sym c).

(** The command structures; [W] is how a word is given. *)
Inductive cmd (W : Type) :=
| EXEC (argv : list W)
| REDIR (c : cmd W) (file : W) (mode fd : Z)
| PIPE (left right : cmd W)
| LIST (left right : cmd W)
| BACK (c : cmd W).
Arguments EXEC {W}.
Arguments REDIR {W}.
Arguments PIPE {W}.
Arguments LIST {W}.
Arguments BACK {W}.

Record word := Word { w_q : nat; w_eq : nat }.

Fixpoint drop_while (f : Z → bool) (l : list Z) : list Z :=
  match l with [] => [] | c :: l' => if f c then drop_while f l' else l end.
Definition skip_ws : list Z → list Z := drop_while is_ws.

Section Parser.
(** The length of the line: the position of [es]. *)
Variable es : nat.
Notation P := (M (list Z)).

Definition pos (l : list Z) : nat := es - length l.

(** The token, what follows it. *)
Definition token (l : list Z) : Z * list Z :=
  match l with
  | [] => (0, [])
  | c :: l' =>
      if bool_decide (c ∈ [124; 40; 41; 59; 38; 60]) then (c, l')
      else if c =? 62 then
        match l' with
        | c' :: l'' => if c' =? 62 then (43, l'') else (c, l')
        | [] => (c, l')
        end
      else (97, drop_while is_wordch l)
  end.
Definition gettoken : P (Z * word) := λ l,
  let l := skip_ws l in
  let '(tok, rest) := token l in
  Ret (tok, Word (pos l) (pos rest)) (skip_ws rest).
Definition peek (toks : list Z) : P bool := λ l,
  let l := skip_ws l in
  Ret (match l with [] => false | c :: _ => bool_decide (c ∈ toks) end) l.

(** A redirection: file, mode, descriptor. *)
Definition redir_of (tok : Z) (f : word) : list (word * Z * Z) :=
  if tok =? 60 then [(f, O_RDONLY, 0)]
  else if tok =? 62 then [(f, Z.lor (Z.lor O_WRONLY O_CREATE) O_TRUNC, 1)]
  else if tok =? 43 then [(f, Z.lor O_WRONLY O_CREATE, 1)]
  else [].
(** The redirections that [parseredirs] puts around the command, innermost
    first. *)
Fixpoint redirs_loop (fuel : nat) : P (list (word * Z * Z)) :=
  match fuel with
  | O => λ _, OutOfFuel
  | S fuel =>
      let! b := peek [60; 62] in
      if b : bool then
        let! (tok, _) := gettoken in
        let! (t, f) := gettoken in
        if decide (t ≠ 97) then panic "missing file for redirection"
        else let! rest := redirs_loop fuel in ret (redir_of tok f ++ rest)
      else ret []
  end.
(** Every turn takes a token. *)
Definition parseredirs : P (list (word * Z * Z)) := λ l, redirs_loop (length l + 1) l.
Definition redircmds {W} (c : cmd W) (rs : list (W * Z * Z)) : cmd W :=
  foldl (λ c '(f, mode, fd), REDIR c f mode fd) c rs.

(** The arguments and redirections after the first [argc] arguments. *)
Fixpoint args_loop (fuel : nat) (argc : nat) : P (list word * list (word * Z * Z)) :=
  match fuel with
  | O => λ _, OutOfFuel
  | S fuel =>
      let! stop := peek [124; 41; 38; 59] in
      if stop : bool then ret ([], [])
      else
        let! (tok, w) := gettoken in
        if decide (tok = 0) then ret ([], [])
        else if decide (tok ≠ 97) then panic "syntax"
        else if decide (MAXARGS ≤ argc + 1)%nat then panic "too many args"
        else
          let! rs := parseredirs in
          let! (ws, rs') := args_loop fuel (argc + 1) in
          ret (w :: ws, rs ++ rs')
  end.

(** [while (peek(ps, es, "&"))] of [parseline] *)
Fixpoint backs (fuel : nat) (c : cmd word) : P (cmd word) :=
  match fuel with
  | O => λ _, OutOfFuel
  | S fuel =>
      let! b := peek [38] in
      if b : bool then gettoken;; backs fuel (BACK c) else ret c
  end.

Fixpoint parseline (fuel : nat) : P (cmd word) :=
  match fuel with
  | O => λ _, OutOfFuel
  | S fuel =>
      let! c := parsepipe fuel in
      let! c := (λ l, backs (length l + 1) c l) in
      let! b := peek [59] in
      if b : bool then
        gettoken;; let! r := parseline fuel in ret (LIST c r)
      else ret c
  end
with parsepipe (fuel : nat) : P (cmd word) :=
  match fuel with
  | O => λ _, OutOfFuel
  | S fuel =>
      let! c := parseexec fuel in
      let! b := peek [124] in
      if b : bool then
        gettoken;; let! r := parsepipe fuel in ret (PIPE c r)
      else ret c
  end
with parseexec (fuel : nat) : P (cmd word) :=
  match fuel with
  | O => λ _, OutOfFuel
  | S fuel =>
      let! b := peek [40] in
      if b : bool then parseblock fuel
      else
        let! rs := parseredirs in
        let! (ws, rs') := (λ l, args_loop (length l + 1) 0 l) in
        ret (redircmds (EXEC ws) (rs ++ rs'))
  end
with parseblock (fuel : nat) : P (cmd word) :=
  match fuel with
  | O => λ _, OutOfFuel
  | S fuel =>
      let! b := peek [40] in
      if negb b then panic "parseblock"
      else
        gettoken;;
        let! c := parseline fuel in
        let! b := peek [41] in
        if negb b then panic "syntax - missing )"
        else
          gettoken;;
          let! rs := parseredirs in
          ret (redircmds c rs)
  end.

(** Enough for every line: see [parse_total]. *)
Definition parse_fuel (l : list Z) : nat := 4 * length l + 4.

(** [parsecmd] before [nulterminate]. *)
Definition parse (l : list Z) : res (list Z) (cmd word) :=
  (let! c := parseline (parse_fuel l) in
   peek [];;
   let! rest := gets id in
   if decide (rest ≠ []) then panic "syntax" else ret c) l.
End Parser.

(** *** [nulterminate] *)
Definition nul_word (buf : list Z) (w : word) : list Z := <[w_eq w := 0]> buf.
Fixpoint nulterminate (c : cmd word) (buf : list Z) : list Z :=
  match c with
  | EXEC argv => foldl nul_word buf argv
  | REDIR c f _ _ => nul_word (nulterminate c buf) f
  | PIPE l r => nulterminate r (nulterminate l buf)
  | LIST l r => nulterminate r (nulterminate l buf)
  | BACK c => nulterminate c buf
  end.

(** [parsecmd] on the line [l]: the command, and the buffer it points into,
    with the null character at its end. *)
Definition parsecmd (l : list Z) : res (list Z) (cmd word * list Z) :=
  match parse (length l) l with
  | Ret c rest => Ret (c, nulterminate c (l ++ [0])) rest
  | Panic msg => Panic msg
  | Wait ch s => Wait ch s
  | OutOfFuel => OutOfFuel
  end.
