(* ===== verification/ShTheorems.v ===== *)
(** * The shell's parser: theorems

    Every line is parsed or refused in a bounded number of steps, the words
    of the result are what stands in the line, and a command that is written
    out is parsed back to itself. *)
From S2P Require Import Prelude Params Sh.

(** ** Runs that return or stop with a message, and never hang *)
Definition decides {A} (m : M (list Z) A) (Q : A → list Z → Prop) (l : list Z) : Prop :=
  match m l with Ret a l' => Q a l' | Panic _ => True | _ => False end.

Lemma decides_bind {A B} (m : M (list Z) A) (k : A → M (list Z) B) Q l :
  decides m (λ a l', decides (k a) Q l') l → decides (bind m k) Q l.
Proof. unfold decides, bind. by destruct (m l). Qed.
Lemma decides_ret {A} (a : A) Q l : Q a l → decides (ret a) Q l.
Proof. done. Qed.
Lemma decides_panic {A} msg (Q : A → list Z → Prop) l : decides (panic msg) Q l.
Proof. done. Qed.
Lemma decides_mono {A} (m : M (list Z) A) (P Q : A → list Z → Prop) l :
  decides m P l → (∀ a l', P a l' → Q a l') → decides m Q l.
Proof. unfold decides. destruct (m l); naive_solver. Qed.

(** [l'] is what is left of [l]. *)
Lemma drop_while_suffix f l : drop_while f l `suffix_of` l.
Proof.
  induction l as [|c l IH]; [done |]. cbn. case_match; [by apply suffix_cons_r | done].
Qed.
Lemma skip_ws_suffix l : skip_ws l `suffix_of` l.
Proof. apply drop_while_suffix. Qed.
Lemma drop_while_head f l c l' : drop_while f l = c :: l' → f c = false.
Proof.
  induction l as [|x l IH]; [done |]. cbn. destruct (f x) eqn:E; [done |]. by intros [= -> ->].
Qed.
Lemma skip_ws_idem l : skip_ws (skip_ws l) = skip_ws l.
Proof.
  destruct (skip_ws l) as [|c l'] eqn:E; [done |]. cbn. by rewrite (drop_while_head _ _ _ _ E).
Qed.

Section Words.
(** The line. *)
Variable line : list Z.
Notation es := (length line).

(** A word of the line: characters that are neither blank nor special, up
    to the end of the line or to one that is. *)
Definition word_ok (w : word) : Prop :=
  (w_q w ≤ w_eq w)%nat ∧ (w_eq w ≤ es)%nat
  ∧ (∀ j, (w_q w ≤ j < w_eq w)%nat → ∃ c, line !! j = Some c ∧ is_wordch c = true)
  ∧ (∀ c, line !! w_eq w = Some c → is_wordch c = false).

Fixpoint words_ok (c : cmd word) : Prop :=
  match c with
  | EXEC argv => Forall word_ok argv
  | REDIR c f _ _ => words_ok c ∧ word_ok f
  | PIPE l r => words_ok l ∧ words_ok r
  | LIST l r => words_ok l ∧ words_ok r
  | BACK c => words_ok c
  end.

Lemma suffix_drop l : l `suffix_of` line → drop (pos es l) line = l.
Proof.
  intros [pre ->]. unfold pos. rewrite length_app. replace (length pre + length l - length l)%nat with (length pre) by lia.
  apply drop_app_length.
Qed.

Lemma suffix_lookup l j : l `suffix_of` line → l !! j = line !! (pos es l + j)%nat.
Proof. intros Hs. rewrite <- (suffix_drop l Hs) at 1. apply lookup_drop. Qed.

Lemma pos_length l : l `suffix_of` line → (pos es l + length l = es)%nat.
Proof. intros [pre ->]. unfold pos. rewrite length_app. lia. Qed.

Lemma token_suffix l : (token l).2 `suffix_of` l.
Proof.
  destruct l as [|c l]; [done |]. cbn [token]. case_match; [by apply suffix_cons_r |].
  case_match; [| apply drop_while_suffix]. destruct l as [|c' l]; [by apply suffix_cons_r |].
  case_match; [by do 2 apply suffix_cons_r | by apply suffix_cons_r].
Qed.

Lemma token_shorter l : l ≠ [] → skip_ws l = l → (length (token l).2 < length l)%nat.
Proof.
  intros Hl Hws. destruct l as [|c l]; [done |]. pose proof (drop_while_head _ _ _ _ Hws) as Hw. cbn [token].
  case_bool_decide as Hc; [cbn; lia |]. destruct (Z.eqb_spec c 62) as [->|Hne].
  - destruct l as [|c' l]; [cbn; lia |]. case_match; cbn; lia.
  - cbn [Datatypes.snd drop_while]. unfold is_wordch at 1. rewrite Hw.
    assert (is_sym c = false) as ->.
    { unfold is_sym. apply bool_decide_eq_false. unfold symbols. set_solver. }
    cbn. pose proof (suffix_length _ _ (drop_while_suffix is_wordch l)). lia.
Qed.

Lemma drop_while_split f l : ∃ p, l = p ++ drop_while f l ∧ Forall (λ c, f c = true) p.
Proof.
  induction l as [|c l (p & E & Hp)]; [by exists [] |]. cbn. destruct (f c) eqn:Ef; [| by exists []].
  exists (c :: p). cbn. by rewrite <- E; split; [| constructor].
Qed.

Lemma word_token l :
  l `suffix_of` line → (token l).1 = 97 → skip_ws l = l → word_ok (Word (pos es l) (pos es (token l).2)).
Proof.
  intros Hs Ht Hws. destruct l as [|c l]; [done |]. cbn [token] in *.
  case_bool_decide as Hc; [cbn in Ht; set_solver |]. destruct (Z.eqb_spec c 62) as [->|Hne].
  { destruct l; [done |]. by case_match. }
  cbn [Datatypes.snd]. clear Ht Hws. set (l1 := c :: l) in *.
  destruct (drop_while_split is_wordch l1) as (p & E & Hp). set (r := drop_while is_wordch l1) in *.
  assert (Hr : r `suffix_of` line) by (etrans; [apply drop_while_suffix | done]).
  pose proof (pos_length _ Hs) as H1. pose proof (pos_length _ Hr) as H2. apply (f_equal length) in E as El.
  rewrite length_app in El. split_and!; cbn [w_q w_eq].
  - lia.
  - lia.
  - intros j Hj. replace j with (pos es l1 + (j - pos es l1))%nat by lia. rewrite <- suffix_lookup by done.
    destruct (lookup_lt_is_Some_2 p (j - pos es l1)) as [x Hx]; [lia |]. exists x. split.
    + trans ((p ++ r) !! (j - pos es l1)%nat); [by f_equal |].
      rewrite lookup_app_l by (by eapply lookup_lt_Some). exact Hx.
    + by apply (Forall_lookup_1 _ _ _ _ Hp Hx).
  - intros x Hx. rewrite <- (Nat.add_0_r (pos es r)), <- suffix_lookup in Hx by done.
    destruct r as [|y r'] eqn:Er; [done |]. cbn in Hx. injection Hx as <-. by eapply drop_while_head.
Qed.

Lemma gettoken_decides l :
  l `suffix_of` line →
  decides (gettoken es) (λ x l', l' `suffix_of` l ∧ (x.1 = 97 → word_ok x.2)
    ∧ (skip_ws l ≠ [] → (length l' < length l)%nat) ∧ (x.1 ≠ 0 → skip_ws l ≠ [])) l.
Proof.
  intros Hs. unfold decides, gettoken. pose proof (skip_ws_suffix l) as Hw.
  pose proof (skip_ws_idem l) as Hi. set (l1 := skip_ws l) in *. pose proof (token_suffix l1) as Ht.
  pose proof (word_token l1) as Hword. pose proof (token_shorter l1) as Hsh.
  assert (H0 : (token l1).1 ≠ 0 → l1 ≠ []) by (by intros H0 ->).
  destruct (token l1) as [tok rest]. cbn [Datatypes.fst Datatypes.snd] in *.
  pose proof (skip_ws_suffix rest) as Hr. split_and!.
  - etrans; [done |]. by etrans.
  - intros Htok. apply Hword; [by etrans | done | done].
  - intros Hne. specialize (Hsh Hne Hi). pose proof (suffix_length _ _ Hr). pose proof (suffix_length _ _ Hw). lia.
  - done.
Qed.

Lemma peek_decides toks l :
  decides (peek toks) (λ b l', l' = skip_ws l ∧ (b = true → l' ≠ [])) l.
Proof. unfold decides, peek. split; [done |]. by destruct (skip_ws l). Qed.

(** What every parsing function does to the rest of the line. *)
Definition taking {A} (Q : A → Prop) (l : list Z) (a : A) (l' : list Z) : Prop := l' `suffix_of` l ∧ Q a.

Lemma taking_trans {A} (Q : A → Prop) l l1 a l' : l1 `suffix_of` l → taking Q l1 a l' → taking Q l a l'.
Proof. intros Hs [Hs' HQ]. split; [by etrans | done]. Qed.

Definition redir_ok (r : word * Z * Z) : Prop := word_ok r.1.1.

Lemma redirs_loop_decides fuel : ∀ l,
  l `suffix_of` line → (length l < fuel)%nat → decides (redirs_loop es fuel) (taking (Forall redir_ok) l) l.
Proof.
  induction fuel as [|fuel IH]; intros l Hs Hf; [lia |]. cbn [redirs_loop].
  apply decides_bind. eapply decides_mono; [apply peek_decides |]. intros b l1 [-> Hb].
  pose proof (skip_ws_suffix l) as Hw. destruct b; [| apply decides_ret; by split].
  assert (Hs1 : skip_ws l `suffix_of` line) by (by etrans).
  apply decides_bind. eapply decides_mono; [by apply gettoken_decides |]. intros [tok w1] l2 (Hl2 & _ & Hsh & _).
  rewrite skip_ws_idem in Hsh. specialize (Hsh (Hb eq_refl)).
  assert (Hs2 : l2 `suffix_of` line) by (by etrans).
  apply decides_bind. eapply decides_mono; [by apply gettoken_decides |]. intros [t f] l3 (Hl3 & Hwf & _ & _).
  case_decide; [apply decides_panic |]. cbn in Hwf.
  pose proof (suffix_length _ _ Hw). pose proof (suffix_length _ _ Hl3).
  apply decides_bind. eapply decides_mono; [apply IH; [by etrans | lia] |]. intros rest l4 [Hl4 Hok].
  apply decides_ret. split; [etrans; [exact Hl4 |]; etrans; [exact Hl3 |]; by trans (skip_ws l) |]. apply Forall_app. split; [| done].
  unfold redir_of. assert (word_ok f) by auto. repeat case_match; first [by apply Forall_singleton | apply Forall_nil_2].
Qed.

Lemma parseredirs_decides l :
  l `suffix_of` line → decides (parseredirs es) (taking (Forall redir_ok) l) l.
Proof. intros Hs. apply redirs_loop_decides; [done | lia]. Qed.

Lemma args_loop_decides fuel : ∀ argc l,
  l `suffix_of` line → (length l < fuel)%nat →
  decides (args_loop es fuel argc) (taking (λ x, Forall word_ok x.1 ∧ Forall redir_ok x.2) l) l.
Proof.
  induction fuel as [|fuel IH]; intros argc l Hs Hf; [lia |]. cbn [args_loop].
  apply decides_bind. eapply decides_mono; [apply peek_decides |]. intros b l1 [-> Hb].
  pose proof (skip_ws_suffix l) as Hw. assert (Hs1 : skip_ws l `suffix_of` line) by (by etrans).
  destruct b; [apply decides_ret; by repeat split |].
  apply decides_bind. eapply decides_mono; [by apply gettoken_decides |]. intros [tok w] l2 (Hl2 & Hwf & Hsh & H0).
  rewrite skip_ws_idem in *. cbn in Hwf, H0.
  case_decide; [apply decides_ret; split; [by trans (skip_ws l) | done] |]. case_decide; [apply decides_panic |].
  case_decide; [apply decides_panic |]. specialize (Hsh (H0 ltac:(done))).
  pose proof (suffix_length _ _ Hw). assert (Hs2 : l2 `suffix_of` line) by (by etrans).
  apply decides_bind. eapply decides_mono; [by apply parseredirs_decides |]. intros rs l3 [Hl3 Hrs].
  pose proof (suffix_length _ _ Hl3).
  apply decides_bind. eapply decides_mono; [apply IH; [by etrans | lia] |]. intros [ws rs'] l4 (Hl4 & Hws & Hrs').
  cbn in Hws, Hrs'. apply decides_ret. split; [etrans; [exact Hl4 |]; etrans; [exact Hl3 |]; by trans (skip_ws l) |]. cbn.
  split; [constructor; [apply Hwf; tauto | done] | by apply Forall_app].
Qed.

Lemma redircmds_ok c rs : words_ok c → Forall redir_ok rs → words_ok (redircmds c rs).
Proof.
  unfold redircmds. intros Hc Hrs. revert c Hc. induction Hrs as [|[[f m] d] rs Hf _ IH]; intros c Hc; [done |].
  cbn. by apply IH.
Qed.

Lemma backs_decides fuel : ∀ c l,
  words_ok c → l `suffix_of` line → (length l < fuel)%nat →
  decides (backs es fuel c) (taking words_ok l) l.
Proof.
  induction fuel as [|fuel IH]; intros c l Hc Hs Hf; [lia |]. cbn [backs].
  apply decides_bind. eapply decides_mono; [apply peek_decides |]. intros b l1 [-> Hb].
  pose proof (skip_ws_suffix l) as Hw. assert (Hs1 : skip_ws l `suffix_of` line) by (by etrans).
  destruct b; [| apply decides_ret; by split].
  apply decides_bind. eapply decides_mono; [by apply gettoken_decides |]. intros [tok w] l2 (Hl2 & _ & Hsh & _).
  rewrite skip_ws_idem in Hsh. specialize (Hsh (Hb eq_refl)). pose proof (suffix_length _ _ Hw).
  eapply decides_mono; [apply IH; [done | by etrans | lia] |]. intros a l3 Ht. eapply taking_trans; [| done]. by trans (skip_ws l).
Qed.

(** A token that [peek] has seen is taken off. *)
Lemma taken_token l :
  l `suffix_of` line → l ≠ [] → skip_ws l = l →
  decides (gettoken es) (λ _ l', l' `suffix_of` l ∧ (length l' < length l)%nat) l.
Proof.
  intros Hs Hne Hi. eapply decides_mono; [by apply gettoken_decides |]. intros x l' (? & _ & Hsh & _).
  split; [done |]. apply Hsh. by rewrite Hi.
Qed.

(** [peek] and the token it has seen. *)
Lemma peek_token {A} toks (yes no : M (list Z) A) Q l :
  l `suffix_of` line →
  (∀ l', l' `suffix_of` l → (length l' < length l)%nat → decides yes Q l') →
  (∀ l', l' `suffix_of` l → decides no Q l') →
  decides (let! b := peek toks in if b : bool then gettoken es;; yes else no) Q l.
Proof.
  intros Hs Hy Hn. apply decides_bind. eapply decides_mono; [apply peek_decides |]. intros b l1 [-> Hb].
  pose proof (skip_ws_suffix l) as Hw. pose proof (suffix_length _ _ Hw). destruct b; [| by apply Hn].
  apply decides_bind. eapply decides_mono; [apply taken_token; [by etrans | auto | apply skip_ws_idem] |].
  intros _ l2 [Hl2 Hsh]. apply Hy; [by trans (skip_ws l) | lia].
Qed.

(** Between parentheses the line is shorter, in a pipe or a list too: the
    recursion is bounded by the length of the line. *)
Lemma parse_decides fuel :
  (∀ l, l `suffix_of` line → (4 * length l + 4 ≤ fuel)%nat → decides (parseline es fuel) (taking words_ok l) l)
  ∧ (∀ l, l `suffix_of` line → (4 * length l + 3 ≤ fuel)%nat → decides (parsepipe es fuel) (taking words_ok l) l)
  ∧ (∀ l, l `suffix_of` line → (4 * length l + 2 ≤ fuel)%nat → decides (parseexec es fuel) (taking words_ok l) l)
  ∧ (∀ l, l `suffix_of` line → (4 * length l + 1 ≤ fuel)%nat → decides (parseblock es fuel) (taking words_ok l) l).
Proof.
  induction fuel as [|fuel (IHl & IHp & IHe & IHb)]; [split_and!; intros; lia |].
  split_and!; intros l Hs Hf; cbn [parseline parsepipe parseexec parseblock].
  - apply decides_bind. eapply decides_mono; [apply IHp; [done | lia] |]. intros c l1 [Hl1 Hc].
    assert (Hs1 : l1 `suffix_of` line) by (by trans l). pose proof (suffix_length _ _ Hl1).
    apply decides_bind. eapply decides_mono; [apply backs_decides; [done | done | lia] |]. intros c' l2 [Hl2 Hc'].
    assert (Hs2 : l2 `suffix_of` line) by (by trans l1). pose proof (suffix_length _ _ Hl2).
    apply peek_token; [done | |].
    + intros l3 Hl3 Hsh. apply decides_bind. eapply decides_mono; [apply IHl; [by trans l2 | lia] |].
      intros r l4 [Hl4 Hr]. apply decides_ret. split; [| done]. trans l3; [done |]. trans l2; [done |]. by trans l1.
    + intros l3 Hl3. apply decides_ret. split; [| done]. trans l2; [done |]. by trans l1.
  - apply decides_bind. eapply decides_mono; [apply IHe; [done | lia] |]. intros c l1 [Hl1 Hc].
    assert (Hs1 : l1 `suffix_of` line) by (by trans l). pose proof (suffix_length _ _ Hl1).
    apply peek_token; [done | |].
    + intros l2 Hl2 Hsh. apply decides_bind. eapply decides_mono; [apply IHp; [by trans l1 | lia] |].
      intros r l3 [Hl3 Hr]. apply decides_ret. split; [| done]. trans l2; [done |]. by trans l1.
    + intros l2 Hl2. apply decides_ret. split; [by trans l1 | done].
  - apply decides_bind. eapply decides_mono; [apply peek_decides |]. intros b l1 [-> Hb].
    pose proof (skip_ws_suffix l) as Hw. pose proof (suffix_length _ _ Hw).
    assert (Hs1 : skip_ws l `suffix_of` line) by (by trans l). destruct b.
    { eapply decides_mono; [apply IHb; [done | lia] |]. intros c l2. by apply taking_trans. }
    apply decides_bind. eapply decides_mono; [by apply parseredirs_decides |]. intros rs l2 [Hl2 Hrs].
    assert (Hs2 : l2 `suffix_of` line) by (by trans (skip_ws l)).
    apply decides_bind. eapply decides_mono; [apply args_loop_decides; [done | lia] |]. intros [ws rs'] l3 (Hl3 & Hws & Hrs').
    apply decides_ret. split; [trans l2; [done |]; by trans (skip_ws l) |].
    apply redircmds_ok; [done | by apply Forall_app].
  - apply decides_bind. eapply decides_mono; [apply peek_decides |]. intros b l1 [-> Hb].
    pose proof (skip_ws_suffix l) as Hw. pose proof (suffix_length _ _ Hw).
    assert (Hs1 : skip_ws l `suffix_of` line) by (by trans l). destruct b; [cbn [negb] | apply decides_panic].
    apply decides_bind. eapply decides_mono; [apply taken_token; [done | auto | apply skip_ws_idem] |]. intros _ l2 [Hl2 Hsh].
    assert (Hs2 : l2 `suffix_of` line) by (by trans (skip_ws l)).
    apply decides_bind. eapply decides_mono; [apply IHl; [done | lia] |]. intros c l3 [Hl3 Hc].
    assert (Hs3 : l3 `suffix_of` line) by (by trans l2).
    apply decides_bind. eapply decides_mono; [apply peek_decides |]. intros b l4 [-> Hb3].
    pose proof (skip_ws_suffix l3) as Hw3. assert (Hs4 : skip_ws l3 `suffix_of` line) by (by trans l3).
    destruct b; [cbn [negb] | apply decides_panic].
    apply decides_bind. eapply decides_mono; [apply taken_token; [done | auto | apply skip_ws_idem] |]. intros _ l5 [Hl5 _].
    assert (Hs5 : l5 `suffix_of` line) by (by trans (skip_ws l3)).
    apply decides_bind. eapply decides_mono; [by apply parseredirs_decides |]. intros rs l6 [Hl6 Hrs].
    apply decides_ret. split; [| by apply redircmds_ok].
    trans l5; [done |]. trans (skip_ws l3); [done |]. trans l3; [done |]. trans l2; [done |]. by trans (skip_ws l).
Qed.

Lemma parse_ok :
  match parse es line with Ret c l' => l' = [] ∧ words_ok c | Panic _ => True | _ => False end.
Proof.
  enough (Hd : decides (let! c := parseline es (parse_fuel line) in peek [];; let! rest := gets id in
    if decide (rest ≠ []) then panic "syntax" else ret c) (λ c l', l' = [] ∧ words_ok c) line) by apply Hd.
  destruct (parse_decides (parse_fuel line)) as (Hl & _).
  apply decides_bind. eapply decides_mono; [apply Hl; [done | unfold parse_fuel; lia] |]. intros c l1 [_ Hc].
  apply decides_bind. eapply decides_mono; [apply peek_decides |]. intros b l2 _.
  apply decides_bind. change (decides (if decide (l2 ≠ []) then panic "syntax" else ret c) (λ c l', l' = [] ∧ words_ok c) l2).
  case_decide as Hne; [apply decides_panic |]. apply decides_ret. split; [| done]. by destruct l2.
Qed.
End Words.

(** C33: The shell's parser stops on every line: it returns a command or
    refuses the line with a message, and the fuel never runs out. *)
Theorem parsecmd_total line :
  (∃ c buf, parsecmd line = Ret (c, buf) []) ∨ (∃ msg, parsecmd line = Panic msg).
Proof.
  pose proof (parse_ok line) as Hp. unfold parsecmd. destruct (parse (length line) line) as [c l'|msg| |]; [| | done | done].
  - destruct Hp as [-> _]. left. eauto.
  - right. eauto.
Qed.

(** *** The words of a command *)
Fixpoint all_words {W} (c : cmd W) : list W :=
  match c with
  | EXEC argv => argv
  | REDIR c f _ _ => all_words c ++ [f]
  | PIPE l r => all_words l ++ all_words r
  | LIST l r => all_words l ++ all_words r
  | BACK c => all_words c
  end.

Lemma words_ok_all line c : words_ok line c ↔ Forall (word_ok line) (all_words c).
Proof. induction c; cbn; rewrite ?Forall_app, ?Forall_singleton; naive_solver. Qed.

Lemma nulterminate_all c buf :
  nulterminate c buf = foldl (λ l i, <[i := 0]> l) buf (w_eq <$> all_words c).
Proof.
  revert buf. induction c as [argv|c IH f m d|l IHl r IHr|l IHl r IHr|c IH]; intros buf; cbn [nulterminate all_words];
    rewrite ?fmap_app, ?foldl_app, <- ?IHl, <- ?IHr, <- ?IH; try done.
  revert buf. induction argv as [|w argv IH]; intros buf; [done |]. cbn. by rewrite IH.
Qed.

(** The text a word stands for. *)
Definition text (line : list Z) (w : word) : list Z := slice (w_q w) (w_eq w - w_q w) line.

Lemma parsecmd_strings line c buf rest :
  plain_text line → parsecmd line = Ret (c, buf) rest →
  Forall (λ w, cstr (drop (w_q w) buf) = text line w) (all_words c).
Proof.
  intros Hline Hp. pose proof (parse_ok line) as Hok. unfold parsecmd in Hp.
  destruct (parse (length line) line) as [c' l'| | |]; [| done..]. injection Hp as -> <- ->.
  destruct Hok as [-> Hok%words_ok_all]. apply Forall_forall. intros w Hw.
  pose proof (proj1 (Forall_forall _ _) Hok w Hw) as (Hq & Heq & Hin & Hend).
  set (buf := nulterminate c (line ++ [0])).
  assert (Hbuf : ∀ j, buf !! j = if decide (j ∈ w_eq <$> all_words c) then (λ _, 0) <$> (line ++ [0]) !! j
                                 else (line ++ [0]) !! j).
  { intros j. unfold buf. by rewrite nulterminate_all, lookup_foldl_insert. }
  assert (Hlen : length buf = S (length line)).
  { unfold buf. rewrite nulterminate_all, length_foldl_insert, length_app. cbn. lia. }
  assert (E : drop (w_q w) buf = text line w ++ 0 :: drop (S (w_eq w)) buf).
  { apply list_eq. intros j. rewrite lookup_drop. unfold text.
    assert (Ht : length (slice (w_q w) (w_eq w - w_q w) line) = (w_eq w - w_q w)%nat) by (rewrite slice_length; lia).
    destruct (decide (w_q w + j < w_eq w)%nat) as [Hj|Hj].
    - rewrite lookup_app_l, lookup_slice by lia. rewrite Hbuf, decide_False.
      + by rewrite lookup_app_l by lia.
      + intros (w' & E' & Hw')%list_elem_of_fmap. destruct (Hin (w_q w + j)%nat) as (x & Hx & Hxw); [lia |].
        pose proof (proj1 (Forall_forall _ _) Hok w' Hw') as (_ & _ & _ & Hend'). rewrite E' in Hx.
        rewrite (Hend' x Hx) in Hxw. done.
    - rewrite lookup_app_r by lia. rewrite Ht. destruct (decide (w_q w + j = w_eq w)%nat) as [Ej|Ej].
      + replace (j - (w_eq w - w_q w))%nat with 0%nat by lia. rewrite Ej, Hbuf, decide_True.
        * destruct (lookup_lt_is_Some_2 (line ++ [0]) (w_eq w)) as [x ->]; [rewrite length_app; cbn; lia | done].
        * apply list_elem_of_fmap. eauto.
      + destruct (j - (w_eq w - w_q w))%nat as [|k] eqn:Ek; [lia |]. change ((0 :: drop (S (w_eq w)) buf) !! S k) with (drop (S (w_eq w)) buf !! k). rewrite lookup_drop. f_equal. lia. }
  rewrite E. apply cstr_app. unfold text, slice. by apply Forall_take, Forall_drop.
Qed.

(** The strings of a parsed command are the words of the line: after
    [nulterminate], the C string that starts at a word of the command is
    exactly the text of that word, and no null character falls into another
    one. *)
Theorem parsecmd_words line c buf rest :
  plain_text line → parsecmd line = Ret (c, buf) rest →
  Forall (λ w, cstr (drop (w_q w) buf) = text line w) (all_words c).
Proof. apply parsecmd_strings. Qed.

Lemma parsecmd_words_witness :
  ∃ c buf, parsecmd [108; 115; 62; 111] = Ret (c, buf) [] ∧ Forall (λ w, cstr (drop (w_q w) buf) = text [108; 115; 62; 111] w) (all_words c).
Proof.
  eexists _, _. split; [reflexivity |]. eapply parsecmd_words; [repeat constructor; done | reflexivity].
Defined.
