(* ===== verification/ShPrint.v ===== *)
(** * The shell's parser undoes a printer

    [pr c k] writes a command where the grammar expects one of level [k]
    (0: between pipes, 1: a pipe, 2: before a semicolon, 3: a line), with
    parentheses where they are needed.  Parsing it gives the command back,
    so the parser is right about structure, order and redirections. *)
From S2P Require Import Prelude Params Sh ShTheorems.

Notation scmd := (cmd (list Z)).

Definition redir_sym (mode : Z) : list Z :=
  if mode =? O_RDONLY then [60] else if mode =? Z.lor O_WRONLY O_CREATE then [62; 62] else [62].
Definition pr_redir (r : list Z * Z * Z) : list Z := redir_sym r.1.2 ++ 32 :: r.1.1.
Definition pr_words (ws : list (list Z)) : list Z := concat ((λ w, 32 :: w) <$> ws).
Definition paren (b : bool) (l : list Z) : list Z := if b then [40] ++ l ++ [41] else l.

Fixpoint pr (c : scmd) (k : nat) : list Z :=
  match c with
  | EXEC argv => pr_words argv
  | REDIR c f mode fd => pr c 0 ++ pr_redir (f, mode, fd)
  | PIPE l r => paren (k <? 1)%nat (pr l 0 ++ [124] ++ pr r 1)
  | BACK c => paren (k <? 2)%nat (pr c 2 ++ [38])
  | LIST l r => paren (k <? 3)%nat (pr l 2 ++ [59] ++ pr r 3)
  end.

(** Commands that can be written: words are not empty and of word
    characters, at most nine arguments, the three kinds of redirection. *)
Definition word_text (w : list Z) : Prop := w ≠ [] ∧ Forall (λ c, is_wordch c = true) w.
Definition redir_kind (mode fd : Z) : Prop :=
  (mode = O_RDONLY ∧ fd = 0) ∨ (mode = Z.lor (Z.lor O_WRONLY O_CREATE) O_TRUNC ∧ fd = 1)
  ∨ (mode = Z.lor O_WRONLY O_CREATE ∧ fd = 1).
Fixpoint writable (c : scmd) : Prop :=
  match c with
  | EXEC argv => Forall word_text argv ∧ (length argv < MAXARGS)%nat
  | REDIR c f mode fd => writable c ∧ word_text f ∧ redir_kind mode fd
  | PIPE l r => writable l ∧ writable r
  | LIST l r => writable l ∧ writable r
  | BACK c => writable c
  end.

Fixpoint cmap {V W} (f : V → W) (c : cmd V) : cmd W :=
  match c with
  | EXEC argv => EXEC (f <$> argv)
  | REDIR c w mode fd => REDIR (cmap f c) (f w) mode fd
  | PIPE l r => PIPE (cmap f l) (cmap f r)
  | LIST l r => LIST (cmap f l) (cmap f r)
  | BACK c => BACK (cmap f c)
  end.

Lemma cmap_ext_words {V W} (f g : V → W) c : Forall (λ w, f w = g w) (all_words c) → cmap f c = cmap g c.
Proof.
  induction c as [argv|c IH w m d|l IHl r IHr|l IHl r IHr|c IH]; cbn [all_words cmap]; rewrite ?Forall_app; intros Hw.
  - f_equal. apply list_fmap_ext. intros i w Hi. by apply (Forall_lookup_1 _ _ _ _ Hw Hi).
  - destruct Hw as [Hw H1]. rewrite Forall_singleton in H1. by rewrite IH, H1.
  - destruct Hw. by rewrite IHl, IHr.
  - destruct Hw. by rewrite IHl, IHr.
  - by rewrite IH.
Qed.

(** ** Characters *)
Lemma wordch_not c x : is_wordch c = true → x ∈ whitespace ++ symbols → c ≠ x.
Proof.
  unfold is_wordch, is_ws, is_sym. intros Hc Hx ->. apply andb_true_iff in Hc as [H1 H2].
  apply negb_true_iff, bool_decide_eq_false in H1. apply negb_true_iff, bool_decide_eq_false in H2. set_solver.
Qed.

(** [l] does not start with a blank. *)
Definition at_token (l : list Z) : Prop := skip_ws l = l.
Lemma at_token_nil : at_token [].
Proof. done. Qed.
Lemma at_token_cons c l : is_ws c = false → at_token (c :: l).
Proof. intros Hc. unfold at_token. cbn. by rewrite Hc. Qed.

(** The character a list starts with is one of [cs], or there is none. *)
Definition follows (cs : list Z) (l : list Z) : Prop := match l with [] => True | c :: _ => c ∈ cs end.
Lemma follows_mono cs cs' l : cs ⊆ cs' → follows cs l → follows cs' l.
Proof. destruct l; [done |]. cbn. set_solver. Qed.
Lemma follows_at cs l : cs ⊆ symbols → follows cs l → at_token l.
Proof.
  intros Hs Hf. destruct l as [|c l]; [done |]. apply at_token_cons. cbn in Hf.
  unfold is_ws. apply bool_decide_eq_false. intros Hc. specialize (Hs c Hf). unfold symbols, whitespace in *.
  clear Hf. set_solver by lia.
Qed.

Lemma drop_while_app f p l : Forall (λ c, f c = true) p → drop_while f (p ++ l) = drop_while f l.
Proof. induction 1 as [|c p Hc _ IH]; [done |]. cbn. by rewrite Hc. Qed.
Lemma drop_while_follows cs l :
  cs ⊆ 32 :: symbols → follows cs l → drop_while is_wordch l = l.
Proof.
  intros Hs Hf. destruct l as [|c l]; [done |]. cbn in *. specialize (Hs c Hf).
  assert (is_wordch c = false) as ->; [| done]. destruct (is_wordch c) eqn:E; [| done].
  exfalso. apply (wordch_not c c E); [| done]. unfold whitespace. clear Hf E. set_solver.
Qed.

(** Blanks before a word. *)
Lemma skip_word w l : word_text w → skip_ws (w ++ l) = w ++ l.
Proof.
  intros [Hne Hw]. destruct w as [|c w]; [done |]. apply Forall_cons in Hw as [Hc _]. cbn.
  unfold is_wordch in Hc. apply andb_true_iff in Hc as [Hc _]. apply negb_true_iff in Hc. by rewrite Hc.
Qed.

Section Tokens.
Variable line : list Z.
Notation es := (length line).

(** The word [w] at the front of [l]. *)
Lemma gettoken_word l w rest :
  l `suffix_of` line → skip_ws l = w ++ rest → word_text w → follows (32 :: symbols) rest →
  wp (gettoken es) (λ x l', x.1 = 97 ∧ text line x.2 = w ∧ l' = skip_ws rest) l.
Proof.
  intros Hs E [Hne Hw] Hf. unfold wp, gettoken. rewrite E.
  assert (Ht : token (w ++ rest) = (97, rest)).
  { destruct w as [|c w]; [done |]. pose proof Hw as Hw0. apply Forall_cons in Hw as [Hc Hw]. cbn [app token].
    rewrite bool_decide_false.
    2: { intros Hin. apply (wordch_not c c Hc); [| done]. unfold whitespace, symbols. clear -Hin. set_solver. }
    rewrite (proj2 (Z.eqb_neq c 62)) by (apply (wordch_not c 62 Hc); unfold whitespace, symbols; clear; set_solver).
    f_equal. change (c :: w ++ rest) with ((c :: w) ++ rest). rewrite drop_while_app by done.
    by apply (drop_while_follows (32 :: symbols)). }
  rewrite Ht. cbn. split_and!; [done | | done]. unfold text. cbn [w_q w_eq].
  assert (Hs1 : w ++ rest `suffix_of` line).
  { rewrite <- E. trans l; [apply skip_ws_suffix | done]. }
  assert (Hs2 : rest `suffix_of` line) by (trans (w ++ rest); [by exists w | done]).
  pose proof (pos_length line _ Hs1) as P1. pose proof (pos_length line _ Hs2) as P2. rewrite length_app in P1.
  unfold slice. rewrite (suffix_drop line _ Hs1).
  replace (pos es rest - pos es (w ++ rest))%nat with (length w) by lia. by apply take_app_length.
Qed.

(** One of the special characters. *)
Lemma gettoken_sym l c rest :
  skip_ws l = c :: rest → c ∈ [124; 40; 41; 59; 38; 60] →
  wp (gettoken es) (λ x l', x.1 = c ∧ l' = skip_ws rest) l.
Proof. intros E Hc. unfold wp, gettoken. rewrite E. cbn [token]. by rewrite bool_decide_true. Qed.

Lemma wp_decides {A} (m : M (list Z) A) (P Q : A → list Z → Prop) l :
  wp m P l → decides m Q l → wp m (λ a l', P a l' ∧ Q a l') l.
Proof. unfold wp, decides. by destruct (m l). Qed.

Lemma wp_peek toks l (Q : bool → list Z → Prop) :
  Q (match skip_ws l with [] => false | c :: _ => bool_decide (c ∈ toks) end) (skip_ws l) → wp (peek toks) Q l.
Proof. done. Qed.

Definition pr_redirs (rs : list (list Z * Z * Z)) : list Z := concat (pr_redir <$> rs).
Definition rmap (rs : list (word * Z * Z)) : list (list Z * Z * Z) :=
  (λ r, (text line r.1.1, r.1.2, r.2)) <$> rs.
Definition redir_text (r : list Z * Z * Z) : Prop := word_text r.1.1 ∧ redir_kind r.1.2 r.2.

Lemma gettoken_redir l mode fd R :
  redir_kind mode fd → skip_ws l = redir_sym mode ++ 32 :: R →
  wp (gettoken es) (λ x l', (∀ f, redir_of x.1 f = [(f, mode, fd)]) ∧ l' = skip_ws R) l.
Proof. intros [[-> ->]|[[-> ->]|[-> ->]]] E; unfold wp, gettoken; by rewrite E. Qed.

Lemma redir_sym_head mode fd l :
  redir_kind mode fd → ∃ c l', redir_sym mode ++ l = c :: l' ∧ c ∈ [60; 62].
Proof. intros [[-> ->]|[[-> ->]|[-> ->]]]; cbn; eexists _, _; split; [done | set_solver | done | set_solver | done | set_solver]. Qed.

Lemma pr_redirs_follows rs rest cs :
  Forall redir_text rs → follows cs rest → [60; 62] ⊆ cs → follows cs (pr_redirs rs ++ rest).
Proof.
  intros Hrs Hf Hcs. destruct Hrs as [|[[f m] d] rs [_ Hk] _]; [done |]. unfold pr_redirs. cbn [fmap list_fmap concat].
  unfold pr_redir at 1. cbn [Datatypes.fst Datatypes.snd]. rewrite <- !app_assoc.
  destruct (redir_sym_head m d ((32 :: f) ++ concat (pr_redir <$> rs) ++ rest) Hk) as (c & l' & -> & Hc). cbn. auto.
Qed.

Lemma redirs_print rs : ∀ fuel l rest,
  Forall redir_text rs → l `suffix_of` line → skip_ws l = skip_ws (pr_redirs rs ++ rest) →
  follows (32 :: symbols) rest → (match skip_ws rest with c :: _ => c ∉ [60; 62] | [] => True end) →
  (length l < fuel)%nat →
  wp (redirs_loop es fuel) (λ x l', rmap x = rs ∧ l' = skip_ws rest) l.
Proof.
  induction rs as [|[[f mode] fd] rs IH]; intros fuel l rest Hrs Hs E Hf Hr Hlen; (destruct fuel as [|fuel]; [lia |]);
    cbn [redirs_loop]; apply wp_bind, wp_peek; rewrite E.
  - cbn [pr_redirs fmap list_fmap concat app]. destruct (skip_ws rest) as [|c rest'] eqn:Er; [done |].
    rewrite bool_decide_false by done. by apply wp_ret.
  - apply Forall_cons in Hrs as [[Hw Hk] Hrs]. cbn [Datatypes.fst Datatypes.snd] in *.
    assert (El : skip_ws (pr_redirs ((f, mode, fd) :: rs) ++ rest) = redir_sym mode ++ 32 :: f ++ pr_redirs rs ++ rest).
    { unfold pr_redirs. cbn [fmap list_fmap concat]. unfold pr_redir at 1. cbn [Datatypes.fst Datatypes.snd].
      rewrite <- !app_assoc. cbn [app]. destruct (redir_sym_head mode fd (32 :: f ++ concat (pr_redir <$> rs) ++ rest) Hk) as (c & l' & -> & Hc).
      apply at_token_cons. apply bool_decide_eq_false. unfold whitespace. clear -Hc. set_solver by lia. }
    rewrite El. destruct (redir_sym_head mode fd (32 :: f ++ pr_redirs rs ++ rest) Hk) as (c & l' & Ec & Hc).
    rewrite Ec at 1. rewrite bool_decide_true by done. pose proof (skip_ws_suffix l) as Hws. rewrite E, El in Hws.
    assert (Hs1 : redir_sym mode ++ 32 :: f ++ pr_redirs rs ++ rest `suffix_of` line) by (by trans l).
    apply wp_bind. eapply wp_mono; [apply (gettoken_redir _ mode fd (f ++ pr_redirs rs ++ rest)); [done |] |].
    { rewrite <- El. apply skip_ws_idem. }
    intros [tok w0] l2 [Htok ->]. cbn [Datatypes.fst] in Htok. rewrite skip_word by done.
    assert (Hs2 : f ++ pr_redirs rs ++ rest `suffix_of` line).
    { etrans; [| exact Hs1]. exists (redir_sym mode ++ [32]). by rewrite <- app_assoc. }
    apply wp_bind. eapply wp_mono; [eapply gettoken_word; [done | by rewrite skip_word | done |] |].
    { apply pr_redirs_follows; [done | done |]. unfold symbols. clear. set_solver. }
    intros [t w] l3 (Ht97 & Ht & ->). cbn [Datatypes.fst Datatypes.snd] in Ht97, Ht. subst t. rewrite decide_False by tauto.
    assert (Hs3 : skip_ws (pr_redirs rs ++ rest) `suffix_of` line).
    { etrans; [apply skip_ws_suffix |]. etrans; [| exact Hs2]. by exists f. }
    apply wp_bind. eapply wp_mono; [apply (IH fuel _ rest); [done | done | apply skip_ws_idem | done | done |] |].
    { pose proof (suffix_length _ _ Hws) as L1. pose proof (suffix_length _ _ (skip_ws_suffix (pr_redirs rs ++ rest))) as L2.
      rewrite length_app in L1. cbn [length] in L1. rewrite length_app in L1. lia. }
    intros x l4 [Hx ->]. apply wp_ret. split; [| done]. unfold rmap in *. rewrite fmap_app, Htok, Hx. cbn. by rewrite Ht.
Qed.

Lemma parseredirs_print rs l rest :
  Forall redir_text rs → l `suffix_of` line → skip_ws l = skip_ws (pr_redirs rs ++ rest) →
  follows (32 :: symbols) rest → (match skip_ws rest with c :: _ => c ∉ [60; 62] | [] => True end) →
  wp (parseredirs es) (λ x l', rmap x = rs ∧ l' = skip_ws rest) l.
Proof. intros. eapply redirs_print; try done. lia. Qed.

(** The characters that can follow a command between pipes. *)
Definition stops : list Z := [124; 41; 38; 59].

Lemma stops_sym cs : cs ⊆ stops → cs ⊆ symbols.
Proof. unfold stops, symbols. set_solver. Qed.

Lemma follows_stop rest : follows stops rest → skip_ws rest = rest ∧ follows (32 :: symbols) rest
  ∧ match skip_ws rest with c :: _ => c ∉ [60; 62] | [] => True end.
Proof.
  intros Hf. pose proof (follows_at _ _ (stops_sym stops ltac:(done)) Hf) as E. unfold at_token in E.
  split_and!; [done | |].
  - eapply follows_mono; [| done]. unfold stops, symbols. set_solver.
  - rewrite E. destruct rest as [|c rest]; [done |]. cbn in Hf. unfold stops in Hf. set_solver by lia.
Qed.

Lemma pr_words_follows ws rest : follows (32 :: symbols) rest → follows (32 :: symbols) (pr_words ws ++ rest).
Proof. intros Hf. destruct ws; [done |]. cbn. set_solver. Qed.

Lemma pr_words_cons w ws R :
  word_text w → skip_ws (pr_words (w :: ws) ++ R) = w ++ pr_words ws ++ R.
Proof.
  intros Hw. unfold pr_words. cbn [fmap list_fmap concat]. rewrite <- app_assoc. cbn [app].
  change (skip_ws (32 :: w ++ concat ((λ w, 32 :: w) <$> ws) ++ R)) with (skip_ws (w ++ concat ((λ w, 32 :: w) <$> ws) ++ R)).
  by apply skip_word.
Qed.

Lemma word_head w : word_text w → ∃ c w', w = c :: w' ∧ ∀ x, x ∈ whitespace ++ symbols → c ≠ x.
Proof.
  intros [Hne Hw]. destruct w as [|c w]; [done |]. apply Forall_cons in Hw as [Hc _]. exists c, w. split; [done |].
  intros x Hx. by apply wordch_not.
Qed.

Lemma args_print ws : ∀ rs fuel argc l rest,
  Forall word_text ws → Forall redir_text rs → (ws = [] → rs = []) → (argc + length ws < MAXARGS)%nat →
  l `suffix_of` line → skip_ws l = skip_ws (pr_words ws ++ pr_redirs rs ++ rest) → follows stops rest →
  (length l < fuel)%nat →
  wp (args_loop es fuel argc) (λ x l', text line <$> x.1 = ws ∧ rmap x.2 = rs ∧ l' = rest) l.
Proof.
  induction ws as [|w ws IH]; intros rs fuel argc l rest Hws Hrs Hnil Hargc Hs E Hf Hlen;
    (destruct fuel as [|fuel]; [lia |]); destruct (follows_stop _ Hf) as (Er & Hf' & Hr);
    cbn [args_loop]; apply wp_bind, wp_peek; rewrite E.
  { rewrite (Hnil eq_refl). cbn [pr_words pr_redirs fmap list_fmap concat app]. rewrite Er.
    destruct rest as [|c rest]; [| rewrite bool_decide_true by done; by apply wp_ret].
    apply wp_bind. unfold gettoken. apply wp_intro with (a := (0, Word (pos es []) (pos es []))) (s' := []); [done |].
    rewrite decide_True by done. by apply wp_ret. }
  apply Forall_cons in Hws as [Hw Hws]. rewrite pr_words_cons by done.
  set (R := pr_words ws ++ pr_redirs rs ++ rest) in *.
  pose proof (skip_ws_suffix l) as Hsk. rewrite E, pr_words_cons in Hsk by done. fold R in Hsk.
  assert (Hs1 : w ++ R `suffix_of` line) by (by trans l).
  destruct (word_head w Hw) as (c & w' & Ew & Hc). rewrite Ew at 1. cbn [app].
  rewrite bool_decide_false by (intros Hin; apply (Hc c); [unfold whitespace, symbols; clear -Hin; set_solver | done]).
  assert (HfR : follows (32 :: symbols) R).
  { apply pr_words_follows, pr_redirs_follows; [done | done |]. unfold symbols. clear. set_solver. }
  apply wp_bind. eapply wp_mono; [apply (gettoken_word _ w R); [done | by rewrite skip_word | done | done] |].
  intros [tok wd] l2 (Htok & Ht & ->). cbn [Datatypes.fst Datatypes.snd] in Htok, Ht. subst tok.
  rewrite decide_False, decide_False, decide_False by (try done; try tauto; cbn in Hargc; lia).
  assert (Hs2 : skip_ws R `suffix_of` line).
  { etrans; [apply skip_ws_suffix |]. etrans; [| exact Hs1]. by exists w. }
  assert (Hlen2 : (length (skip_ws R) < length l)%nat).
  { pose proof (suffix_length _ _ Hsk) as L1. rewrite Ew, length_app in L1. cbn in L1.
    pose proof (suffix_length _ _ (skip_ws_suffix R)). lia. }
  (** The redirections follow the last word. *)
  set (rs1 := match ws with [] => rs | _ => [] end). set (rs2 := match ws with [] => [] | _ => rs end).
  assert (Hrs12 : rs1 ++ rs2 = rs) by (unfold rs1, rs2; destruct ws; [by rewrite app_nil_r | done]).
  set (R2 := pr_words ws ++ pr_redirs rs2 ++ rest).
  assert (Hred : wp (parseredirs es) (λ x l', rmap x = rs1 ∧ l' = skip_ws R2) (skip_ws R)).
  { apply parseredirs_print; [| done | | |].
    - unfold rs1. by destruct ws.
    - rewrite skip_ws_idem. unfold R, R2, rs1, rs2. by destruct ws.
    - unfold R2, rs2. destruct ws; [done | cbn; clear; set_solver].
    - unfold R2, rs2. destruct ws as [|w2 ws]; [done |]. apply Forall_cons in Hws as [Hw2 _].
      rewrite pr_words_cons by done. destruct (word_head w2 Hw2) as (c2 & w2' & -> & Hc2). cbn.
      intros Hin. apply (Hc2 c2); [unfold whitespace, symbols; clear -Hin; set_solver | done]. }
  apply wp_bind. eapply wp_mono; [exact Hred |]. intros x l3 [Hx ->].
  assert (Hs3 : skip_ws R2 `suffix_of` line).
  { etrans; [| exact Hs2]. unfold R, R2, rs2. destruct ws; [| done].
    cbn [pr_words pr_redirs fmap list_fmap concat app]. rewrite Er.
    pose proof (pr_redirs_follows rs rest symbols Hrs) as Hfr. rewrite (follows_at symbols (pr_redirs rs ++ rest)); [| done |].
    - by exists (pr_redirs rs).
    - apply Hfr; [| unfold symbols; clear; set_solver]. eapply follows_mono; [apply stops_sym; done | done]. }
  assert (Hlen3 : (length (skip_ws R2) < length l)%nat).
  { unfold R2, R, rs2 in *. destruct ws; [| done]. cbn [pr_words pr_redirs fmap list_fmap concat app] in *. rewrite Er.
    pose proof (suffix_length _ _ Hsk) as L1. rewrite Ew, length_app in L1. cbn in L1. rewrite length_app in L1. lia. }
  apply wp_bind. eapply wp_mono; [apply (IH rs2 fuel (argc + 1)%nat _ rest) |].
  { done. }
  { unfold rs2. by destruct ws. }
  { unfold rs2. by destruct ws. }
  { cbn in Hargc. lia. }
  { done. }
  { apply skip_ws_idem. }
  { done. }
  { lia. }
  intros [xs ys] l4 (Hxs & Hys & ->). apply wp_ret. cbn [Datatypes.fst Datatypes.snd] in *. split_and!; [| | done].
  - cbn. by rewrite Ht, Hxs.
  - unfold rmap in *. by rewrite fmap_app, Hx, Hys.
Qed.

(** ** Commands, level by level *)
Notation result c rest := (λ pc l', cmap (text line) pc = c ∧ l' = rest).

Definition L0 (c : scmd) : Prop := ∀ fuel l rest,
  l `suffix_of` line → skip_ws l = skip_ws (pr c 0 ++ rest) → follows stops rest →
  (4 * length l + 2 ≤ fuel)%nat → wp (parseexec es fuel) (result c rest) l.
Definition L1 (c : scmd) : Prop := ∀ fuel l rest,
  l `suffix_of` line → skip_ws l = skip_ws (pr c 1 ++ rest) → follows [41; 38; 59] rest →
  (4 * length l + 3 ≤ fuel)%nat → wp (parsepipe es fuel) (result c rest) l.
(** [n] ampersands follow. *)
Definition L2 (c : scmd) : Prop := ∀ n fuel l rest,
  l `suffix_of` line → skip_ws l = skip_ws (pr c 2 ++ replicate n 38 ++ rest) → follows [41; 59] rest →
  (4 * length l + 3 ≤ fuel)%nat →
  wp (let! c := parsepipe es fuel in λ l, backs es (length l + 1) c l) (result (Nat.iter n BACK c) rest) l.
Definition L3 (c : scmd) : Prop := ∀ fuel l rest,
  l `suffix_of` line → skip_ws l = skip_ws (pr c 3 ++ rest) → follows [41] rest →
  (4 * length l + 4 ≤ fuel)%nat → wp (parseline es fuel) (result c rest) l.

Lemma redircmds_map c rs : cmap (text line) (redircmds c rs) = redircmds (cmap (text line) c) (rmap rs).
Proof.
  unfold redircmds. revert c. induction rs as [|[[f m] d] rs IH]; intros c; [done |]. cbn. by rewrite IH.
Qed.

Lemma pr_redircmds c rs : pr (redircmds c rs) 0 = pr c 0 ++ pr_redirs rs.
Proof.
  unfold redircmds. revert c. induction rs as [|[[f m] d] rs IH]; intros c; [cbn; by rewrite app_nil_r |].
  cbn [foldl]. rewrite IH. cbn [pr]. by rewrite <- app_assoc.
Qed.

Lemma L0_exec ws rs :
  Forall word_text ws → (length ws < MAXARGS)%nat → Forall redir_text rs → L0 (redircmds (EXEC ws) rs).
Proof.
  intros Hws Hlen Hrs fuel l rest Hs E Hf Hfuel. rewrite pr_redircmds in E. cbn [pr] in E. rewrite <- app_assoc in E.
  destruct fuel as [|fuel]; [lia |]. destruct (follows_stop _ Hf) as (Er & Hf' & Hr).
  pose proof (skip_ws_suffix l) as Hsk. assert (Hs1 : skip_ws l `suffix_of` line) by (by trans l).
  cbn [parseexec]. apply wp_bind, wp_peek.
  assert (Hno : match skip_ws l with [] => false | c :: _ => bool_decide (c ∈ [40]) end = false).
  { rewrite E. destruct ws as [|w ws].
    - cbn [pr_words fmap list_fmap concat app]. pose proof (pr_redirs_follows rs rest (60 :: 62 :: stops) Hrs) as Hfr.
      assert (Hfs : follows (60 :: 62 :: stops) (pr_redirs rs ++ rest)).
      { apply Hfr; [eapply follows_mono; [| exact Hf] |]; clear; set_solver. }
      rewrite (follows_at (60 :: 62 :: stops)); [| unfold stops, symbols; clear; set_solver | exact Hfs].
      destruct (pr_redirs rs ++ rest) as [|c r]; [done |]. apply bool_decide_eq_false.
      cbn in Hfs. unfold stops in Hfs. intros Hin. clear -Hin Hfs. set_solver by lia.
    - apply Forall_cons in Hws as [Hw _]. rewrite pr_words_cons by done. destruct (word_head w Hw) as (c & w' & -> & Hc).
      cbn. apply bool_decide_eq_false. intros Hin. apply (Hc c); [unfold whitespace, symbols; clear -Hin; set_solver | done]. }
  rewrite Hno. set (rs1 := match ws with [] => rs | _ => [] end). set (rs2 := match ws with [] => [] | _ => rs end).
  set (R2 := pr_words ws ++ pr_redirs rs2 ++ rest).
  assert (Hred : wp (parseredirs es) (λ x l', rmap x = rs1 ∧ l' = skip_ws R2) (skip_ws l)).
  { apply parseredirs_print; [unfold rs1; by destruct ws | done | | |].
    - rewrite skip_ws_idem, E. unfold R2, rs1, rs2. by destruct ws.
    - unfold R2, rs2. destruct ws; [done | cbn; clear; set_solver].
    - unfold R2, rs2. destruct ws as [|w2 ws]; [done |]. apply Forall_cons in Hws as [Hw2 _].
      rewrite pr_words_cons by done. destruct (word_head w2 Hw2) as (c2 & w2' & -> & Hc2). cbn.
      intros Hin. apply (Hc2 c2); [unfold whitespace, symbols; clear -Hin; set_solver | done]. }
  apply wp_bind. eapply wp_mono; [apply (wp_decides _ _ _ _ Hred (parseredirs_decides line (skip_ws l) Hs1)) |].
  intros x l2 [[Hx ->] [Hsuf _]]. assert (Hs2 : skip_ws R2 `suffix_of` line) by (by trans (skip_ws l)).
  apply wp_bind. eapply wp_mono.
  { apply (args_print ws rs2 (length (skip_ws R2) + 1) 0 (skip_ws R2) rest).
    - done.
    - unfold rs2. by destruct ws.
    - unfold rs2. by destruct ws.
    - cbn. lia.
    - done.
    - by rewrite skip_ws_idem.
    - done.
    - lia. }
  intros [xs ys] l3 (Hxs & Hys & ->). cbn [Datatypes.fst Datatypes.snd] in *. apply wp_ret. split; [| done].
  rewrite redircmds_map. cbn [cmap]. rewrite Hxs. f_equal. unfold rmap in *. rewrite fmap_app, Hx, Hys.
  unfold rs1, rs2. destruct ws; [by rewrite app_nil_r | done].
Qed.

Lemma suffix_tail l c R : skip_ws l = c :: R → l `suffix_of` line → R `suffix_of` line ∧ (length R < length l)%nat.
Proof.
  intros E Hs. pose proof (skip_ws_suffix l) as Hsk. rewrite E in Hsk. split.
  - trans (c :: R); [by exists [c] |]. by trans l.
  - pose proof (suffix_length _ _ Hsk) as HL. cbn in HL. lia.
Qed.

Lemma skip_suffix l R : skip_ws l = skip_ws R → l `suffix_of` line → skip_ws R `suffix_of` line ∧ (length (skip_ws R) ≤ length l)%nat.
Proof.
  intros E Hs. pose proof (skip_ws_suffix l) as Hsk. rewrite E in Hsk. split; [by trans l | by apply suffix_length].
Qed.

Lemma L0_block c rs :
  L3 c → pr c 0 = [40] ++ pr c 3 ++ [41] → Forall redir_text rs → L0 (redircmds c rs).
Proof.
  intros HL Hpr Hrs fuel l rest Hs E Hf Hfuel. rewrite pr_redircmds, Hpr, <- !app_assoc in E. cbn [app] in E.
  rewrite (at_token_cons 40) in E by done. destruct (follows_stop _ Hf) as (Er & Hf' & Hr).
  set (R := 41 :: pr_redirs rs ++ rest) in *. destruct (suffix_tail _ _ _ E Hs) as [Hs1 Hl1].
  destruct fuel as [|[|fuel]]; [lia.. |]. cbn [parseexec parseblock].
  apply wp_bind, wp_peek. rewrite E. rewrite bool_decide_true by set_solver.
  apply wp_bind, wp_peek. rewrite (at_token_cons 40) by done. rewrite bool_decide_true by set_solver. cbn [negb].
  apply wp_bind. eapply wp_mono; [apply (gettoken_sym _ 40 (pr c 3 ++ R)); [by apply at_token_cons | set_solver] |].
  intros [tok w] l2 [_ ->]. pose proof (skip_ws_suffix (pr c 3 ++ R)) as Hsk. pose proof (suffix_length _ _ Hsk).
  assert (HsR : R `suffix_of` line) by (trans (pr c 3 ++ R); [by eexists | done]).
  apply wp_bind. eapply wp_mono; [apply (HL fuel _ R); [by trans (pr c 3 ++ R) | apply skip_ws_idem | by left | lia] |].
  intros pc l3 [Hpc ->].
  apply wp_bind, wp_peek. unfold R at 1. rewrite (at_token_cons 41) by done. rewrite bool_decide_true by set_solver. cbn [negb].
  rewrite (at_token_cons 41 (pr_redirs rs ++ rest) : _ → skip_ws R = R) by done.
  apply wp_bind. eapply wp_mono; [apply (gettoken_sym _ 41 (pr_redirs rs ++ rest)); [by apply at_token_cons | set_solver] |].
  intros [tok' w'] l4 [_ ->].
  apply wp_bind. eapply wp_mono; [apply (parseredirs_print rs _ rest); [done | | apply skip_ws_idem | done | done] |].
  { trans (pr_redirs rs ++ rest); [apply skip_ws_suffix |]. trans R; [by exists [41] | done]. }
  intros x l5 [Hx ->]. apply wp_ret. rewrite Er. split; [| done]. by rewrite redircmds_map, Hpc, Hx.
Qed.

(** A command that is no pipe, where a pipe is expected. *)
Lemma L1_single c : L0 c → pr c 1 = pr c 0 → L1 c.
Proof.
  intros HL Hpr fuel l rest Hs E Hf Hfuel. rewrite Hpr in E. destruct fuel as [|fuel]; [lia |]. cbn [parsepipe].
  assert (Hf0 : follows stops rest) by (eapply follows_mono; [| done]; unfold stops; clear; set_solver).
  destruct (follows_stop _ Hf0) as (Er & _ & _).
  apply wp_bind. eapply wp_mono; [apply (HL fuel l rest); [done | done | done | lia] |]. intros pc l2 [Hpc ->].
  apply wp_bind, wp_peek. rewrite Er. destruct rest as [|x rest]; [by apply wp_ret |].
  cbn in Hf. rewrite bool_decide_false by (clear -Hf; set_solver by lia). by apply wp_ret.
Qed.

Lemma skip_keeps p R : at_token R → R `suffix_of` skip_ws (p ++ R).
Proof.
  intros HR. induction p as [|c p IH]; cbn [app]; [by rewrite HR |]. cbn. destruct (is_ws c); [exact IH |].
  by exists (c :: p).
Qed.

(** What is left when a command followed by [R] has been read. *)
Lemma rest_suffix l p R :
  skip_ws l = skip_ws (p ++ R) → l `suffix_of` line → at_token R → R `suffix_of` line ∧ (length R ≤ length l)%nat.
Proof.
  intros E Hs HR. destruct (skip_suffix _ _ E Hs) as [Hs1 Hl1]. pose proof (skip_keeps p R HR) as Hk.
  split; [by trans (skip_ws (p ++ R)) |]. pose proof (suffix_length _ _ Hk). lia.
Qed.

(** A separator that was seen is taken off. *)
Lemma separator {B} (sep : Z) toks (k : M (list Z) B) Q R :
  sep ∈ [124; 40; 41; 59; 38; 60] → sep ∈ toks → wp k Q (skip_ws R) →
  ∀ no, wp (let! b := peek toks in if b : bool then gettoken es;; k else no) Q (sep :: R).
Proof.
  intros Hsep Hin Hk no. assert (Hws : is_ws sep = false).
  { apply bool_decide_eq_false. unfold whitespace. clear -Hsep. set_solver by lia. }
  apply wp_bind, wp_peek. rewrite (at_token_cons sep) by done. rewrite bool_decide_true by done.
  apply wp_bind. eapply wp_mono; [apply (gettoken_sym _ sep R); [by apply at_token_cons | done] |]. by intros x l' [_ ->].
Qed.

Lemma no_separator {B} toks (k no : M (list Z) B) Q cs rest :
  cs ⊆ stops → follows cs rest → (∀ x, x ∈ cs → x ∉ toks) → wp no Q rest →
  wp (let! b := peek toks in if b : bool then gettoken es;; k else no) Q rest.
Proof.
  intros Hcs Hf Hno Hk. apply wp_bind, wp_peek. rewrite (follows_at cs) by (done || by apply stops_sym).
  destruct rest as [|x rest]; [done |]. cbn in Hf. by rewrite bool_decide_false by auto.
Qed.

Lemma L1_pipe a b : L0 a → L1 b → L1 (PIPE a b).
Proof.
  intros Ha Hb fuel l rest Hs E Hf Hfuel. cbn [pr paren Nat.ltb Nat.leb] in E. rewrite <- !app_assoc in E. cbn [app] in E.
  destruct fuel as [|fuel]; [lia |]. cbn [parsepipe]. set (R := pr b 1 ++ rest) in *.
  destruct (rest_suffix _ _ (124 :: R) E Hs) as [HsR HlR]; [by apply at_token_cons |]. cbn [length] in HlR.
  apply wp_bind. eapply wp_mono; [apply (Ha fuel l (124 :: R)); [done | done | unfold stops; cbn; set_solver | lia] |].
  intros pa l2 [Hpa ->]. apply separator; [set_solver.. |].
  pose proof (suffix_length _ _ (skip_ws_suffix R)).
  apply wp_bind. eapply wp_mono; [apply (Hb fuel _ rest); [| apply skip_ws_idem | done | lia] |].
  { trans R; [apply skip_ws_suffix |]. trans (124 :: R); [by exists [124] | done]. }
  intros pb l3 [Hpb ->]. apply wp_ret. split; [| done]. cbn. by rewrite Hpa, Hpb.
Qed.

Lemma backs_print n : ∀ fuel pc c rest,
  cmap (text line) pc = c → replicate n 38 ++ rest `suffix_of` line → follows [41; 59] rest → (n < fuel)%nat →
  wp (backs es fuel pc) (result (Nat.iter n BACK c) rest) (replicate n 38 ++ rest).
Proof.
  induction n as [|n IH]; intros fuel pc c rest Hpc Hs Hf Hfuel; (destruct fuel as [|fuel]; [lia |]); cbn [backs replicate app].
  - eapply no_separator; [| exact Hf | |]; [unfold stops; clear; set_solver | clear; set_solver by lia |].
    by apply wp_ret.
  - apply separator; [set_solver.. |].
    assert (E : skip_ws (replicate n 38 ++ rest) = replicate n 38 ++ rest).
    { apply (follows_at [38; 41; 59]); [unfold symbols; clear; set_solver |]. destruct n; [| cbn; set_solver].
      eapply follows_mono; [| exact Hf]. clear; set_solver. }
    rewrite E. rewrite Nat.iter_succ_r. apply IH; [cbn; by rewrite Hpc | | done | lia].
    trans (replicate (S n) 38 ++ rest); [by exists [38] | done].
Qed.

Lemma L2_single c : L1 c → pr c 2 = pr c 1 → L2 c.
Proof.
  intros HL Hpr n fuel l rest Hs E Hf Hfuel. rewrite Hpr in E.
  assert (HfR : follows [41; 38; 59] (replicate n 38 ++ rest)).
  { destruct n; [| cbn; set_solver]. eapply follows_mono; [| exact Hf]. clear; set_solver. }
  destruct (rest_suffix _ _ (replicate n 38 ++ rest) E Hs) as [HsR HlR].
  { eapply follows_at; [| exact HfR]. unfold symbols. clear; set_solver. }
  apply wp_bind. eapply wp_mono; [apply (HL fuel l (replicate n 38 ++ rest)); [done | done | done | lia] |].
  intros pc l2 [Hpc ->]. apply backs_print; [done | done | done |]. rewrite length_app, length_replicate. lia.
Qed.

Lemma L2_back c : L2 c → L2 (BACK c).
Proof.
  intros HL n fuel l rest Hs E Hf Hfuel. cbn [pr paren Nat.ltb Nat.leb] in E. rewrite <- app_assoc in E.
  rewrite <- Nat.iter_succ_r. by apply (HL (S n) fuel l rest).
Qed.

Lemma wp_assoc {A B C} (m : M (list Z) A) (k : A → M (list Z) B) (k' : B → M (list Z) C) Q l :
  wp (let! y := (let! x := m in k x) in k' y) Q l → wp (let! x := m in let! y := k x in k' y) Q l.
Proof. unfold wp, bind. by destruct (m l). Qed.

Lemma L3_single c : L2 c → pr c 3 = pr c 2 → L3 c.
Proof.
  intros HL Hpr fuel l rest Hs E Hf Hfuel. rewrite Hpr in E. destruct fuel as [|fuel]; [lia |]. cbn [parseline].
  apply wp_assoc, wp_bind. eapply wp_mono; [apply (HL 0%nat fuel l rest); [done | done | | lia] |].
  { eapply follows_mono; [| exact Hf]. clear; set_solver. }
  intros pc l2 [Hpc ->]. eapply no_separator; [| exact Hf | |]; [unfold stops; clear; set_solver | clear; set_solver by lia |].
  by apply wp_ret.
Qed.

Lemma L3_list a b : L2 a → L3 b → L3 (LIST a b).
Proof.
  intros Ha Hb fuel l rest Hs E Hf Hfuel. cbn [pr paren Nat.ltb Nat.leb] in E. rewrite <- !app_assoc in E. cbn [app] in E.
  destruct fuel as [|fuel]; [lia |]. cbn [parseline]. set (R := pr b 3 ++ rest) in *.
  destruct (rest_suffix _ _ (59 :: R) E Hs) as [HsR HlR]; [by apply at_token_cons |]. cbn [length] in HlR.
  apply wp_assoc, wp_bind. eapply wp_mono; [apply (Ha 0%nat fuel l (59 :: R)); [done | done | cbn; set_solver | lia] |].
  intros pa l2 [Hpa ->]. apply separator; [set_solver.. |].
  pose proof (suffix_length _ _ (skip_ws_suffix R)).
  apply wp_bind. eapply wp_mono; [apply (Hb fuel _ rest); [| apply skip_ws_idem | done | lia] |].
  { trans R; [apply skip_ws_suffix |]. trans (59 :: R); [by exists [59] | done]. }
  intros pb l3 [Hpb ->]. apply wp_ret. split; [| done]. cbn. by rewrite Hpa, Hpb.
Qed.

Lemma unredir c :
  writable c → ∃ b rs, c = redircmds b rs ∧ Forall redir_text rs ∧ writable b
    ∧ match b with EXEC _ => True | REDIR _ _ _ _ => False | _ => pr b 0 = [40] ++ pr b 3 ++ [41] end.
Proof.
  induction c as [argv|c IH f m d|x _ y _|x _ y _|c _]; intros Hw.
  - by exists (EXEC argv), [].
  - destruct Hw as (Hc & Hf & Hk). destruct (IH Hc) as (b & rs & -> & Hrs & Hb & Hm).
    exists b, (rs ++ [(f, m, d)]). split_and!; [| apply Forall_app_2; [done | by apply Forall_singleton] | done | done].
    unfold redircmds. by rewrite foldl_app.
  - by exists (PIPE x y), [].
  - by exists (LIST x y), [].
  - by exists (BACK c), [].
Qed.

Fixpoint csize {W} (c : cmd W) : nat :=
  match c with
  | EXEC _ => 0
  | REDIR c _ _ _ => S (csize c)
  | PIPE l r => S (csize l + csize r)
  | LIST l r => S (csize l + csize r)
  | BACK c => S (csize c)
  end.
Lemma csize_redircmds {W} (c : cmd W) rs : csize (redircmds c rs) = (csize c + length rs)%nat.
Proof.
  unfold redircmds. revert c. induction rs as [|[[f m] d] rs IH]; intros c; cbn [foldl length]; [lia |].
  rewrite IH. cbn. lia.
Qed.

Lemma levels c : writable c → L0 c ∧ L1 c ∧ L2 c ∧ L3 c.
Proof.
  induction c as [c IH] using (induction_ltof1 _ csize). unfold ltof in IH. intros Hw.
  assert (Hup : pr c 1 = pr c 0 → pr c 2 = pr c 1 → pr c 3 = pr c 2 → L0 c → L0 c ∧ L1 c ∧ L2 c ∧ L3 c).
  { intros E1 E2 E3 H0. pose proof (L1_single c H0 E1) as H1. pose proof (L2_single c H1 E2) as H2.
    split_and!; [done | done | done | by apply L3_single]. }
  assert (Hdown : pr c 0 = [40] ++ pr c 3 ++ [41] → L3 c → L0 c).
  { intros E H3. by apply (L0_block c [] H3 E). }
  destruct c as [argv|c' f m d|x y|x y|c'].
  - apply Hup; [done.. |]. destruct Hw as [Hws Hlen]. by apply (L0_exec argv []).
  - apply Hup; [done.. |]. destruct Hw as (Hc & Hf & Hk). destruct (unredir c' Hc) as (b & rs & -> & Hrs & Hb & Hm).
    change (REDIR (redircmds b rs) f m d) with (redircmds (redircmds b rs) [(f, m, d)]) in *.
    assert (E : redircmds (redircmds b rs) [(f, m, d)] = redircmds b (rs ++ [(f, m, d)])).
    { unfold redircmds. by rewrite foldl_app. }
    rewrite E in *. clear E. assert (Hrs' : Forall redir_text (rs ++ [(f, m, d)])).
    { apply Forall_app_2; [done | by apply Forall_singleton]. }
    assert (Hsz : (csize b < csize (redircmds b (rs ++ [(f, m, d)])))%nat).
    { rewrite csize_redircmds, length_app. cbn. lia. }
    destruct b as [argv|? ? ? ?|? ?|? ?|?]; [destruct Hb; by apply L0_exec | done | | |];
      (apply L0_block; [by apply IH | exact Hm | exact Hrs']).
  - destruct Hw as [Hx Hy]. destruct (IH x) as (X0 & _); [cbn; lia | done |].
    destruct (IH y) as (_ & Y1 & _); [cbn; lia | done |]. pose proof (L1_pipe x y X0 Y1) as H1.
    pose proof (L2_single (PIPE x y) H1 eq_refl) as H2. pose proof (L3_single (PIPE x y) H2 eq_refl) as H3.
    split_and!; [by apply Hdown | done..].
  - destruct Hw as [Hx Hy]. destruct (IH x) as (_ & _ & X2 & _); [cbn; lia | done |].
    destruct (IH y) as (_ & _ & _ & Y3); [cbn; lia | done |]. pose proof (L3_list x y X2 Y3) as H3.
    pose proof (Hdown eq_refl H3) as H0. pose proof (L1_single (LIST x y) H0 eq_refl) as H1.
    split_and!; [done | done | by apply L2_single | done].
  - destruct (IH c') as (_ & _ & C2 & _); [cbn; lia | done |]. pose proof (L2_back c' C2) as H2.
    pose proof (L3_single (BACK c') H2 eq_refl) as H3. pose proof (Hdown eq_refl H3) as H0.
    split_and!; [done | by apply L1_single | done | done].
Qed.
End Tokens.

Lemma parsecmd_printed c :
  writable c →
  ∃ pc buf, parsecmd (pr c 3) = Ret (pc, buf) [] ∧ cmap (text (pr c 3)) pc = c.
Proof.
  intros Hw. set (line := pr c 3). destruct (levels line c Hw) as (_ & _ & _ & H3).
  assert (Hl : wp (parseline (length line) (parse_fuel line)) (λ pc l', cmap (text line) pc = c ∧ l' = []) line).
  { apply H3; [done | unfold line; by rewrite app_nil_r | done | unfold parse_fuel; lia]. }
  apply wp_inv in Hl as (pc & ? & E & Hpc & ->). exists pc, (nulterminate pc (line ++ [0])). split; [| done].
  unfold parsecmd, parse. unfold bind at 1. by rewrite E.
Qed.

(** C4: What the shell's parser makes of a printed command is that command:
    the same arguments, redirections (in order, with their modes), pipes,
    lists and background marks. *)
Theorem parsecmd_pr c :
  writable c →
  ∃ pc buf, parsecmd (pr c 3) = Ret (pc, buf) [] ∧ cmap (text (pr c 3)) pc = c.
Proof. apply parsecmd_printed. Qed.

(** [ls -l | (a b; c) >> o &], written and parsed back. *)
Definition ls_cmd : scmd :=
  BACK (PIPE (EXEC [[108; 115]; [45; 108]])
             (REDIR (LIST (EXEC [[97]; [98]]) (EXEC [[99]])) [111] (Z.lor O_WRONLY O_CREATE) 1)).

Lemma parsecmd_pr_witness :
  writable ls_cmd ∧ ∃ pc buf, parsecmd (pr ls_cmd 3) = Ret (pc, buf) [] ∧ cmap (text (pr ls_cmd 3)) pc = ls_cmd.
Proof.
  assert (Hw : writable ls_cmd).
  { unfold ls_cmd. cbn. unfold word_text, redir_kind, MAXARGS.
    repeat split; try lia; try (repeat constructor; done); try done; right; by right. }
  split; [exact Hw | exact (parsecmd_pr ls_cmd Hw)].
Defined.
