(* ===== verification/ShLine.v ===== *)
(** * Blanks around a command line ([user/sh.c])

    The shell's parser does not see blanks before or after a command: a line
    that ends in the newline the user typed parses as the line without it.
    The proof runs the parser on both lines side by side. *)
From S2P Require Import Prelude Params Sh ShTheorems ShPrint.

Section Pad.
(** The line has [es] characters before the blanks [ws]. *)
Variable es : nat.
Variable ws : list Z.
Hypothesis Hws : Forall (λ c, is_ws c = true) ws.
Notation es' := (es + length ws)%nat.

(** What is left of the two lines: the blanks are there or already skipped. *)
Definition pad (l l' : list Z) : Prop := l' = l ++ ws ∨ (l = [] ∧ l' = []).

Lemma pad_length l l' : pad l l' → (length l ≤ length l')%nat.
Proof. intros [->|[-> ->]]; [rewrite length_app; lia | done]. Qed.

Lemma skip_blanks : skip_ws ws = [].
Proof. unfold skip_ws. rewrite <- (app_nil_r ws). by rewrite drop_while_app. Qed.

Lemma skip_app l : skip_ws (l ++ ws) = match skip_ws l with [] => [] | l1 => l1 ++ ws end.
Proof.
  induction l as [|c l IH]; cbn [app]; [apply skip_blanks |]. change (skip_ws (c :: l ++ ws)) with (if is_ws c then skip_ws (l ++ ws) else c :: l ++ ws).
  change (skip_ws (c :: l)) with (if is_ws c then skip_ws l else c :: l). by destruct (is_ws c).
Qed.

Lemma pad_skip l l' : pad l l' → skip_ws l' = match skip_ws l with [] => [] | l1 => l1 ++ ws end.
Proof. intros [->|[-> ->]]; [apply skip_app | done]. Qed.
Lemma pad_skipped l l' : pad l l' → pad (skip_ws l) (skip_ws l').
Proof. intros Hp. rewrite (pad_skip _ _ Hp). destruct (skip_ws l); [by right | by left]. Qed.

Lemma words_app l : drop_while is_wordch (l ++ ws) = drop_while is_wordch l ++ ws.
Proof.
  induction l as [|c l IH]; cbn [app drop_while]; [| by destruct (is_wordch c)].
  destruct Hws as [|c w Hc _]; [done |]. cbn. unfold is_wordch. by rewrite Hc.
Qed.

Lemma blank_not c l x : ws = c :: l → x ∉ whitespace → (c =? x) = false.
Proof.
  intros E Hx. apply Z.eqb_neq. intros ->. rewrite E in Hws. apply Forall_cons in Hws as [Hc _].
  apply Hx. by apply bool_decide_eq_true in Hc.
Qed.

Lemma token_app c l : token ((c :: l) ++ ws) = ((token (c :: l)).1, (token (c :: l)).2 ++ ws).
Proof.
  cbn [app token]. case_bool_decide as Hc; [done |]. destruct (c =? 62).
  - destruct l as [|x l]; cbn [app]; [| by destruct (x =? 62)].
    assert (Hb : ∀ y w, ws = y :: w → (y =? 62) = false) by (intros y w E; apply (blank_not y w); [done | unfold whitespace; set_solver by lia]).
    clear Hws. destruct ws as [|y w]; [done |]. by rewrite (Hb y w eq_refl).
  - change (c :: l ++ ws) with ((c :: l) ++ ws). by rewrite words_app.
Qed.

Lemma pos_app l : pos es' (l ++ ws) = pos es l.
Proof. unfold pos. rewrite length_app. lia. Qed.

(** ** The parser on both lines

    If [m] succeeds on the line without the blanks, so does [m'] with them,
    with the same result. *)
Definition sim {A} (m m' : M (list Z) A) : Prop :=
  ∀ l l' a s, pad l l' → m l = Ret a s → ∃ s', m' l' = Ret a s' ∧ pad s s'.

Lemma sim_bind {A B} (m m' : M (list Z) A) (k k' : A → M (list Z) B) :
  sim m m' → (∀ a, sim (k a) (k' a)) → sim (bind m k) (bind m' k').
Proof.
  intros Hm Hk l l' b s Hp. unfold bind. destruct (m l) as [a s1| | |] eqn:E; try done. intros E1.
  destruct (Hm _ _ _ _ Hp E) as (s1' & E' & Hp1). rewrite E'. by eapply Hk.
Qed.
Lemma sim_ret {A} (a : A) : sim (ret a) (ret a).
Proof. intros l l' b s Hp [= <- <-]. by exists l'. Qed.
Lemma sim_panic {A} msg (m' : M (list Z) A) : sim (panic msg) m'.
Proof. by intros l l' b s Hp. Qed.
Lemma sim_fuel {A} (m' : M (list Z) A) : sim (λ _, OutOfFuel) m'.
Proof. by intros l l' b s Hp. Qed.
(** A loop whose fuel is the length of what is left. *)
Lemma sim_left {A} (f f' : nat → M (list Z) A) :
  (∀ n n', (n ≤ n')%nat → sim (f n) (f' n')) → sim (λ l, f (length l + 1)%nat l) (λ l, f' (length l + 1)%nat l).
Proof. intros Hf l l' a s Hp. apply Hf; [| done]. pose proof (pad_length _ _ Hp). lia. Qed.

Lemma sim_peek toks : sim (peek toks) (peek toks).
Proof.
  intros l l' b s Hp [= <- <-]. unfold peek. exists (skip_ws l'). split; [| by apply pad_skipped].
  rewrite (pad_skip _ _ Hp). by destruct (skip_ws l).
Qed.
(** Tokens are the same; so is the place of a word. *)
Lemma sim_token {B} (k k' : Z * word → M (list Z) B) :
  (∀ t w w', (t = 97 → w = w') → sim (k (t, w)) (k' (t, w'))) → sim (bind (gettoken es) k) (bind (gettoken es') k').
Proof.
  intros Hk l l' b s Hp. unfold bind, gettoken. rewrite (pad_skip _ _ Hp). destruct (skip_ws l) as [|c l1].
  - cbn [token skip_ws drop_while]. apply Hk; [done | by right].
  - rewrite token_app. destruct (token (c :: l1)) as [t rest]. cbn [Datatypes.fst Datatypes.snd]. rewrite !pos_app.
    apply Hk; [done |]. apply pad_skipped. by left.
Qed.

Lemma sim_redirs n : ∀ n', (n ≤ n')%nat → sim (redirs_loop es n) (redirs_loop es' n').
Proof.
  induction n as [|n IH]; intros n' Hn; [apply sim_fuel |]. destruct n' as [|n']; [lia |]. cbn [redirs_loop].
  apply sim_bind; [apply sim_peek |]. intros []; [| apply sim_ret].
  apply sim_token. intros t w w' _. apply sim_token. intros t2 w2 w2' Hw. case_decide as Ht; [apply sim_panic |].
  apply sim_bind; [apply IH; lia |]. intros rs. rewrite Hw; [apply sim_ret | lia].
Qed.
Lemma sim_parseredirs : sim (parseredirs es) (parseredirs es').
Proof. apply (sim_left (redirs_loop es) (redirs_loop es')). intros. by apply sim_redirs. Qed.

Lemma sim_args n : ∀ n' argc, (n ≤ n')%nat → sim (args_loop es n argc) (args_loop es' n' argc).
Proof.
  induction n as [|n IH]; intros n' argc Hn; [apply sim_fuel |]. destruct n' as [|n']; [lia |]. cbn [args_loop].
  apply sim_bind; [apply sim_peek |]. intros []; [apply sim_ret |].
  apply sim_token. intros t w w' Hw. case_decide; [apply sim_ret |]. case_decide as Ht; [apply sim_panic |].
  case_decide; [apply sim_panic |]. apply sim_bind; [apply sim_parseredirs |]. intros rs.
  apply sim_bind; [apply IH; lia |]. intros [xs rs']. rewrite Hw; [apply sim_ret | lia].
Qed.

Lemma sim_backs n : ∀ n' c, (n ≤ n')%nat → sim (backs es n c) (backs es' n' c).
Proof.
  induction n as [|n IH]; intros n' c Hn; [apply sim_fuel |]. destruct n' as [|n']; [lia |]. cbn [backs].
  apply sim_bind; [apply sim_peek |]. intros []; [| apply sim_ret].
  apply sim_token. intros t w w' _. apply IH. lia.
Qed.

Lemma sim_parse n : ∀ n', (n ≤ n')%nat →
  sim (parseline es n) (parseline es' n') ∧ sim (parsepipe es n) (parsepipe es' n') ∧
  sim (parseexec es n) (parseexec es' n') ∧ sim (parseblock es n) (parseblock es' n').
Proof.
  induction n as [|n IH]; intros n' Hn; [split_and!; apply sim_fuel |]. destruct n' as [|n']; [lia |].
  destruct (IH n' ltac:(lia)) as (Hl & Hp & He & Hb). cbn [parseline parsepipe parseexec parseblock]. split_and!.
  - apply sim_bind; [exact Hp |]. intros c. apply sim_bind.
    { apply (sim_left (λ n, backs es n c) (λ n, backs es' n c)). intros. by apply sim_backs. }
    intros c'. apply sim_bind; [apply sim_peek |]. intros []; [| apply sim_ret].
    apply sim_token. intros t w w' _. apply sim_bind; [exact Hl |]. intros r. apply sim_ret.
  - apply sim_bind; [exact He |]. intros c. apply sim_bind; [apply sim_peek |]. intros []; [| apply sim_ret].
    apply sim_token. intros t w w' _. apply sim_bind; [exact Hp |]. intros r. apply sim_ret.
  - apply sim_bind; [apply sim_peek |]. intros []; [exact Hb |].
    apply sim_bind; [apply sim_parseredirs |]. intros rs. apply sim_bind.
    { apply (sim_left (λ n, args_loop es n 0) (λ n, args_loop es' n 0)). intros. by apply sim_args. }
    intros [xs rs']. apply sim_ret.
  - apply sim_bind; [apply sim_peek |]. intros []; cbn [negb]; [| apply sim_panic].
    apply sim_token. intros t w w' _. apply sim_bind; [exact Hl |]. intros c.
    apply sim_bind; [apply sim_peek |]. intros []; cbn [negb]; [| apply sim_panic].
    apply sim_token. intros t2 w2 w2' _. apply sim_bind; [apply sim_parseredirs |]. intros rs. apply sim_ret.
Qed.
End Pad.

(** Blanks at the end of a line. *)
Lemma parse_blanks l ws c :
  Forall (λ x, is_ws x = true) ws → parse (length l) l = Ret c [] → parse (length (l ++ ws)) (l ++ ws) = Ret c [].
Proof.
  intros Hws. unfold parse. rewrite length_app. unfold bind at 1 4.
  destruct (parseline (length l) (parse_fuel l) l) as [c1 s1| | |] eqn:E; try done.
  destruct (sim_parse (length l) ws Hws (parse_fuel l) (parse_fuel (l ++ ws))) as [Hl _]; [unfold parse_fuel; rewrite length_app; lia |].
  destruct (Hl l (l ++ ws) c1 s1) as (s' & -> & Hp); [by left | done |].
  unfold bind, peek, gets. rewrite (pad_skip _ Hws _ _ Hp). destruct (skip_ws s1); [done |]. by rewrite decide_True.
Qed.

(** A printed command, typed with any blanks or none in front of it and at
    its end. *)
Lemma parsecmd_typed c l ws :
  writable c → skip_ws l = skip_ws (pr c 3) → Forall (λ x, is_ws x = true) ws →
  ∃ pc buf, parsecmd (l ++ ws) = Ret (pc, buf) [] ∧ cmap (text (l ++ ws)) pc = c.
Proof.
  intros Hw El Hws. destruct (levels l c Hw) as (_ & _ & _ & H3).
  assert (Hl : wp (parseline (length l) (parse_fuel l)) (λ pc l', cmap (text l) pc = c ∧ l' = []) l).
  { apply H3; [done | by rewrite app_nil_r | done | unfold parse_fuel; lia]. }
  apply wp_inv in Hl as (pc & ? & E & Hpc & ->).
  assert (Ep : parse (length l) l = Ret pc []) by (unfold parse, bind at 1; by rewrite E).
  exists pc. eexists. unfold parsecmd. rewrite (parse_blanks _ _ _ Hws Ep). split; [done |].
  rewrite <- Hpc. apply cmap_ext_words. pose proof (parse_ok l) as Hok. rewrite Ep in Hok. destruct Hok as [_ Hok%words_ok_all].
  eapply Forall_impl; [exact Hok |]. intros w (Hq & Heq & _). unfold text, slice.
  rewrite drop_app_le by lia. rewrite take_app_le; [done |]. rewrite length_drop. lia.
Qed.
