(* ===== verification/Umalloc.v ===== *)
(** * The user-level allocator ([user/umalloc.c])

    A process's memory is a map of bytes below its break ([u_brk]); an access
    beyond it faults.  A [Header] is 16 bytes: the pointer to the next free
    block, the size of the block in units of 16 bytes, padding.  The free
    blocks form a ring in address order that starts at the static header
    [base].  [sbrk] answers like [sys_sbrk] does; whether the kernel has
    memory left is fixed in advance by [u_mem_left], whatever it contains. *)
From S2P Require Import Prelude.

Record ust : Type := Ust {
  u_mem : gmap Z Z; u_brk : Z; u_mem_left : list bool; u_freep : Z }.

Definition put_mem (m : gmap Z Z) (s : ust) : ust := Ust m (u_brk s) (u_mem_left s) (u_freep s).
Definition set_freep (p : Z) : M ust unit := modify (λ s, Ust (u_mem s) (u_brk s) (u_mem_left s) p).

(** ** Loads and stores *)
Definition rdbytes (m : gmap Z Z) (a : Z) (n : nat) : list Z := (λ k, m !!! (a + k)) <$> seqZ 0 (Z.of_nat n).
Fixpoint wrbytes (a : Z) (bs : list Z) (m : gmap Z Z) : gmap Z Z :=
  match bs with [] => m | b :: bs => <[a := b]> (wrbytes (a + 1) bs m) end.

Definition load (a : Z) (n : nat) : M ust Z := λ s,
  if decide (0 <= a ∧ a + Z.of_nat n <= u_brk s) then Ret (le_dec (rdbytes (u_mem s) a n)) s
  else Panic "page fault".
Definition store (a : Z) (n : nat) (v : Z) : M ust unit := λ s,
  if decide (0 <= a ∧ a + Z.of_nat n <= u_brk s) then Ret tt (put_mem (wrbytes a (le_enc n v) (u_mem s)) s)
  else Panic "page fault".

(** [p->s.ptr] and [p->s.size] *)
Definition get_ptr (p : Z) : M ust Z := load p 8.
Definition get_size (p : Z) : M ust Z := load (p + 8) 4.
Definition set_ptr (p v : Z) : M ust unit := store p 8 v.
Definition set_size (p v : Z) : M ust unit := store (p + 8) 4 v.

(** [sizeof(Header)] and pointer arithmetic on headers *)
Definition header : Z := 16.
Definition plus (p n : Z) : Z := u64 (p + header * n).

(** [PHYSTOP - KERNBASE]: no process has more memory than the machine. *)
Definition phys_mem : Z := 128 * 1024 * 1024.

(** The system call, seen from the process: [growproc] adds in 32 bits, and
    [uvmdealloc] leaves a size alone that would not shrink. *)
Definition sbrk (n : Z) : M ust Z := λ s,
  let brk := u_brk s in
  if decide (0 < n) then
    match u_mem_left s with
    | true :: more =>
        if decide (brk + n <= phys_mem) then Ret brk (Ust (u_mem s) (brk + n) more (u_freep s))
        else Ret (-1) (Ust (u_mem s) brk more (u_freep s))
    | _ => Ret (-1) (Ust (u_mem s) brk (tail (u_mem_left s)) (u_freep s))
    end
  else Ret brk (Ust (u_mem s) (Z.min brk (u32 (brk + n))) (u_mem_left s) (u_freep s)).

(** Enough for two rounds of the ring: every free block takes a header. *)
Definition ring_fuel (s : ust) : nat := (2 * Z.to_nat (u_brk s / header) + 4)%nat.

(** [for (p = freep; !(bp > p && bp < p->s.ptr); p = p->s.ptr)] of [free] *)
Fixpoint free_find (fuel : nat) (bp p : Z) : M ust Z :=
  match fuel with
  | O => λ _, OutOfFuel
  | S fuel =>
      let! q := get_ptr p in
      if (p <? bp) && (bp <? q) then ret p
      else if (q <=? p) && ((p <? bp) || (bp <? q)) then ret p
      else free_find fuel bp q
  end.

(** The two coalescing steps of [free]: make [q] the block after [p], as part
    of [p] when it starts where [p] ends. *)
Definition join (p q : Z) : M ust unit :=
  let! psize := get_size p in
  if decide (plus p psize = q) then
    let! qsize := get_size q in
    set_size p (u32 (psize + qsize));;
    let! next := get_ptr q in
    set_ptr p next
  else set_ptr p q.

Definition free (ap : Z) : M ust unit :=
  let bp := plus ap (-1) in
  let! p := gets u_freep in
  let! p := (λ s, free_find (ring_fuel s) bp p s) in
  let! next := get_ptr p in
  join bp next;;
  join p bp;;
  set_freep p.

Definition morecore (nu : Z) : M ust Z :=
  let nu := if nu <? 4096 then 4096 else nu in
  let! p := sbrk (s32 (nu * header)) in
  if decide (p = -1) then ret 0
  else
    set_size p nu;;
    free (plus p 1);;
    gets u_freep.

(** [malloc]'s use of a block that is large enough: all of it, or its end. *)
Definition take_block (nunits prevp p size : Z) : M ust Z :=
  let! p :=
    (if size =? nunits then let! q := get_ptr p in set_ptr prevp q;; ret p
     else
       set_size p (size - nunits);;
       let p := plus p (size - nunits) in
       set_size p nunits;;
       ret p) in
  set_freep prevp;;
  ret (plus p 1).

(** [for (p = prevp->s.ptr;; prevp = p, p = p->s.ptr)] of [malloc] *)
Fixpoint malloc_loop (fuel : nat) (nunits prevp p : Z) : M ust Z :=
  match fuel with
  | O => λ _, OutOfFuel
  | S fuel =>
      let! size := get_size p in
      if nunits <=? size then take_block nunits prevp p size
      else
        let! freep := gets u_freep in
        if decide (p = freep) then
          let! p := morecore nunits in
          if decide (p = 0) then ret 0
          else let! q := get_ptr p in malloc_loop fuel nunits p q
        else let! q := get_ptr p in malloc_loop fuel nunits p q
  end.

Definition units (nbytes : Z) : Z := u32 ((nbytes + header - 1) / header + 1).

Definition malloc (base nbytes : Z) : M ust Z :=
  let nunits := units nbytes in
  let! freep := gets u_freep in
  let! prevp :=
    (if decide (freep = 0) then
       set_freep base;; set_ptr base base;; set_size base 0;; ret base
     else ret freep) in
  let! p := get_ptr prevp in
  λ s, malloc_loop (ring_fuel s) nunits prevp p s.

(** ** Trying it out *)
Definition heap0 (brk : Z) (mem_left : list bool) : ust := Ust ∅ brk mem_left 0.
Definition answers {A} (r : res ust A) : option (A * Z) :=
  match r with Ret a s => Some (a, u_brk s) | _ => None end.

Example malloc_twice :
  answers ((let! p := malloc 4096 100 in let! q := malloc 4096 30 in free p;; let! r := malloc 4096 64 in
            ret (p, q, r)) (heap0 8192 [true])) =
  Some ((73616, 73568, 73664), 73728).
Proof. vm_compute. reflexivity. Qed.
