(* ===== verification/UmallocTheorems.v ===== *)
(** * The user-level allocator: theorems

    [hrep] relates the memory to a list of free blocks and a map of the live
    ones: the free list is a ring in address order with no two adjacent
    blocks, and the blocks share no byte. *)
From stdpp Require Import sorting.
From S2P Require Import Prelude Umalloc.

(** ** Memory *)
Definition hptr (m : gmap Z Z) (a : Z) : Z := le_dec (rdbytes m a 8).
Definition hsize (m : gmap Z Z) (a : Z) : Z := le_dec (rdbytes m (a + 8) 4).

Lemma lookup_wrbytes a bs m x :
  wrbytes a bs m !! x = (if decide (a <= x < a + Z.of_nat (length bs)) then bs !! Z.to_nat (x - a) else m !! x).
Proof.
  revert a. induction bs as [|b bs IH]; intros a; cbn [wrbytes length].
  - by rewrite decide_False by lia.
  - destruct (decide (x = a)) as [->|Hne].
    + rewrite lookup_insert_eq, decide_True by lia. by rewrite Z.sub_diag.
    + rewrite lookup_insert_ne, IH by done.
      destruct (decide (a + 1 <= x < a + 1 + Z.of_nat (length bs))).
      * rewrite decide_True by lia. by replace (Z.to_nat (x - a)) with (S (Z.to_nat (x - (a + 1)))) by lia.
      * by rewrite decide_False by lia.
Qed.

(** [m'] differs from [m] at most in [P]. *)
Definition only (P : Z → Prop) (m m' : gmap Z Z) : Prop := ∀ x, ¬ P x → m' !! x = m !! x.

Lemma rd_ext m m' a n :
  (∀ x, a <= x < a + Z.of_nat n → m' !! x = m !! x) → rdbytes m' a n = rdbytes m a n.
Proof.
  intros H. apply list_fmap_ext. intros i k Hk. apply lookup_seqZ in Hk as [-> Hi].
  rewrite !lookup_total_alt. by rewrite H by lia.
Qed.

Lemma rd_wr a bs m n : n = length bs → rdbytes (wrbytes a bs m) a n = bs.
Proof.
  intros ->. apply list_eq. intros i. unfold rdbytes. rewrite list_lookup_fmap.
  destruct (decide (i < length bs)%nat) as [Hi|Hi].
  - rewrite (proj2 (lookup_seqZ _ _ i (0 + Z.of_nat i))) by lia. cbn [fmap option_fmap option_map].
    rewrite lookup_total_alt, lookup_wrbytes, decide_True by lia.
    replace (Z.to_nat (a + (0 + Z.of_nat i) - a)) with i by lia.
    destruct (lookup_lt_is_Some_2 bs i Hi) as [b ->]. done.
  - rewrite lookup_ge_None_2 with (l := seqZ _ _) by (rewrite length_seqZ; lia).
    by rewrite lookup_ge_None_2 by lia.
Qed.

Lemma only_wr a n v m : only (λ x, a <= x < a + Z.of_nat n) m (wrbytes a (le_enc n v) m).
Proof. intros x Hx. by rewrite lookup_wrbytes, le_enc_length, decide_False. Qed.

(** Headers *)
Definition in_header (a x : Z) : Prop := a <= x < a + header.
Notation same_header m m' a := (∀ x, in_header a x → m' !! x = m !! x).

Lemma same_header_read m m' a : same_header m m' a → hptr m' a = hptr m a ∧ hsize m' a = hsize m a.
Proof.
  intros H. unfold in_header, header in *. unfold hptr, hsize.
  split; f_equal; apply rd_ext; intros x Hx; apply H; lia.
Qed.

Lemma hptr_store a v m : 0 <= v < 2 ^ 64 → hptr (wrbytes a (le_enc 8 v) m) a = v.
Proof. intros Hv. unfold hptr. rewrite rd_wr by (by rewrite le_enc_length). rewrite le_dec_enc. by apply Z.mod_small. Qed.

Lemma hsize_store a v m : 0 <= v < 2 ^ 32 → hsize (wrbytes (a + 8) (le_enc 4 v) m) a = v.
Proof. intros Hv. unfold hsize. rewrite rd_wr by (by rewrite le_enc_length). rewrite le_dec_enc. by apply Z.mod_small. Qed.

Lemma hsize_store_ptr a v m : hsize (wrbytes a (le_enc 8 v) m) a = hsize m a.
Proof. unfold hsize. f_equal. apply rd_ext. intros x Hx. apply only_wr. lia. Qed.

Lemma hptr_store_size a v m : hptr (wrbytes (a + 8) (le_enc 4 v) m) a = hptr m a.
Proof. unfold hptr. f_equal. apply rd_ext. intros x Hx. apply only_wr. lia. Qed.

(** ** Running loads and stores *)
Lemma wp_get_ptr p (Q : Z → ust → Prop) s :
  0 <= p → p + header <= u_brk s → Q (hptr (u_mem s) p) s → wp (get_ptr p) Q s.
Proof. intros H1 H2 H3. unfold wp, get_ptr, load, header in *. rewrite decide_True by lia. done. Qed.

Lemma wp_get_size p (Q : Z → ust → Prop) s :
  0 <= p → p + header <= u_brk s → Q (hsize (u_mem s) p) s → wp (get_size p) Q s.
Proof. intros H1 H2 H3. unfold wp, get_size, load, header in *. rewrite decide_True by lia. done. Qed.

Lemma wp_set_ptr p v (Q : unit → ust → Prop) s :
  0 <= p → p + header <= u_brk s → Q tt (put_mem (wrbytes p (le_enc 8 v) (u_mem s)) s) → wp (set_ptr p v) Q s.
Proof. intros H1 H2 H3. unfold wp, set_ptr, store, header in *. rewrite decide_True by lia. done. Qed.

Lemma wp_set_size p v (Q : unit → ust → Prop) s :
  0 <= p → p + header <= u_brk s → Q tt (put_mem (wrbytes (p + 8) (le_enc 4 v) (u_mem s)) s) → wp (set_size p v) Q s.
Proof. intros H1 H2 H3. unfold wp, set_size, store, header in *. rewrite decide_True by lia. done. Qed.

Lemma plus_small p n : 0 <= p + header * n < 2 ^ 64 → plus p n = p + header * n.
Proof. intros H. apply Z.mod_small, H. Qed.

(** ** Blocks *)
Notation block := (Z * Z)%type (only parsing).
Definition inb (b : block) (x : Z) : Prop := b.1 <= x < b.1 + header * b.2.
Definition inbs (l : list block) (x : Z) : Prop := ∃ b, b ∈ l ∧ inb b x.
Definition gap (b c : block) : Prop := b.1 + header * b.2 < c.1.

Definition head_addr (l : list block) (z : Z) : Z := match l with [] => z | b :: _ => b.1 end.
Fixpoint links (m : gmap Z Z) (l : list block) (z : Z) : Prop :=
  match l with
  | [] => True
  | b :: l => hptr m b.1 = head_addr l z ∧ hsize m b.1 = b.2 ∧ links m l z
  end.

Lemma head_addr_app l1 l2 z : head_addr (l1 ++ l2) z = head_addr l1 (head_addr l2 z).
Proof. by destruct l1. Qed.

Lemma links_app m l1 l2 z : links m (l1 ++ l2) z ↔ links m l1 (head_addr l2 z) ∧ links m l2 z.
Proof. induction l1 as [|b l1 IH]; cbn; [tauto |]. rewrite IH, head_addr_app. tauto. Qed.

Lemma links_only m m' l z : (∀ b, b ∈ l → same_header m m' b.1) → links m l z → links m' l z.
Proof.
  induction l as [|b l IH]; [done |]. intros H (Hp & Hs & Hc).
  destruct (same_header_read m m' b.1) as [E1 E2]; [apply H; left |]. cbn. rewrite E1, E2.
  split_and!; [done | done |]. apply IH; [| done]. intros c Hcl. apply H. by right.
Qed.

Lemma inbs_cons b l x : inbs (b :: l) x ↔ inb b x ∨ inbs l x.
Proof. unfold inbs. setoid_rewrite elem_of_cons. naive_solver. Qed.

Lemma inbs_app l1 l2 x : inbs (l1 ++ l2) x ↔ inbs l1 x ∨ inbs l2 x.
Proof. unfold inbs. setoid_rewrite elem_of_app. naive_solver. Qed.

(** Blocks of positive size that share no byte are apart. *)
Lemma apart (a b : block) :
  1 <= a.2 → 1 <= b.2 → (∀ x, inb a x → inb b x → False) →
  a.1 + header * a.2 <= b.1 ∨ b.1 + header * b.2 <= a.1.
Proof. unfold inb, header. intros Ha Hb H. specialize (H (Z.max a.1 b.1)). lia. Qed.

(** ** Coalescing *)
Inductive joined (x n : Z) (l : list block) : Z → list block → Prop :=
| Apart : head_addr l (x + header * n + 1) ≠ x + header * n → joined x n l n l
| Merged k l' : l = (x + header * n, k) :: l' → joined x n l (n + k) l'.

Definition room (hi : Z) (b : block) : Prop := 0 <= b.1 ∧ 0 <= b.2 ∧ b.1 + header * Z.max 1 b.2 <= hi.

Ltac hdr := unfold in_header, inb, room in *; unfold header in *; cbn [fst snd u_brk put_mem] in *; lia.

Lemma head_addr_range hi l z :
  (∀ b, b ∈ l → room hi b) → hi <= 2 ^ 31 → 0 <= z <= hi → 0 <= head_addr l z < 2 ^ 64.
Proof. destruct l as [|b l]; cbn [head_addr]; [lia |]. intros H ? ?. specialize (H b ltac:(left)). hdr. Qed.

Lemma join_spec x n l z s :
  room (u_brk s) (x, n) → u_brk s <= 2 ^ 31 → hsize (u_mem s) x = n → links (u_mem s) l z →
  (∀ b, b ∈ l → room (u_brk s) b ∧ x + header <= b.1) → 0 <= z <= x →
  (l = [] → x + header * n ≠ z) →
  wp (join x (head_addr l z)) (λ _ s', ∃ m' n' l', s' = put_mem m' s ∧ joined x n l n' l' ∧
        links m' ((x, n') :: l') z ∧ only (in_header x) (u_mem s) m') s.
Proof.
  intros Hx Hbrk Hn Hc Hl Hz Hnil. unfold join.
  wp_steps. apply wp_get_size; [hdr.. |]. rewrite Hn, plus_small by hdr.
  pose proof (head_addr_range (u_brk s) l z) as Hhd.
  case_decide as Hd.
  - destruct l as [|[q k] l]; [naive_solver |]. cbn [head_addr fst] in *. destruct Hc as (Hc1 & Hc2 & Hc3).
    destruct (Hl (q, k)) as [Hq Hxq]; [by left |]. cbn [fst snd] in *.
    wp_steps. apply wp_get_size; [hdr.. |]. wp_steps.
    apply wp_set_size; [hdr.. |]. wp_steps.
    rewrite Hc2, u32_small by hdr.
    set (m1 := wrbytes (x + 8) (le_enc 4 (n + k)) (u_mem s)).
    assert (Ho1 : only (in_header x) (u_mem s) m1) by (intros y Hy; apply only_wr; hdr).
    apply wp_get_ptr; [hdr.. |]. apply wp_set_ptr; [hdr.. |]. cbn [u_mem put_mem]. fold m1.
    destruct (same_header_read (u_mem s) m1 q) as [-> E2]; [intros y Hy; apply Ho1; hdr |]. rewrite Hc1.
    assert (Hv : 0 <= head_addr l z < 2 ^ 64).
    { apply (head_addr_range (u_brk s)); [| done | hdr]. intros b Hb. apply Hl. by right. }
    exists (wrbytes x (le_enc 8 (head_addr l z)) m1), (n + k), l.
    assert (Ho2 : only (in_header x) (u_mem s) (wrbytes x (le_enc 8 (head_addr l z)) m1)).
    { intros y Hy. rewrite <- Ho1 by done. apply only_wr. hdr. }
    split_and!; [done | constructor; by rewrite Hd | | done].
    cbn [links fst snd]. split_and!; [by rewrite hptr_store | |].
    + rewrite hsize_store_ptr. unfold m1. apply hsize_store. hdr.
    + eapply links_only; [| exact Hc3]. intros b Hb y Hy. apply Ho2.
      destruct (Hl b) as [? ?]; [by right |]. hdr.
  - apply wp_set_ptr; [hdr.. |].
    assert (Ho : only (in_header x) (u_mem s) (wrbytes x (le_enc 8 (head_addr l z)) (u_mem s))).
    { intros y Hy. apply only_wr. hdr. }
    eexists _, n, l. split_and!; [done | | | exact Ho].
    + constructor. destruct l; cbn in *; [lia | done].
    + cbn [links fst snd]. rewrite hsize_store_ptr. split_and!; [| done |].
      * apply hptr_store, Hhd; [| done | hdr]. intros b Hb. by apply Hl.
      * eapply links_only; [| exact Hc]. intros b Hb y Hy. apply Ho. destruct (Hl b Hb) as [? ?]. hdr.
Qed.

(** What coalescing does to the list of blocks. *)
Lemma joined_sub x n l n' l' b : joined x n l n' l' → b ∈ l' → b ∈ l.
Proof. intros [|k l'' ->]; [done | by right]. Qed.

Lemma joined_cover x n l n' l' z :
  joined x n l n' l' → 0 <= n → (∀ b, b ∈ l → 0 <= b.2) → inbs ((x, n') :: l') z ↔ inbs ((x, n) :: l) z.
Proof.
  intros [|k l'' ->] Hn Hl; [done |]. rewrite !inbs_cons.
  specialize (Hl (x + header * n, k) ltac:(left)). cbn in Hl.
  enough (inb (x, n + k) z ↔ inb (x, n) z ∨ inb (x + header * n, k) z) by tauto. hdr.
Qed.

Lemma joined_sorted x n l n' l' :
  joined x n l n' l' → (∀ b, b ∈ l → 0 <= b.2) → (∀ b, b ∈ l → x + header * n <= b.1) → StronglySorted gap l →
  StronglySorted gap ((x, n') :: l').
Proof.
  intros [Hne|k l'' ->] Hpos Hle Hs.
  - constructor; [done |]. rewrite Forall_forall. intros b Hb. unfold gap. cbn [fst snd].
    destruct l as [|c l0]; [by apply elem_of_nil in Hb |]. cbn in Hne. apply StronglySorted_inv in Hs as [_ Hs].
    pose proof (Hle c ltac:(left)). pose proof (Hpos c ltac:(left)).
    apply elem_of_cons in Hb as [->|Hb]; [lia |].
    rewrite Forall_forall in Hs. specialize (Hs b Hb). unfold gap in Hs. hdr.
  - apply StronglySorted_inv in Hs as [Hs Hf]. constructor; [done |]. eapply Forall_impl; [exact Hf |].
    intros b. unfold gap. hdr.
Qed.

Lemma joined_room x n l n' l' hi :
  joined x n l n' l' → room hi (x, n) → (∀ b, b ∈ l → room hi b) → room hi (x, n').
Proof.
  intros [|k l'' ->] Hx Hl; [done |]. specialize (Hl (x + header * n, k) ltac:(left)). hdr.
Qed.

Lemma joined_length x n l n' l' : joined x n l n' l' → (length l' <= length l)%nat.
Proof. intros [|k l'' ->]; cbn; lia. Qed.

Lemma joined_le x n l n' l' : joined x n l n' l' → (∀ b, b ∈ l → 0 <= b.2) → n <= n'.
Proof. intros [|k l'' ->] Hl; [lia |]. specialize (Hl (x + header * n, k) ltac:(left)). hdr. Qed.

(** ** The heap *)
Section Heap.
Context (base : Z).

Definition ok_block (hi : Z) (b : block) : Prop := base + header <= b.1 ∧ 1 <= b.2 ∧ b.1 + header * b.2 <= hi.

Record ring_ok (fs : list block) (s : ust) : Prop := RingOk {
  r_links : links (u_mem s) ((base, 0) :: fs) base;
  r_sorted : StronglySorted gap fs;
  r_blocks : ∀ b, b ∈ fs → ok_block (u_brk s) b;
  r_freep : ∃ n, (u_freep s, n) ∈ (base, 0) :: fs;
  r_base : 0 < base ∧ base + header <= u_brk s;
  r_brk : u_brk s <= 2 ^ 31 }.

Lemma ring_room fs s b : ring_ok fs s → b ∈ (base, 0) :: fs → room (u_brk s) b.
Proof.
  intros R Hb. destruct (r_base fs s R). apply elem_of_cons in Hb as [->|Hb]; [hdr |].
  pose proof (r_blocks fs s R b Hb) as Hok. unfold ok_block in Hok. hdr.
Qed.

(** The ring as a sorted list, its static header included. *)
Lemma ring_sorted fs s : ring_ok fs s → StronglySorted gap ((base, 0) :: fs).
Proof.
  intros R. constructor; [apply (r_sorted fs s R) |]. rewrite Forall_forall. intros b Hb.
  pose proof (r_blocks fs s R b Hb) as Hok. unfold ok_block, gap in *. hdr.
Qed.

(** [free] finds the last block of the ring below the one it frees. *)
Lemma free_find_up fuel bp l1 p l2 s :
  links (u_mem s) (l1 ++ p :: l2) base → (∀ b, b ∈ l1 ++ p :: l2 → room (u_brk s) b) →
  StronglySorted gap (l1 ++ p :: l2) → base <= p.1 → (∀ b, b ∈ l2 → b.1 ≠ bp) →
  p.1 < bp → (length l2 < fuel)%nat →
  wp (free_find fuel bp p.1) (λ q s', s' = s ∧ ∃ k1 n k2, l1 ++ p :: l2 = k1 ++ (q, n) :: k2 ∧ q < bp ∧
        ∀ b, b ∈ k2 → bp < b.1) s.
Proof.
  revert fuel l1 p. induction l2 as [|q l2 IH]; intros fuel l1 p Hc Hr Hs Hb Hne Hp Hf;
    (destruct fuel as [|fuel]; [cbn in Hf; lia |]); cbn [free_find]; wp_steps.
  - pose proof (Hr p ltac:(set_solver)). apply wp_get_ptr; [hdr.. |].
    apply links_app in Hc as [_ (Hc & _)]. cbn in Hc. rewrite Hc.
    rewrite (proj2 (Z.ltb_lt p.1 bp)), (proj2 (Z.ltb_ge bp base)), (proj2 (Z.leb_le base p.1)) by lia.
    cbn. split; [done |]. exists l1, p.2, []. destruct p. split_and!; [done | done | set_solver].
  - pose proof (Hr p ltac:(set_solver)). apply wp_get_ptr; [hdr.. |].
    pose proof Hc as Hc'. apply links_app in Hc' as [_ (Hc' & _)]. cbn in Hc'. rewrite Hc'.
    pose proof Hs as Hs'. apply StronglySorted_app in Hs' as (_ & _ & Hs').
    apply StronglySorted_inv in Hs' as [Hs' Hpq]. apply Forall_cons in Hpq as [Hpq _].
    apply StronglySorted_inv in Hs' as [_ Hq]. rewrite Forall_forall in Hq.
    pose proof (Hne q ltac:(left)). pose proof (Hr q ltac:(set_solver)).
    rewrite (proj2 (Z.ltb_lt p.1 bp)) by done. unfold gap in *. destruct (bp <? q.1) eqn:E.
    + cbn. split; [done |]. exists l1, p.2, (q :: l2). destruct p. split_and!; [done | done |].
      intros b [->|Hbl]%elem_of_cons; [lia |]. specialize (Hq b Hbl). hdr.
    + rewrite (proj2 (Z.leb_gt q.1 p.1)) by hdr. cbn [andb].
      replace (l1 ++ p :: q :: l2) with ((l1 ++ [p]) ++ q :: l2) in * by (by rewrite <- app_assoc).
      apply IH; [done | done | done | hdr | set_solver | hdr |]. cbn in Hf. lia.
Qed.

Lemma free_find_down fuel bp fs l1 p l2 s :
  ring_ok fs s → (base, 0) :: fs = l1 ++ p :: l2 → (∀ b, b ∈ fs → b.1 ≠ bp) → base < bp < p.1 →
  (length l2 + length fs + 1 < fuel)%nat →
  wp (free_find fuel bp p.1) (λ q s', s' = s ∧ ∃ k1 n k2, (base, 0) :: fs = k1 ++ (q, n) :: k2 ∧ q < bp ∧
        ∀ b, b ∈ k2 → bp < b.1) s.
Proof.
  intros R. revert fuel l1 p. induction l2 as [|q l2 IH]; intros fuel l1 p E Hne Hp Hf;
    (destruct fuel as [|fuel]; [cbn in Hf; lia |]); cbn [free_find]; wp_steps.
  all: pose proof (ring_room fs s p R ltac:(rewrite E; set_solver)) as Hr.
  all: pose proof (r_links fs s R) as Hc; rewrite E in Hc; pose proof Hc as Hc'; apply links_app in Hc' as [_ (Hc' & _)].
  all: apply wp_get_ptr; [hdr.. |]; rewrite Hc'; cbn [head_addr].
  all: rewrite (proj2 (Z.ltb_ge p.1 bp)) by lia; cbn [andb orb].
  - rewrite (proj2 (Z.ltb_ge bp base)), andb_false_r by lia.
    apply (free_find_up fuel bp [] (base, 0) fs); cbn [app fst]; [apply (r_links fs s R) | | by eapply ring_sorted | lia | done | lia |].
    + intros b Hb. by eapply ring_room.
    + cbn in Hf. lia.
  - pose proof (ring_sorted fs s R) as Hs. rewrite E in Hs. apply StronglySorted_app in Hs as (_ & _ & Hs).
    apply StronglySorted_inv in Hs as [_ Hpq]. apply Forall_cons in Hpq as [Hpq _]. unfold gap in Hpq.
    rewrite (proj2 (Z.leb_gt q.1 p.1)) by hdr. cbn [andb].
    apply (IH fuel (l1 ++ [p])); [by rewrite <- app_assoc | done | hdr |]. cbn in Hf. lia.
Qed.

Lemma blocks_length l lo hi :
  StronglySorted gap l → (∀ b, b ∈ l → lo <= b.1 ∧ 1 <= b.2 ∧ b.1 + header * b.2 <= hi) → lo <= hi →
  header * Z.of_nat (length l) <= hi - lo.
Proof.
  revert lo. induction l as [|b l IH]; intros lo Hs Hl Hlo; [cbn; lia |].
  apply StronglySorted_inv in Hs as [Hs Hb]. rewrite Forall_forall in Hb.
  destruct (Hl b ltac:(left)) as (H1 & H2 & H3).
  enough (header * Z.of_nat (length l) <= hi - (b.1 + header)) by (cbn [length]; hdr).
  apply IH; [done | | hdr]. intros c Hcl. destruct (Hl c ltac:(by right)) as (? & ? & ?).
  specialize (Hb c Hcl). unfold gap in Hb. split_and!; [hdr | done | done].
Qed.

Lemma ring_length fs s : ring_ok fs s → (2 * length fs + 4 <= ring_fuel s)%nat.
Proof.
  intros R. destruct (r_base fs s R) as [Hb1 Hb2].
  pose proof (blocks_length fs (base + header) (u_brk s) (r_sorted fs s R) (r_blocks fs s R) ltac:(lia)) as Hl.
  assert (Z.of_nat (length fs) <= u_brk s / header) by (apply Z.div_le_lower_bound; unfold header in *; lia).
  unfold ring_fuel. lia.
Qed.

Lemma free_find_spec bp fs s :
  ring_ok fs s → base < bp → (∀ b, b ∈ fs → b.1 ≠ bp) →
  wp (free_find (ring_fuel s) bp (u_freep s)) (λ q s', s' = s ∧ ∃ k1 n k2, (base, 0) :: fs = k1 ++ (q, n) :: k2 ∧ q < bp ∧
        ∀ b, b ∈ k2 → bp < b.1) s.
Proof.
  intros R Hb Hne. pose proof (ring_length fs s R) as Hf. destruct (r_freep fs s R) as [n Hin].
  apply list_elem_of_split in Hin as (l1 & l2 & E).
  assert (Hl2 : (length l2 <= length fs)%nat).
  { apply (f_equal length) in E. rewrite length_app in E. cbn in E. lia. }
  destruct (decide (u_freep s < bp)) as [Hlt|Hge].
  - rewrite E. apply (free_find_up _ _ l1 (u_freep s, n) l2); cbn [fst].
    + rewrite <- E. apply (r_links fs s R).
    + intros b Hbl. rewrite <- E in Hbl. by eapply ring_room.
    + rewrite <- E. by eapply ring_sorted.
    + pose proof (ring_sorted fs s R) as Hs. destruct l1 as [|b l1]; simplify_eq/=; [lia |].
      pose proof (r_blocks _ s R (u_freep s, n) ltac:(set_solver)) as Hok. unfold ok_block in Hok. hdr.
    + intros b Hbl. destruct l1; simplify_eq; apply Hne; set_solver.
    + done.
    + lia.
  - apply (free_find_down _ bp fs l1 (u_freep s, n) l2); cbn [fst]; [done | done | done | | lia].
    split; [done |]. destruct l1 as [|b l1]; simplify_eq/=; [lia |].
    specialize (Hne (u_freep s, n) ltac:(set_solver)). cbn in Hne. lia.
Qed.

(** A list that starts at [base] and is sorted, chained and in bounds is a
    ring. *)
Lemma inbs_base fs x : inbs ((base, 0) :: fs) x ↔ inbs fs x.
Proof. rewrite inbs_cons. enough (¬ inb (base, 0) x) by tauto. hdr. Qed.

Lemma ring_intro fs s :
  links (u_mem s) ((base, 0) :: fs) base → StronglySorted gap ((base, 0) :: fs) →
  (∀ b, b ∈ (base, 0) :: fs → b = (base, 0) ∨ ok_block (u_brk s) b) →
  (∃ n, (u_freep s, n) ∈ (base, 0) :: fs) → 0 < base → base + header <= u_brk s → u_brk s <= 2 ^ 31 → ring_ok fs s.
Proof.
  intros Hc Hs Hb Hf ? ? ?. apply StronglySorted_inv in Hs as [Hs Hg]. rewrite Forall_forall in Hg.
  split; try done. intros b Hbf. destruct (Hb b ltac:(by right)) as [->|]; [| done].
  specialize (Hg _ Hbf). unfold gap in Hg. hdr.
Qed.

(** The ring around the place where [free] puts a block. *)
Record cut (fs k1 : list block) (p np : Z) (k2 : list block) (bp n : Z) (s : ust) : Prop := Cut {
  c_eq : (base, 0) :: fs = k1 ++ (p, np) :: k2;
  c_ok : ok_block (u_brk s) (bp, n);
  c_size : hsize (u_mem s) bp = n;
  c_below : base <= p ∧ p + header * Z.max 1 np <= bp;
  c_above : ∀ b, b ∈ k2 → bp + header * n <= b.1 }.

Lemma cut_intro fs k1 p np k2 bp n s :
  ring_ok fs s → ok_block (u_brk s) (bp, n) → hsize (u_mem s) bp = n →
  (∀ x, inbs fs x → inb (bp, n) x → False) →
  (base, 0) :: fs = k1 ++ (p, np) :: k2 → p < bp → (∀ b, b ∈ k2 → bp < b.1) → cut fs k1 p np k2 bp n s.
Proof.
  intros R Hok Hn Hsep E Hp Hk2.
  assert (Hap : ∀ b, b ∈ fs → b.1 + header * b.2 <= bp ∨ bp + header * n <= b.1).
  { intros b Hb. destruct (r_blocks fs s R b Hb) as (_ & ? & _). destruct Hok as (_ & ? & _).
    apply (apart b (bp, n)); [done | done |]. intros x Hx Hx'. apply (Hsep x); [by exists b | done]. }
  assert (Hin : (p, np) = (base, 0) ∨ (p, np) ∈ fs) by (apply elem_of_cons; rewrite E; set_solver).
  split; [done | done | done | |].
  - destruct Hin as [[= -> ->]|Hin]; [unfold ok_block in Hok; hdr |].
    destruct (r_blocks fs s R _ Hin) as (? & ? & ?). destruct (Hap _ Hin); destruct Hok; hdr.
  - intros b Hb. assert (Hbf : b ∈ fs) by (destruct k1; simplify_eq; set_solver).
    pose proof (Hk2 b Hb). destruct (r_blocks fs s R b Hbf) as (? & ? & ?).
    destruct (Hap b Hbf); [hdr | done].
Qed.

(** The list after both coalescing steps. *)
Section Inserted.
Context {fs k1 : list block} {p np : Z} {k2 : list block} {bp n : Z} {s : ust}.
Context (R : ring_ok fs s) (C : cut fs k1 p np k2 bp n s).

Lemma ins_k1 b : b ∈ k1 → gap b (p, np) ∧ 0 <= b.2 ∧ base <= b.1.
Proof.
  intros Hb. pose proof (ring_sorted fs s R) as Hs. pose proof (ring_room fs s b R) as Hr. rewrite (c_eq _ _ _ _ _ _ _ _ C) in *.
  apply StronglySorted_app in Hs as (Hs & _ & _). split; [apply Hs; set_solver |].
  specialize (Hr ltac:(set_solver)). destruct k1 as [|c l1]; [set_solver |].
  pose proof (c_eq _ _ _ _ _ _ _ _ C) as E. simplify_eq/=. apply elem_of_cons in Hb as [->|Hb]; cbn; [lia |].
  destruct (r_blocks _ s R b) as (? & ? & ?); [set_solver |]. hdr.
Qed.

Lemma ins_k2 b : b ∈ k2 → ok_block (u_brk s) b.
Proof.
  intros Hb. apply (r_blocks fs s R). pose proof (c_eq _ _ _ _ _ _ _ _ C) as E. destruct k1; simplify_eq/=; set_solver.
Qed.

Lemma ins_sorted_k2 : StronglySorted gap k2.
Proof.
  pose proof (ring_sorted fs s R) as Hs. rewrite (c_eq _ _ _ _ _ _ _ _ C) in Hs.
  apply StronglySorted_app in Hs as (_ & _ & Hs). by apply StronglySorted_inv in Hs as [Hs _].
Qed.

Lemma ins_p : (p, np) = (base, 0) ∨ ok_block (u_brk s) (p, np).
Proof.
  pose proof (c_eq _ _ _ _ _ _ _ _ C) as E. destruct k1; simplify_eq/=; [by left | right].
  apply (r_blocks _ s R). set_solver.
Qed.

Context {n1 : Z} {k2' : list block} (J1 : joined bp n k2 n1 k2').

(** The blocks after the insertion point, [bp] included. *)
Lemma ins_J1 b : b ∈ (bp, n1) :: k2' → ok_block (u_brk s) b ∧ p + header * Z.max 1 np <= b.1.
Proof.
  pose proof (c_ok _ _ _ _ _ _ _ _ C) as Hok. destruct (c_below _ _ _ _ _ _ _ _ C) as [? ?]. destruct (r_base fs s R).
  intros [->|Hb]%elem_of_cons; cbn [fst].
  - split; [| done]. unfold ok_block in *. cbn [fst snd] in *.
    pose proof (joined_room _ _ _ _ _ (u_brk s) J1) as Hr. pose proof (joined_le _ _ _ _ _ J1) as Hle.
    assert (∀ b, b ∈ k2 → room (u_brk s) b) as Hk2 by (intros b Hb; pose proof (ins_k2 b Hb); unfold ok_block in *; hdr).
    specialize (Hr ltac:(hdr) Hk2). specialize (Hle ltac:(intros b Hb; by apply Hk2)). hdr.
  - apply (joined_sub _ _ _ _ _ b J1) in Hb. split; [by apply ins_k2 |].
    pose proof (c_above _ _ _ _ _ _ _ _ C b Hb). unfold ok_block in *. hdr.
Qed.

Context {n2 : Z} {k2'' : list block} (J2 : joined p np ((bp, n1) :: k2') n2 k2'').

Lemma ins_sorted : StronglySorted gap (k1 ++ (p, n2) :: k2'').
Proof.
  destruct (c_below _ _ _ _ _ _ _ _ C) as [? ?].
  apply StronglySorted_app. split_and!.
  - intros b c Hb Hc. destruct (ins_k1 b Hb) as (Hg & ? & ?). unfold gap in *. cbn [fst snd] in *.
    apply elem_of_cons in Hc as [->|Hc]; cbn; [lia |].
    destruct (ins_J1 c) as [_ ?]; [by apply (joined_sub _ _ _ _ _ c J2) |]. hdr.
  - pose proof (ring_sorted fs s R) as Hs. rewrite (c_eq _ _ _ _ _ _ _ _ C) in Hs. by apply StronglySorted_app in Hs as (_ & Hs & _).
  - apply (joined_sorted _ _ _ _ _ J2).
    + intros b Hb. destruct (ins_J1 b Hb) as [(? & ? & ?) _]. lia.
    + intros b Hb. destruct (ins_J1 b Hb) as [_ ?]. hdr.
    + apply (joined_sorted _ _ _ _ _ J1); [| by apply (c_above _ _ _ _ _ _ _ _ C) | apply ins_sorted_k2].
      intros b Hb. destruct (ins_k2 b Hb) as (? & ? & ?). lia.
Qed.

Lemma ins_blocks b : b ∈ k1 ++ (p, n2) :: k2'' → b = (base, 0) ∨ ok_block (u_brk s) b.
Proof.
  intros [Hb|[->|Hb]%elem_of_cons]%elem_of_app.
  - assert (Hin : b ∈ (base, 0) :: fs) by (rewrite (c_eq _ _ _ _ _ _ _ _ C); set_solver).
    apply elem_of_cons in Hin as [->|Hin]; [by left | right; by apply (r_blocks fs s R)].
  - destruct ins_p as [[= -> ->]|Hp].
    + inversion J2 as [|k l' E]; subst; [by left |]. simplify_eq.
      pose proof (c_ok _ _ _ _ _ _ _ _ C) as Hok. unfold ok_block in Hok. hdr.
    + right. assert (∀ b, b ∈ (bp, n1) :: k2' → room (u_brk s) b) as Hr.
      { intros b Hb. destruct (ins_J1 b Hb) as [? _]. destruct (r_base fs s R). unfold ok_block in *. hdr. }
      pose proof (joined_room _ _ _ _ _ (u_brk s) J2) as Hr2. pose proof (joined_le _ _ _ _ _ J2) as Hle.
      destruct (r_base fs s R). unfold ok_block in *.
      specialize (Hr2 ltac:(hdr) Hr). specialize (Hle ltac:(intros b Hb; by apply Hr)). hdr.
  - right. by apply ins_J1, (joined_sub _ _ _ _ _ b J2).
Qed.

Lemma ins_cover x : inbs (k1 ++ (p, n2) :: k2'') x ↔ inbs fs x ∨ inb (bp, n) x.
Proof.
  rewrite <- (inbs_base fs x), (c_eq _ _ _ _ _ _ _ _ C), !inbs_app.
  rewrite (joined_cover _ _ _ _ _ x J2); [| | intros b Hb; destruct (ins_J1 b Hb) as [(? & ? & ?) _]; lia].
  - rewrite !(inbs_cons (p, np)), (joined_cover _ _ _ _ _ x J1).
    + rewrite inbs_cons. tauto.
    + pose proof (c_ok _ _ _ _ _ _ _ _ C) as Hok. unfold ok_block in Hok. hdr.
    + intros b Hb. destruct (ins_k2 b Hb) as (? & ? & ?). lia.
  - destruct ins_p as [[= -> ->]|Hp]; [done |]. unfold ok_block in Hp. hdr.
Qed.

Lemma ins_big : ∃ b, b ∈ k1 ++ (p, n2) :: k2'' ∧ n <= b.2.
Proof.
  assert (n <= n1).
  { apply (joined_le _ _ _ _ _ J1). intros b Hb. destruct (ins_k2 b Hb) as (? & ? & ?). lia. }
  pose proof ins_p as Hp. inversion J2 as [|k l' E]; subst.
  - exists (bp, n1). split; [set_solver | done].
  - exists (p, np + n1). simplify_eq. split; [set_solver |].
    destruct Hp as [[= -> ->]|Hp]; cbn [snd]; [lia |]. unfold ok_block in Hp. hdr.
Qed.
End Inserted.

Definition grown (fs : list block) (b : block) (s : ust) (fs' : list block) (s' : ust) : Prop :=
  ring_ok fs' s' ∧ (∀ x, inbs fs' x ↔ inbs fs x ∨ inb b x) ∧ (∃ c, c ∈ fs' ∧ b.2 <= c.2) ∧ (length fs' <= length fs + 1)%nat ∧
  u_brk s' = u_brk s ∧ u_mem_left s' = u_mem_left s ∧
  only (λ x, in_header base x ∨ inbs fs x ∨ inb b x) (u_mem s) (u_mem s').

Lemma inserted_grown fs k1 p np k2 bp n n1 k2' n2 k2'' m' s :
  ring_ok fs s → cut fs k1 p np k2 bp n s →
  joined bp n k2 n1 k2' → joined p np ((bp, n1) :: k2') n2 k2'' →
  links m' ((p, n2) :: k2'') base → only (λ x, in_header bp x ∨ in_header p x) (u_mem s) m' →
  ∃ fs', grown fs (bp, n) s fs' (Ust m' (u_brk s) (u_mem_left s) p).
Proof.
  intros R C J1 J2 Hc Ho. pose proof (c_eq _ _ _ _ _ _ _ _ C) as E.
  destruct (c_below _ _ _ _ _ _ _ _ C) as [Hbp Hp]. pose proof (c_ok _ _ _ _ _ _ _ _ C) as Hok.
  destruct (r_base fs s R) as [? ?]. pose proof (r_brk fs s R).
  assert (∃ fs', (base, 0) :: fs' = k1 ++ (p, n2) :: k2'') as [fs' E'].
  { destruct k1 as [|c k1]; simplify_eq/=; [| by eexists].
    inversion J2 as [|k l' E']; subst; [by eexists |]. simplify_eq. unfold ok_block in Hok. hdr. }
  exists fs'. split; [| split_and!; [| | | done | done |]].
  - apply ring_intro; cbn [u_mem u_brk u_freep]; [| | | | done | done | done]; rewrite E'.
    + apply links_app. split; [| done]. pose proof (r_links fs s R) as Hc1. rewrite E in Hc1.
      apply links_app in Hc1 as [Hc1 _]. eapply links_only; [| exact Hc1]. intros b Hb x Hx. apply Ho.
      destruct (ins_k1 R C b Hb) as (Hg & ? & ?). unfold gap in Hg.
      pose proof (ring_room fs s b R ltac:(rewrite E; set_solver)).
      enough (b.1 + header <= p) by hdr. cbn in Hg. destruct k1 as [|c k1]; [set_solver |]. simplify_eq/=.
      apply elem_of_cons in Hb as [->|Hb]; cbn.
      * destruct (r_blocks _ s R (p, np)) as (? & _); [set_solver |]. hdr.
      * destruct (r_blocks _ s R b) as (? & ? & _); [set_solver |]. hdr.
    + apply (ins_sorted R C J1 J2).
    + apply (ins_blocks R C J1 J2).
    + exists n2. set_solver.
  - intros x. rewrite <- (inbs_base fs'), E'. apply (ins_cover R C J1 J2).
  - destruct (ins_big R C J1 J2) as (b & Hb & Hn). rewrite <- E' in Hb. exists b. split; [| done].
    apply elem_of_cons in Hb as [->|]; [| done]. unfold ok_block in Hok. hdr.
  - apply joined_length in J1, J2. apply (f_equal length) in E, E'. rewrite length_app in E, E'. cbn in *. lia.
  - intros x Hx. apply Ho. intros [Hh|Hh]; apply Hx.
    + right; right. unfold ok_block in Hok. hdr.
    + destruct (ins_p R C) as [[= -> ->]|Hpo]; [by left |]. right; left. exists (p, np). split.
      * destruct k1; simplify_eq/=; [unfold ok_block in Hpo; hdr |]. set_solver.
      * unfold ok_block in Hpo. hdr.
Qed.

Lemma free_spec fs s bp n :
  ring_ok fs s → ok_block (u_brk s) (bp, n) → hsize (u_mem s) bp = n →
  (∀ x, inbs fs x → inb (bp, n) x → False) →
  wp (free (bp + header)) (λ _ s', ∃ fs', grown fs (bp, n) s fs' s') s.
Proof.
  intros R Hok Hn Hsep. destruct (r_base fs s R) as [? ?]. pose proof (r_brk fs s R).
  unfold free. rewrite plus_small by (unfold ok_block in Hok; hdr).
  replace (bp + header + header * -1) with bp by lia. wp_steps.
  eapply wp_mono.
  { apply (free_find_spec bp fs s R); [unfold ok_block in Hok; hdr |]. intros b Hb Heq.
    apply (Hsep b.1); [exists b; split; [done |] |]; [destruct (r_blocks fs s R b Hb) as (? & ? & ?) |
      unfold ok_block in Hok]; hdr. }
  intros p s0 (-> & k1 & np & k2 & E & Hp & Hk2).
  pose proof (cut_intro _ _ _ _ _ _ _ _ R Hok Hn Hsep E Hp Hk2) as C.
  destruct (c_below _ _ _ _ _ _ _ _ C) as [Hb1 Hb2]. pose proof Hok as (Hok1 & Hok2 & Hok3). cbn [fst snd] in *.
  pose proof (r_links fs s R) as Hc. rewrite E in Hc. apply links_app in Hc as [_ (Hc1 & Hc2 & Hc3)]. cbn [fst snd] in *.
  pose proof (ring_room fs s (p, np) R ltac:(rewrite E; set_solver)) as Hrp.
  wp_steps. apply wp_get_ptr; [hdr.. |]. rewrite Hc1. wp_steps.
  eapply wp_mono.
  { apply (join_spec bp n k2 base); [hdr | done | done | done | | hdr | intros; hdr].
    intros b Hb. pose proof (ring_room fs s b R ltac:(rewrite E; set_solver)).
    pose proof (c_above _ _ _ _ _ _ _ _ C b Hb). split; [done | hdr]. }
  intros [] s1 (m1 & n1 & k2' & -> & J1 & Hm1 & Ho1). wp_steps.
  eapply wp_mono.
  { apply (join_spec p np ((bp, n1) :: k2') base); [done | done | | done | | hdr | done].
    - cbn [u_mem put_mem]. rewrite <- Hc2. apply same_header_read. intros x Hx. apply Ho1. hdr.
    - intros b Hb. destruct (ins_J1 R C J1 b Hb) as [? ?]. unfold ok_block in *. split; hdr. }
  intros [] s2 (m2 & n2 & k2'' & -> & J2 & Hm2 & Ho2). cbn [u_mem put_mem] in Ho2.
  apply wp_modify. refine (inserted_grown fs k1 p np k2 bp n n1 k2' n2 k2'' m2 s R C J1 J2 Hm2 _).
  intros x Hx. rewrite Ho2, Ho1; tauto.
Qed.

(** *** Taking a block off the ring *)
Lemma ring_only fs s s' :
  ring_ok fs s → u_freep s' = u_freep s → u_brk s <= u_brk s' <= 2 ^ 31 →
  only (λ x, ¬ (in_header base x ∨ inbs fs x)) (u_mem s) (u_mem s') → ring_ok fs s'.
Proof.
  intros R Ef Hb Ho. destruct (r_base fs s R). split.
  - eapply links_only; [| apply (r_links fs s R)]. intros b Hbl x Hx. apply Ho. intros Hn. apply Hn.
    apply elem_of_cons in Hbl as [->|Hbl]; [by left |]. right. exists b. split; [done |].
    destruct (r_blocks fs s R b Hbl) as (? & ? & ?). hdr.
  - apply (r_sorted fs s R).
  - intros b Hbl. destruct (r_blocks fs s R b Hbl) as (? & ? & ?). unfold ok_block. hdr.
  - rewrite Ef. apply (r_freep fs s R).
  - lia.
  - lia.
Qed.

Record taken (fs : list block) (nu : Z) (s : ust) (b : Z) (fs' : list block) (s' : ust) : Prop := Taken {
  t_ring : ring_ok fs' s';
  t_block : ok_block (u_brk s) (b, nu);
  t_size : hsize (u_mem s') b = nu;
  t_old : ∀ x, inb (b, nu) x → inbs fs x;
  t_cover : ∀ x, inbs fs' x ↔ inbs fs x ∧ ¬ inb (b, nu) x;
  t_brk : u_brk s' = u_brk s;
  t_left : u_mem_left s' = u_mem_left s;
  t_only : only (λ x, in_header base x ∨ inbs fs x) (u_mem s) (u_mem s') }.

(** The neighbours of a block of the ring. *)
Lemma ring_at fs s p np :
  ring_ok fs s → (p, np) ∈ fs → ∃ l1 l2, fs = l1 ++ (p, np) :: l2 ∧
    (∀ b, b ∈ (base, 0) :: l1 → b.1 + header * Z.max 1 b.2 <= p) ∧ (∀ b, b ∈ l2 → p + header * np < b.1).
Proof.
  intros R Hin. pose proof (r_sorted fs s R) as Hs. pose proof (r_blocks fs s R) as Hok.
  apply list_elem_of_split in Hin as (l1 & l2 & ->). exists l1, l2.
  apply StronglySorted_app in Hs as (Hs & _ & Hs2). apply StronglySorted_inv in Hs2 as [_ Hs2]. rewrite Forall_forall in Hs2.
  split_and!; [done | | done]. intros b [->|Hb]%elem_of_cons.
  - destruct (Hok (p, np) ltac:(set_solver)) as (? & ? & ?). hdr.
  - specialize (Hs b (p, np) Hb ltac:(set_solver)). destruct (Hok b ltac:(set_solver)) as (? & ? & ?).
    unfold gap in Hs. hdr.
Qed.

Lemma take_end fs s nu prev npv p np :
  ring_ok fs s → (prev, npv) ∈ (base, 0) :: fs → (p, np) ∈ fs → 1 <= nu < np →
  wp (take_block nu prev p np) (λ r s', ∃ b fs', r = b + header ∧ taken fs nu s b fs' s') s.
Proof.
  intros R Hprev Hin Hnu. pose proof (r_brk fs s R). destruct (r_base fs s R). pose proof (r_links fs s R) as Hc.
  destruct (r_blocks fs s R _ Hin) as (Hp1 & Hp2 & Hp3). cbn [fst snd] in *.
  destruct (ring_at fs s p np R Hin) as (l1 & l2 & -> & Hl1 & Hl2).
  rewrite app_comm_cons in Hc. apply links_app in Hc as [Hc1 (Hc2 & Hc3 & Hc4)]. cbn [fst snd] in *.
  unfold take_block. rewrite (proj2 (Z.eqb_neq np nu)) by lia. wp_steps.
  apply wp_set_size; [hdr.. |]. wp_steps. rewrite plus_small by hdr.
  set (b := p + header * (np - nu)). apply wp_set_size; [subst b; hdr.. |]. wp_steps. apply wp_modify. wp_steps.
  rewrite plus_small by (subst b; hdr). replace (b + header * 1) with (b + header) by lia.
  cbn [u_mem put_mem]. set (m1 := wrbytes (p + 8) _ _). set (m2 := wrbytes (b + 8) _ m1).
  assert (Ho : only (λ x, p <= x < p + header * np) (u_mem s) m2).
  { intros x Hx. unfold m2, m1. rewrite !only_wr; [done | |]; subst b; hdr. }
  assert (Hsub : ∀ x, inb (b, nu) x → inb (p, np) x) by (subst b; intros x; hdr).
  exists b, (l1 ++ (p, np - nu) :: l2). split; [done |]. split; cbn [u_mem u_brk u_mem_left]; try done.
  - apply ring_intro; cbn [u_mem u_brk u_freep]; [| | | | done | done | done]; rewrite ?app_comm_cons.
    + apply links_app. split; [| split_and!; cbn [fst snd]].
      * eapply links_only; [| exact Hc1]. intros c Hcl x Hx. apply Ho. specialize (Hl1 c Hcl). hdr.
      * rewrite <- Hc2. unfold m2. destruct (same_header_read m1 m2 p) as [E _].
        { intros x Hx. apply only_wr. subst b. hdr. }
        unfold m2 in E. rewrite E. apply hptr_store_size.
      * destruct (same_header_read m1 m2 p) as [_ ->]; [intros x Hx; apply only_wr; subst b; hdr |].
        apply hsize_store. hdr.
      * eapply links_only; [| exact Hc4]. intros c Hcl x Hx. apply Ho. specialize (Hl2 c Hcl). hdr.
    + pose proof (ring_sorted _ _ R) as Hs. rewrite app_comm_cons in Hs. apply StronglySorted_app in Hs as (Hs1 & Hs2 & Hs3).
      apply StronglySorted_app. split_and!; [| done |].
      * intros c d Hcl [->|Hd]%elem_of_cons; [apply (Hs1 c (p, np)) | apply Hs1]; set_solver.
      * apply StronglySorted_inv in Hs3 as [Hs3 Hf]. constructor; [done |]. eapply Forall_impl; [exact Hf |].
        intros c. unfold gap. hdr.
    + intros c Hcl. assert (c = (base, 0) ∨ c = (p, np - nu) ∨ c ∈ l1 ++ (p, np) :: l2) as [->|[->|Hcf]] by set_solver.
      * by left.
      * right. unfold ok_block. hdr.
      * right. by apply (r_blocks _ _ R).
    + assert ((prev, npv) ∈ (base, 0) :: l1 ++ (p, np - nu) :: l2 ∨ (prev, npv) = (p, np)) as [Hx|[= -> ->]] by set_solver.
      * by exists npv.
      * exists (np - nu). set_solver.
  - unfold ok_block. subst b. hdr.
  - unfold m2. apply hsize_store. hdr.
  - intros x Hx. exists (p, np). split; [set_solver | by apply Hsub].
  - intros x. rewrite !inbs_app, !inbs_cons.
    assert (Hp : inb (p, np - nu) x ↔ inb (p, np) x ∧ ¬ inb (b, nu) x) by (subst b; hdr).
    assert (Hdis : inbs l1 x ∨ inbs l2 x → ¬ inb (b, nu) x).
    { intros [(c & Hcl & Hx)|(c & Hcl & Hx)] Hb%Hsub; [specialize (Hl1 c ltac:(by right)) | specialize (Hl2 c Hcl)]; hdr. }
    tauto.
  - intros x Hx. apply Ho. intros Hp. apply Hx. right. exists (p, np). split; [set_solver | hdr].
Qed.

Lemma links_size m l z b : links m l z → b ∈ l → hsize m b.1 = b.2.
Proof. induction l as [|c l IH]; [set_solver |]. intros (_ & Hs & Hc) [->|Hb]%elem_of_cons; auto. Qed.

Lemma take_all fs s nu prev npv p :
  ring_ok fs s → (prev, npv) ∈ (base, 0) :: fs → hptr (u_mem s) prev = p → (p, nu) ∈ fs →
  wp (take_block nu prev p nu) (λ r s', ∃ b fs', r = b + header ∧ taken fs nu s b fs' s') s.
Proof.
  intros R Hprev Hptr Hin. pose proof (r_brk fs s R). destruct (r_base fs s R). pose proof (r_links fs s R) as Hc.
  destruct (r_blocks fs s R _ Hin) as (Hp1 & Hp2 & Hp3). cbn [fst snd] in *.
  pose proof (ring_room fs s _ R Hprev) as Hrp. pose proof (ring_sorted fs s R) as Hs.
  pose proof (links_size _ _ _ (p, nu) Hc ltac:(by right)) as Hsz. cbn in Hsz.
  pose proof Hprev as Hin'. apply list_elem_of_split in Hprev as (k1 & k2 & E). rewrite E in Hc, Hs.
  apply links_app in Hc as [Hc1 (Hc2 & Hc3 & Hc4)]. cbn in Hc2, Hc3. rewrite Hptr in Hc2.
  destruct k2 as [|[q k] k2]; cbn in Hc2; [hdr |]. subst q. destruct Hc4 as (Hc5 & Hc6 & Hc7). cbn [fst snd] in *.
  assert (k = nu) as -> by lia.
  apply StronglySorted_app in Hs as (Hs1 & Hs2 & Hs3). apply StronglySorted_inv in Hs3 as [Hs3 Hf3].
  apply StronglySorted_inv in Hs3 as [Hs4 Hf4]. rewrite Forall_forall in Hf3, Hf4.
  assert (Hlo : prev + header <= p).
  { pose proof (Hf3 (p, nu) ltac:(set_solver)) as Hg. unfold gap in Hg.
    apply elem_of_cons in Hin' as [Hin'|Hin']; [injection Hin'; hdr |].
    destruct (r_blocks _ s R _ Hin') as (? & ? & ?). hdr. }
  assert (∃ fs', (base, 0) :: fs' = k1 ++ (prev, npv) :: k2) as [fs' E'] by (clear -E; destruct k1; simplify_eq/=; eauto).
  unfold take_block. rewrite Z.eqb_refl. wp_steps.
  apply wp_get_ptr; [hdr.. |]. wp_steps. apply wp_set_ptr; [hdr.. |]. wp_steps. apply wp_modify. wp_steps.
  rewrite plus_small by hdr. replace (p + header * 1) with (p + header) by lia. rewrite Hc5. cbn [u_mem put_mem].
  set (m1 := wrbytes prev _ _).
  assert (Ho : only (in_header prev) (u_mem s) m1) by (intros x Hx; apply only_wr; hdr).
  assert (Hup : ∀ b, b ∈ k2 → p + header <= b.1).
  { intros b Hb. specialize (Hf4 b Hb). unfold gap in Hf4. hdr. }
  exists p, fs'. split; [done |]. split; cbn [u_mem u_brk u_mem_left]; try done.
  - apply ring_intro; cbn [u_mem u_brk u_freep]; [| | | | done | done | done]; rewrite E'.
    + apply links_app. split; [| split_and!; cbn [fst snd]].
      * eapply links_only; [| exact Hc1]. intros b Hb x Hx. apply Ho.
        pose proof (Hs1 b (prev, npv) Hb ltac:(set_solver)) as Hg. unfold gap in Hg.
        assert (Hb' : b ∈ (base, 0) :: fs) by (rewrite E; set_solver).
        assert (prev ≠ base).
        { destruct k1; [set_solver |]. injection E as _ E3.
          destruct (r_blocks fs s R (prev, npv)) as (? & _); [rewrite E3; set_solver | hdr]. }
        apply elem_of_cons in Hin' as [Hin'|Hin']; [by injection Hin' |]. destruct (r_blocks _ s R _ Hin') as (? & ? & ?).
        apply elem_of_cons in Hb' as [->|Hb']; [hdr |]. destruct (r_blocks _ s R b Hb') as (? & ? & ?). hdr.
      * apply hptr_store. apply (head_addr_range (u_brk s)); [| done | hdr]. intros b Hb.
        eapply ring_room; [exact R |]. rewrite E. set_solver.
      * unfold m1. by rewrite hsize_store_ptr.
      * eapply links_only; [| exact Hc7]. intros b Hb x Hx. apply Ho. specialize (Hup b Hb). hdr.
    + apply StronglySorted_app. split_and!; [| done |].
      * intros b c Hb Hcl. apply Hs1; set_solver.
      * constructor; [done |]. rewrite Forall_forall. intros b Hb. apply Hf3. by right.
    + intros b Hb. assert (Hbf : b ∈ (base, 0) :: fs) by (rewrite E; set_solver).
      apply elem_of_cons in Hbf as [->|Hbf]; [by left | right; by apply (r_blocks fs s R)].
    + exists npv. set_solver.
  - rewrite <- Hsz. apply same_header_read. intros x Hx. apply Ho. hdr.
  - intros x Hx. by exists (p, nu).
  - intros x. rewrite <- (inbs_base fs'), <- (inbs_base fs), E, E', !inbs_app, !inbs_cons.
    assert (Hdis : inbs k1 x ∨ inb (prev, npv) x ∨ inbs k2 x → ¬ inb (p, nu) x).
    { intros [(b & Hb & Hx)|[Hx|(b & Hb & Hx)]] Hp;
        [specialize (Hs1 b (p, nu) Hb ltac:(set_solver)); unfold gap in Hs1 |
         specialize (Hf3 (p, nu) ltac:(set_solver)); unfold gap in Hf3 | specialize (Hup b Hb); specialize (Hf4 b Hb); unfold gap in Hf4]; hdr. }
    tauto.
  - intros x Hx. apply Ho. intros Hh. apply Hx.
    apply elem_of_cons in Hin' as [Hin'|Hin']; [left; injection Hin'; hdr | right]. exists (prev, npv). split; [done |].
    destruct (r_blocks fs s R _ Hin') as (? & ? & ?). hdr.
Qed.

Lemma take_spec fs s nu prev npv p np :
  ring_ok fs s → (prev, npv) ∈ (base, 0) :: fs → hptr (u_mem s) prev = p → (p, np) ∈ fs → 1 <= nu <= np →
  wp (take_block nu prev p np) (λ r s', ∃ b fs', r = b + header ∧ taken fs nu s b fs' s') s.
Proof.
  intros R Hprev Hptr Hin Hnu. destruct (decide (np = nu)) as [->|]; [by eapply take_all |].
  eapply take_end; [done | done | done | lia].
Qed.

(** *** Walking the ring *)
Lemma bind_run {A B} (m : M ust A) (k : A → M ust B) s a s' : m s = Ret a s' → bind m k s = k a s'.
Proof. intros H. unfold bind. by rewrite H. Qed.

Lemma get_ptr_run p s : 0 <= p → p + header <= u_brk s → get_ptr p s = Ret (hptr (u_mem s) p) s.
Proof. intros H1 H2. unfold get_ptr, load, header in *. by rewrite decide_True by lia. Qed.

Lemma get_size_run p s : 0 <= p → p + header <= u_brk s → get_size p s = Ret (hsize (u_mem s) p) s.
Proof. intros H1 H2. unfold get_size, load, header in *. by rewrite decide_True by lia. Qed.

(** The blocks a walk from [freep] meets before it is back at [freep]. *)
Lemma ring_todo fs s :
  ring_ok fs s → ∃ n todo, (u_freep s, n) ∈ (base, 0) :: fs ∧ links (u_mem s) todo (u_freep s) ∧
    head_addr todo (u_freep s) = hptr (u_mem s) (u_freep s) ∧ length todo = length fs ∧
    (∀ b, b ∈ (base, 0) :: fs ↔ b = (u_freep s, n) ∨ b ∈ todo) ∧ (∀ b, b ∈ todo → b.1 ≠ u_freep s).
Proof.
  intros R. destruct (r_freep fs s R) as [n Hin]. exists n. pose proof (r_links fs s R) as Hc. pose proof Hin as Hin'.
  apply list_elem_of_split in Hin as (l1 & l2 & E). rewrite E in Hc. apply links_app in Hc as [Hc1 (Hc2 & Hc3 & Hc4)].
  assert (Hh : head_addr l1 (u_freep s) = base) by (destruct l1; by simplify_eq/=).
  exists (l2 ++ l1). split_and!; [done | | | | |].
  - apply links_app. by rewrite Hh.
  - rewrite head_addr_app, Hh. done.
  - apply (f_equal length) in E. rewrite length_app in *. cbn in E. lia.
  - intros b. rewrite E. set_solver.
  - pose proof (ring_sorted fs s R) as Hs. pose proof (ring_room fs s) as Hr. rewrite E in Hs, Hr.
    apply StronglySorted_app in Hs as (Hs1 & _ & Hs3). apply StronglySorted_inv in Hs3 as [_ Hs3]. rewrite Forall_forall in Hs3.
    intros b [Hb|Hb]%elem_of_app.
    + specialize (Hs3 b Hb). specialize (Hr (u_freep s, n) R ltac:(set_solver)). unfold gap in Hs3. hdr.
    + specialize (Hs1 b _ Hb ltac:(left)). specialize (Hr b R ltac:(set_solver)). unfold gap in Hs1. hdr.
Qed.

Lemma malloc_walk fs s nu todo fuel prev npv p :
  ring_ok fs s → 1 <= nu → links (u_mem s) todo (u_freep s) → p = head_addr todo (u_freep s) →
  (∀ b, b ∈ todo → b ∈ (base, 0) :: fs ∧ b.1 ≠ u_freep s) → (prev, npv) ∈ (base, 0) :: fs → hptr (u_mem s) prev = p →
  (length todo < fuel)%nat →
  (∃ prev' npv' p' np', malloc_loop fuel nu prev p s = take_block nu prev' p' np' s ∧
     (prev', npv') ∈ (base, 0) :: fs ∧ hptr (u_mem s) prev' = p' ∧ (p', np') ∈ fs ∧ nu <= np') ∨
  (∀ b, b ∈ todo → b.2 < nu) ∧ hsize (u_mem s) (u_freep s) < nu ∧
  malloc_loop fuel nu prev p s =
    (let! p := morecore nu in
     if decide (p = 0) then ret 0
     else let! q := get_ptr p in malloc_loop (fuel - length todo - 1) nu p q) s.
Proof.
  intros R Hnu. pose proof (r_links fs s R) as Hc0. pose proof (r_base fs s R).
  revert fuel prev npv p. induction todo as [|[q k] todo IH]; intros fuel prev npv p Hc -> Hin Hprev Hptr Hf;
    (destruct fuel as [|fuel]; [cbn in Hf; lia |]); cbn [malloc_loop head_addr fst] in *.
  - destruct (r_freep fs s R) as [n Hfp]. pose proof (ring_room fs s _ R Hfp) as Hr.
    pose proof (links_size _ _ _ _ Hc0 Hfp) as Hs. cbn in Hs.
    rewrite (bind_run (get_size _) _ s n s) by (rewrite get_size_run by hdr; by rewrite Hs).
    destruct (nu <=? n) eqn:E.
    + left. exists prev, npv, (u_freep s), n. split_and!; [done | done | done | | lia].
      apply elem_of_cons in Hfp as [[= -> ->]|]; [lia | done].
    + right. split_and!; [set_solver | lia |]. rewrite (bind_run (gets _) _ s (u_freep s) s), decide_True by done.
      cbn [length]. by replace (S fuel - 0 - 1)%nat with fuel by lia.
  - destruct Hc as (Hc1 & Hc2 & Hc3). cbn [fst snd] in *. destruct (Hin (q, k)) as [Hq Hne]; [left |].
    pose proof (ring_room fs s _ R Hq) as Hr.
    rewrite (bind_run (get_size _) _ s k s) by (rewrite get_size_run by hdr; by rewrite Hc2). destruct (nu <=? k) eqn:E.
    + left. exists prev, npv, q, k. split_and!; [done | done | done | | lia].
      apply elem_of_cons in Hq as [[= -> ->]|]; [lia | done].
    + rewrite (bind_run (gets _) _ s (u_freep s) s), decide_False by done.
      rewrite (bind_run (get_ptr _) _ s (head_addr todo (u_freep s)) s) by (rewrite get_ptr_run by hdr; by rewrite Hc1).
      destruct (IH fuel q k (head_addr todo (u_freep s))) as [Hl|(Hr1 & Hr2 & Hr3)]; [done | done | | done | done | cbn in Hf; lia | |].
      * intros b Hb. apply Hin. by right.
      * by left.
      * right. split_and!; [| done |].
        -- intros b [->|Hb]%elem_of_cons; [cbn; lia | by apply Hr1].
        -- cbn [length]. by replace (S fuel - S (length todo) - 1)%nat with (fuel - length todo - 1)%nat by lia.
Qed.

(** *** More memory *)
Definition core_units (nu : Z) : Z := if nu <? 4096 then 4096 else nu.

Definition refused (s : ust) (nu : Z) : Prop :=
  head (u_mem_left s) ≠ Some true ∨ phys_mem < u_brk s + header * core_units nu.

(** The ring after a successful [morecore]. *)
Record cored (fs : list block) (nu : Z) (s : ust) (fs' : list block) (s' : ust) : Prop := Cored {
  k_ring : ring_ok fs' s';
  k_cover : ∀ x, inbs fs' x ↔ inbs fs x ∨ inb (u_brk s, core_units nu) x;
  k_big : ∃ b, b ∈ fs' ∧ core_units nu <= b.2;
  k_length : (length fs' <= length fs + 1)%nat;
  k_brk : u_brk s' = u_brk s + header * core_units nu;
  k_phys : u_brk s' <= phys_mem;
  k_left : u_mem_left s' = tail (u_mem_left s);
  k_only : only (λ x, in_header base x ∨ inbs fs x ∨ u_brk s <= x) (u_mem s) (u_mem s') }.

Lemma core_units_le nu : nu <= core_units nu ∧ 4096 <= core_units nu.
Proof. unfold core_units. destruct (nu <? 4096) eqn:E; lia. Qed.

Lemma core_units_small nu : header * nu < 2 ^ 31 → header * core_units nu < 2 ^ 31.
Proof. unfold core_units, header. destruct (nu <? 4096) eqn:E; lia. Qed.

(** The new memory becomes a free block. *)
Lemma morecore_free fs s nu more :
  ring_ok fs s → u_mem_left s = true :: more → u_brk s + header * core_units nu <= phys_mem →
  wp (set_size (u_brk s) (core_units nu);; free (plus (u_brk s) 1);; gets u_freep)
    (λ p s', p = u_freep s' ∧ p ≠ 0 ∧ ∃ fs', cored fs nu s fs' s')
    (Ust (u_mem s) (u_brk s + header * core_units nu) more (u_freep s)).
Proof.
  intros R El Hle. destruct (r_base fs s R) as [Hb1 Hb2]. destruct (core_units_le nu) as [? ?].
  assert (phys_mem <= 2 ^ 31) by (unfold phys_mem; lia). set (s1 := Ust _ _ _ _).
  wp_steps. apply wp_set_size; [hdr | subst s1; hdr |]. wp_steps. rewrite plus_small by hdr.
  replace (u_brk s + header * 1) with (u_brk s + header) by lia. set (s2 := put_mem _ _).
  assert (Ho : only (in_header (u_brk s)) (u_mem s) (u_mem s2)) by (intros x Hx; apply only_wr; hdr).
  assert (Hlow : ∀ x, inbs fs x → x < u_brk s).
  { intros x (b & Hb & Hx). destruct (r_blocks fs s R b Hb) as (? & ? & ?). hdr. }
  eapply wp_mono.
  { apply (free_spec fs s2 (u_brk s) (core_units nu)).
    - eapply ring_only; [exact R | done | subst s2 s1; hdr |]. intros x Hx. apply Ho. intros Hh. apply Hx.
      intros [Hx'|Hx'%Hlow]; hdr.
    - unfold ok_block. subst s2 s1. hdr.
    - apply hsize_store. hdr.
    - intros x Hx%Hlow. hdr. }
  intros [] s' (fs' & R' & Hcov & Hbig & Hlen & Hbrk & Hleft & Honly). wp_steps. split_and!; [done | |].
  - destruct (r_freep fs' s' R') as [n Hin]. pose proof (r_base fs' s' R').
    apply elem_of_cons in Hin as [Hin|Hin]; [injection Hin; lia |]. destruct (r_blocks fs' s' R' _ Hin) as (? & _). hdr.
  - exists fs'. split; try done; [by rewrite Hbrk | by rewrite Hleft; cbn; rewrite El |].
    intros x Hx. rewrite Honly, Ho; [done | |]; intros Hx'; apply Hx; [hdr |].
    destruct Hx' as [?|[?|?]]; [by left | by right; left | right; right; hdr].
Qed.

Definition drop_left (s : ust) : ust := Ust (u_mem s) (u_brk s) (tail (u_mem_left s)) (u_freep s).

Lemma morecore_spec fs s nu :
  ring_ok fs s → 1 <= nu → header * nu < 2 ^ 31 →
  wp (morecore nu) (λ p s',
    (p = 0 ∧ s' = drop_left s ∧ refused s nu) ∨ (p = u_freep s' ∧ p ≠ 0 ∧ ∃ fs', cored fs nu s fs' s')) s.
Proof.
  intros R Hnu Hmax. unfold morecore. fold (core_units nu). destruct (core_units_le nu) as [? ?].
  pose proof (core_units_small nu Hmax). pose proof (r_base fs s R). unfold drop_left, refused.
  replace (core_units nu * header) with (header * core_units nu) by lia. rewrite s32_small by (unfold header in *; lia).
  apply wp_bind. unfold wp at 1, sbrk. rewrite decide_True by (unfold header in *; lia).
  destruct (u_mem_left s) as [|[] more] eqn:El; cbn [tail head].
  1,3: rewrite decide_True by done; left; split_and!; [done | done | by left].
  destruct (decide (u_brk s + header * core_units nu <= phys_mem)) as [Hle|Hgt].
  - rewrite decide_False by hdr. eapply wp_mono; [by eapply morecore_free |]. intros p s' Hp. by right.
  - rewrite decide_True by done. left. split_and!; [done | done |]. right. lia.
Qed.

(** *** [malloc] on the ring *)
Definition from_ring (fs : list block) (nu : Z) (s s' : ust) (r : Z) : Prop :=
  (r = 0 ∧ s' = drop_left s ∧ refused s nu) ∨
  ∃ fs0 s0 b fs', r = b + header ∧ taken fs0 nu s0 b fs' s' ∧
    ((fs0 = fs ∧ s0 = s) ∨ cored fs nu s fs0 s0).

Lemma malloc_loop_fits fs s nu :
  ring_ok fs s → 1 <= nu → (∃ b, b ∈ fs ∧ nu <= b.2) → ∀ fuel, (length fs < fuel)%nat →
  wp (malloc_loop fuel nu (u_freep s) (hptr (u_mem s) (u_freep s)))
    (λ r s', ∃ b fs', r = b + header ∧ taken fs nu s b fs' s') s.
Proof.
  intros R Hnu (b & Hb & Hfit) fuel Hf.
  destruct (ring_todo fs s R) as (n & todo & Hin & Hc & Hh & Hl & Hall & Hne).
  destruct (malloc_walk fs s nu todo fuel (u_freep s) n (hptr (u_mem s) (u_freep s)))
    as [(prev & npv & p & np & Hrun & Hp1 & Hp2 & Hp3 & Hp4)|(H1 & H2 & _)]; try done.
  - intros c Hcl. split; [| by apply Hne]. apply Hall. by right.
  - by rewrite Hl.
  - unfold wp. rewrite Hrun. change (wp (take_block nu prev p np) (λ r s', ∃ b fs', r = b + header ∧ taken fs nu s b fs' s') s).
    by eapply take_spec.
  - exfalso. pose proof (links_size _ _ _ _ (r_links fs s R) Hin) as Hs. cbn in Hs.
    destruct (Hall b) as [Hb' _]. destruct (Hb' ltac:(by right)) as [->|Hb'']; [cbn in Hfit; lia |].
    specialize (H1 b Hb''). lia.
Qed.

Lemma malloc_loop_spec fs s nu :
  ring_ok fs s → 1 <= nu → header * nu < 2 ^ 31 →
  wp (malloc_loop (ring_fuel s) nu (u_freep s) (hptr (u_mem s) (u_freep s)))
    (λ r s', from_ring fs nu s s' r) s.
Proof.
  intros R Hnu Hmax. pose proof (ring_length fs s R) as Hf.
  destruct (ring_todo fs s R) as (n & todo & Hin & Hc & Hh & Hl & Hall & Hne).
  destruct (malloc_walk fs s nu todo (ring_fuel s) (u_freep s) n (hptr (u_mem s) (u_freep s)))
    as [(prev & npv & p & np & Hrun & Hp1 & Hp2 & Hp3 & Hp4)|(_ & _ & Hrun)]; try done.
  - intros c Hcl. split; [| by apply Hne]. apply Hall. by right.
  - lia.
  - unfold wp. rewrite Hrun. change (wp (take_block nu prev p np) (λ r s', from_ring fs nu s s' r) s).
    eapply wp_mono; [by eapply take_spec |]. intros r s' (b & fs' & -> & Ht). right. exists fs, s, b, fs'. auto.
  - unfold wp. rewrite Hrun. set (k := malloc_loop _).
    change (wp (let! p := morecore nu in if decide (p = 0) then ret 0 else let! q := get_ptr p in k nu p q)
      (λ r s', from_ring fs nu s s' r) s).
    apply wp_bind. eapply wp_mono; [by eapply (morecore_spec fs) |].
    intros p s1 [(-> & -> & Hr)|(Ep & Hp & fs1 & Hk)]; [rewrite decide_True by done; by left |].
    rewrite decide_False by done. apply wp_bind. pose proof (k_ring _ _ _ _ _ Hk) as R1.
    destruct (r_freep _ _ R1) as [n1 Hin1]. pose proof (ring_room _ _ _ R1 Hin1). subst p.
    apply wp_get_ptr; [hdr.. |]. subst k. destruct (k_big _ _ _ _ _ Hk) as (b & Hb & Hbig). pose proof (core_units_le nu).
    eapply wp_mono; [apply (malloc_loop_fits fs1 s1 nu R1 Hnu); [exists b; split; [done | lia] |] |].
    + pose proof (k_length _ _ _ _ _ Hk). lia.
    + intros r s' (b' & fs' & -> & Ht). right. exists fs1, s1, b', fs'. auto.
Qed.

(** *** The heap: the ring and the blocks in use *)
Definition in_live (live : gmap Z Z) (x : Z) : Prop := ∃ a n, live !! a = Some n ∧ inb (a, n) x.
Definition kept (live : gmap Z Z) (s s' : ust) : Prop := ∀ x, in_live live x → u_mem s' !! x = u_mem s !! x.

(** [got] lists what [morecore] has obtained from the system. *)
Record heap_ok (fs : list block) (live : gmap Z Z) (got : list block) (s : ust) : Prop := HeapOk {
  h_ring : ring_ok fs s;
  h_phys : u_brk s <= phys_mem;
  h_live : ∀ a n, live !! a = Some n → ok_block (u_brk s) (a, n) ∧ hsize (u_mem s) a = n;
  h_apart : ∀ a n b k x, live !! a = Some n → live !! b = Some k → inb (a, n) x → inb (b, k) x → a = b;
  h_sep : ∀ x, in_live live x → inbs fs x → False;
  h_got : ∀ x, inbs got x ↔ inbs fs x ∨ in_live live x }.

Definition unused (live : gmap Z Z) (got : list block) (s : ust) : Prop :=
  u_freep s = 0 ∧ live = ∅ ∧ got = [] ∧ 0 < base ∧ base + header <= u_brk s <= phys_mem.
Definition heap_inv (live : gmap Z Z) (got : list block) (s : ust) : Prop :=
  unused live got s ∨ ∃ fs, heap_ok fs live got s.

Lemma live_low fs live got s x : heap_ok fs live got s → in_live live x → base + header <= x < u_brk s.
Proof. intros H (a & n & Ha & Hx). destruct (h_live _ _ _ _ H a n Ha) as [(? & ? & ?) _]. hdr. Qed.

Lemma live_header fs live got s a n : heap_ok fs live got s → live !! a = Some n → ∀ x, in_header a x → in_live live x.
Proof. intros H Ha x Hx. exists a, n. split; [done |]. destruct (h_live _ _ _ _ H a n Ha) as [(? & ? & ?) _]. hdr. Qed.

(** A live block keeps its header when its bytes are kept. *)
Lemma kept_size fs live got s s' a n :
  heap_ok fs live got s → kept live s s' → live !! a = Some n → hsize (u_mem s') a = n.
Proof.
  intros H Hk Ha. destruct (h_live _ _ _ _ H a n Ha) as [_ <-]. apply same_header_read. intros x Hx.
  apply Hk. by eapply live_header.
Qed.

Lemma in_live_insert live b n x :
  live !! b = None → in_live (<[b := n]> live) x ↔ in_live live x ∨ inb (b, n) x.
Proof.
  intros Hb. split.
  - intros (a & k & Ha & Hx). apply lookup_insert_Some in Ha as [[-> ->]|[_ Ha]]; [by right | left; by exists a, k].
  - intros [(a & k & Ha & Hx)|Hx]; [exists a, k | exists b, n]; split; try done.
    + rewrite lookup_insert_ne; [done |]. intros ->. congruence.
    + by rewrite lookup_insert_eq.
Qed.

(** More memory keeps the heap. *)
Lemma cored_heap fs live got nu s fs' s' :
  heap_ok fs live got s → cored fs nu s fs' s' →
  heap_ok fs' live ((u_brk s, core_units nu) :: got) s' ∧ kept live s s'.
Proof.
  intros H Hk. pose proof (core_units_le nu).
  assert (Hkept : kept live s s').
  { intros x Hx. apply (k_only _ _ _ _ _ Hk). pose proof (live_low _ _ _ _ x H Hx).
    intros [?|[?|?]]; [hdr | by eapply (h_sep _ _ _ _ H) | lia]. }
  split; [| done]. split.
  - apply (k_ring _ _ _ _ _ Hk).
  - apply (k_phys _ _ _ _ _ Hk).
  - intros a n Ha. split; [| by eapply kept_size]. destruct (h_live _ _ _ _ H a n Ha) as [(? & ? & ?) _].
    pose proof (k_brk _ _ _ _ _ Hk). unfold ok_block. hdr.
  - apply (h_apart _ _ _ _ H).
  - intros x Hx [Hf|Hf]%(k_cover _ _ _ _ _ Hk); [by eapply (h_sep _ _ _ _ H) |].
    pose proof (live_low _ _ _ _ x H Hx). hdr.
  - intros x. rewrite inbs_cons, (h_got _ _ _ _ H), (k_cover _ _ _ _ _ Hk). tauto.
Qed.

(** A block taken off the ring becomes live. *)
Lemma taken_heap fs live got nu s b fs' s' :
  heap_ok fs live got s → taken fs nu s b fs' s' →
  live !! b = None ∧ (∀ x, inb (b, nu) x → ¬ in_live live x) ∧
  heap_ok fs' (<[b := nu]> live) got s' ∧ kept live s s'.
Proof.
  intros H Ht. pose proof (t_block _ _ _ _ _ _ Ht) as Hok.
  assert (Hnew : ∀ x, inb (b, nu) x → ¬ in_live live x).
  { intros x Hx%(t_old _ _ _ _ _ _ Ht) Hl. by eapply (h_sep _ _ _ _ H). }
  assert (Hb : live !! b = None).
  { destruct (live !! b) as [n|] eqn:E; [| done]. exfalso. apply (Hnew b); [unfold ok_block in Hok; hdr |].
    exists b, n. split; [done |]. destruct (h_live _ _ _ _ H b n E) as [(? & ? & ?) _]. hdr. }
  assert (Hkept : kept live s s').
  { intros x Hx. apply (t_only _ _ _ _ _ _ Ht). pose proof (live_low _ _ _ _ x H Hx).
    intros [?|?]; [hdr | by eapply (h_sep _ _ _ _ H)]. }
  split_and!; [done | done | | done]. split.
  - apply (t_ring _ _ _ _ _ _ Ht).
  - rewrite (t_brk _ _ _ _ _ _ Ht). apply (h_phys _ _ _ _ H).
  - intros a n Ha. rewrite (t_brk _ _ _ _ _ _ Ht). apply lookup_insert_Some in Ha as [[<- <-]|[_ Ha]].
    + split; [done | apply (t_size _ _ _ _ _ _ Ht)].
    + split; [by apply (h_live _ _ _ _ H) | by eapply kept_size].
  - intros a n c k x Ha Hc Hx Hx'.
    apply lookup_insert_Some in Ha as [[<- <-]|[Hna Ha]], Hc as [[<- <-]|[Hnc Hc]]; [done | | |].
    + exfalso. apply (Hnew x Hx). by exists c, k.
    + exfalso. apply (Hnew x Hx'). by exists a, n.
    + by eapply (h_apart _ _ _ _ H).
  - intros x [Hl|Hl]%in_live_insert Hf%(t_cover _ _ _ _ _ _ Ht); [| tauto | done]. eapply (h_sep _ _ _ _ H); [done | apply Hf].
  - intros x. rewrite (h_got _ _ _ _ H), (t_cover _ _ _ _ _ _ Ht), in_live_insert by done.
    pose proof (t_old _ _ _ _ _ _ Ht x). unfold inb in *. destruct (decide (b <= x < b + header * nu)); cbn [fst snd] in *; tauto.
Qed.

Lemma units_spec nb : 0 <= nb <= 2 ^ 31 - 32 →
  1 <= units nb ∧ header * units nb < 2 ^ 31 ∧ nb <= header * (units nb - 1).
Proof.
  intros H. unfold units, header. pose proof (Z.div_mod (nb + 16 - 1) 16 ltac:(lia)).
  pose proof (Z.mod_pos_bound (nb + 16 - 1) 16 ltac:(lia)). rewrite u32_small; lia.
Qed.

(** What the system gave during a call. *)
Definition got_more (s s' : ust) (got : list block) : list block :=
  if decide (u_brk s < u_brk s') then (u_brk s, (u_brk s' - u_brk s) / header) :: got else got.

Definition malloc_post (nu : Z) (live : gmap Z Z) (got : list block) (s : ust) (r : Z) (s' : ust) : Prop :=
  kept live s s' ∧
  ((r = 0 ∧ refused s nu ∧ u_brk s' = u_brk s ∧ heap_inv live got s') ∨
   ∃ b, r = b + header ∧ live !! b = None ∧ (∀ x, inb (b, nu) x → ¬ in_live live x) ∧
        ok_block (u_brk s') (b, nu) ∧ heap_inv (<[b := nu]> live) (got_more s s' got) s').

Lemma drop_left_heap fs live got s : heap_ok fs live got s → heap_ok fs live got (drop_left s).
Proof.
  intros []. split; try done. eapply ring_only; [done | done | | done]. cbn. pose proof (r_brk _ _ h_ring0). lia.
Qed.

Lemma malloc_heap fs live got s nu :
  heap_ok fs live got s → 1 <= nu → header * nu < 2 ^ 31 →
  wp (malloc_loop (ring_fuel s) nu (u_freep s) (hptr (u_mem s) (u_freep s))) (malloc_post nu live got s) s.
Proof.
  intros H Hnu Hmax. eapply wp_mono; [by apply (malloc_loop_spec fs); [apply (h_ring _ _ _ _ H) | |] |].
  intros r s' [(-> & -> & Hr)|(fs0 & s0 & b & fs' & -> & Ht & Hfrom)].
  - split; [done |]. left. split_and!; [done | done | done |]. right. exists fs. by apply drop_left_heap.
  - assert (∃ got0, heap_ok fs0 live got0 s0 ∧ kept live s s0 ∧ got_more s s' got = got0) as (got0 & H0 & Hk0 & Eg).
    { destruct Hfrom as [[-> ->]|Hk].
      - exists got. split_and!; [done | done |]. unfold got_more. rewrite decide_False; [done |]. rewrite (t_brk _ _ _ _ _ _ Ht). lia.
      - destruct (cored_heap _ _ _ _ _ _ _ H Hk) as [H0 Hk0]. eexists. split_and!; [exact H0 | done |].
        pose proof (k_brk _ _ _ _ _ Hk) as Eb. destruct (core_units_le nu).
        unfold got_more. rewrite (t_brk _ _ _ _ _ _ Ht), Eb, decide_True by hdr. do 2 f_equal.
        replace (u_brk s + header * core_units nu - u_brk s) with (core_units nu * header) by lia. by rewrite Z.div_mul. }
    destruct (taken_heap _ _ _ _ _ _ _ _ H0 Ht) as (Hb & Hnew & H' & Hk'). split.
    + intros x Hx. rewrite Hk', Hk0 by done. done.
    + right. exists b. split_and!; [done | done | done | |].
      * rewrite (t_brk _ _ _ _ _ _ Ht). apply (t_block _ _ _ _ _ _ Ht).
      * right. exists fs'. by rewrite Eg.
Qed.

(** The first call makes an empty ring of [base]. *)
Lemma malloc_init live got s :
  unused live got s →
  wp (set_freep base;; set_ptr base base;; set_size base 0;; ret base)
    (λ p s', p = u_freep s' ∧ heap_ok [] live got s' ∧ u_brk s' = u_brk s ∧ u_mem_left s' = u_mem_left s) s.
Proof.
  intros (Hf & -> & -> & Hb & Hbrk). assert (phys_mem <= 2 ^ 31) by (unfold phys_mem; lia). unfold set_freep.
  wp_steps. apply wp_set_ptr; [hdr.. |]. wp_steps. apply wp_set_size; [hdr.. |]. wp_steps. cbn [u_mem u_freep put_mem u_brk u_mem_left].
  split_and!; [done | | done | done]. split; cbn [u_mem u_brk put_mem]; [| lia | | | | ].
  - split; cbn [u_mem u_brk u_freep put_mem]; [| constructor | set_solver | exists 0; set_solver | hdr | lia].
    cbn [links head_addr fst snd]. rewrite hptr_store_size, hptr_store, hsize_store by hdr. done.
  - intros a n Ha. by rewrite lookup_empty in Ha.
  - intros a n b k x Ha. by rewrite lookup_empty in Ha.
  - intros x (a & n & Ha & _). by rewrite lookup_empty in Ha.
  - intros x. split; [intros (b & Hb' & _); set_solver |].
    intros [(b & Hb' & _)|(a & n & Ha & _)]; [set_solver | by rewrite lookup_empty in Ha].
Qed.

Lemma malloc_spec live got s nb :
  heap_inv live got s → 0 <= nb <= 2 ^ 31 - 32 →
  wp (malloc base nb) (malloc_post (units nb) live got s) s.
Proof.
  intros Hinv Hnb. destruct (units_spec nb Hnb) as (Hu1 & Hu2 & _). unfold malloc. apply wp_bind, wp_gets, wp_bind.
  eapply (wp_mono _ (λ p s1, p = u_freep s1 ∧ (∃ fs, heap_ok fs live got s1) ∧ u_brk s1 = u_brk s ∧
    u_mem_left s1 = u_mem_left s ∧ kept live s s1)).
  - destruct Hinv as [Hun|(fs & H)].
    + pose proof Hun as (Hf & -> & _). rewrite decide_True by done. eapply wp_mono; [by apply malloc_init |].
      intros p s1 (-> & H & ? & ?). split_and!; [done | by exists [] | done | done |].
      intros x (a & n & Ha & _). by rewrite lookup_empty in Ha.
    + destruct (r_freep _ _ (h_ring _ _ _ _ H)) as [n Hin]. pose proof (r_base _ _ (h_ring _ _ _ _ H)).
      rewrite decide_False.
      { apply wp_ret. split_and!; [done | by exists fs | done | done | done]. }
      apply elem_of_cons in Hin as [Hin|Hin]; [injection Hin; lia |].
      destruct (r_blocks _ _ (h_ring _ _ _ _ H) _ Hin) as (? & _). hdr.
  - intros p s1 (-> & (fs & H) & Eb & El & Hk). destruct (r_freep _ _ (h_ring _ _ _ _ H)) as [n Hin].
    pose proof (ring_room _ _ _ (h_ring _ _ _ _ H) Hin). apply wp_bind, wp_get_ptr; [hdr.. |].
    change (wp (malloc_loop (ring_fuel s1) (units nb) (u_freep s1) (hptr (u_mem s1) (u_freep s1)))
      (malloc_post (units nb) live got s) s1).
    eapply wp_mono; [by eapply malloc_heap |]. unfold malloc_post, got_more, refused. rewrite Eb, El.
    intros r s' [Hk' Hpost]. split; [| done]. intros x Hx. rewrite Hk', Hk by done. done.
Qed.

(** [free] of a live block puts it back on the ring. *)
Lemma free_heap live got s a n :
  heap_inv live got s → live !! a = Some n →
  wp (free (a + header)) (λ _ s', heap_inv (delete a live) got s' ∧ u_brk s' = u_brk s ∧ kept (delete a live) s s') s.
Proof.
  intros [(_ & -> & _)|(fs & H)] Ha; [by rewrite lookup_empty in Ha |].
  destruct (h_live _ _ _ _ H a n Ha) as [Hok Hsz].
  assert (Hla : ∀ x, inb (a, n) x → in_live live x) by (intros x Hx; by exists a, n).
  assert (Hdel : ∀ x, in_live live x ↔ in_live (delete a live) x ∨ inb (a, n) x).
  { intros x. rewrite <- (insert_delete_id live a n) at 1 by done. apply in_live_insert, lookup_delete_eq. }
  assert (Hdis : ∀ x, in_live (delete a live) x → inb (a, n) x → False).
  { intros x (b & k & Hb & Hx) Hx'. apply lookup_delete_Some in Hb as [Hne Hb]. apply Hne. by eapply (h_apart _ _ _ _ H). }
  eapply wp_mono; [apply (free_spec fs s a n (h_ring _ _ _ _ H) Hok Hsz) |].
  { intros x Hf Hx. eapply (h_sep _ _ _ _ H); [by apply Hla | done]. }
  intros [] s' (fs' & R' & Hcov & _ & _ & Hbrk & _ & Ho).
  assert (Hk : kept (delete a live) s s').
  { intros x Hx. apply Ho. pose proof (live_low _ _ _ _ x H (proj2 (Hdel x) (or_introl Hx))).
    intros [?|[?|?]]; [hdr | eapply (h_sep _ _ _ _ H); [apply Hdel; by left | done] | by eapply Hdis]. }
  split_and!; [| done | done]. right. exists fs'. split; rewrite ?Hbrk; [done | apply (h_phys _ _ _ _ H) | | | |].
  - intros b k Hb. pose proof Hb as Hb'. apply lookup_delete_Some in Hb' as [_ Hb'].
    destruct (h_live _ _ _ _ H b k Hb') as [Hbk <-]. split; [done |]. apply same_header_read. intros x Hx. apply Hk.
    exists b, (hsize (u_mem s) b). split; [done |]. unfold ok_block in Hbk. hdr.
  - intros b k c j x Hb Hc. apply lookup_delete_Some in Hb as [_ Hb], Hc as [_ Hc]. by eapply (h_apart _ _ _ _ H).
  - intros x Hx [Hf|Hf]%Hcov; [| by eapply Hdis]. eapply (h_sep _ _ _ _ H); [apply Hdel; by left | done].
  - intros x. rewrite (h_got _ _ _ _ H), Hcov, Hdel. tauto.
Qed.
End Heap.

(** ** A program that uses the heap

    The program allocates, frees what it has, writes inside its blocks, and
    may grow its memory for other purposes.  The configuration keeps the
    blocks it has and what [malloc] got from the system. *)
Inductive hstep (base : Z) : ust * gmap Z Z * list block → ust * gmap Z Z * list block → Prop :=
| HMalloc s live got nb r s' :
    0 <= nb <= 2 ^ 31 - 32 → malloc base nb s = Ret r s' →
    hstep base (s, live, got)
      (s', if decide (r = 0) then live else <[r - header := units nb]> live, got_more s s' got)
| HFree s live got a n s' :
    live !! a = Some n → free (a + header) s = Ret tt s' → hstep base (s, live, got) (s', delete a live, got)
| HWrite s live got a n x v :
    live !! a = Some n → a + header <= x < a + header * n →
    hstep base (s, live, got) (put_mem (<[x := v]> (u_mem s)) s, live, got)
| HGrow s live got k :
    0 <= k → u_brk s + k <= phys_mem →
    hstep base (s, live, got) (Ust (u_mem s) (u_brk s + k) (u_mem_left s) (u_freep s), live, got).

Lemma heap_inv_write base live got s a n x v :
  heap_inv base live got s → live !! a = Some n → a + header <= x < a + header * n →
  heap_inv base live got (put_mem (<[x := v]> (u_mem s)) s).
Proof.
  intros [(_ & -> & _)|(fs & H)] Ha Hx; [by rewrite lookup_empty in Ha |]. right. exists fs.
  assert (Hl : in_live live x) by (exists a, n; split; [done | hdr]).
  pose proof (live_low _ _ _ _ _ x H Hl) as Hlow. split; cbn [u_mem u_brk put_mem]; try apply H.
  - eapply ring_only; [apply (h_ring _ _ _ _ _ H) | done | |].
    + pose proof (r_brk _ _ _ (h_ring _ _ _ _ _ H)). cbn. lia.
    + intros y Hy. cbn. apply lookup_insert_ne. intros <-. apply Hy. intros [?|?]; [hdr | by eapply (h_sep _ _ _ _ _ H)].
  - intros b k Hb. destruct (h_live _ _ _ _ _ H b k Hb) as [Hok <-]. split; [done |]. apply same_header_read.
    intros y Hy. apply lookup_insert_ne. intros <-. unfold ok_block in Hok.
    assert (a = b) as <- by (eapply (h_apart _ _ _ _ _ H _ _ _ _ x); [done | done | hdr | hdr]). hdr.
Qed.

Lemma heap_inv_grow base live got s k :
  heap_inv base live got s → 0 <= k → u_brk s + k <= phys_mem →
  heap_inv base live got (Ust (u_mem s) (u_brk s + k) (u_mem_left s) (u_freep s)).
Proof.
  intros [(? & ? & ? & ? & ?)|(fs & H)] Hk Hle; [left; unfold unused; cbn; split_and!; try done; lia |].
  assert (phys_mem <= 2 ^ 31) by (unfold phys_mem; lia).
  right. exists fs. split; cbn [u_mem u_brk]; try apply H; [| done |].
  - eapply ring_only; [apply (h_ring _ _ _ _ _ H) | done | cbn; lia | done].
  - intros a n Ha. destruct (h_live _ _ _ _ _ H a n Ha) as [(? & ? & ?) ?]. split; [| done]. unfold ok_block. hdr.
Qed.

Lemma hstep_inv base s live got s' live' got' :
  hstep base (s, live, got) (s', live', got') → heap_inv base live got s → heap_inv base live' got' s'.
Proof.
  inversion 1; subst; intros Hinv.
  - destruct (wp_inv _ _ _ (malloc_spec base live got s nb Hinv ltac:(done))) as (r0 & s0 & Hrun & Hp).
    assert (r0 = r ∧ s0 = s') as [-> ->] by (split; congruence).
    destruct Hp as [_ [(-> & _ & Eb & Hi)|(b & -> & _ & _ & Hok & Hi)]].
    + rewrite decide_True by done. unfold got_more. rewrite decide_False by lia. done.
    + rewrite decide_False.
      * by replace (b + header - header) with b by lia.
      * destruct Hi as [(_ & Hi & _)|(fs & Hi)]; [by apply insert_non_empty in Hi |].
        pose proof (r_base _ _ _ (h_ring _ _ _ _ _ Hi)). unfold ok_block in Hok. hdr.
  - destruct (wp_inv _ _ _ (free_heap base _ _ s a n Hinv ltac:(done))) as ([] & s0 & Hrun & Hp & _). congruence.
  - by eapply heap_inv_write.
  - by apply heap_inv_grow.
Qed.

Lemma hsteps_inv base c c' :
  rtc (hstep base) c c' → heap_inv base c.1.2 c.2 c.1.1 → heap_inv base c'.1.2 c'.2 c'.1.1.
Proof.
  induction 1 as [|[[s live] got] [[s1 live1] got1] c Hs _ IH]; [done |]. intros Hi. apply IH. by eapply hstep_inv.
Qed.

(** ** Theorems *)

(** C24: whatever a program allocates, frees and writes in its own blocks, its
    blocks never overlap each other or a free block, and they lie in its
    memory; the free blocks are in address order with no two of them
    adjacent (so [free] has merged everything that can be merged), and
    nothing leaks: every byte that [malloc] got from the system is in a free
    block or in a block of the program. *)
Theorem heap_sound base s0 s live got :
  unused base ∅ [] s0 → rtc (hstep base) (s0, ∅, []) (s, live, got) →
  (∀ a n, live !! a = Some n → base + header <= a ∧ 1 <= n ∧ a + header * n <= u_brk s) ∧
  (∀ a n b k, live !! a = Some n → live !! b = Some k → a ≠ b → a + header * n <= b ∨ b + header * k <= a) ∧
  ∃ fs, StronglySorted gap fs ∧ (u_freep s ≠ 0 → links (u_mem s) ((base, 0) :: fs) base) ∧
    (∀ x, inbs got x ↔ inbs fs x ∨ in_live live x) ∧ (∀ x, inbs fs x → in_live live x → False).
Proof.
  intros Hun Hsteps. apply hsteps_inv in Hsteps as Hinv; [| by left]. cbn [fst snd] in Hinv.
  destruct Hinv as [(Hf & -> & -> & _)|(fs & H)].
  - split_and!; [intros a n Ha; by rewrite lookup_empty in Ha | intros a n b k Ha; by rewrite lookup_empty in Ha |]. exists []. split_and!; [constructor | done | |].
    + intros x. split; [by left |]. intros [?|(a & n & Ha & _)]; [done | by rewrite lookup_empty in Ha].
    + intros x _ (a & n & Ha & _). by rewrite lookup_empty in Ha.
  - split_and!.
    + intros a n Ha. apply (h_live _ _ _ _ _ H a n Ha).
    + intros a n b k Ha Hb Hne. apply (apart (a, n) (b, k)).
      * by destruct (h_live _ _ _ _ _ H a n Ha) as [(_ & ? & _) _].
      * by destruct (h_live _ _ _ _ _ H b k Hb) as [(_ & ? & _) _].
      * intros x Hx Hx'. apply Hne. by eapply (h_apart _ _ _ _ _ H).
    + exists fs. split_and!; [apply (r_sorted _ _ _ (h_ring _ _ _ _ _ H)) | intros _; apply (r_links _ _ _ (h_ring _ _ _ _ _ H)) |
        apply (h_got _ _ _ _ _ H) |]. intros x Hx Hl. by eapply (h_sep _ _ _ _ _ H).
Qed.

(** C25: [malloc] returns, with 0 only when the system refused more memory,
    otherwise with a place for the bytes asked for, inside the memory of the
    process and apart from every block the program has; [free] of any block
    of the program returns.  Neither touches a byte of the blocks the
    program keeps. *)
Theorem malloc_free_work base s0 s live got nb :
  unused base ∅ [] s0 → rtc (hstep base) (s0, ∅, []) (s, live, got) → 0 <= nb <= 2 ^ 31 - 32 →
  (∃ r s', malloc base nb s = Ret r s' ∧ kept live s s' ∧
     (r = 0 ∧ refused s (units nb) ∨
      base + 2 * header <= r ∧ r + nb <= u_brk s' ∧
      ∀ a n, live !! a = Some n → r + nb <= a ∨ a + header * n <= r - header)) ∧
  (∀ a n, live !! a = Some n → ∃ s', free (a + header) s = Ret tt s' ∧ kept (delete a live) s s').
Proof.
  intros Hun Hsteps Hnb. apply hsteps_inv in Hsteps as Hinv; [| by left]. cbn [fst snd] in Hinv. split.
  - destruct (wp_inv _ _ _ (malloc_spec base live got s nb Hinv Hnb)) as (r & s' & Hrun & Hk & Hp).
    exists r, s'. split_and!; [done | done |]. destruct (units_spec nb Hnb) as (Hu1 & _ & Hu2).
    destruct Hp as [(-> & Hr & _)|(b & -> & _ & Hnew & (? & ? & ?) & _)]; [by left | right]. cbn [fst snd] in *.
    split_and!; [hdr | hdr |]. intros a n Ha.
    assert (1 <= n).
    { destruct Hinv as [(_ & -> & _)|(fs & H')]; [by rewrite lookup_empty in Ha |].
      by destruct (h_live _ _ _ _ _ H' a n Ha) as [(_ & ? & _) _]. }
    destruct (apart (b, units nb) (a, n)) as [?|?]; cbn [fst snd] in *; [done | done | | hdr | hdr].
    intros x Hx Hx'. apply (Hnew x Hx). by exists a, n.
  - intros a n Ha. destruct (wp_inv _ _ _ (free_heap base live got s a n Hinv Ha)) as ([] & s' & Hrun & _ & _ & Hk). eauto.
Qed.

(** The size is not checked against what [sbrk] takes, an [int]: a request of
    nearly 4 GB is answered with a block of 16 bytes. *)
Example malloc_overflow :
  answers (malloc 4096 (2 ^ 32 - 1) (heap0 8192 [true])) = Some (8208, 8208).
Proof. vm_compute. reflexivity. Qed.

Lemma session :
  ∃ s live got, rtc (hstep 4096) (heap0 8192 [true], ∅, []) (s, live, got) ∧ live !! 73600 = Some 8.
Proof.
  eexists _, _, _. split.
  - eapply rtc_l; [eapply (HMalloc 4096 _ _ _ 100); [lia | vm_compute; reflexivity] |].
    eapply rtc_l; [eapply (HWrite 4096 _ _ _ 73600 8 73616 65); [vm_compute; reflexivity | done] |]. apply rtc_refl.
  - vm_compute. reflexivity.
Qed.

Lemma heap0_unused : unused 4096 ∅ [] (heap0 8192 [true]).
Proof. by vm_compute. Qed.

Lemma heap_sound_witness :
  ∃ s live got, rtc (hstep 4096) (heap0 8192 [true], ∅, []) (s, live, got) ∧ live !! 73600 = Some 8 ∧
    73600 + header * 8 <= u_brk s.
Proof.
  destruct session as (s & live & got & Hs & Hl). exists s, live, got. split_and!; [done | done |].
  destruct (heap_sound 4096 _ s live got heap0_unused Hs) as [H _]. by apply H.
Defined.

Lemma malloc_free_work_witness :
  ∃ s live got r s', rtc (hstep 4096) (heap0 8192 [true], ∅, []) (s, live, got) ∧ live !! 73600 = Some 8 ∧
    malloc 4096 40 s = Ret r s' ∧ kept live s s'.
Proof.
  destruct session as (s & live & got & Hs & Hl).
  destruct (malloc_free_work 4096 _ s live got 40 heap0_unused Hs ltac:(lia)) as [(r & s' & H1 & H2 & _) _].
  by exists s, live, got, r, s'.
Defined.
