(* ===== verification/Exec.v ===== *)
(** * Program loading ([kernel/exec.c], [kernel/elf.h])

    [exec] works on the file system, the physical memory and the running
    process.  The kernel addresses it gives to [readi] and [copyout] are the
    two headers on its stack, pages of the new image (physical memory is
    mapped one to one), the argument strings and [ustack]; strings are lists
    of characters without their NUL.  [goto bad] is the call of [bad] with
    what has been acquired. *)
From S2P Require Import Prelude Params CString Locks BlockLayer Fs Dir Riscv Kalloc Vm Spinlock Proc.
Import CString.

Definition ELF_MAGIC : Z := 0x464C457F.
Definition ELF_PROG_LOAD : Z := 1.

Record elfhdr := ElfHdr { e_magic : Z; e_entry : Z; e_phoff : Z; e_phnum : Z }.
Record proghdr := ProgHdr { ph_type : Z; ph_off : Z; ph_vaddr : Z; ph_filesz : Z; ph_memsz : Z }.
Definition sizeof_elfhdr : Z := 64.
Definition sizeof_proghdr : Z := 56.

(** The fields that [exec] reads, where the compiler lays them out. *)
Definition elf_load (d : list Z) : elfhdr := ElfHdr (ld32 0 d) (ld64 24 d) (ld64 32 d) (ld16 56 d).
Definition ph_load (d : list Z) : proghdr :=
  ProgHdr (ld32 0 d) (ld64 8 d) (ld64 16 d) (ld64 32 d) (ld64 40 d).

Record est (S U : Type) := Est { x_fs : fst S U; x_mem : pmem; x_proc : proc }.
Arguments Est {S U}.
Arguments x_fs {S U}.
Arguments x_mem {S U}.
Arguments x_proc {S U}.

(** The array of argument pointers, with its terminating 0. *)
Definition ustack_bytes (ustack : list Z) : list Z := concat (le_enc 8 <$> ustack ++ [0]).
(** [sp -= n; sp -= sp % 16] *)
Definition push (sp n : Z) : Z := let sp := u64 (sp - n) in sp - sp mod 16.
(** The loop that sets [last] behind the last slash of the path. *)
Fixpoint last_elem (last s : list Z) : list Z :=
  match s with [] => last | c :: s => last_elem (if decide (c = 47) then s else last) s end.

Section Exec.
Context {S U : Type} `{BlockLayer S} `{UserMem U}.
Context (kend trampoline : Z).
Notation st := (est S U).

Definition fsx {A} (m : M (fst S U) A) : M st A := zoom x_fs (λ f s, Est f (x_mem s) (x_proc s)) m.
Definition memx {A} (m : M pmem A) : M st A := zoom x_mem (λ m s, Est (x_fs s) m (x_proc s)) m.
Definition upd_myproc (f : proc → proc) : M st unit := modify (λ s, Est (x_fs s) (x_mem s) (f (x_proc s))).

(** One page of [loadseg]: [readi] stores at the start of the page [pa]. *)
Definition load_page (pagetable a : Z) (ip : nat) (off n : Z) : M st Z :=
  let! pa := memx (walkaddr pagetable a) in
  if decide (pa = 0) then panic "loadseg: address should exist"
  else
    let! (r, bytes) := fsx (readi ip (Kernel []) off n) in
    let! p := memx (page_of pa) in
    memx (set_page pa (splice 0 bytes p));;
    ret r.

Fixpoint loadseg_loop (fuel : nat) (pagetable va : Z) (ip : nat) (offset sz i : Z) : M st Z :=
  if decide (i < sz) then
    match fuel with
    | O => λ _, OutOfFuel
    | Datatypes.S fuel =>
        let n := if decide (sz - i < PGSIZE) then sz - i else PGSIZE in
        let! r := load_page pagetable (u64 (va + i)) ip (u32 (offset + i)) n in
        if decide (r ≠ n) then ret (-1)
        else loadseg_loop fuel pagetable va ip offset sz (u32 (i + PGSIZE))
    end
  else ret 0.
Definition loadseg (pagetable va : Z) (ip : nat) (offset sz : Z) : M st Z :=
  if decide (va mod PGSIZE ≠ 0) then panic "loadseg: va must be page aligned"
  else loadseg_loop (Z.to_nat (sz / PGSIZE) + 1) pagetable va ip offset sz 0.

(** The loop over the program headers: whether it ended without [goto bad],
    and [sz]. *)
Fixpoint load_segments (k : nat) (ip : nat) (pagetable off sz : Z) : M st (bool * Z) :=
  match k with
  | O => ret (true, sz)
  | Datatypes.S k =>
      let! (r, d) := fsx (readi ip (Kernel []) (u32 off) sizeof_proghdr) in
      if decide (r ≠ sizeof_proghdr) then ret (false, sz)
      else
        let ph := ph_load d in
        let next := s32 (off + sizeof_proghdr) in
        if decide (ph_type ph ≠ ELF_PROG_LOAD) then load_segments k ip pagetable next sz
        else if decide (ph_memsz ph < ph_filesz ph) then ret (false, sz)
        else if decide (u64 (ph_vaddr ph + ph_memsz ph) < ph_vaddr ph) then ret (false, sz)
        else
          let! sz1 := memx (uvmalloc kend pagetable sz (u64 (ph_vaddr ph + ph_memsz ph))) in
          if decide (sz1 = 0) then ret (false, sz)
          else if decide (ph_vaddr ph mod PGSIZE ≠ 0) then ret (false, sz1)
          else
            let! r := loadseg pagetable (ph_vaddr ph) ip (u32 (ph_off ph)) (u32 (ph_filesz ph)) in
            if decide (r < 0) then ret (false, sz1)
            else load_segments k ip pagetable next sz1
  end.

(** The loop over [argv]: the stack pointer and [ustack], or [None] for
    [goto bad]. *)
Fixpoint push_args (pagetable stackbase : Z) (argv : list (list Z)) (ustack : list Z) (sp : Z)
    : M st (option (Z * list Z)) :=
  match argv with
  | [] => ret (Some (sp, ustack))
  | arg :: argv =>
      if decide (MAXARG ≤ length ustack)%nat then ret None
      else
        let sp := push sp (Z.of_nat (length arg) + 1) in
        if decide (sp < stackbase) then ret None
        else
          let! r := memx (copyout pagetable sp (arg ++ [0])) in
          if decide (r < 0) then ret None
          else push_args pagetable stackbase argv (ustack ++ [sp]) sp
  end.

(** Strings, then the array of pointers to them. *)
Definition push_stack (pagetable stackbase sp : Z) (argv : list (list Z)) : M st (option Z) :=
  let! r := push_args pagetable stackbase argv [] sp in
  match r with
  | None => ret None
  | Some (sp, ustack) =>
      let sp := push sp ((Z.of_nat (length ustack) + 1) * 8) in
      if decide (sp < stackbase) then ret None
      else
        let! r := memx (copyout pagetable sp (ustack_bytes ustack)) in
        if decide (r < 0) then ret None else ret (Some sp)
  end.

(** The label [bad]; 0 stands for a null [pagetable]. *)
Definition bad (pagetable sz : Z) (ip : option nat) : M st Z :=
  (if decide (pagetable ≠ 0) then memx (proc_freepagetable kend pagetable sz) else ret tt);;
  match ip with
  | Some ip => fsx (iunlockput ip);; fsx (bl bl_end_op);; ret (-1)
  | None => ret (-1)
  end.

Definition tf_a1 : nat := 120.

(** From [p->trapframe->a1 = sp] to the end. *)
Definition commit_image (path : list Z) (argc pagetable sz sp entry : Z) : M st Z :=
  let! p := gets x_proc in
  memx (set_tf (p_trapframe p) tf_a1 sp);;
  upd_myproc (λ p, set_name (copy_name (last_elem path path ++ [0]) (p_name p)) p);;
  upd_myproc (set_pagetable pagetable);;
  upd_myproc (set_sz sz);;
  memx (set_tf (p_trapframe p) tf_epc entry);;
  memx (set_tf (p_trapframe p) tf_sp sp);;
  memx (proc_freepagetable kend (p_pagetable p) (p_sz p));;
  ret (s32 argc).

Definition exec (path : list Z) (argv : list (list Z)) : M st Z :=
  fsx (bl bl_begin_op);;
  let! ip := fsx (namei path) in
  match ip with
  | None => fsx (bl bl_end_op);; ret (-1)
  | Some ip =>
      fsx (ilock ip);;
      let! (r, d) := fsx (readi ip (Kernel []) 0 sizeof_elfhdr) in
      if decide (r ≠ sizeof_elfhdr) then bad 0 0 (Some ip)
      else
        let elf := elf_load d in
        if decide (e_magic elf ≠ ELF_MAGIC) then bad 0 0 (Some ip)
        else
          let! p := gets x_proc in
          let! pagetable := memx (proc_pagetable kend trampoline (p_trapframe p)) in
          if decide (pagetable = 0) then bad 0 0 (Some ip)
          else
            let! (ok, sz) := load_segments (Z.to_nat (e_phnum elf)) ip pagetable (s32 (e_phoff elf)) 0 in
            if negb ok then bad pagetable sz (Some ip)
            else
              fsx (iunlockput ip);;
              fsx (bl bl_end_op);;
              let sz := PGROUNDUP sz in
              let! sz1 := memx (uvmalloc kend pagetable sz (u64 (sz + 2 * PGSIZE))) in
              if decide (sz1 = 0) then bad pagetable sz None
              else
                memx (uvmclear pagetable (u64 (sz1 - 2 * PGSIZE)));;
                let! r := push_stack pagetable (u64 (sz1 - PGSIZE)) sz1 argv in
                match r with
                | None => bad pagetable sz1 None
                | Some sp => commit_image path (Z.of_nat (length argv)) pagetable sz1 sp (e_entry elf)
                end
  end.
End Exec.
