(* ===== verification/ExecTheorems.v ===== *)
(** * Program loading: theorems

    [loadseg] brings the bytes of the file to the addresses the program
    header names; the stack a new program starts on holds its arguments, where its
    [argv] says. *)
From S2P Require Import Prelude Params CString BlockLayer Fs FsBlocks Image BlockAlloc FsInode FsFile FileIO FileTheorems UserMem Riscv Kalloc Vm VmProofs VmUser VmGrow VmTheorems Spinlock Proc Exec.

Section Theorems.
Context {S U : Type} `{BlockLayerOk S} `{UserMem U}.
Notation st := (est S U).
Implicit Types s : st.

(** ** The stack of the new program *)
Definition round16 (n : Z) : Z := 16 * ((n + 15) / 16).
(** What the argument strings need, and with them the array of pointers. *)
Definition args_size (argv : list (list Z)) : Z :=
  foldr (λ arg n, round16 (Z.of_nat (length arg) + 1) + n) 0 argv.
Definition stack_size (argv : list (list Z)) : Z :=
  args_size argv + round16 ((Z.of_nat (length argv) + 1) * 8).

Lemma round16_spec n : n <= round16 n < n + 16 ∧ round16 n mod 16 = 0.
Proof.
  unfold round16. pose proof (Z.div_mod (n + 15) 16 ltac:(lia)). pose proof (Z.mod_pos_bound (n + 15) 16 ltac:(lia)).
  split; [lia |]. rewrite Z.mul_comm. apply Z_mod_mult.
Qed.

Lemma push_eq sp n : sp mod 16 = 0 → 0 <= n <= sp → sp < 2 ^ 64 → push sp n = sp - round16 n.
Proof.
  intros Ha Hn Hs. unfold push, u64. rewrite (Z.mod_small (sp - n)) by lia. unfold round16.
  pose proof (Z.div_mod sp 16 ltac:(lia)). pose proof (Z.div_mod (n + 15) 16 ltac:(lia)).
  pose proof (Z.mod_pos_bound (n + 15) 16 ltac:(lia)). pose proof (Z.div_mod (sp - n) 16 ltac:(lia)).
  pose proof (Z.mod_pos_bound (sp - n) 16 ltac:(lia)). lia.
Qed.

Lemma args_size_nonneg argv : 0 <= args_size argv.
Proof.
  induction argv as [|a argv IH]; [done |]. cbn [args_size foldr]. fold (args_size argv).
  pose proof (round16_spec (Z.of_nat (length a) + 1)). lia.
Qed.

(** What a call may have done to the memory: bytes changed inside
    [lo, hi) only, none mapped or unmapped. *)
Definition umem (root : Z) (s : st) : uspace := Uspace (x_mem s) root.
Record within (root lo hi : Z) (s s' : st) : Prop := Within {
  w_fs : x_fs s' = x_fs s;
  w_proc : x_proc s' = x_proc s;
  w_wf : us_wf (umem root s');
  w_same : ∀ x, ¬ (lo <= x < hi) → us_byte (umem root s') x = us_byte (umem root s) x;
  w_dom : ∀ x, is_Some (us_byte (umem root s) x) → is_Some (us_byte (umem root s') x) }.

Lemma within_trans root lo mid hi s1 s2 s3 :
  lo <= mid <= hi → within root mid hi s1 s2 → within root lo mid s2 s3 → within root lo hi s1 s3.
Proof.
  intros Hle A B. split.
  - by rewrite (w_fs _ _ _ _ _ B), (w_fs _ _ _ _ _ A).
  - by rewrite (w_proc _ _ _ _ _ B), (w_proc _ _ _ _ _ A).
  - apply (w_wf _ _ _ _ _ B).
  - intros x Hx. rewrite (w_same _ _ _ _ _ B), (w_same _ _ _ _ _ A) by lia. done.
  - intros x Hx. apply (w_dom _ _ _ _ _ B), (w_dom _ _ _ _ _ A), Hx.
Qed.

Lemma copyout_within s root a src :
  us_wf (umem root s) → 0 <= a → accessible (umem root s) a (Z.of_nat (length src)) →
  wp (memx (copyout root a src)) (λ r s', r = 0 ∧ within root a (a + Z.of_nat (length src)) s s' ∧
    holds (umem root s') a src) s.
Proof.
  intros Hu Ha Hacc. apply wp_zoom. eapply wp_mono.
  { apply (copyout_loop_ok (length src) (umem root s) a src Hu Ha); [done |]. intros k Hk. apply Hacc. lia. }
  intros r m' (-> & Hu' & Hb). cbn [us_root umem] in *. split; [done |]. split.
  - split; [done | done | done | |].
    + intros x Hx. cbn [umem x_mem]. rewrite Hb, decide_False by lia. done.
    + intros x Hx. cbn [umem x_mem]. rewrite Hb. case_decide; [| done]. apply lookup_lt_is_Some_2. lia.
  - intros k x Hk. apply lookup_lt_Some in Hk as Hlt. unfold um_byte. cbn [vm_mem_ok umem x_mem].
    rewrite Hb, decide_True by lia. rewrite <- Hk. f_equal. lia.
Qed.

Lemma holds_within root lo hi s s' a bytes :
  within root lo hi s s' → holds (umem root s) a bytes →
  (a + Z.of_nat (length bytes) <= lo ∨ hi <= a) → holds (umem root s') a bytes.
Proof.
  intros W Hh Hd k x Hk. apply lookup_lt_Some in Hk as Hlt.
  unfold um_byte in *. cbn [vm_mem_ok]. rewrite (w_same _ _ _ _ _ W) by lia. by apply Hh.
Qed.

(** The strings, each at its pointer. *)
Definition strings_at (root : Z) (s : st) (lo hi : Z) (argv : list (list Z)) (ptrs : list Z) : Prop :=
  Forall2 (λ arg p, holds (umem root s) p (arg ++ [0]) ∧ lo <= p ∧ p + Z.of_nat (length arg) + 1 <= hi) argv ptrs.

Lemma push_args_spec root base argv ustack sp s :
  us_wf (umem root s) → sp mod 16 = 0 → PGSIZE <= base <= sp → sp < 2 ^ 64 → accessible (umem root s) base (sp - base) →
  Forall (λ arg, Z.of_nat (length arg) < PGSIZE) argv → (length ustack + length argv ≤ MAXARG)%nat →
  wp (push_args root base argv ustack sp) (λ r s', match r with
    | None => x_fs s' = x_fs s ∧ x_proc s' = x_proc s ∧ sp - base < args_size argv
    | Some (sp', us) => ∃ ptrs, us = ustack ++ ptrs ∧ sp' = sp - args_size argv ∧ base <= sp' ∧ sp' mod 16 = 0 ∧
        within root sp' sp s s' ∧ strings_at root s' sp' sp argv ptrs
    end) s.
Proof.
  revert ustack sp s. induction argv as [|arg argv IH]; intros ustack sp s Hu Ha Hb Hs Hacc Hlen Hmax; cbn [push_args].
  - wp_steps. exists []. cbn [args_size foldr]. rewrite app_nil_r, Z.sub_0_r. split_and!; [done | lia | lia | done | by split | by constructor].
  - apply Forall_cons in Hlen as [Hl Hlen]. cbn [length] in Hmax. rewrite decide_False by lia.
    set (n := Z.of_nat (length arg) + 1). pose proof (round16_spec n) as [Hr Hr16].
    rewrite push_eq by (try lia; unfold n, PGSIZE in *; lia). cbn [args_size foldr]. fold (args_size argv). fold n.
    pose proof (args_size_nonneg argv). set (sp1 := sp - round16 n).
    destruct (decide (sp1 < base)) as [Hlt|Hge].
    { wp_steps. split_and!; [done | done |]. unfold sp1 in Hlt. lia. }
    assert (Hlb : Z.of_nat (length (arg ++ [0])) = n) by (rewrite length_app; cbn; lia).
    apply wp_bind. eapply wp_mono.
    { apply (copyout_within s root sp1 (arg ++ [0])); [done | unfold PGSIZE in *; lia |]. rewrite Hlb. intros k Hk.
      replace (sp1 + k) with (base + (sp1 + k - base)) by lia. apply Hacc. unfold sp1 in *. lia. }
    intros r s1 (-> & W1 & Hh). rewrite decide_False by lia. rewrite Hlb in W1.
    assert (W1' : within root sp1 sp s s1).
    { split; try apply W1. intros x Hx. apply (w_same _ _ _ _ _ W1). unfold sp1 in *. lia. }
    eapply wp_mono.
    { apply (IH (ustack ++ [sp1]) sp1 s1); [apply W1 | | lia | unfold sp1; lia | | done | rewrite length_app; cbn; lia].
      - unfold sp1. rewrite Zminus_mod, Ha, Hr16. done.
      - intros k Hk. apply (w_dom _ _ _ _ _ W1'), Hacc. unfold sp1 in *. lia. }
    intros [[sp' us]|] s2.
    + intros (ptrs & -> & -> & Hge' & Ha' & W2 & Hst). exists (sp1 :: ptrs).
      replace (sp - (round16 n + args_size argv)) with (sp1 - args_size argv) by (unfold sp1; lia).
      split_and!; [by rewrite <- app_assoc | done | done | done | |].
      * eapply within_trans; [| exact W1' | exact W2]. unfold sp1 in *. lia.
      * constructor; [| eapply Forall2_impl; [exact Hst |]; cbn; intros; unfold sp1 in *; intuition lia].
        split_and!; [| unfold sp1; lia | unfold sp1, n in *; lia].
        eapply holds_within; [exact W2 | exact Hh |]. right. lia.
    + intros (E1 & E2 & Hlt). split_and!; [by rewrite E1, (w_fs _ _ _ _ _ W1) | by rewrite E2, (w_proc _ _ _ _ _ W1) |].
      unfold sp1 in Hlt. lia.
Qed.

Lemma ustack_bytes_length l : length (ustack_bytes l) = (8 * (length l + 1))%nat.
Proof.
  unfold ustack_bytes. assert (∀ k, length (concat (le_enc 8 <$> k)) = (8 * length k)%nat) as E.
  { induction k as [|x k IH]; [done |]. cbn [fmap list_fmap concat length]. rewrite length_app, IH, le_enc_length. lia. }
  rewrite E, length_app. cbn. lia.
Qed.

(** C26: [exec] puts the arguments on the stack of the new program: every
    string, NUL included, at its own address, and at the final stack pointer
    the array of these addresses in order, eight bytes each, ended by 0.  The
    stack pointer is a multiple of 16, everything lies between it and the top
    of the stack page, nothing else of the memory changes, and the call fails
    exactly when the arguments do not fit the page. *)
Theorem exec_stack root base argv s :
  us_wf (umem root s) → base mod PGSIZE = 0 → PGSIZE <= base → base < MAXVA → accessible (umem root s) base PGSIZE →
  Forall (λ arg, Z.of_nat (length arg) < PGSIZE) argv → (length argv ≤ MAXARG)%nat →
  wp (push_stack root base (base + PGSIZE) argv) (λ r s', x_fs s' = x_fs s ∧ x_proc s' = x_proc s ∧ match r with
    | None => PGSIZE < stack_size argv
    | Some sp => sp = base + PGSIZE - stack_size argv ∧ base <= sp ∧ sp mod 16 = 0 ∧
        within root base (base + PGSIZE) s s' ∧
        ∃ ptrs, holds (umem root s') sp (concat (le_enc 8 <$> ptrs ++ [0])) ∧ strings_at root s' sp (base + PGSIZE) argv ptrs
    end) s.
Proof.
  intros Hu Hal Hb Hm Hacc Hlen Hmax. assert (HM : MAXVA + PGSIZE < 2 ^ 64) by done.
  assert (Ha16 : (base + PGSIZE) mod 16 = 0).
  { pose proof (Z.div_mod base PGSIZE ltac:(done)) as E. rewrite Hal in E. rewrite E. unfold PGSIZE.
    replace (4096 * (base / 4096) + 0 + 4096) with ((256 * (base / 4096) + 256) * 16) by lia. apply Z_mod_mult. }
  unfold push_stack. apply wp_bind. eapply wp_mono.
  { apply (push_args_spec root base argv [] (base + PGSIZE) s); try done; [unfold PGSIZE in *; lia | lia |].
    by replace (base + PGSIZE - base) with PGSIZE by lia. }
  intros [[sp us]|] s1.
  2: { intros (E1 & E2 & Hlt). wp_steps. split_and!; [done | done |]. unfold stack_size.
       pose proof (round16_spec ((Z.of_nat (length argv) + 1) * 8)). lia. }
  cbn [app]. intros (ptrs & -> & Hsp & Hge & Ha & W1 & Hst).
  assert (Hlp : length ptrs = length argv) by (symmetry; by eapply Forall2_length).
  set (n := (Z.of_nat (length argv) + 1) * 8). pose proof (round16_spec n) as [Hr Hr16].
  assert (Hn : n <= 33 * 8) by (unfold n, MAXARG in *; lia). rewrite Hlp. fold n.
  pose proof (args_size_nonneg argv).
  rewrite push_eq by (try lia; unfold PGSIZE in *; lia). unfold stack_size. fold n.
  destruct (decide (sp - round16 n < base)) as [Hlt|Hge2].
  { wp_steps. split_and!; [apply W1 | apply W1 | lia]. }
  set (sp' := sp - round16 n) in *.
  assert (Hlb : Z.of_nat (length (ustack_bytes ptrs)) = n) by (rewrite ustack_bytes_length, Hlp; unfold n; lia).
  apply wp_bind. eapply wp_mono.
  { apply (copyout_within s1 root sp' (ustack_bytes ptrs)); [apply W1 | unfold PGSIZE in *; lia |]. rewrite Hlb. intros k Hk.
    apply (w_dom _ _ _ _ _ W1). replace (sp' + k) with (base + (sp' + k - base)) by lia. apply Hacc. unfold sp' in *. lia. }
  intros r s2 (-> & W2 & Hh). rewrite decide_False by lia. wp_steps. rewrite Hlb in W2.
  assert (W2' : within root sp' sp s1 s2).
  { split; try apply W2. intros x Hx. apply (w_same _ _ _ _ _ W2). unfold sp' in *. lia. }
  assert (W : within root sp' (base + PGSIZE) s s2) by (eapply within_trans; [| exact W1 | exact W2']; unfold sp' in *; lia).
  split_and!; [apply W | apply W | unfold sp'; lia | lia | | |].
  - unfold sp'. rewrite Zminus_mod, Ha, Hr16. done.
  - split; try apply W. intros x Hx. apply (w_same _ _ _ _ _ W). lia.
  - exists ptrs. split; [done |]. eapply Forall2_impl; [exact Hst |]. cbn. intros arg p (Hp & Hlo & Hhi).
    split_and!; [| unfold sp'; lia | done]. eapply holds_within; [exact W2' | done | lia].
Qed.

(** ** Loading a segment *)

(** An inode in use whose file has no holes. *)
Record open_file (f : fst S U) (v : bview) (i : nat) (ip : inode) : Prop := OpenFile {
  of_rep : frep f v;
  of_fs : fswf (fs_sb f) v;
  of_ip : fs_icache f !! i = Some ip;
  of_dev : i_dev ip = ROOTDEV;
  of_blocks : fwf (fs_sb f) v (i_addrs ip);
  of_held : bv_held v = ∅;
  of_room : room 1 v;
  of_mapped : mapped v (i_addrs ip) (i_size ip);
  of_size : 0 <= i_size ip <= MAXFILE * BSIZE }.

Lemma opened_frame f f' v i ip : open_file f v i ip → frep f' v → sframe f f' → open_file f' v i ip.
Proof. intros [] Hr (E1 & E2 & _). split; rewrite ?E1, ?E2; done. Qed.

Lemma readi_open f v i ip off n :
  open_file f v i ip → 0 <= off → 0 <= n → off + n < 2 ^ 32 →
  wp (readi i (Kernel []) off n) (λ r f', r = (readable (i_size ip) off n,
      file_slice v (i_addrs ip) off (Z.to_nat (readable (i_size ip) off n))) ∧ open_file f' v i ip ∧ sframe f f') f.
Proof.
  intros O Hoff Hn Hlt. pose proof O as []. eapply wp_mono; [by apply (readi_spec f v i ip off n) |].
  intros r f' (-> & R' & F). split_and!; [done | by eapply opened_frame | done].
Qed.

(** The memory changed in [lo, hi) only, whatever the file system did. *)
Definition patched (root lo hi : Z) (s s' : st) : Prop :=
  x_proc s' = x_proc s ∧ within root lo hi (Est (x_fs s') (x_mem s) (x_proc s)) s'.

Lemma patched_trans root lo mid hi s1 s2 s3 :
  lo <= mid <= hi → patched root lo mid s1 s2 → patched root mid hi s2 s3 → patched root lo hi s1 s3.
Proof.
  intros Hle [E1 A] [E2 B]. split; [by rewrite E2 |]. split; cbn [x_fs x_proc].
  - done.
  - by rewrite E2.
  - apply (w_wf _ _ _ _ _ B).
  - intros x Hx. rewrite (w_same _ _ _ _ _ B) by lia. apply (w_same _ _ _ _ _ A). lia.
  - intros x Hx. apply (w_dom _ _ _ _ _ B), (w_dom _ _ _ _ _ A), Hx.
Qed.

Lemma readable_full size off n : 0 <= n → 0 <= off → readable size off n = n ↔ n = 0 ∨ off + n <= size.
Proof. intros Hn Ho. unfold readable. case_decide; lia. Qed.

Lemma readable_range size off n : 0 <= n → 0 <= readable size off n <= n.
Proof. intros Hn. unfold readable. case_decide; lia. Qed.

(** One page of the loop: read, then store at the start of the page. *)
Lemma load_page_spec root a v i ip off n s :
  open_file (x_fs s) v i ip → us_wf (umem root s) → 0 <= a → a mod PGSIZE = 0 → is_Some (us_byte (umem root s) a) →
  0 <= off → 0 < n <= PGSIZE → off + n < 2 ^ 32 →
  wp (load_page root a i off n)
    (λ r s', r = readable (i_size ip) off n ∧ open_file (x_fs s') v i ip ∧ sframe (x_fs s) (x_fs s') ∧
       patched root a (a + n) s s' ∧
       ∀ k, 0 <= k < r → us_byte (umem root s') (a + k) = Some (file_byte v (i_addrs ip) (off + k))) s.
Proof.
  intros O Hu Ha Hal [b Hb] Hoff Hn Hlt. destruct (us_page (umem root s) a b Hu Hb) as (_ & Hpa & _ & p & Hp & Hlp).
  cbn [umem us_pmem us_root] in *.
  assert (Ea : PGROUNDDOWN a = a) by (destruct (page_facts a Ha) as (_ & F & _); lia). rewrite Ea in Hpa, Hp.
  pose proof (readable_range (i_size ip) off n ltac:(lia)) as Hrr.
  unfold load_page. apply wp_bind, wp_zoom. eapply wp_intro; [apply walkaddr_eq; [apply (uw_pt _ Hu) | done] |].
  rewrite decide_False by done. apply wp_bind, wp_zoom. cbn [x_fs].
  eapply wp_mono; [apply (readi_open (x_fs s) v i ip off n O); lia |]. intros r f' (-> & O' & F'). cbv beta iota.
  set (bytes := file_slice _ _ _ _).
  assert (Hlb : Z.of_nat (length bytes) = readable (i_size ip) off n) by (unfold bytes; rewrite file_slice_length; lia).
  apply wp_bind, wp_zoom. eapply wp_intro; [unfold page_of; cbn [x_mem]; rewrite Hp; done |].
  apply wp_bind, wp_zoom, wp_modify, wp_ret. cbn [x_fs x_mem x_proc].
  destruct (us_store (umem root s) a p bytes Hu Ha) as [Hu' Hb']; cbn [umem us_pmem us_root]; rewrite ?Ea; [done | done | lia |].
  cbn [umem us_pmem us_root] in Hu', Hb'. rewrite Ea, Hal in Hu', Hb'.
  split_and!; [done | done | done | split; [done |]; split; try done |].
  - intros x Hx. unfold umem. cbn [x_mem]. rewrite Hb', decide_False by lia. done.
  - intros x Hx. unfold umem. cbn [x_mem]. rewrite Hb'. case_decide; [apply lookup_lt_is_Some_2; lia | done].
  - intros k Hk. unfold umem. cbn [x_mem]. rewrite Hb', decide_True by lia. unfold bytes, file_slice.
    replace (Z.to_nat (a + k - a)) with (Z.to_nat k) by lia.
    rewrite list_lookup_fmap, lookup_seq_lt by lia. cbn. do 2 f_equal. lia.
Qed.

Lemma loadseg_loop_spec fuel root va v i ip offset sz k s :
  open_file (x_fs s) v i ip → us_wf (umem root s) → 0 <= va → va mod PGSIZE = 0 → va + sz <= MAXVA →
  0 <= offset → 0 <= k → k mod PGSIZE = 0 → offset + sz < 2 ^ 32 - PGSIZE →
  (∀ j, k <= j < sz → is_Some (us_byte (umem root s) (va + j))) →
  sz - k <= PGSIZE * Z.of_nat fuel →
  wp (loadseg_loop fuel root va i offset sz k) (λ r s', open_file (x_fs s') v i ip ∧ sframe (x_fs s) (x_fs s') ∧
     patched root (va + k) (Z.max (va + k) (va + sz)) s s' ∧
     (if decide (sz <= k ∨ offset + sz <= i_size ip) then
        r = 0 ∧ ∀ j, k <= j < sz → us_byte (umem root s') (va + j) = Some (file_byte v (i_addrs ip) (offset + j))
      else r = -1)) s.
Proof.
  assert (HM : MAXVA + PGSIZE < 2 ^ 64) by done. assert (HP : PGSIZE = 4096) by done.
  revert k s. induction fuel as [|fuel IH]; intros k s O Hu Hva Hal Hmax Hoff Hk Hkal Hov Hacc Hf; cbn [loadseg_loop].
  all: destruct (decide (k < sz)) as [Hlt|Hge].
  1: cbn in Hf; lia.
  1,3: wp_steps; rewrite decide_True by lia; split_and!; [done | done | | done | intros; lia]; split; [done |]; by split.
  unfold u64. rewrite Z.mod_small by lia.
  assert (Ek : u32 (offset + k) = offset + k) by (apply u32_small; lia). rewrite Ek.
  set (n := if decide (sz - k < PGSIZE) then sz - k else PGSIZE).
  assert (Hn : n = Z.min (sz - k) PGSIZE) by (unfold n; destruct (decide (sz - k < PGSIZE)); lia). clearbody n.
  assert (Hal' : (va + k) mod PGSIZE = 0) by (rewrite Zplus_mod, Hal, Hkal; done).
  apply wp_bind. eapply wp_mono.
  { apply (load_page_spec root (va + k) v i ip (offset + k) n s O Hu); [lia | done | apply Hacc; lia | lia | unfold PGSIZE in *; lia | lia]. }
  intros r s1 (-> & O1 & F1 & P1 & Hb1).
  pose proof (readable_full (i_size ip) (offset + k) n ltac:(unfold PGSIZE in *; lia) ltac:(lia)) as Hfull.
  assert (P1' : patched root (va + k) (Z.min (va + k + PGSIZE) (va + sz)) s s1).
  { replace (Z.min (va + k + PGSIZE) (va + sz)) with (va + k + n) by lia. done. }
  destruct (decide (readable (i_size ip) (offset + k) n ≠ n)) as [Hne|He].
  - wp_steps. rewrite decide_False by (unfold PGSIZE in *; lia). split_and!; [done | done | | done].
    destruct P1' as [E W]. split; [done |]. split; try apply W. intros x Hx. apply (w_same _ _ _ _ _ W). lia.
  - assert (Er : readable (i_size ip) (offset + k) n = n) by lia. rewrite Er in Hb1.
    rewrite u32_small by (unfold PGSIZE in *; lia). eapply wp_mono.
    { apply (IH (k + PGSIZE) s1); try done; [apply P1 | unfold PGSIZE; lia | | | lia].
      - rewrite Zplus_mod, Hkal. done.
      - intros j Hj. apply (w_dom _ _ _ _ _ (proj2 P1)). apply Hacc. unfold PGSIZE in *. lia. }
    intros r s2 (O2 & F2 & P2 & Hr). split_and!; [done | by trans (x_fs s1) | |].
    + destruct (decide (k + PGSIZE <= sz)) as [Hle|Hgt].
      * eapply (patched_trans _ _ (va + k + PGSIZE)); [| by replace (va + k + PGSIZE) with (Z.min (va + k + PGSIZE) (va + sz)) by lia |].
        -- unfold PGSIZE in *. lia.
        -- replace (va + k + PGSIZE) with (va + (k + PGSIZE)) by lia.
           by replace (Z.max (va + k) (va + sz)) with (Z.max (va + (k + PGSIZE)) (va + sz)) by (unfold PGSIZE in *; lia).
      * replace (Z.max (va + k) (va + sz)) with (va + sz) by lia.
        replace (Z.max (va + (k + PGSIZE)) (va + sz)) with (va + (k + PGSIZE)) in P2 by lia.
        replace (Z.min (va + k + PGSIZE) (va + sz)) with (va + sz) in P1' by lia.
        destruct P1' as [E1 W1], P2 as [E2 W2]. split; [by rewrite E2 |]. split; cbn [x_fs x_proc]; [done | by rewrite E2 | apply W2 | |].
        -- intros x Hx. rewrite (w_same _ _ _ _ _ W2) by lia. apply (w_same _ _ _ _ _ W1). lia.
        -- intros x Hx. apply (w_dom _ _ _ _ _ W2), (w_dom _ _ _ _ _ W1), Hx.
    + destruct (decide (offset + sz <= i_size ip)) as [Hin|Hout].
      * rewrite decide_True in Hr by lia. rewrite decide_True by lia. destruct Hr as [-> Hb2]. split; [done |]. intros j Hj.
        destruct (decide (j < k + PGSIZE)) as [Hj'|Hj']; [| apply Hb2; lia].
        rewrite (w_same _ _ _ _ _ (proj2 P2)) by lia. specialize (Hb1 (j - k) ltac:(unfold PGSIZE in *; lia)).
        unfold umem in *. cbn [x_mem] in *. replace (va + k + (j - k)) with (va + j) in Hb1 by lia.
        by replace (offset + k + (j - k)) with (offset + j) in Hb1 by lia.
      * rewrite decide_False in Hr by (unfold PGSIZE in *; lia). rewrite decide_False by (unfold PGSIZE in *; lia). done.
Qed.

(** C27: [loadseg] brings a segment into memory: when the file is long enough
    it returns 0, and the bytes of the file from [offset] on stand at [va],
    [sz] of them; otherwise it returns -1.  Nothing outside the segment
    changes, and the file and the process stay as they are. *)
Theorem loadseg_loads root va v i ip offset sz s :
  open_file (x_fs s) v i ip → us_wf (umem root s) → 0 <= va → va mod PGSIZE = 0 → va + sz <= MAXVA →
  0 <= offset → 0 <= sz → offset + sz < 2 ^ 32 - PGSIZE → accessible (umem root s) va sz →
  wp (loadseg root va i offset sz) (λ r s', open_file (x_fs s') v i ip ∧ sframe (x_fs s) (x_fs s') ∧
     x_proc s' = x_proc s ∧ us_wf (umem root s') ∧
     (∀ x, ¬ (va <= x < va + sz) → us_byte (umem root s') x = us_byte (umem root s) x) ∧
     if decide (sz = 0 ∨ offset + sz <= i_size ip)
     then r = 0 ∧ holds (umem root s') va (file_slice v (i_addrs ip) offset (Z.to_nat sz))
     else r = -1) s.
Proof.
  intros O Hu Hva Hal Hmax Hoff Hsz Hov Hacc. unfold loadseg. rewrite decide_False by lia.
  eapply wp_mono.
  { apply (loadseg_loop_spec _ root va v i ip offset sz 0 s); try done.
    pose proof (Z.div_mod sz PGSIZE ltac:(done)). pose proof (Z.mod_pos_bound sz PGSIZE ltac:(done)).
    pose proof (Z.div_pos sz PGSIZE ltac:(lia) ltac:(done)). unfold PGSIZE in *. lia. }
  intros r s' (O' & F' & [E W] & Hr). rewrite Z.add_0_r in *. replace (Z.max va (va + sz)) with (va + sz) in W by lia.
  split_and!; [done | done | done | apply W | apply (w_same _ _ _ _ _ W) |].
  destruct (decide (offset + sz <= i_size ip)) as [Hin|Hout].
  - rewrite decide_True in Hr by lia. rewrite decide_True by lia. destruct Hr as [-> Hb]. split; [done |]. intros j x Hj.
    apply lookup_lt_Some in Hj as Hlt. rewrite file_slice_length in Hlt. unfold um_byte. cbn [vm_mem_ok].
    rewrite Hb by lia. unfold file_slice in Hj. rewrite list_lookup_fmap, lookup_seq_lt in Hj by lia. cbn in Hj. by simplify_eq.
  - destruct (decide (sz = 0)) as [->|Hne].
    + rewrite decide_True in Hr by lia. rewrite decide_True by lia. destruct Hr as [-> _]. split; [done |]. intros j x Hj. done.
    + rewrite decide_False in Hr by lia. rewrite decide_False by lia. done.
Qed.
End Theorems.

(** ** A small machine *)
Definition loader1 : est memst (list Z) := Est (fs64r 0) proc1 Proc.proc0.

Lemma root_open : open_file (x_fs loader1) (view64 0) 0 root_inode.
Proof.
  split; [apply fs64r_rep | apply fs64_fswf | reflexivity | reflexivity | apply root_fwf | reflexivity | | apply root_mapped | ].
  - apply view64_room. lia.
  - by vm_compute.
Qed.

Lemma space1_accessible a n : 0 <= a → a + n <= 8192 → accessible space1 a n.
Proof. intros Ha Hn k Hk. unfold um_byte. cbn [vm_mem_ok]. rewrite (proj2 proc1_facts) by lia. eauto. Qed.

(** The directory of the root as a segment at 4096. *)
Lemma loadseg_loads_witness :
  wp (loadseg root6 4096 0 0 32) (λ r s', open_file (x_fs s') (view64 0) 0 root_inode ∧ sframe (x_fs loader1) (x_fs s') ∧
     x_proc s' = x_proc loader1 ∧ us_wf (umem root6 s') ∧
     (∀ x, ¬ (4096 <= x < 4096 + 32) → us_byte (umem root6 s') x = us_byte (umem root6 loader1) x) ∧
     if decide (32 = 0 ∨ 0 + 32 <= i_size root_inode)
     then r = 0 ∧ holds (umem root6 s') 4096 (file_slice (view64 0) (i_addrs root_inode) 0 (Z.to_nat 32))
     else r = -1) loader1.
Proof.
  apply (loadseg_loads root6 4096 (view64 0) 0 root_inode 0 32 loader1).
  - apply root_open.
  - apply proc1_facts.
  - lia.
  - reflexivity.
  - by vm_compute.
  - lia.
  - lia.
  - by vm_compute.
  - apply (space1_accessible 4096 32); lia.
Defined.

Lemma exec_stack_witness :
  wp (push_stack root6 4096 (4096 + PGSIZE) [[108; 115]; [47]]) (λ r s', x_fs s' = x_fs loader1 ∧ x_proc s' = x_proc loader1 ∧
    match r with
    | None => PGSIZE < stack_size [[108; 115]; [47]]
    | Some sp => sp = 4096 + PGSIZE - stack_size [[108; 115]; [47]] ∧ 4096 <= sp ∧ sp mod 16 = 0 ∧
        within root6 4096 (4096 + PGSIZE) loader1 s' ∧
        ∃ ptrs, holds (umem root6 s') sp (concat (le_enc 8 <$> ptrs ++ [0])) ∧
          strings_at root6 s' sp (4096 + PGSIZE) [[108; 115]; [47]] ptrs
    end) loader1.
Proof.
  apply (exec_stack root6 4096 [[108; 115]; [47]] loader1).
  - apply proc1_facts.
  - reflexivity.
  - reflexivity.
  - by vm_compute.
  - apply (space1_accessible 4096 PGSIZE); by vm_compute.
  - by repeat constructor.
  - by vm_compute; lia.
Defined.
