(* ===== verification/Mkfs.v ===== *)
(** * Making the file system image ([mkfs/mkfs.c])

    The image file is a map from sectors to blocks; a system call that fails
    ends the program, as [assert] does.  The host is little-endian.  The
    files to copy are given with the results of [open] and of the calls of
    [read] on them; file names are lists of characters without their NUL. *)
From S2P Require Import Prelude Params CString Fs Dir.
Import CString.

Definition NINODES : Z := 200.
Definition nbitmap : Z := LOGICAL_DISK_SIZE / (BSIZE * 8) + 1.
Definition ninodeblocks : Z := NINODES / IPB + 1.
Definition nlog : Z := LOGSIZE.
Definition nmeta : Z := 2 + nlog + ninodeblocks + nbitmap.
Definition nblocks : Z := LOGICAL_DISK_SIZE - nmeta.

(** [xshort] and [xint]: store the bytes, read them back. *)
Definition xshort (x : Z) : Z := le_dec (le_enc 2 x).
Definition xint (x : Z) : Z := le_dec (le_enc 4 x).

Definition mk_sb : superblock :=
  Superblock FSMAGIC (xint LOGICAL_DISK_SIZE) (xint nblocks) (xint NINODES) (xint nlog)
    (xint 2) (xint (2 + nlog)) (xint (2 + nlog + ninodeblocks)).
Definition sb_image (sb : superblock) : list Z :=
  enc32s [sb_magic sb; sb_size sb; sb_nblocks sb; sb_ninodes sb;
          sb_nlog sb; sb_logstart sb; sb_inodestart sb; sb_bmapstart sb].

Record mst := Mst { m_img : gmap Z block; m_freeinode : Z; m_freeblock : Z }.

Definition wsect (sec : Z) (buf : block) : M mst unit :=
  modify (λ s, Mst (<[sec := buf]> (m_img s)) (m_freeinode s) (m_freeblock s)).
Definition rsect (sec : Z) : M mst block := λ s,
  match m_img s !! sec with Some d => Ret d s | None => Panic "read" end.

Definition winode (inum : Z) (ip : dinode) : M mst unit :=
  let bn := IBLOCK inum mk_sb in
  let! buf := rsect bn in
  wsect bn (dinode_store (dinode_off inum) ip buf).
Definition rinode (inum : Z) : M mst dinode :=
  let! buf := rsect (IBLOCK inum mk_sb) in
  ret (dinode_load (dinode_off inum) buf).

Definition ialloc (type : Z) : M mst Z :=
  let! inum := gets m_freeinode in
  modify (λ s, Mst (m_img s) (u32 (inum + 1)) (m_freeblock s));;
  let perm := s16 (xshort (Z.lor M_READ M_WRITE)) in
  winode inum (Dinode (xint 0) (replicate naddrs 0) (s16 (xshort type)) (s16 (xshort 1)) perm perm);;
  ret inum.

(** [freeblock++] *)
Definition take_freeblock : M mst Z :=
  let! b := gets m_freeblock in
  modify (λ s, Mst (m_img s) (m_freeinode s) (u32 (b + 1)));;
  ret (xint b).

(** [if (xint(din.addrs[k]) == 0) din.addrs[k] = xint(freeblock++);] *)
Definition ensure_addr (addrs : list Z) (k : nat) : M mst (list Z) :=
  if decide (xint (addrs !!! k) = 0) then let! b := take_freeblock in ret (<[k := b]> addrs)
  else ret addrs.

(** The block behind an entry of the indirect block, allocated if missing. *)
Definition ensure_entry (ind : Z) (k : nat) : M mst Z :=
  let! indirect := rsect ind in
  let! indirect :=
    (if decide (ld32 k indirect = 0) then
       let! b := take_freeblock in
       let indirect := st32 k b indirect in
       wsect ind indirect;;
       ret indirect
     else ret indirect) in
  ret (xint (ld32 k indirect)).

(** The block of the file that [iappend] writes to, and the new [addrs]. *)
Definition iappend_block (addrs : list Z) (fbn : Z) : M mst (list Z * Z) :=
  if decide (fbn < NDIRECT) then
    let k := Z.to_nat fbn in
    let! addrs := ensure_addr addrs k in
    ret (addrs, xint (addrs !!! k))
  else
    let ind := Z.to_nat NDIRECT in
    let! addrs := ensure_addr addrs ind in
    let! x := ensure_entry (xint (addrs !!! ind)) (4 * Z.to_nat (fbn - NDIRECT)) in
    ret (addrs, x).

(** [while (n > 0)] of [iappend]: the final [addrs] and [off]. *)
Fixpoint iappend_loop (fuel : nat) (addrs : list Z) (off : Z) (p : list Z) : M mst (list Z * Z) :=
  if decide (p = []) then ret (addrs, off)
  else match fuel with
  | O => λ _, OutOfFuel
  | S fuel =>
      let fbn := off / BSIZE in
      if decide (MAXFILE <= fbn) then panic "assert"
      else
        let! (addrs, x) := iappend_block addrs fbn in
        let n1 := Z.to_nat (Z.min (Z.of_nat (length p)) ((fbn + 1) * BSIZE - off)) in
        let! buf := rsect x in
        wsect x (splice (Z.to_nat (off - fbn * BSIZE)) (take n1 p) buf);;
        iappend_loop fuel addrs (u32 (off + Z.of_nat n1)) (drop n1 p)
  end.
Definition iappend (inum : Z) (p : list Z) : M mst unit :=
  let! din := rinode inum in
  let! (addrs, off) := iappend_loop (length p) (d_addrs din) (xint (d_size din)) p in
  winode inum (Dinode (xint off) addrs (d_type din) (d_nlink din) (d_mode din) (d_perm din)).

(** [buf[i / 8] = buf[i / 8] | (0x1 << (i % 8))] for all [i < used] *)
Definition mark_used (used : Z) : block := foldl (λ d i, bit_mark i d) zero_block (seqZ 0 used).
Definition balloc (used : Z) : M mst unit :=
  if decide (BSIZE * 8 <= used) then panic "assert"
  else wsect (sb_bmapstart mk_sb) (mark_used used).

(** A file of the command line: its name, and what [open] and then each
    [read] of up to [BSIZE] bytes give. *)
Record source := Source { src_name : list Z; src_chunks : option (list (list Z)) }.

Definition user_prefix : list Z := [117; 115; 101; 114; 47].
Definition strip_user (name : list Z) : list Z := if decide (take 5 name = user_prefix) then drop 5 name else name.
Definition strip_underscore (name : list Z) : list Z := match name with 95 :: name => name | _ => name end.
Definition shortname (f : source) : list Z := strip_underscore (strip_user (src_name f)).
(** [bzero(&de, sizeof(de)); strncpy(de.name, shortname, DIRSIZ)] *)
Definition entry_of (inum : Z) (name : list Z) : dirent :=
  Dirent (xshort inum) (take dirsiz (name ++ replicate dirsiz 0)).

Fixpoint append_chunks (inum : Z) (chunks : list (list Z)) : M mst unit :=
  match chunks with
  | [] => ret tt
  | c :: chunks => iappend inum c;; append_chunks inum chunks
  end.
Fixpoint copy_files (rootino : Z) (files : list source) : M mst unit :=
  match files with
  | [] => ret tt
  | f :: files =>
      if decide (SLASH ∈ strip_user (src_name f)) then panic "assert"
      else
        match src_chunks f with
        | None => panic "open"
        | Some chunks =>
            let! inum := ialloc T_FILE in
            iappend rootino (dirent_bytes (entry_of inum (shortname f)));;
            append_chunks inum chunks;;
            copy_files rootino files
        end
  end.

(** "fix size of root inode dir" *)
Definition fix_root_size (rootino : Z) : M mst unit :=
  let! din := rinode rootino in
  let off := (xint (d_size din) / BSIZE + 1) * BSIZE in
  winode rootino (Dinode (xint off) (d_addrs din) (d_type din) (d_nlink din) (d_mode din) (d_perm din)).

Definition mkfs_main (files : list source) : M mst unit :=
  mfor (Z.to_nat FSSIZE) 0 (λ i, wsect i zero_block);;
  wsect 1 (splice 0 (sb_image mk_sb) zero_block);;
  let! rootino := ialloc T_DIR in
  if decide (rootino ≠ ROOTINO) then panic "assert"
  else
    iappend rootino (dirent_bytes (entry_of rootino [46]));;
    iappend rootino (dirent_bytes (entry_of rootino [46; 46]));;
    copy_files rootino files;;
    fix_root_size rootino;;
    let! used := gets m_freeblock in
    balloc used.
Definition mkfs_start : mst := Mst ∅ 1 nmeta.

Example mkfs_hello :
  match mkfs_main [Source [95; 97] (Some [[104; 105]])] mkfs_start with
  | Ret _ s =>
      (λ d, (d_size d, take 2 (d_addrs d), d_type d, m_freeblock s)) ∘ dinode_load (dinode_off 2) <$> m_img s !! 32
  | _ => None
  end = Some (2, [47; 0], T_FILE, 48).
Proof. vm_compute. reflexivity. Qed.
