(* ===== verification/MkfsData.v ===== *)
(** * Making the file system image: blocks and file contents

    The data side of the image while [mkfs] builds it ([data_ok]): the block
    slots of all files are distinct and below [freeblock], the rest of the
    image is zero, and every file reads as what was appended to it.
    [iappend_block] and the loop of [iappend] preserve it; the inode blocks
    come in only when [iappend] is done. *)
From S2P Require Import Prelude Params CString BlockLayer Fs Dir FsBlocks FsInode FsFile FileIO Mkfs.

Lemma mk_sb_eq : mk_sb = Superblock FSMAGIC 2048 2002 200 30 2 32 45.
Proof. vm_compute. reflexivity. Qed.
Lemma nmeta_eq : nmeta = 46. Proof. done. Qed.
Definition limit : Z := LOGICAL_DISK_SIZE.
Lemma limit_eq : limit = 2048. Proof. done. Qed.
Lemma fssize_eq : FSSIZE = 4096. Proof. done. Qed.
Ltac geo := rewrite ?nmeta_eq, ?limit_eq, ?fssize_eq in *; lia.

Lemma xint_small x : 0 <= x < 2 ^ 32 → xint x = x.
Proof. intros H. unfold xint. rewrite le_dec_enc. by apply Z.mod_small. Qed.

Lemma wp_rsect b d Q s : m_img s !! b = Some d → Q d s → wp (rsect b) Q s.
Proof. intros H HQ. unfold wp, rsect. by rewrite H. Qed.

(** The image as the kernel's block view. *)
Definition vw (m : gmap Z block) : bview := BView m m ∅ ∅ 0.

(** Slots a file of [n] bytes uses, and how many blocks these are. *)
Definition used_slots (n : Z) (k : nat) : Prop :=
  (∃ bn, 0 <= bn < MAXFILE ∧ bn * BSIZE < n ∧ k = data_slot bn) ∨ (k = IND ∧ NDIRECT * BSIZE < n).
Definition blocks_of (n : Z) : Z :=
  (n + BSIZE - 1) / BSIZE + (if decide (NDIRECT * BSIZE < n) then 1 else 0).

(** The bytes of a file: its contents, then zeros. *)
Definition byte_at (c : list Z) (o : Z) : Z := default 0 (c !! Z.to_nat o).

Record file_ok (m : gmap Z block) (fb : Z) (addrs c : list Z) (U : nat → Prop) : Prop := FileOk {
  fo_len : length addrs = naddrs;
  fo_range : ∀ k, (k < nslots)%nat → slot (vw m) addrs k ≠ 0 → nmeta <= slot (vw m) addrs k < fb;
  fo_used : ∀ k, (k < nslots)%nat → slot (vw m) addrs k ≠ 0 ↔ U k;
  fo_bytes : ∀ o, 0 <= o < MAXFILE * BSIZE → file_byte (vw m) addrs o = byte_at c o }.

Record data_ok (m : gmap Z block) (fb : Z) (A C : list (list Z)) (Us : nat → nat → Prop) : Prop := DataOk {
  da_blocks : ∀ b, 0 <= b < FSSIZE → ∃ d : block, m !! b = Some d ∧ length d = bsize;
  da_free : ∀ b, fb <= b < FSSIZE → m !! b = Some zero_block;
  da_fb : nmeta <= fb <= limit;
  da_len : length A = length C;
  da_file : ∀ k addrs c, A !! k = Some addrs → C !! k = Some c → file_ok m fb addrs c (Us k);
  da_inj : ∀ i j ai aj a b, A !! i = Some ai → A !! j = Some aj → (a < nslots)%nat → (b < nslots)%nat →
    slot (vw m) ai a ≠ 0 → slot (vw m) ai a = slot (vw m) aj b → i = j ∧ a = b }.

(** Slots of a file see only its indirect block. *)
Lemma slot_same m m' addrs k :
  (addrs !!! IND ≠ 0 → m' !! (addrs !!! IND) = m !! (addrs !!! IND)) → slot (vw m') addrs k = slot (vw m) addrs k.
Proof. intros H. by apply slot_ext. Qed.

Lemma file_block_same m m' addrs addrs' x :
  slot (vw m') addrs' (data_slot x) = slot (vw m) addrs (data_slot x) →
  (slot (vw m) addrs (data_slot x) ≠ 0 → m' !! slot (vw m) addrs (data_slot x) = m !! slot (vw m) addrs (data_slot x)) →
  file_block (vw m') addrs' x = file_block (vw m) addrs x.
Proof.
  intros E H. unfold file_block. rewrite E. destruct (decide (slot (vw m) addrs (data_slot x) = 0)) as [|Hne]; [done |].
  cbn [vw bv_now]. by rewrite H.
Qed.

(** A file none of whose blocks changed. *)
Lemma file_ok_kept m m' fb fb' addrs c U :
  file_ok m fb addrs c U → fb <= fb' →
  (∀ k, (k < nslots)%nat → slot (vw m) addrs k ≠ 0 → m' !! slot (vw m) addrs k = m !! slot (vw m) addrs k) →
  file_ok m' fb' addrs c U ∧ ∀ k, slot (vw m') addrs k = slot (vw m) addrs k.
Proof.
  intros F Hfb H.
  assert (E : ∀ k, slot (vw m') addrs k = slot (vw m) addrs k).
  { intros k. apply slot_same. intros Ha. rewrite <- slot_ind with (v := vw m). apply H; [unfold IND, nslots; lia |].
    by rewrite slot_ind. }
  split; [| done]. split.
  - apply F.
  - intros k Hk. rewrite E. intros Hs. pose proof (fo_range _ _ _ _ _ F k Hk Hs). lia.
  - intros k Hk. rewrite E. by apply F.
  - intros o Ho. rewrite <- (fo_bytes _ _ _ _ _ F o Ho). apply file_byte_ext; [done |]. intros bn Hbn.
    apply file_block_same; [apply E |]. apply H. by destruct (data_slot_lt bn Hbn).
Qed.

(** ** Filling a slot *)
Section Fill.
Context {m m' : gmap Z block} {fb : Z} {A C : list (list Z)} {Us : nat → nat → Prop}.
Context (D : data_ok m fb A C Us) {k : nat} {addrs c addrs' : list Z} {sl : nat}.
Context (HA : A !! k = Some addrs) (HC : C !! k = Some c) (Hfb : fb < limit) (Hsl : (sl < nslots)%nat).
Context (Hz : slot (vw m) addrs sl = 0) (Hlen : length addrs' = naddrs).
Context (Hslot : ∀ j, (j < nslots)%nat → slot (vw m') addrs' j = if decide (j = sl) then fb else slot (vw m) addrs j).
Context (Hm : ∀ b, m' !! b = m !! b ∨ b ≠ 0 ∧ b = slot (vw m) addrs IND).
Context (Hl : ∀ b, 0 <= b < FSSIZE → ∃ d : block, m' !! b = Some d ∧ length d = bsize).

Definition add_slot : nat → nat → Prop := λ i j, Us i j ∨ i = k ∧ j = sl.

Lemma fill_fresh i ai a : A !! i = Some ai → (a < nslots)%nat → slot (vw m) ai a ≠ fb.
Proof.
  intros Hi Ha E. destruct (lookup_lt_is_Some_2 C i) as [ci Hci].
  { rewrite <- (da_len _ _ _ _ _ D). by eapply lookup_lt_Some. }
  pose proof (da_fb _ _ _ _ _ D). rewrite nmeta_eq in *.
  pose proof (fo_range _ _ _ _ _ (da_file _ _ _ _ _ D i ai ci Hi Hci) a Ha) as Hr. rewrite nmeta_eq in Hr. lia.
Qed.

(** No block of another file changed. *)
Lemma fill_other i ai a : A !! i = Some ai → i ≠ k → (a < nslots)%nat → slot (vw m) ai a ≠ 0 →
  m' !! slot (vw m) ai a = m !! slot (vw m) ai a.
Proof.
  intros Hi Hne Ha Hs. destruct (Hm (slot (vw m) ai a)) as [|[_ E]]; [done |]. exfalso. apply Hne.
  apply (da_inj _ _ _ _ _ D i k ai addrs a IND Hi HA Ha); [unfold IND, nslots; lia | done | done].
Qed.

Lemma fill_file : file_ok m' (fb + 1) addrs' c (add_slot k).
Proof.
  pose proof (da_file _ _ _ _ _ D k addrs c HA HC) as F. pose proof (da_fb _ _ _ _ _ D) as Hf.
  split; [done | | |].
  - intros j Hj. rewrite Hslot by done. case_decide; [lia |]. intros Hs. pose proof (fo_range _ _ _ _ _ F j Hj Hs). lia.
  - intros j Hj. rewrite Hslot by done. unfold add_slot. rewrite <- (fo_used _ _ _ _ _ F j Hj). rewrite nmeta_eq in Hf.
    destruct (decide (j = sl)) as [->|Hne].
    + split; [intros _; by right | intros _; lia].
    + split; [by left | by intros [?|[_ ?]]].
  - intros o Ho. rewrite <- (fo_bytes _ _ _ _ _ F o Ho). apply file_byte_ext; [done |]. intros bn Hbn.
    destruct (data_slot_lt bn Hbn) as [Hb1 Hb2]. unfold file_block. rewrite Hslot by done. cbn [vw bv_now].
    destruct (decide (data_slot bn = sl)) as [E|Hne].
    + rewrite E, Hz, decide_False, (decide_True (P := 0 = 0)) by (rewrite ?nmeta_eq in *; lia).
      destruct (Hm fb) as [->|[_ Hx]].
      * by rewrite (da_free _ _ _ _ _ D) by (rewrite fssize_eq; rewrite limit_eq in *; lia).
      * exfalso. symmetry in Hx. eapply fill_fresh; [exact HA | | exact Hx]. unfold IND, nslots. lia.
    + destruct (decide (slot (vw m) addrs (data_slot bn) = 0)) as [|Hs]; [done |].
      destruct (Hm (slot (vw m) addrs (data_slot bn))) as [->|[_ Hx]]; [done |]. exfalso. apply Hb2.
      apply (da_inj _ _ _ _ _ D k k addrs addrs (data_slot bn) IND HA HA Hb1); [unfold IND, nslots; lia | done | done].
Qed.

Lemma fill_slot : data_ok m' (fb + 1) (<[k := addrs']> A) C add_slot.
Proof.
  pose proof (da_fb _ _ _ _ _ D) as Hf. assert (Hkl : (k < length A)%nat) by (by eapply lookup_lt_Some).
  assert (Hoth : ∀ i ai ci, A !! i = Some ai → C !! i = Some ci → i ≠ k →
    file_ok m' (fb + 1) ai ci (add_slot i) ∧ ∀ j, slot (vw m') ai j = slot (vw m) ai j).
  { intros i ai ci Hi Hci Hne. destruct (file_ok_kept m m' fb (fb + 1) ai ci (Us i)) as [F E].
    - by apply (da_file _ _ _ _ _ D).
    - lia.
    - intros a Ha. by eapply fill_other.
    - split; [| done]. destruct F as [F1 F2 F3 F4]. split; [done | done | | done]. intros j Hj. rewrite F3 by done.
      unfold add_slot. naive_solver. }
  split.
  - done.
  - intros b Hb. destruct (Hm b) as [->|[Hb0 E]]; [apply (da_free _ _ _ _ _ D); lia |].
    exfalso. pose proof (fo_range _ _ _ _ _ (da_file _ _ _ _ _ D k addrs c HA HC) IND) as Hr. rewrite <- E in Hr.
    specialize (Hr ltac:(unfold IND, nslots; lia) Hb0). lia.
  - lia.
  - rewrite length_insert. apply (da_len _ _ _ _ _ D).
  - intros i ai ci Hi Hci. pose proof fill_file as Hfile. apply list_lookup_insert_Some in Hi as [(<- & <- & _)|[Hne Hi]].
    + assert (ci = c) as -> by congruence. done.
    + by apply Hoth.
  - assert (Hs' : ∀ i ai a, <[k := addrs']> A !! i = Some ai → (a < nslots)%nat →
      ∃ bi, A !! i = Some bi ∧ slot (vw m') ai a = if decide (i = k ∧ a = sl) then fb else slot (vw m) bi a).
    { intros i ai a Hi Ha. apply list_lookup_insert_Some in Hi as [(-> & <- & _)|[Hne Hi]].
      - exists addrs. split; [done |]. rewrite Hslot by done. destruct (decide (a = sl)); [by rewrite decide_True | by rewrite decide_False by naive_solver].
      - exists ai. split; [done |]. destruct (lookup_lt_is_Some_2 C i) as [ci Hci].
        { rewrite <- (da_len _ _ _ _ _ D). by eapply lookup_lt_Some. }
        rewrite decide_False by naive_solver. by apply (Hoth i ai ci). }
    intros i j ai aj a b Hi Hj Ha Hb. destruct (Hs' i ai a Hi Ha) as (bi & Hbi & ->). destruct (Hs' j aj b Hj Hb) as (bj & Hbj & ->).
    destruct (decide (i = k ∧ a = sl)) as [[-> ->]|H1], (decide (j = k ∧ b = sl)) as [[-> ->]|H2]; intros Hs E.
    + done.
    + exfalso. symmetry in E. by eapply fill_fresh in E.
    + exfalso. by eapply fill_fresh in E.
    + by eapply (da_inj _ _ _ _ _ D).
Qed.
End Fill.

(** ** The block [iappend] writes to *)
Lemma data_ok_ext m fb A C Us Us' :
  (∀ i j, (i < length C)%nat → (j < nslots)%nat → Us i j ↔ Us' i j) → data_ok m fb A C Us → data_ok m fb A C Us'.
Proof.
  intros E [D1 D2 D3 D4 D5 D6]. split; try done. intros k addrs c Ha Hc. destruct (D5 k addrs c Ha Hc) as [F1 F2 F3 F4].
  split; try done. intros j Hj. rewrite <- E; [by apply F3 | by eapply lookup_lt_Some | done].
Qed.

(** A slot of file [k] has a block: the one it had, or the next free one. *)
Record ensured (m : gmap Z block) (fb : Z) (A C : list (list Z)) (Us : nat → nat → Prop) (k : nat) (addrs : list Z)
    (sl : nat) (m' : gmap Z block) (fb' : Z) (addrs' : list Z) : Prop := Ensured {
  en_data : data_ok m' fb' (<[k := addrs']> A) C (λ i j, Us i j ∨ i = k ∧ j = sl);
  en_slot : slot (vw m') addrs' sl ≠ 0;
  en_others : ∀ j, (j < nslots)%nat → j ≠ sl → slot (vw m') addrs' j = slot (vw m) addrs j;
  en_fb : fb' = fb + (if decide (slot (vw m) addrs sl = 0) then 1 else 0);
  en_meta : ∀ b, b < nmeta → m' !! b = m !! b }.

Section Append.
Context {m : gmap Z block} {fb : Z} {A C : list (list Z)} {Us : nat → nat → Prop}.
Context (D : data_ok m fb A C Us) {k : nat} {addrs c : list Z}.
Context (HA : A !! k = Some addrs) (HC : C !! k = Some c).

Lemma ensured_old sl : (sl < nslots)%nat → slot (vw m) addrs sl ≠ 0 → ensured m fb A C Us k addrs sl m fb addrs.
Proof.
  intros Hsl Hs. split; try done.
  - rewrite list_insert_id by done. eapply data_ok_ext; [| exact D]. intros i j Hi Hj. split; [tauto |].
    intros [?|[-> ->]]; [done |]. by apply (fo_used _ _ _ _ _ (da_file _ _ _ _ _ D k addrs c HA HC)).
  - rewrite decide_False by done. lia.
Qed.

Lemma ensured_new sl m' addrs' :
  fb < limit → (sl < nslots)%nat → slot (vw m) addrs sl = 0 → length addrs' = naddrs →
  (∀ j, (j < nslots)%nat → slot (vw m') addrs' j = if decide (j = sl) then fb else slot (vw m) addrs j) →
  (∀ b, m' !! b = m !! b ∨ b ≠ 0 ∧ b = slot (vw m) addrs IND ∧ ∃ d : block, m' !! b = Some d ∧ length d = bsize) →
  ensured m fb A C Us k addrs sl m' (fb + 1) addrs'.
Proof.
  intros Hfb Hsl Hz Hlen Hslot Hm. pose proof (da_fb _ _ _ _ _ D). rewrite nmeta_eq in *. split.
  - eapply fill_slot; try done.
    + intros b. destruct (Hm b) as [|(? & ? & _)]; [by left | by right].
    + intros b Hb. destruct (Hm b) as [->|(_ & _ & Hd)]; [by apply (da_blocks _ _ _ _ _ D) | done].
  - rewrite Hslot, decide_True by done. lia.
  - intros j Hj Hne. by rewrite Hslot, decide_False by done.
  - by rewrite decide_True.
  - intros b Hb. destruct (Hm b) as [|(Hb0 & E & _)]; [done |]. exfalso.
    pose proof (fo_range _ _ _ _ _ (da_file _ _ _ _ _ D k addrs c HA HC) IND ltac:(unfold IND, nslots; lia)) as Hr.
    rewrite <- E in Hr. specialize (Hr Hb0). geo.
Qed.

Lemma slot_range sl : (sl < nslots)%nat → 0 <= slot (vw m) addrs sl < 2 ^ 32.
Proof.
  intros Hsl. pose proof (da_fb _ _ _ _ _ D). rewrite nmeta_eq, limit_eq in *.
  destruct (decide (slot (vw m) addrs sl = 0)) as [->|Hne]; [lia |].
  pose proof (fo_range _ _ _ _ _ (da_file _ _ _ _ _ D k addrs c HA HC) sl Hsl Hne) as Hr. rewrite nmeta_eq in Hr. lia.
Qed.

Lemma fb_small : 0 < fb < 2 ^ 32 - 1.
Proof. pose proof (da_fb _ _ _ _ _ D). rewrite nmeta_eq, limit_eq in *. lia. Qed.

(** An entry of [din.addrs], direct or the indirect block. *)
Lemma ensure_addr_spec (j : nat) fi :
  (j ≤ IND)%nat → (slot (vw m) addrs j = 0 → fb < limit) →
  wp (ensure_addr addrs j)
    (λ addrs' s', s' = Mst m fi (m_freeblock s') ∧ ensured m fb A C Us k addrs j m (m_freeblock s') addrs') (Mst m fi fb).
Proof.
  intros Hj Hfb. pose proof (da_file _ _ _ _ _ D k addrs c HA HC) as F. pose proof fb_small as Hs.
  assert (Hjn : (j < nslots)%nat) by (unfold IND, nslots in *; lia).
  assert (Es : slot (vw m) addrs j = addrs !!! j) by (unfold slot; by rewrite decide_True).
  pose proof (slot_range j Hjn) as Hr. rewrite Es in Hr. unfold ensure_addr. rewrite xint_small by done.
  destruct (decide (addrs !!! j = 0)) as [Hz|Hne].
  - unfold take_freeblock. wp_steps. cbn [m_freeblock m_img m_freeinode].
    rewrite xint_small, u32_small by lia. split; [done |].
    specialize (Hfb ltac:(by rewrite Es)). apply ensured_new; try done; [by rewrite Es | | | by left].
    + rewrite length_insert. apply F.
    + intros i Hi. destruct (decide (j = IND)) as [->|Hni].
      * apply slot_insert_ind; [apply F | done | | done]. apply (da_free _ _ _ _ _ D). rewrite fssize_eq, limit_eq in *. lia.
      * apply slot_insert_direct; [apply F | unfold IND in *; lia].
  - wp_steps. split; [done |]. apply ensured_old; [done | by rewrite Es].
Qed.

(** An entry of the indirect block. *)
Lemma ensure_entry_spec (j : nat) fi :
  (IND < j < nslots)%nat → slot (vw m) addrs IND ≠ 0 → (slot (vw m) addrs j = 0 → fb < limit) →
  wp (ensure_entry (xint (addrs !!! IND)) (4 * (j - 13)))
    (λ x s', s' = Mst (m_img s') fi (m_freeblock s') ∧ x = slot (vw (m_img s')) addrs j ∧
       ensured m fb A C Us k addrs j (m_img s') (m_freeblock s') addrs) (Mst m fi fb).
Proof.
  intros Hj Hind Hfb. set (q := (4 * (j - 13))%nat). pose proof (da_file _ _ _ _ _ D k addrs c HA HC) as F. pose proof fb_small as Hs.
  rewrite slot_ind in Hind. pose proof (slot_range IND ltac:(unfold IND, nslots; lia)) as Hri. rewrite slot_ind in Hri.
  rewrite xint_small by done.
  pose proof (fo_range _ _ _ _ _ F IND ltac:(unfold IND, nslots; lia)) as Hr. rewrite slot_ind, nmeta_eq in Hr. specialize (Hr Hind).
  pose proof (da_fb _ _ _ _ _ D) as Hf. rewrite nmeta_eq, limit_eq in Hf.
  destruct (da_blocks _ _ _ _ _ D (addrs !!! IND)) as (d & Hd & Hld); [rewrite fssize_eq; lia |].
  assert (Es : slot (vw m) addrs j = ld32 q d).
  { unfold slot. rewrite decide_False, decide_False by (done || lia). cbn [vw bv_now]. by rewrite Hd. }
  unfold ensure_entry. apply wp_bind, (wp_rsect _ d); [exact Hd |]. pose proof (slot_range j ltac:(lia)) as Hrj. rewrite Es in Hrj.
  destruct (decide (ld32 q d = 0)) as [Hz|Hne].
  - specialize (Hfb ltac:(by rewrite Es)). unfold take_freeblock, wsect. wp_steps. cbn [m_freeblock m_img m_freeinode].
    rewrite xint_small by lia. rewrite (u32_small (fb + 1)) by lia.
    set (d' := st32 q fb d). set (m' := <[addrs !!! IND := d']> m).
    assert (Hslot : ∀ i, (i < nslots)%nat → slot (vw m') addrs i = if decide (i = j) then fb else slot (vw m) addrs i).
    { intros i Hi. rewrite <- (slot_set_entry (vw m) addrs j i d fb); try done; try lia. }
    split; [done |]. split.
    { rewrite Hslot, decide_True by (done || lia). unfold d', ld32, st32. rewrite ldn_stn_same.
      - change (256 ^ Z.of_nat 4) with (2 ^ 32). rewrite Z.mod_small by lia. apply xint_small. lia.
      - rewrite Hld, bsize_eq. unfold q, nslots, IND in *. lia. }
    apply ensured_new; try done; [lia | by rewrite Es | apply F |]. intros b. unfold m'.
    destruct (decide (b = addrs !!! IND)) as [->|Hb]; [right | left; by rewrite lookup_insert_ne].
    rewrite slot_ind. split_and!; [done | done |]. exists d'. rewrite lookup_insert_eq. split; [done |].
    unfold d', st32. rewrite stn_length; [done |]. rewrite Hld, bsize_eq. unfold q, nslots, IND in *. lia.
  - wp_steps. cbn [m_img m_freeblock]. split; [done |]. split; [by rewrite xint_small, Es |]. apply ensured_old; [lia | by rewrite Es].
Qed.
End Append.

(** *** Counting *)
Lemma used_data n bn : 0 <= bn < MAXFILE → used_slots n (data_slot bn) ↔ bn * BSIZE < n.
Proof.
  intros Hbn. destruct (data_slot_lt bn Hbn) as [_ Hni]. split.
  - intros [(b & Hb & Hlt & E)|[E _]]; [| done]. apply data_slot_inj in E; lia.
  - intros Hlt. left. by exists bn.
Qed.

Lemma used_ind n : used_slots n IND ↔ NDIRECT * BSIZE < n.
Proof.
  split; [| by right]. intros [(b & Hb & Hlt & E)|[_ ?]]; [| done].
  by destruct (data_slot_lt b Hb) as [_ Hni].
Qed.

Lemma div_facts n : 0 <= n → BSIZE * (n / BSIZE) <= n < BSIZE * (n / BSIZE) + BSIZE ∧ 0 <= n / BSIZE.
Proof.
  intros Hn. pose proof (Z.div_mod n BSIZE ltac:(done)). pose proof (Z.mod_pos_bound n BSIZE ltac:(done)).
  pose proof (Z.div_pos n BSIZE Hn ltac:(done)). lia.
Qed.

(** Beginning block [n / BSIZE] of a file of [n] bytes. *)
Lemma used_next n j : 0 <= n → n / BSIZE < MAXFILE →
  used_slots (n / BSIZE * BSIZE + 1) j ↔ used_slots n j ∨ j = data_slot (n / BSIZE) ∨ j = IND ∧ NDIRECT <= n / BSIZE.
Proof.
  intros Hn Hm. destruct (div_facts n Hn) as [Hd Hp]. assert (HB : BSIZE = 1024) by done. assert (HN : NDIRECT = 12) by done.
  split.
  - intros [(b & Hb & Hlt & ->)|[-> Hlt]].
    + destruct (decide (b = n / BSIZE)) as [->|Hne]; [by right; left |]. left. apply used_data; [done |]. lia.
    + right; right. split; [done | lia].
  - intros [[(b & Hb & Hlt & ->)|[-> Hlt]]|[->|[-> Hle]]].
    + apply used_data; [done | lia].
    + apply used_ind. lia.
    + apply used_data; lia.
    + apply used_ind. lia.
Qed.

Lemma blocks_of_div n : 0 <= n →
  blocks_of n = n / BSIZE + (if decide (n / BSIZE * BSIZE < n) then 1 else 0) + (if decide (NDIRECT * BSIZE < n) then 1 else 0).
Proof.
  intros Hn. unfold blocks_of. f_equal. destruct (div_facts n Hn) as [Hd Hp]. assert (HB : BSIZE = 1024) by done. case_decide.
  - symmetry. apply (Z.div_unique_pos _ _ _ (n - n / BSIZE * BSIZE - 1)); lia.
  - symmetry. apply (Z.div_unique_pos _ _ _ (BSIZE - 1)); lia.
Qed.

Lemma blocks_next n : 0 <= n →
  blocks_of (n / BSIZE * BSIZE + 1) = blocks_of n + (if decide (n / BSIZE * BSIZE < n) then 0 else 1) +
    (if decide (NDIRECT <= n / BSIZE ∧ ¬ NDIRECT * BSIZE < n) then 1 else 0).
Proof.
  intros Hn. destruct (div_facts n Hn) as [Hd Hp]. assert (HB : BSIZE = 1024) by done. assert (HN : NDIRECT = 12) by done.
  rewrite !blocks_of_div by lia.
  assert ((n / BSIZE * BSIZE + 1) / BSIZE = n / BSIZE) as -> by (symmetry; apply (Z.div_unique_pos _ _ _ 1); lia).
  rewrite (decide_True (P := n / BSIZE * BSIZE < n / BSIZE * BSIZE + 1)) by lia. repeat case_decide; lia.
Qed.

Lemma blocks_of_fill n n' : 0 <= n → n / BSIZE * BSIZE < n' <= n / BSIZE * BSIZE + BSIZE → n <= n' →
  blocks_of n' = blocks_of (n / BSIZE * BSIZE + 1).
Proof.
  intros Hn Hn' Hle. destruct (div_facts n Hn) as [Hd Hp]. assert (HB : BSIZE = 1024) by done. assert (HN : NDIRECT = 12) by done.
  unfold blocks_of. f_equal.
  - trans (n / BSIZE + 1); [symmetry; apply (Z.div_unique_pos _ _ _ (n' - n / BSIZE * BSIZE - 1)); lia |].
    apply (Z.div_unique_pos _ _ _ 0); lia.
  - repeat case_decide; lia.
Qed.

Lemma used_fill n n' j : 0 <= n → n / BSIZE * BSIZE < n' <= n / BSIZE * BSIZE + BSIZE → 
  used_slots n' j ↔ used_slots (n / BSIZE * BSIZE + 1) j.
Proof.
  intros Hn Hn'. destruct (div_facts n Hn) as [Hd Hp]. assert (HB : BSIZE = 1024) by done. assert (HN : NDIRECT = 12) by done.
  unfold used_slots. split; (intros [(b & Hb & Hlt & ->)|[-> Hlt]]; [left; exists b; split_and!; [lia | lia | lia | done] | right; split; [done | lia]]).
Qed.

Lemma blocks_of_mono a b : 0 <= a <= b → blocks_of a <= blocks_of b.
Proof.
  intros H. unfold blocks_of. assert (HB : BSIZE = 1024) by done.
  pose proof (Z.div_le_mono (a + BSIZE - 1) (b + BSIZE - 1) BSIZE ltac:(lia) ltac:(lia)). repeat case_decide; lia.
Qed.

(** *** [iappend_block] *)
Definition with_used (k : nat) (n : Z) (Us : nat → nat → Prop) : nat → nat → Prop :=
  λ i, if decide (i = k) then used_slots n else Us i.

Lemma iappend_block_spec m fb A C Us k addrs c fi :
  let n := Z.of_nat (length c) in let fbn := n / BSIZE in
  data_ok m fb A C Us → A !! k = Some addrs → C !! k = Some c → (∀ j, (j < nslots)%nat → Us k j ↔ used_slots n j) →
  fbn < MAXFILE → fb + blocks_of (fbn * BSIZE + 1) - blocks_of n <= limit →
  wp (iappend_block addrs fbn) (λ r s', ∃ m' fb', s' = Mst m' fi fb' ∧
    data_ok m' fb' (<[k := r.1]> A) C (with_used k (fbn * BSIZE + 1) Us) ∧
    r.2 = slot (vw m') r.1 (data_slot fbn) ∧ r.2 ≠ 0 ∧
    fb' = fb + blocks_of (fbn * BSIZE + 1) - blocks_of n ∧ ∀ b, b < nmeta → m' !! b = m !! b) (Mst m fi fb).
Proof.
  intros n fbn D HA HC HU Hm Hlim. assert (Hn : 0 <= n) by lia. destruct (div_facts n Hn) as [Hd Hp]. fold fbn in Hd, Hp.
  assert (HB : BSIZE = 1024) by done. assert (HN : NDIRECT = 12) by done.
  pose proof (da_file _ _ _ _ _ D k addrs c HA HC) as F.
  destruct (data_slot_lt fbn) as [Hsl Hsi]; [lia |].
  assert (Hu1 : slot (vw m) addrs (data_slot fbn) ≠ 0 ↔ fbn * BSIZE < n).
  { rewrite (fo_used _ _ _ _ _ F), HU, used_data by (done || lia). done. }
  assert (Hu2 : slot (vw m) addrs IND ≠ 0 ↔ NDIRECT * BSIZE < n).
  { assert (IND < nslots)%nat by (unfold IND, nslots; lia). by rewrite (fo_used _ _ _ _ _ F), HU, used_ind. }
  pose proof (blocks_next n Hn) as Hbl. fold fbn in Hbl.
  unfold iappend_block. destruct (decide (fbn < NDIRECT)) as [Hdir|Hind].
  - rewrite (decide_False (P := NDIRECT <= fbn ∧ _)) in Hbl by lia.
    assert (Esl : data_slot fbn = Z.to_nat fbn) by (unfold data_slot; by rewrite decide_True).
    assert (Hj : (Z.to_nat fbn ≤ IND)%nat) by (unfold IND; lia). rewrite <- Esl in Hj |- *.
    apply wp_bind. eapply wp_mono; [apply (ensure_addr_spec D HA HC (data_slot fbn) fi Hj) |].
    + intros Hz. assert (¬ fbn * BSIZE < n) by tauto. rewrite decide_False in Hbl by done. geo.
    + intros addrs' s' (Es & E). wp_steps. cbn beta iota. exists m, (m_freeblock s'). set (fb' := m_freeblock s') in *.
      pose proof (en_data _ _ _ _ _ _ _ _ _ _ _ E) as D'. pose proof (en_slot _ _ _ _ _ _ _ _ _ _ _ E) as Hs'.
      assert (HA' : <[k := addrs']> A !! k = Some addrs').
      { apply list_lookup_insert_eq. by eapply lookup_lt_Some. }
      pose proof (slot_range D' HA' HC (data_slot fbn) Hsl) as Hr.
      assert (Ex : slot (vw m) addrs' (data_slot fbn) = addrs' !!! data_slot fbn).
      { unfold slot. rewrite decide_True by exact Hj. reflexivity. }
      rewrite Ex in Hr, Hs'. split_and!; [done | | | | | done].
      * eapply data_ok_ext; [| exact D']. intros a j Ha Hj'. unfold with_used.
        destruct (decide (a = k)) as [->|Hak]; [| split; [intros [?|[? _]]; done | by left]].
        pose proof (used_next n j Hn Hm) as Hnx. fold fbn in Hnx. rewrite HU, Hnx by done. split; [intros [?|[_ ?]]; tauto |]. intros [?|[?|[_ ?]]]; [by left | by right | lia].
      * simpl. by rewrite xint_small, Ex.
      * simpl. by rewrite xint_small.
      * pose proof (en_fb _ _ _ _ _ _ _ _ _ _ _ E) as Ef. rewrite Hbl, Ef.
        destruct (decide (slot (vw m) addrs (data_slot fbn) = 0)), (decide (fbn * BSIZE < n)); try lia; tauto.
  - change (Z.to_nat NDIRECT) with IND. replace (4 * Z.to_nat (fbn - NDIRECT))%nat with (4 * (data_slot fbn - 13))%nat
      by (unfold data_slot; rewrite decide_False by done; lia).
    assert (Hj : (IND < data_slot fbn < nslots)%nat) by (split; [unfold data_slot, IND; rewrite decide_False by done; lia | done]).
    apply wp_bind. eapply wp_mono; [apply (ensure_addr_spec D HA HC IND fi ltac:(lia)) |].
    + intros Hz. assert (¬ NDIRECT * BSIZE < n) by tauto. rewrite (decide_True (P := NDIRECT <= fbn ∧ _)) in Hbl by lia.
      destruct (decide (fbn * BSIZE < n)); geo.
    + intros addrs1 s1 (Es & E). rewrite Es. set (fb1 := m_freeblock s1) in *. clearbody fb1. clear Es s1.
      pose proof (en_data _ _ _ _ _ _ _ _ _ _ _ E) as D1. pose proof (en_slot _ _ _ _ _ _ _ _ _ _ _ E) as Hs1.
      pose proof (en_fb _ _ _ _ _ _ _ _ _ _ _ E) as Ef1.
      assert (HA1 : <[k := addrs1]> A !! k = Some addrs1) by (apply list_lookup_insert_eq; by eapply lookup_lt_Some).
      assert (Eo : slot (vw m) addrs1 (data_slot fbn) = slot (vw m) addrs (data_slot fbn)) by (by apply (en_others _ _ _ _ _ _ _ _ _ _ _ E)).
      apply wp_bind. eapply wp_mono; [apply (ensure_entry_spec D1 HA1 HC (data_slot fbn) fi Hj Hs1) |].
      * rewrite Eo. intros Hz. assert (¬ fbn * BSIZE < n) by tauto. rewrite (decide_False (P := fbn * BSIZE < n)) in Hbl by done.
        destruct (decide (slot (vw m) addrs IND = 0)) as [Hi|Hi] in Ef1.
        -- assert (¬ NDIRECT * BSIZE < n) by tauto. rewrite (decide_True (P := NDIRECT <= fbn ∧ _)) in Hbl by lia. geo.
        -- rewrite (decide_False (P := NDIRECT <= fbn ∧ _)) in Hbl by tauto. geo.
      * intros x s2 (Es & -> & E2). wp_steps. exists (m_img s2), (m_freeblock s2).
        pose proof (en_fb _ _ _ _ _ _ _ _ _ _ _ E2) as Ef2. rewrite Eo in Ef2. simpl.
        split_and!; [done | | done | apply (en_slot _ _ _ _ _ _ _ _ _ _ _ E2) | |].
        -- pose proof (en_data _ _ _ _ _ _ _ _ _ _ _ E2) as D2. rewrite list_insert_insert_eq in D2.
           eapply data_ok_ext; [| exact D2]. intros a j Ha Hj'. unfold with_used.
           destruct (decide (a = k)) as [->|Hak]; [| split; [intros [[?|[? _]]|[? _]]; done | by left; left]].
           pose proof (used_next n j Hn Hm) as Hnx. fold fbn in Hnx. rewrite HU, Hnx by done. split.
           ++ intros [[?|[_ ?]]|[_ ?]]; [by left | right; right; split; [done | lia] | by right; left].
           ++ intros [?|[?|[? _]]]; [by left; left | by right | by left; right].
        -- rewrite Ef2, Ef1, Hbl.
           destruct (decide (slot (vw m) addrs (data_slot fbn) = 0)), (decide (fbn * BSIZE < n)); try tauto;
             destruct (decide (slot (vw m) addrs IND = 0)), (decide (NDIRECT <= fbn ∧ ¬ NDIRECT * BSIZE < n)); try lia; tauto.
        -- intros b Hb. by apply (en_meta _ _ _ _ _ _ _ _ _ _ _ E2).
Qed.

(** *** Writing a chunk *)
Definition sizes (C : list (list Z)) : nat → nat → Prop := λ i, used_slots (Z.of_nat (length (C !!! i))).

Lemma byte_at_app c p o :
  0 <= o → byte_at (c ++ p) o =
    if decide (Z.of_nat (length c) <= o < Z.of_nat (length c) + Z.of_nat (length p)) then p !!! Z.to_nat (o - Z.of_nat (length c))
    else byte_at c o.
Proof.
  intros Ho. unfold byte_at. case_decide as Hd.
  - rewrite lookup_app_r by lia. replace (Z.to_nat o - length c)%nat with (Z.to_nat (o - Z.of_nat (length c))) by lia.
    by rewrite list_lookup_lookup_total_lt by lia.
  - destruct (decide (o < Z.of_nat (length c))).
    + by rewrite lookup_app_l by lia.
    + by rewrite !lookup_ge_None_2 by (rewrite ?length_app; lia).
Qed.

Section Chunk.
Context {m : gmap Z block} {fb : Z} {A C : list (list Z)} {k : nat} {addrs c p : list Z} {d : block}.
Notation n := (Z.of_nat (length c)).
Notation bn := (n / BSIZE).
Notation x := (slot (vw m) addrs (data_slot bn)).
Context (D : data_ok m fb A C (with_used k (bn * BSIZE + 1) (sizes C))).
Context (HA : A !! k = Some addrs) (HC : C !! k = Some c) (Hbn : bn < MAXFILE) (Hx : x ≠ 0) (Hd : m !! x = Some d).
Context (Hp : p ≠ []) (Hfit : n mod BSIZE + Z.of_nat (length p) <= BSIZE).
Notation d' := (splice (Z.to_nat (n - bn * BSIZE)) p d).
Notation m' := (<[x := d']> m).
Notation C' := (<[k := c ++ p]> C).

Lemma chunk_slot : (data_slot bn < nslots)%nat ∧ data_slot bn ≠ IND.
Proof. destruct (div_facts n ltac:(lia)). apply data_slot_lt. lia. Qed.

Lemma chunk_len : length d = bsize.
Proof.
  destruct chunk_slot as [Hs _]. pose proof (da_fb _ _ _ _ _ D). pose proof (fo_range _ _ _ _ _ (da_file _ _ _ _ _ D k addrs c HA HC) _ Hs Hx).
  destruct (da_blocks _ _ _ _ _ D x) as (d0 & E & Hl); [geo | congruence].
Qed.

Lemma chunk_off : n - bn * BSIZE = n mod BSIZE.
Proof. rewrite Z.mod_eq by done. lia. Qed.

Lemma chunk_len' : length d' = bsize.
Proof.
  pose proof (Z.mod_pos_bound n BSIZE ltac:(done)). pose proof chunk_len. rewrite splice_length; [done |].
  rewrite chunk_len, chunk_off. change BSIZE with 1024 in *. change bsize with 1024%nat. lia.
Qed.

Lemma chunk_slots j : slot (vw m') addrs j = slot (vw m) addrs j.
Proof.
  destruct chunk_slot as [Hs Hni]. apply slot_same. intros Hi. apply lookup_insert_ne. intros E. apply Hni.
  rewrite <- (slot_ind (vw m)) in E.
  apply (da_inj _ _ _ _ _ D k k addrs addrs (data_slot bn) IND HA HA Hs); [unfold IND, nslots; lia | done | done].
Qed.

Lemma chunk_other i ai a : A !! i = Some ai → i ≠ k → (a < nslots)%nat → m' !! slot (vw m) ai a = m !! slot (vw m) ai a.
Proof.
  intros Hi Hne Ha. apply lookup_insert_ne. intros E. destruct chunk_slot as [Hs _]. apply Hne. symmetry.
  by apply (da_inj _ _ _ _ _ D k i addrs ai (data_slot bn) a HA Hi Hs).
Qed.

Lemma chunk_written : written (vw m) addrs n p (vw m') addrs.
Proof.
  destruct chunk_slot as [Hs _]. apply (written_chunk _ _ _ _ _ _ d); [lia | done | done | apply chunk_len | |].
  - unfold file_block. rewrite decide_False by done. cbn [vw bv_now]. by rewrite Hd.
  - intros y Hy. rewrite <- chunk_off. unfold file_block. rewrite chunk_slots. cbn [vw bv_now]. destruct (data_slot_lt y Hy) as [Hys _].
    destruct (decide (y = bn)) as [->|Hne]; [by rewrite decide_False, lookup_insert_eq by done |].
    destruct (decide (slot (vw m) addrs (data_slot y) = 0)) as [|Hys0]; [done |]. rewrite lookup_insert_ne; [done |].
    intros E. apply Hne. destruct (div_facts n ltac:(lia)) as [_ Hnn].
    destruct (da_inj _ _ _ _ _ D k k addrs addrs (data_slot bn) (data_slot y) HA HA Hs Hys Hx E) as [_ E'].
    symmetry. apply data_slot_inj in E'; lia.
Qed.

Lemma chunk_used j : used_slots (Z.of_nat (length (c ++ p))) j ↔ used_slots (bn * BSIZE + 1) j.
Proof.
  destruct p as [|b p']; [done |]. rewrite length_app. apply used_fill; [lia |]. pose proof chunk_off.
  destruct (div_facts n ltac:(lia)). simpl length in *. lia.
Qed.

Lemma chunk_data : data_ok m' fb A C' (sizes C').
Proof.
  destruct chunk_slot as [Hs _]. pose proof (da_fb _ _ _ _ _ D) as Hf. pose proof (da_file _ _ _ _ _ D k addrs c HA HC) as F.
  pose proof (fo_range _ _ _ _ _ F _ Hs Hx) as Hr. assert (Hkl : (k < length C)%nat) by (by eapply lookup_lt_Some).
  assert (Hoth : ∀ i ai ci, A !! i = Some ai → C !! i = Some ci → i ≠ k →
    file_ok m' fb ai ci (sizes C' i) ∧ ∀ j, slot (vw m') ai j = slot (vw m) ai j).
  { intros i ai ci Hi Hci Hne. destruct (file_ok_kept m m' fb fb ai ci (sizes C i)) as [Fi Ei].
    - pose proof (da_file _ _ _ _ _ D i ai ci Hi Hci) as Fi. unfold with_used in Fi. by rewrite decide_False in Fi.
    - lia.
    - intros a Ha _. by apply chunk_other with (i := i).
    - split; [| done]. unfold sizes in *. by rewrite list_lookup_total_insert_ne. }
  assert (Hall : ∀ i ai, A !! i = Some ai → ∀ j, slot (vw m') ai j = slot (vw m) ai j).
  { intros i ai Hi j. destruct (decide (i = k)) as [->|Hne]; [assert (ai = addrs) as -> by congruence; apply chunk_slots |].
    destruct (lookup_lt_is_Some_2 C i) as [ci Hci]; [rewrite <- (da_len _ _ _ _ _ D); by eapply lookup_lt_Some |].
    by apply (Hoth i ai ci). }
  split.
  - intros b Hb. destruct (decide (b = x)) as [->|Hne].
    + rewrite lookup_insert_eq. eexists. split; [done | apply chunk_len'].
    + rewrite lookup_insert_ne by done. by apply (da_blocks _ _ _ _ _ D).
  - intros b Hb. rewrite lookup_insert_ne by lia. by apply (da_free _ _ _ _ _ D).
  - done.
  - rewrite length_insert. apply (da_len _ _ _ _ _ D).
  - intros i ai ci Hi Hci. apply list_lookup_insert_Some in Hci as [(<- & <- & _)|[Hne Hci]]; [| by apply Hoth].
    assert (ai = addrs) as -> by congruence. destruct F as [F1 F2 F3 F4]. split.
    + done.
    + intros j Hj. rewrite chunk_slots. by apply F2.
    + intros j Hj. rewrite chunk_slots, F3 by done. unfold with_used, sizes. rewrite decide_True by done.
      rewrite list_lookup_total_insert_eq by done. symmetry. apply chunk_used.
    + intros o Ho. rewrite chunk_written, byte_at_app by lia. case_decide; [done | by apply F4].
  - intros i j ai aj a b Hi Hj. rewrite (Hall i ai Hi), (Hall j aj Hj). by apply (da_inj _ _ _ _ _ D).
Qed.
End Chunk.

(** *** The loop of [iappend] *)
Lemma data_ok_full m fb A C k c :
  data_ok m fb A C (sizes C) → C !! k = Some c → ∀ j, sizes C k j ↔ used_slots (Z.of_nat (length c)) j.
Proof. intros _ Hc j. unfold sizes. by rewrite (list_lookup_total_correct _ _ _ Hc). Qed.

Lemma iappend_loop_spec fuel p m fb A C k addrs c fi :
  let n := Z.of_nat (length c) in let n' := Z.of_nat (length (c ++ p)) in
  data_ok m fb A C (sizes C) → A !! k = Some addrs → C !! k = Some c → (length p ≤ fuel)%nat →
  n' <= MAXFILE * BSIZE → fb + blocks_of n' - blocks_of n <= limit →
  wp (iappend_loop fuel addrs n p) (λ r s', ∃ m', s' = Mst m' fi (fb + blocks_of n' - blocks_of n) ∧
    data_ok m' (m_freeblock s') (<[k := r.1]> A) (<[k := c ++ p]> C) (sizes (<[k := c ++ p]> C)) ∧
    r.2 = n' ∧ ∀ b, b < nmeta → m' !! b = m !! b) (Mst m fi fb).
Proof.
  revert p m fb A C addrs c. induction fuel as [|fuel IH]; intros p m fb A C addrs c n n' D HA HC Hfuel Hmax Hlim;
    unfold n, n' in *; clear n n'; simpl iappend_loop; destruct (decide (p = [])) as [->|Hp].
  1, 3: wp_steps; exists m; rewrite app_nil_r in *; simpl;
    rewrite !list_insert_id, Z.add_simpl_r by done; split_and!; done.
  { destruct p; [done | simpl in Hfuel; lia]. }
  rewrite length_app in Hmax, Hlim. set (n := Z.of_nat (length c)) in *. set (bn := n / BSIZE).
  assert (HB : BSIZE = 1024) by done. assert (HM : MAXFILE = 268) by done. destruct (div_facts n ltac:(lia)) as [Hdm Hd0]. fold bn in Hdm, Hd0.
  assert (Hlp : (0 < length p)%nat) by (destruct p; simpl; [done | lia]).
  rewrite decide_False by lia. set (n1 := Z.to_nat (Z.min (Z.of_nat (length p)) ((bn + 1) * BSIZE - n))).
  set (p1 := take n1 p). set (p2 := drop n1 p).
  assert (Hl1 : length p1 = n1) by (apply length_take_le; lia). assert (Hl2 : length p2 = (length p - n1)%nat) by apply length_drop.
  assert (Hp12 : p1 ++ p2 = p) by apply take_drop.
  assert (Hb1 : blocks_of (n + Z.of_nat n1) = blocks_of (bn * BSIZE + 1)) by (apply blocks_of_fill; lia).
  assert (Hb2 : blocks_of (n + Z.of_nat n1) <= blocks_of (Z.of_nat (length c + length p))) by (apply blocks_of_mono; lia).
  apply wp_bind. eapply wp_mono; [apply (iappend_block_spec m fb A C (sizes C) k addrs c fi D HA HC) |].
  - intros j _. by eapply data_ok_full.
  - fold n bn. lia.
  - fold n bn. lia.
  - intros [addrs1 x] s1 (m1 & fb1 & -> & D1 & Ex & Hx & Hf1 & Hm1). cbn [Datatypes.fst Datatypes.snd] in *. subst x. fold n bn in D1, Hx, Hf1 |- *.
    assert (Hkl : (k < length A)%nat) by (by eapply lookup_lt_Some).
    assert (HA1 : <[k := addrs1]> A !! k = Some addrs1) by (by apply list_lookup_insert_eq).
    destruct (data_slot_lt bn) as [Hs _]; [lia |].
    pose proof (fo_range _ _ _ _ _ (da_file _ _ _ _ _ D1 k addrs1 c HA1 HC) _ Hs Hx) as Hr. pose proof (da_fb _ _ _ _ _ D1) as Hf.
    destruct (da_blocks _ _ _ _ _ D1 (slot (vw m1) addrs1 (data_slot bn))) as (d & Hd & _); [geo |].
    apply wp_bind, (wp_rsect _ d); [exact Hd |]. unfold wsect. wp_steps. cbn [m_img m_freeinode m_freeblock].
    assert (Hp1 : p1 ≠ []) by (intros E; rewrite E in Hl1; simpl in Hl1; lia).
    assert (Hfit : n mod BSIZE + Z.of_nat (length p1) <= BSIZE) by (rewrite Z.mod_eq by done; fold bn; lia).
    pose proof (chunk_data D1 HA1 HC ltac:(fold n bn; lia) Hx Hd Hp1 Hfit) as D2. fold n bn in D2.
    set (m2 := <[_ := _]> m1) in *. set (C2 := <[k := c ++ p1]> C) in *.
    assert (HC2 : C2 !! k = Some (c ++ p1)) by (apply list_lookup_insert_eq; by eapply lookup_lt_Some).
    rewrite u32_small by lia. replace (n + Z.of_nat n1) with (Z.of_nat (length (c ++ p1))) in * by (rewrite length_app; lia).
    assert (Ecp : (c ++ p1) ++ p2 = c ++ p) by (by rewrite <- app_assoc, Hp12).
    eapply wp_mono; [apply (IH p2 m2 fb1 _ C2 addrs1 (c ++ p1) D2 HA1 HC2) |].
    + lia.
    + rewrite Ecp, length_app. lia.
    + rewrite Ecp, Hb1, Hf1, length_app. lia.
    + rewrite Ecp. intros r s3 (m3 & -> & D3 & -> & Hm3). exists m3. rewrite list_insert_insert_eq in D3. unfold C2 in D3. rewrite list_insert_insert_eq in D3.
      cbn [m_freeblock] in *. rewrite Hb1, Hf1 in D3 |- *. rewrite length_app in D3 |- *.
      replace (fb + blocks_of (bn * BSIZE + 1) - blocks_of n + blocks_of (Z.of_nat (length c + length p)) - blocks_of (bn * BSIZE + 1))
        with (fb + blocks_of (Z.of_nat (length c + length p)) - blocks_of n) in D3 |- * by lia.
      split_and!; [done | done | done |]. intros b Hb. rewrite Hm3 by done. unfold m2. rewrite lookup_insert_ne by geo. by apply Hm1.
Qed.
