(* ===== verification/MkfsTheorems.v ===== *)
(** * Making the file system image: theorems

    [mkfs] leaves an image on which the kernel's file system is well formed:
    the bitmap marks exactly the blocks that are taken, no block belongs to
    two places, and every file reads as its source.  [built] is the state
    between two calls of [main]; its bytes and blocks are [data_ok]. *)
From S2P Require Import Prelude Params CString BlockLayer Fs Dir FsBlocks FsInode FsFile FileIO DirProofs Mkfs MkfsData.

Definition dinode0 : dinode := Dinode 0 (replicate naddrs 0) 0 0 0 0.
Definition rw : Z := Z.lor M_READ M_WRITE.
Definition sb_block : block := splice 0 (sb_image mk_sb) zero_block.

(** The inode of number [i], given the types, contents and blocks of the
    files made so far (the first one is number 1). *)
Definition made_inode (T : list Z) (C A : list (list Z)) (i : nat) : dinode :=
  match i with
  | O => dinode0
  | S k => match T !! k, C !! k, A !! k with
           | Some t, Some c, Some addrs => Dinode (Z.of_nat (length c)) addrs t 1 rw rw
           | _, _, _ => dinode0
           end
  end.
(** Blocks taken: the metadata and the files. *)
Definition total (C : list (list Z)) : Z := foldr (λ c z, blocks_of (Z.of_nat (length c)) + z) nmeta C.

(** The blocks below [nmeta], given the inodes; the bitmap is still zero. *)
Record meta_ok (m : gmap Z block) (f : nat → dinode) : Prop := MetaOk {
  me_inodes : ∀ i, (i < 200)%nat → inode_at mk_sb (vw m) (Z.of_nat i) = Some (f i);
  me_rest : ∀ b, 0 <= b < 32 ∨ b = 45 → m !! b = Some (if decide (b = 1) then sb_block else zero_block) }.

Record built (s : mst) (T : list Z) (C A : list (list Z)) : Prop := Built {
  bu_data : data_ok (m_img s) (m_freeblock s) A C (sizes C);
  bu_len : length T = length C;
  bu_types : Forall (λ t, 0 <= t < 2 ^ 15) T;
  bu_room : (length T < 200)%nat;
  bu_sizes : Forall (λ c, Z.of_nat (length c) <= MAXFILE * BSIZE) C;
  bu_fi : m_freeinode s = Z.of_nat (length T) + 1;
  bu_fb : m_freeblock s = total C;
  bu_meta : meta_ok (m_img s) (made_inode T C A) }.

Lemma total_insert C k c c' : C !! k = Some c →
  total (<[k := c']> C) = total C - blocks_of (Z.of_nat (length c)) + blocks_of (Z.of_nat (length c')).
Proof.
  revert k. induction C as [|c0 C IH]; intros [|k] Hk; try done; cbn in Hk |- *.
  - injection Hk as ->. lia.
  - rewrite IH by done. unfold total. lia.
Qed.

Lemma total_cons c C : total (c :: C) = blocks_of (Z.of_nat (length c)) + total C.
Proof. done. Qed.

Lemma total_app C D : total (C ++ D) = total C + (total D - nmeta).
Proof. induction C as [|c C IH]; simpl app; [change (total []) with nmeta | rewrite !total_cons, IH]; lia. Qed.

Lemma total_nil_file C : total (C ++ [[]]) = total C.
Proof. rewrite total_app. change (total [[]]) with nmeta. lia. Qed.

Lemma IBLOCK_mk i : 0 <= i < 200 → IBLOCK i mk_sb = i / 16 + 32 ∧ 32 <= i / 16 + 32 < 45.
Proof.
  intros Hi. pose proof (Z.div_pos i 16 ltac:(lia) ltac:(lia)). pose proof (Z.div_lt_upper_bound i 16 13 ltac:(lia) ltac:(lia)).
  rewrite mk_sb_eq. unfold IBLOCK. cbn [sb_inodestart]. change IPB with 16. rewrite u32_small by lia. lia.
Qed.

Lemma mk_iwf m : (∀ b, 0 <= b < FSSIZE → ∃ d : block, m !! b = Some d ∧ length d = bsize) → iwf mk_sb (vw m).
Proof.
  intros Hm. split.
  - rewrite mk_sb_eq. cbn. lia.
  - rewrite mk_sb_eq. cbn [sb_inodestart sb_ninodes]. change IPB with 16. vm_compute. done.
  - intros i Hi. rewrite mk_sb_eq in Hi. cbn [sb_ninodes] in Hi. destruct (IBLOCK_mk i Hi) as [-> Hb].
    apply elem_of_dom. destruct (Hm (i / 16 + 32)) as (d & Hd & _); [rewrite fssize_eq; lia | by exists d].
Qed.

Lemma built_iwf s T C A : built s T C A → iwf mk_sb (vw (m_img s)).
Proof. intros B. apply mk_iwf, (da_blocks _ _ _ _ _ (bu_data _ _ _ _ B)). Qed.

(** ** Inode blocks and data blocks do not mix *)
Lemma data_ok_meta m m' fb A C Us :
  data_ok m fb A C Us → (∀ b, nmeta <= b → m' !! b = m !! b) →
  (∀ b, 0 <= b < nmeta → ∃ d : block, m' !! b = Some d ∧ length d = bsize) → data_ok m' fb A C Us.
Proof.
  intros D Hm Hb. pose proof (da_fb _ _ _ _ _ D) as Hf.
  assert (HF : ∀ k addrs c, A !! k = Some addrs → C !! k = Some c →
    file_ok m' fb addrs c (Us k) ∧ ∀ j, slot (vw m') addrs j = slot (vw m) addrs j).
  { intros k addrs c Ha Hc. pose proof (da_file _ _ _ _ _ D k addrs c Ha Hc) as F. eapply file_ok_kept; [exact F | done |].
    intros j Hj Hs. apply Hm. by apply (fo_range _ _ _ _ _ F). }
  assert (HS : ∀ k addrs j, A !! k = Some addrs → slot (vw m') addrs j = slot (vw m) addrs j).
  { intros k addrs j Ha. destruct (lookup_lt_is_Some_2 C k) as [c Hc]; [rewrite <- (da_len _ _ _ _ _ D); by eapply lookup_lt_Some |].
    by apply (HF k addrs c). }
  split.
  - intros b Hb'. destruct (decide (b < nmeta)); [apply Hb; lia |]. rewrite Hm by lia. by apply (da_blocks _ _ _ _ _ D).
  - intros b Hb'. rewrite Hm by lia. by apply (da_free _ _ _ _ _ D).
  - done.
  - apply (da_len _ _ _ _ _ D).
  - intros k addrs c Ha Hc. by apply HF.
  - intros i j ai aj a b Hi Hj. rewrite (HS i ai a Hi), (HS j aj b Hj). by apply (da_inj _ _ _ _ _ D).
Qed.

(** ** Inodes *)
Lemma addrs_range m fb A C Us k addrs c :
  data_ok m fb A C Us → A !! k = Some addrs → C !! k = Some c → Forall (λ a, 0 <= a < 2 ^ 32) addrs.
Proof.
  intros D HA HC. pose proof (da_file _ _ _ _ _ D k addrs c HA HC) as F. apply Forall_lookup. intros j a Hj.
  assert (Hjl : (j < naddrs)%nat) by (rewrite <- (fo_len _ _ _ _ _ F); by eapply lookup_lt_Some). rewrite naddrs_eq in Hjl.
  pose proof (slot_range D HA HC j ltac:(unfold nslots; lia)) as Hr. unfold slot in Hr.
  rewrite decide_True in Hr by (unfold IND; lia). by rewrite (list_lookup_total_correct _ _ _ Hj) in Hr.
Qed.

Lemma made_ok s T C A i : built s T C A → dinode_ok (made_inode T C A i).
Proof.
  intros B. assert (H0 : dinode_ok dinode0) by (split; cbn; [lia | split; [done | repeat constructor; lia] | lia..]).
  destruct i as [|k]; [done |]. unfold made_inode. destruct (T !! k) as [t|] eqn:Ht; [| done].
  destruct (C !! k) as [c|] eqn:Hc; [| done]. destruct (A !! k) as [addrs|] eqn:Ha; [| done].
  pose proof (bu_data _ _ _ _ B) as D. pose proof (Forall_lookup_1 _ _ _ _ (bu_types _ _ _ _ B) Ht) as Hty.
  pose proof (Forall_lookup_1 _ _ _ _ (bu_sizes _ _ _ _ B) Hc) as Hcs. cbn beta in Hty, Hcs. change (MAXFILE * BSIZE) with 274432 in Hcs.
  split; cbn; try (change rw with 3); try lia.
  split; [apply (fo_len _ _ _ _ _ (da_file _ _ _ _ _ D k addrs c Ha Hc)) | by eapply addrs_range].
Qed.

Lemma meta_ok_ext m m' f f' :
  meta_ok m f → (∀ b, 0 <= b < nmeta → m' !! b = m !! b) → (∀ i, (i < 200)%nat → f' i = f i) → meta_ok m' f'.
Proof.
  intros [M1 M2] Hm Hf. split.
  - intros i Hi. rewrite Hf, <- M1 by done. unfold inode_at. cbn [vw bv_now].
    destruct (IBLOCK_mk (Z.of_nat i) ltac:(lia)) as [-> Hb]. by rewrite Hm by geo.
  - intros b Hb. rewrite Hm by geo. by apply M2.
Qed.

Lemma winode_spec m fi fb A C Us f (k : nat) x :
  data_ok m fb A C Us → meta_ok m f → (k < 200)%nat → dinode_ok x →
  wp (winode (Z.of_nat k) x) (λ _ s', ∃ m', s' = Mst m' fi fb ∧ data_ok m' fb A C Us ∧
    meta_ok m' (λ i, if decide (i = k) then x else f i)) (Mst m fi fb).
Proof.
  intros D M Hk Hx. destruct (IBLOCK_mk (Z.of_nat k) ltac:(lia)) as [Eb Hb]. pose proof (da_blocks _ _ _ _ _ D) as Hbl.
  destruct (Hbl (IBLOCK (Z.of_nat k) mk_sb)) as (d & Hd & Hl); [rewrite Eb; geo |].
  unfold winode. apply wp_bind, (wp_rsect _ d); [exact Hd |]. unfold wsect. wp_steps. cbn [m_img m_freeinode m_freeblock].
  set (d' := dinode_store _ _ _). assert (Hl' : length d' = bsize).
  { unfold d'. rewrite dinode_store_length; [done | | apply Hx]. rewrite Hl. apply dinode_off_bound. }
  eexists. split; [done |]. split.
  - apply (data_ok_meta m); [done | |]; intros b Hb'.
    + rewrite Eb, lookup_insert_ne; [done | geo].
    + destruct (decide (b = IBLOCK (Z.of_nat k) mk_sb)) as [->|Hne].
      * rewrite lookup_insert_eq. by exists d'.
      * rewrite lookup_insert_ne by done. apply Hbl. geo.
  - split.
    + intros i Hi. assert (En : sb_ninodes mk_sb = 200) by (by rewrite mk_sb_eq).
      pose proof (inode_at_upd mk_sb (vw m) (Z.of_nat k) (Z.of_nat i) d x (mk_iwf m Hbl)) as Hu. unfold inode_at in Hu |- *. cbn [vw bv_now bv_upd] in Hu |- *.
      fold d' in Hu. rewrite Hu by (done || lia). clear Hu. destruct (decide (i = k)) as [->|Hne]; [by rewrite decide_True |].
      rewrite decide_False by lia. by apply (me_inodes _ _ M).
    + intros b Hb'. rewrite Eb, lookup_insert_ne by lia. by apply (me_rest _ _ M).
Qed.

Lemma rinode_spec m fi fb f (k : nat) :
  meta_ok m f → (k < 200)%nat → wp (rinode (Z.of_nat k)) (λ x s', x = f k ∧ s' = Mst m fi fb) (Mst m fi fb).
Proof.
  intros M Hk. pose proof (me_inodes _ _ M k Hk) as Hi. unfold inode_at in Hi. cbn [vw bv_now] in Hi.
  destruct (m !! IBLOCK (Z.of_nat k) mk_sb) as [d|] eqn:Hd; [| done]. injection Hi as Hi. unfold rinode.
  apply wp_bind, (wp_rsect _ d); [exact Hd |]. wp_steps. by split.
Qed.

(** ** The operations of [main] *)
Lemma iappend_built s T C A (k : nat) c p :
  built s T C A → C !! k = Some c → Z.of_nat (length (c ++ p)) <= MAXFILE * BSIZE → total (<[k := c ++ p]> C) <= limit →
  wp (iappend (Z.of_nat (S k)) p) (λ _ s', ∃ A', built s' T (<[k := c ++ p]> C) A') s.
Proof.
  intros B HC Hmax Htot. pose proof (bu_data _ _ _ _ B) as D. pose proof (bu_meta _ _ _ _ B) as M. pose proof (bu_len _ _ _ _ B) as Hlen.
  pose proof (bu_room _ _ _ _ B) as Hroom. assert (Hkl : (k < length C)%nat) by (by eapply lookup_lt_Some).
  destruct (lookup_lt_is_Some_2 T k) as [t Ht]; [lia |].
  destruct (lookup_lt_is_Some_2 A k) as [addrs Ha]; [rewrite (da_len _ _ _ _ _ D); lia |].
  destruct s as [m fi fb]. cbn [m_img m_freeblock] in D, M. unfold iappend.
  apply wp_bind. eapply wp_mono; [apply (rinode_spec m fi fb _ (S k) M); lia |]. intros din s0 [-> ->].
  assert (Ei : made_inode T C A (S k) = Dinode (Z.of_nat (length c)) addrs t 1 rw rw) by (unfold made_inode; by rewrite Ht, HC, Ha).
  rewrite Ei. cbn [d_addrs d_size d_type d_nlink d_mode d_perm]. rewrite total_insert with (c := c) in Htot by done.
  pose proof (bu_fb _ _ _ _ B) as Hfb. cbn [m_freeblock] in Hfb.
  change (MAXFILE * BSIZE) with 274432 in *. rewrite xint_small by (rewrite length_app in Hmax; lia).
  apply wp_bind. eapply wp_mono; [apply (iappend_loop_spec (length p) p m fb A C k addrs c fi D Ha HC); [lia | done | lia] |].
  intros [addrs' off] s1 (m1 & -> & D1 & Eo & Hm1). cbn [Datatypes.fst Datatypes.snd m_freeblock] in D1, Eo |- *. subst off. rewrite xint_small by lia.
  set (fb' := fb + _ - _) in *. set (C' := <[k := c ++ p]> C) in *. set (A' := <[k := addrs']> A) in *.
  assert (HC' : C' !! k = Some (c ++ p)) by (by apply list_lookup_insert_eq).
  assert (HA' : A' !! k = Some addrs') by (apply list_lookup_insert_eq; by eapply lookup_lt_Some).
  assert (M1 : meta_ok m1 (made_inode T C A)) by (eapply meta_ok_ext; [exact M | intros b Hb; apply Hm1; geo | done]).
  pose proof (Forall_lookup_1 _ _ _ _ (bu_types _ _ _ _ B) Ht) as Hty. cbn beta in Hty.
  eapply wp_mono; [apply (winode_spec m1 fi fb' A' C' _ _ (S k) _ D1 M1); [lia |] |].
  - split; cbn; try (change rw with 3); try lia.
    split; [apply (fo_len _ _ _ _ _ (da_file _ _ _ _ _ D1 k addrs' _ HA' HC')) | by eapply addrs_range].
  - intros _ s2 (m2 & -> & D2 & M2). exists A'. split; cbn [m_img m_freeblock m_freeinode]; try (by apply B); try done.
    + unfold C'. by rewrite length_insert.
    + apply Forall_insert; [apply B | done].
    + unfold C'. rewrite total_insert with (c := c) by done. lia.
    + eapply meta_ok_ext; [exact M2 | done |]. intros i Hi. cbn beta. destruct (decide (i = S k)) as [->|Hne].
      * unfold made_inode. by rewrite Ht, HC', HA'.
      * destruct i as [|i]; [done |]. unfold made_inode, C', A'. by rewrite !list_lookup_insert_ne by lia.
Qed.

Definition no_addrs : list Z := replicate naddrs 0.

Lemma slot_none v k : slot v no_addrs k = 0.
Proof.
  assert (H : ∀ j : nat, (j ≤ IND)%nat → no_addrs !!! j = 0).
  { intros j Hj. unfold no_addrs. apply lookup_total_replicate_2. rewrite naddrs_eq. unfold IND in Hj. lia. }
  unfold slot. rewrite (H IND) by done. case_decide; [by apply H | done].
Qed.

Lemma lookup_snoc_Some {X} (l : list X) x i y : (l ++ [x]) !! i = Some y → l !! i = Some y ∨ i = length l ∧ y = x.
Proof. intros [?|[? ?%list_lookup_singleton_Some]]%lookup_app_Some; [by left | right; split; [lia | naive_solver]]. Qed.

Lemma data_ok_new m fb A C : data_ok m fb A C (sizes C) → data_ok m fb (A ++ [no_addrs]) (C ++ [[]]) (sizes (C ++ [[]])).
Proof.
  intros D. pose proof (da_len _ _ _ _ _ D) as Hlen. split; try apply D.
  - rewrite !length_app, Hlen. done.
  - intros k addrs c Ha Hc. apply lookup_snoc_Some in Ha as [Ha|[Ek ->]], Hc as [Hc|[Ek' ->]].
    + destruct (da_file _ _ _ _ _ D k addrs c Ha Hc) as [F1 F2 F3 F4]. split; try done.
      unfold sizes in *. rewrite lookup_total_app_l by (by eapply lookup_lt_Some). done.
    + apply lookup_lt_Some in Ha. lia.
    + apply lookup_lt_Some in Hc. lia.
    + split.
      * done.
      * intros j Hj. by rewrite slot_none.
      * intros j Hj. rewrite slot_none. unfold sizes. rewrite Ek', lookup_total_app_r, Nat.sub_diag by lia. split; [done |].
        intros [(bn & Hbn & Hlt & _)|[_ Hlt]]; cbn in Hlt; change BSIZE with 1024 in *; change NDIRECT with 12 in *; lia.
      * intros o Ho. unfold file_byte, file_block. rewrite slot_none, decide_True by done. unfold byte_at, zero_block.
        rewrite lookup_nil. pose proof (Z.mod_pos_bound o BSIZE ltac:(done)). apply lookup_total_replicate_2.
        change BSIZE with 1024 in *. change bsize with 1024%nat. lia.
  - intros i j ai aj a b Hi Hj Ha Hb Hs E. apply lookup_snoc_Some in Hi as [Hi|[_ ->]]; [| by rewrite slot_none in Hs].
    apply lookup_snoc_Some in Hj as [Hj|[_ ->]]; [by eapply (da_inj _ _ _ _ _ D) | rewrite slot_none in E; congruence].
Qed.

Lemma ialloc_built s T C A t :
  built s T C A → (length T < 199)%nat → 0 <= t < 2 ^ 15 →
  wp (ialloc t) (λ i s', i = Z.of_nat (S (length T)) ∧ built s' (T ++ [t]) (C ++ [[]]) (A ++ [no_addrs])) s.
Proof.
  intros B Hroom Ht. pose proof (data_ok_new _ _ _ _ (bu_data _ _ _ _ B)) as D. pose proof (bu_meta _ _ _ _ B) as M.
  pose proof (bu_fi _ _ _ _ B) as Hfi. pose proof (bu_fb _ _ _ _ B) as Hfb. pose proof (bu_len _ _ _ _ B) as Hlen.
  destruct s as [m fi fb]. cbn [m_img m_freeblock m_freeinode] in *. subst fi. unfold ialloc. wp_steps. cbn [m_img m_freeblock m_freeinode].
  replace (Z.of_nat (length T) + 1) with (Z.of_nat (S (length T))) by lia. rewrite u32_small by lia.
  assert (Exs : s16 (xshort t) = t).
  { unfold xshort. rewrite le_dec_enc. change (256 ^ Z.of_nat 2) with 65536. rewrite Z.mod_small by lia. apply s16_small. lia. }
  rewrite Exs. change (s16 (xshort 1)) with 1. change (s16 (xshort (Z.lor M_READ M_WRITE))) with rw. change (xint 0) with 0. fold no_addrs.
  eapply wp_mono; [apply (winode_spec m _ fb _ _ _ _ (S (length T)) _ D M); [lia |] |].
  - split; cbn; try (change rw with 3); try lia. split; [done | repeat constructor; lia].
  - intros _ s2 (m2 & -> & D2 & M2). wp_steps. split; [done |]. split; cbn [m_img m_freeblock m_freeinode]; try done.
    + by rewrite !length_app, Hlen.
    + apply Forall_app_2; [apply B | by repeat constructor; lia].
    + rewrite length_app. simpl. lia.
    + apply Forall_app_2; [apply B | by repeat constructor].
    + rewrite length_app. simpl. lia.
    + by rewrite total_nil_file.
    + pose proof (da_len _ _ _ _ _ (bu_data _ _ _ _ B)) as HlA.
      eapply meta_ok_ext; [exact M2 | done |]. intros i Hi. cbn beta. destruct (decide (i = S (length T))) as [->|Hne].
      * unfold made_inode. rewrite !lookup_app_r, HlA, Hlen, Nat.sub_diag by lia. done.
      * destruct i as [|i]; [done |]. unfold made_inode. destruct (decide (i < length T)%nat).
        -- by rewrite !lookup_app_l by lia.
        -- by rewrite (lookup_ge_None_2 (T ++ [t])), (lookup_ge_None_2 T) by (rewrite ?length_app; simpl; lia).
Qed.

(** ** Copying files *)
Lemma append_chunks_built chunks s T C A (k : nat) c :
  built s T C A → C !! k = Some c → Z.of_nat (length (c ++ concat chunks)) <= MAXFILE * BSIZE →
  total (<[k := c ++ concat chunks]> C) <= limit →
  wp (append_chunks (Z.of_nat (S k)) chunks) (λ _ s', ∃ A', built s' T (<[k := c ++ concat chunks]> C) A') s.
Proof.
  revert s C A c. induction chunks as [|p chunks IH]; intros s C A c B HC Hmax Htot; cbn [append_chunks concat] in *.
  - wp_steps. exists A. by rewrite app_nil_r, list_insert_id.
  - assert (Hkl : (k < length C)%nat) by (by eapply lookup_lt_Some). rewrite app_assoc in Hmax, Htot |- *.
    assert (Htot1 : total (<[k := c ++ p]> C) <= limit).
    { rewrite total_insert with (c := c) in Htot |- * by done.
      pose proof (blocks_of_mono (Z.of_nat (length (c ++ p))) (Z.of_nat (length ((c ++ p) ++ concat chunks)))) as Hmono.
      rewrite (length_app (c ++ p)) in *. lia. }
    apply wp_bind. eapply wp_mono; [apply (iappend_built s T C A k c p B HC); [rewrite (length_app (c ++ p)) in Hmax; lia | done] |].
    intros _ s1 [A1 B1]. eapply wp_mono; [apply (IH s1 _ A1 (c ++ p) B1) |].
    + by apply list_lookup_insert_eq.
    + done.
    + by rewrite list_insert_insert_eq.
    + intros _ s2 [A2 B2]. exists A2. by rewrite list_insert_insert_eq in B2.
Qed.

(** What the files of the command line amount to. *)
Definition src_bytes (f : source) : list Z := concat (default [] (src_chunks f)).
Definition source_ok (f : source) : Prop :=
  SLASH ∉ strip_user (src_name f) ∧ is_Some (src_chunks f) ∧ Z.of_nat (length (src_bytes f)) <= MAXFILE * BSIZE.
Fixpoint file_entries (inum : nat) (files : list source) : list dirent :=
  match files with
  | [] => []
  | f :: files => entry_of (Z.of_nat inum) (shortname f) :: file_entries (S inum) files
  end.
Definition dir_bytes (es : list dirent) : list Z := concat (dirent_bytes <$> es).

Lemma total_ge C : nmeta <= total C.
Proof.
  induction C as [|c C IH]; [done |]. rewrite total_cons. pose proof (blocks_of_mono 0 (Z.of_nat (length c)) ltac:(lia)).
  change (blocks_of 0) with 0 in *. lia.
Qed.

Lemma blocks_of_prefix (a b : list Z) : blocks_of (Z.of_nat (length a)) <= blocks_of (Z.of_nat (length (a ++ b))).
Proof. apply blocks_of_mono. rewrite length_app. lia. Qed.

Lemma copy_files_built files s T root Cs A :
  built s T (root :: Cs) A → (length T + length files < 200)%nat → Forall source_ok files →
  let root' := root ++ dir_bytes (file_entries (S (length T)) files) in
  let C' := root' :: Cs ++ (src_bytes <$> files) in
  Z.of_nat (length root') <= MAXFILE * BSIZE → total C' <= limit →
  wp (copy_files 1 files) (λ _ s', ∃ A', built s' (T ++ replicate (length files) T_FILE) C' A') s.
Proof.
  revert s T root Cs A. induction files as [|f files IH]; intros s T root Cs A B Hroom Hok root' C' Hmax Htot; subst root' C';
    cbn [copy_files file_entries fmap list_fmap length replicate] in *.
  - wp_steps. exists A. by rewrite !app_nil_r.
  - apply Forall_cons in Hok as [(Hsl & [chunks Hch] & Hlen) Hok]. rewrite decide_False, Hch by done.
    assert (Esrc : src_bytes f = concat chunks) by (unfold src_bytes; by rewrite Hch). rewrite Esrc in *.
    unfold dir_bytes in Hmax, Htot |- *. cbn [fmap list_fmap concat] in Hmax, Htot |- *.
    set (e := dirent_bytes _) in *. set (rest := concat (dirent_bytes <$> file_entries _ files)) in *. rewrite app_assoc in Hmax, Htot |- *.
    assert (Hmax1 : Z.of_nat (length (root ++ e)) <= MAXFILE * BSIZE) by (rewrite (length_app (root ++ e)) in Hmax; lia).
    pose proof (total_ge (src_bytes <$> files)) as Hg. pose proof (blocks_of_prefix (root ++ e) rest) as Hp.
    pose proof (blocks_of_mono 0 (Z.of_nat (length (concat chunks))) ltac:(lia)) as H0. change (blocks_of 0) with 0 in H0.
    rewrite total_cons, total_app, total_cons in Htot.
    pose proof (bu_len _ _ _ _ B) as HlT. simpl in HlT.
    apply wp_bind. eapply wp_mono; [apply (ialloc_built s T (root :: Cs) A T_FILE B); [lia | done] |].
    intros inum s1 [-> B1]. fold e. change ((root :: Cs) ++ [[]]) with (root :: Cs ++ [[]]) in B1.
    apply wp_bind. eapply wp_mono; [apply (iappend_built s1 _ _ _ 0 root e B1 eq_refl Hmax1) |].
    { cbn [insert list_insert]. rewrite total_cons, total_nil_file. lia. }
    intros _ s2 [A2 B2]. cbn [insert list_insert] in B2.
    assert (Ei : ∀ x, <[length T := x]> ((root ++ e) :: Cs ++ [[]]) = (root ++ e) :: Cs ++ [x]).
    { intros x. rewrite HlT. change (<[S (length Cs) := x]> ((root ++ e) :: ?l)) with ((root ++ e) :: <[length Cs := x]> l). f_equal. rewrite insert_app_r_alt, Nat.sub_diag by lia. done. }
    apply wp_bind. eapply wp_mono; [apply (append_chunks_built chunks s2 _ _ A2 (length T) [] B2) |].
    { rewrite HlT, lookup_cons. by rewrite lookup_app_r, Nat.sub_diag by lia. }
    { done. }
    { rewrite Ei, total_cons, total_app, total_cons. change (total []) with nmeta. simpl app. lia. }
    intros _ s3 [A3 B3]. rewrite Ei in B3. simpl app in B3.
    assert (El : length (T ++ [T_FILE]) = S (length T)) by (rewrite length_app; simpl; lia).
    eapply wp_mono; [apply (IH s3 _ (root ++ e) (Cs ++ [concat chunks]) A3 B3); rewrite ?El |].
    + lia.
    + done.
    + done.
    + change (dir_bytes _) with rest. rewrite total_cons, !total_app, total_cons. change (total []) with nmeta. lia.
    + rewrite El. intros _ s4 [A4 B4]. exists A4. rewrite <- (app_assoc Cs) in B4. by rewrite <- (app_assoc T) in B4.
Qed.

(** ** The whole program *)
Definition root_entries (files : list source) : list dirent :=
  entry_of 1 [46] :: entry_of 1 [46; 46] :: file_entries 2 files.
Definition contents (files : list source) : list (list Z) := dir_bytes (root_entries files) :: (src_bytes <$> files).
(** The size the root directory is given at the end. *)
Definition rounded (n : Z) : Z := (n / BSIZE + 1) * BSIZE.
Definition made_types (files : list source) : list Z := T_DIR :: replicate (length files) T_FILE.

Lemma zero_inode i : (i < 200)%nat → dinode_load (dinode_off (Z.of_nat i)) zero_block = dinode0.
Proof.
  intros Hi. assert (H : (λ k : nat, dinode_load (Z.to_nat (Z.of_nat k * 64)) zero_block) <$> seq 0 16 = replicate 16 dinode0)
    by (vm_compute; reflexivity).
  pose proof (Z.mod_pos_bound (Z.of_nat i) 16 ltac:(lia)). apply (f_equal (.!! Z.to_nat (Z.of_nat i mod 16))) in H.
  rewrite list_lookup_fmap, lookup_seq_lt, lookup_replicate_2 in H by lia.
  change (Some (dinode_load (Z.to_nat (Z.of_nat (Z.to_nat (Z.of_nat i mod 16)) * 64)) zero_block) = Some dinode0) in H.
  rewrite Z2Nat.id in H by lia. by apply (inj Some) in H.
Qed.

Lemma built_start m :
  (∀ b, 0 <= b < FSSIZE → m !! b = Some zero_block) → built (Mst (<[1 := sb_block]> m) 1 nmeta) [] [] [].
Proof.
  intros Hm. assert (Hl : length sb_block = bsize) by (vm_compute; reflexivity).
  assert (Hz : length zero_block = bsize) by apply length_replicate.
  split; cbn [m_img m_freeblock m_freeinode]; try done; try (simpl; lia).
  - split; try done.
    + intros b Hb. destruct (decide (b = 1)) as [->|Hne]; [rewrite lookup_insert_eq; by exists sb_block |].
      rewrite lookup_insert_ne, Hm by done. by exists zero_block.
    + intros b Hb. rewrite lookup_insert_ne by geo. apply Hm. geo.
  - split.
    + intros i Hi. unfold inode_at. cbn [vw bv_now]. destruct (IBLOCK_mk (Z.of_nat i) ltac:(lia)) as [-> Hb].
      rewrite lookup_insert_ne, Hm by geo. simpl. f_equal. rewrite zero_inode by done. by destruct i.
    + intros b Hb. destruct (decide (b = 1)) as [->|Hne]; [by rewrite lookup_insert_eq |].
      rewrite lookup_insert_ne by done. apply Hm. geo.
Qed.

(** *** The bitmap *)
Lemma mark_used_free used b :
  0 <= used <= BPB → 0 <= b < BPB → length (mark_used used) = bsize ∧ bit_free b (mark_used used) = negb (bool_decide (b < used)).
Proof.
  intros Hu Hb. unfold mark_used. pattern used. revert used Hu. 
  assert (H : ∀ n : nat, Z.of_nat n <= BPB → length (foldl (λ d i, bit_mark i d) zero_block (seqZ 0 (Z.of_nat n))) = bsize ∧
    bit_free b (foldl (λ d i, bit_mark i d) zero_block (seqZ 0 (Z.of_nat n))) = negb (bool_decide (b < Z.of_nat n))).
  { induction n as [|n IH]; intros Hn.
    - change (seqZ 0 (Z.of_nat 0)) with (@nil Z). cbn [foldl]. split; [apply length_replicate |].
      rewrite bool_decide_false by lia. unfold bit_free. assert (byte_of b zero_block = 0) as ->; [| done].
      apply (lookup_total_replicate_2 (A := Z)). pose proof (Z.div_lt_upper_bound b 8 1024). change BPB with 8192 in *. change bsize with 1024%nat. lia.
    - rewrite Nat2Z.inj_succ, <- Z.add_1_r, seqZ_app, foldl_app by lia. rewrite Z.add_0_l. change (seqZ (Z.of_nat n) 1) with [Z.of_nat n].
      cbn [foldl]. destruct (IH ltac:(lia)) as [IHl IHb]. split; [by rewrite bit_mark_length |].
      rewrite bit_free_mark by (done || lia). rewrite IHb. destruct (decide (b = Z.of_nat n)) as [->|Hne].
      + by rewrite bool_decide_true by lia.
      + f_equal. apply bool_decide_ext. lia. }
  intros used Hu. specialize (H (Z.to_nat used)). rewrite Z2Nat.id in H by lia. apply H. lia.
Qed.

(** *** Reading the root directory *)
Lemma lookup_concat_blocks (w : nat) (l : list (list Z)) (k j : nat) x :
  Forall (λ y, length y = w) l → l !! k = Some x → (j < w)%nat → concat l !! (w * k + j)%nat = x !! j.
Proof.
  revert k. induction l as [|y l IH]; intros k Hl Hk Hj; [done |]. apply Forall_cons in Hl as [Hy Hl]. destruct k as [|k]; cbn [concat].
  - injection Hk as ->. rewrite Nat.mul_0_r. apply lookup_app_l. lia.
  - rewrite lookup_app_r, Hy by lia. replace (w * S k + j - w)%nat with (w * k + j)%nat by lia. by apply IH.
Qed.

Lemma entry_of_load inum name : entry_of inum name = dirent_load (dirent_bytes (entry_of inum name)).
Proof.
  unfold entry_of. rewrite dirent_roundtrip; [done | |].
  - unfold xshort. rewrite le_dec_enc. by apply Z.mod_pos_bound.
  - rewrite length_take, length_app, length_replicate. lia.
Qed.

Lemma file_entries_made i files : Forall (λ e, ∃ n nm, e = entry_of n nm) (file_entries i files).
Proof. revert i. induction files as [|f files IH]; intros i; simpl; constructor; eauto. Qed.

Lemma root_entries_made files : Forall (λ e, ∃ n nm, e = entry_of n nm) (root_entries files).
Proof. repeat constructor; [by eauto.. | apply file_entries_made]. Qed.

Lemma entry_of_length n nm : length (dirent_bytes (entry_of n nm)) = 16%nat.
Proof. apply dirent_bytes_length. cbn [entry_of de_name]. rewrite length_take, length_app, length_replicate. lia. Qed.

Lemma dir_bytes_lookup v addrs es (k : nat) e :
  Forall (λ e, ∃ n nm, e = entry_of n nm) es → Z.of_nat (length es) * DIRENT_SIZE <= MAXFILE * BSIZE →
  (∀ o, 0 <= o < MAXFILE * BSIZE → file_byte v addrs o = byte_at (dir_bytes es) o) →
  es !! k = Some e → entry v addrs k = e.
Proof.
  intros Hes Hmax Hb Hk. pose proof (lookup_lt_Some _ _ _ Hk) as Hkl. change DIRENT_SIZE with 16 in Hmax.
  destruct (Forall_lookup_1 _ _ _ _ Hes Hk) as (n & nm & ->). rewrite entry_of_load. unfold entry. f_equal.
  apply list_eq. intros j. unfold file_slice. rewrite list_lookup_fmap. pose proof (entry_of_length n nm) as Hl.
  change dirent_size with 16%nat. destruct (decide (j < 16)%nat) as [Hj|Hj].
  - rewrite lookup_seq_lt by done. simpl. change DIRENT_SIZE with 16. rewrite Hb by lia. unfold byte_at, dir_bytes.
    replace (Z.to_nat (16 * Z.of_nat k + Z.of_nat j)) with (16 * k + j)%nat by lia.
    rewrite (lookup_concat_blocks 16 _ k j (dirent_bytes (entry_of n nm))); [| | by rewrite list_lookup_fmap, Hk | done].
    + destruct (lookup_lt_is_Some_2 (dirent_bytes (entry_of n nm)) j) as [y ->]; [lia | done].
    + apply Forall_fmap. eapply Forall_impl; [exact Hes |]. intros ? (n' & nm' & ->). apply entry_of_length.
  - rewrite lookup_seq_ge by lia. by rewrite lookup_ge_None_2 by lia.
Qed.

Lemma file_entries_length i files : length (file_entries i files) = length files.
Proof. revert i. induction files as [|f files IH]; intros i; simpl; [done | by rewrite IH]. Qed.

Lemma dir_bytes_length es : Forall (λ e, ∃ n nm, e = entry_of n nm) es → length (dir_bytes es) = (16 * length es)%nat.
Proof.
  induction 1 as [|e es (n & nm & ->) Hes IH]; [done |]. unfold dir_bytes in *. cbn [fmap list_fmap concat].
  rewrite length_app, entry_of_length, IH. simpl. lia.
Qed.

(** *** The image *)
Record image_ok (files : list source) (m : gmap Z block) (used : Z) : Prop := ImageOk {
  im_sb : ∃ d : block, m !! 1 = Some d ∧ sb_load d = mk_sb;
  im_log : ∀ b, sb_logstart mk_sb <= b < sb_inodestart mk_sb → m !! b = Some zero_block;
  im_fs : fswf mk_sb (vw m);
  im_used : ∀ b, 0 <= b < LOGICAL_DISK_SIZE → in_use mk_sb (vw m) b = bool_decide (b < used);
  im_file : ∀ k c t, contents files !! k = Some c → made_types files !! k = Some t → ∃ addrs,
    inode_at mk_sb (vw m) (Z.of_nat (S k)) =
      Some (Dinode (if decide (k = 0%nat) then rounded (Z.of_nat (length c)) else Z.of_nat (length c)) addrs t 1 rw rw) ∧
    fwf mk_sb (vw m) addrs ∧ mapped (vw m) addrs (Z.of_nat (length c)) ∧
    ∀ o, 0 <= o < MAXFILE * BSIZE → file_byte (vw m) addrs o = byte_at c o;
  im_free : ∀ i, 0 <= i < 200 → i = 0 ∨ Z.of_nat (length files) + 1 < i → inode_at mk_sb (vw m) i = Some dinode0;
  im_apart : ∀ i j x y a b, 0 <= i < 200 → 0 <= j < 200 → inode_at mk_sb (vw m) i = Some x → inode_at mk_sb (vw m) j = Some y →
    (a < nslots)%nat → (b < nslots)%nat → slot (vw m) (d_addrs x) a ≠ 0 →
    slot (vw m) (d_addrs x) a = slot (vw m) (d_addrs y) b → i = j ∧ a = b;
  im_root : ∀ x k e, inode_at mk_sb (vw m) ROOTINO = Some x → root_entries files !! k = Some e → entry (vw m) (d_addrs x) k = e }.

Section Final.
Context {files : list source} {m : gmap Z block} {fb : Z} {A : list (list Z)}.
Notation C := (contents files).
Notation T := (made_types files).
Notation m' := (<[45 := mark_used fb]> m).
Definition final_inode (i : nat) : dinode :=
  let d := made_inode T C A i in
  if decide (i = 1%nat) then Dinode (rounded (d_size d)) (d_addrs d) (d_type d) (d_nlink d) (d_mode d) (d_perm d) else d.
Context (D : data_ok m fb A C (sizes C)) (M : meta_ok m final_inode) (Hn : (length files < 199)%nat).
Context (HS : Forall (λ c, Z.of_nat (length c) <= MAXFILE * BSIZE) C).

Lemma fb_bits : 0 <= fb <= BPB.
Proof. pose proof (da_fb _ _ _ _ _ D). change BPB with 8192. geo. Qed.

Lemma final_data : data_ok m' fb A C (sizes C).
Proof.
  apply (data_ok_meta m); [done | |]; intros b Hb.
  - rewrite lookup_insert_ne by geo. done.
  - destruct (decide (b = 45)) as [->|Hne].
    + rewrite lookup_insert_eq. eexists. split; [done |]. apply (mark_used_free fb 0); [apply fb_bits | done].
    + rewrite lookup_insert_ne by done. apply (da_blocks _ _ _ _ _ D). geo.
Qed.

Lemma final_inodes i : 0 <= i < 200 → inode_at mk_sb (vw m') i = Some (final_inode (Z.to_nat i)).
Proof.
  intros Hi. rewrite <- (me_inodes _ _ M) by lia. rewrite Z2Nat.id by lia. unfold inode_at. cbn [vw bv_now].
  destruct (IBLOCK_mk i Hi) as [-> Hb]. by rewrite lookup_insert_ne by lia.
Qed.

Lemma final_made (k : nat) c t : C !! k = Some c → T !! k = Some t → ∃ addrs, A !! k = Some addrs ∧ (k < 199)%nat ∧
  final_inode (S k) = Dinode (if decide (k = 0%nat) then rounded (Z.of_nat (length c)) else Z.of_nat (length c)) addrs t 1 rw rw.
Proof.
  intros Hc Ht. destruct (lookup_lt_is_Some_2 A k) as [addrs Ha]; [rewrite (da_len _ _ _ _ _ D); by eapply lookup_lt_Some |].
  exists addrs. split; [done |]. apply lookup_lt_Some in Hc as Hk. unfold contents in Hk. simpl in Hk. rewrite length_fmap in Hk. split; [lia |].
  unfold final_inode, made_inode. rewrite Ht, Hc, Ha. destruct k; done.
Qed.

Lemma final_none i : (i = 0 ∨ length files + 1 < i)%nat → final_inode i = dinode0.
Proof.
  intros Hi. unfold final_inode. rewrite decide_False by lia. destruct i as [|k]; [done |]. unfold made_inode.
  by rewrite (lookup_ge_None_2 T) by (simpl; rewrite length_replicate; lia).
Qed.

Lemma final_in_use b : 0 <= b < LOGICAL_DISK_SIZE → in_use mk_sb (vw m') b = bool_decide (b < fb).
Proof.
  intros Hb. change LOGICAL_DISK_SIZE with 2048 in Hb. unfold in_use. cbn [vw bv_now].
  assert (BBLOCK b mk_sb = 45) as ->.
  { rewrite mk_sb_eq. unfold BBLOCK. cbn [sb_bmapstart]. change BPB with 8192. by rewrite Z.div_small by lia. }
  rewrite lookup_insert_eq, Z.mod_small by (change BPB with 8192; lia).
  destruct (mark_used_free fb b fb_bits) as [_ ->]; [change BPB with 8192; lia | apply negb_involutive].
Qed.

Lemma data_area b : nmeta <= b < 2048 → data_block mk_sb b.
Proof.
  intros Hb. rewrite nmeta_eq in Hb. split; [rewrite mk_sb_eq; cbn; lia |]. split; intros x Hx; rewrite mk_sb_eq in Hx; cbn in Hx.
  - rewrite mk_sb_eq. unfold BBLOCK. cbn [sb_bmapstart]. change BPB with 8192. rewrite Z.div_small, u32_small by lia. lia.
  - destruct (IBLOCK_mk x Hx) as [-> ?]. lia.
Qed.

Lemma final_fswf : fswf mk_sb (vw m').
Proof.
  pose proof final_data as D'. pose proof (da_fb _ _ _ _ _ D) as Hf. pose proof (da_blocks _ _ _ _ _ D') as Hbl.
  assert (Es : sb_size mk_sb = 2048) by (by rewrite mk_sb_eq). assert (En : sb_ninodes mk_sb = 200) by (by rewrite mk_sb_eq).
  assert (Hdom : ∀ b, 0 <= b < 2048 → b ∈ dom m').
  { intros b Hb. apply elem_of_dom. destruct (Hbl b) as (d & Hd & _); [geo | by exists d]. }
  assert (HB : ∀ b, 0 <= b < 2048 → BBLOCK b mk_sb = 45).
  { intros b Hb. rewrite mk_sb_eq. unfold BBLOCK. cbn [sb_bmapstart]. change BPB with 8192. by rewrite Z.div_small by lia. }
  split.
  - split; rewrite ?Es; [lia | exact Hdom | rewrite mk_sb_eq; vm_compute; done |].
    intros b Hb. rewrite HB by done. apply Hdom. lia.
  - by apply mk_iwf.
  - rewrite Es. intros b Hb Hu. rewrite final_in_use in Hu by done. apply bool_decide_eq_false in Hu. apply data_area. geo.
  - rewrite Es, En. intros x i Hx Hi. rewrite HB by done. destruct (IBLOCK_mk i Hi) as [-> ?]. lia.
Qed.

Lemma final_file k addrs c : A !! k = Some addrs → C !! k = Some c →
  fwf mk_sb (vw m') addrs ∧ mapped (vw m') addrs (Z.of_nat (length c)) ∧
  ∀ o, 0 <= o < MAXFILE * BSIZE → file_byte (vw m') addrs o = byte_at c o.
Proof.
  intros Ha Hc. pose proof final_data as D'. pose proof (da_file _ _ _ _ _ D' k addrs c Ha Hc) as [F1 F2 F3 F4].
  pose proof (da_fb _ _ _ _ _ D) as Hf. split_and!; [split | | done].
  - done.
  - intros j Hj Hs. pose proof (F2 j Hj Hs). split; [apply data_area; geo |]. rewrite final_in_use by (change LOGICAL_DISK_SIZE with 2048; geo). apply bool_decide_true. lia.
  - intros i j Hi Hj Hs E. by apply (da_inj _ _ _ _ _ D' k k addrs addrs i j).
  - intros bn Hb Hlt. pose proof (Forall_lookup_1 _ _ _ _ HS Hc) as Hsz. cbn beta in Hsz. change BSIZE with 1024 in Hlt, Hsz.
    assert (Hbn : 0 <= bn < MAXFILE) by lia. destruct (data_slot_lt bn Hbn) as [Hs _]. apply F3; [done |].
    unfold sizes. rewrite (list_lookup_total_correct _ _ _ Hc). by apply used_data.
Qed.

Lemma final_addrs i x : 0 <= i < 200 → inode_at mk_sb (vw m') i = Some x →
  d_addrs x = no_addrs ∨ i ≠ 0 ∧ A !! (Z.to_nat i - 1)%nat = Some (d_addrs x).
Proof.
  intros Hi. rewrite final_inodes by done. intros [= <-]. destruct (Z.to_nat i) as [|k] eqn:E; [by left |].
  unfold final_inode, made_inode. rewrite Nat.sub_1_r. cbn [Nat.pred].
  destruct (T !! k), (C !! k), (A !! k) as [addrs|] eqn:Ha; try (left; by case_decide). right. split; [lia |]. by case_decide.
Qed.

Lemma final_image : image_ok files m' fb.
Proof.
  pose proof final_data as D'. assert (Hlen : length A = S (length files)).
  { rewrite (da_len _ _ _ _ _ D). unfold contents. simpl. by rewrite length_fmap. }
  split.
  - exists sb_block. rewrite lookup_insert_ne, (me_rest _ _ M) by lia. split; [done |]. vm_compute. reflexivity.
  - intros b Hb. rewrite mk_sb_eq in Hb. cbn in Hb. rewrite lookup_insert_ne, (me_rest _ _ M), decide_False by lia. done.
  - apply final_fswf.
  - apply final_in_use.
  - intros k c t Hc Ht. destruct (final_made k c t Hc Ht) as (addrs & Ha & Hk & E). exists addrs.
    split; [| by apply (final_file k)]. rewrite final_inodes, Nat2Z.id by lia. by rewrite E.
  - intros i Hi Hz. rewrite final_inodes by done. f_equal. apply final_none. lia.
  - intros i j x y a b Hi Hj Hx Hy Ha Hb Hs E.
    destruct (final_addrs i x Hi Hx) as [Ex|[Hi0 HAi]]; [by rewrite Ex, slot_none in Hs |].
    destruct (final_addrs j y Hj Hy) as [Ey|[Hj0 HAj]]; [rewrite Ey, slot_none in E; congruence |].
    destruct (da_inj _ _ _ _ _ D' _ _ _ _ a b HAi HAj Ha Hb Hs E). split; [lia | done].
  - intros x k e Hx Hk. destruct (final_made 0 _ _ eq_refl eq_refl) as (addrs & Ha & _ & E).
    rewrite final_inodes in Hx by done. change (Z.to_nat ROOTINO) with 1%nat in Hx. rewrite E in Hx. injection Hx as <-.
    destruct (final_file 0 addrs _ Ha eq_refl) as (_ & _ & Hb). eapply dir_bytes_lookup; [apply root_entries_made | | exact Hb | exact Hk].
    unfold root_entries. simpl length. rewrite file_entries_length. change DIRENT_SIZE with 16. change (MAXFILE * BSIZE) with 274432. lia.
Qed.
End Final.

(** The loop that clears the image. *)
Lemma clear_spec : wp (mfor (Z.to_nat FSSIZE) 0 (λ i, wsect i zero_block))
  (λ _ s', ∃ m, s' = Mst m 1 nmeta ∧ ∀ b, 0 <= b < FSSIZE → m !! b = Some zero_block) mkfs_start.
Proof.
  set (I := λ (j : nat) (s : mst), ∃ m, s = Mst m 1 nmeta ∧ ∀ b, 0 <= b < Z.of_nat j → m !! b = Some zero_block).
  eapply wp_mono; [apply (wp_mfor I) |].
  - exists ∅. split; [done | lia].
  - intros j s _ (m & -> & Hm). unfold wsect. wp_steps. eexists. split; [done |]. cbn [m_img]. intros b Hb.
    destruct (decide (b = 0 + Z.of_nat j)) as [->|Hne]; [by rewrite lookup_insert_eq |]. rewrite lookup_insert_ne by done. apply Hm. lia.
  - intros _ s (m & -> & Hm). exists m. split; [done |]. rewrite Z2Nat.id in Hm by done. done.
Qed.

Lemma finish_spec files s A5 : (length files ≤ 198)%nat → built s (made_types files) (contents files) A5 →
  wp (fix_root_size 1;; let! used := gets m_freeblock in balloc used)
    (λ _ s', image_ok files (m_img s') (total (contents files))) s.
Proof.
  intros Hn B. pose proof (bu_data _ _ _ _ B) as D. pose proof (bu_meta _ _ _ _ B) as M. pose proof (bu_fb _ _ _ _ B) as Hfb. pose proof (made_ok _ _ _ _ 1 B) as Hino.
  pose proof (bu_sizes _ _ _ _ B) as HS.
  destruct s as [m fi fb]. cbn [m_img m_freeblock] in D, M, Hfb.
  unfold fix_root_size. apply wp_bind. apply wp_bind. eapply wp_mono; [apply (rinode_spec m fi fb _ 1 M); lia |]. intros din s6 [-> ->].
  set (d := made_inode (made_types files) (contents files) A5 1) in *.
  assert (Hsz : 0 <= d_size d < 274433).
  { unfold d, made_inode. destruct (A5 !! 0%nat); cbn; [| lia]. pose proof (Forall_lookup_1 _ _ 0%nat _ HS eq_refl) as Hl.
    cbn beta in Hl. change (MAXFILE * BSIZE) with 274432 in Hl. unfold dir_bytes in Hl. cbn in Hl |- *. lia. }
  destruct (div_facts (d_size d)) as [Hd1 Hd2]; [lia |]. change BSIZE with 1024 in *.
  rewrite (xint_small (d_size d)) by lia. rewrite xint_small by lia.
  eapply wp_mono; [apply (winode_spec m fi fb A5 (contents files) _ _ 1 _ D M); [lia |] |].
  { destruct Hino as [H1 H2 H3 H4 H5 H6]. split; cbn [d_size d_addrs d_type d_nlink d_mode d_perm]; try done. lia. }
  intros _ s7 (m2 & -> & D2 & M2). wp_steps. cbn [m_freeblock]. unfold balloc, wsect. pose proof (da_fb _ _ _ _ _ D2).
  rewrite decide_False by (change BSIZE with 1024; geo). wp_steps. cbn [m_img]. rewrite <- Hfb.
  apply (final_image D2); [| lia | done]. eapply meta_ok_ext; [exact M2 | done |]. intros i Hi. unfold final_inode. cbn beta zeta.
  destruct (decide (i = 1%nat)) as [->|]; done.
Qed.

(** C7: [mkfs] builds a correct file system.  For up to 198 files that can
    be opened, whose names have no slash, whose sizes a dinode can map and
    whose blocks fit on the disk, [main] runs to the end and the image is
    right: the superblock reads back as the geometry and the log is empty,
    the kernel's well-formedness of bitmap and inodes holds, exactly the
    first [total] blocks are marked used, every file has an inode of its
    type and size whose blocks are its own and read as the bytes of the
    source, all other inodes are free, no block belongs to two files, and
    the entries of the root directory are ".", ".." and the files in order
    with their inode numbers. *)
Theorem mkfs_image files :
  (length files ≤ 198)%nat → Forall source_ok files → total (contents files) <= LOGICAL_DISK_SIZE →
  ∃ s, mkfs_main files mkfs_start = Ret tt s ∧ image_ok files (m_img s) (total (contents files)).
Proof.
  intros Hn Hok Htot.
  assert (H : wp (mkfs_main files) (λ _ s, image_ok files (m_img s) (total (contents files))) mkfs_start).
  2:{ apply wp_inv in H as ([] & s & E & Hs). exists s. split; [exact E | exact Hs]. }
  unfold mkfs_main. apply wp_bind. eapply wp_mono; [apply clear_spec |]. intros _ s0 (m0 & -> & Hm0).
  apply wp_bind. unfold wsect at 1. apply wp_modify. cbn [m_img m_freeinode m_freeblock]. fold sb_block.
  pose proof (built_start m0 Hm0) as B0. set (s1 := Mst _ _ _) in B0 |- *. clearbody s1. clear m0 Hm0.
  apply wp_bind. eapply wp_mono; [apply (ialloc_built s1 [] [] [] T_DIR B0); simpl; [lia | done] |].
  intros rootino s2 [-> B1]. change (Z.of_nat (S (length []))) with 1. rewrite decide_False by (intros H; by apply H). simpl app in B1.
  assert (Hsmall : ∀ es, (length es ≤ 200)%nat → Forall (λ e, ∃ n nm, e = entry_of n nm) es → Z.of_nat (length (dir_bytes es)) <= MAXFILE * BSIZE).
  { intros es Hl Hes. rewrite dir_bytes_length by done. change (MAXFILE * BSIZE) with 274432. lia. }
  set (e0 := dirent_bytes (entry_of 1 [46])). set (e1 := dirent_bytes (entry_of 1 [46; 46])).
  apply wp_bind. eapply wp_mono; [apply (iappend_built s2 _ _ _ 0 [] e0 B1 eq_refl); [done | vm_compute; done] |].
  intros _ s3 [A3 B3]. simpl app in B3. cbn [insert list_insert] in B3.
  apply wp_bind. eapply wp_mono; [apply (iappend_built s3 _ _ _ 0 e0 e1 B3 eq_refl); [done | vm_compute; done] |].
  intros _ s4 [A4 B4]. cbn [insert list_insert] in B4.
  assert (Eroot : (e0 ++ e1) ++ dir_bytes (file_entries 2 files) = dir_bytes (root_entries files)) by (by rewrite <- app_assoc).
  apply wp_bind. eapply wp_mono; [apply (copy_files_built files s4 [T_DIR] (e0 ++ e1) [] A4 B4); change (S (length [T_DIR])) with 2%nat; rewrite ?Eroot |].
  { simpl. lia. }
  { done. }
  { apply Hsmall; [| apply root_entries_made]. unfold root_entries. simpl. rewrite file_entries_length. lia. }
  { exact Htot. }
  change (S (length [T_DIR])) with 2%nat. rewrite Eroot. change ([T_DIR] ++ replicate (length files) T_FILE) with (made_types files).
  change (dir_bytes (root_entries files) :: [] ++ (src_bytes <$> files)) with (contents files). intros _ s5 [A5 B5].
  by eapply finish_spec.
Qed.

Definition hello : source := Source [95; 97] (Some [[104; 105]]).
Lemma mkfs_image_witness :
  ∃ s, mkfs_main [hello] mkfs_start = Ret tt s ∧ image_ok [hello] (m_img s) 48.
Proof.
  apply (mkfs_image [hello]).
  - simpl. lia.
  - repeat constructor; [vm_compute; set_solver | by eexists | vm_compute; done].
  - vm_compute. done.
Defined.
