(* ===== verification/Trap.v ===== *)
(** * Traps and system calls ([kernel/trap.c], [kernel/syscall.c],
      [kernel/sysproc.c])

    The control registers of the hart that runs the code and its interrupt
    controller, on top of the process table.  A trap that gives up the CPU
    is split at [swtch]: it ends with what it keeps on the kernel stack and
    [..._resume] continues there.  The SIE bit of [sstatus] is [c_sie] of
    the hart.  The device interrupt handlers are those of [Devices.v]; the file
    calls have models of their own, here they are the operations of a class.
    Messages to the console are left out. *)
From S2P Require Import Prelude Params CString Locks BlockLayer Fs Dir Pipe Riscv Kalloc Vm Spinlock File Proc Devices.

(** [syscall.h] *)
Inductive sysno :=
| SYS_fork | SYS_exit | SYS_wait | SYS_pipe | SYS_read | SYS_kill | SYS_exec | SYS_fstat | SYS_chdir | SYS_dup
| SYS_getpid | SYS_sbrk | SYS_sleep | SYS_uptime | SYS_open | SYS_write | SYS_mknod | SYS_unlink | SYS_link
| SYS_mkdir | SYS_close | SYS_force_fail | SYS_get_force_fail | SYS_raw_read | SYS_get_disk_lbn | SYS_raw_write
| SYS_force_disk_fail | SYS_chmod | SYS_symlink.
#[export] Instance sysno_eq_dec : EqDecision sysno.
Proof. solve_decision. Defined.

(** [syscalls]: the entries 1 to 29. *)
Definition syscalls : list (option sysno) :=
  None :: (Some <$>
  [SYS_fork; SYS_exit; SYS_wait; SYS_pipe; SYS_read; SYS_kill; SYS_exec; SYS_fstat; SYS_chdir; SYS_dup;
   SYS_getpid; SYS_sbrk; SYS_sleep; SYS_uptime; SYS_open; SYS_write; SYS_mknod; SYS_unlink; SYS_link;
   SYS_mkdir; SYS_close; SYS_force_fail; SYS_get_force_fail; SYS_raw_read; SYS_get_disk_lbn; SYS_raw_write;
   SYS_force_disk_fail; SYS_chmod; SYS_symlink]).
(** [num > 0 && num < NELEM(syscalls) && syscalls[num]] *)
Definition sys_lookup (num : Z) : option sysno :=
  if decide (0 < num ∧ num < Z.of_nat (length syscalls)) then mjoin (syscalls !! Z.to_nat num) else None.

(** *** [riscv.h] *)
Definition SSTATUS_SPP : Z := Z.shiftl 1 8.
Definition SSTATUS_SPIE : Z := Z.shiftl 1 5.
Definition SSTATUS_SIE : Z := Z.shiftl 1 1.
Definition MAKE_SATP (pagetable : Z) : Z := Z.lor (Z.shiftl 8 60) (Z.shiftr pagetable 12).
Definition UART0_IRQ : Z := 10.
Definition VIRTIO0_IRQ : Z := 1.

(** The registers of the hart; [x_sstatus] without the SIE bit. *)
Record csr := Csr { x_sstatus : Z; x_sepc : Z; x_scause : Z; x_stvec : Z; x_satp : Z; x_sip : Z }.

(** What a call or a trap does: come back with a value, or give up the CPU
    with what is left on the kernel stack. *)
Inductive waiting (W : Type) :=
| WWait (addr : Z) (intena : bool)
| WSleep (ticks0 n : Z) (intena : bool)
| WExit (intena : bool)
| WFile (w : W).
Arguments WWait {W}.
Arguments WSleep {W}.
Arguments WExit {W}.
Arguments WFile {W}.
Inductive sysres (W : Type) := SRet (v : Z) | SSwitch (k : waiting W).
Arguments SRet {W}.
Arguments SSwitch {W}.
Inductive trapres (W : Type) :=
| ToUser (fn a0 a1 : Z)
| TYield (intena : bool)
| TExit (intena : bool)
| TCall (k : waiting W).
Arguments ToUser {W}.
Arguments TYield {W}.
Arguments TExit {W}.
Arguments TCall {W}.

(** The other calls: those of [sysfile.c] and the test hooks, which run for
    process [p] on hart [me]. *)
Class TrapOps (F W : Type) := {
  tr_call : nat → nat → sysno → M (pst F) (sysres W);
  tr_return : nat → nat → W → M (pst F) (sysres W);
}.

(** The hart: process table, registers, what the PLIC answers to claims,
    what it was told is complete, and the devices. *)
Record tst (F : Type) := Tst { t_ps : pst F; t_csr : csr; t_irqs : list Z; t_done : list Z; t_dev : devs }.
Arguments Tst {F}.
Arguments t_ps {F}.
Arguments t_csr {F}.
Arguments t_irqs {F}.
Arguments t_done {F}.
Arguments t_dev {F}.

Section Trap.
Context {F W : Type} `{FileOps F} `{TrapOps F W}.
(** Addresses the linker chooses. *)
Context (kend trampoline forkret_addr kernelvec uservec userret usertrap_addr : Z).
Notation st := (tst F).

Definition psop {A} (m : M (pst F) A) : M st A :=
  zoom t_ps (λ p s, Tst p (t_csr s) (t_irqs s) (t_done s) (t_dev s)) m.
Definition devop {A} (m : M (pst F * devs) A) : M st A :=
  zoom (λ s, (t_ps s, t_dev s)) (λ x s, Tst x.1 (t_csr s) (t_irqs s) (t_done s) x.2) m.
Definition put_csr (f : csr → csr) : M st unit := modify (λ s, Tst (t_ps s) (f (t_csr s)) (t_irqs s) (t_done s) (t_dev s)).

(** *** Registers *)
Definition sie_bit (b : bool) : Z := if b then SSTATUS_SIE else 0.
Definition r_sstatus (me : nat) : M st Z := λ s,
  Ret (Z.lor (x_sstatus (t_csr s)) (sie_bit (c_sie (cpu_at me (t_ps s))))) s.
Definition w_sstatus (me : nat) (x : Z) : M st unit :=
  put_csr (λ c, Csr (Z.ldiff x SSTATUS_SIE) (x_sepc c) (x_scause c) (x_stvec c) (x_satp c) (x_sip c));;
  psop (cpuop me (modify (set_sie (Z.testbit x 1)))).
Definition r_sepc : M st Z := gets (λ s, x_sepc (t_csr s)).
Definition w_sepc (x : Z) : M st unit :=
  put_csr (λ c, Csr (x_sstatus c) x (x_scause c) (x_stvec c) (x_satp c) (x_sip c)).
Definition r_scause : M st Z := gets (λ s, x_scause (t_csr s)).
Definition w_stvec (x : Z) : M st unit :=
  put_csr (λ c, Csr (x_sstatus c) (x_sepc c) (x_scause c) x (x_satp c) (x_sip c)).
Definition r_satp : M st Z := gets (λ s, x_satp (t_csr s)).
Definition r_sip : M st Z := gets (λ s, x_sip (t_csr s)).
Definition w_sip (x : Z) : M st unit :=
  put_csr (λ c, Csr (x_sstatus c) (x_sepc c) (x_scause c) (x_stvec c) (x_satp c) x).

(** *** The trap frame of a process *)
Definition tf_kernel_satp : nat := 0.
Definition tf_kernel_sp : nat := 8.
Definition tf_kernel_trap : nat := 16.
Definition tf_kernel_hartid : nat := 32.
Definition tf_a7 : nat := 168.
Definition tf_get (p : nat) (off : nat) : M (pst F) Z :=
  let! x := gets (proc_at p) in
  memop (let! pg := page_of (p_trapframe x) in ret (ld64 off pg)).
Definition tf_put (p : nat) (off : nat) (v : Z) : M (pst F) unit :=
  let! x := gets (proc_at p) in
  memop (set_tf (p_trapframe x) off v).

(** *** Arguments, from the registers of the running process *)
Definition argraw (me : nat) (n : nat) : M (pst F) Z :=
  let! p := curproc me in
  if decide (n ≤ 5)%nat then tf_get p (tf_a0 + 8 * n) else panic "argraw".
Definition argint (me n : nat) : M (pst F) Z := let! x := argraw me n in ret (s32 (u32 x)).
Definition argaddr (me n : nat) : M (pst F) Z := argraw me n.

(** *** [sysproc.c] *)
Definition sys_exit (me : nat) : M (pst F) (sysres W) :=
  let! n := argint me 0 in
  let! b := exit me n in
  ret (SSwitch (WExit b)).
Definition sys_fork (me : nat) : M (pst F) (sysres W) :=
  let! r := fork kend trampoline forkret_addr me in ret (SRet r).
(** [wait] and [sys_sleep] come back or sleep. *)
Definition wait_res (addr : Z) (r : Z + bool) : sysres W :=
  match r with inl v => SRet v | inr b => SSwitch (WWait addr b) end.
Definition sleep_res (ticks0 n : Z) (r : Z + bool) : sysres W :=
  match r with inl v => SRet v | inr b => SSwitch (WSleep ticks0 n b) end.
Definition sys_wait (me : nat) : M (pst F) (sysres W) :=
  let! addr := argaddr me 0 in
  let! r := wait kend me addr in
  ret (wait_res addr r).
Definition sys_kill (me : nat) : M (pst F) (sysres W) :=
  let! pid := argint me 0 in
  let! r := kill me pid in
  ret (SRet r).

(** [syscalls[num]()] *)
Definition sys_call (me p : nat) (c : sysno) : M (pst F) (sysres W) :=
  match c with
  | SYS_fork => sys_fork me
  | SYS_exit => sys_exit me
  | SYS_wait => sys_wait me
  | SYS_kill => sys_kill me
  | SYS_getpid => let! v := sys_getpid me in ret (SRet v)
  | SYS_sbrk => let! n := argint me 0 in let! v := sys_sbrk kend me n in ret (SRet v)
  | SYS_sleep =>
      let! n := argint me 0 in
      let! r := sys_sleep me n in
      ret (sleep_res r.1 n r.2)
  | SYS_uptime => let! v := sys_uptime me in ret (SRet v)
  | c => tr_call me p c
  end.
(** A call that slept, from the return of its [swtch]. *)
Definition sys_return (me p : nat) (k : waiting W) : M (pst F) (sysres W) :=
  match k with
  | WWait addr b => let! r := wait_return kend me p addr b in ret (wait_res addr r)
  | WSleep ticks0 n b => let! r := sys_sleep_return me p ticks0 n b in ret (sleep_res ticks0 n r)
  | WExit _ => panic "zombie exit"
  | WFile w => tr_return me p w
  end.

(** [p->trapframe->a0 = syscalls[num]()] *)
Definition store_result (p : nat) (r : sysres W) : M (pst F) (option (waiting W)) :=
  match r with
  | SRet v => tf_put p tf_a0 v;; ret None
  | SSwitch k => ret (Some k)
  end.
(** [None] when the call is done. *)
Definition syscall (me : nat) : M (pst F) (option (waiting W)) :=
  let! p := curproc me in
  let! a7 := tf_get p tf_a7 in
  match sys_lookup (s32 (u32 a7)) with
  | Some c => let! r := sys_call me p c in store_result p r
  | None => tf_put p tf_a0 (-1);; ret None
  end.
Definition syscall_return (me p : nat) (k : waiting W) : M (pst F) (option (waiting W)) :=
  let! r := sys_return me p k in store_result p r.

(** *** [plic.c] and [devintr] *)
Definition plic_claim : M st Z := λ s,
  match t_irqs s with
  | [] => Ret 0 s
  | i :: l => Ret i (Tst (t_ps s) (t_csr s) l (t_done s) (t_dev s))
  end.
Definition plic_complete (irq : Z) : M st unit := modify (λ s, Tst (t_ps s) (t_csr s) (t_irqs s) (t_done s ++ [irq]) (t_dev s)).

Definition devintr (me : nat) : M st Z :=
  let! scause := r_scause in
  if decide (Z.land scause 0x8000000000000000 ≠ 0 ∧ Z.land scause 0xff = 9) then
    let! irq := plic_claim in
    (if decide (irq = UART0_IRQ) then devop (uart_intr me)
     else if decide (irq = VIRTIO0_IRQ) then devop (disk_intr me)
     else ret tt);;
    (if decide (irq ≠ 0) then plic_complete irq else ret tt);;
    ret 1
  else if decide (scause = 0x8000000000000001) then
    (if decide (me = 0%nat) then psop (clockintr me) else ret tt);;
    let! sip := r_sip in
    w_sip (Z.land sip (Z.lnot 2));;
    ret 2
  else ret 0.

(** *** Traps from user space *)
Definition usertrapret (me : nat) : M st (trapres W) :=
  let! p := psop (curproc me) in
  psop (cpuop me intr_off);;
  w_stvec (TRAMPOLINE + (uservec - trampoline));;
  let! satp := r_satp in
  psop (tf_put p tf_kernel_satp satp);;
  let! x := psop (gets (proc_at p)) in
  psop (tf_put p tf_kernel_sp (p_kstack x + PGSIZE));;
  psop (tf_put p tf_kernel_trap usertrap_addr);;
  psop (tf_put p tf_kernel_hartid (Z.of_nat me));;
  let! x := r_sstatus me in
  let x := Z.ldiff x SSTATUS_SPP in
  let x := Z.lor x SSTATUS_SPIE in
  w_sstatus me x;;
  let! epc := psop (tf_get p tf_epc) in
  w_sepc epc;;
  let! x := psop (gets (proc_at p)) in
  ret (ToUser (TRAMPOLINE + (userret - trampoline)) TRAPFRAME (MAKE_SATP (p_pagetable x))).

(** [if (p->killed) exit(-1); if (which_dev == 2) yield(); usertrapret();] *)
Definition usertrap_end (me p : nat) (which_dev : Z) : M st (trapres W) :=
  let! x := psop (gets (proc_at p)) in
  if decide (p_killed x ≠ 0) then let! b := psop (exit me (-1)) in ret (TExit b)
  else if decide (which_dev = 2) then let! b := psop (yield me) in ret (TYield b)
  else usertrapret me.
(** What follows [syscall()]. *)
Definition after_syscall (me p : nat) (r : option (waiting W)) : M st (trapres W) :=
  match r with
  | None => usertrap_end me p 0
  | Some k => ret (TCall k)
  end.

Definition usertrap (me : nat) : M st (trapres W) :=
  let! sstatus := r_sstatus me in
  if decide (Z.land sstatus SSTATUS_SPP ≠ 0) then panic "usertrap: not from user mode"
  else
    w_stvec kernelvec;;
    let! p := psop (curproc me) in
    let! sepc := r_sepc in
    psop (tf_put p tf_epc sepc);;
    let! scause := r_scause in
    if decide (scause = 8) then
      let! x := psop (gets (proc_at p)) in
      if decide (p_killed x ≠ 0) then let! b := psop (exit me (-1)) in ret (TExit b)
      else
        let! epc := psop (tf_get p tf_epc) in
        psop (tf_put p tf_epc (epc + 4));;
        psop (cpuop me intr_on);;
        let! r := psop (syscall me) in
        after_syscall me p r
    else
      let! which_dev := devintr me in
      (if decide (which_dev ≠ 0) then ret tt else psop (upd_proc p (set_killed 1)));;
      usertrap_end me p which_dev.
(** From the return of the [swtch] the trap stopped at. *)
Definition usertrap_resume (me p : nat) (r : trapres W) : M st (trapres W) :=
  match r with
  | TYield b => psop (yield_return me p b);; usertrapret me
  | TCall k => let! r := psop (syscall_return me p k) in after_syscall me p r
  | TExit _ => panic "zombie exit"
  | ToUser _ _ _ => ret r
  end.

(** *** Traps from the kernel *)
Inductive ktrapres := KDone | KYield (p : nat) (sepc sstatus : Z) (intena : bool).
Definition ktrap_end (me : nat) (sepc sstatus : Z) : M st ktrapres :=
  w_sepc sepc;;
  w_sstatus me sstatus;;
  ret KDone.
Definition kerneltrap (me : nat) : M st ktrapres :=
  let! sepc := r_sepc in
  let! sstatus := r_sstatus me in
  if decide (Z.land sstatus SSTATUS_SPP = 0) then panic "kerneltrap: not from supervisor mode"
  else
    let! on := psop (cpuop me intr_get) in
    if on : bool then panic "kerneltrap: interrupts enabled"
    else
      let! which_dev := devintr me in
      if decide (which_dev = 0) then panic "kerneltrap"
      else
        let! q := psop (if decide (which_dev = 2) then myproc me else ret None) in
        match q with
        | Some p =>
            let! q := psop (curproc me) in
            let! x := psop (gets (proc_at q)) in
            if decide (p_state x = RUNNING) then
              let! b := psop (yield me) in ret (KYield q sepc sstatus b)
            else ktrap_end me sepc sstatus
        | None => ktrap_end me sepc sstatus
        end.
Definition kerneltrap_resume (me p : nat) (sepc sstatus : Z) (intena : bool) : M st ktrapres :=
  psop (yield_return me p intena);;
  ktrap_end me sepc sstatus.
End Trap.
