(* ===== verification/TrapTheorems.v ===== *)
(** * Traps and system calls: theorems

    A process on a hart is [running]: it is the current one, holds no lock,
    and its trap frame is in memory.  Trap handling is specified by what
    becomes of the user registers and the program counter in the frame. *)
From S2P Require Import Prelude Params CString Locks BlockLayer Fs Dir Pipe Riscv Kalloc Vm Spinlock File Proc ProcProofs Console ConsoleTheorems Devices DeviceTheorems Trap.

(** The 31 user registers of a trap frame page. *)
Definition uregs (pg : page) : list Z := (λ k : nat, ld64 (40 + 8 * k) pg) <$> seq 0 31.
Definition a0_of (pg : page) : Z := ld64 tf_a0 pg.
Definition epc_of (pg : page) : Z := ld64 tf_epc pg.

Lemma ld_st_same off v (pg : page) : length pg = pgsize → (off + 8 ≤ pgsize)%nat → ld64 off (st64 off v pg) = u64 v.
Proof. intros Hl Ho. unfold ld64, st64. rewrite ldn_stn_same by lia. done. Qed.
Lemma ld_st_other off off' v (pg : page) :
  length pg = pgsize → (off + 8 ≤ pgsize)%nat → (off' + 8 ≤ pgsize)%nat → (off + 8 ≤ off' ∨ off' + 8 ≤ off)%nat →
  ld64 off (st64 off' v pg) = ld64 off pg.
Proof. intros Hl H1 H2 H3. unfold ld64, st64. apply ldn_stn_disjoint; lia. Qed.

Lemma pgsize_eq : pgsize = 4096%nat. Proof. done. Qed.

(** Words of the frame outside the user registers do not touch them. *)
Lemma uregs_put off v (pg : page) : length pg = pgsize → (off + 8 ≤ 40)%nat → uregs (st64 off v pg) = uregs pg.
Proof.
  intros Hl Ho. unfold uregs. apply list_fmap_ext. intros i k [-> Hk]%lookup_seq.
  apply ld_st_other; rewrite ?pgsize_eq in *; lia.
Qed.

(** [a0] is register 9 of the frame. *)
Lemma uregs_a0 v (pg : page) : length pg = pgsize → uregs (st64 tf_a0 v pg) = <[9%nat := u64 v]> (uregs pg).
Proof.
  intros Hl. apply list_eq. intros k. unfold uregs, tf_a0. rewrite list_lookup_fmap.
  destruct (decide (k = 9)%nat) as [->|Hne].
  - rewrite list_lookup_insert_eq by (rewrite length_fmap, length_seq; lia). simpl. f_equal. apply ld_st_same; rewrite ?pgsize_eq; done || lia.
  - rewrite list_lookup_insert_ne, list_lookup_fmap by done. destruct (decide (k < 31)%nat).
    + rewrite lookup_seq_lt by done. simpl. f_equal. apply ld_st_other; rewrite ?pgsize_eq in *; lia.
    + by rewrite lookup_seq_ge by lia.
Qed.

(** [wp] as a property of the outcome of a run. *)
Definition ends {S A} (Q : A → S → Prop) (o : res S A) : Prop := match o with Ret a s => Q a s | _ => False end.
Lemma wp_ends {S A} (m : M S A) Q s : ends Q (m s) → wp m Q s.
Proof. done. Qed.

(** What holds of the outcome of a sequence, by what its first part does. *)
Lemma after_bind {S A B} (Φ : res S B → Prop) (m : M S A) (k : A → M S B) s :
  wp m (λ a s', Φ (k a s')) s → Φ (bind m k s).
Proof. unfold wp, bind. by destruct (m s). Qed.

(** The four words [usertrapret] leaves for the next trap. *)
Lemma kernel_words (pg : page) satp sp trap hart : length pg = pgsize →
  let pg' := st64 tf_kernel_hartid hart (st64 tf_kernel_trap trap (st64 tf_kernel_sp sp (st64 tf_kernel_satp satp pg))) in
  uregs pg' = uregs pg ∧ epc_of pg' = epc_of pg ∧ ld64 tf_kernel_satp pg' = u64 satp ∧ ld64 tf_kernel_sp pg' = u64 sp ∧
  ld64 tf_kernel_trap pg' = u64 trap ∧ ld64 tf_kernel_hartid pg' = u64 hart.
Proof.
  intros Hl. cbv zeta. unfold epc_of, tf_kernel_hartid, tf_kernel_trap, tf_kernel_sp, tf_kernel_satp, tf_epc.
  assert (Hs : ∀ off v q, length q = pgsize → (off ≤ 4000)%nat → length (st64 off v q) = pgsize).
  { intros off v q Hq Ho. unfold st64. rewrite stn_length; [done | rewrite Hq, pgsize_eq; lia]. }
  assert (H0 := Hs 0%nat satp pg Hl ltac:(lia)). assert (H1 := Hs 8%nat sp _ H0 ltac:(lia)). assert (H2 := Hs 16%nat trap _ H1 ltac:(lia)).
  split_and!; [by rewrite !uregs_put by (done || lia) |..];
    repeat first [ rewrite ld_st_same by (rewrite ?pgsize_eq; done || lia) | rewrite ld_st_other by (rewrite ?pgsize_eq; done || lia) ]; done.
Qed.

Section Trap.
Context {F W : Type} `{FileOps F} `{TrapOps F W}.
Context (kend trampoline forkret_addr kernelvec uservec userret usertrap_addr : Z).
Notation st := (tst F).
Implicit Types (s : pst F) (T : st).

(** Process [p] (entry [x], frame [pg]) runs on hart [me] with interrupts
    [e], and every lock the trap code takes is free. *)
Record running (me p : nat) (x : proc) (pg : page) (e : bool) (s : pst F) : Prop := Running {
  rn_cpu : ∃ b, ps_cpus s !! me = Some (Cpu (Some p) 0 b e);
  rn_proc : ps_proc s !! p = Some x;
  rn_state : p_state x = RUNNING;
  rn_page : pm_pages (ps_mem s) !! p_trapframe x = Some pg;
  rn_len : length pg = pgsize;
  rn_free : Forall (λ q, p_lock q = initlock) (ps_proc s);
  rn_table : length (ps_proc s) = nproc;
  rn_ticks : lock_of tickslock s = initlock }.

(** The same process table and locks. *)
Definition same_table (s s' : pst F) : Prop := ps_proc s' = ps_proc s ∧ ps_locks s' = ps_locks s.
#[export] Instance same_table_preorder : PreOrder same_table.
Proof. split; [done |]. intros s1 s2 s3 [E1 L1] [E2 L2]. split; congruence. Qed.

Definition put_page (a : Z) (pg : page) (s : pst F) : pst F :=
  put_pmem (Pmem (<[a := pg]> (pm_pages (ps_mem s))) (kmem_freelist (ps_mem s))) s.

Lemma running_hart me p x pg e s b e' :
  running me p x pg e s → running me p x pg e' (put_hart me (Cpu (Some p) 0 b e') s).
Proof.
  intros [[b0 R1] R2 R3 R4 R5 R6 R7 R8]. split; try done. exists b. cbn. apply list_lookup_insert_eq. by eapply lookup_lt_Some.
Qed.

Lemma running_page me p x pg pg' e s :
  running me p x pg e s → length pg' = pgsize → running me p x pg' e (put_page (p_trapframe x) pg' s).
Proof. intros [R1 R2 R3 R4 R5 R6 R7 R8] Hl. split; try done. cbn. apply lookup_insert_eq. Qed.

Lemma wp_psop {A} (m : M (pst F) A) Q T :
  wp m (λ a s, Q a (Tst s (t_csr T) (t_irqs T) (t_done T) (t_dev T))) (t_ps T) → wp (psop m) Q T.
Proof. intros Hm. unfold psop. apply wp_zoom. exact Hm. Qed.

Lemma wp_curproc me p x pg e Q s :
  running me p x pg e s → (∀ s', running me p x pg e s' → same_table s s' → Q p s') → wp (curproc me) Q s.
Proof.
  intros R HQ. destruct (rn_cpu _ _ _ _ _ _ R) as [b Hc]. eapply wp_intro; [by apply (curproc_eq me (Cpu (Some p) 0 b e) p) |].
  apply HQ; [by apply running_hart with (e := e) | done].
Qed.

Lemma wp_tf_put me p x pg e off v Q s :
  running me p x pg e s → (off + 8 ≤ pgsize)%nat →
  (∀ s', running me p x (st64 off v pg) e s' → same_table s s' → Q tt s') → wp (tf_put p off v) Q s.
Proof.
  intros R Ho HQ. unfold tf_put, memop, set_tf, set_page. wp_steps. rewrite (proc_at_eq _ _ _ (rn_proc _ _ _ _ _ _ R)).
  eapply wp_intro; [unfold page_of; by rewrite (rn_page _ _ _ _ _ _ R) |]. wp_steps.
  apply HQ; [| done]. apply (running_page me p x pg); [done |]. unfold st64. rewrite stn_length; [apply R |]. by rewrite (rn_len _ _ _ _ _ _ R).
Qed.

Lemma wp_tf_get me p x pg e off Q s :
  running me p x pg e s → Q (ld64 off pg) s → wp (tf_get p off) Q s.
Proof.
  intros R HQ. unfold tf_get, memop. wp_steps. rewrite (proc_at_eq _ _ _ (rn_proc _ _ _ _ _ _ R)).
  eapply wp_intro; [unfold page_of; by rewrite (rn_page _ _ _ _ _ _ R) |]. wp_steps. destruct s. exact HQ.
Qed.

(** ** The return to user space *)

(** The hart is ready for [sret] into the process: user mode with
    interrupts on after it, traps go to the trampoline, the program counter
    and the registers are those of the frame [pg]. *)
Record user_ready (me p : nat) (x : proc) (pg : page) (r : trapres W) (T : st) : Prop := UserReady {
  ur_call : r = ToUser (TRAMPOLINE + (userret - trampoline)) TRAPFRAME (MAKE_SATP (p_pagetable x));
  ur_run : ∃ pg', running me p x pg' false (t_ps T) ∧ uregs pg' = uregs pg ∧ epc_of pg' = epc_of pg ∧
    ld64 tf_kernel_satp pg' = u64 (x_satp (t_csr T)) ∧ ld64 tf_kernel_sp pg' = u64 (p_kstack x + PGSIZE) ∧
    ld64 tf_kernel_trap pg' = u64 usertrap_addr ∧ ld64 tf_kernel_hartid pg' = u64 (Z.of_nat me);
  ur_pc : x_sepc (t_csr T) = epc_of pg;
  ur_vec : x_stvec (t_csr T) = TRAMPOLINE + (uservec - trampoline);
  ur_mode : Z.testbit (x_sstatus (t_csr T)) 8 = false ∧ Z.testbit (x_sstatus (t_csr T)) 5 = true }.

Lemma wp_sie me p x pg e e' Q s :
  running me p x pg e s → (∀ s', running me p x pg e' s' → same_table s s' → Q tt s') → wp (cpuop me (modify (set_sie e'))) Q s.
Proof.
  intros R HQ. destruct (rn_cpu _ _ _ _ _ _ R) as [b Hc]. eapply wp_intro; [by apply (cpuop_modify me _ (Cpu (Some p) 0 b e)) |].
  apply HQ; [by apply running_hart with (e := e) | done].
Qed.

Lemma wp_sstatus me p x pg e Q T :
  running me p x pg e (t_ps T) → Q (Z.lor (x_sstatus (t_csr T)) (sie_bit e)) T → wp (r_sstatus me) Q T.
Proof.
  intros R HQ. destruct (rn_cpu _ _ _ _ _ _ R) as [b Hc]. unfold wp, r_sstatus. by rewrite (cpu_at_eq _ _ _ Hc).
Qed.

Lemma sstatus_bits x :
  Z.testbit (Z.ldiff (Z.lor (Z.ldiff (Z.lor x 0) SSTATUS_SPP) SSTATUS_SPIE) SSTATUS_SIE) 8 = false ∧
  Z.testbit (Z.ldiff (Z.lor (Z.ldiff (Z.lor x 0) SSTATUS_SPP) SSTATUS_SPIE) SSTATUS_SIE) 5 = true ∧
  Z.testbit (Z.lor (Z.ldiff (Z.lor x 0) SSTATUS_SPP) SSTATUS_SPIE) 1 = Z.testbit x 1.
Proof.
  rewrite Z.lor_0_r, !Z.ldiff_spec, !Z.lor_spec, !Z.ldiff_spec. cbn. rewrite !andb_true_r, !orb_true_r, !orb_false_r. cbn.
  by rewrite andb_false_r.
Qed.

Ltac tcbn := cbn [t_csr t_ps t_irqs t_done t_dev x_sstatus x_sepc x_scause x_stvec x_satp x_sip].
(** Store a word of the frame of the running process. *)
Ltac tf_store R s' R' :=
  wp_steps; apply wp_psop; tcbn; eapply wp_tf_put; [exact R | by vm_compute; lia | intros s' R' _; tcbn].

Lemma usertrapret_spec me p x pg e T :
  running me p x pg e (t_ps T) → Z.testbit (x_sstatus (t_csr T)) 1 = false →
  wp (usertrapret trampoline uservec userret usertrap_addr me) (user_ready me p x pg) T.
Proof.
  intros R Hbit. unfold usertrapret. pose proof (rn_len _ _ _ _ _ _ R) as Hl.
  apply wp_bind, wp_psop. eapply wp_curproc; [exact R |]. intros s1 R1 _.
  apply wp_bind, wp_psop. eapply wp_sie; [exact R1 |]. intros s2 R2 _. tcbn.
  unfold w_stvec, put_csr, r_satp. wp_steps. tcbn. tf_store R2 s3 R3.
  wp_steps. apply wp_psop, wp_gets. tcbn. rewrite (proc_at_eq _ _ _ (rn_proc _ _ _ _ _ _ R3)).
  tf_store R3 s4 R4. tf_store R4 s5 R5. tf_store R5 s6 R6.
  set (pg' := st64 tf_kernel_hartid _ _) in R6. wp_steps. eapply wp_sstatus; [exact R6 |]. tcbn. cbn [sie_bit].
  destruct (sstatus_bits (x_sstatus (t_csr T))) as (B8 & B5 & B1).
  unfold w_sstatus. unfold put_csr. wp_steps. apply wp_psop. tcbn. eapply wp_sie; [exact R6 |]. intros s7 R7 _. rewrite B1, Hbit in R7.
  wp_steps. apply wp_psop. tcbn. eapply wp_tf_get; [exact R7 |]. unfold w_sepc, put_csr. wp_steps. tcbn.
  apply wp_psop, wp_gets. tcbn. rewrite (proc_at_eq _ _ _ (rn_proc _ _ _ _ _ _ R7)). wp_steps.
  destruct (kernel_words pg (x_satp (t_csr T)) (p_kstack x + PGSIZE) usertrap_addr (Z.of_nat me) Hl) as (Ku & Ke & K1 & K2 & K3 & K4).
  fold pg' in Ku, Ke, K1, K2, K3, K4. split; tcbn; [done | exists pg'; by split_and! | exact Ke | done | by split].
Qed.

(** ** System calls *)
Lemma spp_bit x e : Z.land (Z.lor x (sie_bit e)) SSTATUS_SPP = 0 ↔ Z.testbit x 8 = false.
Proof.
  pose proof (has_testbit 8 (Z.lor x (sie_bit e)) ltac:(lia)) as Hb. unfold has in Hb. fold SSTATUS_SPP in Hb.
  rewrite Z.lor_spec in Hb. assert (Z.testbit (sie_bit e) 8 = false) as E by (by destruct e). rewrite E, orb_false_r in Hb. rewrite <- Hb.
  rewrite negb_false_iff, Z.eqb_eq. done.
Qed.

(** The frame when the call starts: the program counter is past [ecall]. *)
Definition call_page (sepc : Z) (pg : page) : page := st64 tf_epc (u64 sepc + 4) (st64 tf_epc sepc pg).

Lemma st_length off v (pg : page) : length pg = pgsize → (off + 8 ≤ 4096)%nat → length (st64 off v pg) = pgsize.
Proof. intros Hq Ho. unfold st64. rewrite stn_length; [done | rewrite Hq, pgsize_eq; lia]. Qed.

Lemma call_page_regs sepc (pg : page) : length pg = pgsize →
  uregs (call_page sepc pg) = uregs pg ∧ epc_of (call_page sepc pg) = u64 (sepc + 4).
Proof.
  intros Hl. unfold call_page, epc_of, tf_epc. pose proof (st_length 24 sepc pg Hl ltac:(lia)) as Hl1. split.
  - by rewrite !uregs_put by (done || lia).
  - rewrite ld_st_same by (rewrite ?pgsize_eq; done || lia). unfold u64. apply Zplus_mod_idemp_l.
Qed.

Lemma store_result_spec me p x pg e v s :
  running me p x pg e s → wp (store_result (W := W) p (SRet v)) (λ r s', r = None ∧ running me p x (st64 tf_a0 v pg) e s') s.
Proof.
  intros R. unfold store_result. wp_steps. eapply wp_tf_put; [exact R | by vm_compute; lia |]. intros s' R' _. wp_steps. by split.
Qed.

(** [usertrap] from the look at the cause on. *)
Definition on_cause (me p : nat) (scause : Z) : M st (trapres W) :=
  if decide (scause = 8) then
    let! x := psop (gets (proc_at p)) in
    if decide (p_killed x ≠ 0) then let! b := psop (exit me (-1)) in ret (TExit b)
    else
      let! epc := psop (tf_get p tf_epc) in
      psop (tf_put p tf_epc (epc + 4));;
      psop (cpuop me intr_on);;
      let! r := psop (syscall kend trampoline forkret_addr me) in
      after_syscall trampoline uservec userret usertrap_addr me p r
  else
    let! which_dev := devintr me in
    (if decide (which_dev ≠ 0) then ret tt else psop (upd_proc p (set_killed 1)));;
    usertrap_end trampoline uservec userret usertrap_addr me p which_dev.
(** The registers of the trap [T] with the kernel's trap vector, the same
    devices, and the process table [s]. *)
Definition in_kernel T (s : pst F) : st :=
  let c := t_csr T in
  Tst s (Csr (x_sstatus c) (x_sepc c) (x_scause c) kernelvec (x_satp c) (x_sip c)) (t_irqs T) (t_done T) (t_dev T).

(** The entry of [usertrap] up to the cause. *)
Lemma usertrap_entry me p x pg e T (Φ : res st (trapres W) → Prop) :
  running me p x pg e (t_ps T) → Z.testbit (x_sstatus (t_csr T)) 8 = false →
  (∀ s1, running me p x (st64 tf_epc (x_sepc (t_csr T)) pg) e s1 → same_table (t_ps T) s1 →
    Φ (on_cause me p (x_scause (t_csr T)) (in_kernel T s1))) →
  Φ (usertrap kend trampoline forkret_addr kernelvec uservec userret usertrap_addr me T).
Proof.
  intros R Hspp Hk. unfold usertrap. apply after_bind. eapply wp_sstatus; [exact R |].
  rewrite decide_False by (intros Hne; apply Hne; by apply spp_bit). unfold w_stvec, put_csr.
  apply after_bind, wp_modify, after_bind, wp_psop. tcbn. eapply wp_curproc; [exact R |]. intros s1 R1 E1. unfold r_sepc.
  apply after_bind, wp_gets, after_bind, wp_psop. tcbn. eapply wp_tf_put; [exact R1 | by vm_compute; lia |]. intros s2 R2 E2.
  unfold r_scause. apply after_bind, wp_gets. tcbn. apply Hk; [done |]. by etrans.
Qed.

(** A system call of a live process, up to the call. *)
Lemma syscall_entry me p x pg e s1 T (Φ : res st (trapres W) → Prop) :
  running me p x (st64 tf_epc (x_sepc (t_csr T)) pg) e s1 → length pg = pgsize → same_table (t_ps T) s1 → p_killed x = 0 →
  (∀ s2, running me p x (call_page (x_sepc (t_csr T)) pg) true s2 → same_table (t_ps T) s2 →
    Φ ((let! r := psop (syscall kend trampoline forkret_addr me) in
        after_syscall trampoline uservec userret usertrap_addr me p r) (in_kernel T s2))) →
  Φ (on_cause me p 8 (in_kernel T s1)).
Proof.
  intros R1 Hl E1 Hk Hcall. unfold on_cause. rewrite decide_True by done.
  apply after_bind, wp_psop, wp_gets. unfold in_kernel. tcbn. rewrite (proc_at_eq _ _ _ (rn_proc _ _ _ _ _ _ R1)), decide_False by lia.
  apply after_bind, wp_psop. tcbn. eapply wp_tf_get; [exact R1 |].
  apply after_bind, wp_psop. tcbn. eapply wp_tf_put; [exact R1 | by vm_compute; lia |]. intros s2 R2 E2. tcbn.
  apply after_bind, wp_psop. tcbn. eapply wp_sie; [exact R2 |]. intros s3 R3 E3. tcbn.
  rewrite ld_st_same in R3 by (rewrite ?pgsize_eq; unfold tf_epc; done || lia). fold (call_page (x_sepc (t_csr T)) pg) in R3.
  apply Hcall; [exact R3 |]. etrans; [exact E1 |]. by etrans.
Qed.

Lemma usertrap_to_syscall me p x pg e T (Q : proc → page → Prop) :
  running me p x pg e (t_ps T) → Z.testbit (x_sstatus (t_csr T)) 8 = false → Z.testbit (x_sstatus (t_csr T)) 1 = false →
  p_killed x = 0 → x_scause (t_csr T) = 8 →
  (∀ s1, running me p x (call_page (x_sepc (t_csr T)) pg) true s1 → same_table (t_ps T) s1 →
    wp (syscall kend trampoline forkret_addr me) (λ r s2, ∃ x2 pg2 e2, r = None ∧ running me p x2 pg2 e2 s2 ∧ p_killed x2 = 0 ∧ Q x2 pg2) s1) →
  wp (usertrap kend trampoline forkret_addr kernelvec uservec userret usertrap_addr me)
    (λ r T', ∃ x2 pg2, Q x2 pg2 ∧ user_ready me p x2 pg2 r T') T.
Proof.
  intros R H8 H1 Hk Hc Hcall. pose proof (rn_len _ _ _ _ _ _ R) as Hl. apply wp_ends.
  eapply usertrap_entry; [exact R | done |]. intros s1 R1 E1. rewrite Hc.
  eapply syscall_entry; [exact R1 | done.. |]. intros s2 R2 E2.
  apply after_bind, wp_psop. eapply wp_mono; [by apply Hcall |]. intros r s4 (x2 & pg2 & e2 & -> & R4 & Hk2 & HQ).
  unfold after_syscall, usertrap_end. apply after_bind, wp_psop, wp_gets. tcbn.
  rewrite (proc_at_eq _ _ _ (rn_proc _ _ _ _ _ _ R4)), decide_False, (decide_False (P := 0 = 2)) by lia.
  eapply wp_mono; [by eapply usertrapret_spec |]. intros r T' U. by exists x2, pg2.
Qed.

Lemma call_page_a7 sepc (pg : page) : length pg = pgsize → ld64 tf_a7 (call_page sepc pg) = ld64 tf_a7 pg.
Proof.
  intros Hl. unfold call_page, tf_a7, tf_epc. pose proof (st_length 24 sepc pg Hl ltac:(lia)).
  by rewrite !ld_st_other by (rewrite ?pgsize_eq; done || lia).
Qed.

Lemma epc_a0 v (pg : page) : length pg = pgsize → epc_of (st64 tf_a0 v pg) = epc_of pg.
Proof. intros Hl. unfold epc_of, tf_epc, tf_a0. apply ld_st_other; rewrite ?pgsize_eq; done || lia. Qed.

(** C13: A system call comes back to the user program.  When the handler the
    number in [a7] selects returns [v] and leaves the process alive, the
    trap ends in user mode with interrupts enabled, [a0] holds [v] and all
    other registers, the program counter and the page table are those the
    handler left; the handler was entered with interrupts on, the user
    registers of the trap and the program counter past the [ecall]. *)
Theorem usertrap_syscall me p x pg e T c (P : Z → proc → page → Prop) :
  running me p x pg e (t_ps T) → Z.testbit (x_sstatus (t_csr T)) 8 = false → Z.testbit (x_sstatus (t_csr T)) 1 = false →
  p_killed x = 0 → x_scause (t_csr T) = 8 → sys_lookup (s32 (u32 (ld64 tf_a7 pg))) = Some c →
  (∀ s1 pg1, running me p x pg1 true s1 → same_table (t_ps T) s1 → uregs pg1 = uregs pg → epc_of pg1 = u64 (x_sepc (t_csr T) + 4) →
    wp (sys_call kend trampoline forkret_addr me p c)
      (λ r s2, ∃ v x2 pg2 e2, r = SRet v ∧ running me p x2 pg2 e2 s2 ∧ p_killed x2 = 0 ∧ P v x2 pg2) s1) →
  wp (usertrap kend trampoline forkret_addr kernelvec uservec userret usertrap_addr me)
    (λ r T', ∃ v x2 pg2 pg3, P v x2 pg2 ∧ user_ready me p x2 pg3 r T' ∧
       uregs pg3 = <[9%nat := u64 v]> (uregs pg2) ∧ epc_of pg3 = epc_of pg2) T.
Proof.
  intros R H8 H1 Hk Hc Hnum Hcall. pose proof (rn_len _ _ _ _ _ _ R) as Hl. destruct (call_page_regs (x_sepc (t_csr T)) pg Hl) as [Cu Ce].
  eapply wp_mono; [apply (usertrap_to_syscall me p x pg e T (λ x2 pg3, ∃ v pg2, P v x2 pg2 ∧ uregs pg3 = <[9%nat := u64 v]> (uregs pg2) ∧
    epc_of pg3 = epc_of pg2)); try done |].
  - intros s1 R1 E1. unfold syscall. apply wp_bind. eapply wp_curproc; [exact R1 |]. intros s2 R2 E2.
    apply wp_bind. eapply wp_tf_get; [exact R2 |]. rewrite call_page_a7, Hnum by done. apply wp_bind.
    eapply wp_mono; [by apply (Hcall s2 _ R2 (transitivity E1 E2)) |]. intros r s3 (v & x2 & pg2 & e2 & -> & R3 & Hk2 & HP).
    eapply wp_mono; [by eapply store_result_spec |]. intros r s4 [-> R4]. pose proof (rn_len _ _ _ _ _ _ R3) as Hl2.
    exists x2, (st64 tf_a0 v pg2), e2. split_and!; [done | done | done |]. exists v, pg2.
    split_and!; [done | by apply uregs_a0 | by apply epc_a0].
  - intros r T' (x2 & pg3 & (v & pg2 & HP & Eu & Ee) & U). by exists v, x2, pg2, pg3.
Qed.

(** An unknown number returns -1 and nothing else. *)
Lemma usertrap_unknown me p x pg e T :
  running me p x pg e (t_ps T) → Z.testbit (x_sstatus (t_csr T)) 8 = false → Z.testbit (x_sstatus (t_csr T)) 1 = false →
  p_killed x = 0 → x_scause (t_csr T) = 8 → sys_lookup (s32 (u32 (ld64 tf_a7 pg))) = None →
  wp (usertrap kend trampoline forkret_addr kernelvec uservec userret usertrap_addr me)
    (λ r T', ∃ pg3, user_ready me p x pg3 r T' ∧ uregs pg3 = <[9%nat := 2 ^ 64 - 1]> (uregs pg) ∧
       epc_of pg3 = u64 (x_sepc (t_csr T) + 4)) T.
Proof.
  intros R H8 H1 Hk Hc Hnum. pose proof (rn_len _ _ _ _ _ _ R) as Hl. destruct (call_page_regs (x_sepc (t_csr T)) pg Hl) as [Cu Ce].
  eapply wp_mono; [apply (usertrap_to_syscall me p x pg e T (λ x2 pg3, x2 = x ∧ pg3 = st64 tf_a0 (-1) (call_page (x_sepc (t_csr T)) pg))); try done |].
  - intros s1 R1 E1. unfold syscall. apply wp_bind. eapply wp_curproc; [exact R1 |]. intros s2 R2 E2.
    apply wp_bind. eapply wp_tf_get; [exact R2 |]. rewrite call_page_a7, Hnum by done. wp_steps.
    eapply wp_tf_put; [exact R2 | by vm_compute; lia |]. intros s3 R3 _. wp_steps. by exists x, (st64 tf_a0 (-1) (call_page (x_sepc (t_csr T)) pg)), true.
  - intros r T' (x2 & pg3 & (-> & ->) & U). exists (st64 tf_a0 (-1) (call_page (x_sepc (t_csr T)) pg)).
    assert (length (call_page (x_sepc (t_csr T)) pg) = pgsize) by (unfold call_page; by rewrite !st_length by (rewrite ?st_length; unfold tf_epc; done || lia)).
    split_and!; [done | by rewrite uregs_a0, Cu by done | by rewrite epc_a0].
Qed.

(** ** Interrupts *)

(** The process is off its hart: runnable, with its lock held over
    [swtch], and its frame untouched. *)
Definition switched_off (me p : nat) (x : proc) (pg : page) (s : pst F) : Prop :=
  ps_proc s !! p = Some (set_plock (held me) (set_state RUNNABLE x)) ∧ pm_pages (ps_mem s) !! p_trapframe x = Some pg.
(** The scheduler of hart [me] has just picked the process. *)
Record picked_up (me p : nat) (x : proc) (pg : page) (s : pst F) : Prop := PickedUp {
  pk_cpu : ∃ b, ps_cpus s !! me = Some (Cpu (Some p) 1 b false);
  pk_proc : ps_proc s !! p = Some (set_plock (held me) x);
  pk_state : p_state x = RUNNING;
  pk_lock : p_lock x = initlock;
  pk_page : pm_pages (ps_mem s) !! p_trapframe x = Some pg;
  pk_len : length pg = pgsize;
  pk_free : ∀ i q, i ≠ p → ps_proc s !! i = Some q → p_lock q = initlock;
  pk_table : length (ps_proc s) = nproc;
  pk_ticks : lock_of tickslock s = initlock }.

Lemma wp_yield me p x pg e s :
  running me p x pg e s → wp (yield me) (λ b s', b = e ∧ switched_off me p x pg s') s.
Proof.
  intros R. destruct (rn_cpu _ _ _ _ _ _ R) as [b Hc]. pose proof (rn_proc _ _ _ _ _ _ R) as Hp.
  pose proof (lookup_lt_Some _ _ _ Hc). pose proof (lookup_lt_Some _ _ _ Hp).
  pose proof (Forall_lookup_1 _ _ _ _ (rn_free _ _ _ _ _ _ R) Hp) as Hlk. cbv beta in Hlk.
  unfold yield. apply wp_bind. eapply wp_intro; [by apply (curproc_eq me (Cpu (Some p) 0 b e) p) |]. 
  apply wp_bind. eapply wp_intro; [eapply lock_proc; [done | done | cbn; by rewrite list_lookup_insert_eq] |].
  apply wp_bind. eapply wp_intro; [eapply upd_proc_eq; cbn; by rewrite list_lookup_insert_eq |].
  eapply wp_intro; [eapply sched_eq; [cbn; rewrite list_lookup_insert_eq by (by rewrite length_insert); reflexivity
    | cbn; rewrite list_lookup_insert_eq by (by rewrite length_insert); reflexivity | done | done] |].
  split; [done |]. split; [| apply R]. cbn. by rewrite list_lookup_insert_eq by (by rewrite length_insert).
Qed.

Lemma wp_yield_return me p x pg b s :
  picked_up me p x pg s → wp (yield_return me p b) (λ _ s', running me p x pg b s') s.
Proof.
  intros K. destruct (pk_cpu _ _ _ _ _ K) as [b0 Hc]. pose proof (pk_proc _ _ _ _ _ K) as Hp. pose proof (lookup_lt_Some _ _ _ Hp).
  pose proof (lookup_lt_Some _ _ _ Hc).
  unfold yield_return, sched_return. apply wp_bind. eapply wp_intro; [by eapply cpuop_modify |].
  eapply wp_intro; [eapply unlock_proc; [exact Hp | done | cbn; rewrite list_lookup_insert_eq by done; reflexivity | done] |].
  rewrite relock_id by apply K. split; cbn.
  - exists b. rewrite list_lookup_insert_eq by (by rewrite length_insert). done.
  - by apply list_lookup_insert_eq.
  - apply K.
  - apply K.
  - apply K.
  - apply Forall_lookup. intros i q [(<- & <- & _)|[Hne Hq]]%list_lookup_insert_Some; [apply K | by eapply (pk_free _ _ _ _ _ K)].
  - rewrite length_insert. apply K.
  - apply K.
Qed.

Lemma wp_clockintr me p x pg e s : running me p x pg e s → wp (clockintr me) (λ _ s', running me p x pg e s') s.
Proof.
  intros R. destruct (rn_cpu _ _ _ _ _ _ R) as [b Hc]. pose proof (lookup_lt_Some _ _ _ Hc) as Hlt. unfold clockintr, tickslock.
  apply wp_bind. eapply wp_intro; [apply (lock_addr me 1 _ _ Hc); apply R |].
  apply wp_bind, wp_modify. set (s1 := Pst _ _ _ _ _ _ _ _ _ _).
  assert (Hc1 : ps_cpus s1 !! me = Some (Cpu (Some p) 1 e false)) by (cbn; by apply list_lookup_insert_eq).
  destruct (wakeup_eq me ticks_chan (Cpu (Some p) 1 e false) s1) as (c' & Hsame & Ew); [apply R | done | by split | apply R |].
  apply same_hart_locked in Hsame as ->; [| done]. apply wp_bind. eapply wp_intro; [exact Ew |].
  eapply wp_intro; [eapply (unlock_addr me 1 (Some p) 1 e); [cbn; rewrite list_lookup_insert_eq by (by rewrite length_insert); reflexivity | cbn; by rewrite lookup_insert_eq | done] |].
  destruct R as [_ R2 R3 R4 R5 R6 R7 R8]. split; cbn; try done.
  - exists e. rewrite list_lookup_insert_eq by (by rewrite !length_insert). done.
  - rewrite list_lookup_fmap, R2. cbn. unfold wake. rewrite decide_False; [done | rewrite R3; by intros [? _]].
  - apply Forall_fmap. eapply Forall_impl; [exact R6 |]. intros q Hq. cbn. by rewrite wake_lock.
  - by rewrite length_fmap.
  - by rewrite lookup_insert_eq.
Qed.

(** The device handlers may wake other processes; the interrupted one and
    its hart they leave alone. *)
Lemma running_handled me p x pg e b s s' :
  running me p x pg e s → handled me (Cpu (Some p) 0 b e) s s' → running me p x pg e s'.
Proof.
  intros [[b0 R1] R2 R3 R4 R5 R6 R7 R8] [(c & Hc & Ec) Hw Hlk Hmem]. apply same_hart_free in Hc as [b' ->]. split.
  - exists b'. rewrite Ec. apply list_lookup_insert_eq. by eapply lookup_lt_Some.
  - destruct (Forall2_lookup_l _ _ _ _ _ Hw R2) as (y & Hy & [->|[Hs _]]); [done | congruence].
  - done.
  - by rewrite Hmem.
  - done.
  - apply Forall_lookup. intros i q Hq. destruct (Forall2_lookup_r _ _ _ _ _ Hw Hq) as (q0 & Hq0 & Hwq).
    rewrite (woken_lock _ _ Hwq). by apply (Forall_lookup_1 _ _ _ _ R6 Hq0).
  - by rewrite <- (Forall2_length _ _ _ Hw).
  - by rewrite (Hlk 1 : lock_of tickslock s' = _).
Qed.

Lemma wp_devop me p x pg e (m : M (pst F * devs) unit) T :
  running me p x pg e (t_ps T) →
  (∀ c, unlocked me c (t_ps T) → ∃ s' : pst F * devs, m (t_ps T, t_dev T) = Ret tt s' ∧ handled me c (t_ps T) s'.1 ∧ devices_ready s') →
  wp (devop m) (λ _ T', running me p x pg e (t_ps T') ∧ t_csr T' = t_csr T) T.
Proof.
  intros R Hm. destruct (rn_cpu _ _ _ _ _ _ R) as [b Hc].
  destruct (Hm (Cpu (Some p) 0 b e)) as (s' & E & Hh & _); [by split; [done | split; [done | by intros ?] | apply R | apply R] |].
  unfold devop. apply wp_zoom. eapply wp_intro; [exact E |]. split; [by eapply running_handled | done].
Qed.

(** What [devintr] returns for a cause. *)
Definition which_dev (scause : Z) : Z :=
  if decide (Z.land scause 0x8000000000000000 ≠ 0 ∧ Z.land scause 0xff = 9) then 1
  else if decide (scause = 0x8000000000000001) then 2 else 0.

(** The trap is an interrupt of the serial port or of the disk. *)
Definition device_trap T : Prop :=
  which_dev (x_scause (t_csr T)) = 1 ∧ (head (t_irqs T) = Some UART0_IRQ ∨ head (t_irqs T) = Some VIRTIO0_IRQ).

Lemma ready_table s s' d : devices_ready (s, d) → same_table s s' → devices_ready (s', d).
Proof.
  intros [Hc Hu Hv Hp Ht Hq Hk Hi Hd] [_ El]. assert (El' : ∀ a, lock_of (LkAddr a) s' = lock_of (LkAddr a) s) by (intros a; cbn; by rewrite El).
  split; try done; (etrans; [apply El' |]); done.
Qed.

Lemma devintr_spec me p x pg e T :
  running me p x pg e (t_ps T) → (device_trap T → devices_ready (t_ps T, t_dev T)) →
  wp (devintr me) (λ r T', r = which_dev (x_scause (t_csr T)) ∧ running me p x pg e (t_ps T') ∧
    x_sstatus (t_csr T') = x_sstatus (t_csr T) ∧ x_sepc (t_csr T') = x_sepc (t_csr T)) T.
Proof.
  intros R Hdev. unfold device_trap, which_dev in Hdev. unfold devintr, which_dev, r_scause. wp_steps. case_decide as Hext.
  - apply wp_bind. unfold plic_claim.
    eapply (wp_mono _ (λ irq T1, irq = default 0 (head (t_irqs T)) ∧ t_ps T1 = t_ps T ∧ t_dev T1 = t_dev T ∧ t_csr T1 = t_csr T)).
    { unfold wp. by destruct (t_irqs T). }
    intros irq T1 (Ei & E1 & E2 & E3). apply wp_bind. eapply (wp_mono _ (λ _ T2, running me p x pg e (t_ps T2) ∧ t_csr T2 = t_csr T)).
    { rewrite <- E1 in R. rewrite <- E3. repeat case_decide; [| | by wp_steps].
      - apply (wp_devop me p x pg e); [done |]. rewrite E1, E2. intros c Hc. apply (uart_intr_spec me c (t_ps T, t_dev T)); [exact Hc |].
        apply Hdev. split; [done |]. left. destruct (t_irqs T); cbn in *; [by subst irq | congruence].
      - apply (wp_devop me p x pg e); [done |]. rewrite E1, E2. intros c Hc. apply (disk_intr_spec me c (t_ps T, t_dev T)); [exact Hc |].
        apply Hdev. split; [done |]. right. destruct (t_irqs T); cbn in *; [by subst irq | congruence]. }
    intros _ T2 [R2 E]. unfold plic_complete. case_decide; wp_steps; tcbn; by rewrite E.
  - case_decide as Htim; [| wp_steps; by split_and!]. apply wp_bind.
    eapply (wp_mono _ (λ _ T2, running me p x pg e (t_ps T2) ∧ t_csr T2 = t_csr T)).
    { case_decide; [| wp_steps; by split]. apply wp_psop. eapply wp_mono; [by apply (wp_clockintr me p x pg e) |]. intros ? s' R'. by split. }
    intros _ T2 [R2 E]. unfold r_sip, w_sip, put_csr. wp_steps. tcbn. by rewrite E.
Qed.

(** C14: Interrupts are invisible to the user program.  An interrupt of the
    serial port, the disk (if that is what the trap is, the device must be in
    order: [devices_ready]) or the timer of a live process either goes
    straight back to user mode with every register and the program counter as
    they were, or (timer) leaves the process runnable with them saved in its
    frame; when any hart picks the process up later, with the frame as it was
    saved, its trap ends in user mode with the same registers and program
    counter. *)
Theorem usertrap_interrupt me p x pg e T :
  running me p x pg e (t_ps T) → Z.testbit (x_sstatus (t_csr T)) 8 = false → Z.testbit (x_sstatus (t_csr T)) 1 = false →
  p_killed x = 0 → x_scause (t_csr T) ≠ 8 → which_dev (x_scause (t_csr T)) ≠ 0 →
  (device_trap T → devices_ready (t_ps T, t_dev T)) →
  wp (usertrap kend trampoline forkret_addr kernelvec uservec userret usertrap_addr me)
    (λ r T', ∃ pg0, uregs pg0 = uregs pg ∧ epc_of pg0 = u64 (x_sepc (t_csr T)) ∧
      (which_dev (x_scause (t_csr T)) = 1 ∧ user_ready me p x pg0 r T' ∨
       which_dev (x_scause (t_csr T)) = 2 ∧ r = TYield e ∧ switched_off me p x pg0 (t_ps T') ∧
       ∀ me2 x2 T2, picked_up me2 p x2 pg0 (t_ps T2) → Z.testbit (x_sstatus (t_csr T2)) 1 = false →
         wp (usertrap_resume kend trampoline uservec userret usertrap_addr me2 p r) (user_ready me2 p x2 pg0) T2)) T.
Proof.
  intros R H8 H1 Hk Hc Hdev Hrdy. pose proof (rn_len _ _ _ _ _ _ R) as Hl. set (pg0 := st64 tf_epc (x_sepc (t_csr T)) pg).
  assert (Hu : uregs pg0 = uregs pg) by (apply uregs_put; [done | unfold tf_epc; lia]).
  assert (He : epc_of pg0 = u64 (x_sepc (t_csr T))) by (apply ld_st_same; [done | rewrite pgsize_eq; unfold tf_epc; lia]).
  apply wp_ends. eapply usertrap_entry; [exact R | done |]. intros s1 R1 E1. fold pg0 in R1. unfold on_cause. rewrite decide_False by done.
  apply after_bind. eapply wp_mono; [apply (devintr_spec me p x pg0 e (in_kernel T s1)); [exact R1 | intros Hd; eapply ready_table, E1; by apply Hrdy] |].
  tcbn. intros r T1 (-> & R2 & Es & _).
  match goal with |- ends ?Q (?m ?s) => change (wp m Q s) end.
  rewrite decide_True by done. wp_steps. unfold usertrap_end. wp_steps. apply wp_psop, wp_gets.
  rewrite (proc_at_eq _ _ _ (rn_proc _ _ _ _ _ _ R2)), decide_False by lia. case_decide as E2.
  - apply wp_bind, wp_psop. tcbn. eapply wp_mono; [by eapply wp_yield |]. intros b s3 [-> Hoff]. wp_steps. tcbn.
    exists pg0. split_and!; [done | done |]. right. split_and!; [done | done | done |]. intros me2 x2 T2 K Hb.
    cbn [usertrap_resume]. apply wp_bind, wp_psop. eapply wp_mono; [by eapply wp_yield_return |]. intros ? s4 R4.
    eapply usertrapret_spec; [exact R4 | exact Hb].
  - eapply wp_mono; [eapply usertrapret_spec; [exact R2 |] |].
    + tcbn; by rewrite Es.
    + intros r T' U. exists pg0. split_and!; [done | done |]. left. split; [| done]. revert Hdev E2. unfold which_dev. repeat case_decide; done || lia.
Qed.

(** [m] ends in [exit(-1)] of process [p], which is marked killed: it does
    not come back, to user mode or elsewhere. *)
Definition dies (me p : nat) (o : res st (trapres W)) : Prop :=
  ∃ T1 x1 pg1 e1, running me p x1 pg1 e1 (t_ps T1) ∧ p_killed x1 ≠ 0 ∧
    o = (let! b := psop (exit me (-1)) in ret (TExit b)) T1.

Lemma usertrap_end_killed me p x pg e d T :
  running me p x pg e (t_ps T) → p_killed x ≠ 0 → dies me p (usertrap_end trampoline uservec userret usertrap_addr me p d T).
Proof.
  intros R Hk. unfold usertrap_end. apply after_bind, wp_psop, wp_gets. rewrite (proc_at_eq _ _ _ (rn_proc _ _ _ _ _ _ R)), decide_True by done.
  exists T, x, pg, e. split_and!; [done | done |]. by destruct T.
Qed.

(** A call that returns a value, with the process killed. *)
Definition returns_killed (me p : nat) (r : sysres W) (s : pst F) : Prop :=
  ∃ v x pg e, r = SRet v ∧ running me p x pg e s ∧ p_killed x ≠ 0.

Lemma killed_result me p (m : M (pst F) (sysres W)) T :
  wp m (returns_killed me p) (t_ps T) →
  dies me p ((let! r := psop (let! r := m in store_result p r) in
              after_syscall trampoline uservec userret usertrap_addr me p r) T).
Proof.
  intros Hm. apply after_bind, wp_psop, wp_bind. eapply wp_mono; [exact Hm |]. intros r s1 (v & x & pg & e & -> & R & Hk).
  eapply wp_mono; [by eapply store_result_spec |]. intros r s2 [-> R2]. cbn [after_syscall]. by eapply usertrap_end_killed.
Qed.

(** [syscall] of a call that does. *)
Lemma syscall_killed me p x pg e c T :
  running me p x pg e (t_ps T) → sys_lookup (s32 (u32 (ld64 tf_a7 pg))) = Some c →
  (∀ s, running me p x pg e s → same_table (t_ps T) s → wp (sys_call kend trampoline forkret_addr me p c) (returns_killed me p) s) →
  dies me p ((let! r := psop (syscall kend trampoline forkret_addr me) in
              after_syscall trampoline uservec userret usertrap_addr me p r) T).
Proof.
  intros R Hnum Hcall. apply after_bind, wp_psop. unfold syscall.
  apply wp_bind. eapply wp_curproc; [exact R |]. intros s1 R1 E1.
  apply wp_bind. eapply wp_tf_get; [exact R1 |]. rewrite Hnum. apply wp_bind. eapply wp_mono; [by apply (Hcall s1) |].
  intros r s2 (v & x2 & pg2 & e2 & -> & R2 & Hk).
  eapply wp_mono; [by eapply store_result_spec |]. intros r s3 [-> R3]. cbn [after_syscall]. by eapply usertrap_end_killed.
Qed.

(** The traps a process does not survive: it was killed before the trap; its
    system call returns when it has been killed; or it faults. *)
Definition doomed (me p : nat) (x : proc) (pg : page) T : Prop :=
  p_killed x ≠ 0 ∨
  (x_scause (t_csr T) = 8 ∧ ∃ c, sys_lookup (s32 (u32 (ld64 tf_a7 pg))) = Some c ∧
    ∀ s1 pg1, running me p x pg1 true s1 → same_table (t_ps T) s1 → uregs pg1 = uregs pg →
      wp (sys_call kend trampoline forkret_addr me p c) (returns_killed me p) s1) ∨
  (x_scause (t_csr T) ≠ 8 ∧ which_dev (x_scause (t_csr T)) = 0).

Lemma running_killed me p x pg e s :
  running me p x pg e s → wp (upd_proc p (set_killed 1)) (λ _ s', running me p (set_killed 1 x) pg e s') s.
Proof.
  intros [[b Q1] Q2 Q3 Q4 Q5 Q6 Q7 Q8]. eapply wp_intro; [by apply upd_proc_eq |]. pose proof (lookup_lt_Some _ _ _ Q2). split; cbn; try done.
  - by exists b.
  - by apply list_lookup_insert_eq.
  - apply Forall_insert; [done |]. by apply (Forall_lookup_1 _ _ _ _ Q6 Q2).
  - by rewrite length_insert.
Qed.

(** The trap of a process that is killed or faults, from its cause on. *)
Lemma doomed_interrupt me p x pg e s1 T :
  running me p x pg e s1 → x_scause (t_csr T) ≠ 8 → p_killed x ≠ 0 ∨ which_dev (x_scause (t_csr T)) = 0 →
  (device_trap T → devices_ready (s1, t_dev T)) → dies me p (on_cause me p (x_scause (t_csr T)) (in_kernel T s1)).
Proof.
  intros R Hc Hk Hd. unfold on_cause. rewrite decide_False by done.
  apply after_bind. eapply wp_mono; [by apply (devintr_spec me p x pg e (in_kernel T s1)) |]. cbv beta. intros d T1 (-> & R1 & _).
  cbn [in_kernel] in *. apply after_bind. case_decide as Hw.
  - apply wp_ret. eapply usertrap_end_killed; [exact R1 |]. by destruct Hk.
  - apply wp_psop. eapply wp_mono; [by eapply running_killed |]. intros [] s2 R2. by eapply usertrap_end_killed.
Qed.

(** C21: A process that is to die does not return to user mode.  [usertrap]
    ends in [exit(-1)], with the process marked killed, in every trap of a
    process that was killed before it (a system call is then not made), that
    is killed when its system call returns, or that faults; and when a system
    call that slept returns and finds the process killed.  What this leaves
    out is that of the code: a process that is killed after the test, while
    the timer has taken the hart from it, goes back to user mode and dies in
    its next trap. *)
Theorem usertrap_killed me p x pg e T :
  running me p x pg e (t_ps T) → Z.testbit (x_sstatus (t_csr T)) 8 = false →
  (device_trap T → devices_ready (t_ps T, t_dev T)) →
  (doomed me p x pg T → dies me p (usertrap kend trampoline forkret_addr kernelvec uservec userret usertrap_addr me T)) ∧
  (∀ me' k T', wp (sys_return kend me' p k) (returns_killed me' p) (t_ps T') →
    dies me' p (usertrap_resume kend trampoline uservec userret usertrap_addr me' p (TCall k) T')).
Proof.
  intros R H8 Hd. pose proof (rn_len _ _ _ _ _ _ R) as Hl. destruct (call_page_regs (x_sepc (t_csr T)) pg Hl) as [Cu _].
  split; [| intros me' k T'; apply killed_result]. intros Hdoom.
  eapply usertrap_entry; [exact R | done |]. intros s1 R1 E1.
  destruct (decide (x_scause (t_csr T) = 8)) as [Hc|Hc].
  2:{ eapply doomed_interrupt; [exact R1 | done | unfold doomed in Hdoom; tauto |]. intros Ht. eapply ready_table, E1. by apply Hd. }
  rewrite Hc. destruct (decide (p_killed x = 0)) as [Hk|Hk].
  - destruct Hdoom as [?|[(_ & c & Hnum & Hcall)|[? _]]]; [done | | done].
    eapply syscall_entry; [exact R1 | done.. |]. intros s2 R2 E2.
    change (dies me p ((let! r := psop (syscall kend trampoline forkret_addr me) in
      after_syscall trampoline uservec userret usertrap_addr me p r) (in_kernel T s2))).
    eapply (syscall_killed me p x); [exact R2 | by rewrite call_page_a7 |]. intros s3 R3 E3. apply (Hcall s3 (call_page (x_sepc (t_csr T)) pg)); [done | by etrans | done].
  - unfold on_cause. rewrite decide_True by done. apply after_bind, wp_psop, wp_gets. unfold in_kernel. tcbn.
    rewrite (proc_at_eq _ _ _ (rn_proc _ _ _ _ _ _ R1)), decide_True by done.
    by exists (in_kernel T s1), x, (st64 tf_epc (x_sepc (t_csr T)) pg), e.
Qed.



End Trap.

(** ** A concrete hart *)
Module TrapExample.
#[local] Instance no_files : FileOps unit := {
  fo_filedup := ret; fo_fileclose _ := ret tt; fo_idup := ret; fo_iput _ := ret tt;
  fo_begin_op := ret tt; fo_end_op := ret tt; fo_namei _ := ret None; fo_fsinit _ := ret tt }.
#[local] Instance no_calls : TrapOps unit unit := { tr_call _ _ _ := ret (SRet 0); tr_return _ _ _ := ret (SRet 0) }.

(** Process 3 with pid 7 runs on hart 0; the key [a] has been typed. *)
Definition frame : page := st64 tf_a7 11 (replicate pgsize 0).
Definition me7 : proc :=
  Proc initlock RUNNING (Some 0%nat) None 0 0 7 0x3fffffb000 8192 0x80001000 0x80002000 (replicate 14 0) (replicate nofile None) (Some 0%nat) (replicate 16 0).
Definition kernel (pg : page) : pst unit :=
  Pst (<[3%nat := me7]> (replicate nproc proc0)) [Cpu (Some 3%nat) 0 false false] initlock 8 (Some 0%nat) ∅ 0
    (Pmem {[ 0x80002000 := pg ]} 0) tt false.
Definition hart (pg : page) (scause spp : Z) : tst unit := Tst (kernel pg) (Csr spp 0x1000 scause 0 5 2) [UART0_IRQ] [] (key_devs 97).
(** An interrupt of the timer, and one of a device. *)
Definition timer : Z := 0x8000000000000001.
Definition external : Z := 0x8000000000000009.

Lemma frame_length : length frame = pgsize.
Proof. apply st_length; [apply length_replicate | unfold tf_a7; lia]. Qed.
Lemma kernel_running pg : length pg = pgsize → running 0 3 me7 pg false (kernel pg).
Proof.
  intros Hl. split; try done.
  - by exists false.
  - apply Forall_insert; [| done]. by apply Forall_replicate.
Qed.
Lemma hart_ready pg scause spp : devices_ready (t_ps (hart pg scause spp), t_dev (hart pg scause spp)).
Proof. by apply key_devs_ready. Qed.

Lemma usertrap_syscall_witness :
  wp (usertrap 0 0 0 0 0 0 0 0) (λ r T', ∃ pg3, user_ready 0 0 0 0 0 3 me7 pg3 r T' ∧
    uregs pg3 = <[9%nat := 7]> (uregs frame) ∧ epc_of pg3 = 0x1004) (hart frame 8 0).
Proof.
  eapply wp_mono; [apply (usertrap_syscall 0 0 0 0 0 0 0 0 3 me7 frame false (hart frame 8 0) SYS_getpid
    (λ v x2 pg2, v = 7 ∧ x2 = me7 ∧ uregs pg2 = uregs frame ∧ epc_of pg2 = 0x1004));
    [apply kernel_running, frame_length | done | done | done | done | vm_compute; reflexivity |] |].
  - intros s1 pg1 R1 _ Hu He. cbn [sys_call]. unfold sys_getpid. apply wp_bind, wp_bind. eapply wp_curproc; [exact R1 |]. intros s2 R2 _.
    wp_steps. rewrite (proc_at_eq _ _ _ (rn_proc _ _ _ _ _ _ R2)). exists 7, me7, pg1, true. split_and!; done.
  - intros r T' (v & x2 & pg2 & pg3 & (-> & -> & Hu & He) & U & Eu & Ee). exists pg3. rewrite Eu, Ee, Hu. by split_and!.
Defined.

(** The timer takes the hart from the process; the key goes to the console
    and the process goes on. *)
Lemma usertrap_interrupt_witness :
  wp (usertrap 0 0 0 0 0 0 0 0) (λ r T', r = TYield false) (hart frame timer 0) ∧
  wp (usertrap 0 0 0 0 0 0 0 0) (λ r T', ∃ pg0, user_ready 0 0 0 0 0 3 me7 pg0 r T' ∧ uregs pg0 = uregs frame ∧ epc_of pg0 = 0x1000) (hart frame external 0).
Proof.
  split.
  - eapply wp_mono; [apply (usertrap_interrupt 0 0 0 0 0 0 0 0 3 me7 frame false (hart frame timer 0));
      [apply kernel_running, frame_length | done | done | done | done | by vm_compute | intros _; apply hart_ready] |].
    intros r T' (pg0 & _ & _ & [[? _]|(_ & -> & _)]); done.
  - eapply wp_mono; [apply (usertrap_interrupt 0 0 0 0 0 0 0 0 3 me7 frame false (hart frame external 0));
      [apply kernel_running, frame_length | done | done | done | done | by vm_compute | intros _; apply hart_ready] |].
    intros r T' (pg0 & Hu & He & [[_ U]|(? & _)]); [| done]. exists pg0. by split_and!.
Defined.

(** [kill(7)], called by process 7 itself. *)
Definition frame_kill : page := st64 tf_a7 6 (st64 tf_a0 7 (replicate pgsize 0)).
Lemma frame_kill_length : length frame_kill = pgsize.
Proof. apply st_length; [apply st_length; [apply length_replicate |] |]; unfold tf_a7, tf_a0; lia. Qed.

Lemma uregs_eq_a0 pg pg' : uregs pg' = uregs pg → ld64 tf_a0 pg' = ld64 tf_a0 pg.
Proof. intros E. apply (f_equal (lookup 9%nat)) in E. unfold uregs in E. rewrite !list_lookup_fmap in E. cbn in E. by injection E. Qed.

Lemma suicide s1 pg1 :
  running 0 3 me7 pg1 true s1 → same_table (kernel frame_kill) s1 → uregs pg1 = uregs frame_kill →
  wp (sys_call (W := unit) 0 0 0 0 3 SYS_kill) (returns_killed 0 3) s1.
Proof.
  intros R1 E1 Hu. cbn [sys_call]. unfold sys_kill, argint, argraw. apply wp_bind, wp_bind, wp_bind. eapply wp_curproc; [exact R1 |].
  intros s2 R2 E2. rewrite decide_True by lia. change (tf_a0 + 8 * 0)%nat with tf_a0. eapply wp_tf_get; [exact R2 |].
  rewrite (uregs_eq_a0 _ _ Hu). change (ld64 tf_a0 frame_kill) with (Z.of_nat 7). apply wp_ret, wp_bind.
  destruct (rn_cpu _ _ _ _ _ _ R2) as [b Hc].
  destruct (kill_eq 0 7 (Cpu (Some 3%nat) 0 b true) s2) as (c' & Hsame & Ek); [apply R2 | apply R2 | done | by split |].
  apply same_hart_free in Hsame as [b' ->]. rewrite (proj1 (transitivity E1 E2)) in Ek.
  eapply wp_intro; [exact Ek |]. apply wp_ret.
  exists 0, (set_killed 1 me7), pg1, true. split_and!; [done | | done]. destruct R2 as [_ R2 R3 R4 R5 R6 R7 R8].
  pose proof (lookup_lt_Some _ _ _ R2). pose proof (lookup_lt_Some _ _ _ Hc). split; cbn [ps_proc ps_cpus ps_mem put_hart put_proc put_procs put_cpus].
  - exists b'. by apply list_lookup_insert_eq.
  - by apply list_lookup_insert_eq.
  - reflexivity.
  - exact R4.
  - exact R5.
  - by apply Forall_insert.
  - by rewrite length_insert.
  - exact R8.
Qed.

(** A load from a bad address; and the call above. *)
Lemma usertrap_killed_witness :
  dies 0 3 (usertrap 0 0 0 0 0 0 0 0 (hart frame 13 0)) ∧ dies 0 3 (usertrap 0 0 0 0 0 0 0 0 (hart frame_kill 8 0)).
Proof.
  split.
  - refine (proj1 (usertrap_killed 0 0 0 0 0 0 0 0 3 me7 frame false (hart frame 13 0)
      (kernel_running _ frame_length) eq_refl (λ _, hart_ready _ _ _)) _). right. by right.
  - refine (proj1 (usertrap_killed 0 0 0 0 0 0 0 0 3 me7 frame_kill false (hart frame_kill 8 0)
      (kernel_running _ frame_kill_length) eq_refl (λ _, hart_ready _ _ _)) _).
    right. left. split; [done |]. exists SYS_kill. split; [by vm_compute |]. apply suicide.
Defined.

End TrapExample.
