(* ===== verification/Printf.v ===== *)
(** * Formatted output and the user library ([kernel/printf.c],
      [user/printf.c], [user/ulib.c])

    Output is the list of characters that reach the console or the file; a
    format or a string is the list of its characters before the NUL.  A
    write past an array, a read past a string and an argument of the wrong
    type have no defined result: the functions return [None] there. *)
From S2P Require Import Prelude CString.
Import CString.


Definition ch_percent : Z := 37.
Definition ch_minus : Z := 45.
Definition ch_0 : Z := 48.
Definition ch_x : Z := 120.

(** [digits] of the kernel and of the user library. *)
Definition kdigits : list Z := [48; 49; 50; 51; 52; 53; 54; 55; 56; 57; 97; 98; 99; 100; 101; 102].
Definition udigits : list Z := [48; 49; 50; 51; 52; 53; 54; 55; 56; 57; 65; 66; 67; 68; 69; 70].

(** [do { buf[i++] = digits[x % base]; } while ((x /= base) != 0);] with
    [room] bytes left in [buf]. *)
Fixpoint digit_loop (room : nat) (digits : list Z) (base x : Z) (buf : list Z) : option (list Z) :=
  match room with
  | O => None
  | S room =>
      let buf := buf ++ [digits !!! Z.to_nat (x mod base)] in
      let x := x / base in
      if decide (x ≠ 0) then digit_loop room digits base x buf else Some buf
  end.
(** [printint] of both libraries: [xx] is an [int], [x] an [uint]. *)
Definition printint (digits : list Z) (xx base : Z) (sign : bool) : option (list Z) :=
  let neg := sign && bool_decide (xx < 0) in
  let x := if neg then u32 (- xx) else u32 xx in
  match digit_loop 16 digits base x [] with
  | None => None
  | Some buf =>
      if neg then if decide (length buf < 16)%nat then Some (reverse (buf ++ [ch_minus])) else None
      else Some (reverse buf)
  end.

Fixpoint printptr_loop (k : nat) (digits : list Z) (x : Z) : list Z :=
  match k with
  | O => []
  | S k => digits !!! Z.to_nat (Z.shiftr x 60) :: printptr_loop k digits (u64 (Z.shiftl x 4))
  end.
Definition printptr (digits : list Z) (x : Z) : list Z := ch_0 :: ch_x :: printptr_loop 16 digits x.

(** The user library's versions are the same but for the digits. *)
Definition uprintint (xx base : Z) (sgn : bool) : option (list Z) := printint udigits xx base sgn.
Definition uprintptr (x : Z) : list Z := printptr udigits x.

(** The variable arguments: an [int], an [uint64], a [char *]. *)
Inductive varg := VInt (x : Z) | VLong (x : Z) | VStr (s : option (list Z)).
Definition null_text : list Z := [40; 110; 117; 108; 108; 41].
Definition va_str (s : option (list Z)) : list Z := default null_text s.

(** [printf] of the kernel *)
Fixpoint kprintf (fmt : list Z) (ap : list varg) : option (list Z) :=
  match fmt with
  | [] => Some []
  | c :: fmt =>
      if decide (c ≠ ch_percent) then (c ::.) <$> kprintf fmt ap
      else
        match fmt with
        | [] => Some []
        | c :: fmt =>
            if decide (c = 100) then
              match ap with
              | VInt x :: ap => o ← printint kdigits x 10 true; (o ++.) <$> kprintf fmt ap
              | _ => None
              end
            else if decide (c = 120) then
              match ap with
              | VInt x :: ap => o ← printint kdigits x 16 true; (o ++.) <$> kprintf fmt ap
              | _ => None
              end
            else if decide (c = 112) then
              match ap with
              | VLong x :: ap => (printptr kdigits x ++.) <$> kprintf fmt ap
              | _ => None
              end
            else if decide (c = 115) then
              match ap with
              | VStr s :: ap => (va_str s ++.) <$> kprintf fmt ap
              | _ => None
              end
            else if decide (c = ch_percent) then (ch_percent ::.) <$> kprintf fmt ap
            else (([ch_percent; c]) ++.) <$> kprintf fmt ap
        end
  end.

(** [vprintf] of the user library; [state] is ['%'] after a percent sign. *)
Fixpoint vprintf (state : bool) (fmt : list Z) (ap : list varg) : option (list Z) :=
  match fmt with
  | [] => Some []
  | c :: fmt =>
      if negb state then
        if decide (c = ch_percent) then vprintf true fmt ap else (c ::.) <$> vprintf false fmt ap
      else if decide (c = 100) then
        match ap with
        | VInt x :: ap => o ← uprintint x 10 true; (o ++.) <$> vprintf false fmt ap
        | _ => None
        end
      else if decide (c = 108) then
        match ap with
        | VLong x :: ap => o ← uprintint (s32 (u32 x)) 10 false; (o ++.) <$> vprintf false fmt ap
        | _ => None
        end
      else if decide (c = 120) then
        match ap with
        | VInt x :: ap => o ← uprintint x 16 false; (o ++.) <$> vprintf false fmt ap
        | _ => None
        end
      else if decide (c = 112) then
        match ap with
        | VLong x :: ap => (uprintptr x ++.) <$> vprintf false fmt ap
        | _ => None
        end
      else if decide (c = 115) then
        match ap with
        | VStr s :: ap => (va_str s ++.) <$> vprintf false fmt ap
        | _ => None
        end
      else if decide (c = 99) then
        match ap with
        | VInt x :: ap => (u8 x ::.) <$> vprintf false fmt ap
        | _ => None
        end
      else if decide (c = ch_percent) then (c ::.) <$> vprintf false fmt ap
      else ([ch_percent; c] ++.) <$> vprintf false fmt ap
  end.
Definition fprintf (fmt : list Z) (ap : list varg) : option (list Z) := vprintf false fmt ap.

(** ** [ulib.c] *)

(** [while ('0' <= *s && *s <= '9') n = n*10 + *s++ - '0';] over the bytes
    of memory from [s] on; [None] when no other byte follows. *)
Fixpoint atoi_loop (s : list Z) (n : Z) : option Z :=
  match s with
  | [] => None
  | c :: s => if decide (ch_0 <= c <= 57) then atoi_loop s (s32 (n * 10 + c - ch_0)) else Some n
  end.
Definition atoi (s : list Z) : option Z := atoi_loop s 0.

Fixpoint strcmp (p q : list Z) : option Z :=
  match p, q with
  | x :: p, y :: q => if decide (x ≠ 0 ∧ x = y) then strcmp p q else Some (x - y)
  | _, _ => None
  end.
(** The bytes [strcpy] stores. *)
Fixpoint strcpy (t : list Z) : option (list Z) :=
  match t with
  | [] => None
  | x :: t => if decide (x = 0) then Some [0] else (x ::.) <$> strcpy t
  end.

(** [gets]: what is left of the room, and the characters [read] will give
    one by one; the line stored (without the NUL) and the input left. *)
Fixpoint gets_loop (room : nat) (input : list Z) : list Z * list Z :=
  match room, input with
  | S room, c :: input =>
      if decide (c = 10 ∨ c = 13) then ([c], input)
      else let '(line, rest) := gets_loop room input in (c :: line, rest)
  | _, _ => ([], input)
  end.
Definition ugets (max : Z) (input : list Z) : list Z * list Z :=
  let '(line, rest) := gets_loop (Z.to_nat (max - 1)) input in (line ++ [0], rest).

(** [memmove] of the library: forward when [src > dst], else backward. *)
Definition umemmove (dst src n : nat) (mem : list Z) : list Z :=
  if decide (dst < src)%nat then copy_forward n dst src mem else copy_backward n (dst + n) (src + n) mem.

Example printf_text :
  kprintf [97; 37; 100; 37; 115; 37; 112; 37; 37] [VInt (-42); VStr None; VLong 0xbeef] =
  Some ([97; 45; 52; 50] ++ null_text ++ [48; 120; 48; 48; 48; 48; 48; 48; 48; 48; 48; 48; 48; 48; 98; 101; 101; 102; 37]).
Proof. vm_compute. reflexivity. Qed.
Example atoi_text : atoi [52; 50; 32; 0] = Some 42.
Proof. vm_compute. reflexivity. Qed.
