(* ===== verification/PrintfTheorems.v ===== *)
(** * Formatted output and the user library: theorems *)
From S2P Require Import Prelude CString Printf.
Import CString.

(** ** Numbers *)

(** The value of digits, the least significant first. *)
Definition value (base : Z) (ds : list Z) : Z := foldr (λ d n, d + base * n) 0 ds.
Definition is_digits (base : Z) (ds : list Z) : Prop := ds ≠ [] ∧ Forall (λ d, 0 <= d < base) ds.

Lemma digit_loop_spec base (k : nat) x :
  2 <= base → 0 <= x < base ^ Z.of_nat k → (1 ≤ k)%nat →
  ∃ ds, is_digits base ds ∧ value base ds = x ∧ (length ds ≤ k)%nat ∧
    ∀ digits room buf, (k ≤ room)%nat →
      digit_loop room digits base x buf = Some (buf ++ ((λ d, digits !!! Z.to_nat d) <$> ds)).
Proof.
  intros Hb. revert x. induction k as [|k IH]; intros x Hx Hk; [lia |].
  pose proof (Z.mod_pos_bound x base ltac:(lia)) as Hm. pose proof (Z.div_mod x base ltac:(lia)) as Hd.
  assert (0 <= x / base) by (apply Z.div_pos; lia). destruct (decide (x / base ≠ 0)) as [Hne|Hz].
  - destruct k as [|k].
    { exfalso. apply Hne. change (Z.of_nat 1) with 1 in Hx. rewrite Z.pow_1_r in Hx. by apply Z.div_small. }
    destruct (IH (x / base)) as (ds & [Hn Hds] & Hv & Hl & E); [| lia |].
    { split; [done |]. apply Z.div_lt_upper_bound; [lia |]. rewrite <- Z.pow_succ_r, <- Nat2Z.inj_succ by lia. apply Hx. }
    exists (x mod base :: ds). split_and!; [split; [done | by constructor] | | simpl; lia |].
    + cbn. fold (value base ds). lia.
    + intros digits [|room] buf Hr; [lia |]. cbn [digit_loop]. rewrite decide_True, E by (done || lia). by rewrite <- app_assoc.
  - exists [x mod base]. split_and!; [split; [done | by apply Forall_singleton] | cbn; lia | simpl; lia |].
    intros digits [|room] buf Hr; [lia |]. cbn [digit_loop]. by rewrite decide_False.
Qed.

Lemma s32_mod a : (s32 a) mod 2 ^ 32 = a mod 2 ^ 32.
Proof. unfold s32. rewrite Zminus_mod, Zmod_mod, <- Zminus_mod. f_equal. lia. Qed.
Lemma s32_add a b : s32 (s32 a + b) = s32 (a + b).
Proof.
  rewrite <- (s32_u32 (s32 a + b)), <- (s32_u32 (a + b)). f_equal. unfold u32.
  rewrite <- Z.add_mod_idemp_l, s32_mod, Z.add_mod_idemp_l by lia. done.
Qed.
Lemma s32_mod_step a d : s32 (s32 a * 10 + d) = s32 (a * 10 + d).
Proof.
  rewrite <- (s32_u32 (s32 a * 10 + d)), <- (s32_u32 (a * 10 + d)). f_equal. unfold u32.
  rewrite <- Z.add_mod_idemp_l, <- Z.mul_mod_idemp_l, s32_mod, Z.mul_mod_idemp_l, Z.add_mod_idemp_l by lia. done.
Qed.

(** [atoi] on digits, the most significant first. *)
Lemma atoi_loop_digits ds n c rest :
  Forall (λ d, 0 <= d < 10) ds → ¬ (ch_0 <= c <= 57) →
  atoi_loop (((λ d, ch_0 + d) <$> ds) ++ c :: rest) (s32 n) = Some (s32 (foldl (λ n d, n * 10 + d) n ds)).
Proof.
  intros Hds Hc. revert n. induction Hds as [|d ds Hd Hds IH]; intros n; cbn [fmap list_fmap app atoi_loop foldl].
  - by rewrite decide_False.
  - rewrite decide_True by (unfold ch_0; lia). rewrite <- IH. f_equal.
    replace (s32 n * 10 + (ch_0 + d) - ch_0) with (s32 n * 10 + d) by lia. apply s32_mod_step.
Qed.

Lemma value_reverse ds : foldl (λ n d, n * 10 + d) 0 (reverse ds) = value 10 ds.
Proof.
  induction ds as [|d ds IH]; [done |]. rewrite reverse_cons, foldl_app, IH. cbn. fold (value 10 ds). lia.
Qed.

Lemma digits_10 d : 0 <= d < 10 → kdigits !!! Z.to_nat d = ch_0 + d ∧ udigits !!! Z.to_nat d = ch_0 + d.
Proof.
  intros Hd. assert (d ∈ seqZ 0 10) as Hin by (apply elem_of_seqZ; lia). revert d Hd Hin.
  assert (Forall (λ d, kdigits !!! Z.to_nat d = ch_0 + d ∧ udigits !!! Z.to_nat d = ch_0 + d) (seqZ 0 10)) as Hall by (repeat constructor).
  intros d _ Hin. by apply (Forall_forall _ _) with (x := d) in Hall.
Qed.

Lemma printint_digits n c rest :
  - 2 ^ 31 <= n < 2 ^ 31 → ¬ (ch_0 <= c <= 57) →
  ∃ digits, let out := if decide (n < 0) then ch_minus :: digits else digits in
    printint kdigits n 10 true = Some out ∧ printint udigits n 10 true = Some out ∧
    (0 < length digits ≤ 10)%nat ∧ atoi (digits ++ c :: rest) = Some (s32 (Z.abs n)).
Proof.
  intros Hn Hc. unfold printint. cbn [andb].
  assert (Hx : (if bool_decide (n < 0) then u32 (- n) else u32 n) = Z.abs n).
  { case_bool_decide; rewrite u32_small by lia; lia. }
  rewrite Hx. assert (Hr : 0 <= Z.abs n < 10 ^ Z.of_nat 10) by (change (10 ^ Z.of_nat 10) with 10000000000; lia).
  destruct (digit_loop_spec 10 10 (Z.abs n) ltac:(lia) Hr ltac:(lia)) as (ds & [Hne Hds] & Hv & Hl & E).
  assert (Ed : ∀ t, t = kdigits ∨ t = udigits → (λ d, t !!! Z.to_nat d) <$> ds = (λ d, ch_0 + d) <$> ds).
  { intros t Ht. apply list_fmap_ext. intros i d Hd%(Forall_lookup_1 _ _ _ _ Hds). destruct (digits_10 d Hd), Ht; subst; done. }
  rewrite !E by lia. cbn [app]. rewrite (Ed kdigits), (Ed udigits) by auto. rewrite length_fmap, decide_True by lia.
  exists (reverse ((λ d, ch_0 + d) <$> ds)). cbv zeta.
  rewrite reverse_app, reverse_singleton, length_reverse, length_fmap.
  split_and!; [by destruct (decide (n < 0)) as [H0|H0]; [rewrite bool_decide_true by done | rewrite bool_decide_false by done].. | | lia |].
  - destruct ds; [done | simpl; lia].
  - rewrite <- fmap_reverse. unfold atoi. rewrite (atoi_loop_digits (reverse ds) 0); [by rewrite value_reverse, Hv | by apply Forall_reverse | done].
Qed.

(** C30: [printint] and [atoi] on every [int] [n]: in base 10 both
    libraries' [printint] stays within its 16-byte buffer and prints the same
    text, at most 11 characters.  If [0 <= n], [atoi] reads the text back as
    [n].  If [n < 0] the text is a minus sign and digits that [atoi] reads as
    [-n] (as an [int]); [atoi] itself knows no sign and reads the whole text
    as 0. *)
Theorem printint_atoi n c rest :
  - 2 ^ 31 <= n < 2 ^ 31 → ¬ (ch_0 <= c <= 57) →
  ∃ out, printint kdigits n 10 true = Some out ∧ printint udigits n 10 true = Some out ∧
    (length out ≤ 11)%nat ∧
    (0 <= n → atoi (out ++ c :: rest) = Some n) ∧
    (n < 0 → atoi (out ++ c :: rest) = Some 0 ∧
       ∃ digits, out = ch_minus :: digits ∧ atoi (digits ++ c :: rest) = Some (s32 (- n))).
Proof.
  intros Hn Hc. destruct (printint_digits n c rest Hn Hc) as (digits & Ek & Eu & Hl & Ea). cbv zeta in *.
  case_decide as Hneg; eexists; (split_and!; [exact Ek | exact Eu | cbn; lia | |]); intros Hn'; try lia.
  - split; [done |]. exists digits. split; [done |]. by rewrite Ea, Z.abs_neq by lia.
  - by rewrite Ea, Z.abs_eq, s32_small by lia.
Qed.
Lemma printint_atoi_witness :
  ∃ out, printint udigits (-42) 10 true = Some out ∧ atoi (out ++ [0]) = Some 0 ∧
  ∃ digits, out = ch_minus :: digits ∧ atoi (digits ++ [0]) = Some 42.
Proof.
  destruct (printint_atoi (-42) 0 []) as (out & _ & E & _ & _ & Hneg); [lia | unfold ch_0; lia |].
  exists out. split; [exact E |]. exact (Hneg ltac:(lia)).
Defined.

(** ** The two [printf]s *)

(** The kernel's [printf] and the user library's agree: with any format
    that has no [%x], [%p], [%l] or [%c], and any arguments, they print the
    same text. *)
Theorem printf_agree fmt ap :
  Forall (λ c, c ∉ [120; 112; 108; 99]) fmt → Forall (λ a, match a with VInt x => - 2 ^ 31 <= x < 2 ^ 31 | _ => True end) ap →
  kprintf fmt ap = fprintf fmt ap.
Proof.
  unfold fprintf. remember (length fmt) as k eqn:Hk. assert (Hle : (length fmt ≤ k)%nat) by lia. clear Hk. revert fmt ap Hle.
  induction k as [|k IH]; intros [|c fmt] ap Hle Hf Ha; try done; cbn [length] in Hle; [lia |].
  apply Forall_cons in Hf as [Hc Hf]. cbn [kprintf vprintf negb].
  destruct (decide (c = ch_percent)) as [->|Hne]; [| rewrite decide_True by done; rewrite IH by (done || lia); done].
  rewrite decide_False by tauto. destruct fmt as [|d fmt]; [done |]. apply Forall_cons in Hf as [Hd Hf]. cbn [vprintf negb length] in *.
  destruct (decide (d = 100)) as [->|H1].
  { destruct ap as [|[x| |] ap]; try done. apply Forall_cons in Ha as [Hx Ha].
    unfold uprintint. destruct (printint_digits x 0 [] Hx ltac:(unfold ch_0; lia)) as (ds & -> & -> & _). cbn. rewrite IH by (done || lia). done. }
  rewrite !(decide_False (P := d = 108)), !(decide_False (P := d = 120)), !(decide_False (P := d = 112)), !(decide_False (P := d = 99)) by set_solver.
  destruct (decide (d = 115)) as [->|H5].
  { destruct ap as [|[| |o] ap]; try done. apply Forall_cons in Ha as [_ Ha]. rewrite IH by (done || lia). done. }
  destruct (decide (d = ch_percent)) as [->|H6]; rewrite IH by (done || lia); done.
Qed.

(** ** Strings *)
Lemma strcmp_spec p q :
  0 ∈ p → 0 ∈ q → ∃ r, strcmp p q = Some r ∧ (r = 0 ↔ cstr p = cstr q).
Proof.
  revert q. induction p as [|x p IH]; intros q Hp Hq; [set_solver |]. destruct q as [|y q]; [set_solver |]. cbn [strcmp cstr].
  case_decide as Hxy.
  - destruct Hxy as [Hx ->]. destruct (IH q) as (r & -> & Hr); [set_solver | set_solver |]. exists r. split; [done |].
    rewrite Hr, !decide_False by done. split; [congruence | by intros [=]].
  - exists (x - y). split; [done |]. destruct (decide (x = 0)) as [->|Hx], (decide (y = 0)) as [->|Hy].
    + split; [done | lia].
    + split; [lia | done].
    + split; [lia | done].
    + split; [intros E; exfalso; apply Hxy; split; [done | lia] | intros [= -> _]; tauto].
Qed.

(** ** [gets] *)

(** The line [gets] should read: up to the first end of line, at most
    [room] characters. *)
Definition line_end (c : Z) : Prop := c = 10 ∨ c = 13.
Record is_line (room : nat) (line rest : list Z) : Prop := IsLine {
  il_inner : ∀ k c, (S k < length line)%nat → line !! k = Some c → ¬ line_end c;
  il_room : (length line ≤ room)%nat;
  il_end : rest = [] ∨ length line = room ∨ (∃ c, last line = Some c ∧ line_end c) }.

Lemma gets_loop_spec room input :
  let '(line, rest) := gets_loop room input in line ++ rest = input ∧ is_line room line rest.
Proof.
  revert input. induction room as [|room IH]; intros [|c input]; cbn [gets_loop].
  1-3: (split; [done |]); (split; [simpl; lia | simpl; lia | by auto]).
  case_decide as Hc.
  - split; [done |]. split; [simpl; lia | simpl; lia |]. right; right. by exists c.
  - specialize (IH input). destruct (gets_loop room input) as [line rest]. destruct IH as [<- [I1 I2 I3]]. split; [done |]. split.
    + intros [|k] d Hk; cbn in *; [by intros [= <-] |]. apply I1. lia.
    + simpl. lia.
    + destruct I3 as [->|[E|(d & Hd & Hl)]]; [by left | right; left; simpl; lia | right; right].
      exists d. split; [| done]. destruct line; [done | exact Hd].
Qed.

(** ** [memmove] of the library: right for every overlap *)
Lemma copy_backward_self n d mem : (d + n ≤ length mem)%nat → copy_backward n (d + n) (d + n) mem = mem.
Proof.
  induction n as [|n IH]; intros Hd; [done |]. cbn [copy_backward]. rewrite list_insert_id by (apply list_lookup_lookup_total_lt; lia).
  replace (d + S n - 1)%nat with (d + n)%nat by lia. apply IH. lia.
Qed.
Lemma copy_forward_self n d mem : (d + n ≤ length mem)%nat → copy_forward n d d mem = mem.
Proof.
  revert d. induction n as [|n IH]; intros d Hd; [done |]. cbn [copy_forward]. rewrite list_insert_id by (apply list_lookup_lookup_total_lt; lia).
  apply IH. lia.
Qed.
Lemma umemmove_splice dst src n mem :
  (dst + n ≤ length mem)%nat → (src + n ≤ length mem)%nat →
  umemmove dst src n mem = splice dst (slice src n mem) mem.
Proof.
  intros Hd Hs. unfold umemmove. case_decide.
  - apply copy_forward_ok; lia.
  - destruct (decide (dst = src)) as [->|Hne]; [| apply copy_backward_ok; lia]. rewrite <- copy_forward_ok by lia.
    rewrite copy_backward_self, copy_forward_self by lia. done.
Qed.
