(* ===== verification/ShRun.v ===== *)
(** * The shell runs commands ([user/sh.c])

    A process of the shell is the tree of its system calls ([prog]).  [run]
    gives it a descriptor table and the answers of the kernel, and follows
    every process it forks; the result is the tree of processes with what
    they become.  A pipe is named by the place of the call that made it.
    Descriptors are allocated as the kernel does: the lowest free one. *)
From S2P Require Import Prelude Params CString Printf Sh ShTheorems ShPrint ShLine.

(** [fprintf(2, fmt, s)] *)
Definition message (fmt : string) (s : list Z) : list Z := default [] (fprintf (text_codes fmt) [VStr (Some s)]).

(** System calls of a process and what follows them. *)
Inductive prog :=
| PExec (argv : list (list Z)) (k : prog)
| PExit (status : Z)
| PClose (fd : Z) (k : prog)
| POpen (file : list Z) (mode : Z) (k : Z → prog)
| PPipe (k : option (Z * Z) → prog)
| PDup (fd : Z) (k : prog)
| PFork (k : Z → prog)
| PWait (k : prog)
| PWrite (fd : Z) (text : list Z) (k : prog)
| PChdir (dir : list Z) (k : Z → prog)
| PSpin.  (** more turns of a loop than its fuel *)

Definition sh_panic (s : list Z) : prog := PWrite 2 (message "%s
" s) (PExit 1).
(** [if (fork1() == 0) child; parent] *)
Definition fork1 (child parent : prog) : prog :=
  PFork (λ pid, if decide (pid = -1) then sh_panic (text_codes "fork") else if decide (pid = 0) then child else parent).

Fixpoint runcmd (c : scmd) : prog :=
  match c with
  | EXEC [] => PExit 1
  | EXEC ((a :: _) as argv) => PExec argv (PWrite 2 (message "exec %s failed
" a) (PExit 0))
  | REDIR c file mode fd =>
      PClose fd (POpen file mode (λ r,
        if decide (r < 0) then PWrite 2 (message "open %s failed
" file) (PExit 1) else runcmd c))
  | LIST l r => fork1 (runcmd l) (PWait (runcmd r))
  | PIPE l r =>
      PPipe (λ p,
        match p with
        | None => sh_panic (text_codes "pipe")
        | Some (p0, p1) =>
            fork1 (PClose 1 (PDup p1 (PClose p0 (PClose p1 (runcmd l)))))
              (fork1 (PClose 0 (PDup p0 (PClose p0 (PClose p1 (runcmd r)))))
                (PClose p0 (PClose p1 (PWait (PWait (PExit 0))))))
        end)
  | BACK c => fork1 (runcmd c) (PExit 0)
  end.

(** [runcmd(parsecmd(buf))] of a child of [main] *)
Definition sh_child (line : list Z) : prog :=
  match parsecmd line with
  | Ret (c, buf) _ => runcmd (cmap (λ w, cstr (drop (w_q w) buf)) c)
  | Panic msg => sh_panic (text_codes msg)
  | _ => PExit 1
  end.

(** *** [main] *)

(** [getcmd]: the buffer up to its NUL, and the input left; [None] at the
    end of the input.  The prompt is written by [main_loop]. *)
Definition getcmd (nbuf : Z) (input : list Z) : option (list Z * list Z) :=
  let '(buf, rest) := ugets nbuf input in
  match buf with
  | c :: _ => if decide (c = 0) then None else Some (cstr buf, rest)
  | [] => None
  end.
Definition prompt : list Z := default [] (fprintf (text_codes "$ ") []).
(** One line of the input: [cd] by the shell itself, the others by a child. *)
Definition is_cd (buf : list Z) : bool := bool_decide (take 3 buf = [99; 100; 32]).
Definition cd_dir (buf : list Z) : list Z := drop 3 (take (length buf - 1) buf).
Definition sh_act (buf : list Z) (k : prog) : prog :=
  if is_cd buf then
    PChdir (cd_dir buf) (λ r, if decide (r < 0) then PWrite 2 (message "cannot cd %s
" (cd_dir buf)) k else k)
  else fork1 (sh_child buf) (PWait k).
(** The loop that reads and runs commands.  [input] is what the shell's own
    reads of descriptor 0 return; characters that a program it has started
    takes from the same file are not among them. *)
Fixpoint main_loop (fuel : nat) (input : list Z) : prog :=
  match fuel with
  | O => PSpin
  | S fuel =>
      PWrite 2 prompt
        match getcmd 100 input with
        | None => PExit 0
        | Some (buf, rest) => sh_act buf (main_loop fuel rest)
        end
  end.
(** The loop that opens descriptors 0, 1 and 2. *)
Fixpoint ensure_fds (fuel : nat) (k : prog) : prog :=
  match fuel with
  | O => PSpin
  | S fuel =>
      POpen (text_codes "console") O_RDWR (λ fd,
        if decide (0 <= fd) then if decide (3 <= fd) then PClose fd k else ensure_fds fuel k else k)
  end.
Definition sh_main (input : list Z) : prog := ensure_fds 4 (main_loop (length input + 1) input).

(** ** Processes *)
Inductive fobj := Std (k : nat) | OFile (name : list Z) (mode : Z) | PipeEnd (id : list nat) (wr : bool).
Notation fds := (list (option fobj)).

(** The answers of the kernel. *)
Record os := Os {
  os_fork : list nat → bool; os_pipe : list nat → bool;
  os_open : list Z → Z → bool; os_exec : list (list Z) → bool;
  os_chdir : list Z → bool }.

Inductive ptree :=
| TExec (argv : list (list Z)) (E : fds)
| TExit (status : Z)
| TFork (child parent : ptree)
| TWait (E : fds) (k : ptree)
| TWrite (fd : Z) (text : list Z) (k : ptree)
| TChdir (dir : list Z) (k : ptree)
| TSpin.

Definition fd_close (fd : Z) (E : fds) : fds := <[Z.to_nat fd := None]> E.
(** [fdalloc] *)
Definition fd_free (E : fds) : option nat := Datatypes.fst <$> list_find (λ x, x = None) E.

Fixpoint run (o : os) (p : prog) (E : fds) (path : list nat) : ptree :=
  match p with
  | PExec argv k => if os_exec o argv then TExec argv E else run o k E path
  | PExit s => TExit s
  | PClose fd k => run o k (fd_close fd E) path
  | POpen file mode k =>
      match fd_free E with
      | Some n => if os_open o file mode then run o (k (Z.of_nat n)) (<[n := Some (OFile file mode)]> E) path
                  else run o (k (-1)) E path
      | None => run o (k (-1)) E path
      end
  | PPipe k =>
      match fd_free E with
      | Some a =>
          let E1 := <[a := Some (PipeEnd path false)]> E in
          match fd_free E1 with
          | Some b =>
              if os_pipe o path then
                run o (k (Some (Z.of_nat a, Z.of_nat b))) (<[b := Some (PipeEnd path true)]> E1) path
              else run o (k None) E path
          | None => run o (k None) E path
          end
      | None => run o (k None) E path
      end
  | PDup fd k =>
      match E !! Z.to_nat fd, fd_free E with
      | Some (Some f), Some n => run o k (<[n := Some f]> E) path
      | _, _ => run o k E path
      end
  | PFork k =>
      if os_fork o path then TFork (run o (k 0) E (0%nat :: path)) (run o (k 1) E (1%nat :: path))
      else run o (k (-1)) E path
  | PWait k => TWait E (run o k E path)
  | PWrite fd text k => TWrite fd text (run o k E path)
  | PChdir dir k => TChdir dir (run o (k (if os_chdir o dir then 0 else -1)) E path)
  | PSpin => TSpin
  end.

(** ** What a command means *)
Fixpoint meaning (o : os) (c : scmd) (E : fds) (path : list nat) : ptree :=
  match c with
  | EXEC [] => TExit 1
  | EXEC ((a :: _) as argv) =>
      if os_exec o argv then TExec argv E else TWrite 2 (text_codes "exec " ++ a ++ text_codes " failed
") (TExit 0)
  | REDIR c file mode fd =>
      if os_open o file mode then meaning o c (<[Z.to_nat fd := Some (OFile file mode)]> E) path
      else TWrite 2 (text_codes "open " ++ file ++ text_codes " failed
") (TExit 1)
  | LIST l r => TFork (meaning o l E (0%nat :: path)) (TWait E (meaning o r E (1%nat :: path)))
  | PIPE l r =>
      TFork (meaning o l (<[1%nat := Some (PipeEnd path true)]> E) (0%nat :: path))
        (TFork (meaning o r (<[0%nat := Some (PipeEnd path false)]> E) (0%nat :: 1%nat :: path))
           (TWait E (TWait E (TExit 0))))
  | BACK c => TFork (meaning o c E (0%nat :: path)) (TExit 0)
  end.

(** ** Theorems *)

(** The descriptors of a process the shell starts: 0, 1 and 2, no others. *)
Definition std (E : fds) : Prop := ∃ a b c, E = Some a :: Some b :: Some c :: replicate 13 None.

Lemma message_exec a : message "exec %s failed
" a = text_codes "exec " ++ a ++ text_codes " failed
".
Proof. vm_compute. reflexivity. Qed.
Lemma message_open a : message "open %s failed
" a = text_codes "open " ++ a ++ text_codes " failed
".
Proof. vm_compute. reflexivity. Qed.

Lemma std_set E (k : nat) f : (k < 3)%nat → std E → std (<[k := Some f]> E).
Proof.
  intros Hk (a & b & c & ->). destruct k as [|[|[|k]]]; [| | | lia].
  - by exists f, b, c.
  - by exists a, f, c.
  - by exists a, b, f.
Qed.

(** The programs started, with their descriptors, and the descriptors of
    the processes that wait. *)
Fixpoint execs (t : ptree) : list (list (list Z) * fds) :=
  match t with
  | TExec argv E => [(argv, E)]
  | TExit _ | TSpin => []
  | TFork l r => execs l ++ execs r
  | TWait _ k | TChdir _ k => execs k
  | TWrite _ _ k => execs k
  end.
Fixpoint waits (t : ptree) : list fds :=
  match t with
  | TExec _ _ | TExit _ | TSpin => []
  | TFork l r => waits l ++ waits r
  | TWait E k => E :: waits k
  | TWrite _ _ k | TChdir _ k => waits k
  end.

Lemma run_fork1 o child parent E path : os_fork o path = true →
  run o (fork1 child parent) E path = TFork (run o child E (0%nat :: path)) (run o parent E (1%nat :: path)).
Proof. intros Hf. unfold fork1. cbn [run]. rewrite Hf. done. Qed.

Lemma run_pipe o k a b c path : os_pipe o path = true →
  run o (PPipe k) (Some a :: Some b :: Some c :: replicate 13 None) path =
  run o (k (Some (3, 4)))
    (Some a :: Some b :: Some c :: Some (PipeEnd path false) :: Some (PipeEnd path true) :: replicate 11 None) path.
Proof. intros Hp. cbn [run]. change (fd_free (Some a :: Some b :: Some c :: replicate 13 None)) with (Some 3%nat). cbv beta iota zeta.
  change (fd_free (<[3%nat := Some (PipeEnd path false)]> (Some a :: Some b :: Some c :: replicate 13 None))) with (Some 4%nat).
  cbv beta iota zeta. rewrite Hp. done.
Qed.

Lemma runcmd_run o c E path :
  writable c → std E → (∀ q, os_fork o q = true) → (∀ q, os_pipe o q = true) →
  run o (runcmd c) E path = meaning o c E path.
Proof.
  intros Hw HE Hf Hp. revert E path Hw HE. induction c as [argv|c IH f m d|l IHl r IHr|l IHl r IHr|c IH]; intros E path Hw HE.
  - destruct argv as [|a argv]; [done |]. cbn [runcmd run meaning]. by rewrite message_exec.
  - destruct Hw as (Hw & _ & Hk). assert (Hd : d = 0 ∨ d = 1) by (unfold redir_kind in Hk; naive_solver).
    assert (Hfree : fd_free (fd_close d E) = Some (Z.to_nat d)) by (destruct HE as (a & b & e & ->); by destruct Hd as [->| ->]).
    cbn [runcmd run meaning]. rewrite Hfree. destruct (os_open o f m).
    + rewrite decide_False by lia. rewrite IH; [| done |].
      * unfold fd_close. by rewrite list_insert_insert_eq.
      * unfold fd_close. rewrite list_insert_insert_eq. apply std_set; [lia | done].
    + rewrite decide_True by done. cbn [run]. by rewrite message_open.
  - destruct Hw as [Hl Hr]. destruct HE as (a & b & e & ->). cbn [runcmd]. rewrite run_pipe by done.
    rewrite !run_fork1 by done. cbn [meaning]. f_equal; [| f_equal].
    + transitivity (run o (runcmd l) (Some a :: Some (PipeEnd path true) :: Some e :: replicate 13 None) (0%nat :: path)); [done |].
      apply IHl; [done | by eexists _, _, _].
    + transitivity (run o (runcmd r) (Some (PipeEnd path false) :: Some b :: Some e :: replicate 13 None) (0%nat :: 1%nat :: path)); [done |].
      apply IHr; [done | by eexists _, _, _].
  - destruct Hw as [Hl Hr]. cbn [runcmd meaning]. rewrite run_fork1, IHl by done. f_equal. cbn [run]. f_equal. by apply IHr.
  - cbn [runcmd meaning]. rewrite run_fork1, IH by done. done.
Qed.

Lemma meaning_std o c E path :
  writable c → std E → Forall (λ x, std x.2) (execs (meaning o c E path)) ∧ Forall std (waits (meaning o c E path)).
Proof.
  revert E path. induction c as [argv|c IH f m d|l IHl r IHr|l IHl r IHr|c IH]; intros E path Hw HE; cbn [meaning].
  - destruct argv as [|a argv]; [by repeat constructor |]. destruct (os_exec o (a :: argv)); by repeat constructor.
  - destruct Hw as (Hw & _ & Hk). assert (Hd : d = 0 ∨ d = 1) by (unfold redir_kind in Hk; naive_solver).
    destruct (os_open o f m); [| by repeat constructor]. apply IH; [done |]. apply std_set; [lia | done].
  - destruct Hw as [Hl Hr]. cbn [execs waits]. rewrite !Forall_app.
    destruct (IHl (<[1%nat := Some (PipeEnd path true)]> E) (0%nat :: path) Hl (std_set E 1 _ ltac:(lia) HE)).
    destruct (IHr (<[0%nat := Some (PipeEnd path false)]> E) (0%nat :: 1%nat :: path) Hr (std_set E 0 _ ltac:(lia) HE)).
    split_and!; try done. by repeat constructor.
  - destruct Hw as [Hl Hr]. cbn [execs waits]. rewrite !Forall_app. destruct (IHl E (0%nat :: path) Hl HE), (IHr E (1%nat :: path) Hr HE).
    split_and!; try done. by constructor.
  - cbn [execs waits]. destruct (IH E (0%nat :: path) Hw HE). split; by apply Forall_app_2.
Qed.

(** C6: The shell runs what was typed.  For the text of any command, the
    child of the shell parses it and starts exactly the processes the
    command means: every program gets the descriptors of its redirections
    and pipe ends on 0 and 1 and no other descriptor, the processes that
    wait hold no pipe end, a list waits for its left part, a pipe for both
    parts and a background command for nothing; a file that cannot be
    opened or a program that cannot be executed ends that part with its
    message. *)
Theorem shell_runs o c E path :
  writable c → plain_text (pr c 3) → std E → (∀ q, os_fork o q = true) → (∀ q, os_pipe o q = true) →
  let t := run o (sh_child (pr c 3)) E path in
  t = meaning o c E path ∧ Forall (λ x, std x.2) (execs t) ∧ Forall std (waits t).
Proof.
  intros Hw Hpl HE Hf Hp t. assert (Et : t = meaning o c E path).
  { destruct (parsecmd_printed c Hw) as (pc & buf & Ep & Em). pose proof (parsecmd_strings _ _ _ _ Hpl Ep) as Hs.
    unfold t, sh_child. rewrite Ep. rewrite (cmap_ext_words _ _ _ Hs), Em. by apply runcmd_run. }
  rewrite Et. split; [done |]. by apply meaning_std.
Qed.

Definition sh_env : fds := Some (Std 0) :: Some (Std 1) :: Some (Std 2) :: replicate 13 None.
Definition good_os : os := Os (λ _, true) (λ _, true) (λ _ _, true) (λ _, true) (λ _, true).
Lemma shell_runs_witness :
  Forall (λ x, std x.2) (execs (run good_os (sh_child (pr ls_cmd 3)) sh_env [])).
Proof.
  apply (shell_runs good_os ls_cmd sh_env []); [| | by eexists _, _, _ | done | done].
  - unfold ls_cmd. cbn. unfold word_text, redir_kind, MAXARGS.
    repeat split; try lia; try (repeat constructor; done); try done; right; by right.
  - vm_compute. repeat constructor; done.
Defined.

(** ** The lines [main] reads *)
Definition sh_line (line : list Z) : Prop :=
  ∃ l, line = l ++ [10] ∧ Forall (λ c, c ≠ 0 ∧ c ≠ 10 ∧ c ≠ 13) l ∧ (length line ≤ 99)%nat.

Lemma gets_loop_line room l rest :
  Forall (λ c, c ≠ 0 ∧ c ≠ 10 ∧ c ≠ 13) l → (length l < room)%nat → gets_loop room (l ++ 10 :: rest) = (l ++ [10], rest).
Proof.
  intros Hl. revert room. induction Hl as [|c l (_ & H1 & H2) Hl IH]; intros [|room] Hr; simpl in Hr; try lia; cbn [app gets_loop].
  - rewrite decide_True by auto. done.
  - rewrite decide_False by naive_solver. rewrite IH by lia. done.
Qed.

Lemma getcmd_line line rest : sh_line line → getcmd 100 (line ++ rest) = Some (line, rest).
Proof.
  intros (l & -> & Hl & Hlen). rewrite length_app in Hlen. simpl in Hlen. unfold getcmd, ugets. rewrite <- app_assoc. cbn [app].
  change (Z.to_nat (100 - 1)) with 99%nat. rewrite gets_loop_line by (done || lia).
  assert (Hp : plain_text (l ++ [10])).
  { apply Forall_app_2; [eapply Forall_impl; [exact Hl |]; intros c (? & _); done | by repeat constructor]. }
  rewrite cstr_app by done. destruct l as [|c l]; [done |]. apply Forall_cons in Hl as [[Hc _] _]. cbn [app]. by rewrite decide_False.
Qed.

(** What the user enters: a change of directory, or the command [c], written
    as [l] with any blanks or none in front; and the line this is. *)
Inductive entry := Cd (dir : list Z) | Cmd (l : list Z) (c : scmd).
Definition entry_text (x : entry) : list Z :=
  match x with Cd dir => text_codes "cd " ++ dir | Cmd l _ => l end.
Definition entry_line (x : entry) : list Z := entry_text x ++ [10].
Definition entry_ok (x : entry) : Prop :=
  sh_line (entry_line x) ∧
  match x with
  | Cd _ => True
  | Cmd l c => writable c ∧ skip_ws l = skip_ws (pr c 3) ∧ ¬ text_codes "cd " `prefix_of` l
  end.

(** The processes of a session. *)
Fixpoint session (o : os) (xs : list entry) (E : fds) (path : list nat) : ptree :=
  TWrite 2 (text_codes "$ ")
    match xs with
    | [] => TExit 0
    | Cd dir :: xs =>
        TChdir dir (if os_chdir o dir then session o xs E path
                    else TWrite 2 (text_codes "cannot cd " ++ dir ++ [10]) (session o xs E path))
    | Cmd _ c :: xs => TFork (meaning o c E (0%nat :: path)) (TWait E (session o xs E (1%nat :: path)))
    end.

Lemma message_cd a : message "cannot cd %s
" a = text_codes "cannot cd " ++ a ++ [10].
Proof. vm_compute. reflexivity. Qed.

Lemma cd_line dir : is_cd (entry_line (Cd dir)) = true ∧ cd_dir (entry_line (Cd dir)) = dir.
Proof.
  unfold entry_line, entry_text, is_cd, cd_dir. split; [by apply bool_decide_eq_true |].
  rewrite length_app, Nat.add_sub, take_app_length. done.
Qed.
Lemma cmd_line l c : ¬ text_codes "cd " `prefix_of` l → is_cd (entry_line (Cmd l c)) = false.
Proof.
  intros Hn. apply bool_decide_eq_false. unfold entry_line, entry_text. intros E. apply Hn.
  destruct (decide (3 ≤ length l)%nat) as [Hl|Hl].
  - rewrite take_app_le in E by done. exists (drop 3 l). change (text_codes "cd ") with [99; 100; 32]. by rewrite <- E, take_drop.
  - rewrite take_ge in E by (rewrite length_app; cbn; lia). change [99; 100; 32] with ([99; 100] ++ [32]) in E. by apply app_inj_tail in E as [_ ?].
Qed.

(** The child of a command line becomes what the command means. *)
Lemma child_run o l c E path :
  entry_ok (Cmd l c) → std E → (∀ q, os_fork o q = true) → (∀ q, os_pipe o q = true) →
  run o (sh_child (entry_line (Cmd l c))) E path = meaning o c E path.
Proof.
  intros [(l' & El & Hch & _) (Hw & Hsk & _)] HE Hf Hp. unfold entry_line, entry_text in *. apply app_inj_tail in El as [<- _].
  destruct (parsecmd_typed c l [10] Hw Hsk) as (pc & buf & Ep & Em); [by repeat constructor |].
  assert (Hpl : plain_text (l ++ [10])).
  { apply Forall_app_2; [eapply Forall_impl; [exact Hch |]; intros x (? & _); done | by repeat constructor]. }
  pose proof (parsecmd_strings _ _ _ _ Hpl Ep) as Hs. unfold sh_child. rewrite Ep, (cmap_ext_words _ _ _ Hs), Em. by apply runcmd_run.
Qed.

Lemma main_loop_run o xs fuel E path :
  Forall entry_ok xs → std E → (∀ q, os_fork o q = true) → (∀ q, os_pipe o q = true) → (length (concat (entry_line <$> xs)) < fuel)%nat →
  run o (main_loop fuel (concat (entry_line <$> xs))) E path = session o xs E path.
Proof.
  intros Hx HE Hf Hp. revert fuel path. induction Hx as [|x xs Hok Hx IH]; intros [|fuel] path Hfuel; cbn [fmap list_fmap concat] in *; try lia; [done |].
  cbn [main_loop run session]. change prompt with (text_codes "$ "). f_equal. rewrite getcmd_line by apply Hok.
  rewrite length_app in Hfuel. assert (0 < length (entry_line x))%nat by (unfold entry_line; rewrite length_app; cbn; lia).
  unfold sh_act. destruct x as [dir|l c].
  - destruct (cd_line dir) as [-> ->]. cbn [run]. f_equal. destruct (os_chdir o dir).
    + rewrite decide_False by lia. apply IH. lia.
    + rewrite decide_True by lia. cbn [run]. rewrite message_cd. f_equal. apply IH. lia.
  - rewrite (cmd_line l c) by apply Hok. rewrite run_fork1, (child_run o l c) by done. f_equal. cbn [run]. f_equal. apply IH. lia.
Qed.

(** The descriptors after the first loop of [main]: those that were closed
    are the console. *)
Definition with_console (x : option fobj) : option fobj := Some (default (OFile (text_codes "console") O_RDWR) x).
Lemma ensure_fds_low o k fuel E n path :
  os_open o (text_codes "console") O_RDWR = true → fd_free E = Some n → (n < 3)%nat →
  run o (ensure_fds (S fuel) k) E path =
  run o (ensure_fds fuel k) (<[n := Some (OFile (text_codes "console") O_RDWR)]> E) path.
Proof.
  intros Ho Hn Hlt. cbn [ensure_fds run]. rewrite Hn, Ho. rewrite decide_True by lia. by rewrite decide_False by lia.
Qed.
Lemma ensure_fds_high o k fuel E n path :
  os_open o (text_codes "console") O_RDWR = true → fd_free E = Some n → (3 ≤ n)%nat →
  run o (ensure_fds (S fuel) k) E path = run o k (<[n := None]> E) path.
Proof.
  intros Ho Hn Hge. cbn [ensure_fds run]. rewrite Hn, Ho. rewrite !decide_True by lia. cbn [run]. unfold fd_close.
  by rewrite Nat2Z.id, list_insert_insert_eq.
Qed.
Lemma ensure_fds_run o k x0 x1 x2 path :
  os_open o (text_codes "console") O_RDWR = true →
  run o (ensure_fds 4 k) (x0 :: x1 :: x2 :: replicate 13 None) path =
  run o k (with_console x0 :: with_console x1 :: with_console x2 :: replicate 13 None) path.
Proof.
  intros Ho. destruct x0, x1, x2;
    repeat (erewrite ensure_fds_low; [| exact Ho | reflexivity | by apply Nat.ltb_lt]);
    (erewrite ensure_fds_high; [| exact Ho | reflexivity | by apply Nat.leb_le]); reflexivity.
Qed.

(** C28: The shell's session.  Started with any of the descriptors 0, 1 and 2
    and none above, the shell ends up with the three open and no other.  It
    then treats the lines it reads, each a command of at most 98 characters
    and a newline, one by one: [cd] changes the shell's own directory, with a
    message when that fails; any other command is run by a child, which
    inherits the three descriptors and starts what the command means, and the
    shell waits for a child before it prompts again; it exits at the end of
    the input.  The lines are those the shell's own reads return: what a
    program reads of the shared descriptor 0, the shell does not see. *)
Theorem shell_session o xs x0 x1 x2 :
  Forall entry_ok xs → (∀ q, os_fork o q = true) → (∀ q, os_pipe o q = true) → os_open o (text_codes "console") O_RDWR = true →
  let E := with_console x0 :: with_console x1 :: with_console x2 :: replicate 13 None in
  run o (sh_main (concat (entry_line <$> xs))) (x0 :: x1 :: x2 :: replicate 13 None) [] = session o xs E [].
Proof.
  intros Hx Hf Hp Ho E. unfold sh_main. rewrite ensure_fds_run by done.
  apply main_loop_run; [done | by eexists _, _, _ | done | done | lia].
Qed.
(** [ls -l] and [cd a]; the second fails. *)
Definition two_entries : list entry := [Cmd (text_codes "ls -l") (EXEC [text_codes "ls"; text_codes "-l"]); Cd (text_codes "a")].
Definition no_dir_os : os := Os (λ _, true) (λ _, true) (λ _ _, true) (λ _, true) (λ _, false).
Lemma shell_session_witness :
  let E := Some (Std 0) :: with_console None :: Some (Std 2) :: replicate 13 None in
  run no_dir_os (sh_main (text_codes "ls -l
cd a
")) (Some (Std 0) :: None :: Some (Std 2) :: replicate 13 None) [] =
  TWrite 2 (text_codes "$ ") (TFork (TExec [text_codes "ls"; text_codes "-l"] E)
    (TWait E (TWrite 2 (text_codes "$ ") (TChdir (text_codes "a") (TWrite 2 (text_codes "cannot cd a
") (TWrite 2 (text_codes "$ ") (TExit 0))))))).
Proof.
  refine (shell_session no_dir_os two_entries (Some (Std 0)) None (Some (Std 2)) _ (λ _, eq_refl) (λ _, eq_refl) eq_refl).
  constructor; [| constructor; [| constructor]]; (split; [| cbn]).
  - exists (text_codes "ls -l"). split_and!; [done | vm_compute; repeat constructor; done | vm_compute; lia].
  - split_and!; [repeat constructor; done | unfold MAXARGS; lia | done | by intros [? [=]]].
  - exists (text_codes "cd a"). split_and!; [done | vm_compute; repeat constructor; done | vm_compute; lia].
  - done.
Defined.

(** A longer line is run in pieces, and [cd] without an end of line loses
    its last character. *)
Example sh_long_line :
  getcmd 100 (replicate 120 97) = Some (replicate 99 97, replicate 21 97).
Proof. vm_compute. reflexivity. Qed.
Example sh_cd_eof : (λ x, cd_dir x.1) <$> getcmd 100 (text_codes "cd /ab") = Some (text_codes "/a").
Proof. vm_compute. reflexivity. Qed.
