(* ===== verification/UserProgs.v ===== *)
(** * User programs ([user/wc.c], [user/cat.c], [user/echo.c], [user/ls.c],
      [user/chmod.c], [user/count.c])

    A program runs in [IO]: it writes texts to descriptors and goes on with
    a value or exits with a status; [None] is an access outside an array or
    a string, or a loop that outlives its fuel.  What the kernel answers is
    a parameter: the files as they are opened, what [fstat] says of them and
    what reading them gives.  No other process changes them meanwhile. *)
From S2P Require Import Prelude Params CString Printf Grep.
Import CString.

Notation writes := (list (Z * list Z)).
Definition IO (A : Type) : Type := option (writes * (A + Z)).
Definition io_ret {A} (a : A) : IO A := Some ([], inl a).
Definition io_exit {A} (status : Z) : IO A := Some ([], inr status).
Definition io_bind {A B} (m : IO A) (k : A → IO B) : IO B :=
  match m with
  | Some (o, inl a) => prod_map (o ++.) id <$> k a
  | Some (o, inr s) => Some (o, inr s)
  | None => None
  end.
Definition io_def {A} (x : option A) : IO A := (λ a, ([], inl a)) <$> x.
(** [fprintf(fd, fmt, ...)] *)
Definition say (fd : Z) (fmt : string) (ap : list varg) : IO unit :=
  (λ t, ([(fd, t)], inl tt)) <$> fprintf (text_codes fmt) ap.
Notation "x <~ m ; k" := (io_bind m (λ x, k)) (at level 20, m at level 100, k at level 200, right associativity) : xv6_scope.
Notation "m ;;~ k" := (io_bind m (λ _, k)) (at level 60, right associativity) : xv6_scope.

(** A NUL-terminated argument. *)
Definition arg (s : list Z) : varg := VStr (Some s).

(** ** Reading a file to its end

    A file gives the results of the [read]s that return data, and then the
    end or an error. *)
Record stream := Stream { reads : list (list Z); read_error : bool }.

(** *** [wc] *)
Record wcount := Wcount { wl : Z; ww : Z; wch : Z; inword : bool }.
Definition blanks : list Z := [32; 13; 9; 10; 11; 0].
Definition wc_char (s : wcount) (x : Z) : option wcount :=
  let c := s32 (wch s + 1) in
  let l := if x =? 10 then s32 (wl s + 1) else wl s in
  match strchr blanks x with
  | None => None
  | Some (Some _) => Some (Wcount l (ww s) c false)
  | Some None => Some (if inword s then Wcount l (ww s) c true else Wcount l (s32 (ww s + 1)) c true)
  end.
Fixpoint wc_buf (s : wcount) (buf : list Z) : option wcount :=
  match buf with
  | [] => Some s
  | x :: buf => s' ← wc_char s x; wc_buf s' buf
  end.
Fixpoint wc_reads (s : wcount) (bufs : list (list Z)) : option wcount :=
  match bufs with
  | [] => Some s
  | buf :: bufs => s' ← wc_buf s buf; wc_reads s' bufs
  end.
Definition wc (f : stream) (name : list Z) : IO unit :=
  s <~ io_def (wc_reads (Wcount 0 0 0 false) (reads f));
  if read_error f then say 1 "wc: read error
" [] ;;~ io_exit 1
  else say 1 "%d %d %d %s
" [VInt (wl s); VInt (ww s); VInt (wch s); arg name].

(** *** [cat]; [wr buf n] is what [write(1, buf, n)] returns *)
Fixpoint cat_reads (wr : list Z → Z) (bufs : list (list Z)) : IO unit :=
  match bufs with
  | [] => io_ret tt
  | buf :: bufs =>
      Some ([(1, take (Z.to_nat (wr buf)) buf)], inl tt) ;;~
      if decide (wr buf ≠ Z.of_nat (length buf)) then say 2 "cat: write error
" [] ;;~ io_exit 1
      else cat_reads wr bufs
  end.
Definition cat (wr : list Z → Z) (f : stream) : IO unit :=
  cat_reads wr (reads f) ;;~
  if read_error f then say 2 "cat: read error
" [] ;;~ io_exit 1 else io_ret tt.

(** *** The [main] of both: the standard input, or every argument in turn *)
Fixpoint each_arg (open : list Z → option stream) (body : stream → list Z → IO unit) (cannot : list Z → IO unit)
    (args : list (list Z)) : IO unit :=
  match args with
  | [] => io_exit 0
  | a :: args =>
      match open a with
      | None => cannot a ;;~ io_exit 1
      | Some f => body f a ;;~ each_arg open body cannot args
      end
  end.
Definition wc_main (open : list Z → option stream) (stdin : stream) (args : list (list Z)) : IO unit :=
  match args with
  | [] => wc stdin [] ;;~ io_exit 0
  | _ => each_arg open wc (λ a, say 1 "wc: cannot open %s
" [arg a]) args
  end.
Definition cat_main (wr : list Z → Z) (open : list Z → option stream) (stdin : stream) (args : list (list Z)) : IO unit :=
  match args with
  | [] => cat wr stdin ;;~ io_exit 0
  | _ => each_arg open (λ f _, cat wr f) (λ a, say 2 "cat: cannot open %s
" [arg a]) args
  end.

(** *** [echo] *)
Fixpoint echo_main (args : list (list Z)) : IO unit :=
  match args with
  | [] => io_exit 0
  | a :: args =>
      Some ([(1, a); (1, match args with [] => [10] | _ => [32] end)], inl tt) ;;~ echo_main args
  end.

(** *** [chmod] *)
Fixpoint parse_mode_loop (s : list Z) (mode : Z) : option Z :=
  match s with
  | [] => Some mode
  | c :: s =>
      if c =? 114 then parse_mode_loop s (Z.lor mode M_READ)
      else if c =? 119 then parse_mode_loop s (Z.lor mode M_WRITE)
      else None
  end.
(** [mode] and [is_add] of a string, or [-1] *)
Definition parse_mode (s : list Z) : option (Z * bool) :=
  match s with
  | [] => None
  | c :: s => if (c =? 43) || (c =? 45) then (λ m, (m, c =? 43)) <$> parse_mode_loop s 0 else None
  end.
Definition usage {A} : IO A := say 2 "Usage: chmod [-R] (+|-)(r|w|rw|wr) file_name|dir_name
" [] ;;~ io_exit 1.
(** [chmod path mode is_add recursive] is the system call. *)
Definition chmod_main (chmod : list Z → Z → bool → bool → Z) (args : list (list Z)) : IO unit :=
  match args with
  | a1 :: _ :: _ =>
      r <~ io_def (strcmp (a1 ++ [0]) [45; 82; 0]);
      let recursive := r =? 0 in
      match if recursive then tail args else args with
      | [mode_str; path] =>
          say 1 "Calling chmod on path = %s
" [arg path] ;;~
          match parse_mode mode_str with
          | None => usage
          | Some (mode, is_add) =>
              if chmod path mode is_add recursive <? 0 then
                say 2 "chmod: cannot chmod %s
" [arg path] ;;~ io_exit 1
              else io_exit 0
          end
      | _ => usage
      end
  | _ => usage
  end.

(** ** Directories *)
Record ustat := Ustat { ust_type : Z; ust_ino : Z; ust_size : Z; ust_perm : Z }.
(** What the kernel says of a path: whether it can be opened for reading,
    what [fstat] gives, and the directory entries (inode number and the 14
    bytes of the name) that reading it gives. *)
Record view := View { v_open : list Z → bool; v_stat : list Z → option ustat; v_dir : list Z → list (Z * list Z) }.
(** [stat] of the user library *)
Definition ulib_stat (v : view) (n : list Z) : option ustat := if v_open v n then v_stat v n else None.
Definition ch_slash : Z := 47.

(** *** [ls] *)
Definition perm_str (perm : Z) : list Z :=
  [if Z.land perm M_READ =? 0 then 45 else 114; if Z.land perm M_WRITE =? 0 then 45 else 119].
(** [for (p = path + i; p >= path && *p != '/'; p--); p++] over [path] and
    its NUL: the offset of [p] *)
Fixpoint fmt_scan (path : list Z) (i : nat) : nat :=
  if (path ++ [0]) !!! i =? ch_slash then S i else match i with O => O | S i => fmt_scan path i end.
(** The result and the static buffer. *)
Definition fmtname (sbuf path : list Z) : list Z * list Z :=
  let p := drop (fmt_scan path (length path)) path in
  if (14 <=? Z.of_nat (length p)) then (p, sbuf)
  else
    let sbuf := memset (length p) 32 (Z.to_nat DIRSIZ - length p) (splice 0 p sbuf) in
    (cstr sbuf, sbuf).
(** The loop over the entries; [buf] of the source is [path], a slash and
    the name.  [size] is passed as a 64-bit argument and read as an [int]. *)
Fixpoint ls_entries (v : view) (path sbuf : list Z) (ents : list (Z * list Z)) : IO (list Z) :=
  match ents with
  | [] => io_ret sbuf
  | (inum, name) :: ents =>
      if inum =? 0 then ls_entries v path sbuf ents
      else
        let buf := path ++ [ch_slash] ++ cstr name in
        match ulib_stat v buf with
        | None => say 1 "ls: cannot stat %s
" [arg buf] ;;~ ls_entries v path sbuf ents
        | Some st =>
            let '(nm, sbuf) := fmtname sbuf buf in
            say 1 "%s %d %d %d %s
" [arg nm; VInt (ust_type st); VInt (s32 (ust_ino st)); VInt (s32 (ust_size st)); arg (perm_str (ust_perm st))] ;;~
            ls_entries v path sbuf ents
        end
  end.
Definition ls (v : view) (sbuf path : list Z) : IO (list Z) :=
  if negb (v_open v path) then say 2 "ls: cannot open %s
" [arg path] ;;~ io_ret sbuf
  else
    match v_stat v path with
    | None => say 2 "ls: cannot stat %s
" [arg path] ;;~ io_ret sbuf
    | Some st =>
        if Z.land (ust_perm st) M_READ =? 0 then say 2 "ls: cannot open %s
" [arg path] ;;~ io_ret sbuf
        else if ust_type st =? T_FILE then
          let '(nm, sbuf) := fmtname sbuf path in
          say 1 "%s %d %d %l %s
" [arg nm; VInt (ust_type st); VInt (s32 (ust_ino st)); VLong (ust_size st); arg (perm_str (ust_perm st))] ;;~
          io_ret sbuf
        else if ust_type st =? T_DIR then
          if 512 <? Z.of_nat (length path) + 1 + DIRSIZ + 1 then say 1 "ls: path too long
" [] ;;~ io_ret sbuf
          else ls_entries v path sbuf (v_dir v path)
        else io_ret sbuf
    end.
Fixpoint ls_args (v : view) (sbuf : list Z) (args : list (list Z)) : IO unit :=
  match args with
  | [] => io_exit 0
  | a :: args => sbuf <~ ls v sbuf a; ls_args v sbuf args
  end.
Definition ls_main (v : view) (args : list (list Z)) : IO unit :=
  match args with
  | [] => ls_args v (replicate 15 0) [[46]]
  | _ => ls_args v (replicate 15 0) args
  end.

(** *** [count]: a tree of the files under a directory *)
Definition MAX_DEPTH : nat := 20.
(** The array [is_last] and the counters. *)
Record cstate := Cstate { is_last : list Z; file_num : Z; dir_num : Z }.
Definition set_last (level : nat) (x : Z) (s : cstate) : option cstate :=
  if decide (level < length (is_last s))%nat then Some (Cstate (<[level := x]> (is_last s)) (file_num s) (dir_num s)) else None.

(** [for (i = i; i < i + k; i++) printf("%c   ", "| "[is_last[i]])] *)
Fixpoint bars (is_last : list Z) (i k : nat) : IO unit :=
  match k with
  | O => io_ret tt
  | S k =>
      b <~ io_def (is_last !! i); c <~ io_def ([124; 32; 0] !! Z.to_nat b);
      say 1 "%c   " [VInt c] ;;~ bars is_last (S i) k
  end.
(** [basename] points to bytes that must hold a NUL. *)
Definition print (basename : list Z) (level : nat) (is_last : list Z) : IO unit :=
  (if decide (0 < level)%nat then bars is_last 0 (level - 1) ;;~ say 1 "|
" [] else io_ret tt) ;;~
  bars is_last 0 (level - 1) ;;~
  n <~ io_def (strlen basename);
  let name := take n basename in
  if decide (level = 0)%nat then say 1 "%s
" [arg name] else say 1 "+-- %s
" [arg name].

(** [strcmp(de.name, ".") && strcmp(de.name, "..")] *)
Definition not_dots (name : list Z) : option bool :=
  r ← strcmp name [46; 0]; if decide (r = 0) then Some false
  else r ← strcmp name [46; 46; 0]; Some (bool_decide (r ≠ 0)).
(** The first loop: how many entries there are. *)
Fixpoint count_entries (ents : list (Z * list Z)) (count : Z) : option Z :=
  match ents with
  | [] => Some count
  | (inum, name) :: ents =>
      if inum =? 0 then count_entries ents count
      else b ← not_dots name; count_entries ents (if (b : bool) then s32 (count + 1) else count)
  end.
(** The second loop; [rec] is [traverse] on an entry. *)
Fixpoint visit_entries (rec : list Z → list Z → cstate → IO cstate) (path : list Z) (level : nat) (count : Z)
    (ents : list (Z * list Z)) (cnt : Z) (s : cstate) : IO cstate :=
  match ents with
  | [] => io_ret s
  | (inum, name) :: ents =>
      if inum =? 0 then visit_entries rec path level count ents cnt s
      else
        b <~ io_def (not_dots name);
        if (b : bool) then
          s <~ io_def (if cnt =? s32 (count - 1) then set_last level 1 s else Some s);
          s <~ rec (path ++ [ch_slash] ++ cstr name) name s;
          s <~ io_def (set_last level 0 s);
          visit_entries rec path level count ents (s32 (cnt + 1)) s
        else visit_entries rec path level count ents cnt s
  end.
Fixpoint traverse (fuel : nat) (v : view) (path basename : list Z) (level : nat) (s : cstate) : IO cstate :=
  match fuel with
  | O => None
  | S fuel =>
      if negb (v_open v path) then say 1 "%s [error opening dir]
" [arg path] ;;~ io_ret s
      else
        match v_stat v path with
        | None => say 2 "tree: cannot stat (new recursion) %s
" [arg path] ;;~ io_ret s
        | Some st =>
            if ust_type st =? T_FILE then
              if decide (level = 0)%nat then say 1 "%s [error opening dir]
" [arg path] ;;~ io_ret s
              else print basename level (is_last s) ;;~ io_ret (Cstate (is_last s) (s32 (file_num s + 1)) (dir_num s))
            else if ust_type st =? T_DIR then
              let s := if decide (0 < level)%nat then Cstate (is_last s) (file_num s) (s32 (dir_num s + 1)) else s in
              print basename level (is_last s) ;;~
              if 512 <? Z.of_nat (length path) + 1 + DIRSIZ + 1 then say 1 "tree: path too long
" [] ;;~ io_ret s
              else
                count <~ io_def (count_entries (v_dir v path) 0);
                visit_entries (λ p b s, traverse fuel v p b (S level) s) path level count (v_dir v path) 0 s
            else io_ret s
        end
  end.

(** The child's [main]: the tree on the output, the two counters to the
    pipe.  A tree deeper than [MAX_DEPTH] runs off [is_last] within three
    levels, so the fuel is never what ends it. *)
Definition count_child (v : view) (argv1 : list Z) : IO (list Z) :=
  s <~ traverse 24 v argv1 (argv1 ++ [0]) 0 (Cstate (replicate MAX_DEPTH 0) 0 0);
  say 1 "
" [] ;;~ io_ret (le_enc 4 (file_num s) ++ le_enc 4 (dir_num s)).
(** The parent's: [data] is what the pipe gives before its end.  The
    variables have no value when a [read] fails. *)
Definition count_parent (data : list Z) : IO unit :=
  if decide (length (take 4 data) = 4)%nat then
    if decide (length (take 4 (drop 4 data)) = 4)%nat then
      say 1 "%d directories, %d files
" [VInt (s32 (le_dec (take 4 (drop 4 data)))); VInt (s32 (le_dec (take 4 data)))]
    else say 1 "tree: pipe read failed (dir_num)
" [] ;;~ None
  else say 1 "tree: pipe read failed (file_num)
" [] ;;~ None.

(** [main] of the process [fork] returned [pid] to; the parent does not
    wait, so its line may come before the end of the tree. *)
Definition count_main (v : view) (pipe_ok : bool) (pid : Z) (args : list (list Z)) (data : list Z) : IO unit :=
  match args with
  | [] => say 1 "tree: missing argv[1]
" [] ;;~ io_exit (-1)
  | argv1 :: _ =>
      if negb pipe_ok then say 1 "tree: pipe failed
" [] ;;~ io_exit (-1)
      else if pid =? 0 then count_child v argv1 ;;~ io_exit 0
      else if 0 <? pid then count_parent data ;;~ io_exit 0
      else say 1 "tree: fork failed
" [] ;;~ io_exit (-1)
  end.

(** *** Examples *)
Definition demo_name (l : list Z) : list Z := l ++ replicate (14 - length l) 0.
Definition demo_view : view :=
  View (λ p, bool_decide (p ∈ [[97]; [97; 47; 98]; [97; 47; 99]; [97; 47; 99; 47; 100]]))
    (λ p, Some (Ustat (if decide (p = [97] ∨ p = [97; 47; 99]) then T_DIR else T_FILE) 7 (2 ^ 32 + 5) 3))
    (λ p, if decide (p = [97]) then [(7, demo_name [46]); (1, demo_name [46; 46]); (8, demo_name [98]); (0, demo_name [120]); (9, demo_name [99])]
          else [(10, demo_name [100])]).
Definition out_text {A} (m : IO A) : list Z := match m with Some (o, _) => concat (o.*2) | None => [] end.
Example count_demo :
  out_text (count_child demo_view [97]) = text_codes "a
|
+-- b
|
+-- c
    |
    +-- d

".
Proof. vm_compute. reflexivity. Qed.
Example ls_demo :
  out_text (ls demo_view (replicate 15 0) [97; 47; 98]) = text_codes "b              2 7 5 rw
".
Proof. vm_compute. reflexivity. Qed.
