(* ===== verification/UserProgsTheorems.v ===== *)
(** * User programs: what [wc], [ls] and [count] print *)
From S2P Require Import Prelude Params CString Printf PrintfTheorems Grep UserProgs.
Import CString.

(** [m] prints [t] on descriptor 1, nothing elsewhere, and returns [a]. *)
Definition prints {A} (m : IO A) (t : list Z) (a : A) : Prop :=
  ∃ o : writes, m = Some (o, inl a) ∧ Forall (λ x, x.1 = 1) o ∧ concat (o.*2) = t.

Lemma prints_ret {A} (a : A) : prints (io_ret a) [] a.
Proof. by exists []. Qed.
Lemma prints_def {A} (x : option A) a : x = Some a → prints (io_def x) [] a.
Proof. intros ->. by exists []. Qed.
Lemma prints_bind {A B} (m : IO A) (k : A → IO B) t a t' b :
  prints m t a → prints (k a) t' b → prints (io_bind m k) (t ++ t') b.
Proof.
  intros (o & -> & Ho & <-) (o' & E & Ho' & <-). exists (o ++ o'). cbn. rewrite E. cbn. split_and!; [done | by apply Forall_app_2 |].
  by rewrite fmap_app, concat_app.
Qed.
(** The same where the first part prints nothing, and where the last does. *)
Lemma prints_bind_l {A B} (m : IO A) (k : A → IO B) a t b :
  prints m [] a → prints (k a) t b → prints (io_bind m k) t b.
Proof. apply (prints_bind m k []). Qed.
Lemma prints_bind_r {A B} (m : IO A) (k : A → IO B) t a b :
  prints m t a → prints (k a) [] b → prints (io_bind m k) t b.
Proof. intros Hm Hk. rewrite <- (app_nil_r t). by eapply prints_bind. Qed.
Lemma prints_say fmt ap t : fprintf (text_codes fmt) ap = Some t → prints (say 1 fmt ap) t tt.
Proof. intros E. exists [(1, t)]. unfold say. rewrite E. cbn. rewrite app_nil_r. split_and!; [done | by repeat constructor | done]. Qed.

(** ** Strings *)
Lemma strlen_total s : 0 ∈ s → ∃ n, strlen s = Some n ∧ take n s = cstr s.
Proof.
  induction s as [|x s IH]; intros Hs; [by apply elem_of_nil in Hs |]. cbn [strlen cstr]. destruct (decide (x = 0)) as [->|Hx]; [by exists 0%nat |].
  destruct IH as (n & -> & E); [set_solver |]. exists (S n). cbn. by rewrite E.
Qed.
Definition dots : list (list Z) := [[46]; [46; 46]].
Lemma not_dots_spec name : 0 ∈ name → not_dots name = Some (bool_decide (cstr name ∉ dots)).
Proof.
  intros Hn. unfold not_dots. destruct (strcmp_spec name [46; 0]) as (r & -> & Hr); [done | set_solver |].
  destruct (strcmp_spec name [46; 46; 0]) as (r' & E' & Hr'); [done | set_solver |]. cbn in *.
  destruct (decide (r = 0)) as [->|Hne].
  - f_equal. symmetry. apply bool_decide_eq_false. unfold dots. rewrite (proj1 Hr) by done. set_solver.
  - rewrite E'. cbn. f_equal. apply bool_decide_ext. unfold dots. rewrite Hr'.
    assert (cstr name ≠ [46]) by tauto. set_solver.
Qed.

(** ** Directory trees *)
Inductive ftree := FFile | FDev | FDir (ents : list (list Z * ftree)).

Section Over.
Context {A : Type} (z : A) (add : A → A → A) (f : bool → list Z → ftree → A).
(** What [f] says of the entries of a directory, the last one marked. *)
Fixpoint over (ents : list (list Z * ftree)) : A :=
  match ents with
  | [] => z
  | (nm, t) :: ents => add (f (match ents with [] => true | _ => false end) nm t) (over ents)
  end.
End Over.

Fixpoint depth (t : ftree) : nat :=
  match t with FDir ents => over 0%nat Nat.max (λ _ _ t, S (depth t)) ents | _ => 0%nat end.
Fixpoint nfiles (t : ftree) : Z :=
  match t with FFile => 1 | FDev => 0 | FDir ents => over 0 Z.add (λ _ _ t, nfiles t) ents end.
Fixpoint ndirs (t : ftree) : Z :=
  match t with FDir ents => 1 + over 0 Z.add (λ _ _ t, ndirs t) ents | _ => 0 end.

(** The picture of a tree: [flags] says, for every directory above, whether
    the entry followed is its last one. *)
Definition bars_text (flags : list bool) : list Z :=
  concat ((λ b : bool, if b then text_codes "    " else text_codes "|   ") <$> flags).
Definition line_text (flags : list bool) (name : list Z) : list Z :=
  match flags with
  | [] => name ++ [10]
  | _ => let b := bars_text (take (length flags - 1) flags) in
         b ++ [124; 10] ++ b ++ text_codes "+-- " ++ name ++ [10]
  end.
Fixpoint render (flags : list bool) (name : list Z) (t : ftree) : list Z :=
  match t with
  | FFile => line_text flags name
  | FDev => []
  | FDir ents => line_text flags name ++ over [] app (λ last nm t, render (flags ++ [last]) nm t) ents
  end.

(** The entries [count] follows, and the tree the kernel shows at a path. *)
Definition live (ents : list (Z * list Z)) : list (Z * list Z) := filter (λ e, e.1 ≠ 0 ∧ cstr e.2 ∉ dots) ents.
Fixpoint shows (v : view) (path : list Z) (t : ftree) : Prop :=
  v_open v path = true ∧
  match v_stat v path with
  | None => False
  | Some st =>
      match t with
      | FFile => ust_type st = T_FILE
      | FDev => ust_type st ≠ T_FILE ∧ ust_type st ≠ T_DIR
      | FDir ents =>
          ust_type st = T_DIR ∧ Z.of_nat (length path) <= 496 ∧ Z.of_nat (length (v_dir v path)) < 2 ^ 31 ∧
          Forall (λ e, 0 ∈ e.2) (v_dir v path) ∧
          ((λ e, cstr e.2) <$> live (v_dir v path)) = ents.*1 ∧
          over True and (λ _ nm t, shows v (path ++ [ch_slash] ++ nm) t) ents
      end
  end.

(** ** [count] *)
Definition flag (b : bool) : Z := if b then 1 else 0.
Definition flags_array (flags : list bool) : list Z := (flag <$> flags) ++ replicate (MAX_DEPTH - length flags) 0.
Lemma flags_array_length flags : (length flags ≤ MAX_DEPTH)%nat → length (flags_array flags) = MAX_DEPTH.
Proof. intros H. unfold flags_array. rewrite length_app, length_fmap, length_replicate. lia. Qed.

Lemma bars_prints flags i k :
  (i + k ≤ length flags)%nat → prints (bars (flags_array flags) i k) (bars_text (take k (drop i flags))) tt.
Proof.
  revert i. induction k as [|k IH]; intros i Hik; cbn [bars]; [apply prints_ret |].
  destruct (lookup_lt_is_Some_2 flags i) as [b Hb]; [lia |]. rewrite (drop_S _ _ _ Hb). cbn [take].
  eapply prints_bind_l.
  { apply prints_def. unfold flags_array. rewrite lookup_app_l by (rewrite length_fmap; lia). rewrite list_lookup_fmap, Hb. done. }
  eapply (prints_bind_l _ _ (if b then 32 else 124)); [apply prints_def; by destruct b |].
  change (bars_text (b :: take k (drop (S i) flags))) with ((if b then text_codes "    " else text_codes "|   ") ++ bars_text (take k (drop (S i) flags))).
  eapply prints_bind; [apply prints_say; by destruct b | apply IH; lia].
Qed.

Lemma print_prints flags base :
  0 ∈ base → prints (print base (length flags) (flags_array flags)) (line_text flags (cstr base)) tt.
Proof.
  intros Hb. destruct (strlen_total base Hb) as (n & En & Et). unfold print.
  pose proof (bars_prints flags 0 (length flags - 1) ltac:(lia)) as Hbars. rewrite drop_0 in Hbars.
  destruct flags as [|b flags]; cbn [line_text].
  - cbn [length] in *. eapply prints_bind_l; [apply prints_ret |]. eapply prints_bind_l; [exact Hbars |].
    eapply prints_bind_l; [by apply prints_def |]. cbv zeta. rewrite Et. rewrite decide_True by done. by apply prints_say.
  - rewrite decide_True by (simpl; lia). set (bt := bars_text _) in *. cbv zeta. rewrite (app_assoc bt). eapply prints_bind.
    + eapply prints_bind; [exact Hbars | by apply prints_say].
    + eapply prints_bind; [exact Hbars |]. eapply prints_bind_l; [by apply prints_def |]. rewrite Et, decide_False by done.
      by apply prints_say.
Qed.

Lemma live_cons inum name ents :
  live ((inum, name) :: ents) = if decide (inum ≠ 0 ∧ cstr name ∉ dots) then (inum, name) :: live ents else live ents.
Proof. unfold live. rewrite filter_cons. done. Qed.

Lemma count_entries_live ents c :
  Forall (λ e, 0 ∈ e.2) ents → count_entries ents (s32 c) = Some (s32 (c + Z.of_nat (length (live ents)))).
Proof.
  intros Hn. revert c. induction Hn as [|[inum name] ents Hn _ IH]; intros c; cbn [count_entries].
  - do 2 f_equal. cbn. lia.
  - rewrite live_cons. destruct (Z.eqb_spec inum 0) as [->|Hi].
    + rewrite decide_False by naive_solver. apply IH.
    + rewrite not_dots_spec by done. cbn [mbind option_bind]. case_bool_decide as Hd.
      * rewrite s32_add, IH, decide_True by done. cbn [length]. do 2 f_equal. lia.
      * rewrite decide_False by naive_solver. apply IH.
Qed.

(** The state of [traverse] below the directories [flags]. *)
Definition at_flags (flags : list bool) (fn dn : Z) : cstate := Cstate (flags_array flags) (s32 fn) (s32 dn).
Lemma flags_array_set flags b :
  (length flags < MAX_DEPTH)%nat → <[length flags := flag b]> (flags_array flags) = flags_array (flags ++ [b]).
Proof.
  intros Hl. unfold flags_array. rewrite insert_app_r_alt by (rewrite length_fmap; lia). rewrite length_fmap, Nat.sub_diag, fmap_app, <- app_assoc.
  f_equal. rewrite length_app. replace (MAX_DEPTH - length flags)%nat with (S (MAX_DEPTH - (length flags + 1)))%nat by lia. done.
Qed.
Lemma flags_array_false flags : (length flags < MAX_DEPTH)%nat → flags_array (flags ++ [false]) = flags_array flags.
Proof.
  intros Hl. rewrite <- flags_array_set by done. apply list_insert_id. unfold flags_array.
  rewrite lookup_app_r by (rewrite length_fmap; lia). rewrite length_fmap, Nat.sub_diag. apply lookup_replicate_2. lia.
Qed.
Lemma set_last_flag flags b b' fn dn :
  (length flags < MAX_DEPTH)%nat →
  set_last (length flags) (flag b) (at_flags (flags ++ [b']) fn dn) = Some (at_flags (flags ++ [b]) fn dn).
Proof.
  intros Hl. unfold set_last, at_flags. cbn. rewrite decide_True by (rewrite flags_array_length; [done | rewrite length_app; simpl; lia]).
  do 2 f_equal. rewrite <- !flags_array_set by done. by rewrite list_insert_insert_eq.
Qed.

(** [traverse] on an entry, as the loop needs it. *)
Definition good_visit (rec : list Z → list Z → cstate → IO cstate) (v : view) (path : list Z) (flags : list bool)
    (nm : list Z) (t : ftree) : Prop :=
  ∀ name last fn dn, 0 ∈ name → cstr name = nm →
    prints (rec (path ++ [ch_slash] ++ nm) name (at_flags (flags ++ [last]) fn dn)) (render (flags ++ [last]) nm t)
      (at_flags (flags ++ [last]) (fn + nfiles t) (dn + ndirs t)).

Lemma visit_entries_prints rec v path flags raw total : ∀ (ents : list (list Z * ftree)) cnt fn dn,
  (length flags < MAX_DEPTH)%nat ∨ ents = [] → Forall (λ e, 0 ∈ e.2) raw →
  ((λ e, cstr e.2) <$> live raw) = ents.*1 → over True and (λ _ nm t, good_visit rec v path flags nm t) ents →
  cnt + Z.of_nat (length ents) = total → 0 <= cnt → total < 2 ^ 31 →
  prints (visit_entries rec path (length flags) total raw cnt (at_flags flags fn dn))
    (over [] app (λ last nm t, render (flags ++ [last]) nm t) ents)
    (at_flags flags (fn + over 0 Z.add (λ _ _ t, nfiles t) ents) (dn + over 0 Z.add (λ _ _ t, ndirs t) ents)).
Proof.
  induction raw as [|[inum name] raw IH]; intros ents cnt fn dn Hl Hn Hlive Hrec Hcnt H0 Ht; cbn [visit_entries].
  - destruct ents; [| done]. cbn. rewrite !Z.add_0_r. apply prints_ret.
  - apply Forall_cons in Hn as [Hname Hn]. cbn in Hname. rewrite live_cons in Hlive. destruct (Z.eqb_spec inum 0) as [->|Hi].
    { rewrite decide_False in Hlive by naive_solver. by apply IH. }
    eapply prints_bind_l; [apply prints_def, not_dots_spec; done |]. case_bool_decide as Hd; [| rewrite decide_False in Hlive by naive_solver; by apply IH].
    rewrite decide_True in Hlive by done. destruct ents as [|[nm t] ents]; [done |]. cbn in Hlive. injection Hlive as Hnm Hlive.
    destruct Hl as [Hl|]; [| done]. cbn [over] in Hrec |- *. destruct Hrec as [Hv Hrec]. cbn [length] in Hcnt.
    set (last := match ents with [] => true | _ => false end).
    assert (Elast : (if cnt =? s32 (total - 1) then set_last (length flags) 1 (at_flags flags fn dn) else Some (at_flags flags fn dn))
                    = Some (at_flags (flags ++ [last]) fn dn)).
    { assert (Ef : at_flags flags fn dn = at_flags (flags ++ [false]) fn dn) by (unfold at_flags; by rewrite flags_array_false).
      rewrite s32_small by lia. rewrite Ef. unfold last. destruct ents as [|e ents]; cbn [length] in Hcnt.
      - replace (cnt =? total - 1) with true by lia. apply (set_last_flag flags true). done.
      - replace (cnt =? total - 1) with false by lia. done. }
    eapply prints_bind_l; [by apply prints_def |]. eapply prints_bind; [rewrite Hnm; by apply Hv |].
    eapply prints_bind_l; [apply prints_def, (set_last_flag flags false); done |].
    unfold at_flags at 1. rewrite flags_array_false by done. fold (at_flags flags (fn + nfiles t) (dn + ndirs t)).
    rewrite !Z.add_assoc, s32_small by lia. apply IH; auto; lia.
Qed.

Lemma over_and (f g : bool → list Z → ftree → Prop) ents :
  (∀ b nm t, (nm, t) ∈ ents → f b nm t → g b nm t) → over True and f ents → over True and g ents.
Proof.
  induction ents as [|[nm t] ents IH]; intros Hfg; cbn [over]; [done |]. intros [Hf Hrest]. split.
  - apply Hfg; [by left | done].
  - apply IH; [| done]. intros b nm' t' Hin. apply Hfg. by right.
Qed.
Lemma depth_entry nm t ents : (nm, t) ∈ ents → (depth t < depth (FDir ents))%nat.
Proof.
  cbn [depth]. induction ents as [|[nm' t'] ents IH]; [by intros ?%elem_of_nil |]. intros [[= <- <-]|Hin]%elem_of_cons; cbn [over].
  - lia.
  - specialize (IH Hin). lia.
Qed.

Lemma traverse_prints fuel v path base t flags fn dn :
  shows v path t → 0 ∈ base → (depth t < fuel)%nat → (length flags + depth t ≤ MAX_DEPTH)%nat →
  flags ≠ [] ∨ (∃ ents, t = FDir ents) →
  prints (traverse fuel v path base (length flags) (at_flags flags fn dn)) (render flags (cstr base) t)
    (at_flags flags (fn + nfiles t) (dn + ndirs t - match flags with [] => 1 | _ => 0 end)).
Proof.
  revert path base t flags fn dn. induction fuel as [|fuel IH]; intros path base t flags fn dn Hsh Hb Hf Hd Htop; [lia |].
  destruct t as [| |ents]; cbn [shows] in Hsh; destruct Hsh as [Ho Hst]; cbn [traverse]; rewrite Ho; cbn [negb];
    destruct (v_stat v path) as [st|]; try done; cbn [render].
  - rewrite Hst, Z.eqb_refl. destruct Htop as [Hfl|[? ?]]; [| done]. rewrite decide_False by (by destruct flags).
    eapply prints_bind_r; [by apply print_prints |]. cbn. rewrite s32_add. destruct flags; [done |].
    replace (dn + 0 - 0) with dn by lia. apply prints_ret.
  - destruct Hst as [H1 H2]. rewrite (proj2 (Z.eqb_neq _ _) H1), (proj2 (Z.eqb_neq _ _) H2). destruct Htop as [Hfl|[? ?]]; [| done].
    destruct flags; [done |]. cbn [nfiles ndirs]. rewrite Z.sub_0_r, !Z.add_0_r. apply prints_ret.
  - destruct Hst as (Ht & Hlen & Hn & Hnul & Hnames & Hsub). rewrite Ht. change (T_DIR =? T_FILE) with false. rewrite Z.eqb_refl.
    set (d' := dn + 1 - match flags with [] => 1 | _ => 0 end).
    assert (Es : (if decide (0 < length flags)%nat then Cstate (is_last (at_flags flags fn dn)) (file_num (at_flags flags fn dn))
        (s32 (dir_num (at_flags flags fn dn) + 1)) else at_flags flags fn dn) = at_flags flags fn d').
    { unfold d'. destruct flags; cbn [length]; [rewrite decide_False by lia; f_equal; lia |]. rewrite decide_True by lia. unfold at_flags.
      cbn. rewrite s32_add. do 2 f_equal. lia. }
    rewrite Es. eapply prints_bind; [by apply print_prints |]. unfold DIRSIZ. replace (512 <? _) with false by lia.
    assert (Hlive : (length (live (v_dir v path)) ≤ length (v_dir v path))%nat) by apply length_filter.
    apply (f_equal length) in Hnames as Hnum. rewrite !length_fmap in Hnum.
    eapply prints_bind_l; [apply prints_def, (count_entries_live _ 0); done |]. rewrite s32_small by lia.
    replace (dn + ndirs (FDir ents) - match flags with [] => 1 | _ => 0 end) with (d' + over 0 Z.add (λ _ _ t, ndirs t) ents)
      by (unfold d'; cbn [ndirs]; lia).
    cbn [nfiles]. apply (visit_entries_prints _ v); [| done | done | | lia | lia | lia].
    + destruct ents as [|[nm t] ents]; [by right | left]. pose proof (depth_entry nm t ((nm, t) :: ents) ltac:(by left)). lia.
    + eapply over_and; [| exact Hsub]. cbn beta. intros _ nm t Hin Hsh name last fn' dn' Hname <-.
      pose proof (depth_entry _ _ _ Hin). replace (S (length flags)) with (length (flags ++ [last])) by (rewrite length_app; simpl; lia).
      replace (dn' + ndirs t) with (dn' + ndirs t - match flags ++ [last] with [] => 1 | _ => 0 end) by (destruct flags; cbn; lia).
      apply IH; [done | done | lia | rewrite length_app; simpl; lia | left; by destruct flags].
Qed.

(** The decimal text of an [int]. *)
Definition dec (n : Z) : list Z := default [] (printint udigits n 10 true).
Lemma uprintint_dec n : - 2 ^ 31 <= n < 2 ^ 31 → uprintint n 10 true = Some (dec n).
Proof.
  intros Hn. unfold uprintint, dec. destruct (printint_digits n 0 [] Hn ltac:(unfold ch_0; lia)) as (ds & _ & -> & _). done.
Qed.
Lemma s32_range x : - 2 ^ 31 <= s32 x < 2 ^ 31.
Proof. unfold s32. pose proof (Z.mod_pos_bound (x + 2 ^ 31) (2 ^ 32)). lia. Qed.

(** Formats, piece by piece. *)
Lemma vprintf_text l fmt ap : ch_percent ∉ l → vprintf false (l ++ fmt) ap = (l ++.) <$> vprintf false fmt ap.
Proof.
  induction l as [|c l IH]; intros Hl; cbn [app vprintf negb]; [by destruct (vprintf false fmt ap) |].
  apply not_elem_of_cons in Hl as [Hc Hl]. rewrite decide_False, IH by done. by destruct (vprintf false fmt ap).
Qed.
Lemma vprintf_d fmt n ap :
  - 2 ^ 31 <= n < 2 ^ 31 → vprintf false (37 :: 100 :: fmt) (VInt n :: ap) = (dec n ++.) <$> vprintf false fmt ap.
Proof. intros Hn. cbn [vprintf negb]. rewrite !decide_True by done. by rewrite uprintint_dec. Qed.
Lemma vprintf_s fmt s ap :
  vprintf false (37 :: 115 :: fmt) (arg s :: ap) = (s ++.) <$> vprintf false fmt ap.
Proof. reflexivity. Qed.

Lemma count_parent_prints f d :
  prints (count_parent (le_enc 4 (s32 f) ++ le_enc 4 (s32 d)))
    (dec (s32 d) ++ text_codes " directories, " ++ dec (s32 f) ++ text_codes " files
") tt.
Proof.
  unfold count_parent. rewrite take_app_length', drop_app_length' by (by rewrite le_enc_length). rewrite (take_ge (le_enc 4 (s32 d))) by (by rewrite le_enc_length).
  rewrite !le_enc_length, !decide_True by done.
  assert (Hs : ∀ x, s32 (le_dec (le_enc 4 (s32 x))) = s32 x).
  { intros x. rewrite le_dec_enc. change (256 ^ Z.of_nat 4) with (2 ^ 32). fold (u32 (s32 x)). rewrite s32_u32. apply s32_small, s32_range. }
  rewrite !Hs. apply prints_say. unfold fprintf.
  change (text_codes "%d directories, %d files
") with (37 :: 100 :: text_codes " directories, " ++ 37 :: 100 :: text_codes " files
" ++ []).
  rewrite vprintf_d by apply s32_range. rewrite vprintf_text by (vm_compute; set_solver).
  rewrite vprintf_d by apply s32_range. rewrite vprintf_text by (vm_compute; set_solver). cbn [vprintf fmap option_fmap option_map].
  by rewrite app_nil_r.
Qed.

(** C29: [count] draws the tree under a directory and counts it.  For a
    directory under which the kernel shows a tree no deeper than the twenty
    levels of its array, with paths that fit its buffer and names that end
    within their fourteen bytes, the child prints exactly the picture of the
    tree, every entry on its own line below the bars of the directories
    above it and in the order of the directories, and the parent prints the
    numbers of directories below it and of files. *)
Theorem count_tree v path ents :
  shows v path (FDir ents) → plain_text path → (depth (FDir ents) ≤ MAX_DEPTH)%nat →
  ∃ data, prints (count_child v path) (render [] path (FDir ents) ++ [10]) data ∧
    prints (count_parent data)
      (dec (s32 (ndirs (FDir ents) - 1)) ++ text_codes " directories, " ++ dec (s32 (nfiles (FDir ents))) ++ text_codes " files
") tt.
Proof.
  intros Hsh Hp Hd. eexists. split; [| apply count_parent_prints]. unfold count_child.
  pose proof (traverse_prints 24 v path (path ++ [0]) (FDir ents) [] 0 0 Hsh) as Ht.
  rewrite cstr_app in Ht by done. eapply prints_bind; [apply Ht; [set_solver | unfold MAX_DEPTH in *; lia | done | eauto] |].
  eapply prints_bind_r; [by apply prints_say |]. apply prints_ret.
Qed.
Lemma count_tree_witness :
  ∃ data, prints (count_child demo_view [97]) (text_codes "a
|
+-- b
|
+-- c
    |
    +-- d

") data ∧ prints (count_parent data) (text_codes "1 directories, 2 files
") tt.
Proof.
  apply (count_tree demo_view [97] [([98], FFile); ([99], FDir [([100], FFile)])]).
  - vm_compute. repeat split; try done; try lia; repeat constructor; set_solver.
  - by repeat constructor.
  - vm_compute. lia.
Defined.

(** ** [wc] *)
Definition blank (x : Z) : Prop := x ∈ [32; 13; 9; 10; 11].
#[global] Instance blank_dec x : Decision (blank x) := _.
(** [worded t n]: the text [t] has [n] words, the maximal runs of
    characters that are not blank. *)
Inductive worded : list Z → nat → Prop :=
| W_end b : Forall blank b → worded b 0
| W_last b w : Forall blank b → w ≠ [] → Forall (λ x, ¬ blank x) w → worded (b ++ w) 1
| W_word b w x t n :
    Forall blank b → w ≠ [] → Forall (λ x, ¬ blank x) w → blank x → worded t n → worded (b ++ w ++ x :: t) (S n).
Definition newlines (t : list Z) : Z := Z.of_nat (length (filter (λ x, x = 10) t)).

Definition wc_at (l w c : Z) (b : bool) : wcount := Wcount (s32 l) (s32 w) (s32 c) b.
Lemma strchr_blanks x :
  (blank x → ∃ k, strchr blanks x = Some (Some k)) ∧ (¬ blank x → strchr blanks x = Some None).
Proof.
  unfold blank, blanks. cbn [strchr]. change (32 =? 0) with false. change (13 =? 0) with false. change (9 =? 0) with false.
  change (10 =? 0) with false. change (11 =? 0) with false. change (0 =? 0) with true. cbv beta iota.
  rewrite !elem_of_cons, elem_of_nil.
  destruct (Z.eqb_spec 32 x), (Z.eqb_spec 13 x), (Z.eqb_spec 9 x), (Z.eqb_spec 10 x), (Z.eqb_spec 11 x); subst; split; intros Hx; eauto; try lia; exfalso; naive_solver.
Qed.

Lemma wc_buf_app s a b : wc_buf s (a ++ b) = (s' ← wc_buf s a; wc_buf s' b).
Proof. revert s. induction a as [|x a IH]; intros s; cbn [app wc_buf]; [done |]. destruct (wc_char s x); cbn; [apply IH | done]. Qed.
Lemma wc_reads_concat s bufs : wc_reads s bufs = wc_buf s (concat bufs).
Proof.
  revert s. induction bufs as [|b bufs IH]; intros s; cbn [wc_reads concat]; [done |]. rewrite wc_buf_app.
  destruct (wc_buf s b); cbn; [apply IH | done].
Qed.
Lemma newlines_app a b : newlines (a ++ b) = newlines a + newlines b.
Proof. unfold newlines. rewrite filter_app, length_app. lia. Qed.
Lemma newlines_cons x a : newlines (x :: a) = (if x =? 10 then 1 else 0) + newlines a.
Proof. unfold newlines. rewrite filter_cons. destruct (Z.eqb_spec x 10); [rewrite decide_True by done; cbn [length]; lia | by rewrite decide_False]. Qed.

Lemma wc_char_blank l w c b x :
  blank x → wc_char (wc_at l w c b) x = Some (wc_at (l + if x =? 10 then 1 else 0) w (c + 1) false).
Proof.
  intros Hx. destruct (proj1 (strchr_blanks x) Hx) as [k E]. unfold wc_char, wc_at. rewrite E. cbn.
  destruct (x =? 10); rewrite !s32_add; [done | by rewrite Z.add_0_r].
Qed.
Lemma wc_char_word l w c b x :
  ¬ blank x → wc_char (wc_at l w c b) x = Some (wc_at l (w + if b then 0 else 1) (c + 1) true).
Proof.
  intros Hx. unfold wc_char, wc_at. rewrite (proj2 (strchr_blanks x) Hx). cbn.
  replace (x =? 10) with false; [| symmetry; apply Z.eqb_neq; intros ->; apply Hx; unfold blank; set_solver].
  destruct b; rewrite !s32_add; [by rewrite Z.add_0_r | done].
Qed.
Lemma wc_buf_blank l w c b t :
  Forall blank t → wc_buf (wc_at l w c b) t = Some (wc_at (l + newlines t) w (c + Z.of_nat (length t)) (b && bool_decide (t = []))).
Proof.
  intros Ht. revert l c b. induction Ht as [|x t Hx _ IH]; intros l c b; cbn [wc_buf].
  - rewrite andb_true_r. cbn. by rewrite !Z.add_0_r.
  - rewrite wc_char_blank by done. cbn [mbind option_bind]. rewrite IH, newlines_cons, (bool_decide_eq_false_2 (x :: t = [])), andb_false_r by done. cbn [length andb].
    do 2 f_equal; lia.
Qed.
Lemma wc_buf_word l w c b t :
  Forall (λ x, ¬ blank x) t → t ≠ [] →
  wc_buf (wc_at l w c b) t = Some (wc_at (l + newlines t) (w + if b then 0 else 1) (c + Z.of_nat (length t)) true).
Proof.
  intros Ht. revert w c b. induction Ht as [|x t Hx Ht IH]; intros w c b Hne; [done |]. cbn [wc_buf].
  rewrite wc_char_word by done. cbn [mbind option_bind]. rewrite newlines_cons.
  replace (x =? 10) with false; [| symmetry; apply Z.eqb_neq; intros ->; apply Hx; unfold blank; set_solver].
  destruct t as [|y t]; [cbn; by rewrite !Z.add_0_r |]. rewrite IH by done. cbn [length]. do 2 f_equal; lia.
Qed.

Lemma wc_buf_worded t n l w c :
  worded t n → ∃ b, wc_buf (wc_at l w c false) t = Some (wc_at (l + newlines t) (w + Z.of_nat n) (c + Z.of_nat (length t)) b).
Proof.
  intros Ht. revert l w c. induction Ht as [b Hb|b wd Hb Hne Hw|b wd x t n Hb Hne Hw Hx Ht IH]; intros l w c.
  - eexists. rewrite wc_buf_blank by done. do 2 f_equal; lia.
  - eexists. rewrite wc_buf_app, wc_buf_blank by done. cbn [mbind option_bind andb]. rewrite wc_buf_word by done.
    rewrite newlines_app, length_app. do 2 f_equal; lia.
  - specialize (IH (l + newlines b + newlines wd + if x =? 10 then 1 else 0) (w + 1) (c + Z.of_nat (length b) + Z.of_nat (length wd) + 1)).
    destruct IH as [b' IH]. exists b'.
    rewrite wc_buf_app, wc_buf_blank by done. cbn [mbind option_bind andb]. rewrite wc_buf_app, wc_buf_word by done. cbn [mbind option_bind wc_buf].
    rewrite wc_char_blank by done. cbn [mbind option_bind]. rewrite IH, !newlines_app, newlines_cons, !length_app. cbn [length].
    do 2 f_equal; lia.
Qed.

(** [wc] counts lines, words and characters, whatever the pieces in
    which [read] gives the file: it prints the number of newlines, the
    number of maximal runs of non-blank characters and the number of
    characters, each as an [int]. *)
Theorem wc_counts f name n :
  read_error f = false → worded (concat (reads f)) n →
  prints (wc f name)
    (dec (s32 (newlines (concat (reads f)))) ++ [32] ++ dec (s32 (Z.of_nat n)) ++ [32] ++
     dec (s32 (Z.of_nat (length (concat (reads f))))) ++ [32] ++ name ++ [10]) tt.
Proof.
  intros He Hw. destruct (wc_buf_worded _ _ 0 0 0 Hw) as [b E]. unfold wc. eapply prints_bind_l.
  { apply prints_def. rewrite wc_reads_concat. exact E. }
  rewrite He. apply prints_say. unfold fprintf. cbn [wl ww wch wc_at]. rewrite !Z.add_0_l.
  change (text_codes "%d %d %d %s
") with (37 :: 100 :: [32] ++ 37 :: 100 :: [32] ++ 37 :: 100 :: [32] ++ 37 :: 115 :: [10] ++ []).
  do 3 (rewrite vprintf_d by apply s32_range; rewrite vprintf_text by (vm_compute; set_solver)).
  rewrite vprintf_s, vprintf_text by (vm_compute; set_solver). done.
Qed.
Lemma wc_counts_witness :
  prints (wc (Stream [[97; 98; 32; 99]; [100; 10]] false) [120]) (text_codes "1 2 6 x
") tt.
Proof.
  apply (wc_counts (Stream [[97; 98; 32; 99]; [100; 10]] false) [120] 2); [done |].
  apply (W_word [] [97; 98] 32 [99; 100; 10] 1); [by constructor | done | repeat constructor; unfold blank; set_solver | unfold blank; set_solver |].
  apply (W_word [] [99; 100] 10 [] 0); [by constructor | done | repeat constructor; unfold blank; set_solver | unfold blank; set_solver |].
  by constructor.
Defined.

(** ** [ls] *)
Definition pad (nm : list Z) : list Z := nm ++ replicate (14 - length nm) 32.
Lemma scan_char a nm (j : nat) :
  ch_slash ∉ nm → (j ≤ length nm)%nat → ((a ++ ch_slash :: nm) ++ [0]) !!! S (length a + j) ≠ ch_slash.
Proof.
  intros Hs Hj. rewrite <- app_assoc, list_lookup_total_alt, lookup_app_r by lia.
  replace (S (length a + j) - length a)%nat with (S j) by lia.
  change (((ch_slash :: nm) ++ [0]) !! S j) with ((nm ++ [0]) !! j).
  destruct (decide (j < length nm)%nat) as [Hlt|Hge].
  - destruct (lookup_lt_is_Some_2 nm j Hlt) as [x Hx]. rewrite lookup_app_l, Hx by done. cbn. intros ->. by apply list_elem_of_lookup_2 in Hx.
  - rewrite lookup_app_r by lia. replace (j - length nm)%nat with 0%nat by lia. done.
Qed.
Lemma fmt_scan_slash a nm (j : nat) :
  ch_slash ∉ nm → (j ≤ length nm)%nat → fmt_scan (a ++ ch_slash :: nm) (S (length a + j)) = S (length a).
Proof.
  intros Hs. induction j as [|j IH]; intros Hj; cbn [fmt_scan]; rewrite (proj2 (Z.eqb_neq _ _) (scan_char a nm _ Hs Hj)).
  - rewrite Nat.add_0_r.
    assert (E : ((a ++ ch_slash :: nm) ++ [0]) !!! length a =? ch_slash = true).
    { apply Z.eqb_eq. rewrite <- app_assoc, list_lookup_total_alt, lookup_app_r by lia. by rewrite Nat.sub_diag. }
    destruct (length a) as [|k]; cbn [fmt_scan]; by rewrite E.
  - rewrite Nat.add_succ_r. apply IH. lia.
Qed.

(** The static buffer of [fmtname]: its last byte is never written. *)
Definition good_sbuf (sbuf : list Z) : Prop := ∃ b, sbuf = b ++ [0] ∧ length b = 14%nat.
Lemma fmtname_pad sbuf a nm :
  good_sbuf sbuf → plain_text nm → ch_slash ∉ nm → (length nm ≤ 14)%nat →
  ∃ sbuf', fmtname sbuf (a ++ ch_slash :: nm) = (pad nm, sbuf') ∧ good_sbuf sbuf'.
Proof.
  intros (b & -> & Hb) Hp Hs Hl. unfold fmtname.
  replace (fmt_scan _ _) with (S (length a)); [| rewrite length_app; cbn [length];
    rewrite Nat.add_succ_r; by rewrite fmt_scan_slash].
  replace (drop (S (length a)) (a ++ ch_slash :: nm)) with nm by (rewrite drop_app_ge by lia; replace (S (length a) - length a)%nat with 1%nat by lia; done).
  unfold pad. destruct (Z.leb_spec 14 (Z.of_nat (length nm))).
  - eexists. split; [| by exists b]. replace (14 - length nm)%nat with 0%nat by lia. by rewrite app_nil_r.
  - assert (E : memset (length nm) 32 (Z.to_nat DIRSIZ - length nm) (splice 0 nm (b ++ [0])) = (nm ++ replicate (14 - length nm) 32) ++ [0]).
    { change (Z.to_nat DIRSIZ) with 14%nat. rewrite memset_splice by (rewrite splice_length; rewrite ?length_app; simpl; lia).
      unfold splice. rewrite take_0, !app_nil_l, length_replicate, Nat.add_0_l.
      rewrite take_app_length, drop_app_ge by lia. replace (length nm + (14 - length nm) - length nm)%nat with (14 - length nm)%nat by lia.
      rewrite drop_drop. replace (length nm + (14 - length nm))%nat with (length b) by lia. rewrite drop_app_length.
      by rewrite <- app_assoc. }
    cbv zeta. rewrite E. exists ((nm ++ replicate (14 - length nm) 32) ++ [0]). split; [| eexists; split; [done | rewrite length_app, length_replicate; lia]].
    rewrite cstr_app; [done |]. apply Forall_app_2; [done |]. by apply Forall_replicate.
Qed.

Definition ls_line (nm : list Z) (st : ustat) : list Z :=
  pad nm ++ [32] ++ dec (ust_type st) ++ [32] ++ dec (s32 (ust_ino st)) ++ [32] ++ dec (s32 (ust_size st)) ++ [32] ++
  perm_str (ust_perm st) ++ [10].
(** The lines of the entries in use. *)
Fixpoint ls_lines (v : view) (path : list Z) (ents : list (Z * list Z)) : list Z :=
  match ents with
  | [] => []
  | (inum, name) :: ents =>
      (if inum =? 0 then [] else
       match ulib_stat v (path ++ ch_slash :: cstr name) with
       | Some st => ls_line (cstr name) st
       | None => text_codes "ls: cannot stat " ++ path ++ ch_slash :: cstr name ++ [10]
       end) ++ ls_lines v path ents
  end.
Definition ls_name (name : list Z) : Prop := length name = 14%nat ∧ ch_slash ∉ name.
Definition short_type (v : view) : Prop := ∀ p st, v_stat v p = Some st → - 2 ^ 15 <= ust_type st < 2 ^ 15.

Lemma cstr_sub s x : x ∈ cstr s → x ∈ s.
Proof. induction s as [|y s IH]; cbn [cstr]; [done |]. case_decide; [by intros ?%elem_of_nil |]. set_solver. Qed.
Lemma cstr_len s : (length (cstr s) ≤ length s)%nat.
Proof. induction s as [|y s IH]; cbn [cstr]; [done |]. case_decide; cbn [length]; lia. Qed.

Lemma ls_entries_prints v path ents sbuf :
  Forall (λ e, ls_name e.2) ents → short_type v → good_sbuf sbuf →
  ∃ sbuf', prints (ls_entries v path sbuf ents) (ls_lines v path ents) sbuf' ∧ good_sbuf sbuf'.
Proof.
  intros Hn Hty. revert sbuf. induction Hn as [|[inum name] ents [Hlen Hsl] _ IH]; intros sbuf Hs; cbn [ls_entries ls_lines].
  - exists sbuf. split; [apply prints_ret | done].
  - destruct (inum =? 0); [by apply IH |]. cbn [app]. destruct (ulib_stat v (path ++ ch_slash :: cstr name)) as [st|] eqn:Est.
    + destruct (fmtname_pad sbuf path (cstr name) Hs) as (sbuf' & E & Hs'); [apply cstr_nonzero | by intros ?%cstr_sub | pose proof (cstr_len name); cbn in Hlen; lia |].
      rewrite E. destruct (IH sbuf' Hs') as (sbuf'' & Hp & Hg). exists sbuf''. split; [| done]. eapply prints_bind; [| exact Hp].
      apply prints_say. unfold fprintf, ls_line.
      assert (- 2 ^ 31 <= ust_type st < 2 ^ 31) by (unfold ulib_stat in Est; destruct (v_open v _); [apply Hty in Est; lia | done]).
      change (text_codes "%s %d %d %d %s
") with (37 :: 115 :: [32] ++ 37 :: 100 :: [32] ++ 37 :: 100 :: [32] ++ 37 :: 100 :: [32] ++ 37 :: 115 :: [10] ++ []).
      rewrite vprintf_s, vprintf_text by (vm_compute; set_solver).
      do 3 (rewrite vprintf_d by (done || apply s32_range); rewrite vprintf_text by (vm_compute; set_solver)).
      rewrite vprintf_s, vprintf_text by (vm_compute; set_solver). done.
    + destruct (IH sbuf Hs) as (sbuf'' & Hp & Hg). exists sbuf''. split; [| done]. eapply prints_bind; [| exact Hp].
      apply prints_say. unfold fprintf. change (text_codes "ls: cannot stat %s
") with (text_codes "ls: cannot stat " ++ 37 :: 115 :: [10] ++ []).
      rewrite vprintf_text, vprintf_s, vprintf_text by (vm_compute; set_solver). cbn [vprintf fmap option_fmap option_map].
      rewrite !app_nil_r, <- !app_assoc. done.
Qed.

(** [ls] of a directory prints one line for every entry in use, in the
    order of the directory: the name padded to fourteen characters, the
    type, the inode number and the size as [int]s, and the permissions; an
    entry whose status cannot be read gets a message instead. *)
Theorem ls_lists v path st sbuf :
  v_open v path = true → v_stat v path = Some st → ust_type st = T_DIR → Z.land (ust_perm st) M_READ ≠ 0 →
  Z.of_nat (length path) <= 496 → Forall (λ e, ls_name e.2) (v_dir v path) → short_type v → good_sbuf sbuf →
  ∃ sbuf', prints (ls v sbuf path) (ls_lines v path (v_dir v path)) sbuf' ∧ good_sbuf sbuf'.
Proof.
  intros Ho Hst Ht Hp Hlen Hn Hty Hs. unfold ls. rewrite Ho, Hst, Ht. cbn [negb]. rewrite (proj2 (Z.eqb_neq _ _) Hp).
  change (T_DIR =? T_FILE) with false. rewrite Z.eqb_refl. unfold DIRSIZ. replace (512 <? _) with false by lia. by apply ls_entries_prints.
Qed.
